(* ===== verification/_CoqProject ===== *)
-Q . S2P
Prelude.v
StateMachine.v
EventLoop.v
Identity.v
Selection.v
DependencyTracker.v
HexBytes.v
StateVisibility.v
StateDistribution.v
Grapher.v
StateView.v
TxTypes.v
CoordTypes.v
World.v
TxActions.v
TxMachine.v
Sample.v
TxPropagation.v
TxGates.v
Endorsement.v
DispatchLoop.v
BlockHeight.v
CoordWorld.v
CoordActions.v
CoordEndorse.v
CoordMachine.v
CoordSample.v
CoordInvariants.v
CoordWf.v
CoordRuns.v
CoordStepDown.v
CoordProtocol.v
CoordDelegation.v
CoordSlot.v
CoordAssembly.v
CoordAnswers.v
OrigTypes.v
OrigWorld.v
OrigTxActions.v
OrigTxMachine.v
OrigActions.v
OrigMachine.v
OrigSample.v
OrigTxLifecycle.v
OrigTxGates.v
OrigInvariants.v
OrigRuns.v
OrigDelegation.v
OrigFinal.v
NotoTypes.v
NotoChecks.v
NotoEndorse.v
NotoBalance.v
NotoCodec.v
NotoSample.v
NotoStates.v
NotoAssemble.v
NotoSelection.v
NotoAgreement.v
NotoCompletion.v
NotoReceipts.v
NotoEvents.v
NotoPrepare.v
NotoLedger.v
NotoCommit.v
NotoContractSample.v
PubTxGas.v
PubTxStages.v
PubTxSafety.v
PubTxRuns.v
PubTxOrchestrator.v
PubTxPool.v
PubTxNonces.v
PubTxFunds.v
