(* ===== verification/Prelude.v ===== *)
(** * Verification of the Paladin sequencer, its public transactions and the Noto token

    Paladin runs private transactions on an EVM ledger.  For each private contract one node acts as
    coordinator: transactions are delegated to it by their originators, and it has each of them
    assembled by its originator, endorsed, approved for dispatch, prepared by the domain, and
    dispatched to the base ledger in order, ahead of the confirmation of what it depends on.  The
    domain says what a transaction is: what its states are, who has to endorse it, and which call of
    a contract it becomes.  This development models both sides of the sequencer, coordinator and
    originator, as written in Go under src/core/go/internal/sequencer, with the parts of the SDK they
    lean on; how public transactions are given nonces, priced, signed and submitted for it, under
    src/core/go/internal/publictxmgr; and one domain, the notarised token Noto under src/domains/noto,
    with the contract under src/solidity that its calls are made to.

    ** The parts, and where they are modelled

    - [Prelude]: record update, errors, 64-bit arithmetic, the memory monad [M] (a Go function that
      reads and writes memory and may return an error; writes made before the error stay), and the
      two ways of reasoning about it, [respects] (a preorder that every outcome follows) and [keeps]
      (an invariant, and the ways in which a call may fail to return).
    - [StateMachine]: statemachine/statemachine.go, guards.go, validators.go.  The engine that all
      state machines share, given as functions of how an entity's machine lies in memory ([Entity],
      with the laws of [EntityLaws]).  [EventLoop]: the two channels and the loop that feed it.
    - [Identity], [HexBytes]: identity locators and hex bytes of the SDK (pldtypes).
    - [Selection]: common/selection.go, who may coordinate.
    - [DependencyTracker], [StateVisibility], [Grapher], [StateView]: the four packages of that name
      under coordinator/.  The grapher shares lock objects between its maps, so its model has a heap
      of locks and pointers into it.
    - [StateDistribution]: common/state_distribution_builder.go, who is sent which new state.
    - [TxTypes]: the data of a coordinated transaction, its states and its events.  [World]: the
      memory of one coordinator ([World]) with its transactions, the four packages' objects, what
      has been sent, queued and persisted, timers, goroutines and held locks; components outside the
      model are the class [Env].  [TxActions]: one definition per action, guard and validator of
      coordinator/transaction/*.go.  [TxMachine]: the state table, one definition per state, and
      [coordinatorTransactionHandleEvent], by which machines hand events to each other.
    - [DispatchLoop]: coordinator/dispatch_loop.go.
    - [CoordTypes]: the coordinator's own states, events, snapshots and messages.  [CoordWorld]: its
      memory ([Coord], around the [World] its transactions see), its configuration, timers and
      outbox; components outside the model are the class [CoordEnv].  [CoordActions]: one definition
      per action, guard and validator of coordinating.go, inactive.go, snapshot.go, selection.go and
      state_transition_guards.go.  [CoordEndorse]: endorsing.go, with the goroutine that endorses and
      its retries.  [CoordMachine]: state_machine.go, one definition per state, [NewCoordinator] and
      [Start], and [coordinatorProcessEvent], what the event loop does with one event.
    - [OrigTypes], [OrigWorld]: the originator's data, events and memory, with the class [OrigEnv].
      [OrigTxActions], [OrigTxMachine]: originator/transaction/*.go, one definition per action, guard,
      validator and state, and the goroutines that resolve verifiers, assemble and sign.
      [OrigActions], [OrigMachine]: originator/*.go, the delegation loop, heartbeats, failover and
      clean-up, the state table, [NewOriginator] and [originatorProcessEvent].
    - [NotoTypes], [NotoChecks], [NotoEndorse]: domains/noto: parameters, configuration and states as
      JSON, the checks on amounts, owners, signatures and lock transitions, and [InitTransaction] and
      [EndorseTransaction] with the handlers of all fourteen functions.  [NotoStates], [NotoAssemble]:
      states.go, manifest.go and [AssembleTransaction].  [NotoPrepare]: [PrepareTransaction], the calls
      of the contract and the hooks that carry them.  [NotoCompletion], [NotoReceipts], [NotoEvents]:
      [CheckStateCompletion], [BuildReceipt] and [HandleEventBatch].  Libraries and callbacks of the
      domain are the class [NotoEnv], ABI encodings the class [LedgerEncoding], the commitment tree the
      class [CommitmentTree].
    - [NotoLedger]: solidity/contracts/domains/noto/Noto.sol, the contract of variant 2, as functions
      of its memory.  [NotoCommit]: the calls of the domain as the contract decodes them.
    - [PubTxGas]: gas_price_client.go, the price of a submission.  [PubTxStages]: one public transaction
      in flight, its stages, generations and goroutines, from in_flight_transaction_*.go,
      in_memory_tx_state.go, transaction_signing.go, transaction_submission.go and
      submission_writer.go; [step] is one step of it.  [PubTxOrchestrator]: the transactions of one
      address, from transaction_orchestrator.go and dispatch_action.go, with the tables, confirmations
      and the engine's look at it; [poolStepRun] is one step.
    - [Sample], [CoordSample], [OrigSample], [NotoSample], [NotoContractSample]: environments, small
      worlds, nodes, requests and a run of the contract on which the theorems' hypotheses are
      exhibited.

    ** What is shown

    - [TxPropagation]: whatever is delivered, transactions move only along the abstract table
      [nextStates], outcomes are final, propagation terminates, and no goroutine blocks on a lock it
      holds unless dependencies are cyclic.
    - [TxGates]: responses to a request that is not outstanding have no effect, save rejections of
      assemble and pre-dispatch requests; forward states are entered only by the answer they wait for,
      dispatch approval is requested only when all dependencies are ready, and going back to assembly
      clears what the assembly led to; and the race between repooling and the prepare goroutine.
    - [Endorsement]: when a plan is fulfilled, when it cannot be any more, that failures count once,
      and what an endorsement without a verifier does.
    - [DispatchLoop]: order and limit of what is persisted, and what happens to dispatches queued
      twice.  [BlockHeight]: what a refresh at an epoch boundary leaves behind.
    - [Grapher]: consistency of its indexes, and each operation's effect on locks, dependencies and
      views, including handover between coordinators.  [DependencyTracker]: the chains refine a set
      of edges.  [StateVisibility], [StateView]: states are disclosed only to their recipients.
    - [CoordRuns]: [coord_step] is one step of a coordinator (an event of either queue, the dispatch
      loop, a timer, a goroutine, the world outside), and on every run its data is consistent
      ([CoordInvariants], [CoordWf]), it dispatches only while Active, and its states follow the table
      [coordNextStates].  [CoordAssembly] (by the counting of [CoordSlot]): at most one transaction is
      in assembly.  [CoordStepDown], [CoordProtocol]: a coordinator outranked by another steps down
      and drops what it has not dispatched, of two active ones exactly one stands, the signing
      identity rotates only once nothing dispatched is unconfirmed, and closing ends.
      [CoordDelegation]: each delegated transaction is acknowledged with what became of it, and two
      ways in which a message from outside goes wrong.  [CoordAnswers]: endorsement requests are
      answered within the configured attempts.
    - [OrigTxLifecycle], [OrigInvariants], [OrigRuns]: [orig_step] is one step of an originator; on
      every run its data is consistent and its states and those of its transactions follow the tables
      [origNextStates] and [otxNextStates].  [OrigTxGates]: a node assembles and approves dispatch only
      for its current delegate and only what was asked last, and how a repeated request after an error
      is answered wrongly.  [OrigDelegation]: transactions are delegated in the order they were created,
      and failover tries every candidate.  [OrigFinal]: a confirmed transaction leaves the originator.
    - [NotoBalance]: function by function, which amounts of an endorsed transaction balance, whose coins
      it takes and what was signed; [NotoSample] shows what endorsement does not check.  [NotoCodec]: coins
      are read back.  [NotoSelection]: coin selection terminates and takes the oldest coins that are
      enough, where no two were created at the same time, and where it skips coins otherwise.
      [NotoAgreement]: what [AssembleTransaction] makes of a payment, [EndorseTransaction] endorses.
      [NotoCompletion]: a node waits exactly for the states that were sent to it.  [NotoReceipts]: receipts
      report net transfers.  [NotoEvents]: what a batch reports is what its events say, from variant 1 on.
    - [NotoLedger]: on every run of the contract a locked state leaves only as its lock commits to, and
      delegation binds.  [NotoCommit]: the calls in the receipt of a prepared lock are those that the
      contract has committed to and accepts; the direct unlock is a call that it never accepts.
    - [StateDistribution]: every entry of the recipients of a new state, and its originator, get it, on
      their node.
    - [PubTxGas]: a price that replaces another is higher by the configured percentage, up to the caps.
      [PubTxSafety] (with the triples that its proofs are in): whatever is sent to the chain has been
      recorded before, and no pass panics.  [PubTxRuns]: a transaction is submitted when all it needs
      is there, however slow its goroutines are, and one at rest with a hash and no submission never is.
      [PubTxPool], [PubTxNonces]: on every run of an address' orchestrators nonces are distinct and no
      iteration panics.  [PubTxFunds]: the gas of what is signed is covered by the balance, and a stale
      orchestrator is not stopped as such.
    - [StateMachine], [EventLoop], [Selection], [Identity], [HexBytes]: the engine's dispatch,
      ordering of the queues, agreement on and rotation of priorities, and round trips.

    Where the code departs from what it means to do, the theorem states what it does.

    ** Choices

    - Fuel: [coordinatorTransactionHandleEvent] uses it for the nesting of machines, and one more than
      the number of transactions is enough ([handleEvent_nesting_bounded]).  [retryDo] uses it for
      attempts, and the configured maximum is enough ([endorsement_answered]).  [drainOrigInternal] uses
      it for queued internal events and [confirmed_transaction_leaves] says how many there are.
      [prepareInputs] uses it for pages of the store, and one more than there are coins is enough
      ([prepareInputs_selects_oldest]).
    - A crash of the model is a Go panic, a mutex taken twice by one goroutine, or exhausted fuel.
      After a crash the model says what memory was left, and nothing continues from it.
    - Ranging over a Go map is ranging over a permutation of its keys that is a parameter.  The queues
      of the event loops are unbounded here (their bounds are in [EventLoop]); starting and stopping a
      goroutine is one step; what the pending-data check answers does not change within one event.
    - Event loop and dispatch loop are interleaved at whole events.  A prepare goroutine is known by
      its start and its result, and by what it reads through shared pointers.  A dispatch that waits for
      capacity stays at the head of its queue here, and is in a variable of the loop in the code.
    - A goroutine of a public transaction is one step, or one for each attempt of a submission; what it
      finds outside ([Outside]) is given to the step.  A flush that fails is taken to have written nothing.  The times that the code reads are arguments, one
      for each step.  Prices, balances and costs are unbounded as in the code; nonces have 64 bits, and
      the theorems on them ask that no count of the chain comes near the end of those.
    - Identifiers drawn at random are numbers from a counter.  Block heights wrap at 64 bits where
      the code's do; counters of retries are unbounded.

    - Endorser pools and priority lists are values: no code changes one in place after it is shared.
    - JSON is a parsed value.  A member is found by its exact name (Go also accepts another case), the
      last of several wins, and null leaves a field unset, as decoding into a struct does.
    - In the contract a missing entry of a mapping is zero, and events, signatures and gas are left
      out; what both sides hash and encode is related by the laws of [LawfulABI].

    ** What is not modelled

    The sequencer manager and its transport client turn messages into the events that come in here and
    keep one sequencer per contract; the sync points, the state manager, the transaction manager and
    the block indexer are mostly queries and writes of a database; the domain manager, plugins, transport,
    registry, keys and groups are subsystems of their own behind interfaces that are parameters here.
    Of the public transaction manager, the pool of orchestrators over addresses, the cache of balances,
    gas estimation, submissions received from other nodes and the queries of the API are left out.  Of Noto, deployment and configuration (ABI encoded blobs),
    read-only calls, signing, the commitment tree itself, and the contracts of other variants are left
    out.  The domain Zeto is about circuits that are not in the repository, and Pente is written in
    Java.  Logs, metrics, traces and contexts are left out everywhere. *)

From stdpp Require Export base tactics option list gmap sets strings fin_maps fin_map_dom.
From stdpp Require Export relations.
From Stdlib Require Export ZArith Lia.

#[export] Set Default Goal Selector "!".

(** ** Record update

    Go assigns struct fields in place; the models rebuild the record.  A record type declares
    how it is rebuilt from its own projections, and the setter of a projection is computed from
    that by abstracting the projection. *)

Class Rebuild (R : Type) := rebuild : R -> R.

Class FieldSetter {R E : Type} (proj : R -> E) := field_set : (E -> E) -> R -> R.
Arguments field_set {R E} proj {_} f r.

Ltac solve_field_setter :=
  lazymatch goal with
  | |- @FieldSetter ?R ?E ?proj =>
      let f := fresh "f" in
      let r := fresh "r" in
      refine (fun (f : E -> E) (r : R) => _);
      let inst := constr:(_ : Rebuild R) in
      let h := eval red in inst in
      let body := eval cbv beta in (h r) in
      let abs := eval pattern (proj r) in body in
      lazymatch abs with
      | ?F _ => let t := eval cbv beta in (F (f (proj r))) in exact t
      end
  end.

#[export] Hint Extern 1 (FieldSetter _) => solve_field_setter : typeclass_instances.

Declare Scope paladin_scope.
Delimit Scope paladin_scope with paladin.
Open Scope paladin_scope.

Notation "r <| proj ::= f |>" := (field_set proj f r)
  (at level 1, left associativity, proj at level 1) : paladin_scope.
Notation "r <| proj := v |>" := (field_set proj (fun _ => v) r)
  (at level 1, left associativity, proj at level 1, v at level 99) : paladin_scope.

(** ** Identifiers, errors and machine integers *)

(** A [uuid.UUID].  [uuid.Nil] is 0; [uuid.New] draws from a counter of the memory, which idealises
    the library's 122 random bits as never repeating. *)
Abbreviation uuid := N (only parsing).
Definition uuid_Nil : uuid := 0%N.

(** Go [error] values: the sequencer's own messages by their i18n key, and an error handed back by
    a component outside the model. *)
Inductive error : Type :=
| MsgSequencerTransactionNotFound (id : uuid)
| MsgSequencerGrapherAddMinterAlreadyExistsError (tx : uuid) (state : string) (minter : uuid)
| MsgSequencerInternalError (detail : string)
| MsgTypesInvalidHex (detail : string)
| MsgTypesValueInvalidHexBytes32 (length : nat)
| MsgSequencerStateViewInvalid (request : string) (cause : error)
| MsgTypesPrivateIdentityLocatorInvalid (locator : string)
| MsgTypesPrivateIdentityReqFullyQualified (locator : string)
| MsgTypesInvalidNameSafeCharAlphaBoxed (field : string) (value : string)
| MsgSequencerStaticCoordinatorNotSet (contract : string)
| MsgSequencerInvalidStaticCoordinator (cause : error) (contract locator : string)
| MsgSequencerInvalidEndorserCandidate (cause : error) (locator : string)
| MsgSequencerMaxInflightTransactions (max : Z) (node : string) (delegated accepted inProgress rejected : nat)
| MsgContextCanceled
| MsgSequencerAssembleRequestInvalid (id : uuid)
| MsgSequencerResolveError (cause : error) (lookup algorithm : string)
| MsgSequencerSignError (cause : error) (lookup verifier algorithm : string)
| MsgSequencerStateViewUnknownAssemble (request : uuid)
| MsgSequencerStateViewWrongNode (request : uuid) (node : string)
| ErrJSON (text : string)
| ErrExternal (detail : string).

#[export] Instance error_eq_dec : EqDecision error.
Proof. solve_decision. Defined.

(** How a goroutine can fail to return: a run-time panic, a mutex it already holds, or (of the
    model only) an exhausted recursion budget. *)
Inductive crash : Type :=
| Panic
| Deadlock
| OutOfFuel.

Inductive res (A : Type) : Type :=
| Ok (a : A)
| Err (e : error)
| Crash (c : crash).
Arguments Ok {A} a.
Arguments Err {A} e.
Arguments Crash {A} c.

Definition is_Ok {A} (r : res A) : bool := match r with Ok _ => true | _ => false end.

(** [uint64] arithmetic wraps. *)
Definition u64_modulus : Z := 2 ^ 64.
Definition u64 (z : Z) : Z := z mod u64_modulus.
Definition u64_add (a b : Z) : Z := u64 (a + b).
Definition u64_sub (a b : Z) : Z := u64 (a - b).
(** The distance of two [uint64]s, and an [int64] that wraps. *)
Definition heightDistance (a b : Z) : Z := u64_sub (Z.max a b) (Z.min a b).
Definition i64 (z : Z) : Z := ((z + 2 ^ 63) mod 2 ^ 64 - 2 ^ 63)%Z.
Definition u64_range (z : Z) : Prop := (0 <= z < u64_modulus)%Z.

Lemma u64_add_exact a b : u64_range a -> (0 <= b)%Z -> (a + b < u64_modulus)%Z -> u64_add a b = (a + b)%Z.
Proof. unfold u64_range, u64_add, u64. intros. apply Z.mod_small. lia. Qed.

(** ** The memory monad

    A Go function that reads and writes the sequencer's memory [W] and may return an error: the
    writes made before an error are kept. *)
Definition M (W A : Type) : Type := W -> W * res A.

#[export] Instance M_ret W : MRet (M W) := fun A a w => (w, Ok a).
#[export] Instance M_bind W : MBind (M W) := fun A B f m w =>
  match m w with
  | (w', Ok a) => f a w'
  | (w', Err e) => (w', Err e)
  | (w', Crash c) => (w', Crash c)
  end.

Definition gets {W A} (f : W -> A) : M W A := fun w => (w, Ok (f w)).
Definition modify {W} (f : W -> W) : M W unit := fun w => (f w, Ok tt).
Definition throw {W A} (e : error) : M W A := fun w => (w, Err e).
Definition crashM {W A} (c : crash) : M W A := fun w => (w, Crash c).
Definition liftR {W A} (f : W -> res A) : M W A := fun w => (w, f w).

(** [err := f(); if err != nil { log }]: the error is reported and dropped. *)
Definition log_error {W} (m : M W unit) : M W unit := fun w =>
  match m w with
  | (w', Err _) => (w', Ok tt)
  | r => r
  end.

(** [for _, x := range l { if err := f(x); err != nil { return err } }] *)
Fixpoint for_each {W A} (l : list A) (f : A -> M W unit) : M W unit :=
  match l with
  | [] => mret tt
  | x :: l' => f x ≫= fun _ => for_each l' f
  end.

Definition when {W} (b : bool) (m : M W unit) : M W unit := if b then m else mret tt.

(** ** What a computation may do to the memory

    [respects R m]: whatever [m] returns, the memory it leaves is related by [R] to the one it
    started from.  With [R] a preorder this composes along the program text, which is how
    invariants and transition bounds are carried through the handlers. *)
Definition respects {W A} (R : relation W) (m : M W A) : Prop := forall w, R w (m w).1.

Create HintDb paladin discriminated.
Create HintDb respects discriminated.

Lemma respects_weaken {W A} (R R' : relation W) (m : M W A) :
  (forall w w', R w w' -> R' w w') -> respects R m -> respects R' m.
Proof. intros HR Hm w. apply HR, Hm. Qed.

Lemma respects_conj {W A} (R R' : relation W) (m : M W A) :
  respects R m -> respects R' m -> respects (fun w w' => R w w' /\ R' w w') m.
Proof. intros HR HR' w. by split. Qed.

#[export] Instance conj_preorder {W} (R R' : relation W) `{!PreOrder R, !PreOrder R'} :
  PreOrder (fun w w' => R w w' /\ R' w w').
Proof. split; [by intros w|]. intros w1 w2 w3 [] []. split; by etrans. Qed.

Section Respects.
Context {W : Type} (R : relation W) `{!PreOrder R}.

Lemma respects_ret {A} (a : A) : respects R (mret a : M W A).
Proof. intros w. reflexivity. Qed.

Lemma respects_gets {A} (f : W -> A) : respects R (gets f).
Proof. intros w. reflexivity. Qed.

Lemma respects_throw {A} e : respects R (throw e : M W A).
Proof. intros w. reflexivity. Qed.

Lemma respects_crash {A} c : respects R (crashM c : M W A).
Proof. intros w. reflexivity. Qed.

Lemma respects_liftR {A} (f : W -> res A) : respects R (liftR f).
Proof. intros w. reflexivity. Qed.

Lemma respects_bind {A B} (m : M W A) (f : A -> M W B) :
  respects R m -> (forall a, respects R (f a)) -> respects R (m ≫= f).
Proof.
  intros Hm Hf w. specialize (Hm w). unfold mbind, M_bind.
  destruct (m w) as [w' [a|e|c]]; simpl in *; [|done..].
  etrans; [exact Hm|apply Hf].
Qed.

Lemma respects_modify (f : W -> W) : (forall w, R w (f w)) -> respects R (modify f).
Proof. intros H w. apply H. Qed.

Lemma respects_log_error (m : M W unit) : respects R m -> respects R (log_error m).
Proof. intros Hm w. specialize (Hm w). unfold log_error. by destruct (m w) as [w' []]. Qed.

Lemma respects_for_each {A} (l : list A) (f : A -> M W unit) :
  (forall x, x ∈ l -> respects R (f x)) -> respects R (for_each l f).
Proof.
  induction l as [|x l IH]; intros Hf; simpl; [apply respects_ret|].
  apply respects_bind; [apply Hf; set_solver|].
  intros _. apply IH. intros y Hy. apply Hf. set_solver.
Qed.

Lemma respects_when b (m : M W unit) : respects R m -> respects R (when b m).
Proof. destruct b; simpl; [done|]. intros _. apply respects_ret. Qed.
End Respects.

#[export] Hint Resolve respects_ret respects_gets respects_throw respects_crash respects_liftR
  respects_bind respects_log_error respects_for_each respects_when : respects.

(** Running a bind whose first half is known. *)
Lemma bind_ok {W A B} (m : M W A) (f : A -> M W B) w w' a :
  m w = (w', Ok a) -> (m ≫= f) w = f a w'.
Proof. intros H. unfold mbind, M_bind. by rewrite H. Qed.

Lemma bind_err {W A B} (m : M W A) (f : A -> M W B) w w' e :
  m w = (w', Err e) -> (m ≫= f) w = (w', Err e).
Proof. intros H. unfold mbind, M_bind. by rewrite H. Qed.

Lemma bind_crash {W A B} (m : M W A) (f : A -> M W B) w w' c :
  m w = (w', Crash c) -> (m ≫= f) w = (w', Crash c).
Proof. intros H. unfold mbind, M_bind. by rewrite H. Qed.

(** ** Invariants and crashes

    [keeps I C m]: from a memory with [I], [m] leaves a memory with [I] whatever it returns, and if
    it does not return it is for a reason in [C]. *)
Definition keeps {W A} (I : W -> Prop) (C : crash -> Prop) (m : M W A) : Prop :=
  forall w, I w -> I (m w).1 /\ forall c, (m w).2 = Crash c -> C c.

Create HintDb keeps discriminated.

Section Keeps.
Context {W : Type} (I : W -> Prop) (C : crash -> Prop).

Lemma keeps_ret {A} (a : A) : keeps I C (mret a : M W A).
Proof. by intros w. Qed.

Lemma keeps_gets {A} (f : W -> A) : keeps I C (gets f).
Proof. by intros w. Qed.

Lemma keeps_throw {A} e : keeps I C (throw e : M W A).
Proof. by intros w. Qed.

Lemma keeps_crash {A} c : C c -> keeps I C (crashM c : M W A).
Proof. intros Hc w Hw. split; [done|]. by intros c' [= <-]. Qed.

Lemma keeps_liftR {A} (f : W -> res A) : (forall w c, f w = Crash c -> C c) -> keeps I C (liftR f).
Proof. intros Hf w Hw. split; [done|]. intros c Hc. by apply (Hf w). Qed.

Lemma keeps_bind {A B} (m : M W A) (f : A -> M W B) :
  keeps I C m -> (forall a, keeps I C (f a)) -> keeps I C (m ≫= f).
Proof.
  intros Hm Hf w Hw. destruct (Hm w Hw) as [H1 H2]. unfold mbind, M_bind.
  destruct (m w) as [w' [a|e|c]]; simpl in *; [by apply Hf|done|]. split; [done|].
  intros c' [= <-]. by apply H2.
Qed.

(** A value read from a memory with [I] may be reasoned about. *)
Lemma keeps_bind_gets {A B} (g : W -> A) (f : A -> M W B) :
  (forall w, I w -> keeps I C (f (g w))) -> keeps I C (gets g ≫= f).
Proof. intros Hf w Hw. by apply Hf. Qed.

Lemma keeps_modify (f : W -> W) : (forall w, I w -> I (f w)) -> keeps I C (modify f).
Proof. intros H w Hw. split; [by apply H|done]. Qed.

Lemma keeps_log_error (m : M W unit) : keeps I C m -> keeps I C (log_error m).
Proof.
  intros Hm w Hw. destruct (Hm w Hw) as [H1 H2]. unfold log_error.
  destruct (m w) as [w' []]; simpl in *; try done.
Qed.

Lemma keeps_for_each {A} (l : list A) (f : A -> M W unit) :
  (forall x, x ∈ l -> keeps I C (f x)) -> keeps I C (for_each l f).
Proof.
  induction l as [|x l IH]; intros Hf; simpl; [apply keeps_ret|].
  apply keeps_bind; [apply Hf; set_solver|].
  intros _. apply IH. intros y Hy. apply Hf. set_solver.
Qed.
End Keeps.

(** Following a preorder from each start is an invariant from that start. *)
Lemma keeps_respects {W A} (R : relation W) `{!PreOrder R} (m : M W A) :
  (forall w0, keeps (R w0) (fun _ => True) m) -> respects R m.
Proof. intros H w. by apply (H w w). Qed.

#[export] Hint Resolve keeps_ret keeps_gets keeps_throw keeps_crash keeps_bind keeps_log_error : keeps.
