(* ===== verification/StateMachine.v ===== *)
(** * The generic state machine (sequencer/statemachine)

    [statemachine.StateMachine[S, E]]: typed states and events, guarded actions, guarded
    transitions, entry and exit actions, and the two dispatch modes of an event's handlers.  The
    machine of one entity lives inside a larger memory [W] (the entity, the objects its actions
    reach, and the machines of other entities that those actions call), so a machine is given by
    how its own fields are read and written there. *)

From S2P Require Import Prelude.

(** ** Definitions of a machine: statemachine.go, guards.go, validators.go *)

Inductive MatchMode : Type := MatchFirst | MatchAll.

Section Definitions.
Context {S EvType Ev W : Type}.

Definition Action : Type := Ev -> M W unit.
(** A guard only reads and returns no error; [None] is a panic. *)
Definition Guard : Type := W -> option bool.
Definition Validator : Type := Ev -> W -> res bool.

Record ActionRule : Type := MkActionRule { ar_Action : Action; ar_If : option Guard }.

Record Transition : Type := MkTransition {
  tr_To : S;
  tr_If : option Guard;
  tr_Actions : list ActionRule
}.

Record EventHandler : Type := MkEventHandler {
  eh_Validator : option Validator;
  eh_Actions : list ActionRule;
  eh_Transitions : list Transition;
  eh_Stop : bool
}.

Record EventHandlers : Type := MkEventHandlers {
  ehs_Match : MatchMode;
  ehs_Handlers : list EventHandler
}.

Record StateDefinition : Type := MkStateDefinition {
  OnTransitionTo : list ActionRule;
  OnTransitionFrom : list ActionRule;
  Events : EvType -> option EventHandlers
}.

Definition StateDefinitions : Type := S -> option StateDefinition.

Definition TransitionCallback : Type := S -> S -> Ev -> W -> W.

(** *** Guard and validator combinators *)

Definition GuardNot (guard : Guard) : Guard := fun w => negb <$> guard w.

Fixpoint GuardAnd (guards : list Guard) : Guard := fun w =>
  match guards with
  | [] => Some true
  | guard :: rest =>
      match guard w with
      | Some true => GuardAnd rest w
      | r => r
      end
  end.

Fixpoint GuardOr (guards : list Guard) : Guard := fun w =>
  match guards with
  | [] => Some false
  | guard :: rest =>
      match guard w with
      | Some false => GuardOr rest w
      | r => r
      end
  end.

Fixpoint ValidatorAnd (validators : list Validator) : Validator := fun event w =>
  match validators with
  | [] => Ok true
  | validator :: rest =>
      match validator event w with
      | Ok true => ValidatorAnd rest event w
      | r => r
      end
  end.

Fixpoint ValidatorOr (validators : list Validator) : Validator := fun event w =>
  match validators with
  | [] => Ok false
  | validator :: rest =>
      match validator event w with
      | Ok false => ValidatorOr rest event w
      | r => r
      end
  end.

Definition ValidatorNot (validator : Validator) : Validator := fun event w =>
  match validator event w with
  | Ok b => Ok (negb b)
  | r => r
  end.

(** Shorthands for the fields of the Go literals. *)
Definition Act (action : Action) : ActionRule := MkActionRule action None.
Definition ActIf (guard : Guard) (action : Action) : ActionRule := MkActionRule action (Some guard).
Definition To (state : S) (actions : list ActionRule) : Transition := MkTransition state None actions.
Definition ToIf (state : S) (guard : Guard) (actions : list ActionRule) : Transition :=
  MkTransition state (Some guard) actions.
Definition On (actions : list ActionRule) (transitions : list Transition) : EventHandler :=
  MkEventHandler None actions transitions false.
Definition OnValid (validator : Validator) (actions : list ActionRule) (transitions : list Transition) : EventHandler :=
  MkEventHandler (Some validator) actions transitions false.
Definition ThenStop (h : EventHandler) : EventHandler :=
  MkEventHandler (eh_Validator h) (eh_Actions h) (eh_Transitions h) true.
Definition First (handlers : list EventHandler) : option EventHandlers := Some (MkEventHandlers MatchFirst handlers).
Definition All (handlers : list EventHandler) : option EventHandlers := Some (MkEventHandlers MatchAll handlers).
End Definitions.

Arguments Action : clear implicits.
Arguments Guard : clear implicits.
Arguments Validator : clear implicits.
Arguments ActionRule : clear implicits.
Arguments Transition : clear implicits.
Arguments EventHandler : clear implicits.
Arguments EventHandlers : clear implicits.
Arguments StateDefinition : clear implicits.
Arguments StateDefinitions : clear implicits.
Arguments TransitionCallback : clear implicits.

(** The fields of [StateMachine] that change: [currentState], [latestEvent] (the type string of
    the event of the last transition, none before the first) and [lastStateChange]. *)
Record Machine (S EvType : Type) : Type := MkMachine {
  currentState : S;
  latestEvent : option EvType;
  lastStateChange : Z
}.
Arguments MkMachine {S EvType}.
Arguments currentState {S EvType}.
Arguments latestEvent {S EvType}.
Arguments lastStateChange {S EvType}.
#[export] Instance Machine_rebuild {S EvType} : Rebuild (Machine S EvType) :=
  fun m => MkMachine (currentState m) (latestEvent m) (lastStateChange m).

(** How one entity's machine sits in the memory. *)
Record Entity (S EvType Ev W : Type) : Type := MkEntity {
  ent_type : Ev -> EvType;              (* event.Type() *)
  ent_get : W -> Machine S EvType;
  ent_put : Machine S EvType -> W -> W;
  ent_now : W -> Z;                     (* time.Now() *)
  ent_lock : W -> option W;             (* entity.Lock(): None when the caller would block on itself *)
  ent_unlock : W -> W
}.
Arguments MkEntity {S EvType Ev W}.
Arguments ent_type {S EvType Ev W}.
Arguments ent_get {S EvType Ev W}.
Arguments ent_put {S EvType Ev W}.
Arguments ent_now {S EvType Ev W}.
Arguments ent_lock {S EvType Ev W}.
Arguments ent_unlock {S EvType Ev W}.

Section Engine.
Context {S EvType Ev W : Type}.
Context (entity : Entity S EvType Ev W).
Context (definitions : StateDefinitions S EvType Ev W).
Context (transitionCallback : option (TransitionCallback S Ev W)).

#[local] Abbreviation ActionRule := (ActionRule Ev W).
#[local] Abbreviation EventHandler := (EventHandler S Ev W).
#[local] Abbreviation Transition := (Transition S Ev W).

Definition GetCurrentState (w : W) : S := currentState (ent_get entity w).

Definition SetCurrentState (s : S) (w : W) : W :=
  ent_put entity ((ent_get entity w) <| currentState := s |>) w.

(** [sm.SetCurrentState(rule.To); sm.latestEvent = ...; sm.lastStateChange = time.Now()] *)
Definition enterState (s : S) (event : Ev) (w : W) : W :=
  let w1 := SetCurrentState s w in
  ent_put entity
    ((ent_get entity w1) <| latestEvent := Some (ent_type entity event) |>
                         <| lastStateChange := ent_now entity w1 |>) w1.

Definition guardPasses (g : option (Guard W)) : M W bool :=
  match g with
  | None => mret true
  | Some g => liftR (fun w => match g w with Some b => Ok b | None => Crash Panic end)
  end.

Fixpoint executeActionRules (event : Ev) (rules : list ActionRule) : M W unit :=
  match rules with
  | [] => mret tt
  | rule :: rest =>
      b ← guardPasses (ar_If rule);
      (if b : bool then ar_Action rule event else mret tt) ≫= fun _ =>
      executeActionRules event rest
  end.

Definition onTransitionFrom (s : S) : list ActionRule :=
  match definitions s with Some d => OnTransitionFrom d | None => [] end.

Definition onTransitionTo (s : S) : list ActionRule :=
  match definitions s with Some d => OnTransitionTo d | None => [] end.

Definition runCallback (from to : S) (event : Ev) : M W unit :=
  match transitionCallback with
  | Some cb => modify (cb from to event)
  | None => mret tt
  end.

(** The body of the loop of [evaluateTransitions] for a rule whose guard passed. *)
Definition takeTransition (event : Ev) (rule : Transition) : M W unit :=
  previousState ← gets GetCurrentState;
  modify (enterState (tr_To rule) event) ≫= fun _ =>
  executeActionRules event (tr_Actions rule) ≫= fun _ =>
  executeActionRules event (onTransitionFrom previousState) ≫= fun _ =>
  newState ← gets GetCurrentState;
  runCallback previousState newState event ≫= fun _ =>
  executeActionRules event (onTransitionTo newState).

Fixpoint evaluateTransitions (event : Ev) (rules : list Transition) : M W bool :=
  match rules with
  | [] => mret false
  | rule :: rest =>
      b ← guardPasses (tr_If rule);
      if b : bool then (takeTransition event rule ≫= fun _ => mret true)
      else evaluateTransitions event rest
  end.

Definition matchesHandler (event : Ev) (h : EventHandler) : W -> res bool := fun w =>
  match eh_Validator h with
  | None => Ok true
  | Some v => v event w
  end.

Fixpoint processMatchFirst (event : Ev) (handlers : list EventHandler) : M W unit :=
  match handlers with
  | [] => mret tt
  | h :: rest =>
      matched ← liftR (matchesHandler event h);
      if matched : bool then
        executeActionRules event (eh_Actions h) ≫= fun _ =>
        evaluateTransitions event (eh_Transitions h) ≫= fun _ => mret tt
      else processMatchFirst event rest
  end.

Fixpoint processMatchAll (event : Ev) (handlers : list EventHandler) : M W unit :=
  match handlers with
  | [] => mret tt
  | h :: rest =>
      matched ← liftR (matchesHandler event h);
      if matched : bool then
        executeActionRules event (eh_Actions h) ≫= fun _ =>
        transitioned ← evaluateTransitions event (eh_Transitions h);
        if (transitioned || eh_Stop h)%bool then mret tt
        else processMatchAll event rest
      else processMatchAll event rest
  end.

(** The part of [ProcessEvent] that runs under the entity's lock. *)
Definition dispatchEvent (event : Ev) : M W unit :=
  s ← gets GetCurrentState;
  match definitions s with
  | None => mret tt
  | Some stateDefinition =>
      match Events stateDefinition (ent_type entity event) with
      | None => mret tt
      | Some handlerSet =>
          match ehs_Match handlerSet with
          | MatchAll => processMatchAll event (ehs_Handlers handlerSet)
          | MatchFirst => processMatchFirst event (ehs_Handlers handlerSet)
          end
      end
  end.

Definition ProcessEvent (event : Ev) : M W unit := fun w =>
  match ent_lock entity w with
  | None => (w, Crash Deadlock)
  | Some w1 => let '(w2, r) := dispatchEvent event w1 in (ent_unlock entity w2, r)
  end.

(** [validateDefinitions]: the indices it warns about in one handler set, namely those of
    handlers without a validator that are not the last of a [MatchFirst] set. *)
Definition handlerSetWarnings (handlerSet : EventHandlers S Ev W) : list nat :=
  match ehs_Match handlerSet with
  | MatchAll => []
  | MatchFirst =>
      let hs := ehs_Handlers handlerSet in
      List.filter (fun i => match hs !! i with
                            | Some h => (match eh_Validator h with None => true | _ => false end)
                                        && (i <? length hs - 1)%nat
                            | None => false
                            end) (seq 0 (length hs))
  end.
End Engine.

(** ** What the engine guarantees *)

(** The laws that make an [Entity] a place in memory holding one machine. *)
Class EntityLaws {S EvType Ev W} (e : Entity S EvType Ev W) : Prop := {
  ent_get_put : forall m w, ent_get e (ent_put e m w) = m;
  ent_get_lock : forall w w', ent_lock e w = Some w' -> ent_get e w' = ent_get e w;
  ent_get_unlock : forall w, ent_get e (ent_unlock e w) = ent_get e w
}.

Lemma GetCurrentState_enterState {S EvType Ev W} (e : Entity S EvType Ev W) `{!EntityLaws e} s ev w :
  GetCurrentState e (enterState e s ev w) = s.
Proof. unfold GetCurrentState, enterState, SetCurrentState. by rewrite !ent_get_put. Qed.

Section Facts.
Context {S EvType Ev W : Type}.
Context (entity : Entity S EvType Ev W).
Context (definitions : StateDefinitions S EvType Ev W).
Context (transitionCallback : option (TransitionCallback S Ev W)).

#[local] Abbreviation GetCurrentState := (GetCurrentState entity).
#[local] Abbreviation executeActionRules := (@executeActionRules Ev W).
#[local] Abbreviation takeTransition := (takeTransition entity definitions transitionCallback).
#[local] Abbreviation evaluateTransitions := (evaluateTransitions entity definitions transitionCallback).
#[local] Abbreviation dispatchEvent := (dispatchEvent entity definitions transitionCallback).
#[local] Abbreviation processMatchFirst := (processMatchFirst entity definitions transitionCallback).
#[local] Abbreviation processMatchAll := (processMatchAll entity definitions transitionCallback).

(** The rules of a handler, and the places a rule can stand in a definition. *)
Definition handler_rule (h : EventHandler S Ev W) (rule : ActionRule Ev W) : Prop :=
  rule ∈ eh_Actions h \/ exists tr, tr ∈ eh_Transitions h /\ rule ∈ tr_Actions tr.

Definition handles (s : S) (ty : EvType) (h : EventHandler S Ev W) : Prop :=
  exists d hs, definitions s = Some d /\ Events d ty = Some hs /\ h ∈ ehs_Handlers hs.

Definition defined_rule (rule : ActionRule Ev W) : Prop :=
  (exists s, rule ∈ onTransitionTo definitions s \/ rule ∈ onTransitionFrom definitions s) \/
  (exists s ty h, handles s ty h /\ handler_rule h rule).

(** [s] has a transition to [s'] on events of type [ty]. *)
Definition edge (s : S) (ty : EvType) (s' : S) : Prop :=
  exists h tr, handles s ty h /\ tr ∈ eh_Transitions h /\ tr_To tr = s'.

(** The same as a list, in the order of the table. *)
Definition targets (s : S) (ty : EvType) : list S :=
  match definitions s with
  | Some d =>
      match Events d ty with
      | Some hs => mjoin ((fun h => tr_To <$> eh_Transitions h) <$> ehs_Handlers hs)
      | None => []
      end
  | None => []
  end.

Lemma edge_targets s ty s' : edge s ty s' <-> s' ∈ targets s ty.
Proof.
  unfold targets, edge, handles. split.
  - intros (h & tr & (d & hs & -> & -> & Hh) & Htr & <-).
    apply list_elem_of_join. exists (tr_To <$> eh_Transitions h).
    split; [by apply list_elem_of_fmap_2|]. apply list_elem_of_fmap. eauto.
  - destruct (definitions s) as [d|]; [|by intros ?%not_elem_of_nil].
    destruct (Events d ty) as [hs|] eqn:Ehs; [|by intros ?%not_elem_of_nil].
    intros (l & Hs & (h & -> & Hh)%list_elem_of_fmap)%list_elem_of_join.
    apply list_elem_of_fmap in Hs as (tr & -> & Htr). exists h, tr. split; [|done]. exists d, hs. done.
Qed.

Lemma guardPasses_mem g (w : W) : (guardPasses g w).1 = w.
Proof. by destruct g. Qed.

Lemma executeActionRules_respects (R : relation W) `{!PreOrder R} event rules :
  (forall rule, rule ∈ rules -> respects R (ar_Action rule event)) ->
  respects R (executeActionRules event rules).
Proof.
  induction rules as [|rule rules IH]; intros H; simpl; [apply respects_ret; apply _|].
  apply respects_bind; [done| |].
  { intros w. rewrite guardPasses_mem. done. }
  intros b. apply respects_bind; [done| |].
  { destruct b; [apply H; set_solver | apply respects_ret; apply _]. }
  intros _. apply IH. intros r Hr. apply H. set_solver.
Qed.

(** The actions that handlers of [s] run on an event of type [ty], before any transition, are [R]-steps. *)
Definition handlersRespect (R : relation W) (s : S) (ty : EvType) (event : Ev) : Prop :=
  forall h rule, handles s ty h -> rule ∈ eh_Actions h -> respects R (ar_Action rule event).

Context (R : relation W) `{!PreOrder R}.

(** The outcome of a computation that took one transition from [s] on [ty], after [R]-steps. *)
Definition took (s : S) (ty : EvType) (event : Ev) (w : W) (out : W * res unit) : Prop :=
  exists h tr w1,
    handles s ty h /\ tr ∈ eh_Transitions h /\
    guardPasses (tr_If tr) w1 = (w1, Ok true) /\
    R w w1 /\ takeTransition event tr w1 = out.

Lemma took_after s ty event w w1 out : R w w1 -> took s ty event w1 out -> took s ty event w out.
Proof.
  intros H (h & tr & w2 & ? & ? & ? & ? & ?). exists h, tr, w2. split_and!; eauto. by etrans.
Qed.

Lemma guardPasses_cases g (w : W) :
  (exists b, guardPasses g w = (w, Ok b)) \/ guardPasses g w = (w, Crash Panic).
Proof.
  destruct g as [g|]; simpl; [|by left; exists true].
  unfold liftR. destruct (g w) as [b|]; [left; by exists b | by right].
Qed.

(** [Ok ()] for a transition taken to its end, as [evaluateTransitions] reports it. *)
Definition asTaken (r : res unit) : res bool :=
  match r with Ok _ => Ok true | Err e => Err e | Crash c => Crash c end.

Lemma evaluateTransitions_took s ty h event trs w :
  handles s ty h -> trs ⊆ eh_Transitions h ->
  let '(w', r) := evaluateTransitions event trs w in
  (w' = w /\ r <> Ok true) \/ exists r0, took s ty event w (w', r0) /\ r = asTaken r0.
Proof.
  intros Hh. induction trs as [|tr trs IH]; intros Hsub; simpl; [by left|].
  destruct (guardPasses_cases (tr_If tr) w) as [[b Eg]|Eg].
  2: { rewrite (bind_crash _ _ _ _ _ Eg). by left. }
  rewrite (bind_ok _ _ _ _ _ Eg).
  destruct b; [|apply IH; set_solver].
  unfold mbind, M_bind. destruct (takeTransition event tr w) as [w' r] eqn:Et.
  assert (Htook : took s ty event w (w', r)).
  { exists h, tr, w. split_and!; [done|set_solver|done|reflexivity|done]. }
  destruct r as [[]|e|c]; right; eauto.
Qed.

Lemma runHandler_took s ty h event w :
  handlersRespect R s ty event -> handles s ty h ->
  let '(w', r) := (executeActionRules event (eh_Actions h) ≫= fun _ =>
                   evaluateTransitions event (eh_Transitions h)) w in
  (R w w' /\ r <> Ok true) \/ exists r0, took s ty event w (w', r0) /\ r = asTaken r0.
Proof.
  intros HRs Hh.
  assert (HR : respects R (executeActionRules event (eh_Actions h))).
  { apply executeActionRules_respects; [done|]. intros rule Hr. by apply (HRs h). }
  specialize (HR w). unfold mbind, M_bind.
  destruct (executeActionRules event (eh_Actions h) w) as [w1 [[]|e|c]]; simpl in HR; [|by left..].
  pose proof (evaluateTransitions_took s ty h event (eh_Transitions h) w1 Hh (reflexivity _)) as Ht.
  destruct (evaluateTransitions event (eh_Transitions h) w1) as [w2 r].
  destruct Ht as [[-> Hr]|(r0 & Ht & ->)]; [by left|]. right. eauto using took_after.
Qed.

(** Nothing but [R]-steps, or [R]-steps and then exactly one transition. *)
Definition stepped (s : S) (ty : EvType) (event : Ev) (w : W) (out : W * res unit) : Prop :=
  R w out.1 \/ took s ty event w out.

Lemma stepped_refl s ty event w r : stepped s ty event w (w, r).
Proof. left. reflexivity. Qed.

Lemma stepped_after s ty event w w1 out : R w w1 -> stepped s ty event w1 out -> stepped s ty event w out.
Proof. intros H [H'|H']; [left; by etrans | right; eauto using took_after]. Qed.

Lemma processMatchFirst_stepped s ty event l w :
  handlersRespect R s ty event -> (forall h, h ∈ l -> handles s ty h) -> stepped s ty event w (processMatchFirst event l w).
Proof.
  intros HRs Hl. induction l as [|h l IH]; simpl; [apply stepped_refl|].
  unfold mbind at 1, M_bind at 1, liftR.
  destruct (matchesHandler event h w) as [[]|e|c]; [| |apply stepped_refl..].
  2: { apply IH. intros h' Hh'. apply Hl. set_solver. }
  assert (Hh : handles s ty h) by (apply Hl; set_solver).
  pose proof (runHandler_took s ty h event w HRs Hh) as H. revert H. unfold stepped, mbind, M_bind.
  destruct (executeActionRules event (eh_Actions h) w) as [w1 [[]|e|c]].
  - destruct (evaluateTransitions event (eh_Transitions h) w1) as [w2 r].
    intros [[HR _]|([[]|e|c] & Ht & ->)]; [by left; destruct r|by right..].
  - intros [[HR _]|([[]|e'|c] & Ht & Hr)]; try done; [by left|]. injection Hr as <-. by right.
  - intros [[HR _]|([[]|e'|c'] & Ht & Hr)]; try done; [by left|]. injection Hr as <-. by right.
Qed.

Lemma processMatchAll_stepped s ty event l w :
  handlersRespect R s ty event -> (forall h, h ∈ l -> handles s ty h) -> stepped s ty event w (processMatchAll event l w).
Proof.
  intros HRs Hl. revert w. induction l as [|h l IH]; intros w; simpl; [apply stepped_refl|].
  assert (IH' : forall w, stepped s ty event w (processMatchAll event l w)).
  { apply IH. intros h' Hh'. apply Hl. set_solver. }
  unfold mbind at 1, M_bind at 1, liftR.
  destruct (matchesHandler event h w) as [[]|e|c]; [|apply IH'|apply stepped_refl..].
  assert (Hh : handles s ty h) by (apply Hl; set_solver).
  pose proof (runHandler_took s ty h event w HRs Hh) as H. revert H. unfold mbind, M_bind.
  destruct (executeActionRules event (eh_Actions h) w) as [w1 [[]|e|c]].
  - destruct (evaluateTransitions event (eh_Transitions h) w1) as [w2 r].
    intros [[HR Hr]|([[]|e|c] & Ht & ->)]; [|by right..].
    destruct r as [[]|e|c]; [done| |by left..].
    simpl. destruct (eh_Stop h); [by left|]. by apply (stepped_after _ _ _ _ w2).
  - intros [[HR _]|([[]|e'|c] & Ht & Hr)]; try done; [by left|]. injection Hr as <-. by right.
  - intros [[HR _]|([[]|e'|c'] & Ht & Hr)]; try done; [by left|]. injection Hr as <-. by right.
Qed.

(** Every way an event can be dispatched, decomposed: with [R] a preorder that the actions of the
    state's handlers respect, either nothing but [R]-steps happened, or [R]-steps and then one
    transition of a handler of the state the machine was in. *)
Lemma dispatch_stepped_at event w :
  handlersRespect R (GetCurrentState w) (ent_type entity event) event ->
  stepped (GetCurrentState w) (ent_type entity event) event w (dispatchEvent event w).
Proof.
  intros HRs. unfold StateMachine.dispatchEvent.
  rewrite (bind_ok (gets GetCurrentState) _ w w (GetCurrentState w) eq_refl).
  destruct (definitions (GetCurrentState w)) as [d|] eqn:Ed; [|apply stepped_refl].
  destruct (Events d (ent_type entity event)) as [hs|] eqn:Ehs; [|apply stepped_refl].
  assert (Hall : forall h, h ∈ ehs_Handlers hs -> handles (GetCurrentState w) (ent_type entity event) h).
  { intros h Hh. exists d, hs. done. }
  destruct (ehs_Match hs); [by apply processMatchFirst_stepped | by apply processMatchAll_stepped].
Qed.

(** A transition, decomposed: its own actions and the exit actions, then, if they succeeded, the
    callback and the entry actions. *)
Lemma takeTransition_run event tr w :
  respects R (executeActionRules event (tr_Actions tr)) ->
  respects R (executeActionRules event (onTransitionFrom definitions (GetCurrentState w))) ->
  let '(w', r) := takeTransition event tr w in
  exists w1, R (enterState entity (tr_To tr) event w) w1 /\
    ((w' = w1 /\ r <> Ok tt) \/
     exists w2, runCallback transitionCallback (GetCurrentState w) (GetCurrentState w1) event w1 = (w2, Ok tt) /\
                executeActionRules event (onTransitionTo definitions (GetCurrentState w1)) w2 = (w', r)).
Proof.
  intros HA HF. unfold StateMachine.takeTransition, gets, modify.
  unfold mbind at 1, M_bind at 1. unfold mbind at 1, M_bind at 1.
  set (w0 := enterState entity (tr_To tr) event w). specialize (HA w0). unfold mbind at 1, M_bind at 1.
  destruct (executeActionRules event (tr_Actions tr) w0) as [wa [[]|e|c]]; simpl in HA; [|by exists wa; eauto..].
  specialize (HF wa). unfold mbind at 1, M_bind at 1.
  destruct (executeActionRules event (onTransitionFrom definitions (GetCurrentState w)) wa) as [wb [[]|e|c]];
    simpl in HF; [|by exists wb; split; [etrans|left]..].
  unfold mbind at 1, M_bind at 1. unfold mbind, M_bind.
  assert (Hc : exists wc, runCallback transitionCallback (GetCurrentState w) (GetCurrentState wb) event wb = (wc, Ok tt)).
  { unfold runCallback. destruct transitionCallback; by eexists. }
  destruct Hc as [wc Ec]. rewrite Ec.
  destruct (executeActionRules event (onTransitionTo definitions (GetCurrentState wb)) wc) as [w' r] eqn:Er.
  exists wb. split; [by etrans|]. right. by exists wc.
Qed.

Context (Hrules : forall rule event, defined_rule rule -> respects R (ar_Action rule event)).
Context (Hcb : forall cb from to event w, transitionCallback = Some cb -> R w (cb from to event w)).

Lemma runCallback_respects from to event :
  respects R (runCallback transitionCallback from to event).
Proof.
  unfold runCallback. destruct transitionCallback eqn:E.
  - apply respects_modify. intros w. by apply Hcb.
  - apply respects_ret. apply _.
Qed.

Lemma takeTransition_respects h tr event s ty w :
  handles s ty h -> tr ∈ eh_Transitions h ->
  R (enterState entity (tr_To tr) event w) (takeTransition event tr w).1.
Proof.
  intros Hh Htr. unfold takeTransition, StateMachine.takeTransition.
  set (k := fun previousState => _).
  change (R (enterState entity (tr_To tr) event w) ((k (GetCurrentState w)) w).1). subst k. cbn beta.
  set (k := fun _ : unit => _).
  change (R (enterState entity (tr_To tr) event w) ((k tt) (enterState entity (tr_To tr) event w)).1).
  generalize (enterState entity (tr_To tr) event w) as w1. subst k. cbn beta. intros w1. revert w1.
  change (respects R (executeActionRules event (tr_Actions tr) ≫= fun _ =>
    executeActionRules event (onTransitionFrom definitions (GetCurrentState w)) ≫= fun _ =>
    newState ← gets GetCurrentState;
    runCallback transitionCallback (GetCurrentState w) newState event ≫= fun _ =>
    executeActionRules event (onTransitionTo definitions newState))).
  apply respects_bind; [done| |intros _].
  { apply executeActionRules_respects; [done|]. intros rule Hrule. apply Hrules. right.
    exists s, ty, h. split; [done|]. right. eauto. }
  apply respects_bind; [done| |intros _].
  { apply executeActionRules_respects; [done|]. intros rule Hrule. apply Hrules. left. eauto. }
  apply respects_bind; [done|apply respects_gets; apply _|intros ns].
  apply respects_bind; [done|apply runCallback_respects|intros _].
  apply executeActionRules_respects; [done|]. intros rule Hrule. apply Hrules. left. eauto.
Qed.

Lemma dispatch_stepped event w :
  stepped (GetCurrentState w) (ent_type entity event) event w (dispatchEvent event w).
Proof. apply dispatch_stepped_at. intros h rule Hh Hr. apply Hrules. right. eexists _, _, h. split; [done|by left]. Qed.

(** After the transition itself, [R]-steps only. *)
Lemma took_entered s ty event w out :
  took s ty event w out ->
  exists h tr w1, handles s ty h /\ tr ∈ eh_Transitions h /\ R w w1 /\ R (enterState entity (tr_To tr) event w1) out.1.
Proof.
  intros (h & tr & w1 & Hh & Htr & _ & HR & <-). exists h, tr, w1. split_and!; eauto using takeTransition_respects.
Qed.
(** A transition that ran to its end finished with the entry actions of the state it left the
    machine in. *)
Lemma takeTransition_entry h tr event s ty w w' :
  handles s ty h -> tr ∈ eh_Transitions h ->
  takeTransition event tr w = (w', Ok tt) ->
  exists w1 w2, R (enterState entity (tr_To tr) event w) w1 /\
    runCallback transitionCallback (GetCurrentState w) (GetCurrentState w1) event w1 = (w2, Ok tt) /\
    executeActionRules event (onTransitionTo definitions (GetCurrentState w1)) w2 = (w', Ok tt).
Proof.
  intros Hh Htr Ht.
  assert (HA : respects R (executeActionRules event (tr_Actions tr))).
  { apply executeActionRules_respects; [done|]. intros rule Hrule. apply Hrules. right.
    exists s, ty, h. split; [done|]. right. eauto. }
  assert (HF : respects R (executeActionRules event (onTransitionFrom definitions (GetCurrentState w)))).
  { apply executeActionRules_respects; [done|]. intros rule Hrule. apply Hrules. left. eauto. }
  pose proof (takeTransition_run event tr w HA HF) as Hrun. rewrite Ht in Hrun.
  destruct Hrun as (w1 & Hw1 & [[_ []]|(w2 & Hcb2 & Hto)]); [done|]. by exists w1, w2.
Qed.
End Facts.

(** *** Events without effect *)

(** An event that the current state has no handlers for, or whose handlers all decline it, changes
    nothing. *)
Lemma dispatch_declined {S EvType Ev W} (entity : Entity S EvType Ev W) definitions cb event w d :
  definitions (GetCurrentState entity w) = Some d ->
  match Events d (ent_type entity event) with
  | Some hs => forallb (fun h => match matchesHandler event h w with Ok false => true | _ => false end) (ehs_Handlers hs) = true
  | None => True
  end ->
  dispatchEvent entity definitions cb event w = (w, Ok tt).
Proof.
  intros Hd Hh. unfold dispatchEvent.
  rewrite (bind_ok (gets (GetCurrentState entity)) _ w w (GetCurrentState entity w) eq_refl), Hd.
  destruct (Events d (ent_type entity event)) as [hs|]; [|done].
  destruct (ehs_Match hs); induction (ehs_Handlers hs) as [|h l IH]; simpl in *; try done.
  all: apply andb_prop in Hh as [Hh Hl].
  all: unfold mbind at 1, M_bind at 1, liftR; destruct (matchesHandler event h w) as [[]|e|c]; try done; by apply IH.
Qed.

(** *** The simplest handler: one unconditional transition *)

Lemma dispatch_goto {S EvType Ev W} (entity : Entity S EvType Ev W) definitions cb event w d tr stop :
  definitions (GetCurrentState entity w) = Some d ->
  Events d (ent_type entity event) = Some (MkEventHandlers MatchFirst [MkEventHandler None [] [tr] stop]) ->
  tr_If tr = None ->
  dispatchEvent entity definitions cb event w = takeTransition entity definitions cb event tr w.
Proof.
  intros Hd He Hg. unfold dispatchEvent, gets. unfold mbind at 1, M_bind at 1. rewrite Hd, He.
  cbn [ehs_Match ehs_Handlers processMatchFirst]. unfold mbind, M_bind, liftR. cbn. rewrite Hg.
  unfold guardPasses, mret, M_ret, mbind, M_bind. by destruct (takeTransition _ _ _ _ _ _) as [w' [[]|e|c]].
Qed.

Lemma takeTransition_plain {S EvType Ev W} (entity : Entity S EvType Ev W) definitions cb event tr w :
  tr_Actions tr = [] -> onTransitionFrom definitions (GetCurrentState entity w) = [] ->
  let w0 := enterState entity (tr_To tr) event w in
  takeTransition entity definitions cb event tr w
  = (runCallback cb (GetCurrentState entity w) (GetCurrentState entity w0) event ≫= fun _ =>
     executeActionRules event (onTransitionTo definitions (GetCurrentState entity w0))) w0.
Proof. intros Ha Hf. unfold takeTransition, gets, modify. unfold mbind at 1, M_bind at 1. by rewrite Ha, Hf. Qed.

(** *** Invariants carried by the engine *)

Section EngineKeeps.
Context {S EvType Ev W : Type}.
Context (entity : Entity S EvType Ev W).
Context (definitions : StateDefinitions S EvType Ev W).
Context (transitionCallback : option (TransitionCallback S Ev W)).
Context (I : W -> Prop) (C : crash -> Prop) (event : Ev).
Context (HPanic : C Panic).
Context (Hrules : forall rule, defined_rule definitions rule -> keeps I C (ar_Action rule event)).
Context (Hvalid : forall s ty h w c, handles definitions s ty h -> matchesHandler event h w = Crash c -> C c).
Context (Henter : forall s w, I w -> I (enterState entity s event w)).
Context (Hcb : forall cb from to w, transitionCallback = Some cb -> I w -> I (cb from to event w)).

Lemma guardPasses_keeps g : keeps I C (guardPasses g).
Proof.
  destruct g as [g|]; [|apply keeps_ret]. apply keeps_liftR. intros w c.
  destruct (g w); [done|]. by intros [= <-].
Qed.

Lemma executeActionRules_keeps rules :
  (forall rule, rule ∈ rules -> defined_rule definitions rule) -> keeps I C (executeActionRules event rules).
Proof.
  induction rules as [|rule rules IH]; intros Hd; simpl; [apply keeps_ret|].
  apply keeps_bind; [apply guardPasses_keeps|]. intros b.
  apply keeps_bind.
  - destruct b; [apply Hrules, Hd; left | apply keeps_ret].
  - intros _. apply IH. intros r Hr. apply Hd. by right.
Qed.

Lemma evaluateTransitions_keeps s ty h trs :
  handles definitions s ty h -> trs ⊆ eh_Transitions h ->
  keeps I C (evaluateTransitions entity definitions transitionCallback event trs).
Proof.
  intros Hh. induction trs as [|tr trs IH]; intros Hsub; simpl; [apply keeps_ret|].
  apply keeps_bind; [apply guardPasses_keeps|]. intros b. destruct b; [|apply IH; set_solver].
  apply keeps_bind; [|intros []; apply keeps_ret]. unfold takeTransition.
  apply keeps_bind; [apply keeps_gets|]. intros previous.
  apply keeps_bind; [apply keeps_modify; intros w Hw; by apply Henter|]. intros _.
  apply keeps_bind; [apply executeActionRules_keeps|intros _].
  { intros rule Hr. right. exists s, ty, h. split; [done|]. right. exists tr. split; [set_solver|done]. }
  apply keeps_bind; [apply executeActionRules_keeps; intros rule Hr; left; eauto|intros _].
  apply keeps_bind; [apply keeps_gets|]. intros new.
  apply keeps_bind; [|intros _; apply executeActionRules_keeps; intros rule Hr; left; eauto].
  unfold runCallback. destruct transitionCallback as [cb|] eqn:Ecb; [|apply keeps_ret].
  apply keeps_modify. intros w Hw. by apply Hcb.
Qed.

Lemma handler_keeps s ty h :
  handles definitions s ty h -> keeps I C (executeActionRules event (eh_Actions h)).
Proof.
  intros Hh. apply executeActionRules_keeps. intros rule Hr. right. exists s, ty, h. split; [done|]. by left.
Qed.

Lemma dispatchEvent_keeps : keeps I C (dispatchEvent entity definitions transitionCallback event).
Proof.
  unfold dispatchEvent. apply keeps_bind; [apply keeps_gets|]. intros s.
  destruct (definitions s) as [d|] eqn:Ed; [|apply keeps_ret].
  destruct (Events d (ent_type entity event)) as [hs|] eqn:Ehs; [|apply keeps_ret].
  assert (Hall : forall h, h ∈ ehs_Handlers hs -> handles definitions s (ent_type entity event) h).
  { intros h Hh. exists d, hs. done. }
  destruct (ehs_Match hs); induction (ehs_Handlers hs) as [|h l IH]; simpl; try apply keeps_ret.
  all: assert (Hh : handles definitions s (ent_type entity event) h) by (apply Hall; left).
  all: apply keeps_bind; [apply keeps_liftR; intros w c; by apply (Hvalid s (ent_type entity event))|].
  all: intros [|]; [|apply IH; intros h' Hh'; apply Hall; by right].
  all: apply keeps_bind; [by apply (handler_keeps s (ent_type entity event))|intros _].
  all: apply keeps_bind; [by apply (evaluateTransitions_keeps s (ent_type entity event) h)|intros b].
  - apply keeps_ret.
  - destruct (b || eh_Stop h)%bool; [apply keeps_ret|]. apply IH. intros h' Hh'. apply Hall. by right.
Qed.
End EngineKeeps.

(** *** Runs without error

    What holds before an event that is handled without error and is kept by the actions that ran. *)

Section OkRuns.
Context {S EvType Ev W : Type}.
Context (entity : Entity S EvType Ev W).
Context (definitions : StateDefinitions S EvType Ev W).
Context (transitionCallback : option (TransitionCallback S Ev W)).
Context (event : Ev).

Definition actionsKeepOk (I : W -> Prop) (rules : list (ActionRule Ev W)) : Prop :=
  forall w w', I w -> executeActionRules event rules w = (w', Ok tt) -> I w'.

Lemma executeActionRules_ok (I : W -> Prop) rules :
  (forall rule w w', rule ∈ rules -> I w -> guardPasses (ar_If rule) w = (w, Ok true) -> ar_Action rule event w = (w', Ok tt) -> I w') ->
  actionsKeepOk I rules.
Proof.
  intros Hr. induction rules as [|rule rules IH]; intros w w' Hw; simpl; [by intros [= <-]|].
  destruct (guardPasses_cases (ar_If rule) w) as [[b Eg]|Eg]; [|by rewrite (bind_crash _ _ _ _ _ Eg)].
  rewrite (bind_ok _ _ _ _ _ Eg). unfold mbind, M_bind, mret, M_ret.
  assert (Htail : actionsKeepOk I rules). { apply IH. intros rule' ? ? Hin. apply Hr. by right. }
  destruct b; [|by apply Htail]. destruct (ar_Action rule event w) as [w1 [[]|e|c]] eqn:Ea; try done.
  apply Htail, (Hr rule w); [left|done..].
Qed.

Lemma takeTransition_ok (I1 I2 : W -> Prop) tr w w' :
  I1 (enterState entity (tr_To tr) event w) -> actionsKeepOk I1 (tr_Actions tr) ->
  actionsKeepOk I1 (onTransitionFrom definitions (GetCurrentState entity w)) ->
  (forall from to w, I1 w -> I2 (match transitionCallback with Some cb => cb from to event w | None => w end)) ->
  (forall s, actionsKeepOk I2 (onTransitionTo definitions s)) ->
  takeTransition entity definitions transitionCallback event tr w = (w', Ok tt) -> I2 w'.
Proof.
  intros Hw Ha Hf Hcb Ht. unfold takeTransition, gets, modify.
  unfold mbind at 1, M_bind at 1. unfold mbind at 1, M_bind at 1. unfold mbind at 1, M_bind at 1.
  destruct (executeActionRules event (tr_Actions tr) _) as [wa [[]|e|c]] eqn:Ea; try done. apply Ha in Ea; [|done].
  unfold mbind at 1, M_bind at 1.
  destruct (executeActionRules event (onTransitionFrom definitions _) wa) as [wb [[]|e|c]] eqn:Eb; try done. apply Hf in Eb; [|done].
  unfold mbind at 1, M_bind at 1. unfold mbind, M_bind, runCallback.
  pose proof (Hcb (GetCurrentState entity w) (GetCurrentState entity wb) wb Eb) as Hc. revert Hc. clear Hcb.
  destruct transitionCallback as [cb|]; simpl; intros Hc He; by apply Ht in He.
Qed.

Section Handlers.
Context (I1 I2 : W -> Prop) (H12 : forall w, I1 w -> I2 w) (l : list (EventHandler S Ev W)).
Context (Hacts : forall h w w', h ∈ l -> I1 w -> matchesHandler event h w = Ok true ->
  executeActionRules event (eh_Actions h) w = (w', Ok tt) -> I1 w').
Context (Htrs : forall h tr w w', h ∈ l -> tr ∈ eh_Transitions h -> I1 w ->
  takeTransition entity definitions transitionCallback event tr w = (w', Ok tt) -> I2 w').

Lemma evaluateTransitions_ok h trs w w' b :
  h ∈ l -> trs ⊆ eh_Transitions h -> I1 w ->
  evaluateTransitions entity definitions transitionCallback event trs w = (w', Ok b) -> if b then I2 w' else I1 w'.
Proof.
  intros Hh Hsub Hw. induction trs as [|tr trs IH]; simpl; [by intros [= <- <-]|].
  destruct (guardPasses_cases (tr_If tr) w) as [[g Eg]|Eg]; [|by rewrite (bind_crash _ _ _ _ _ Eg)].
  rewrite (bind_ok _ _ _ _ _ Eg). destruct g; [|apply IH; set_solver]. unfold mbind, M_bind.
  destruct (takeTransition _ _ _ event tr w) as [w1 [[]|e|c]] eqn:Et; try done. intros [= <- <-].
  apply (Htrs h tr w); [done|set_solver|done|done].
Qed.

Lemma processMatchFirst_ok w w' :
  I1 w -> processMatchFirst entity definitions transitionCallback event l w = (w', Ok tt) -> I2 w'.
Proof.
  intros Hw. assert (Hsub : l ⊆ l) by done. revert Hsub. generalize l at 1 3. intros hs.
  induction hs as [|h hs IH]; intros Hsub; simpl; [intros [= <-]; auto|].
  unfold mbind at 1, M_bind at 1, liftR. destruct (matchesHandler event h w) as [[|]|e|c] eqn:Em; [|apply IH; set_solver|done..].
  unfold mbind at 1, M_bind at 1. destruct (executeActionRules event (eh_Actions h) w) as [w1 [[]|e|c]] eqn:Ea; try done.
  unfold mbind, M_bind. destruct (evaluateTransitions _ _ _ event _ w1) as [w2 [b|e|c]] eqn:Ee; try done. intros [= <-].
  assert (Hh : h ∈ l) by set_solver. apply Hacts in Ea; [|done..].
  apply (evaluateTransitions_ok h) in Ee; [|done..]. destruct b; auto.
Qed.

Lemma processMatchAll_ok w w' :
  I1 w -> processMatchAll entity definitions transitionCallback event l w = (w', Ok tt) -> I2 w'.
Proof.
  assert (Hsub : l ⊆ l) by done. revert w Hsub. generalize l at 1 3. intros hs.
  induction hs as [|h hs IH]; intros w Hsub Hw; simpl; [intros [= <-]; auto|].
  unfold mbind at 1, M_bind at 1, liftR. destruct (matchesHandler event h w) as [[|]|e|c] eqn:Em; [|apply IH; [set_solver|done]|done..].
  unfold mbind at 1, M_bind at 1. destruct (executeActionRules event (eh_Actions h) w) as [w1 [[]|e|c]] eqn:Ea; try done.
  unfold mbind, M_bind. destruct (evaluateTransitions _ _ _ event _ w1) as [w2 [b|e|c]] eqn:Ee; try done.
  assert (Hh : h ∈ l) by set_solver. apply Hacts in Ea; [|done..].
  apply (evaluateTransitions_ok h) in Ee; [|done..].
  destruct b; simpl; [by intros [= <-]|]. destruct (eh_Stop h); [intros [= <-]; auto|]. apply IH; [set_solver|done].
Qed.
End Handlers.

(** Handlers without transitions hand the memory on. *)
Lemma processMatchAll_app l1 l2 w w' :
  Forall (fun h => eh_Transitions h = [] /\ eh_Stop h = false) l1 ->
  processMatchAll entity definitions transitionCallback event (l1 ++ l2) w = (w', Ok tt) ->
  exists w1, processMatchAll entity definitions transitionCallback event l1 w = (w1, Ok tt) /\
    processMatchAll entity definitions transitionCallback event l2 w1 = (w', Ok tt).
Proof.
  intros Hl. revert w. induction Hl as [|h l1 [Ht Hs] _ IH]; intros w; simpl; [by exists w|].
  unfold mbind, M_bind, liftR. destruct (matchesHandler event h w) as [[|]|e|c]; [|apply IH|done..].
  destruct (executeActionRules event (eh_Actions h) w) as [w1 [[]|e|c]]; try done. rewrite Ht, Hs. simpl. apply IH.
Qed.

End OkRuns.

(** *** Dispatch modes *)

Section Dispatch.
Context {S EvType Ev W : Type}.
Context (entity : Entity S EvType Ev W).
Context (definitions : StateDefinitions S EvType Ev W).
Context (transitionCallback : option (TransitionCallback S Ev W)).

(** Running one matched handler. *)
Definition runHandler (event : Ev) (h : EventHandler S Ev W) : M W bool :=
  executeActionRules event (eh_Actions h) ≫= fun _ =>
  evaluateTransitions entity definitions transitionCallback event (eh_Transitions h).

Definition unitM {A} (m : M W A) : M W unit := m ≫= fun _ => mret tt.

Definition sameState : relation W :=
  fun w w' => GetCurrentState entity w' = GetCurrentState entity w.

#[export] Instance sameState_preorder : PreOrder sameState.
Proof. split; [by intros w|]. unfold sameState. intros ??? -> ->. done. Qed.

(** Every action the definitions mention, and the callback, leave this entity's current state
    alone: it is only ever written by the engine.  (An action that calls other entities, which call
    back, cannot re-enter: the entity's lock is held.) *)
Definition actionsKeepState : Prop :=
  (forall rule event, defined_rule definitions rule -> respects sameState (ar_Action rule event)) /\
  (forall cb from to event w, transitionCallback = Some cb -> sameState w (cb from to event w)).

(** The handlers of a MatchFirst event before the first one whose validator passes are
    skipped without touching the memory; that handler alone is run (its actions, then its
    transitions); those after it are never evaluated. *)
Theorem matchFirst_exclusive event pre h post w :
  Forall (fun h' => matchesHandler event h' w = Ok false) pre ->
  matchesHandler event h w = Ok true ->
  processMatchFirst entity definitions transitionCallback event (pre ++ h :: post) w
  = unitM (runHandler event h) w.
Proof.
  intros Hpre Hh. induction Hpre as [|h' pre Hh' Hpre IH]; simpl.
  - rewrite (bind_ok _ _ w w true) by (unfold liftR; by rewrite Hh).
    unfold unitM, runHandler, mbind, M_bind.
    by destruct (executeActionRules event (eh_Actions h) w) as [w1 []].
  - rewrite (bind_ok _ _ w w false) by (unfold liftR; by rewrite Hh'). exact IH.
Qed.

(** Running actions one by one. *)
Lemma exec_act event (action : Action Ev W) rest w w1 :
  action event w = (w1, Ok tt) ->
  executeActionRules event (Act action :: rest) w = executeActionRules event rest w1.
Proof. intros Ha. simpl. unfold mbind, M_bind, mret, M_ret. by rewrite Ha. Qed.

Lemma exec_actIf event g (action : Action Ev W) rest w w1 :
  g w = Some true -> action event w = (w1, Ok tt) ->
  executeActionRules event (ActIf g action :: rest) w = executeActionRules event rest w1.
Proof. intros Hg Ha. simpl. unfold mbind, M_bind, liftR. by rewrite Hg, Ha. Qed.

Lemma exec_skipIf event g (action : Action Ev W) rest w :
  g w = Some false -> executeActionRules event (ActIf g action :: rest) w = executeActionRules event rest w.
Proof. intros Hg. simpl. unfold mbind, M_bind, liftR, mret, M_ret. by rewrite Hg. Qed.

Lemma evaluate_skips event state g acts rest w :
  g w = Some false ->
  evaluateTransitions entity definitions transitionCallback event (ToIf state g acts :: rest) w
  = evaluateTransitions entity definitions transitionCallback event rest w.
Proof. intros Hg. simpl. unfold mbind, M_bind, liftR. by rewrite Hg. Qed.

Lemma evaluate_takes event state g acts rest w :
  g w = Some true ->
  evaluateTransitions entity definitions transitionCallback event (ToIf state g acts :: rest) w
  = (takeTransition entity definitions transitionCallback event (ToIf state g acts) ≫= fun _ => mret true) w.
Proof. intros Hg. simpl. unfold mbind, M_bind, liftR. by rewrite Hg. Qed.

Lemma matchFirst_stays event h rest w w1 :
  matchesHandler event h w = Ok true -> executeActionRules event (eh_Actions h) w = (w1, Ok tt) ->
  evaluateTransitions entity definitions transitionCallback event (eh_Transitions h) w1 = (w1, Ok false) ->
  processMatchFirst entity definitions transitionCallback event (h :: rest) w = (w1, Ok tt).
Proof. intros Hh Ha Ht. simpl. unfold mbind, M_bind, liftR. by rewrite Hh, Ha, Ht. Qed.

(** Running the handlers of a set one by one. *)
Lemma matchAll_declines event h rest w :
  matchesHandler event h w = Ok false ->
  processMatchAll entity definitions transitionCallback event (h :: rest) w
  = processMatchAll entity definitions transitionCallback event rest w.
Proof. intros Hh. simpl. unfold mbind, M_bind, liftR. by rewrite Hh. Qed.

Lemma matchAll_acts event h rest w w1 :
  matchesHandler event h w = Ok true -> executeActionRules event (eh_Actions h) w = (w1, Ok tt) ->
  eh_Transitions h = [] -> eh_Stop h = false ->
  processMatchAll entity definitions transitionCallback event (h :: rest) w
  = processMatchAll entity definitions transitionCallback event rest w1.
Proof. intros Hh Ha Ht Hs. simpl. unfold mbind, M_bind, liftR. by rewrite Hh, Ha, Ht, Hs. Qed.

Lemma matchAll_takes event h rest w w1 tr :
  matchesHandler event h w = Ok true -> executeActionRules event (eh_Actions h) w = (w1, Ok tt) ->
  evaluateTransitions entity definitions transitionCallback event (eh_Transitions h) w1
  = (takeTransition entity definitions transitionCallback event tr ≫= fun _ => mret true) w1 ->
  processMatchAll entity definitions transitionCallback event (h :: rest) w
  = takeTransition entity definitions transitionCallback event tr w1.
Proof.
  intros Hh Ha Ht. simpl. unfold mbind, M_bind, liftR in *. rewrite Hh, Ha, Ht.
  by destruct (takeTransition _ _ _ event tr w1) as [w2 [[]| |]].
Qed.

Lemma matchFirst_takes event h rest w w1 tr :
  matchesHandler event h w = Ok true -> executeActionRules event (eh_Actions h) w = (w1, Ok tt) ->
  evaluateTransitions entity definitions transitionCallback event (eh_Transitions h) w1
  = (takeTransition entity definitions transitionCallback event tr ≫= fun _ => mret true) w1 ->
  processMatchFirst entity definitions transitionCallback event (h :: rest) w
  = takeTransition entity definitions transitionCallback event tr w1.
Proof.
  intros Hh Ha Ht. simpl. unfold mbind, M_bind, liftR in *. rewrite Hh, Ha, Ht.
  by destruct (takeTransition _ _ _ event tr w1) as [w2 [[]| |]].
Qed.

(** Processing an event stays in the state or follows an edge of the table. *)
Lemma processEvent_edge `{!EntityLaws entity} event w :
  actionsKeepState ->
  let s := GetCurrentState entity w in
  let s' := GetCurrentState entity (ProcessEvent entity definitions transitionCallback event w).1 in
  s' = s \/ edge definitions s (ent_type entity event) s'.
Proof.
  intros [Hrules Hcb]. cbv zeta. unfold ProcessEvent.
  destruct (ent_lock entity w) as [w1|] eqn:El; [|by left].
  assert (HS : GetCurrentState entity w1 = GetCurrentState entity w).
  { unfold GetCurrentState. by rewrite (ent_get_lock w w1 El). }
  pose proof (dispatch_stepped entity definitions transitionCallback sameState Hrules event w1) as Hd.
  destruct (dispatchEvent entity definitions transitionCallback event w1) as [w2 r].
  assert (HU : GetCurrentState entity (ent_unlock entity w2) = GetCurrentState entity w2).
  { unfold GetCurrentState. by rewrite ent_get_unlock. }
  simpl. rewrite HU, <- HS. destruct Hd as [Hd|Hd]; [by left|].
  apply took_entered in Hd as (h & tr & w3 & Hh & Htr & _ & HR); [|apply _|done..].
  right. exists h, tr. unfold sameState in HR. rewrite GetCurrentState_enterState in HR by done. done.
Qed.

(** Processing an event leaves the machine in the state it was in, or in the target of one
    transition that the definitions list for that state and event type: whatever the actions,
    guards and validators do, and whether or not one of them fails. *)
Theorem processEvent_transition_sound `{!EntityLaws entity} event w :
  actionsKeepState ->
  let s := GetCurrentState entity w in
  let s' := GetCurrentState entity (ProcessEvent entity definitions transitionCallback event w).1 in
  s' = s \/ edge definitions s (ent_type entity event) s'.
Proof. apply processEvent_edge. Qed.

(** A transition action that fails leaves the machine already in the target state: the
    previous state's exit actions, the transition callback and the target's entry actions are all
    skipped. *)
Theorem transition_error_skips_callback `{!EntityLaws entity} event rule w w1 e :
  actionsKeepState ->
  (exists s ty h, handles definitions s ty h /\ rule ∈ eh_Transitions h) ->
  executeActionRules event (tr_Actions rule) (enterState entity (tr_To rule) event w) = (w1, Err e) ->
  takeTransition entity definitions transitionCallback event rule w = (w1, Err e) /\
  GetCurrentState entity w1 = tr_To rule.
Proof.
  intros [Hrules _] (s & ty & h & Hh & Hin) He. split.
  - unfold takeTransition, gets, modify. unfold mbind at 1, M_bind at 1. unfold mbind at 1, M_bind at 1.
    by rewrite (bind_err _ _ _ _ _ He).
  - assert (HR : respects sameState (executeActionRules event (tr_Actions rule))).
    { apply executeActionRules_respects; [apply _|]. intros r Hr. apply Hrules. right.
      exists s, ty, h. split; [done|]. right. eauto. }
    specialize (HR (enterState entity (tr_To rule) event w)). rewrite He in HR. unfold sameState in HR.
    simpl in HR. rewrite HR. by apply GetCurrentState_enterState.
Qed.
End Dispatch.

(** ** Sets of handlers, one by one *)

(** Handlers that take no transition and whose actions are [R]-steps: either handling ends among
    them, or each that would have stopped it declined. *)
Lemma matchAll_prefix {S EvType Ev W} (entity : Entity S EvType Ev W) definitions cb (R : relation W) `{!PreOrder R} event l rest w out :
  Forall (fun h => eh_Transitions h = [] /\ forall rule, rule ∈ eh_Actions h -> respects R (ar_Action rule event)) l ->
  processMatchAll entity definitions cb event (l ++ rest) w = out ->
  R w out.1 \/
  exists w1, R w w1 /\ processMatchAll entity definitions cb event rest w1 = out /\
    forall h, h ∈ l -> eh_Stop h = true -> exists w0, R w w0 /\ R w0 w1 /\ matchesHandler event h w0 = Ok false.
Proof.
  revert w. induction l as [|h l IH]; intros w Hl Hout.
  { right. exists w. split_and!; [done..|]. by intros h ?%not_elem_of_nil. }
  apply Forall_cons in Hl as [[Ht Ha] Hl]. cbn [app processMatchAll] in Hout. unfold mbind, M_bind, liftR in Hout.
  destruct (matchesHandler event h w) as [[|]|e|c] eqn:Em; [..|subst out; by left|subst out; by left].
  - assert (HR : R w (executeActionRules event (eh_Actions h) w).1) by by apply executeActionRules_respects.
    destruct (executeActionRules event (eh_Actions h) w) as [w1 [[]|e|c]] eqn:Ee; [|subst out; by left..].
    rewrite Ht in Hout. simpl in Hout, HR. destruct (eh_Stop h) eqn:Es; [subst out; by left|].
    destruct (IH w1 Hl Hout) as [H1|(w2 & Hw2 & Hr & Hs)]; [left; by etrans|right].
    exists w2. split_and!; [by etrans|done|]. intros h' [->|Hh']%elem_of_cons Hst; [congruence|].
    destruct (Hs h' Hh' Hst) as (w0 & ? & ? & ?). exists w0. split_and!; [by etrans|done|done].
  - destruct (IH w Hl Hout) as [H1|(w2 & Hw2 & Hr & Hs)]; [by left|right].
    exists w2. split_and!; [done..|]. intros h' [->|Hh']%elem_of_cons Hst; [by exists w|]. by apply Hs.
Qed.

(** The first handler that matches is the one that runs. *)
Lemma matchFirst_inv {S EvType Ev W} (entity : Entity S EvType Ev W) definitions cb event l w out :
  processMatchFirst entity definitions cb event l w = out ->
  (out.1 = w /\ ((forall h, h ∈ l -> matchesHandler event h w = Ok false) \/ out.2 <> Ok tt)) \/
  exists pre h post, l = pre ++ h :: post /\ matchesHandler event h w = Ok true /\
    unitM (runHandler entity definitions cb event h) w = out.
Proof.
  induction l as [|h l IH]; intros Hout; cbn [processMatchFirst] in Hout.
  { left. subst out. split; [done|]. left. by intros h ?%not_elem_of_nil. }
  unfold mbind at 1, M_bind at 1, liftR in Hout.
  destruct (matchesHandler event h w) as [[|]|e|c] eqn:Em; [..|left; subst out; by split; [|right]|left; subst out; by split; [|right]].
  - right. exists [], h, l. split_and!; [done..|]. rewrite <- Hout. unfold unitM, runHandler, mbind, M_bind.
    destruct (executeActionRules event (eh_Actions h) w) as [w1 [[]|e|c]]; [|done..].
    by destruct (evaluateTransitions _ _ _ _ _ w1) as [w2 [[]|e|c]].
  - destruct (IH Hout) as [[Hw Hn]|(pre & h' & post & -> & Hm & Hr)].
    + left. split; [done|]. destruct Hn as [Hn|Hn]; [left|by right]. intros h' [->|Hh']%elem_of_cons; [done|]. by apply Hn.
    + right. exists (h :: pre), h', post. done.
Qed.

(** *** A concrete machine, to exhibit the hypotheses

    A turnstile: a coin unlocks it and a push locks it again; a coin needs a working coin slot,
    or the transition action fails. *)
Module Turnstile.
Inductive St : Type := Locked | Unlocked.
Inductive EvT : Type := TCoin | TPush.
Record Mem : Type := MkMem { mc : Machine St EvT; coins : nat; slot_ok : bool; held : bool }.
#[global] Instance Mem_rebuild : Rebuild Mem := fun m => MkMem (mc m) (coins m) (slot_ok m) (held m).

Definition ent : Entity St EvT EvT Mem :=
  MkEntity id mc (fun m w => w <| mc := m |>) (fun _ => 0%Z)
    (fun w => if held w then None else Some (w <| held := true |>))
    (fun w => w <| held := false |>).

#[global] Instance ent_laws : EntityLaws ent.
Proof. split; [done| |done]. intros w w'. simpl. destruct (held w); [done|]. by intros [= <-]. Qed.

Definition countCoin : Action EvT Mem := fun _ w =>
  if slot_ok w then (w <| coins ::= Datatypes.S |>, Ok tt) else (w, Err (ErrExternal "jammed")).

Definition coinTransition : Transition St EvT Mem :=
  MkTransition Unlocked None [MkActionRule countCoin None].
Definition coinHandler : EventHandler St EvT Mem := MkEventHandler None [] [coinTransition] false.
Definition neverHandler : EventHandler St EvT Mem :=
  MkEventHandler (Some (fun _ _ => Ok false)) [] [] false.
Definition pushHandler : EventHandler St EvT Mem :=
  MkEventHandler None [] [MkTransition Locked None []] false.

Definition defs : StateDefinitions St EvT EvT Mem := fun s =>
  match s with
  | Locked => Some (MkStateDefinition [] [] (fun t =>
      match t with TCoin => Some (MkEventHandlers MatchFirst [neverHandler; coinHandler]) | TPush => None end))
  | Unlocked => Some (MkStateDefinition [] [] (fun t =>
      match t with TPush => Some (MkEventHandlers MatchFirst [pushHandler]) | TCoin => None end))
  end.

Definition mem0 (ok : bool) : Mem := MkMem (MkMachine Locked None 0%Z) 0 ok false.

Lemma keep : actionsKeepState ent defs None.
Proof.
  split; [|done]. intros rule event [[s H]|(s & ty & h & (d & hs & Hd & He & Hh) & Hr)].
  - destruct s; simpl in H; set_solver.
  - destruct s, ty; simpl in *; simplify_eq/=; simpl in Hh;
      repeat (apply elem_of_cons in Hh as [->|Hh]); try (by inversion Hh);
      destruct Hr as [Hr|(tr & Htr & Hr)]; simpl in *; try (by inversion Hr); try (by inversion Htr).
    + apply list_elem_of_singleton in Htr as ->. apply list_elem_of_singleton in Hr as ->.
      intros w. unfold sameState; simpl. unfold countCoin. by destruct (slot_ok w).
    + apply list_elem_of_singleton in Htr as ->. by inversion Hr.
Qed.
End Turnstile.

Lemma processEvent_transition_sound_witness :
  let w' := (ProcessEvent Turnstile.ent Turnstile.defs None Turnstile.TCoin (Turnstile.mem0 true)).1 in
  GetCurrentState Turnstile.ent w' = Turnstile.Unlocked /\
  (GetCurrentState Turnstile.ent w' = Turnstile.Locked \/
   edge Turnstile.defs Turnstile.Locked Turnstile.TCoin (GetCurrentState Turnstile.ent w')).
Proof.
  split; [reflexivity|].
  exact (processEvent_transition_sound Turnstile.ent Turnstile.defs None Turnstile.TCoin
           (Turnstile.mem0 true) Turnstile.keep).
Defined.

Lemma matchFirst_exclusive_witness :
  processMatchFirst Turnstile.ent Turnstile.defs None Turnstile.TCoin
    ([Turnstile.neverHandler] ++ Turnstile.coinHandler :: [Turnstile.pushHandler]) (Turnstile.mem0 true)
  = unitM (runHandler Turnstile.ent Turnstile.defs None Turnstile.TCoin Turnstile.coinHandler) (Turnstile.mem0 true).
Proof.
  apply matchFirst_exclusive; [|reflexivity].
  apply Forall_singleton. reflexivity.
Defined.

Lemma transition_error_skips_callback_witness :
  exists w1,
  takeTransition Turnstile.ent Turnstile.defs None Turnstile.TCoin Turnstile.coinTransition (Turnstile.mem0 false)
    = (w1, Err (ErrExternal "jammed")) /\
  GetCurrentState Turnstile.ent w1 = Turnstile.Unlocked.
Proof.
  eexists. apply (transition_error_skips_callback Turnstile.ent Turnstile.defs None).
  - exact Turnstile.keep.
  - exists Turnstile.Locked, Turnstile.TCoin, Turnstile.coinHandler. split.
    + eexists _, _. split; [reflexivity|]. split; [reflexivity|]. right. left.
    + left.
  - reflexivity.
Defined.
