(* ===== verification/EventLoop.v ===== *)
(** * The event loop around a state machine (StateMachineEventLoop)

    Two bounded channels feed one goroutine.  Each iteration of [Start] drains the priority
    channel, then blocks in a [select] over both channels and the context.  A [select] with several
    ready cases picks one at random, and other goroutines enqueue at any moment, so the loop is a
    transition system whose choices ([Choice]) say what happens next; events that the handlers
    queue on the loop's own priority channel are produced by [processEvent] itself. *)

From S2P Require Import Prelude StateMachine.

Inductive QueueName : Type := queueNormal | queuePriority.
#[export] Instance QueueName_eq_dec : EqDecision QueueName.
Proof. solve_decision. Defined.

(** Where the goroutine of [Start] is: in the drain loop, at the blocking select, blocked on its
    own full priority channel, or returned. *)
Inductive Pc : Type := Draining | Selecting | SelfBlocked | Stopped.

Record EventLoop (Ev W : Type) : Type := MkEventLoop {
  events : list Ev;
  eventsPriority : list Ev;
  pc : Pc;
  entityMem : W;
  handled : list (QueueName * Ev)  (* what the goroutine received, oldest first *)
}.
Arguments MkEventLoop {Ev W}.
Arguments events {Ev W}.
Arguments eventsPriority {Ev W}.
Arguments pc {Ev W}.
Arguments entityMem {Ev W}.
Arguments handled {Ev W}.
#[export] Instance EventLoop_rebuild {Ev W} : Rebuild (EventLoop Ev W) := fun l =>
  MkEventLoop (events l) (eventsPriority l) (pc l) (entityMem l) (handled l).

(** What happens next: another goroutine queues an event, or the loop's goroutine moves. *)
Inductive Choice (Ev : Type) : Type :=
| ChQueueEvent (e : Ev)
| ChQueuePriorityEvent (e : Ev)
| ChDrainTake
| ChDrainDone
| ChSelectPriority
| ChSelectNormal
| ChContextDone.
Arguments ChQueueEvent {Ev} e.
Arguments ChQueuePriorityEvent {Ev} e.
Arguments ChDrainTake {Ev}.
Arguments ChDrainDone {Ev}.
Arguments ChSelectPriority {Ev}.
Arguments ChSelectNormal {Ev}.
Arguments ChContextDone {Ev}.

Section Loop.
Context {Ev W : Type}.
Context (isSyncEvent : Ev -> bool).
(** One call of the loop's [processEvent]: the new memory, the error (which [Start] only logs), and
    the events the handlers queued on this loop's priority channel meanwhile, in order. *)
Context (processEvent : Ev -> W -> W * res unit * list Ev).
Context (EventQueueSize PriorityEventQueueSize : nat).

#[local] Abbreviation EventLoop := (EventLoop Ev W).

Definition newEventLoop (w : W) : EventLoop := MkEventLoop [] [] Draining w [].

(** [sel.events <- event] when there is room; the sender blocks otherwise. *)
Definition QueueEvent (e : Ev) (l : EventLoop) : option EventLoop :=
  if (length (events l) <? EventQueueSize)%nat then Some (l <| events ::= fun q => q ++ [e] |>) else None.

Definition QueuePriorityEvent (e : Ev) (l : EventLoop) : option EventLoop :=
  if (length (eventsPriority l) <? PriorityEventQueueSize)%nat
  then Some (l <| eventsPriority ::= fun q => q ++ [e] |>) else None.

Definition TryQueueEvent (e : Ev) (l : EventLoop) : EventLoop * bool :=
  match QueueEvent e l with Some l' => (l', true) | None => (l, false) end.

Definition TryQueuePriorityEvent (e : Ev) (l : EventLoop) : EventLoop * bool :=
  match QueuePriorityEvent e l with Some l' => (l', true) | None => (l, false) end.

(** Queueing from the loop's own goroutine: with no room it waits for itself. *)
Fixpoint queueFromLoop (es : list Ev) (l : EventLoop) : EventLoop :=
  match es with
  | [] => l
  | e :: es' =>
      match QueuePriorityEvent e l with
      | Some l' => queueFromLoop es' l'
      | None => l <| pc := SelfBlocked |>
      end
  end.

(** The goroutine received [e] from queue [q] and goes on at the head of the outer loop (which
    is where the drain loop is too). *)
Definition received (q : QueueName) (e : Ev) (l : EventLoop) : EventLoop :=
  let l1 := l <| handled ::= fun h => h ++ [(q, e)] |> <| pc := Draining |> in
  if isSyncEvent e then l1
  else
    let '(w', _, emitted) := processEvent e (entityMem l1) in
    queueFromLoop emitted (l1 <| entityMem := w' |>).

Definition loopStep (c : Choice Ev) (l : EventLoop) : option EventLoop :=
  match c with
  | ChQueueEvent e => QueueEvent e l
  | ChQueuePriorityEvent e => QueuePriorityEvent e l
  | ChDrainTake =>
      match pc l, eventsPriority l with
      | Draining, e :: q => Some (received queuePriority e (l <| eventsPriority := q |>))
      | _, _ => None
      end
  | ChDrainDone =>
      match pc l, eventsPriority l with
      | Draining, [] => Some (l <| pc := Selecting |>)
      | _, _ => None
      end
  | ChSelectPriority =>
      match pc l, eventsPriority l with
      | Selecting, e :: q => Some (received queuePriority e (l <| eventsPriority := q |>))
      | _, _ => None
      end
  | ChSelectNormal =>
      match pc l, events l with
      | Selecting, e :: q => Some (received queueNormal e (l <| events := q |>))
      | _, _ => None
      end
  | ChContextDone =>
      match pc l with
      | Selecting => Some (l <| pc := Stopped |>)
      | _ => None
      end
  end.

Fixpoint loopRun (cs : list (Choice Ev)) (l : EventLoop) : option EventLoop :=
  match cs with
  | [] => Some l
  | c :: cs' => loopStep c l ≫= loopRun cs'
  end.

(** [DrainPendingEvents]: priority events first, then one regular event, until neither queue has
    any.  It hands sync events to [processEvent] like any other. *)
Fixpoint DrainPendingEvents (fuel : nat) (l : EventLoop) : EventLoop * res unit :=
  match fuel with
  | O => (l, Crash OutOfFuel)
  | S fuel' =>
      let step q e l :=
        let l1 := l <| handled ::= fun h => h ++ [(q, e)] |> in
        let '(w', r, emitted) := processEvent e (entityMem l1) in
        let l2 := queueFromLoop emitted (l1 <| entityMem := w' |>) in
        match pc l2, r with
        | SelfBlocked, _ => (l2, Crash Deadlock)
        | _, Ok _ => DrainPendingEvents fuel' l2
        | _, _ => (l2, r)
        end in
      match eventsPriority l with
      | e :: q => step queuePriority e (l <| eventsPriority := q |>)
      | [] =>
          match events l with
          | e :: q => step queueNormal e (l <| events := q |>)
          | [] => (l, Ok tt)
          end
      end
  end.

(** *** Facts *)

Definition handledFrom (q : QueueName) (l : EventLoop) : list Ev :=
  (List.filter (fun p => bool_decide (fst p = q)) (handled l)).*2.

Lemma queueFromLoop_frame es l :
  let l' := queueFromLoop es l in
  events l' = events l /\ handled l' = handled l /\ entityMem l' = entityMem l /\
  (pc l' = pc l \/ pc l' = SelfBlocked) /\
  exists k, eventsPriority l' = eventsPriority l ++ take k es.
Proof.
  revert l. induction es as [|e es IH]; intros l; simpl.
  { repeat split; [by left|]. exists 0. by rewrite app_nil_r. }
  unfold QueuePriorityEvent. destruct (_ <? _)%nat; simpl.
  - destruct (IH (l <| eventsPriority ::= fun q => q ++ [e] |>)) as (H1 & H2 & H3 & H4 & k & H5).
    simpl in *. repeat split; try done. exists (S k). simpl. rewrite H5, <- app_assoc. done.
  - repeat split; [by right|]. exists 0. by rewrite app_nil_r.
Qed.

Lemma received_frame q e l :
  let l' := received q e l in
  events l' = events l /\ handled l' = handled l ++ [(q, e)] /\
  (pc l' = Draining \/ pc l' = SelfBlocked) /\
  exists es, eventsPriority l' = eventsPriority l ++ es.
Proof.
  unfold received. destruct (isSyncEvent e); simpl.
  { repeat split; [by left|]. exists []. by rewrite app_nil_r. }
  destruct (processEvent e (entityMem l)) as [[w' r] emitted].
  pose proof (queueFromLoop_frame emitted
    (l <| handled ::= fun h => h ++ [(q, e)] |> <| pc := Draining |> <| entityMem := w' |>)) as H.
  cbv zeta in H. destruct H as (H1 & H2 & _ & H4 & k & H5). simpl in *.
  repeat split; try done. eauto.
Qed.

(** The events another goroutine queued on a channel during a run. *)
Definition queuedOn (q : QueueName) (c : Choice Ev) : list Ev :=
  match q, c with
  | queueNormal, ChQueueEvent e => [e]
  | queuePriority, ChQueuePriorityEvent e => [e]
  | _, _ => []
  end.

Lemma handledFrom_received_same q e l : handledFrom q (received q e l) = handledFrom q l ++ [e].
Proof.
  unfold handledFrom. destruct (received_frame q e l) as (_ & -> & _).
  rewrite List.filter_app, fmap_app. f_equal. simpl. by rewrite bool_decide_eq_true_2.
Qed.

Lemma handledFrom_received_other q q' e l : q' <> q -> handledFrom q (received q' e l) = handledFrom q l.
Proof.
  intros Hne. unfold handledFrom. destruct (received_frame q' e l) as (_ & -> & _).
  rewrite List.filter_app, fmap_app. simpl. rewrite bool_decide_eq_false_2 by done.
  simpl. by rewrite app_nil_r.
Qed.

Lemma loopStep_normal c l l' :
  loopStep c l = Some l' ->
  handledFrom queueNormal l' ++ events l' = (handledFrom queueNormal l ++ events l) ++ queuedOn queueNormal c.
Proof.
  intros H. destruct c; simpl in *; unfold QueueEvent, QueuePriorityEvent in H; rewrite ?app_nil_r.
  - case_match; simplify_eq/=. by rewrite app_assoc.
  - by case_match; simplify_eq/=.
  - destruct (pc l), (eventsPriority l) as [|e q]; simplify_eq/=.
    rewrite handledFrom_received_other by done. by destruct (received_frame queuePriority e (l <| eventsPriority := q |>)) as (-> & _).
  - by destruct (pc l), (eventsPriority l); simplify_eq/=.
  - destruct (pc l), (eventsPriority l) as [|e q]; simplify_eq/=.
    rewrite handledFrom_received_other by done. by destruct (received_frame queuePriority e (l <| eventsPriority := q |>)) as (-> & _).
  - destruct (pc l), (events l) as [|e q] eqn:Eq; simplify_eq/=.
    rewrite handledFrom_received_same. destruct (received_frame queueNormal e (l <| events := q |>)) as (-> & _).
    rewrite <- app_assoc. done.
  - by destruct (pc l); simplify_eq/=.
Qed.

(** The normal channel is first-in first-out and loses nothing: at every point of every run,
    the events taken from it so far followed by those still buffered are the events queued on it,
    in the order they were queued. *)
Theorem normal_queue_fifo cs w l :
  loopRun cs (newEventLoop w) = Some l ->
  handledFrom queueNormal l ++ events l = flat_map (queuedOn queueNormal) cs.
Proof.
  assert (Hgen : forall cs l0, loopRun cs l0 = Some l ->
    handledFrom queueNormal l ++ events l = (handledFrom queueNormal l0 ++ events l0) ++ flat_map (queuedOn queueNormal) cs).
  { clear cs. induction cs as [|c cs IH]; intros l0 H; simpl in *; [simplify_eq; by rewrite app_nil_r|].
    destruct (loopStep c l0) as [l1|] eqn:E; simpl in *; [|done].
    rewrite (IH l1 H), (loopStep_normal c l0 l1 E). by rewrite <- app_assoc. }
  intros H. by rewrite (Hgen cs _ H).
Qed.

(** Room for one normal event before the oldest buffered priority event. *)
Definition overtakeBudget (l : EventLoop) : nat := match pc l with Selecting => 1 | _ => 0 end.

Lemma loopStep_overtake c l l' :
  loopStep c l = Some l' -> eventsPriority l <> [] ->
  handledFrom queuePriority l' = handledFrom queuePriority l ->
  eventsPriority l' <> [] /\
  (length (handledFrom queueNormal l') + overtakeBudget l' <= length (handledFrom queueNormal l) + overtakeBudget l)%nat.
Proof.
  unfold overtakeBudget. intros H Hne Hsame. destruct c; simpl in *; unfold QueueEvent, QueuePriorityEvent in H.
  - by case_match; simplify_eq/=.
  - case_match; simplify_eq/=. split; [|done]. by destruct (eventsPriority l).
  - exfalso. destruct (pc l), (eventsPriority l) as [|e q]; simplify_eq/=.
    rewrite handledFrom_received_same in Hsame. apply (f_equal length) in Hsame.
    rewrite length_app in Hsame. simpl in Hsame. unfold handledFrom in Hsame; simpl in Hsame. lia.
  - by destruct (pc l), (eventsPriority l); simplify_eq/=.
  - exfalso. destruct (pc l), (eventsPriority l) as [|e q]; simplify_eq/=.
    rewrite handledFrom_received_same in Hsame. apply (f_equal length) in Hsame.
    rewrite length_app in Hsame. simpl in Hsame. unfold handledFrom in Hsame; simpl in Hsame. lia.
  - destruct (pc l), (events l) as [|e q] eqn:Eq; simplify_eq/=.
    rewrite handledFrom_received_same, length_app. simpl.
    destruct (received_frame queueNormal e (l <| events := q |>)) as (_ & _ & Hpc & es & Hes).
    rewrite Hes. simpl. split; [by destruct (eventsPriority l)|].
    change (handledFrom queueNormal (l <| events := q |>)) with (handledFrom queueNormal l).
    destruct Hpc as [-> | ->]; lia.
  - destruct (pc l); simplify_eq/=. split; [done|].
    change (handledFrom queueNormal (l <| pc := Stopped |>)) with (handledFrom queueNormal l). lia.
Qed.

(** A buffered priority event is overtaken by at most one normal event: in any stretch of a
    run that starts with a priority event buffered and takes none from that channel, the loop
    takes at most one event from the normal channel, whatever else is queued meanwhile. *)
Theorem priority_overtaken_at_most_once cs l l' :
  loopRun cs l = Some l' -> eventsPriority l <> [] ->
  handledFrom queuePriority l' = handledFrom queuePriority l ->
  (length (handledFrom queueNormal l') <= length (handledFrom queueNormal l) + 1)%nat.
Proof.
  assert (Hmono : forall cs l l', loopRun cs l = Some l' ->
    exists es, handledFrom queuePriority l' = handledFrom queuePriority l ++ es).
  { clear. induction cs as [|c cs IH]; intros l l' H; simpl in *.
    { simplify_eq. exists []. by rewrite app_nil_r. }
    destruct (loopStep c l) as [l1|] eqn:E; simpl in *; [|done].
    destruct (IH l1 l' H) as [es ->].
    assert (exists es', handledFrom queuePriority l1 = handledFrom queuePriority l ++ es') as [es' ->].
    { destruct c; simpl in E; unfold QueueEvent, QueuePriorityEvent in E; repeat case_match; simplify_eq/=;
        try (exists []; by rewrite app_nil_r);
        rewrite ?handledFrom_received_same, ?(handledFrom_received_other queuePriority queueNormal) by done;
        eexists; try reflexivity; by rewrite app_nil_r. }
    exists (es' ++ es). by rewrite app_assoc. }
  intros H Hne Hsame.
  cut (length (handledFrom queueNormal l') + overtakeBudget l' <= length (handledFrom queueNormal l) + overtakeBudget l)%nat.
  { unfold overtakeBudget. destruct (pc l), (pc l'); lia. }
  revert l H Hne Hsame. induction cs as [|c cs IH]; intros l H Hne Hsame; simpl in *; [by simplify_eq|].
  destruct (loopStep c l) as [l1|] eqn:E; simpl in *; [|done].
  assert (handledFrom queuePriority l1 = handledFrom queuePriority l) as Hs1.
  { destruct (Hmono [c] l l1) as [es1 H1]; [by simpl; rewrite E|].
    destruct (Hmono cs l1 l' H) as [es2 H2]. rewrite H1 in H2. rewrite H2 in Hsame.
    rewrite <- app_assoc in Hsame.
    assert (length (es1 ++ es2) = 0) as Hlen.
    { apply (f_equal length) in Hsame. rewrite length_app in Hsame. lia. }
    destruct es1; [by rewrite H1, app_nil_r | done]. }
  destruct (loopStep_overtake c l l1 E Hne Hs1) as [Hne1 Hle].
  specialize (IH l1 H Hne1). rewrite Hsame, Hs1 in IH. specialize (IH eq_refl). lia.
Qed.

(** *** DrainPendingEvents terminates when handling an event costs more than it queues *)

Section Drain.
Context (cost : Ev -> nat).

Fixpoint costs (es : list Ev) : nat :=
  match es with [] => 0 | e :: es' => cost e + costs es' end.

Definition totalCost (l : EventLoop) : nat :=
  (costs (eventsPriority l) + costs (events l))%nat.

(** Handling an event never fails and queues work that is worth less than the event. *)
Definition handlingShrinks : Prop := forall e w,
  exists w' emitted, processEvent e w = (w', Ok tt, emitted) /\ (costs emitted < cost e)%nat.

Lemma cost_length (Hpos : handlingShrinks) es : (W -> (length es <= costs es)%nat).
Proof.
  intros w. induction es as [|e es IH]; [done|].
  destruct (Hpos e w) as (w' & em & _ & H). simpl in *. lia.
Qed.

Lemma queueFromLoop_fits es l :
  (length (eventsPriority l) + length es <= PriorityEventQueueSize)%nat ->
  queueFromLoop es l = l <| eventsPriority ::= fun q => q ++ es |>.
Proof.
  revert l. induction es as [|e es IH]; intros l H; simpl in *.
  { destruct l as [ev pr p m h]. unfold field_set; simpl. by rewrite app_nil_r. }
  unfold QueuePriorityEvent. destruct (Nat.ltb_spec (length (eventsPriority l)) PriorityEventQueueSize); [|lia].
  rewrite IH by (simpl; rewrite length_app; simpl; lia).
  unfold field_set; simpl. by rewrite <- app_assoc.
Qed.

Lemma costs_app l1 l2 : costs (l1 ++ l2) = (costs l1 + costs l2)%nat.
Proof. induction l1 as [|e l1 IH]; simpl; lia. Qed.

(** [DrainPendingEvents] returns, with both queues empty, as soon as handling an event
    queues less work than the event was worth and the priority channel can hold the outstanding
    work: the loop cannot then spin or block on its own channel. *)
Theorem drainPendingEvents_empties fuel l :
  handlingShrinks -> pc l <> SelfBlocked ->
  (totalCost l < fuel)%nat -> (totalCost l <= PriorityEventQueueSize)%nat ->
  exists l', DrainPendingEvents fuel l = (l', Ok tt) /\ events l' = [] /\ eventsPriority l' = [].
Proof.
  intros Hs. revert l. induction fuel as [|fuel IH]; intros l Hpc Hfuel Hcap; [lia|].
  unfold totalCost in *. simpl.
  destruct (eventsPriority l) as [|e q] eqn:Ep; [destruct (events l) as [|e q] eqn:Ee|].
  { exists l. done. }
  all: destruct (Hs e (entityMem l)) as (w' & em & Hproc & Hlt); cbn; rewrite Hproc.
  all: pose proof (cost_length Hs em (entityMem l)).
  all: pose proof (cost_length Hs q (entityMem l)).
  all: rewrite queueFromLoop_fits by (cbn; rewrite ?Ep; simpl in *; lia); cbn.
  all: destruct (pc l) eqn:Epc; try done.
  all: apply IH; cbn; rewrite ?Epc, ?Ep, ?Ee; simpl in *; rewrite ?costs_app; simpl; try done; lia.
Qed.
End Drain.
End Loop.

(** ** The race between the drain and the select *)

(** An event loop over numbers; handling [S n] queues [n], handling [0] queues nothing. *)
Definition countdown (e : nat) (w : list nat) : list nat * res unit * list nat :=
  (w ++ [e], Ok tt, match e with O => [] | S n => [n] end).

Definition raceChoices : list (Choice nat) :=
  [ChDrainDone; ChQueueEvent 0; ChQueuePriorityEvent 0; ChSelectNormal].

(** The loop can take a normal event while a priority event is buffered: the drain sees an
    empty priority channel, both channels then receive an event, and the select takes the normal
    one. *)
Theorem normal_taken_before_priority :
  exists l, loopRun (fun _ => false) countdown 10 10 raceChoices (newEventLoop []) = Some l /\
    handled l = [(queueNormal, 0)] /\ eventsPriority l = [0].
Proof. eexists. split; [vm_compute; reflexivity|]. split; reflexivity. Qed.

Lemma normal_queue_fifo_witness :
  exists l, loopRun (fun _ => false) countdown 10 10 raceChoices (newEventLoop []) = Some l /\
    handledFrom queueNormal l ++ events l = flat_map (queuedOn queueNormal) raceChoices.
Proof.
  eexists. split; [vm_compute; reflexivity|].
  eapply (normal_queue_fifo (fun _ => false) countdown 10 10 raceChoices []). vm_compute. reflexivity.
Defined.

Lemma priority_overtaken_at_most_once_witness :
  exists l l', loopRun (fun _ => false) countdown 10 10
      [ChDrainDone; ChQueueEvent 0; ChQueueEvent 1; ChQueuePriorityEvent 0] (newEventLoop []) = Some l /\
    loopRun (fun _ => false) countdown 10 10 [ChSelectNormal] l = Some l' /\
    (length (handledFrom queueNormal l') <= length (handledFrom queueNormal l) + 1)%nat.
Proof.
  eexists _, _. split; [vm_compute; reflexivity|]. split; [vm_compute; reflexivity|].
  eapply (priority_overtaken_at_most_once (fun _ => false) countdown 10 10 [ChSelectNormal]).
  - vm_compute. reflexivity.
  - discriminate.
  - reflexivity.
Defined.

Lemma drainPendingEvents_empties_witness :
  exists l', DrainPendingEvents countdown 10 8 (MkEventLoop [1] [2] Draining [] []) = (l', Ok tt) /\
    events l' = [] /\ eventsPriority l' = [].
Proof.
  apply (drainPendingEvents_empties countdown 10 S 8); [|discriminate|vm_compute; lia|vm_compute; lia].
  intros e w. exists (w ++ [e]). destruct e; eexists; (split; [reflexivity|simpl; lia]).
Defined.
