(* ===== verification/Identity.v ===== *)
(** * Private identity locators (sdk/go/pkg/pldtypes)

    [identity@node] locators name every party the sequencer deals with: originators, endorsers,
    signing parties, the recipients of private state.  [Validate] splits a locator and checks both
    halves; [Node], [Identity] and [FullyQualified] are its projections. *)

From S2P Require Import Prelude.
From Stdlib Require Import Ascii.
Open Scope string_scope.

(** [strings.Split(s, sep)] for a one-byte separator: never empty. *)
Fixpoint Split (s : string) (sep : ascii) : list string :=
  match s with
  | EmptyString => [""]
  | String c s' =>
      if ascii_dec c sep then "" :: Split s' sep
      else match Split s' sep with
           | part :: rest => String c part :: rest
           | [] => [String c ""]
           end
  end.

Definition DefaultNameMaxLen : nat := 128.

(** [unicode.IsLetter(c) || unicode.IsNumber(c)] for [c <= unicode.MaxASCII]. *)
Definition isASCIILetterOrNumber (c : ascii) : bool :=
  let n := N_of_ascii c in
  ((48 <=? n) && (n <=? 57) || (65 <=? n) && (n <=? 90) || (97 <=? n) && (n <=? 122))%N.

(** The loop of [ValidateSafeCharsStartEndAlphaNum] over [val] from byte [i] of [len] bytes.  A
    byte over 127 starts a rune over [unicode.MaxASCII] (or decodes to [RuneError]), so it fails. *)
Fixpoint safeChars (val : string) (i len : nat) : bool :=
  match val with
  | EmptyString => true
  | String c val' =>
      (isASCIILetterOrNumber c
       || (negb (i =? 0)%nat && negb (i =? len - 1)%nat
           && (bool_decide (c = "."%char) || bool_decide (c = "_"%char) || bool_decide (c = "-"%char))))
      && safeChars val' (S i) len
  end.

Definition ValidateSafeCharsStartEndAlphaNum (val : string) (maxLen : nat) (fieldName : string) : res unit :=
  let len := String.length val in
  if ((0 <? len) && (len <=? maxLen) && safeChars val 0 len)%nat%bool then Ok tt
  else Err (MsgTypesInvalidNameSafeCharAlphaBoxed fieldName val).

(** [PrivateIdentityLocator.Validate].  With more than one '@' the error carries [node], which
    nothing has assigned yet. *)
Definition Validate (pil : string) (defaultNode : string) (allowEmptyNode : bool) : res (string * string) :=
  let check (identity node : string) :=
      match ValidateSafeCharsStartEndAlphaNum identity DefaultNameMaxLen "identity" with
      | Ok _ =>
          let node := if String.eqb node "" then defaultNode else node in
          if String.eqb node "" then
            if allowEmptyNode then Ok (identity, node)
            else Err (MsgTypesPrivateIdentityReqFullyQualified pil)
          else
            match ValidateSafeCharsStartEndAlphaNum node DefaultNameMaxLen "node" with
            | Ok _ => Ok (identity, node)
            | _ => Err (MsgTypesPrivateIdentityLocatorInvalid pil)
            end
      | _ => Err (MsgTypesPrivateIdentityLocatorInvalid pil)
      end in
  match Split pil "@" with
  | [identity] => check identity ""
  | [identity; node] => check identity node
  | _ => Err (MsgTypesPrivateIdentityLocatorInvalid "")
  end.

Definition mapRes {A B} (f : A -> B) (r : res A) : res B :=
  match r with Ok a => Ok (f a) | Err e => Err e | Crash c => Crash c end.

Definition Identity (pil : string) : res string := mapRes fst (Validate pil "" true).

Definition Node (pil : string) (allowEmptyNode : bool) : res string := mapRes snd (Validate pil "" allowEmptyNode).

Definition FullyQualified (pil : string) (defaultNode : string) : res string :=
  mapRes (fun p => fst p ++ "@" ++ snd p) (Validate pil defaultNode false).

(** ** Facts *)

Fixpoint hasChar (c : ascii) (s : string) : bool :=
  match s with
  | EmptyString => false
  | String d s' => bool_decide (d = c) || hasChar c s'
  end.

Lemma safeChars_no_at val i len : safeChars val i len = true -> hasChar "@" val = false.
Proof.
  revert i. induction val as [|c val IH]; intros i H; simpl in *; [done|].
  apply andb_prop in H as [Hc H]. rewrite (IH _ H), orb_false_r.
  apply bool_decide_eq_false. intros ->.
  revert Hc. rewrite !(bool_decide_eq_false_2 ("@"%char = _)) by done.
  simpl. by rewrite andb_false_r.
Qed.

Lemma Split_no_sep s c : hasChar c s = false -> Split s c = [s].
Proof.
  induction s as [|d s IH]; simpl; [done|]. intros [Hd H]%orb_false_elim.
  apply bool_decide_eq_false in Hd. destruct (ascii_dec d c); [done|]. by rewrite IH.
Qed.

Lemma Split_app_sep s c t :
  hasChar c s = false -> Split (s ++ String c t) c = s :: Split t c.
Proof.
  induction s as [|d s IH]; simpl.
  { intros _. by destruct (ascii_dec c c). }
  intros [Hd H]%orb_false_elim. apply bool_decide_eq_false in Hd.
  destruct (ascii_dec d c); [done|]. by rewrite IH.
Qed.

Definition safeName (s : string) : Prop :=
  forall field, ValidateSafeCharsStartEndAlphaNum s DefaultNameMaxLen field = Ok tt.

Lemma validate_safeName s field : ValidateSafeCharsStartEndAlphaNum s DefaultNameMaxLen field = Ok tt -> safeName s.
Proof. unfold safeName, ValidateSafeCharsStartEndAlphaNum. intros H field'. by case_match. Qed.

Lemma safeName_no_at s : safeName s -> hasChar "@" s = false.
Proof.
  intros H. specialize (H ""). unfold ValidateSafeCharsStartEndAlphaNum in H.
  case_match eqn:E; [|done]. apply andb_prop in E as [_ E]. by eapply safeChars_no_at.
Qed.

Lemma safeName_nonempty s : safeName s -> String.eqb s "" = false.
Proof.
  intros H. specialize (H ""). unfold ValidateSafeCharsStartEndAlphaNum in H. by destruct s.
Qed.

Lemma Validate_ok_safe pil d allowEmpty identity node :
  Validate pil d allowEmpty = Ok (identity, node) ->
  safeName identity /\ (safeName node \/ (allowEmpty = true /\ node = "")).
Proof.
  unfold Validate. intros H.
  destruct (Split pil "@") as [|i [|n [|? ?]]]; [done| | |done].
  all: destruct (ValidateSafeCharsStartEndAlphaNum i DefaultNameMaxLen "identity") as [[]|?|?] eqn:Ei; try done.
  all: simpl in H.
  all: match type of H with
       | (if String.eqb ?n "" then _ else _) = _ => set (nd := n) in *
       end.
  all: destruct (String.eqb nd "") eqn:En;
    [destruct allowEmpty; [|done]; simplify_eq; apply String.eqb_eq in En; eauto using validate_safeName|].
  all: destruct (ValidateSafeCharsStartEndAlphaNum nd DefaultNameMaxLen "node") as [[]|?|?] eqn:Ev; try done.
  all: simplify_eq; eauto using validate_safeName.
Qed.

Lemma Validate_qualified identity node d allowEmpty :
  safeName identity -> safeName node ->
  Validate (identity ++ "@" ++ node) d allowEmpty = Ok (identity, node).
Proof.
  intros Hi Hn. unfold Validate. change ("@" ++ node)%string with (String "@" node).
  rewrite Split_app_sep, Split_no_sep by auto using safeName_no_at.
  simpl. rewrite (Hi "identity"), (safeName_nonempty node Hn), (safeName_nonempty node Hn), (Hn "node"). done.
Qed.

(** Qualifying a locator with a default node and reading it back, on any node and with any
    default, yields the identity and node it stood for; and qualifying it again changes nothing. *)
Theorem fullyQualified_roundtrip pil defaultNode q :
  FullyQualified pil defaultNode = Ok q ->
  exists identity node,
    Validate pil defaultNode false = Ok (identity, node) /\
    (forall d allowEmpty, Validate q d allowEmpty = Ok (identity, node)) /\
    (forall d, FullyQualified q d = Ok q).
Proof.
  unfold FullyQualified. intros H.
  destruct (Validate pil defaultNode false) as [[identity node]|?|?] eqn:Ev; try done.
  simpl in H. simplify_eq.
  destruct (Validate_ok_safe _ _ _ _ _ Ev) as [Hi [Hn|[? _]]]; [|done].
  exists identity, node. split; [done|]. split.
  - intros d b. by apply Validate_qualified.
  - intros d. by rewrite Validate_qualified.
Qed.

Lemma fullyQualified_roundtrip_witness :
  exists identity node,
    Validate "member1" "node1" false = Ok (identity, node) /\
    (forall d allowEmpty, Validate "member1@node1" d allowEmpty = Ok (identity, node)) /\
    (forall d, FullyQualified "member1@node1" d = Ok "member1@node1").
Proof. apply (fullyQualified_roundtrip "member1" "node1"). vm_compute. reflexivity. Defined.

(** A locator with more than one '@' is refused with an error that names the empty string
    instead of the offending locator. *)
Theorem validate_many_at_error_loses_locator a b c d allowEmpty :
  hasChar "@" a = false -> hasChar "@" b = false ->
  Validate (a ++ String "@" (b ++ String "@" c)) d allowEmpty = Err (MsgTypesPrivateIdentityLocatorInvalid "").
Proof.
  intros Ha Hb. unfold Validate. rewrite !Split_app_sep by done.
  by destruct (Split c "@") eqn:E; [destruct c; simpl in E; repeat case_match|].
Qed.

Lemma validate_many_at_error_loses_locator_witness :
  Validate "alice@node1@node2" "node1" false = Err (MsgTypesPrivateIdentityLocatorInvalid "").
Proof.
  exact (validate_many_at_error_loses_locator "alice" "node1" "node2" "node1" false eq_refl eq_refl).
Defined.
