(* ===== verification/Selection.v ===== *)
(** * Coordinator selection (sequencer/common/selection.go)

    Which node coordinates a contract: the configuration of the contract is resolved to a static
    node, to the sender, or to a pool of endorser nodes; the pool is sorted and deduplicated, and
    at each epoch of block heights it is rotated by a hash of the effective block height into a
    priority list. *)

From S2P Require Import Prelude Identity.
From stdpp Require Import sorting pretty list.
Open Scope string_scope.
Open Scope list_scope.

Inductive CoordinatorSelection : Type :=
| COORDINATOR_STATIC
| COORDINATOR_ENDORSER
| COORDINATOR_SENDER
| CoordinatorSelection_other (value : Z).

(** The fields of [prototk.ContractConfig] the resolution reads. *)
Record ContractConfig : Type := MkContractConfig {
  cc_coordinatorSelection : CoordinatorSelection;
  cc_staticCoordinator : string;
  cc_coordinatorEndorserCandidates : list string
}.

Record CoordinatorSelectionConfig : Type := MkCoordinatorSelectionConfig {
  csc_Mode : CoordinatorSelection;
  csc_StaticCoordinator : string;
  csc_Endorsers : list string
}.

(** [slices.Compact]: of each run of equal elements the first stays. *)
Fixpoint Compact (l : list string) : list string :=
  match l with
  | x :: ((y :: _) as l') => if String.eqb x y then Compact l' else x :: Compact l'
  | _ => l
  end.

(** [slices.Sort] on strings compares bytes. *)
Definition DedupeSortedCoordinatorEndorserNodes (nodes : list string) : list string :=
  match nodes with
  | [] => nodes
  | _ => Compact (merge_sort String.le nodes)
  end.

(** The loop over the endorser candidates. *)
Fixpoint candidateNodes (candidates : list string) : res (list string) :=
  match candidates with
  | [] => Ok []
  | locator :: rest =>
      match Validate locator "" false with
      | Ok (_, node) => mapRes (cons node) (candidateNodes rest)
      | Err e => Err (MsgSequencerInvalidEndorserCandidate e locator)
      | Crash c => Crash c
      end
  end.

Definition ResolveCoordinatorSelectionConfig (nodeName contractAddress : string)
    (contractConfig : ContractConfig) : res CoordinatorSelectionConfig :=
  let mode := cc_coordinatorSelection contractConfig in
  match mode with
  | COORDINATOR_STATIC =>
      let staticCoordinator := cc_staticCoordinator contractConfig in
      if String.eqb staticCoordinator "" then Err (MsgSequencerStaticCoordinatorNotSet contractAddress)
      else
        match Node staticCoordinator false with
        | Ok node => Ok (MkCoordinatorSelectionConfig mode node [])
        | Err e => Err (MsgSequencerInvalidStaticCoordinator e contractAddress staticCoordinator)
        | Crash c => Crash c
        end
  | COORDINATOR_ENDORSER =>
      let candidates := cc_coordinatorEndorserCandidates contractConfig in
      match candidates with
      | [] => Ok (MkCoordinatorSelectionConfig mode "" [nodeName])
      | _ =>
          mapRes (fun nodes =>
            MkCoordinatorSelectionConfig mode "" (DedupeSortedCoordinatorEndorserNodes (nodes ++ [nodeName])))
            (candidateNodes candidates)
      end
  | _ => Ok (MkCoordinatorSelectionConfig mode "" [])
  end.

(** [hash/fnv]'s 32-bit FNV-1a. *)
Definition u32 (z : Z) : Z := (z mod 2 ^ 32)%Z.

Fixpoint fnv32a_write (h : Z) (data : string) : Z :=
  match data with
  | EmptyString => h
  | String c data' => fnv32a_write (u32 (Z.lxor h (Z.of_N (Ascii.N_of_ascii c)) * 16777619)) data'
  end.

Definition fnv32a (data : string) : Z := fnv32a_write 2166136261 data.

(** [h.Write([]byte(strconv.FormatUint(effectiveBlockHeight, 10))); p := int(h.Sum32()) % n]; an
    [int] has 64 bits, so the conversion keeps the value. *)
Definition selectedIndex (n : nat) (effectiveBlockHeight : Z) : nat :=
  Z.to_nat (fnv32a (pretty (Z.to_N effectiveBlockHeight)) mod Z.of_nat n)%Z.

Definition ComputeCoordinatorPriorityList (nodePool : list string) (effectiveBlockHeight : Z) : list string :=
  let n := length nodePool in
  match nodePool with
  | [] => []
  | [node] => [node]
  | _ =>
      let p := selectedIndex n effectiveBlockHeight in
      (fun i => default "" (nodePool !! ((p + i) mod n)%nat)) <$> seq 0 n
  end.

Fixpoint PriorityIndexOf (list : list string) (node : string) : nat :=
  match list with
  | [] => 0
  | n :: rest => if String.eqb n node then 0 else S (PriorityIndexOf rest node)
  end.

Definition IsHigherPriority (list : list string) (node1 node2 : string) : bool :=
  (PriorityIndexOf list node1 <? PriorityIndexOf list node2)%nat.

(** A zero [blockRange] is a division by zero. *)
Definition ComputeEffectiveBlockHeight (height blockRange : Z) : res Z :=
  if (blockRange =? 0)%Z then Crash Panic else Ok (u64_sub height (height mod blockRange))%Z.

(** ** The endorser pool *)

Lemma elem_of_Compact l x : x ∈ Compact l <-> x ∈ l.
Proof.
  induction l as [|y [|z l] IH]; [done..|]. cbn [Compact].
  destruct (String.eqb_spec y z) as [->|]; rewrite ?elem_of_cons, IH; set_solver.
Qed.

Definition string_lt (x y : string) : Prop := String.le x y /\ x <> y.

Lemma Compact_sorted l : StronglySorted String.le l -> StronglySorted string_lt (Compact l).
Proof.
  induction l as [|y [|z l] IH]; intros Hs; [constructor|by repeat constructor|].
  apply StronglySorted_cons in Hs as [Hy Hs]. cbn [Compact].
  destruct (String.eqb_spec y z) as [->|Hyz]; [by apply IH|].
  apply StronglySorted_cons. split; [|by apply IH].
  apply Forall_forall. intros x Hx. rewrite (elem_of_Compact (z :: l)) in Hx.
  rewrite Forall_forall in Hy. split; [by apply Hy|]. intros ->.
  apply StronglySorted_cons in Hs as [Hz _]. apply elem_of_cons in Hx as [->|Hx]; [done|].
  rewrite Forall_forall in Hz. apply Hyz, (anti_symm String.le).
  - apply Hy. set_solver.
  - by apply Hz.
Qed.

Lemma string_lt_sorted_NoDup l : StronglySorted string_lt l -> NoDup l.
Proof.
  induction 1 as [|x l Hl IH Hx]; constructor; [|done].
  rewrite Forall_forall in Hx. intros Hin. by destruct (Hx x Hin).
Qed.

Lemma string_lt_sorted_le l : StronglySorted string_lt l -> StronglySorted String.le l.
Proof. induction 1 as [|x l Hl IH Hx]; constructor; [done|]. eapply Forall_impl; [done|]. by intros ? []. Qed.

Lemma elem_of_Dedupe l x : x ∈ DedupeSortedCoordinatorEndorserNodes l <-> x ∈ l.
Proof. destruct l; [done|]. unfold DedupeSortedCoordinatorEndorserNodes. by rewrite elem_of_Compact, merge_sort_Permutation. Qed.

Lemma Dedupe_sorted l : StronglySorted string_lt (DedupeSortedCoordinatorEndorserNodes l).
Proof.
  destruct l; [constructor|]. apply Compact_sorted, Sorted_StronglySorted; [apply _|].
  apply Sorted_merge_sort. apply _.
Qed.

Lemma Dedupe_NoDup l : NoDup (DedupeSortedCoordinatorEndorserNodes l).
Proof. apply string_lt_sorted_NoDup, Dedupe_sorted. Qed.

(** The pool is a function of the set of its nodes. *)
Lemma Dedupe_ext l1 l2 :
  (forall x, x ∈ l1 <-> x ∈ l2) ->
  DedupeSortedCoordinatorEndorserNodes l1 = DedupeSortedCoordinatorEndorserNodes l2.
Proof.
  intros H. apply (StronglySorted_unique String.le).
  - apply string_lt_sorted_le, Dedupe_sorted.
  - apply string_lt_sorted_le, Dedupe_sorted.
  - apply NoDup_Permutation; [apply Dedupe_NoDup..|]. intros x. by rewrite !elem_of_Dedupe.
Qed.

(** (C39) The lists of endorsers that two nodes resolve from the same configuration of a contract in
    endorser mode, with which they start, are the same exactly when each node is named by a candidate or
    they are the same node: each node adds itself to its own. What is added to a pool later, from
    heartbeats, is not part of this. *)
Theorem resolved_endorsers_agree addr cfg node1 node2 cfg1 cfg2 nodes :
  cc_coordinatorSelection cfg = COORDINATOR_ENDORSER ->
  cc_coordinatorEndorserCandidates cfg <> [] ->
  candidateNodes (cc_coordinatorEndorserCandidates cfg) = Ok nodes ->
  ResolveCoordinatorSelectionConfig node1 addr cfg = Ok cfg1 ->
  ResolveCoordinatorSelectionConfig node2 addr cfg = Ok cfg2 ->
  csc_Endorsers cfg1 = csc_Endorsers cfg2 <-> node1 = node2 \/ (node1 ∈ nodes /\ node2 ∈ nodes).
Proof.
  intros Hm Hne Hc. unfold ResolveCoordinatorSelectionConfig. rewrite Hm.
  destruct (cc_coordinatorEndorserCandidates cfg); [done|]. rewrite Hc. simpl.
  intros [= <-] [= <-]. simpl. split; [|intros [->|[]]; [done|apply Dedupe_ext; set_solver]].
  intros Heq.
  assert (forall x, x ∈ nodes ++ [node1] <-> x ∈ nodes ++ [node2]) as Hx.
  { intros x. by rewrite <-(elem_of_Dedupe (nodes ++ [node1])), Heq, elem_of_Dedupe. }
  pose proof (Hx node1) as H1. pose proof (Hx node2) as H2. set_solver.
Qed.

Definition exampleConfig : ContractConfig :=
  MkContractConfig COORDINATOR_ENDORSER "" ["a@node2"; "b@node1"; "c@node2"].

Lemma resolved_endorsers_agree_witness :
  ResolveCoordinatorSelectionConfig "node3" "0x00" exampleConfig
    = Ok (MkCoordinatorSelectionConfig COORDINATOR_ENDORSER "" ["node1"; "node2"; "node3"]) /\
  ResolveCoordinatorSelectionConfig "node1" "0x00" exampleConfig
    = Ok (MkCoordinatorSelectionConfig COORDINATOR_ENDORSER "" ["node1"; "node2"]) /\
  (["node1"; "node2"; "node3"] = ["node1"; "node2"] <->
   "node3" = "node1" \/ ("node3" ∈ ["node2"; "node1"; "node2"] /\ "node1" ∈ ["node2"; "node1"; "node2"])).
Proof.
  split; [vm_compute; reflexivity|split; [vm_compute; reflexivity|]].
  exact (resolved_endorsers_agree "0x00" exampleConfig "node3" "node1"
    (MkCoordinatorSelectionConfig COORDINATOR_ENDORSER "" ["node1"; "node2"; "node3"])
    (MkCoordinatorSelectionConfig COORDINATOR_ENDORSER "" ["node1"; "node2"]) ["node2"; "node1"; "node2"]
    ltac:(reflexivity) ltac:(discriminate) ltac:(vm_compute; reflexivity)
    ltac:(vm_compute; reflexivity) ltac:(vm_compute; reflexivity)).
Defined.

(** ** The priority list *)

Lemma selectedIndex_lt n h : 0 < n -> selectedIndex n h < n.
Proof. intros Hn. unfold selectedIndex. pose proof (Z.mod_pos_bound (fnv32a (pretty (Z.to_N h))) (Z.of_nat n)). lia. Qed.

Lemma rotation_lookup (pool : list string) p :
  p < length pool ->
  (fun i => default "" (pool !! ((p + i) mod length pool))) <$> seq 0 (length pool)
  = drop p pool ++ take p pool.
Proof.
  intros Hp. apply list_eq. intros i.
  rewrite list_lookup_fmap. destruct (decide (i < length pool)) as [Hi|Hi].
  - rewrite lookup_seq_lt by done. simpl. rewrite lookup_app, length_drop, lookup_drop.
    destruct (decide (p + i < length pool)) as [Hpi|Hpi].
    + rewrite Nat.mod_small by lia. by destruct (lookup_lt_is_Some_2 pool (p + i)) as [x ->].
    + rewrite (lookup_ge_None_2 pool (p + i)) by lia.
      assert ((p + i) mod length pool = i - (length pool - p)) as ->.
      { rewrite <-(Nat.mod_small (i - (length pool - p)) (length pool)) by lia.
        rewrite <-(Nat.Div0.mod_add (i - (length pool - p)) 1). f_equal. lia. }
      rewrite lookup_take_lt by lia.
      by destruct (lookup_lt_is_Some_2 pool (i - (length pool - p))) as [x ->]; [lia|].
  - rewrite lookup_seq_ge by lia. simpl. symmetry. apply lookup_ge_None_2.
    rewrite length_app, length_drop, length_take. lia.
Qed.

(** The priority list of a non-empty pool is the pool rotated to start at the index the hash
    of the effective height selects: every node keeps exactly one slot, and the node in front is the
    selected one. *)
Theorem priorityList_rotation pool h :
  pool <> [] ->
  exists p, p < length pool /\
    ComputeCoordinatorPriorityList pool h = drop p pool ++ take p pool /\
    head (ComputeCoordinatorPriorityList pool h) = pool !! p /\
    ComputeCoordinatorPriorityList pool h ≡ₚ pool.
Proof.
  intros Hne.
  assert (exists p, p < length pool /\
    ComputeCoordinatorPriorityList pool h = drop p pool ++ take p pool) as (p & Hp & Heq).
  { destruct pool as [|a [|b pool]]; [done|by exists 0; simpl; split; [lia|]|].
    exists (selectedIndex (length (a :: b :: pool)) h). split; [apply selectedIndex_lt; simpl; lia|].
    apply rotation_lookup, selectedIndex_lt. simpl. lia. }
  exists p. split_and!; [done|done| |].
  - rewrite Heq. destruct (lookup_lt_is_Some_2 pool p Hp) as [x Hx].
    rewrite (drop_S _ _ _ Hx). by rewrite Hx.
  - rewrite Heq, Permutation_app_comm. by rewrite take_drop.
Qed.

Lemma priorityList_rotation_witness :
  exists p, p < length ["node1"; "node2"; "node3"] /\
    ComputeCoordinatorPriorityList ["node1"; "node2"; "node3"] 1000
      = drop p ["node1"; "node2"; "node3"] ++ take p ["node1"; "node2"; "node3"] /\
    head (ComputeCoordinatorPriorityList ["node1"; "node2"; "node3"] 1000) = ["node1"; "node2"; "node3"] !! p /\
    ComputeCoordinatorPriorityList ["node1"; "node2"; "node3"] 1000 ≡ₚ ["node1"; "node2"; "node3"].
Proof. apply (priorityList_rotation ["node1"; "node2"; "node3"] 1000). discriminate. Defined.

Lemma PriorityIndexOf_lookup l node :
  node ∈ l -> l !! PriorityIndexOf l node = Some node.
Proof.
  induction l as [|x l IH]; [by rewrite elem_of_nil|].
  simpl. destruct (String.eqb_spec x node) as [->|]; [done|]. intros [->|?]%elem_of_cons; [done|auto].
Qed.

Lemma PriorityIndexOf_absent l node : node ∉ l -> PriorityIndexOf l node = length l.
Proof.
  induction l as [|x l IH]; [done|]. simpl. intros [? ?]%not_elem_of_cons.
  destruct (String.eqb_spec x node) as [->|]; [done|]. auto.
Qed.

Lemma PriorityIndexOf_present l node : node ∈ l -> PriorityIndexOf l node < length l.
Proof. intros H. eapply lookup_lt_Some. by apply PriorityIndexOf_lookup. Qed.

Lemma IsHigherPriority_irrefl list a : IsHigherPriority list a a = false.
Proof. apply Nat.ltb_irrefl. Qed.

Lemma IsHigherPriority_total list a b :
  a ∈ list -> b ∈ list -> a <> b -> IsHigherPriority list a b = negb (IsHigherPriority list b a).
Proof.
  intros Ha Hb Hab. unfold IsHigherPriority.
  assert (PriorityIndexOf list a <> PriorityIndexOf list b).
  { intros Heq. apply PriorityIndexOf_lookup in Ha, Hb. rewrite Heq, Hb in Ha. congruence. }
  destruct (Nat.ltb_spec (PriorityIndexOf list a) (PriorityIndexOf list b)),
    (Nat.ltb_spec (PriorityIndexOf list b) (PriorityIndexOf list a)); simpl; lia || done.
Qed.

(** [IsHigherPriority] is a strict order that compares any two different nodes of the list
    one way or the other, and ranks every listed node above every node that is not listed. *)
Theorem isHigherPriority_strict_total list :
  (forall a, IsHigherPriority list a a = false) /\
  (forall a b c, IsHigherPriority list a b = true -> IsHigherPriority list b c = true -> IsHigherPriority list a c = true) /\
  (forall a b, a ∈ list -> b ∈ list -> a <> b -> IsHigherPriority list a b = negb (IsHigherPriority list b a)) /\
  (forall a b, a ∈ list -> b ∉ list -> IsHigherPriority list a b = true).
Proof.
  split_and!; [apply IsHigherPriority_irrefl| |apply IsHigherPriority_total|]; unfold IsHigherPriority.
  - intros a b c. rewrite !Nat.ltb_lt. lia.
  - intros a b Ha Hb. rewrite Nat.ltb_lt, (PriorityIndexOf_absent _ b Hb). by apply PriorityIndexOf_present.
Qed.

(** The effective height is the start of the height's epoch: a multiple of the range, at most
    one range below the height, and the same for two heights exactly when they share an epoch. *)
Theorem effectiveBlockHeight_epoch h1 h2 r :
  u64_range h1 -> u64_range h2 -> (0 < r)%Z ->
  exists e1 e2,
    ComputeEffectiveBlockHeight h1 r = Ok e1 /\ ComputeEffectiveBlockHeight h2 r = Ok e2 /\
    (r | e1)%Z /\ (e1 <= h1 < e1 + r)%Z /\
    (e1 = e2 <-> (h1 / r = h2 / r)%Z).
Proof.
  intros H1 H2 Hr. unfold ComputeEffectiveBlockHeight, u64_sub, u64.
  destruct (Z.eqb_spec r 0); [lia|]. unfold u64_range in *.
  pose proof (Z.mod_pos_bound h1 r Hr). pose proof (Z.mod_pos_bound h2 r Hr).
  pose proof (Z.mod_le h1 r ltac:(lia) Hr). pose proof (Z.mod_le h2 r ltac:(lia) Hr).
  rewrite (Z.mod_small (h1 - _)), (Z.mod_small (h2 - _)) by lia.
  pose proof (Z.div_mod h1 r ltac:(lia)). pose proof (Z.div_mod h2 r ltac:(lia)).
  eexists _, _. split_and!; [done|done| |lia|lia|].
  - exists (h1 / r)%Z. lia.
  - split; intros Heq; [apply (Z.mul_reg_l _ _ r); lia|]. rewrite Heq in *. lia.
Qed.

Lemma effectiveBlockHeight_epoch_witness :
  exists e1 e2,
    ComputeEffectiveBlockHeight 149 50 = Ok e1 /\ ComputeEffectiveBlockHeight 150 50 = Ok e2 /\
    (50 | e1)%Z /\ (e1 <= 149 < e1 + 50)%Z /\
    (e1 = e2 <-> (149 / 50 = 150 / 50)%Z).
Proof. apply (effectiveBlockHeight_epoch 149 150 50); unfold u64_range, u64_modulus; lia. Defined.
