(* ===== verification/DependencyTracker.v ===== *)
(** * The dependency tracker (coordinator/dependencytracker)

    Three chains record which transactions must go before which: pre-assembly (the order of
    delegation), post-assembly (the order of states, fed by the grapher) and chained (the order of
    dispatched child transactions).  A chain keeps both directions of every edge; the theorems show
    that its operations are those of a set of edges. *)

From S2P Require Import Prelude.

Record nodeLinks : Type := MkNodeLinks { dependsOn : list uuid; prereqOf : list uuid }.
#[export] Instance nodeLinks_rebuild : Rebuild nodeLinks := fun n => MkNodeLinks (dependsOn n) (prereqOf n).

(** [dependencyChain.nodes]; the chain's lock is held throughout each operation. *)
Abbreviation dependencyChain := (gmap N nodeLinks).

Record chainedDependencies : Type := MkChained {
  ch_chain : dependencyChain;
  unassembledDependencies : gmap N (gset N);
  children : gmap N uuid
}.
#[export] Instance chainedDependencies_rebuild : Rebuild chainedDependencies :=
  fun c => MkChained (ch_chain c) (unassembledDependencies c) (children c).

Record dependencyTracker : Type := MkTracker {
  preAssembly : dependencyChain;
  postAssembly : dependencyChain;
  chained : chainedDependencies
}.
#[export] Instance dependencyTracker_rebuild : Rebuild dependencyTracker :=
  fun t => MkTracker (preAssembly t) (postAssembly t) (chained t).

Definition NewDependencyTracker : dependencyTracker := MkTracker ∅ ∅ (MkChained ∅ ∅ ∅).

Definition appendUnique (ids : list uuid) (add : uuid) : list uuid :=
  if existsb (N.eqb add) ids then ids else ids ++ [add].

Definition removeUUID (ids : list uuid) (target : uuid) : list uuid :=
  List.filter (fun id => negb (N.eqb id target)) ids.

Definition ensure (d : dependencyChain) (id : uuid) : dependencyChain :=
  match d !! id with
  | Some _ => d
  | None => <[id := MkNodeLinks [] []]> d
  end.

(** ** dependencyChain *)

(** One turn of the loop of [AddPrerequisites]; [tx] and [prereqNode] point into the map. *)
Definition addPrerequisiteLink (txID : uuid) (d : dependencyChain) (preReq : uuid) : dependencyChain :=
  if N.eqb preReq txID then d
  else
    let d := ensure d preReq in
    let d := alter (fun tx => tx <| dependsOn ::= fun l => appendUnique l preReq |>) txID d in
    alter (fun prereqNode => prereqNode <| prereqOf ::= fun l => appendUnique l txID |>) preReq d.

Definition AddPrerequisites (d : dependencyChain) (txID : uuid) (prereq : list uuid) : dependencyChain :=
  foldl (addPrerequisiteLink txID) (ensure d txID) prereq.

(** [if prereqNode, ok := d.nodes[prereqID]; ok { prereqNode.prereqOf = removeUUID(...) }] *)
Definition unlinkPrereqOf (txID : uuid) (d : dependencyChain) (prereqID : uuid) : dependencyChain :=
  alter (fun prereqNode => prereqNode <| prereqOf ::= fun l => removeUUID l txID |>) prereqID d.

Definition unlinkDependsOn (txID : uuid) (d : dependencyChain) (dependentID : uuid) : dependencyChain :=
  alter (fun depNode => depNode <| dependsOn ::= fun l => removeUUID l txID |>) dependentID d.

Definition ClearPrerequisites (d : dependencyChain) (txID : uuid) : dependencyChain :=
  match d !! txID with
  | None => d
  | Some tx =>
      alter (fun tx => tx <| dependsOn := [] |>) txID
        (foldl (unlinkPrereqOf txID) d (dependsOn tx))
  end.

Definition ClearDependents (d : dependencyChain) (txID : uuid) : dependencyChain :=
  match d !! txID with
  | None => d
  | Some tx =>
      alter (fun tx => tx <| prereqOf := [] |>) txID
        (foldl (unlinkDependsOn txID) d (prereqOf tx))
  end.

Definition Delete (d : dependencyChain) (transactionID : uuid) : dependencyChain :=
  match d !! transactionID with
  | None => d
  | Some tx =>
      delete transactionID
        (foldl (unlinkPrereqOf transactionID)
           (foldl (unlinkDependsOn transactionID) d (prereqOf tx)) (dependsOn tx))
  end.

Definition GetDependents (d : dependencyChain) (txID : uuid) : list uuid :=
  match d !! txID with None => [] | Some tx => prereqOf tx end.

Definition GetPrerequisites (d : dependencyChain) (txID : uuid) : list uuid :=
  match d !! txID with None => [] | Some tx => dependsOn tx end.

Definition nonEmpty {A} (l : list A) : bool := match l with [] => false | _ => true end.

Definition HasDependents (d : dependencyChain) (txID : uuid) : bool := nonEmpty (GetDependents d txID).

Definition HasPrerequisites (d : dependencyChain) (txID : uuid) : bool := nonEmpty (GetPrerequisites d txID).

(** ** singleDependencyChain *)

Definition AddPrerequisite (d : dependencyChain) (txID prereq : uuid) : dependencyChain :=
  if N.eqb prereq txID then d
  else
    let d := ensure (ensure d txID) prereq in
    let d := alter (fun tx => tx <| dependsOn := [prereq] |>) txID d in
    alter (fun prereqNode => prereqNode <| prereqOf := [txID] |>) prereq d.

Definition GetPrerequisite (d : dependencyChain) (txID : uuid) : option uuid := head (GetPrerequisites d txID).

Definition GetDependent (d : dependencyChain) (txID : uuid) : option uuid := head (GetDependents d txID).

(** ** chainedDependencies *)

Definition AddUnassembledDependencies (cd : chainedDependencies) (txID : uuid) (ids : list uuid) : chainedDependencies :=
  match ids with
  | [] => cd
  | _ => cd <| unassembledDependencies ::=
               fun m => <[txID := default ∅ (m !! txID) ∪ list_to_set ids]> m |>
  end.

Definition DeleteUnassembledDependencies (cd : chainedDependencies) (txID : uuid) (ids : list uuid) : chainedDependencies :=
  cd <| unassembledDependencies ::= alter (fun s => s ∖ list_to_set ids) txID |>.

Definition GetUnassembledDependencies (cd : chainedDependencies) (txID : uuid) : gset N :=
  default ∅ (unassembledDependencies cd !! txID).

Definition HasUnassembledDependencies (cd : chainedDependencies) (txID : uuid) : bool :=
  negb (bool_decide (GetUnassembledDependencies cd txID = ∅)).

Definition SetChainedChild (cd : chainedDependencies) (parentID childID : uuid) : chainedDependencies :=
  cd <| children ::= <[parentID := childID]> |>.

Definition GetChainedChild (cd : chainedDependencies) (parentID : uuid) : option uuid :=
  match children cd !! parentID with
  | Some childID => if N.eqb childID uuid_Nil then None else Some childID
  | None => None
  end.

Definition ForgetChainedChild (cd : chainedDependencies) (parentID : uuid) : chainedDependencies :=
  cd <| children ::= delete parentID |>.

Definition chainedDelete (cd : chainedDependencies) (id : uuid) : chainedDependencies :=
  MkChained (Delete (ch_chain cd) id) (delete id (unassembledDependencies cd)) (delete id (children cd)).

Definition trackerDelete (dt : dependencyTracker) (txID : uuid) : dependencyTracker :=
  MkTracker (Delete (preAssembly dt) txID) (Delete (postAssembly dt) txID) (chainedDelete (chained dt) txID).

(** ** Operations that only remove *)

(** No transaction gains a dependent. *)
Definition dependents_le (d' d : dependencyChain) : Prop :=
  forall id, GetDependents d' id ⊆ GetDependents d id.

#[export] Instance dependents_le_preorder : PreOrder dependents_le.
Proof. split; [by intros d id|]. intros d1 d2 d3 H1 H2 id. etrans; [apply H1|apply H2]. Qed.

Lemma dependents_le_alter f id d :
  (forall tx, prereqOf (f tx) ⊆ prereqOf tx) -> dependents_le (alter f id d) d.
Proof.
  intros Hf x. unfold GetDependents. destruct (decide (x = id)) as [->|Hne].
  - rewrite lookup_alter_eq. destruct (d !! id) as [tx|]; simpl; [apply Hf|done].
  - by rewrite lookup_alter_ne by done.
Qed.

Lemma dependents_le_foldl (f : dependencyChain -> uuid -> dependencyChain) l d :
  (forall d x, dependents_le (f d x) d) -> dependents_le (foldl f d l) d.
Proof.
  intros Hf. revert d. induction l as [|x l IH]; intros d; simpl; [done|].
  etrans; [apply IH|apply Hf].
Qed.

Lemma removeUUID_sub l x : removeUUID l x ⊆ l.
Proof. intros y Hy. apply list_elem_of_In in Hy. apply filter_In in Hy as [Hy _]. by apply list_elem_of_In. Qed.

Lemma dependents_le_unlinkPrereqOf id d x : dependents_le (unlinkPrereqOf id d x) d.
Proof. apply dependents_le_alter. intros tx. apply removeUUID_sub. Qed.

Lemma dependents_le_unlinkDependsOn id d x : dependents_le (unlinkDependsOn id d x) d.
Proof. by apply dependents_le_alter. Qed.

Lemma dependents_le_delete id d : dependents_le (delete id d) d.
Proof.
  intros x. unfold GetDependents. destruct (decide (x = id)) as [->|Hne].
  - rewrite lookup_delete_eq. apply list_subseteq_nil.
  - by rewrite lookup_delete_ne by done.
Qed.

Lemma dependents_le_ClearPrerequisites d id : dependents_le (ClearPrerequisites d id) d.
Proof.
  unfold ClearPrerequisites. destruct (d !! id); [|done].
  etrans; [by apply dependents_le_alter|]. apply dependents_le_foldl, dependents_le_unlinkPrereqOf.
Qed.

Lemma dependents_le_ClearDependents d id : dependents_le (ClearDependents d id) d.
Proof.
  unfold ClearDependents. destruct (d !! id); [|done].
  etrans; [apply dependents_le_alter; intros tx; apply list_subseteq_nil|].
  apply dependents_le_foldl, dependents_le_unlinkDependsOn.
Qed.

Lemma dependents_le_Delete d id : dependents_le (Delete d id) d.
Proof.
  unfold Delete. destruct (d !! id); [|done].
  etrans; [apply dependents_le_delete|]. etrans; apply dependents_le_foldl.
  - apply dependents_le_unlinkPrereqOf.
  - apply dependents_le_unlinkDependsOn.
Qed.

(** ** The chain as a set of edges *)

(** The chain [d] stores the edges [E]: each in both directions, once, and none from a
    transaction to itself. *)
Record represents (d : dependencyChain) (E : uuid -> uuid -> Prop) : Prop := {
  rep_prereqs : forall t p, p ∈ GetPrerequisites d t <-> E t p;
  rep_dependents : forall t p, t ∈ GetDependents d p <-> E t p;
  rep_prereqs_NoDup : forall t, NoDup (GetPrerequisites d t);
  rep_dependents_NoDup : forall t, NoDup (GetDependents d t);
  rep_irrefl : forall t, ~ E t t
}.

Lemma elem_of_appendUnique l x y : y ∈ appendUnique l x <-> y ∈ l \/ y = x.
Proof.
  unfold appendUnique. destruct (existsb (N.eqb x) l) eqn:E.
  - apply existsb_exists in E as (z & Hz & ->%N.eqb_eq). apply list_elem_of_In in Hz. set_solver.
  - set_solver.
Qed.

Lemma NoDup_appendUnique l x : NoDup l -> NoDup (appendUnique l x).
Proof.
  unfold appendUnique. intros H. destruct (existsb (N.eqb x) l) eqn:E; [done|].
  apply NoDup_app. split_and!; [done| |apply NoDup_singleton].
  intros y Hy ->%list_elem_of_singleton. apply not_true_iff_false in E. apply E.
  apply existsb_exists. exists x. split; [by apply list_elem_of_In|apply N.eqb_refl].
Qed.

Lemma elem_of_removeUUID l x y : y ∈ removeUUID l x <-> y ∈ l /\ y <> x.
Proof.
  unfold removeUUID. rewrite !list_elem_of_In, filter_In, negb_true_iff, N.eqb_neq. done.
Qed.

Lemma NoDup_removeUUID l x : NoDup l -> NoDup (removeUUID l x).
Proof. rewrite !NoDup_ListNoDup. apply List.NoDup_filter. Qed.

Lemma removeUUID_idem l x : removeUUID (removeUUID l x) x = removeUUID l x.
Proof.
  unfold removeUUID. induction l as [|y l IH]; simpl; [done|].
  destruct (negb (y =? x)%N) eqn:E; simpl; rewrite ?E; by rewrite ?IH.
Qed.

(** How the getters see the elementary updates. *)
Lemma links_ensure d id t :
  GetPrerequisites (ensure d id) t = GetPrerequisites d t /\ GetDependents (ensure d id) t = GetDependents d t.
Proof.
  unfold ensure, GetPrerequisites, GetDependents. destruct (d !! id) eqn:E; [done|].
  destruct (decide (t = id)) as [->|]; [by rewrite lookup_insert_eq, E|by rewrite lookup_insert_ne by done].
Qed.

Lemma is_Some_ensure d id t : is_Some (ensure d id !! t) <-> t = id \/ is_Some (d !! t).
Proof.
  unfold ensure. destruct (d !! id) eqn:E.
  - split; [eauto|]. intros [->|]; [by rewrite E|done].
  - rewrite lookup_insert_is_Some. destruct (decide (t = id)); naive_solver.
Qed.

Lemma links_alter d f id t :
  GetPrerequisites (alter f id d) t
    = (if decide (t = id) then match d !! id with Some n => dependsOn (f n) | None => [] end else GetPrerequisites d t) /\
  GetDependents (alter f id d) t
    = (if decide (t = id) then match d !! id with Some n => prereqOf (f n) | None => [] end else GetDependents d t).
Proof.
  unfold GetPrerequisites, GetDependents. destruct (decide (t = id)) as [->|].
  - rewrite lookup_alter_eq. by destruct (d !! id).
  - by rewrite lookup_alter_ne by done.
Qed.

Lemma links_delete d id t :
  GetPrerequisites (delete id d) t = (if decide (t = id) then [] else GetPrerequisites d t) /\
  GetDependents (delete id d) t = (if decide (t = id) then [] else GetDependents d t).
Proof.
  unfold GetPrerequisites, GetDependents. destruct (decide (t = id)) as [->|].
  - by rewrite lookup_delete_eq.
  - by rewrite lookup_delete_ne by done.
Qed.

(** Unlinking a list of neighbours filters exactly their lists. *)
Lemma links_unlinkPrereqOf tx l d t :
  GetPrerequisites (foldl (unlinkPrereqOf tx) d l) t = GetPrerequisites d t /\
  GetDependents (foldl (unlinkPrereqOf tx) d l) t
    = (if decide (t ∈ l) then removeUUID (GetDependents d t) tx else GetDependents d t).
Proof.
  revert d. induction l as [|p l IH]; intros d; [done|]. cbn [foldl].
  destruct (IH (unlinkPrereqOf tx d p)) as [-> ->]. unfold unlinkPrereqOf.
  destruct (links_alter d (fun n => n <| prereqOf ::= fun l => removeUUID l tx |>) p t) as [-> ->].
  split.
  { unfold GetPrerequisites. destruct (decide (t = p)) as [->|]; [|done]. by destruct (d !! p). }
  destruct (decide (t = p)) as [->|Hne].
  - unfold GetDependents. destruct (d !! p) as [n|]; simpl; [|by repeat case_decide].
    rewrite (decide_True (P := p ∈ p :: l)) by set_solver. case_decide; by rewrite ?removeUUID_idem.
  - destruct (decide (t ∈ l)), (decide (t ∈ p :: l)); done || set_solver.
Qed.

Lemma links_unlinkDependsOn tx l d t :
  GetDependents (foldl (unlinkDependsOn tx) d l) t = GetDependents d t /\
  GetPrerequisites (foldl (unlinkDependsOn tx) d l) t
    = (if decide (t ∈ l) then removeUUID (GetPrerequisites d t) tx else GetPrerequisites d t).
Proof.
  revert d. induction l as [|p l IH]; intros d; [done|]. cbn [foldl].
  destruct (IH (unlinkDependsOn tx d p)) as [-> ->]. unfold unlinkDependsOn.
  destruct (links_alter d (fun n => n <| dependsOn ::= fun l => removeUUID l tx |>) p t) as [-> ->].
  split.
  { unfold GetDependents. destruct (decide (t = p)) as [->|]; [|done]. by destruct (d !! p). }
  destruct (decide (t = p)) as [->|Hne].
  - unfold GetPrerequisites. destruct (d !! p) as [n|]; simpl; [|by repeat case_decide].
    rewrite (decide_True (P := p ∈ p :: l)) by set_solver. case_decide; by rewrite ?removeUUID_idem.
  - destruct (decide (t ∈ l)), (decide (t ∈ p :: l)); done || set_solver.
Qed.

(** ** The operations on the edges *)

Lemma represents_ext d E E' : represents d E -> (forall t p, E t p <-> E' t p) -> represents d E'.
Proof.
  intros [Hp Hd Np Nd Hi] Heq. split; [| |done|done|].
  - intros t p. by rewrite Hp, Heq.
  - intros t p. by rewrite Hd, Heq.
  - intros t. rewrite <-Heq. apply Hi.
Qed.

Lemma represents_empty : represents ∅ (fun _ _ => False).
Proof. split; intros; unfold GetPrerequisites, GetDependents; rewrite ?lookup_empty; (apply NoDup_nil_2 || set_solver). Qed.

Lemma represents_ensure d E id : represents d E -> represents (ensure d id) E.
Proof.
  intros [Hp Hd Np Nd Hi]. split; [| | | |done].
  - intros t p. by rewrite (proj1 (links_ensure d id t)).
  - intros t p. by rewrite (proj2 (links_ensure d id p)).
  - intros t. by rewrite (proj1 (links_ensure d id t)).
  - intros t. by rewrite (proj2 (links_ensure d id t)).
Qed.

Lemma represents_addLink d E tx p :
  represents d E -> is_Some (d !! tx) ->
  represents (addPrerequisiteLink tx d p) (fun t q => E t q \/ (t = tx /\ q = p /\ p <> tx)) /\
  is_Some (addPrerequisiteLink tx d p !! tx).
Proof.
  intros HE Htx. unfold addPrerequisiteLink.
  destruct (N.eqb_spec p tx) as [->|Hne]; [split; [|done]; eapply represents_ext; [done|]; naive_solver|].
  pose proof (represents_ensure d E p HE) as [Hp Hd Np Nd Hi].
  assert (is_Some (ensure d p !! tx)) as [ntx Hntx] by (apply is_Some_ensure; auto).
  assert (is_Some (ensure d p !! p)) as [np Hnp] by (apply is_Some_ensure; auto).
  set (e := ensure d p) in *.
  set (f := fun n : nodeLinks => n <| dependsOn ::= fun l => appendUnique l p |>).
  set (g := fun n : nodeLinks => n <| prereqOf ::= fun l => appendUnique l tx |>).
  assert (forall t, GetPrerequisites (alter g p (alter f tx e)) t
    = if decide (t = tx) then appendUnique (GetPrerequisites e t) p else GetPrerequisites e t) as HP.
  { intros t. destruct (links_alter (alter f tx e) g p t) as [-> _], (links_alter e f tx t) as [-> _].
    unfold GetPrerequisites. destruct (decide (t = p)) as [->|]; rewrite ?decide_False by done.
    - by rewrite lookup_alter_ne, Hnp by done.
    - destruct (decide (t = tx)) as [->|]; [by rewrite Hntx|done]. }
  assert (forall t, GetDependents (alter g p (alter f tx e)) t
    = if decide (t = p) then appendUnique (GetDependents e t) tx else GetDependents e t) as HD.
  { intros t. destruct (links_alter (alter f tx e) g p t) as [_ ->], (links_alter e f tx t) as [_ ->].
    unfold GetDependents. destruct (decide (t = p)) as [->|].
    - by rewrite lookup_alter_ne, Hnp by done.
    - destruct (decide (t = tx)) as [->|]; [by rewrite Hntx|done]. }
  split.
  - split.
    + intros t q. rewrite HP. case_decide; rewrite ?elem_of_appendUnique, Hp; naive_solver.
    + intros t q. rewrite HD. case_decide; rewrite ?elem_of_appendUnique, Hd; naive_solver.
    + intros t. rewrite HP. case_decide; auto using NoDup_appendUnique.
    + intros t. rewrite HD. case_decide; auto using NoDup_appendUnique.
    + intros t [?|(-> & -> & ?)]; [by eapply Hi|done].
  - by rewrite lookup_alter_ne, lookup_alter_eq, Hntx by done.
Qed.

Lemma represents_AddPrerequisites d E tx ps :
  represents d E ->
  represents (AddPrerequisites d tx ps) (fun t q => E t q \/ (t = tx /\ q ∈ ps /\ q <> tx)).
Proof.
  intros HE. unfold AddPrerequisites.
  assert (is_Some (ensure d tx !! tx)) as Htx by (apply is_Some_ensure; auto).
  apply (represents_ensure _ _ tx) in HE. revert HE Htx.
  generalize (ensure d tx) as e. revert E.
  induction ps as [|p ps IH]; intros E e HE Htx; cbn [foldl].
  - eapply represents_ext; [done|]. set_solver.
  - destruct (represents_addLink e E tx p HE Htx) as [HE' Htx'].
    eapply represents_ext; [by apply IH|]. intros t q. rewrite elem_of_cons. naive_solver.
Qed.

(** Lists after one side of the edges at [tx] is unlinked, from the stored edges. *)
Lemma represents_unlinked_dependents d E tx n t :
  represents d E -> d !! tx = Some n ->
  GetDependents (foldl (unlinkPrereqOf tx) d (dependsOn n)) t = removeUUID (GetDependents d t) tx.
Proof.
  intros HE Hn. destruct (links_unlinkPrereqOf tx (dependsOn n) d t) as [_ ->].
  case_decide as Hin; [done|]. symmetry. unfold removeUUID. apply forallb_filter_id, forallb_forall.
  intros y Hy%list_elem_of_In. apply negb_true_iff, N.eqb_neq. intros ->. apply Hin.
  apply (rep_dependents _ _ HE), (rep_prereqs _ _ HE) in Hy. unfold GetPrerequisites in Hy. by rewrite Hn in Hy.
Qed.

Lemma represents_unlinked_prereqs d E tx n t :
  represents d E -> d !! tx = Some n ->
  GetPrerequisites (foldl (unlinkDependsOn tx) d (prereqOf n)) t = removeUUID (GetPrerequisites d t) tx.
Proof.
  intros HE Hn. destruct (links_unlinkDependsOn tx (prereqOf n) d t) as [_ ->].
  case_decide as Hin; [done|]. symmetry. unfold removeUUID. apply forallb_filter_id, forallb_forall.
  intros y Hy%list_elem_of_In. apply negb_true_iff, N.eqb_neq. intros ->. apply Hin.
  apply (rep_prereqs _ _ HE), (rep_dependents _ _ HE) in Hy. unfold GetDependents in Hy. by rewrite Hn in Hy.
Qed.

Lemma represents_ClearPrerequisites d E tx :
  represents d E -> represents (ClearPrerequisites d tx) (fun t q => E t q /\ t <> tx).
Proof.
  intros HE. unfold ClearPrerequisites. destruct (d !! tx) as [n|] eqn:Hn.
  2: { eapply represents_ext; [done|]. intros t q. split; [|tauto]. intros H. split; [done|]. intros ->.
       apply (rep_prereqs _ _ HE) in H. unfold GetPrerequisites in H. rewrite Hn in H. set_solver. }
  set (e := foldl _ d _). set (f := fun tx : nodeLinks => tx <| dependsOn := [] |>).
  assert (forall t, GetPrerequisites (alter f tx e) t = if decide (t = tx) then [] else GetPrerequisites d t) as HP.
  { intros t. destruct (links_alter e f tx t) as [-> _]. case_decide; [by destruct (e !! tx)|].
    apply links_unlinkPrereqOf. }
  assert (forall t, GetDependents (alter f tx e) t = removeUUID (GetDependents d t) tx) as HD.
  { intros t. destruct (links_alter e f tx t) as [_ ->].
    rewrite <-(represents_unlinked_dependents d E tx n t HE Hn). fold e.
    unfold GetDependents. case_decide; subst; by destruct (e !! _). }
  destruct HE as [Hp Hd Np Nd Hi]. split.
  - intros t q. rewrite HP. case_decide; [set_solver|]. rewrite Hp. tauto.
  - intros t q. by rewrite HD, elem_of_removeUUID, Hd.
  - intros t. rewrite HP. case_decide; [apply NoDup_nil_2|done].
  - intros t. rewrite HD. by apply NoDup_removeUUID.
  - intros t [H _]. by eapply Hi.
Qed.

Lemma represents_ClearDependents d E tx :
  represents d E -> represents (ClearDependents d tx) (fun t q => E t q /\ q <> tx).
Proof.
  intros HE. unfold ClearDependents. destruct (d !! tx) as [n|] eqn:Hn.
  2: { eapply represents_ext; [done|]. intros t q. split; [|tauto]. intros H. split; [done|]. intros ->.
       apply (rep_dependents _ _ HE) in H. unfold GetDependents in H. rewrite Hn in H. set_solver. }
  set (e := foldl _ d _). set (f := fun tx : nodeLinks => tx <| prereqOf := [] |>).
  assert (forall t, GetDependents (alter f tx e) t = if decide (t = tx) then [] else GetDependents d t) as HD.
  { intros t. destruct (links_alter e f tx t) as [_ ->]. case_decide; [by destruct (e !! tx)|].
    apply links_unlinkDependsOn. }
  assert (forall t, GetPrerequisites (alter f tx e) t = removeUUID (GetPrerequisites d t) tx) as HP.
  { intros t. destruct (links_alter e f tx t) as [-> _].
    rewrite <-(represents_unlinked_prereqs d E tx n t HE Hn). fold e.
    unfold GetPrerequisites. case_decide; subst; by destruct (e !! _). }
  destruct HE as [Hp Hd Np Nd Hi]. split.
  - intros t q. by rewrite HP, elem_of_removeUUID, Hp.
  - intros t q. rewrite HD. case_decide; [set_solver|]. rewrite Hd. tauto.
  - intros t. rewrite HP. by apply NoDup_removeUUID.
  - intros t. rewrite HD. case_decide; [apply NoDup_nil_2|done].
  - intros t [H _]. by eapply Hi.
Qed.

Lemma represents_Delete d E tx :
  represents d E -> represents (Delete d tx) (fun t q => E t q /\ t <> tx /\ q <> tx).
Proof.
  intros HE. unfold Delete. destruct (d !! tx) as [n|] eqn:Hn.
  2: { eapply represents_ext; [done|]. intros t q. split; [|tauto]. intros H. split; [done|].
       pose proof (proj2 (rep_prereqs _ _ HE t q) H) as H1. pose proof (proj2 (rep_dependents _ _ HE t q) H) as H2.
       unfold GetPrerequisites, GetDependents in *.
       split; intros ->; rewrite Hn in *; set_solver. }
  set (e1 := foldl (unlinkDependsOn tx) d _). set (e2 := foldl (unlinkPrereqOf tx) e1 _).
  assert (forall t, GetPrerequisites (delete tx e2) t
    = if decide (t = tx) then [] else removeUUID (GetPrerequisites d t) tx) as HP.
  { intros t. destruct (links_delete e2 tx t) as [-> _]. case_decide; [done|]. unfold e2.
    destruct (links_unlinkPrereqOf tx (dependsOn n) e1 t) as [-> _]. by eapply represents_unlinked_prereqs. }
  assert (forall t, GetDependents (delete tx e2) t
    = if decide (t = tx) then [] else removeUUID (GetDependents d t) tx) as HD.
  { intros t. destruct (links_delete e2 tx t) as [_ ->]. case_decide; [done|].
    rewrite <-(represents_unlinked_dependents d E tx n t HE Hn). unfold e2.
    destruct (links_unlinkPrereqOf tx (dependsOn n) e1 t) as [_ ->]. unfold e1.
    destruct (links_unlinkPrereqOf tx (dependsOn n) d t) as [_ ->].
    by destruct (links_unlinkDependsOn tx (prereqOf n) d t) as [-> _]. }
  destruct HE as [Hp Hd Np Nd Hi]. split.
  - intros t q. rewrite HP. case_decide; [set_solver|]. rewrite elem_of_removeUUID, Hp. tauto.
  - intros t q. rewrite HD. case_decide; [set_solver|]. rewrite elem_of_removeUUID, Hd. tauto.
  - intros t. rewrite HP. case_decide; auto using NoDup_nil_2, NoDup_removeUUID.
  - intros t. rewrite HD. case_decide; auto using NoDup_nil_2, NoDup_removeUUID.
  - intros t [H _]. by eapply Hi.
Qed.

(** ** A chain used through its interface *)

Inductive chainOp : Type :=
| OpAddPrerequisites (tx : uuid) (prereq : list uuid)
| OpClearPrerequisites (tx : uuid)
| OpClearDependents (tx : uuid)
| OpDelete (tx : uuid).

Definition runChainOp (d : dependencyChain) (op : chainOp) : dependencyChain :=
  match op with
  | OpAddPrerequisites tx ps => AddPrerequisites d tx ps
  | OpClearPrerequisites tx => ClearPrerequisites d tx
  | OpClearDependents tx => ClearDependents d tx
  | OpDelete tx => Delete d tx
  end.

(** What each operation promises, on a plain relation. *)
Definition specChainOp (E : uuid -> uuid -> Prop) (op : chainOp) : uuid -> uuid -> Prop :=
  match op with
  | OpAddPrerequisites tx ps => fun t p => E t p \/ (t = tx /\ p ∈ ps /\ p <> tx)
  | OpClearPrerequisites tx => fun t p => E t p /\ t <> tx
  | OpClearDependents tx => fun t p => E t p /\ p <> tx
  | OpDelete tx => fun t p => E t p /\ t <> tx /\ p <> tx
  end.

Lemma runChainOp_represents d E op : represents d E -> represents (runChainOp d op) (specChainOp E op).
Proof.
  destruct op; simpl; auto using represents_AddPrerequisites, represents_ClearPrerequisites,
    represents_ClearDependents, represents_Delete.
Qed.

#[export] Hint Resolve represents_empty represents_AddPrerequisites represents_ClearPrerequisites
  represents_ClearDependents represents_Delete : paladin.

(** The post-assembly and chained chains refine a set of edges: after any sequence of
    operations from the empty chain, the prerequisites and the dependents the getters report are,
    without duplicates, exactly the two directions of the edges the operations promise, and no
    transaction waits for itself. *)
Theorem dependencyChain_refines_edges ops :
  represents (foldl runChainOp ∅ ops) (foldl specChainOp (fun _ _ => False) ops).
Proof.
  assert (forall d E, represents d E -> represents (foldl runChainOp d ops) (foldl specChainOp E ops)) as H.
  { induction ops as [|op ops IH]; intros d E HE; simpl; [done|]. by apply IH, runChainOp_represents. }
  apply H, represents_empty.
Qed.

(** Deleting a transaction from the tracker leaves no trace of it in a chain of the tracker
    that stored both directions of its edges: not as a node, not as anyone's prerequisite or dependent, and not in the
    chained bookkeeping it owns. *)
Theorem trackerDelete_forgets dt tx Epost Echained :
  represents (postAssembly dt) Epost -> represents (ch_chain (chained dt)) Echained ->
  let dt' := trackerDelete dt tx in
  (forall t, tx ∉ GetPrerequisites (postAssembly dt') t /\ tx ∉ GetDependents (postAssembly dt') t) /\
  (forall t, tx ∉ GetPrerequisites (ch_chain (chained dt')) t /\ tx ∉ GetDependents (ch_chain (chained dt')) t) /\
  preAssembly dt' !! tx = None /\ postAssembly dt' !! tx = None /\ ch_chain (chained dt') !! tx = None /\
  HasUnassembledDependencies (chained dt') tx = false /\ GetChainedChild (chained dt') tx = None.
Proof.
  intros HP HC dt'. unfold dt', trackerDelete, chainedDelete. simpl.
  pose proof (represents_Delete _ _ tx HP) as [HP1 HP2 _ _ _].
  pose proof (represents_Delete _ _ tx HC) as [HC1 HC2 _ _ _].
  assert (forall d : dependencyChain, Delete d tx !! tx = None) as Hgone.
  { intros d. unfold Delete. destruct (d !! tx) eqn:E; [apply lookup_delete_eq|done]. }
  split_and!; [..|by apply Hgone|by apply Hgone|by apply Hgone| |].
  - intros t. rewrite HP1, HP2. naive_solver.
  - intros t. rewrite HC1, HC2. naive_solver.
  - unfold HasUnassembledDependencies, GetUnassembledDependencies. simpl. by rewrite lookup_delete_eq.
  - unfold GetChainedChild. simpl. by rewrite lookup_delete_eq.
Qed.

Lemma trackerDelete_forgets_witness :
  let dt := MkTracker ∅ (AddPrerequisites ∅ 3 [1; 2])%N (MkChained ∅ ∅ ∅) in
  let dt' := trackerDelete dt 1%N in
  (forall t, 1%N ∉ GetPrerequisites (postAssembly dt') t /\ 1%N ∉ GetDependents (postAssembly dt') t) /\
  (forall t, 1%N ∉ GetPrerequisites (ch_chain (chained dt')) t /\ 1%N ∉ GetDependents (ch_chain (chained dt')) t) /\
  preAssembly dt' !! 1%N = None /\ postAssembly dt' !! 1%N = None /\ ch_chain (chained dt') !! 1%N = None /\
  HasUnassembledDependencies (chained dt') 1%N = false /\ GetChainedChild (chained dt') 1%N = None.
Proof.
  eapply (trackerDelete_forgets (MkTracker ∅ (AddPrerequisites ∅ 3 [1; 2])%N (MkChained ∅ ∅ ∅)) 1%N).
  - apply represents_AddPrerequisites, represents_empty.
  - apply represents_empty.
Defined.

(** ** The pre-assembly chain *)

(** A single chain stores a partial matching of transactions to their predecessors. *)
Lemma represents_AddPrerequisite d E tx p :
  represents d E ->
  (forall q, E tx q -> q = p) -> (forall t, E t p -> t = tx) ->
  represents (AddPrerequisite d tx p) (fun t q => E t q \/ (t = tx /\ q = p /\ p <> tx)).
Proof.
  intros HE Htx Hp. unfold AddPrerequisite.
  destruct (N.eqb_spec p tx) as [->|Hne]; [eapply represents_ext; [done|]; naive_solver|].
  pose proof (represents_ensure _ _ p (represents_ensure _ _ tx HE)) as [Hpre Hdep Npre Ndep Hirr].
  assert (is_Some (ensure (ensure d tx) p !! tx)) as [ntx Hntx] by (rewrite !is_Some_ensure; auto).
  assert (is_Some (ensure (ensure d tx) p !! p)) as [np Hnp] by (rewrite !is_Some_ensure; auto).
  set (e := ensure (ensure d tx) p) in *.
  set (f := fun n : nodeLinks => n <| dependsOn := [p] |>).
  set (g := fun n : nodeLinks => n <| prereqOf := [tx] |>).
  assert (forall t, GetPrerequisites (alter g p (alter f tx e)) t
    = if decide (t = tx) then [p] else GetPrerequisites e t) as HP.
  { intros t. destruct (links_alter (alter f tx e) g p t) as [-> _], (links_alter e f tx t) as [-> _].
    unfold GetPrerequisites. destruct (decide (t = p)) as [->|]; rewrite ?decide_False by done.
    - by rewrite lookup_alter_ne, Hnp by done.
    - destruct (decide (t = tx)) as [->|]; [by rewrite Hntx|done]. }
  assert (forall t, GetDependents (alter g p (alter f tx e)) t
    = if decide (t = p) then [tx] else GetDependents e t) as HD.
  { intros t. destruct (links_alter (alter f tx e) g p t) as [_ ->], (links_alter e f tx t) as [_ ->].
    unfold GetDependents. destruct (decide (t = p)) as [->|].
    - by rewrite lookup_alter_ne, Hnp by done.
    - destruct (decide (t = tx)) as [->|]; [by rewrite Hntx|done]. }
  split.
  - intros t q. rewrite HP. case_decide; subst; rewrite ?list_elem_of_singleton, ?Hpre; naive_solver.
  - intros t q. rewrite HD. case_decide; subst; rewrite ?list_elem_of_singleton, ?Hdep; naive_solver.
  - intros t. rewrite HP. case_decide; auto using NoDup_singleton.
  - intros t. rewrite HD. case_decide; auto using NoDup_singleton.
  - intros t [?|(-> & -> & ?)]; [by eapply Hirr|done].
Qed.

(** In the pre-assembly chain a new prerequisite overwrites the dependent that its
    prerequisite already had without unlinking it: the transaction that was overwritten still waits
    for a prerequisite that no longer knows it, and deleting the prerequisite does not release it. *)
Theorem addPrerequisite_strands_dependent t1 t2 t3 :
  t1 <> t2 -> t1 <> t3 -> t2 <> t3 ->
  let d := Delete (AddPrerequisite (AddPrerequisite ∅ t2 t1) t3 t1) t1 in
  HasPrerequisites d t2 = true /\ d !! t1 = None /\ HasPrerequisites d t3 = false.
Proof.
  intros H12 H13 H23 d. unfold d, AddPrerequisite.
  destruct (N.eqb_spec t1 t2), (N.eqb_spec t1 t3); try done.
  unfold ensure. repeat (simplify_map_eq; simpl).
  unfold Delete. simplify_map_eq. simpl. unfold unlinkDependsOn, unlinkPrereqOf.
  unfold HasPrerequisites, GetPrerequisites. simplify_map_eq. rewrite N.eqb_refl. done.
Qed.

Lemma addPrerequisite_strands_dependent_witness :
  let d := Delete (AddPrerequisite (AddPrerequisite ∅ 2 1) 3 1)%N 1%N in
  HasPrerequisites d 2%N = true /\ d !! 1%N = None /\ HasPrerequisites d 3%N = false.
Proof. apply (addPrerequisite_strands_dependent 1 2 3)%N; discriminate. Defined.
