(* ===== verification/HexBytes.v ===== *)
(** * Byte strings in hex (sdk/go/pkg/pldtypes/hex_bytes.go)

    State ids travel as hex text and are compared as bytes: the views of the coordinator parse the
    keys of its lock maps with [ParseHexBytes]. *)

From S2P Require Import Prelude.
From Stdlib Require Import Ascii.
Open Scope string_scope.

(** [HexBytes]: a byte slice, or nil. *)
Abbreviation HexBytes := (option string) (only parsing).

Definition hexDigit (n : N) : ascii := ascii_of_N (if (n <? 10)%N then 48 + n else 87 + n)%N.

(** [hex.EncodeToString]: lower case. *)
Fixpoint hexEncode (b : string) : string :=
  match b with
  | EmptyString => ""
  | String c b' => String (hexDigit (N_of_ascii c / 16)) (String (hexDigit (N_of_ascii c mod 16)) (hexEncode b'))
  end.

Definition fromHexChar (c : ascii) : option N :=
  let n := N_of_ascii c in
  if ((48 <=? n) && (n <=? 57))%N then Some (n - 48)%N
  else if ((97 <=? n) && (n <=? 102))%N then Some (n - 87)%N
  else if ((65 <=? n) && (n <=? 70))%N then Some (n - 55)%N
  else None.

(** [hex.DecodeString]: [None] stands for its error. *)
Fixpoint hexDecode (s : string) : option string :=
  match s with
  | EmptyString => Some ""
  | String a (String b s') =>
      h ← fromHexChar a;
      l ← fromHexChar b;
      rest ← hexDecode s';
      Some (String (ascii_of_N (h * 16 + l)) rest)
  | String _ EmptyString => None
  end.

Definition TrimPrefix0x (s : string) : string :=
  match s with
  | String "0" (String "x" s') => s'
  | _ => s
  end.

Definition ParseHexBytes (s : string) : res HexBytes :=
  match hexDecode (TrimPrefix0x s) with
  | Some h => Ok (Some h)
  | None => Err (MsgTypesInvalidHex s)
  end.

Definition HexString (id : HexBytes) : string := hexEncode (default "" id).

Definition HexString0xPrefix (id : HexBytes) : string := "0x" ++ hexEncode (default "" id).

(** [String()] *)
Definition HexBytes_String (id : HexBytes) : string :=
  match id with None => "" | Some _ => HexString0xPrefix id end.

Definition HexBytes_Equals (a b : HexBytes) : bool := String.eqb (default "" a) (default "" b).

(** [ParseBytes32Ctx] (bytes32.go) *)
Definition ParseBytes32Ctx (s : string) : res string :=
  match hexDecode (TrimPrefix0x s) with
  | None => Err (MsgTypesInvalidHex s)
  | Some h => if (String.length h =? 32)%nat then Ok h else Err (MsgTypesValueInvalidHexBytes32 (String.length h))
  end.

(** ** Facts *)

Lemma fromHexChar_hexDigit n : (n < 16)%N -> fromHexChar (hexDigit n) = Some n.
Proof.
  intros Hn.
  assert (In n (N.of_nat <$> seq 0 16)) as Hin.
  { apply list_elem_of_In, list_elem_of_fmap. exists (N.to_nat n). rewrite elem_of_seq. lia. }
  simpl in Hin. repeat (destruct Hin as [<-|Hin]; [reflexivity|]). done.
Qed.

Lemma hexDecode_hexEncode b : hexDecode (hexEncode b) = Some b.
Proof.
  induction b as [|c b IH]; [done|]. simpl.
  pose proof (N_ascii_bounded c) as Hc.
  rewrite !fromHexChar_hexDigit by (apply N.mod_lt || (apply N.Div0.div_lt_upper_bound; lia); lia).
  simpl. rewrite IH. simpl. do 2 f_equal.
  rewrite <-(ascii_N_embedding c) at 3. f_equal.
  rewrite N.mul_comm. symmetry. apply N.div_mod. lia.
Qed.

Lemma hexEncode_no_x b s : hexEncode b <> String "0" (String "x" s).
Proof.
  destruct b as [|c b]; [done|]. simpl. intros [= _ H _].
  assert (fromHexChar (hexDigit (N_of_ascii c mod 16)) = None) as Hn by (by rewrite H).
  rewrite fromHexChar_hexDigit in Hn by (apply N.mod_lt; lia). done.
Qed.

(** Byte strings survive both of their text forms: with the 0x prefix used on the wire and
    without it as stored in the database. *)
Theorem parseHexBytes_roundtrip b :
  ParseHexBytes (HexString0xPrefix (Some b)) = Ok (Some b) /\
  ParseHexBytes (HexString (Some b)) = Ok (Some b).
Proof.
  unfold ParseHexBytes, HexString0xPrefix, HexString. cbn [default from_option id].
  split; [change (TrimPrefix0x ("0x" ++ hexEncode b)) with (hexEncode b); by rewrite hexDecode_hexEncode|].
  assert (TrimPrefix0x (hexEncode b) = hexEncode b) as ->; [|by rewrite hexDecode_hexEncode].
  pose proof (hexEncode_no_x b) as Hx. destruct (hexEncode b) as [|c [|d s]]; [done| |].
  - simpl. by repeat case_match.
  - unfold TrimPrefix0x. repeat case_match; try done. subst. by destruct (Hx s).
Qed.
