(* ===== verification/StateVisibility.v ===== *)
(** * Who may see a private state (coordinator/statevisibilitytracker)

    The store of the states minted by in-flight transactions, each with the nodes that its
    distribution list names.  The default is to deny. *)

From S2P Require Import Prelude Identity.
Open Scope string_scope.
Open Scope list_scope.

(** [prototk.EndorsableState], [prototk.StateLabels], [prototk.SnapshotState]. *)
Record EndorsableState : Type := MkEndorsableState {
  es_Id : string;
  es_SchemaId : string;
  es_StateDataJson : string
}.

Record StateLabels : Type := MkStateLabels {
  sl_Labels : list (string * string);
  sl_Int64Labels : list (string * Z)
}.

Record SnapshotState : Type := MkSnapshotState {
  sn_State : EndorsableState;
  sn_AllowedNodes : list string;
  sn_Labels : option StateLabels;
  sn_Created : Z
}.

(** [store.statesByID] *)
Abbreviation visibilityStore := (gmap string SnapshotState).

Fixpoint allowedNodesFromDistributionList (distributionList : list string) : list string :=
  match distributionList with
  | [] => []
  | recipient :: rest =>
      match Node recipient false with
      | Ok node => node :: allowedNodesFromDistributionList rest
      | _ => allowedNodesFromDistributionList rest
      end
  end.

Definition nodeInAllowedList (allowed : list string) (node : string) : bool :=
  existsb (fun n => String.eqb n node) allowed.

(** The snapshot built for [states[i]]; a list that is too short gives no distribution, no labels. *)
Definition assemblySnapshot (now : Z) (labels : list (option StateLabels)) (distributionLists : list (list string))
    (i : nat) (state : EndorsableState) : SnapshotState :=
  MkSnapshotState state (allowedNodesFromDistributionList (default [] (distributionLists !! i)))
    (default None (labels !! i)) now.

Definition RecordAssemblyOutput (now : Z) (s : visibilityStore) (states : list EndorsableState)
    (labels : list (option StateLabels)) (distributionLists : list (list string)) : visibilityStore :=
  foldl (fun s snapshot => <[es_Id (sn_State snapshot) := snapshot]> s) s
    (imap (assemblySnapshot now labels distributionLists) states).

(** The filter of [GetForNode] and [RangeForNode]. *)
Definition visibleTo (node : string) (snapshot : SnapshotState) : bool :=
  match sn_Labels snapshot with
  | None => false
  | Some _ => nodeInAllowedList (sn_AllowedNodes snapshot) node
  end.

(** Go ranges over a map in no particular order; this is one order. *)
Definition GetForNode (s : visibilityStore) (node : string) : list SnapshotState :=
  List.filter (visibleTo node) (snd <$> map_to_list s).

Definition ImportIfAbsent (s : visibilityStore) (stateID : string) (state : SnapshotState) : visibilityStore * bool :=
  match s !! stateID with
  | Some _ => (s, false)
  | None => (<[stateID := state]> s, true)
  end.

Definition DeleteState (s : visibilityStore) (stateID : string) : visibilityStore := delete stateID s.

(** ** Facts *)

Lemma elem_of_GetForNode s node st :
  st ∈ GetForNode s node <-> (exists id, s !! id = Some st) /\ visibleTo node st = true.
Proof.
  unfold GetForNode. rewrite !list_elem_of_In, filter_In, <-list_elem_of_In, list_elem_of_fmap.
  split.
  - intros [([id st'] & -> & H%elem_of_map_to_list) Hv]. eauto.
  - intros [[id H] Hv]. split; [|done]. exists (id, st). split; [done|]. by apply elem_of_map_to_list.
Qed.

Lemma nodeInAllowedList_spec allowed node : nodeInAllowedList allowed node = true <-> node ∈ allowed.
Proof.
  unfold nodeInAllowedList. rewrite existsb_exists, list_elem_of_In. split.
  - intros (x & Hx & ->%String.eqb_eq). done.
  - intros H. exists node. split; [done|]. apply String.eqb_refl.
Qed.

Lemma elem_of_allowedNodes dl node :
  node ∈ allowedNodesFromDistributionList dl <-> exists recipient, recipient ∈ dl /\ Node recipient false = Ok node.
Proof.
  induction dl as [|r dl IH]; simpl; [set_solver|].
  destruct (Node r false) as [n|e|c] eqn:E; rewrite ?elem_of_cons, ?IH; setoid_rewrite elem_of_cons.
  1:{ split. - intros [->|(x&?&?)]; eauto. - intros (x&[->|?]&?); [left; congruence|eauto]. }
  all: split; [intros (x&?&?); eauto|intros (x&[->|?]&?); [congruence|eauto]].
Qed.

Lemma foldl_insert_lookup (l : list SnapshotState) (s : visibilityStore) id st :
  foldl (fun s snapshot => <[es_Id (sn_State snapshot) := snapshot]> s) s l !! id = Some st ->
  (st ∈ l /\ es_Id (sn_State st) = id) \/ s !! id = Some st.
Proof.
  revert s. induction l as [|x l IH]; intros s; simpl; [auto|].
  intros [[? ?]|H]%IH; [left; set_solver|].
  destruct (decide (es_Id (sn_State x) = id)) as [<-|Hne].
  - rewrite lookup_insert_eq in H. simplify_eq. left. set_solver.
  - rewrite lookup_insert_ne in H by done. auto.
Qed.

(** (C38) Deny by default: of the states an assembly minted, a node is shown only those whose own
    distribution list holds a locator naming that node and whose labels are known; every other state
    it is shown was already in the store. *)
Theorem recordAssemblyOutput_discloses_only_to_recipients now s states labels dls node st :
  st ∈ GetForNode (RecordAssemblyOutput now s states labels dls) node ->
  (exists i state dl recipient l,
     states !! i = Some state /\ st = assemblySnapshot now labels dls i state /\
     dls !! i = Some dl /\ recipient ∈ dl /\ Node recipient false = Ok node /\
     labels !! i = Some (Some l))
  \/ st ∈ GetForNode s node.
Proof.
  rewrite !elem_of_GetForNode. intros [[id H] Hv].
  apply foldl_insert_lookup in H as [[Hin Hid]|H]; [left|eauto].
  apply elem_of_lookup_imap in Hin as (i & state & -> & Hi).
  unfold visibleTo, assemblySnapshot in Hv. simpl in Hv.
  destruct (default None (labels !! i)) as [l|] eqn:El; [|done].
  apply nodeInAllowedList_spec, elem_of_allowedNodes in Hv as (r & Hr & Hn).
  destruct (dls !! i) as [dl|] eqn:Edl; simpl in Hr; [|set_solver].
  exists i, state, dl, r, l. split_and!; try done.
  by destruct (labels !! i) as [o|]; simpl in El; subst.
Qed.

Definition exampleState : EndorsableState := MkEndorsableState "0x01" "schema" "{}".
Definition exampleLabels : StateLabels := MkStateLabels [] [].
Definition exampleSnapshot : SnapshotState := MkSnapshotState exampleState ["node1"; "node2"] (Some exampleLabels) 7.

Lemma recordAssemblyOutput_discloses_only_to_recipients_witness :
  (exists i state dl recipient l,
     [exampleState] !! i = Some state /\
     exampleSnapshot = assemblySnapshot 7 [Some exampleLabels] [["a@node1"; "nonode"; "b@node2"]] i state /\
     [["a@node1"; "nonode"; "b@node2"]] !! i = Some dl /\ recipient ∈ dl /\ Node recipient false = Ok "node2" /\
     [Some exampleLabels] !! i = Some (Some l))
  \/ exampleSnapshot ∈ GetForNode ∅ "node2".
Proof.
  apply (recordAssemblyOutput_discloses_only_to_recipients 7 ∅ [exampleState] [Some exampleLabels]
           [["a@node1"; "nonode"; "b@node2"]] "node2" exampleSnapshot).
  vm_compute. left.
Defined.
