(* ===== verification/StateDistribution.v ===== *)
(** * State distributions

    Who is sent which new state of an assembled transaction, with the nullifiers that recipients have
    to make: [processStateForDistribution] and [Build].  The originator is put on the distribution list
    of a state in place, so the list of the assembly itself grows.

    Theorems: every recipient of every state gets it exactly once, on the local or the remote list by
    its node, the originator always; every nullifier spec goes to exactly one recipient, that it names,
    and a spec that no recipient takes is refused; and building again gives the same set.

    Sources: core/go/internal/sequencer/common/state_distribution_builder.go,
    core/go/internal/components/sequencermgr.go. *)

From S2P Require Import Prelude Identity StateVisibility.
Open Scope string_scope.
Open Scope list_scope.

Record NullifierSpec : Type := MkNullifierSpec { sp_Party : string; sp_Algorithm : string; sp_VerifierType : string; sp_PayloadType : string }.

(** What the builder uses of a [prototk.NewState]. *)
Record Instruction : Type := MkInstruction { in_DistributionList : list string; in_NullifierSpecs : list NullifierSpec }.

(** What the builder uses of a transaction; [None] is a transaction without an assembly. *)
Record DistributedTx : Type := MkDistributedTx {
  dt_From : string; dt_Domain : string; dt_Address : string;
  dt_PostAssembly : option (list EndorsableState * list EndorsableState);
  dt_OutputStatesPotential : list Instruction; dt_InfoStatesPotential : list Instruction }.

(** The three nullifier fields are set together. *)
Record StateDistributionWithData : Type := MkStateDistribution {
  sd_StateID : string; sd_IdentityLocator : string; sd_Domain : string; sd_ContractAddress : string; sd_SchemaID : string;
  sd_Nullifier : option (string * string * string); sd_StateData : string }.

Record StateDistributionSet : Type := MkStateDistributionSet {
  ds_LocalNode : string; ds_OriginatorNode : string; ds_Remote : list StateDistributionWithData; ds_Local : list StateDistributionWithData }.

#[export] Instance DistributedTx_rebuild : Rebuild DistributedTx := fun t =>
  MkDistributedTx (dt_From t) (dt_Domain t) (dt_Address t) (dt_PostAssembly t) (dt_OutputStatesPotential t) (dt_InfoStatesPotential t).
#[export] Instance StateDistributionSet_rebuild : Rebuild StateDistributionSet := fun s =>
  MkStateDistributionSet (ds_LocalNode s) (ds_OriginatorNode s) (ds_Remote s) (ds_Local s).

Definition MsgSequencerDistributionNotFullyQualified : error := ErrExternal "MsgSequencerDistributionNotFullyQualified".
Definition MsgSequencerInvalidNullifierSpecInDistro : error := ErrExternal "MsgSequencerInvalidNullifierSpecInDistro".
Definition MsgSequencerFromNotResolvedDistroTime : error := ErrExternal "MsgSequencerFromNotResolvedDistroTime".
Definition MsgSequencerInvalidTxStateStateDistro : error := ErrExternal "MsgSequencerInvalidTxStateStateDistro".

(** ** Building *)

Definition withOriginator (originator : string) (recipients : list string) : list string :=
  if existsb (fun recipient => String.eqb recipient originator) recipients then recipients else recipients ++ [originator].

(** The first spec for the recipient, and the specs that remain. *)
Fixpoint popNullifier (recipient : string) (specs : list NullifierSpec) : option NullifierSpec * list NullifierSpec :=
  match specs with
  | [] => (None, [])
  | n :: rest =>
      if String.eqb (sp_Party n) recipient then (Some n, rest)
      else let r := popNullifier recipient rest in (r.1, n :: r.2)
  end.

Definition distributionFor (tx : DistributedTx) (fullState : EndorsableState) (recipient : string) (matched : option NullifierSpec) : StateDistributionWithData :=
  MkStateDistribution (es_Id fullState) recipient (dt_Domain tx) (dt_Address tx) (es_SchemaId fullState)
    ((fun n => (sp_Algorithm n, sp_VerifierType n, sp_PayloadType n)) <$> matched) (es_StateDataJson fullState).

Fixpoint distribute (tx : DistributedTx) (fullState : EndorsableState) (recipients : list string) (specs : list NullifierSpec) (set : StateDistributionSet)
    : res StateDistributionSet :=
  match recipients with
  | [] => match specs with [] => Ok set | _ => Err MsgSequencerInvalidNullifierSpecInDistro end
  | recipient :: rest =>
      match Node recipient false with
      | Ok nodeName =>
          let popped := popNullifier recipient specs in
          let distribution := distributionFor tx fullState recipient popped.1 in
          distribute tx fullState rest popped.2
            (if String.eqb nodeName (ds_LocalNode set) then set <| ds_Local ::= fun l => l ++ [distribution] |>
             else set <| ds_Remote ::= fun l => l ++ [distribution] |>)
      | Err _ => Err MsgSequencerDistributionNotFullyQualified
      | Crash c => Crash c
      end
  end.

(** [processStateForDistribution]: the instruction it leaves in the assembly, and the set. *)
Definition processStateForDistribution (tx : DistributedTx) (fullState : EndorsableState) (instruction : Instruction) (set : StateDistributionSet)
    : Instruction * res StateDistributionSet :=
  let recipients := withOriginator (dt_From tx) (in_DistributionList instruction) in
  (MkInstruction recipients (in_NullifierSpecs instruction), distribute tx fullState recipients (in_NullifierSpecs instruction) set).

Fixpoint processStates (tx : DistributedTx) (states : list EndorsableState) (instructions : list Instruction) (set : StateDistributionSet)
    : list Instruction * res StateDistributionSet :=
  match states, instructions with
  | fullState :: states, instruction :: rest =>
      let (instruction, r) := processStateForDistribution tx fullState instruction set in
      match r with
      | Ok set => let (rest, r) := processStates tx states rest set in (instruction :: rest, r)
      | Err e => (instruction :: rest, Err e)
      | Crash c => (instruction :: rest, Crash c)
      end
  | _, _ => (instructions, Ok set)
  end.

Definition Build (localNodeName : string) (tx : DistributedTx) : DistributedTx * res StateDistributionSet :=
  match Node (dt_From tx) false with
  | Err _ => (tx, Err MsgSequencerFromNotResolvedDistroTime)
  | Crash c => (tx, Crash c)
  | Ok originatorNode =>
      match dt_PostAssembly tx with
      | None => (tx, Err MsgSequencerInvalidTxStateStateDistro)
      | Some (outputStates, infoStates) =>
          if negb ((length (dt_OutputStatesPotential tx) =? length outputStates) && (length (dt_InfoStatesPotential tx) =? length infoStates))%nat
          then (tx, Err MsgSequencerInvalidTxStateStateDistro)
          else
            let (outputs, r) := processStates tx outputStates (dt_OutputStatesPotential tx) (MkStateDistributionSet localNodeName originatorNode [] []) in
            let tx := tx <| dt_OutputStatesPotential := outputs |> in
            match r with
            | Ok set => let (infos, r) := processStates tx infoStates (dt_InfoStatesPotential tx) set in (tx <| dt_InfoStatesPotential := infos |>, r)
            | Err e => (tx, Err e)
            | Crash c => (tx, Crash c)
            end
      end
  end.

(** ** What is distributed *)

(** A spec that goes to a recipient. *)
Definition specOf (d : StateDistributionWithData) : option NullifierSpec :=
  (fun n => MkNullifierSpec (sd_IdentityLocator d) n.1.1 n.1.2 n.2) <$> sd_Nullifier d.

(** The distributions that were added to a set. *)
Definition onNode (local : string) (d : StateDistributionWithData) : bool :=
  match Node (sd_IdentityLocator d) false with Ok node => String.eqb node local | _ => false end.

Definition adds (ds : list StateDistributionWithData) (set set' : StateDistributionSet) : Prop :=
  ds_LocalNode set' = ds_LocalNode set /\ ds_OriginatorNode set' = ds_OriginatorNode set /\
  ds_Local set' = ds_Local set ++ List.filter (onNode (ds_LocalNode set)) ds /\
  ds_Remote set' = ds_Remote set ++ List.filter (fun d => negb (onNode (ds_LocalNode set) d)) ds.

(** The distributions of a state to recipients, with each spec at one of them. *)
Record distributes (tx : DistributedTx) (fullState : EndorsableState) (recipients : list string) (specs : list NullifierSpec)
    (ds : list StateDistributionWithData) : Prop := {
  di_recipients : sd_IdentityLocator <$> ds = recipients;
  di_state : Forall (fun d => sd_StateID d = es_Id fullState /\ sd_StateData d = es_StateDataJson fullState /\
                              sd_ContractAddress d = dt_Address tx) ds;
  di_qualified : Forall (fun d => exists node, Node (sd_IdentityLocator d) false = Ok node) ds;
  di_specs : omap specOf ds ≡ₚ specs }.

Lemma popNullifier_perm recipient specs :
  let r := popNullifier recipient specs in
  specs ≡ₚ option_list r.1 ++ r.2 /\ (forall n, r.1 = Some n -> sp_Party n = recipient).
Proof.
  cbv zeta. induction specs as [|n rest [IHp IHn]]; cbn; [by split|]. destruct (String.eqb_spec (sp_Party n) recipient) as [E|_]; cbn.
  - split; [done|]. by intros ? [= <-].
  - split; [|done]. rewrite IHp at 1. by destruct (popNullifier recipient rest).1; cbn; [constructor|].
Qed.

Lemma adds_nil set : adds [] set set.
Proof. unfold adds. cbn. by rewrite !app_nil_r. Qed.

Lemma adds_app ds1 ds2 s1 s2 s3 : adds ds1 s1 s2 -> adds ds2 s2 s3 -> adds (ds1 ++ ds2) s1 s3.
Proof.
  intros (E1 & E2 & E3 & E4) (F1 & F2 & F3 & F4). unfold adds. rewrite !List.filter_app. rewrite F3, F4, E3, E4, F1, F2, E1, E2, !app_assoc. done.
Qed.

Lemma distribute_adds tx fullState recipients specs set set' :
  distribute tx fullState recipients specs set = Ok set' -> exists ds, distributes tx fullState recipients specs ds /\ adds ds set set'.
Proof.
  revert specs set. induction recipients as [|r recipients IH]; intros specs set; cbn [distribute].
  - destruct specs; [intros [= <-]|discriminate]. exists []. split; [done|apply adds_nil].
  - destruct (popNullifier_perm r specs) as [Hp Hn]. set (popped := popNullifier r specs) in *.
    set (d := distributionFor tx fullState r popped.1).
    destruct (Node r false) as [node|e|c] eqn:Hnode; try discriminate. intros (ds & [Hr Hf Hq Hs] & Ha)%IH.
    exists (d :: ds). split.
    + split; [cbn; by rewrite Hr|by constructor|constructor; [by exists node|done]|].
      rewrite Hp, <- Hs. change (d :: ds) with ([d] ++ ds). rewrite omap_app. apply Permutation_app_tail.
      cbn. unfold specOf, d. cbn. destruct popped.1 as [n|] eqn:En; cbn; [|done]. destruct n as [p a v y]. cbn. by rewrite <- (Hn _ eq_refl).
    + eapply (adds_app [d]); [|exact Ha]. unfold adds, onNode. cbn [List.filter sd_IdentityLocator d distributionFor]. rewrite Hnode.
      destruct (String.eqb node (ds_LocalNode set)); cbn; by rewrite ?app_nil_r.
Qed.

(** Distribution succeeds exactly when all recipients are qualified and each has at most one spec. *)
Definition distributable (recipients : list string) (specs : list NullifierSpec) : Prop :=
  Forall (fun r => exists node, Node r false = Ok node) recipients /\ sp_Party <$> specs ⊆+ recipients.

Lemma popNullifier_parties r recipients specs :
  sp_Party <$> specs ⊆+ r :: recipients <-> sp_Party <$> (popNullifier r specs).2 ⊆+ recipients.
Proof.
  destruct (popNullifier_perm r specs) as [Hp Hn]. destruct (popNullifier r specs) as [[n|] rest] eqn:E; cbn in *.
  - rewrite Hp. cbn. rewrite (Hn n) by done. split; [|by apply submseteq_skip].
    intros Hs. apply (submseteq_cons_l) in Hs as (k & Hk & Hs). apply Permutation_cons_inv in Hk. by rewrite Hk.
  - rewrite Hp. split; [|by apply submseteq_cons].
    intros Hs. apply submseteq_cons_r in Hs as [|(k & Hk & Hs)]; [done|]. exfalso.
    assert (Hin : r ∈ sp_Party <$> rest) by (rewrite Hk; by left). clear -E Hin Hp.
    assert (Hni : forall specs rest, popNullifier r specs = (None, rest) -> r ∉ sp_Party <$> rest).
    { clear. induction specs as [|n specs IH]; cbn; intros rest; [intros [= <-]; by apply not_elem_of_nil|].
      destruct (String.eqb_spec (sp_Party n) r) as [|Hne]; [discriminate|]. destruct (popNullifier r specs) as [m rest'] eqn:E.
      cbn. intros [= -> <-]. cbn. apply not_elem_of_cons. split; [done|]. by apply IH. }
    by eapply Hni.
Qed.

Lemma distribute_succeeds tx fullState recipients specs set :
  (exists set', distribute tx fullState recipients specs set = Ok set') <-> distributable recipients specs.
Proof.
  unfold distributable. revert specs set. induction recipients as [|r recipients IH]; intros specs set; cbn [distribute].
  - destruct specs as [|n specs]; split; [done|by eexists|by intros []|]. intros [_ Hs]. apply submseteq_nil_r in Hs. discriminate.
  - rewrite popNullifier_parties, Forall_cons. destruct (Node r false) as [node|e|c]; [|split; [by intros []|naive_solver]..].
    rewrite IH. naive_solver.
Qed.

Lemma withOriginator_in originator recipients : originator ∈ withOriginator originator recipients.
Proof.
  unfold withOriginator. destruct (existsb _ recipients) eqn:E; [|set_solver].
  apply existsb_exists in E as (x & Hx & ->%String.eqb_eq). by apply list_elem_of_In.
Qed.

Lemma withOriginator_again originator recipients : withOriginator originator (withOriginator originator recipients) = withOriginator originator recipients.
Proof.
  unfold withOriginator at 1. assert (E : existsb (fun r => String.eqb r originator) (withOriginator originator recipients) = true); [|by rewrite E].
  apply existsb_exists. exists originator. split; [apply list_elem_of_In, withOriginator_in|apply String.eqb_refl].
Qed.

(** The states with their instructions, and the distributions of each. *)
Definition allDistributed (tx : DistributedTx) (pairs : list (EndorsableState * Instruction)) (dss : list (list StateDistributionWithData)) : Prop :=
  Forall2 (fun p ds => distributes tx p.1 (withOriginator (dt_From tx) (in_DistributionList p.2)) (in_NullifierSpecs p.2) ds) pairs dss.

Definition named (tx : DistributedTx) (instruction : Instruction) : Instruction :=
  MkInstruction (withOriginator (dt_From tx) (in_DistributionList instruction)) (in_NullifierSpecs instruction).

Lemma processStates_Ok tx states instructions set instructions' set' :
  length instructions = length states -> processStates tx states instructions set = (instructions', Ok set') ->
  instructions' = named tx <$> instructions /\ exists dss, allDistributed tx (zip states instructions) dss /\ adds (mjoin dss) set set'.
Proof.
  revert instructions set instructions'. induction states as [|st states IH]; intros [|i instructions] set instructions'; try discriminate.
  - intros _. cbn. intros [= <- <-]. split; [done|]. exists []. split; [constructor|apply adds_nil].
  - intros [= Hl]. cbn [processStates]. unfold processStateForDistribution. cbn.
    destruct (distribute _ _ _ _ _) as [s1|e|c] eqn:Ed; [|discriminate..]. destruct (processStates tx states instructions s1) as [rest r] eqn:Er.
    intros [= <- ->]. apply IH in Er as (-> & dss & Hd & Ha); [|done]. apply distribute_adds in Ed as (ds & Hds & Hda).
    split; [done|]. exists (ds :: dss). split; [by constructor|]. by eapply adds_app.
Qed.

(** Building does not look at what the transaction says of its assembly but through its arguments. *)
Lemma processStates_tx tx tx' states instructions set :
  dt_From tx' = dt_From tx -> dt_Domain tx' = dt_Domain tx -> dt_Address tx' = dt_Address tx ->
  processStates tx' states instructions set = processStates tx states instructions set.
Proof.
  intros Hf Hd Ha. revert instructions set. induction states as [|st states IH]; intros [|i instructions] set; cbn; [done..|].
  unfold processStateForDistribution. rewrite Hf.
  assert (E : forall recipients specs set, distribute tx' st recipients specs set = distribute tx st recipients specs set).
  { induction recipients as [|r recipients IHr]; intros specs s; cbn; [done|]. unfold distributionFor. rewrite Hd, Ha. by destruct (Node r false). }
  rewrite E. destruct (distribute _ _ _ _ _); [by rewrite IH|done..].
Qed.

Lemma processStates_again tx states instructions set instructions' set' :
  length instructions = length states -> processStates tx states instructions set = (instructions', Ok set') ->
  processStates tx states instructions' set = (instructions', Ok set').
Proof.
  revert instructions set instructions'. induction states as [|st states IH]; intros [|i instructions] set instructions'; try discriminate.
  - by intros _ [= <- <-].
  - intros [= Hl]. cbn [processStates]. unfold processStateForDistribution.
    destruct (distribute _ _ _ _ _) as [s1|e|c] eqn:Ed; [|discriminate..]. destruct (processStates tx states instructions s1) as [rest r] eqn:Er.
    intros [= <- ->]. cbn. rewrite withOriginator_again, Ed. by rewrite (IH _ _ _ Hl Er).
Qed.

(** (C31) When the distributions of a transaction can be built, then for each new state, in order, there
    is one distribution of it for each entry of the list of recipients that the domain gives, in its
    order, and after those one for the originator if the list does not name it; a recipient that is
    listed twice has two. Each is in the local or in the remote list as the node of its recipient says;
    each nullifier spec of the state is at exactly one of them, whose recipient is the one it is for;
    and building again changes nothing. *)
Theorem distribution_set_complete local tx tx' set outputStates infoStates :
  dt_PostAssembly tx = Some (outputStates, infoStates) -> Build local tx = (tx', Ok set) ->
  exists dss, allDistributed tx (zip outputStates (dt_OutputStatesPotential tx) ++ zip infoStates (dt_InfoStatesPotential tx)) dss /\
    ds_Local set = List.filter (onNode local) (mjoin dss) /\ ds_Remote set = List.filter (fun d => negb (onNode local d)) (mjoin dss) /\
    Build local tx' = (tx', Ok set).
Proof.
  intros Hpa Hb. unfold Build in Hb. rewrite Hpa in Hb. destruct (Node (dt_From tx) false) as [node|e|c] eqn:Hn; try discriminate.
  destruct (negb _) eqn:El; [discriminate|]. apply negb_false_iff, andb_true_iff in El as [Lo%Nat.eqb_eq Li%Nat.eqb_eq].
  destruct (processStates tx outputStates _ _) as [outputs [s1|e|c]] eqn:E1; try discriminate.
  destruct (processStates _ infoStates _ s1) as [infos r] eqn:E2. injection Hb as <- ->.
  rewrite (processStates_tx tx) in E2 by done. change (dt_InfoStatesPotential (tx <| dt_OutputStatesPotential := outputs |>)) with (dt_InfoStatesPotential tx) in E2.
  pose proof (processStates_again _ _ _ _ _ _ Lo E1) as A1. pose proof (processStates_again _ _ _ _ _ _ Li E2) as A2.
  apply processStates_Ok in E1 as (-> & d1 & H1 & Ha1); [|done]. apply processStates_Ok in E2 as (-> & d2 & H2 & Ha2); [|done].
  exists (d1 ++ d2). split; [by apply Forall2_app|].
  assert (Ej : mjoin (d1 ++ d2) = mjoin d1 ++ mjoin d2) by apply join_app. rewrite Ej.
  destruct (adds_app _ _ _ _ _ Ha1 Ha2) as (_ & _ & El & Er). cbn in El, Er. split_and!; [done..|].
  unfold Build. cbn. rewrite Hn, Hpa, !length_fmap, Lo, Li, !Nat.eqb_refl. cbn. rewrite (processStates_tx tx) by done. rewrite A1.
  rewrite (processStates_tx tx) by done. by rewrite A2.
Qed.

(** A state can be distributed exactly when every recipient, the originator included, is fully
    qualified and the parties of its nullifier specs are recipients, each taken at most once. *)
Theorem state_distributable_iff tx fullState instruction set :
  (exists set', (processStateForDistribution tx fullState instruction set).2 = Ok set') <->
  distributable (withOriginator (dt_From tx) (in_DistributionList instruction)) (in_NullifierSpecs instruction).
Proof. unfold processStateForDistribution. cbn [snd]. apply distribute_succeeds. Qed.

(** ** An instance *)

Definition sampleDistributed : DistributedTx :=
  MkDistributedTx "alice@node1" "noto" "0xc" (Some ([MkEndorsableState "0x01" "coin" "{}"], []))
    [MkInstruction ["bob@node2"] [MkNullifierSpec "bob@node2" "alg" "vt" "pt"]] [].

Lemma distribution_set_complete_witness :
  exists tx' set, Build "node1" sampleDistributed = (tx', Ok set) /\ sd_IdentityLocator <$> ds_Local set = ["alice@node1"] /\
    sd_IdentityLocator <$> ds_Remote set = ["bob@node2"] /\ Build "node1" tx' = (tx', Ok set).
Proof.
  destruct (Build "node1" sampleDistributed) as [tx' [set|e|c]] eqn:Eb; [|vm_compute in Eb; discriminate Eb..].
  exists tx', set. split; [reflexivity|]. pose proof Eb as Ec. vm_compute in Ec. injection Ec as _ Es.
  destruct (distribution_set_complete "node1" sampleDistributed tx' set [MkEndorsableState "0x01" "coin" "{}"] [] eq_refl Eb) as (dss & _ & _ & _ & Ha).
  subst set. split; [reflexivity|]. split; [reflexivity|exact Ha].
Defined.
