(* ===== verification/Grapher.v ===== *)
(** * The grapher (coordinator/grapher)

    The coordinator's ahead-of-chain view: which in-flight transaction minted which state, and the
    create, read and spend locks on states.  A lock is one object reached through two maps, the
    index by transaction and the index by state of its type, and confirming a transaction writes
    through that sharing; so locks live in a heap and the maps hold addresses. *)

From S2P Require Import Prelude HexBytes DependencyTracker StateVisibility.
Open Scope list_scope.

Inductive StateLockType : Type :=
| SPEND
| READ
| CREATE
| StateLockType_other (value : Z).

#[export] Instance StateLockType_eq_dec : EqDecision StateLockType.
Proof. solve_decision. Defined.

(** [prototk.SnapshotStateLock]; [Transaction] holds the text of a transaction id. *)
Record SnapshotStateLock : Type := MkLock {
  lk_StateId : string;
  lk_Transaction : option uuid;
  lk_Type : StateLockType;
  lk_ConfirmedAtBlock : option Z
}.
#[export] Instance SnapshotStateLock_rebuild : Rebuild SnapshotStateLock :=
  fun l => MkLock (lk_StateId l) (lk_Transaction l) (lk_Type l) (lk_ConfirmedAtBlock l).

Record StateSnapshot : Type := MkStateSnapshot {
  ss_States : list SnapshotState;
  ss_Locks : list SnapshotStateLock
}.

(** [grapherTX] carries only its id, so the transaction maps hold ids. *)
Record grapher : Type := MkGrapher {
  blockHeightTolerance : Z;
  transactionByID : gset N;
  transactionByOutputState : gmap string uuid;
  outputStatesByMinter : gmap N (list string);
  createLocksByStateID : gmap string nat;
  spendLocksByStateID : gmap string nat;
  readLocksByStateID : gmap string nat;
  locksByTransaction : gmap N (list nat);
  lockHeap : list SnapshotStateLock
}.
#[export] Instance grapher_rebuild : Rebuild grapher := fun g =>
  MkGrapher (blockHeightTolerance g) (transactionByID g) (transactionByOutputState g) (outputStatesByMinter g)
    (createLocksByStateID g) (spendLocksByStateID g) (readLocksByStateID g) (locksByTransaction g) (lockHeap g).

(** The grapher together with the two objects it shares with the rest of the coordinator: the
    post-assembly dependency chain and the state visibility store. *)
Record grapherMem : Type := MkGrapherMem {
  gm_g : grapher;
  gm_deps : dependencyChain;
  gm_vis : visibilityStore
}.
#[export] Instance grapherMem_rebuild : Rebuild grapherMem := fun m => MkGrapherMem (gm_g m) (gm_deps m) (gm_vis m).

Definition NewGrapher (blockHeightTolerance : Z) : grapher :=
  MkGrapher blockHeightTolerance ∅ ∅ ∅ ∅ ∅ ∅ ∅ [].

Definition addConsumer (g : grapher) (transactionID : uuid) : grapher :=
  g <| transactionByID ::= fun s => {[transactionID]} ∪ s |>.

(** The loop of [AddMinter]: the states before the one that already has a minter stay recorded. *)
Fixpoint addMints (g : grapher) (states : list EndorsableState) (transactionID : uuid) : grapher * res unit :=
  match states with
  | [] => (g, Ok tt)
  | state :: rest =>
      match transactionByOutputState g !! es_Id state with
      | Some txn => (g, Err (MsgSequencerGrapherAddMinterAlreadyExistsError transactionID (es_Id state) txn))
      | None =>
          addMints
            (g <| transactionByOutputState ::= <[es_Id state := transactionID]> |>
               <| outputStatesByMinter ::= fun m =>
                    <[transactionID := default [] (m !! transactionID) ++ [es_Id state]]> m |>)
            rest transactionID
      end
  end.

Definition AddMinter (m : grapherMem) (states : list EndorsableState) (transactionID : uuid) : grapherMem * res unit :=
  let '(g, r) := addMints (addConsumer (gm_g m) transactionID) states transactionID in
  (m <| gm_g := g |>, r).

Definition forgetTxMints (g : grapher) (transactionID : uuid) : grapher :=
  match outputStatesByMinter g !! transactionID with
  | None => g
  | Some stateIDs =>
      g <| transactionByOutputState ::= fun m => foldl (fun m stateID => delete stateID m) m stateIDs |>
        <| outputStatesByMinter ::= delete transactionID |>
  end.

(** One turn of the loop of [forgetTxLocks]. *)
Definition forgetLock (m : grapherMem) (ptr : nat) : grapherMem :=
  match lockHeap (gm_g m) !! ptr with
  | None => m
  | Some lock =>
      let stateID := lk_StateId lock in
      match lk_Type lock with
      | CREATE =>
          m <| gm_g ::= fun g => g <| createLocksByStateID ::= delete stateID |> |>
            <| gm_vis ::= fun s => DeleteState s stateID |>
      | SPEND => m <| gm_g ::= fun g => g <| spendLocksByStateID ::= delete stateID |> |>
      | _ => m <| gm_g ::= fun g => g <| readLocksByStateID ::= delete stateID |> |>
      end
  end.

Definition forgetTxLocks (m : grapherMem) (transactionID : uuid) : grapherMem :=
  let m := foldl forgetLock m (default [] (locksByTransaction (gm_g m) !! transactionID)) in
  m <| gm_g ::= fun g => g <| locksByTransaction ::= delete transactionID |> |>.

Definition ForgetTransactionAndLocks (m : grapherMem) (transactionID : uuid) : grapherMem :=
  if bool_decide (transactionID ∈ transactionByID (gm_g m)) then
    let m := m <| gm_deps ::= fun d => Delete d transactionID |> in
    let m := m <| gm_g ::= fun g => forgetTxMints g transactionID |> in
    let m := forgetTxLocks m transactionID in
    m <| gm_g ::= fun g => g <| transactionByID ::= fun s => s ∖ {[transactionID]} |> |>
  else m.

(** [lock.Transaction = nil; lock.ConfirmedAtBlock = &confirmedAtBlock], through the pointer. *)
Definition stampLock (confirmedAtBlock : Z) (heap : list SnapshotStateLock) (ptr : nat) : list SnapshotStateLock :=
  alter (fun lock => lock <| lk_Transaction := None |> <| lk_ConfirmedAtBlock := Some confirmedAtBlock |>) ptr heap.

Definition ForgetTransaction (m : grapherMem) (transactionID : uuid) (confirmedAtBlock : Z) : grapherMem :=
  if bool_decide (transactionID ∈ transactionByID (gm_g m)) then
    let m := m <| gm_deps ::= fun d => Delete d transactionID |> in
    let m := m <| gm_g ::= fun g => forgetTxMints g transactionID |> in
    let txLocks := default [] (locksByTransaction (gm_g m) !! transactionID) in
    m <| gm_g ::= fun g =>
           g <| lockHeap ::= fun h => foldl (stampLock confirmedAtBlock) h txLocks |>
             <| locksByTransaction ::= delete transactionID |>
             <| transactionByID ::= fun s => s ∖ {[transactionID]} |> |>
  else m.

(** [lock.Transaction == nil && lock.ConfirmedAtBlock != nil &&
    currentBlockHeight >= *lock.ConfirmedAtBlock + g.blockHeightTolerance] *)
Definition lockExpired (g : grapher) (currentBlockHeight : Z) (ptr : nat) : bool :=
  match lockHeap g !! ptr with
  | Some lock =>
      match lk_Transaction lock, lk_ConfirmedAtBlock lock with
      | None, Some confirmedAtBlock => (u64_add confirmedAtBlock (blockHeightTolerance g) <=? currentBlockHeight)%Z
      | _, _ => false
      end
  | None => false
  end.

Definition ForgetConfirmedLocks (m : grapherMem) (currentBlockHeight : Z) : grapherMem :=
  let g := gm_g m in
  let live (locks : gmap string nat) := filter (fun kv => lockExpired g currentBlockHeight kv.2 = false) locks in
  let expiredCreates := filter (fun kv => lockExpired g currentBlockHeight kv.2 = true) (createLocksByStateID g) in
  m <| gm_vis ::= fun s => map_fold (fun stateID (_ : nat) s => DeleteState s stateID) s expiredCreates |>
    <| gm_g := g <| createLocksByStateID ::= live |> <| spendLocksByStateID ::= live |> <| readLocksByStateID ::= live |> |>.

(** ** Handover *)

(** The first loop of [ImportStatesAndLocks]: of several confirmed locks on one state the last one
    of the message stays. *)
Definition confirmedLocks (locks : list SnapshotStateLock) : gmap string SnapshotStateLock :=
  foldl (fun acc lock =>
    match lk_Transaction lock, lk_ConfirmedAtBlock lock with
    | None, Some _ => <[lk_StateId lock := lock]> acc
    | _, _ => acc
    end) ∅ locks.

Definition importState (confirmedLockByStateID : gmap string SnapshotStateLock) (s : visibilityStore)
    (state : SnapshotState) : visibilityStore :=
  let stateID := es_Id (sn_State state) in
  match confirmedLockByStateID !! stateID with
  | None => s
  | Some _ => fst (ImportIfAbsent s stateID state)
  end.

(** [if _, exists := targetMap[stateID]; !exists { targetMap[stateID] = lock }] *)
Definition importLock (g : grapher) (kv : string * SnapshotStateLock) : grapher :=
  let '(stateID, lock) := kv in
  let ptr := length (lockHeap g) in
  match lk_Type lock with
  | CREATE =>
      match createLocksByStateID g !! stateID with
      | Some _ => g
      | None => g <| lockHeap ::= fun h => h ++ [lock] |> <| createLocksByStateID ::= <[stateID := ptr]> |>
      end
  | SPEND =>
      match spendLocksByStateID g !! stateID with
      | Some _ => g
      | None => g <| lockHeap ::= fun h => h ++ [lock] |> <| spendLocksByStateID ::= <[stateID := ptr]> |>
      end
  | _ =>
      match readLocksByStateID g !! stateID with
      | Some _ => g
      | None => g <| lockHeap ::= fun h => h ++ [lock] |> <| readLocksByStateID ::= <[stateID := ptr]> |>
      end
  end.

Definition ImportStatesAndLocks (m : grapherMem) (snapshot : StateSnapshot) : grapherMem :=
  let confirmedLockByStateID := confirmedLocks (ss_Locks snapshot) in
  m <| gm_vis ::= fun s => foldl (importState confirmedLockByStateID) s (ss_States snapshot) |>
    <| gm_g ::= fun g => foldl importLock g (map_to_list confirmedLockByStateID) |>.

(** The locks of one map, as they stand now (in one order of the map's many). *)
Definition locksOf (g : grapher) (locks : gmap string nat) : list SnapshotStateLock :=
  omap (fun kv => lockHeap g !! kv.2) (map_to_list locks).

Definition hasLock (locks : gmap string nat) (stateID : string) : bool :=
  match locks !! stateID with Some _ => true | None => false end.

Definition ExportStatesAndLocks (m : grapherMem) (node : string) : StateSnapshot :=
  let g := gm_g m in
  MkStateSnapshot
    (List.filter (fun state => negb (hasLock (spendLocksByStateID g) (es_Id (sn_State state)))) (GetForNode (gm_vis m) node))
    (locksOf g (createLocksByStateID g) ++ locksOf g (spendLocksByStateID g) ++ locksOf g (readLocksByStateID g)).

(** ** Reading and locking *)

Definition GetDependencies (m : grapherMem) (transactionID : uuid) : list uuid :=
  if bool_decide (transactionID ∈ transactionByID (gm_g m)) then GetPrerequisites (gm_deps m) transactionID else [].

Definition grapherGetDependents (m : grapherMem) (transactionID : uuid) : list uuid :=
  if bool_decide (transactionID ∈ transactionByID (gm_g m)) then GetDependents (gm_deps m) transactionID else [].

(** Allocate a lock and append it to the transaction's index. *)
Definition newLock (transactionID : uuid) (stateID : string) (ty : StateLockType) (g : grapher) : grapher :=
  let ptr := length (lockHeap g) in
  g <| lockHeap ::= fun h => h ++ [MkLock stateID (Some transactionID) ty None] |>
    <| locksByTransaction ::= fun m => <[transactionID := default [] (m !! transactionID) ++ [ptr]]> m |>.

Definition createLock (transactionID : uuid) (g : grapher) (state : EndorsableState) : grapher :=
  newLock transactionID (es_Id state) CREATE g
    <| createLocksByStateID ::= <[es_Id state := length (lockHeap g)]> |>.

Definition LockMintsOnCreate (m : grapherMem) (states : list EndorsableState) (transactionID : uuid) : grapherMem :=
  m <| gm_g ::= fun g => foldl (createLock transactionID) (addConsumer g transactionID) states |>.

(** [if mintedBy := g.transactionByOutputState[stateID]; mintedBy != nil { AddPrerequisites }] *)
Definition dependOnMinter (transactionID : uuid) (stateID : string) (m : grapherMem) : grapherMem :=
  match transactionByOutputState (gm_g m) !! stateID with
  | Some mintedBy => m <| gm_deps ::= fun d => AddPrerequisites d transactionID [mintedBy] |>
  | None => m
  end.

Definition readLock (transactionID : uuid) (m : grapherMem) (state : EndorsableState) : grapherMem :=
  dependOnMinter transactionID (es_Id state)
    (m <| gm_g ::= fun g => newLock transactionID (es_Id state) READ g
                              <| readLocksByStateID ::= <[es_Id state := length (lockHeap g)]> |> |>).

Definition spendLock (transactionID : uuid) (m : grapherMem) (state : EndorsableState) : grapherMem :=
  dependOnMinter transactionID (es_Id state)
    (m <| gm_g ::= fun g => newLock transactionID (es_Id state) SPEND g
                              <| spendLocksByStateID ::= <[es_Id state := length (lockHeap g)]> |> |>).

Definition LockMintsOnReadAndSpend (m : grapherMem) (readStates spendStates : list EndorsableState)
    (transactionID : uuid) : grapherMem :=
  let m := m <| gm_g ::= fun g => addConsumer g transactionID |> in
  foldl (spendLock transactionID) (foldl (readLock transactionID) m readStates) spendStates.

(** The two halves of the view served to an assembling node; a spend-locked id that is not hex is
    skipped. *)
Definition viewCandidate (g : grapher) (state : SnapshotState) : bool :=
  hasLock (createLocksByStateID g) (es_Id (sn_State state))
  && negb (hasLock (spendLocksByStateID g) (es_Id (sn_State state))).

Definition SnapshotView (m : grapherMem) (node : string) : list SnapshotState * list (option string) :=
  let g := gm_g m in
  (List.filter (viewCandidate g) (GetForNode (gm_vis m) node),
   omap (fun kv => match ParseHexBytes kv.1 with Ok id => Some id | _ => None end) (map_to_list (spendLocksByStateID g))).

(** ** The lock indexes *)

(** The three lock maps, by the kind of lock they hold. *)
Inductive lockKind : Type := KCreate | KSpend | KRead.

#[export] Instance lockKind_eq_dec : EqDecision lockKind.
Proof. solve_decision. Defined.

Definition kindOf (ty : StateLockType) : lockKind :=
  match ty with CREATE => KCreate | SPEND => KSpend | _ => KRead end.

Definition lockMap (g : grapher) (k : lockKind) : gmap string nat :=
  match k with
  | KCreate => createLocksByStateID g
  | KSpend => spendLocksByStateID g
  | KRead => readLocksByStateID g
  end.

Definition updLockMap (k : lockKind) (f : gmap string nat -> gmap string nat) (g : grapher) : grapher :=
  match k with
  | KCreate => g <| createLocksByStateID ::= f |>
  | KSpend => g <| spendLocksByStateID ::= f |>
  | KRead => g <| readLocksByStateID ::= f |>
  end.

Lemma lockMap_upd k k' f g :
  lockMap (updLockMap k f g) k' = if decide (k' = k) then f (lockMap g k') else lockMap g k'.
Proof. by destruct k, k'. Qed.

Definition txLocksOf (g : grapher) (tx : uuid) : list nat := default [] (locksByTransaction g !! tx).
Definition mintsOf (g : grapher) (tx : uuid) : list string := default [] (outputStatesByMinter g !! tx).

(** The lock of kind [k] on a state, through the maps. *)
Definition lockOn (g : grapher) (k : lockKind) (stateID : string) : option SnapshotStateLock :=
  ptr ← lockMap g k !! stateID; lockHeap g !! ptr.

(** A lock is either owned by a transaction, which then has it in its index, or confirmed. *)
Definition owned (g : grapher) (ptr : nat) (l : SnapshotStateLock) : Prop :=
  match lk_Transaction l with
  | Some tx => ptr ∈ txLocksOf g tx
  | None => is_Some (lk_ConfirmedAtBlock l)
  end.

Record grapher_wf (g : grapher) : Prop := {
  wf_locks : forall k s ptr, lockMap g k !! s = Some ptr ->
    exists l, lockHeap g !! ptr = Some l /\ lk_StateId l = s /\ kindOf (lk_Type l) = k /\ owned g ptr l;
  wf_index : forall tx ptr, ptr ∈ txLocksOf g tx ->
    tx ∈ transactionByID g /\ exists l, lockHeap g !! ptr = Some l /\ lk_Transaction l = Some tx;
  wf_mints : forall s tx, transactionByOutputState g !! s = Some tx <-> s ∈ mintsOf g tx;
  wf_minters : forall tx s, s ∈ mintsOf g tx -> tx ∈ transactionByID g
}.

(** A fact about every lock map, transferred to a grapher whose lock maps are convertible. *)
Ltac by_kind H :=
  let k := fresh "k" in
  intros k; destruct k; [exact (H KCreate)|exact (H KSpend)|exact (H KRead)].

Lemma grapher_wf_new t : grapher_wf (NewGrapher t).
Proof. split; unfold txLocksOf, mintsOf; simpl; try (intros []); intros; simplify_map_eq; set_solver. Qed.

Lemma grapher_wf_addConsumer g tx : grapher_wf g -> grapher_wf (addConsumer g tx).
Proof.
  intros [H1 H2 H3 H4]. split; [by_kind H1| |done|].
  - intros t p Hp. destruct (H2 t p Hp). split; [set_solver|done].
  - intros t s Hs. set_solver.
Qed.

Lemma grapher_wf_addMints states tx g :
  grapher_wf g -> tx ∈ transactionByID g -> grapher_wf (addMints g states tx).1.
Proof.
  revert g. induction states as [|state states IH]; intros g Hwf Htx; simpl; [done|].
  destruct (transactionByOutputState g !! es_Id state) eqn:E; [done|]. apply IH; [|done].
  destruct Hwf as [H1 H2 H3 H4]. split; [by_kind H1|done| |].
  - intros s t. unfold mintsOf. simpl.
    destruct (decide (s = es_Id state)) as [->|Hs], (decide (t = tx)) as [->|Ht]; simplify_map_eq.
    + set_solver.
    + split; [congruence|]. intros Hin. apply H3 in Hin. congruence.
    + rewrite H3. unfold mintsOf. set_solver.
    + by rewrite H3.
  - intros t s. unfold mintsOf. simpl. destruct (decide (t = tx)) as [->|Ht]; simplify_map_eq; [done|].
    apply H4.
Qed.

(** Writing a lock map leaves everything else. *)
Lemma upd_fields k f g :
  lockHeap (updLockMap k f g) = lockHeap g /\ locksByTransaction (updLockMap k f g) = locksByTransaction g /\
  transactionByID (updLockMap k f g) = transactionByID g /\
  transactionByOutputState (updLockMap k f g) = transactionByOutputState g /\
  outputStatesByMinter (updLockMap k f g) = outputStatesByMinter g /\
  blockHeightTolerance (updLockMap k f g) = blockHeightTolerance g.
Proof. by destruct k. Qed.

(** Storing a lock that was just appended to the heap in the map of its kind. *)
Lemma grapher_wf_store g g1 s l :
  grapher_wf g ->
  lockHeap g1 = lockHeap g ++ [l] -> (forall k, lockMap g1 k = lockMap g k) ->
  transactionByID g1 = transactionByID g -> transactionByOutputState g1 = transactionByOutputState g ->
  outputStatesByMinter g1 = outputStatesByMinter g ->
  lk_StateId l = s -> owned g1 (length (lockHeap g)) l ->
  (forall tx ptr, ptr ∈ txLocksOf g tx -> ptr ∈ txLocksOf g1 tx) ->
  (forall tx ptr, ptr ∈ txLocksOf g1 tx ->
     ptr ∈ txLocksOf g tx \/ (ptr = length (lockHeap g) /\ lk_Transaction l = Some tx /\ tx ∈ transactionByID g)) ->
  grapher_wf (updLockMap (kindOf (lk_Type l)) (<[s := length (lockHeap g)]>) g1).
Proof.
  intros [H1 H2 H3 H4] Hheap Hmaps Htx Hout Hmint Hs Hown Hidx Hidx'.
  destruct (upd_fields (kindOf (lk_Type l)) (<[s := length (lockHeap g)]>) g1) as (Eh & El & Et & Eo & Em & _).
  assert (forall ptr l', lockHeap g !! ptr = Some l' -> lockHeap g1 !! ptr = Some l') as Hold.
  { intros ptr l' Hl. rewrite Hheap. by apply lookup_app_l_Some. }
  assert (lockHeap g1 !! length (lockHeap g) = Some l) as Hnew by (rewrite Hheap; by apply list_lookup_middle).
  assert (forall ptr l', owned g ptr l' -> owned g1 ptr l') as Hown'.
  { intros ptr l'. unfold owned. destruct (lk_Transaction l'); [apply Hidx|done]. }
  split; unfold owned, txLocksOf, mintsOf; rewrite ?Eh, ?El, ?Et, ?Eo, ?Em, ?Htx, ?Hout, ?Hmint.
  - intros k s' ptr. rewrite lockMap_upd, Hmaps. case_decide as Hk; [subst k|].
    + destruct (decide (s' = s)) as [->|]; simplify_map_eq.
      * intros [= <-]. eexists. split_and!; [done..|]. exact Hown.
      * intros (l' & ? & ? & ? & ?)%H1. exists l'. split_and!; auto. by apply Hown'.
    + intros (l' & ? & ? & ? & ?)%H1. exists l'. split_and!; auto. by apply Hown'.
  - intros t ptr [Hp|(-> & ? & ?)]%Hidx'; [|eauto].
    destruct (H2 _ _ Hp) as (? & l' & ? & ?). eauto.
  - exact H3.
  - exact H4.
Qed.

Lemma grapher_wf_newLock g tx s ty :
  grapher_wf g -> tx ∈ transactionByID g ->
  grapher_wf (updLockMap (kindOf ty) (<[s := length (lockHeap g)]>) (newLock tx s ty g)).
Proof.
  intros Hwf Htx.
  assert (forall t, txLocksOf (newLock tx s ty g) t
    = if decide (t = tx) then txLocksOf g tx ++ [length (lockHeap g)] else txLocksOf g t) as Hidx.
  { intros t. unfold txLocksOf. simpl. case_decide; by simplify_map_eq. }
  apply (grapher_wf_store g _ s (MkLock s (Some tx) ty None)); try done.
  - unfold owned. simpl. rewrite Hidx, decide_True by done. set_solver.
  - intros t ptr. rewrite Hidx. case_decide; subst; set_solver.
  - intros t ptr. rewrite Hidx. case_decide; subst; set_solver.
Qed.

Lemma transactionByID_newLock tx s ty k f g : transactionByID (updLockMap k f (newLock tx s ty g)) = transactionByID g.
Proof. by destruct k. Qed.

(** ** Forgetting *)

Lemma lookup_foldl_delete {A} (l : list string) (m : gmap string A) s :
  foldl (fun m stateID => delete stateID m) m l !! s = if decide (s ∈ l) then None else m !! s.
Proof.
  revert m. induction l as [|x l IH]; intros m; simpl; [done|]. rewrite IH.
  destruct (decide (s = x)) as [->|Hne].
  - rewrite lookup_delete_eq, (decide_True (P := x ∈ x :: l)) by set_solver. by case_decide.
  - rewrite lookup_delete_ne by done. destruct (decide (s ∈ l)), (decide (s ∈ x :: l)); set_solver.
Qed.

Lemma forgetTxMints_fields g tx :
  (forall s, transactionByOutputState (forgetTxMints g tx) !! s
     = if decide (s ∈ mintsOf g tx) then None else transactionByOutputState g !! s) /\
  (forall t, mintsOf (forgetTxMints g tx) t = if decide (t = tx) then [] else mintsOf g t) /\
  (forall k, lockMap (forgetTxMints g tx) k = lockMap g k) /\
  lockHeap (forgetTxMints g tx) = lockHeap g /\ locksByTransaction (forgetTxMints g tx) = locksByTransaction g /\
  transactionByID (forgetTxMints g tx) = transactionByID g /\
  blockHeightTolerance (forgetTxMints g tx) = blockHeightTolerance g.
Proof.
  unfold forgetTxMints, mintsOf. destruct (outputStatesByMinter g !! tx) as [ids|] eqn:E; simpl.
  - split_and!; [|intros t|by intros []|done..].
    + intros s. apply lookup_foldl_delete.
    + case_decide; by simplify_map_eq.
  - split_and!; [|intros t|done..].
    + done.
    + case_decide; [subst; by rewrite E|done].
Qed.

(** Which entries of the lock maps a list of locks stands for. *)
Definition coversLock (heap : list SnapshotStateLock) (k : lockKind) (s : string) (ptr : nat) : Prop :=
  exists l, heap !! ptr = Some l /\ lk_StateId l = s /\ kindOf (lk_Type l) = k.

#[export] Instance coversLock_dec heap k s ptr : Decision (coversLock heap k s ptr).
Proof.
  refine (match heap !! ptr as o return heap !! ptr = o -> _ with
          | Some l => fun E => cast_if (decide (lk_StateId l = s /\ kindOf (lk_Type l) = k))
          | None => fun E => right _
          end eq_refl); unfold coversLock; naive_solver.
Defined.

Definition covered (heap : list SnapshotStateLock) (ptrs : list nat) (k : lockKind) (s : string) : Prop :=
  Exists (coversLock heap k s) ptrs.

Lemma forgetLock_fields m ptr :
  let m' := forgetLock m ptr in let g := gm_g m in let g' := gm_g m' in
  lockHeap g' = lockHeap g /\ locksByTransaction g' = locksByTransaction g /\
  transactionByID g' = transactionByID g /\ transactionByOutputState g' = transactionByOutputState g /\
  outputStatesByMinter g' = outputStatesByMinter g /\ gm_deps m' = gm_deps m /\
  (forall k s, lockMap g' k !! s = if decide (coversLock (lockHeap g) k s ptr) then None else lockMap g k !! s) /\
  (forall s, gm_vis m' !! s = if decide (coversLock (lockHeap g) KCreate s ptr) then None else gm_vis m !! s).
Proof.
  simpl. unfold forgetLock. destruct (lockHeap (gm_g m) !! ptr) as [l|] eqn:E.
  2: { split_and!; try done; intros; rewrite decide_False; unfold coversLock; naive_solver. }
  assert (forall k s, coversLock (lockHeap (gm_g m)) k s ptr <-> lk_StateId l = s /\ kindOf (lk_Type l) = k) as Hc.
  { unfold coversLock. intros k s. rewrite E. naive_solver. }
  destruct (lk_Type l) eqn:Ety; simpl; split_and!; try done.
  all: intros; repeat match goal with k : lockKind |- _ => destruct k end; simpl; unfold DeleteState.
  all: case_decide as Hd; rewrite Hc in Hd; simpl in Hd;
    [destruct Hd as [<- Hk]; (discriminate Hk || by rewrite lookup_delete_eq)|].
  all: (done || (rewrite lookup_delete_ne; [done|naive_solver])).
Qed.

Lemma forgetLocks_fields ptrs m :
  let m' := foldl forgetLock m ptrs in let g := gm_g m in let g' := gm_g m' in
  lockHeap g' = lockHeap g /\ locksByTransaction g' = locksByTransaction g /\
  transactionByID g' = transactionByID g /\ transactionByOutputState g' = transactionByOutputState g /\
  outputStatesByMinter g' = outputStatesByMinter g /\ gm_deps m' = gm_deps m /\
  (forall k s, lockMap g' k !! s = if decide (covered (lockHeap g) ptrs k s) then None else lockMap g k !! s) /\
  (forall s, gm_vis m' !! s = if decide (covered (lockHeap g) ptrs KCreate s) then None else gm_vis m !! s).
Proof.
  revert m. induction ptrs as [|ptr ptrs IH]; intros m; simpl.
  { split_and!; try done; intros; rewrite decide_False; try done; unfold covered; by rewrite Exists_nil. }
  destruct (IH (forgetLock m ptr)) as (-> & -> & -> & -> & -> & -> & Hl & Hv).
  destruct (forgetLock_fields m ptr) as (-> & -> & -> & -> & -> & -> & Hl1 & Hv1).
  rewrite (proj1 (forgetLock_fields m ptr)) in Hl, Hv.
  split_and!; try done.
  - intros k s. rewrite Hl, Hl1. unfold covered. repeat case_decide; try done; exfalso; rewrite ?Exists_cons in *; tauto.
  - intros s. rewrite Hv, Hv1. unfold covered. repeat case_decide; try done; exfalso; rewrite ?Exists_cons in *; tauto.
Qed.

(** The state after [ForgetTransactionAndLocks] of a known transaction, field by field. *)
Lemma forgetTransactionAndLocks_fields m tx :
  tx ∈ transactionByID (gm_g m) ->
  let m' := ForgetTransactionAndLocks m tx in let g := gm_g m in let g' := gm_g m' in
  lockHeap g' = lockHeap g /\ locksByTransaction g' = delete tx (locksByTransaction g) /\
  transactionByID g' = transactionByID g ∖ {[tx]} /\ gm_deps m' = Delete (gm_deps m) tx /\
  (forall s, transactionByOutputState g' !! s = if decide (s ∈ mintsOf g tx) then None else transactionByOutputState g !! s) /\
  (forall t, mintsOf g' t = if decide (t = tx) then [] else mintsOf g t) /\
  (forall k s, lockMap g' k !! s = if decide (covered (lockHeap g) (txLocksOf g tx) k s) then None else lockMap g k !! s) /\
  (forall s, gm_vis m' !! s = if decide (covered (lockHeap g) (txLocksOf g tx) KCreate s) then None else gm_vis m !! s).
Proof.
  intros Htx. simpl. unfold ForgetTransactionAndLocks. rewrite bool_decide_true by done.
  unfold forgetTxLocks. simpl.
  destruct (forgetTxMints_fields (gm_g m) tx) as (Ho & Hm & Hk & Hh & Hl & Hi & _). rewrite Hl.
  match goal with |- context [foldl forgetLock ?m0 ?ptrs] =>
    destruct (forgetLocks_fields ptrs m0) as (-> & -> & -> & -> & Em & -> & El & Ev) end.
  simpl in *. rewrite Hh in *. rewrite Hl, Hi. split_and!; [done..|exact Ho| | |].
  - intros t. unfold mintsOf at 1. simpl. rewrite Em. apply Hm.
  - intros k s. change (lockMap _ k) with (lockMap (gm_g (foldl forgetLock
      (m <| gm_deps ::= fun d => Delete d tx |> <| gm_g ::= fun g => forgetTxMints g tx |>)
      (default [] (locksByTransaction (gm_g m) !! tx)))) k) at 1.
    setoid_rewrite El. by rewrite Hk.
  - intros s. apply Ev.
Qed.

Lemma wf_owner_covered g k s ptr l tx :
  lockMap g k !! s = Some ptr -> lockHeap g !! ptr = Some l -> lk_StateId l = s -> kindOf (lk_Type l) = k ->
  owned g ptr l -> lk_Transaction l = Some tx -> covered (lockHeap g) (txLocksOf g tx) k s.
Proof.
  unfold owned. intros Hp Hl Hs Hk Ho Ht. rewrite Ht in Ho.
  apply Exists_exists. exists ptr. split; [done|]. exists l. done.
Qed.

Lemma txLocksOf_delete g g' tx t :
  locksByTransaction g' = delete tx (locksByTransaction g) ->
  txLocksOf g' t = if decide (t = tx) then [] else txLocksOf g t.
Proof. unfold txLocksOf. intros ->. case_decide; by simplify_map_eq. Qed.

(** Forgetting a transaction's mints keeps the minter index in step. *)
Lemma wf_mints_forget g g' tx :
  grapher_wf g ->
  (forall s, transactionByOutputState g' !! s = if decide (s ∈ mintsOf g tx) then None else transactionByOutputState g !! s) ->
  (forall t, mintsOf g' t = if decide (t = tx) then [] else mintsOf g t) ->
  transactionByID g' = transactionByID g ∖ {[tx]} ->
  (forall s t, transactionByOutputState g' !! s = Some t <-> s ∈ mintsOf g' t) /\
  (forall t s, s ∈ mintsOf g' t -> t ∈ transactionByID g').
Proof.
  intros [_ _ H3 H4] Ho Hm Hi. split.
  - intros s t. rewrite Ho, Hm. destruct (decide (t = tx)) as [->|Hne], (decide (s ∈ mintsOf g tx)) as [Hin|Hin].
    + set_solver.
    + rewrite H3. set_solver.
    + split; [done|]. intros Ht. apply H3 in Ht, Hin. congruence.
    + apply H3.
  - intros t s. rewrite Hm, Hi. case_decide; [set_solver|]. intros Hs%H4. set_solver.
Qed.

Lemma grapher_wf_ForgetTransactionAndLocks m tx :
  grapher_wf (gm_g m) -> grapher_wf (gm_g (ForgetTransactionAndLocks m tx)).
Proof.
  intros Hwf. destruct (decide (tx ∈ transactionByID (gm_g m))) as [Htx|Htx].
  2: { unfold ForgetTransactionAndLocks. by rewrite bool_decide_false. }
  destruct (forgetTransactionAndLocks_fields m tx Htx) as (Hh & Hl & Hi & _ & Ho & Hm & Hk & _).
  destruct (wf_mints_forget _ _ _ Hwf Ho Hm Hi) as [Hm1 Hm2]. destruct Hwf as [H1 H2 _ _].
  split; [..|exact Hm1|exact Hm2].
  - intros k s ptr. rewrite Hk. case_decide as Hc; [done|]. intros Hp.
    destruct (H1 _ _ _ Hp) as (l & El & Es & Ek & Eo). exists l. rewrite Hh. split_and!; [done..|].
    unfold owned in *. destruct (lk_Transaction l) as [t|] eqn:Et; [|done].
    rewrite (txLocksOf_delete _ _ tx t Hl). case_decide as Ht; [|done]. subst t. exfalso. apply Hc.
    eapply wf_owner_covered; try done. unfold owned. by rewrite Et.
  - intros t ptr. rewrite (txLocksOf_delete _ _ tx t Hl), Hh, Hi. case_decide; [set_solver|].
    intros Hp. destruct (H2 _ _ Hp) as [? ?]. split; [set_solver|done].
Qed.

(** ** Confirming *)

Lemma lookup_stampLocks block ptrs heap p :
  foldl (stampLock block) heap ptrs !! p
  = (if decide (p ∈ ptrs)
     then (fun lock => lock <| lk_Transaction := None |> <| lk_ConfirmedAtBlock := Some block |>) <$> heap !! p
     else heap !! p).
Proof.
  revert heap. induction ptrs as [|q ptrs IH]; intros heap; simpl; [done|].
  rewrite IH. unfold stampLock. destruct (decide (p = q)) as [->|Hne].
  - rewrite list_lookup_alter_eq, (decide_True (P := q ∈ q :: ptrs)) by set_solver.
    case_decide; [|done]. by destruct (heap !! q).
  - rewrite list_lookup_alter_ne by done. destruct (decide (p ∈ ptrs)), (decide (p ∈ q :: ptrs)); set_solver.
Qed.

Lemma forgetTransaction_fields m tx block :
  tx ∈ transactionByID (gm_g m) ->
  let m' := ForgetTransaction m tx block in let g := gm_g m in let g' := gm_g m' in
  lockHeap g' = foldl (stampLock block) (lockHeap g) (txLocksOf g tx) /\
  locksByTransaction g' = delete tx (locksByTransaction g) /\
  transactionByID g' = transactionByID g ∖ {[tx]} /\ gm_deps m' = Delete (gm_deps m) tx /\ gm_vis m' = gm_vis m /\
  (forall s, transactionByOutputState g' !! s = if decide (s ∈ mintsOf g tx) then None else transactionByOutputState g !! s) /\
  (forall t, mintsOf g' t = if decide (t = tx) then [] else mintsOf g t) /\
  (forall k, lockMap g' k = lockMap g k).
Proof.
  intros Htx. simpl. unfold ForgetTransaction. rewrite bool_decide_true by done. simpl.
  destruct (forgetTxMints_fields (gm_g m) tx) as (Ho & Hm & Hk & Hh & Hl & Hi & _).
  rewrite Hl, Hh, Hi. split_and!; [done..|exact Ho|exact Hm|].
  intros k. rewrite <-Hk. by destruct k.
Qed.

Lemma grapher_wf_ForgetTransaction m tx block :
  grapher_wf (gm_g m) -> grapher_wf (gm_g (ForgetTransaction m tx block)).
Proof.
  intros Hwf. destruct (decide (tx ∈ transactionByID (gm_g m))) as [Htx|Htx].
  2: { unfold ForgetTransaction. by rewrite bool_decide_false. }
  destruct (forgetTransaction_fields m tx block Htx) as (Hh & Hl & Hi & _ & _ & Ho & Hm & Hk).
  destruct (wf_mints_forget _ _ _ Hwf Ho Hm Hi) as [Hm1 Hm2]. destruct Hwf as [H1 H2 _ _].
  split; [..|exact Hm1|exact Hm2].
  - intros k s ptr. rewrite Hk. intros Hp.
    destruct (H1 _ _ _ Hp) as (l & El & Es & Ek & Eo). rewrite Hh, lookup_stampLocks, El. simpl.
    case_decide as Hin; eexists; (split; [done|]); (split_and!; [done|done|]).
    { unfold owned. simpl. eauto. }
    unfold owned in *. destruct (lk_Transaction l) as [t|]; [|done].
    rewrite (txLocksOf_delete _ _ tx t Hl). case_decide; [subst; done|done].
  - intros t ptr. rewrite (txLocksOf_delete _ _ tx t Hl), Hh, Hi, lookup_stampLocks. case_decide as Ht; [set_solver|].
    intros Hp. destruct (H2 _ _ Hp) as (? & l & El & Et). split; [set_solver|]. exists l. split; [|done].
    case_decide as Hin; [|done]. destruct (H2 _ _ Hin) as (_ & l' & El' & Et'). congruence.
Qed.

(** Shrinking the lock maps keeps the indexes consistent. *)
Lemma grapher_wf_shrink g g' :
  grapher_wf g -> (forall k, lockMap g' k ⊆ lockMap g k) ->
  lockHeap g' = lockHeap g -> locksByTransaction g' = locksByTransaction g -> transactionByID g' = transactionByID g ->
  transactionByOutputState g' = transactionByOutputState g -> outputStatesByMinter g' = outputStatesByMinter g ->
  grapher_wf g'.
Proof.
  intros [H1 H2 H3 H4] Hk Hh Hl Hi Ho Hm.
  split; unfold owned, txLocksOf, mintsOf; rewrite ?Hh, ?Hl, ?Hi, ?Ho, ?Hm; [|done..].
  intros k s ptr Hp. apply H1. by eapply lookup_weaken.
Qed.

Lemma lockMap_ForgetConfirmedLocks m h k s :
  lockMap (gm_g (ForgetConfirmedLocks m h)) k !! s
  = (ptr ← lockMap (gm_g m) k !! s; if lockExpired (gm_g m) h ptr then None else Some ptr).
Proof.
  assert (lockMap (gm_g (ForgetConfirmedLocks m h)) k
    = filter (fun kv => lockExpired (gm_g m) h kv.2 = false) (lockMap (gm_g m) k)) as -> by by destruct k.
  rewrite map_lookup_filter. destruct (lockMap (gm_g m) k !! s) as [ptr|]; simpl; [|done].
  destruct (lockExpired (gm_g m) h ptr) eqn:E.
  - case_guard; simpl in *; congruence.
  - case_guard; simpl in *; congruence.
Qed.

Lemma grapher_wf_ForgetConfirmedLocks m h : grapher_wf (gm_g m) -> grapher_wf (gm_g (ForgetConfirmedLocks m h)).
Proof.
  intros Hwf. eapply grapher_wf_shrink; [exact Hwf| |done..].
  intros k. apply map_subseteq_spec. intros s ptr. rewrite lockMap_ForgetConfirmedLocks.
  destruct (lockMap (gm_g m) k !! s); simpl; [|done]. by case_match.
Qed.

(** ** Importing and locking *)

Lemma confirmedLocks_spec locks s l :
  confirmedLocks locks !! s = Some l ->
  l ∈ locks /\ lk_StateId l = s /\ lk_Transaction l = None /\ is_Some (lk_ConfirmedAtBlock l).
Proof.
  unfold confirmedLocks.
  assert (forall acc : gmap string SnapshotStateLock, foldl (fun acc lock =>
    match lk_Transaction lock, lk_ConfirmedAtBlock lock with
    | None, Some _ => <[lk_StateId lock := lock]> acc
    | _, _ => acc
    end) acc locks !! s = Some l ->
    acc !! s = Some l \/ (l ∈ locks /\ lk_StateId l = s /\ lk_Transaction l = None /\ is_Some (lk_ConfirmedAtBlock l))) as H.
  { induction locks as [|x locks IH]; intros acc; simpl; [auto|]. intros [H|(? & ?)]%IH; [|set_solver].
    destruct (lk_Transaction x) eqn:Et; [auto|]. destruct (lk_ConfirmedAtBlock x) eqn:Ec; [|auto].
    destruct (decide (s = lk_StateId x)) as [->|]; simplify_map_eq; [|auto]. right. split_and!; eauto. set_solver. }
  intros [?|?]%H; [by simplify_map_eq|done].
Qed.

Definition importable (kv : string * SnapshotStateLock) : Prop :=
  lk_StateId kv.2 = kv.1 /\ lk_Transaction kv.2 = None /\ is_Some (lk_ConfirmedAtBlock kv.2).

Lemma importLock_upd g s l :
  importLock g (s, l)
  = match lockMap g (kindOf (lk_Type l)) !! s with
    | Some _ => g
    | None => updLockMap (kindOf (lk_Type l)) (<[s := length (lockHeap g)]>) (g <| lockHeap ::= fun h => h ++ [l] |>)
    end.
Proof. unfold importLock. by destruct (lk_Type l). Qed.

Lemma grapher_wf_importLock g kv : grapher_wf g -> importable kv -> grapher_wf (importLock g kv).
Proof.
  destruct kv as [s l]. intros Hwf (Hs & Ht & Hc). simpl in Hs, Ht, Hc. rewrite importLock_upd.
  destruct (lockMap g (kindOf (lk_Type l)) !! s); [done|].
  apply grapher_wf_store; try done; unfold owned; rewrite ?Ht; [done|auto..].
Qed.

Lemma grapher_wf_Import m snap : grapher_wf (gm_g m) -> grapher_wf (gm_g (ImportStatesAndLocks m snap)).
Proof.
  intros Hwf. simpl.
  assert (Forall importable (map_to_list (confirmedLocks (ss_Locks snap)))) as HF.
  { apply Forall_forall. intros [s l] Hin%elem_of_map_to_list. apply confirmedLocks_spec in Hin as (? & ? & ? & ?). done. }
  revert Hwf. generalize (gm_g m) as g.
  induction HF as [|kv kvs Hkv _ IH]; intros g Hwf; simpl; [done|]. by apply IH, grapher_wf_importLock.
Qed.

Lemma createLock_upd tx g st :
  createLock tx g st = updLockMap (kindOf CREATE) (<[es_Id st := length (lockHeap g)]>) (newLock tx (es_Id st) CREATE g).
Proof. done. Qed.

Lemma grapher_wf_createLocks tx states g :
  grapher_wf g -> tx ∈ transactionByID g -> grapher_wf (foldl (createLock tx) g states).
Proof.
  revert g. induction states as [|st states IH]; intros g Hwf Htx; simpl; [done|].
  apply IH; [|done]. rewrite createLock_upd. by apply grapher_wf_newLock.
Qed.

(** What taking a read or spend lock does, whichever it is. *)
Definition consumeLock (ty : StateLockType) (tx : uuid) (m : grapherMem) (st : EndorsableState) : grapherMem :=
  dependOnMinter tx (es_Id st)
    (m <| gm_g ::= fun g => updLockMap (kindOf ty) (<[es_Id st := length (lockHeap g)]>) (newLock tx (es_Id st) ty g) |>).

Lemma consumeLocks_eq m reads spends tx :
  LockMintsOnReadAndSpend m reads spends tx
  = foldl (consumeLock SPEND tx) (foldl (consumeLock READ tx) (m <| gm_g ::= fun g => addConsumer g tx |>) reads) spends.
Proof. done. Qed.

Lemma consumeLock_fields ty tx m st :
  gm_g (consumeLock ty tx m st)
    = updLockMap (kindOf ty) (<[es_Id st := length (lockHeap (gm_g m))]>) (newLock tx (es_Id st) ty (gm_g m)) /\
  gm_vis (consumeLock ty tx m st) = gm_vis m /\
  gm_deps (consumeLock ty tx m st)
    = match transactionByOutputState (gm_g m) !! es_Id st with
      | Some minter => AddPrerequisites (gm_deps m) tx [minter]
      | None => gm_deps m
      end.
Proof.
  unfold consumeLock, dependOnMinter. simpl.
  destruct (upd_fields (kindOf ty) (<[es_Id st := length (lockHeap (gm_g m))]>)
    (newLock tx (es_Id st) ty (gm_g m))) as (_ & _ & _ & -> & _). simpl.
  by destruct (transactionByOutputState (gm_g m) !! es_Id st).
Qed.

(** The states of [states] that some transaction minted, as edges from [tx]. *)
Definition consumes (g : grapher) (tx : uuid) (states : list EndorsableState) (t p : uuid) : Prop :=
  t = tx /\ p <> tx /\ exists st, st ∈ states /\ transactionByOutputState g !! es_Id st = Some p.

Lemma consumeLocks_ok ty tx states m E :
  grapher_wf (gm_g m) -> tx ∈ transactionByID (gm_g m) -> represents (gm_deps m) E ->
  let m' := foldl (consumeLock ty tx) m states in
  grapher_wf (gm_g m') /\ tx ∈ transactionByID (gm_g m') /\
  transactionByOutputState (gm_g m') = transactionByOutputState (gm_g m) /\
  gm_vis m' = gm_vis m /\
  represents (gm_deps m') (fun t p => E t p \/ consumes (gm_g m) tx states t p).
Proof.
  revert m E. induction states as [|st states IH]; intros m E Hwf Htx HE; simpl.
  { split_and!; try done. eapply represents_ext; [done|]. unfold consumes. set_solver. }
  destruct (consumeLock_fields ty tx m st) as (Hg & Hv & Hd).
  destruct (upd_fields (kindOf ty) (<[es_Id st := length (lockHeap (gm_g m))]>)
    (newLock tx (es_Id st) ty (gm_g m))) as (_ & _ & Hi & Ho & _). simpl in Hi, Ho.
  set (E1 := fun t p => E t p \/ (t = tx /\ p <> tx /\ transactionByOutputState (gm_g m) !! es_Id st = Some p)).
  assert (represents (gm_deps (consumeLock ty tx m st)) E1) as HE1.
  { rewrite Hd. unfold E1. destruct (transactionByOutputState (gm_g m) !! es_Id st) as [minter|].
    - eapply represents_ext; [by apply represents_AddPrerequisites|].
      intros t p. cbv beta. rewrite list_elem_of_singleton. naive_solver.
    - eapply represents_ext; [done|]. naive_solver. }
  destruct (IH (consumeLock ty tx m st) E1) as (W & T & O & V & R); [| |exact HE1|].
  - rewrite Hg. by apply grapher_wf_newLock.
  - by rewrite Hg, Hi.
  - split_and!; [done|done|by rewrite O, Hg, Ho|by rewrite V, Hv|].
    eapply represents_ext; [exact R|]. intros t p. unfold E1, consumes. rewrite Hg, Ho.
    setoid_rewrite elem_of_cons. naive_solver.
Qed.

(** ** The grapher through its interface *)

Inductive grapherOp : Type :=
| OpAddMinter (states : list EndorsableState) (tx : uuid)
| OpLockMintsOnCreate (states : list EndorsableState) (tx : uuid)
| OpLockMintsOnReadAndSpend (reads spends : list EndorsableState) (tx : uuid)
| OpForgetTransactionAndLocks (tx : uuid)
| OpForgetTransaction (tx : uuid) (confirmedAtBlock : Z)
| OpForgetConfirmedLocks (height : Z)
| OpImport (snapshot : StateSnapshot).

Definition runGrapherOp (m : grapherMem) (op : grapherOp) : grapherMem :=
  match op with
  | OpAddMinter states tx => fst (AddMinter m states tx)
  | OpLockMintsOnCreate states tx => LockMintsOnCreate m states tx
  | OpLockMintsOnReadAndSpend reads spends tx => LockMintsOnReadAndSpend m reads spends tx
  | OpForgetTransactionAndLocks tx => ForgetTransactionAndLocks m tx
  | OpForgetTransaction tx block => ForgetTransaction m tx block
  | OpForgetConfirmedLocks h => ForgetConfirmedLocks m h
  | OpImport snapshot => ImportStatesAndLocks m snapshot
  end.

Definition mem_wf (m : grapherMem) : Prop := grapher_wf (gm_g m) /\ exists E, represents (gm_deps m) E.

Lemma gm_deps_forget m tx :
  (gm_deps (ForgetTransactionAndLocks m tx) = Delete (gm_deps m) tx \/ gm_deps (ForgetTransactionAndLocks m tx) = gm_deps m) /\
  (forall b, gm_deps (ForgetTransaction m tx b) = Delete (gm_deps m) tx \/ gm_deps (ForgetTransaction m tx b) = gm_deps m).
Proof.
  destruct (decide (tx ∈ transactionByID (gm_g m))) as [H|H].
  - split; [left; apply (forgetTransactionAndLocks_fields m tx H)|].
    intros b. left. apply (forgetTransaction_fields m tx b H).
  - unfold ForgetTransactionAndLocks, ForgetTransaction. rewrite !bool_decide_false by done. auto.
Qed.

Lemma runGrapherOp_wf m op : mem_wf m -> mem_wf (runGrapherOp m op).
Proof.
  intros [Hwf [E HE]]. destruct op as [states tx|states tx|reads spends tx|tx|tx b|h|snap]; cbn [runGrapherOp].
  - unfold AddMinter. destruct (addMints _ _ _) as [g r] eqn:Eq. split; [|eauto]. simpl.
    change g with (g, r).1. rewrite <-Eq. apply grapher_wf_addMints; [by apply grapher_wf_addConsumer|].
    unfold addConsumer. set_solver.
  - split; [|eauto]. apply grapher_wf_createLocks; [by apply grapher_wf_addConsumer|]. unfold addConsumer. set_solver.
  - rewrite consumeLocks_eq.
    destruct (consumeLocks_ok READ tx reads (m <| gm_g ::= fun g => addConsumer g tx |>) E) as (W & T & _ & _ & R);
      [by apply grapher_wf_addConsumer|unfold addConsumer; set_solver|done|].
    destruct (consumeLocks_ok SPEND tx spends _ _ W T R) as (W' & _ & _ & _ & R'). split; eauto.
  - split; [by apply grapher_wf_ForgetTransactionAndLocks|].
    destruct (proj1 (gm_deps_forget m tx)) as [-> | ->]; eauto using represents_Delete.
  - split; [by apply grapher_wf_ForgetTransaction|].
    destruct (proj2 (gm_deps_forget m tx) b) as [-> | ->]; eauto using represents_Delete.
  - split; [by apply grapher_wf_ForgetConfirmedLocks|eauto].
  - split; [by apply grapher_wf_Import|eauto].
Qed.

Lemma runGrapherOps_wf ops m : mem_wf m -> mem_wf (foldl runGrapherOp m ops).
Proof. revert m. induction ops as [|op ops IH]; intros m Hm; simpl; [done|]. by apply IH, runGrapherOp_wf. Qed.

Lemma mem_wf_vis m v : mem_wf m -> mem_wf (m <| gm_vis := v |>).
Proof. done. Qed.

Definition freshMem (tolerance : Z) : grapherMem := MkGrapherMem (NewGrapher tolerance) ∅ ∅.

Lemma freshMem_wf t : mem_wf (freshMem t).
Proof. split; [apply grapher_wf_new|]. eexists. apply represents_empty. Qed.

(** (C37) After any sequence of the grapher's operations its indexes agree: every entry of the
    create, spend and read maps leads to a lock of that kind on that state, the lock is either in its
    transaction's index or confirmed, every indexed lock belongs to a known transaction, the minter
    index is the inverse of the minted states, and the dependency chain stores a set of edges. *)
Theorem grapher_indexes_consistent tolerance ops :
  mem_wf (foldl runGrapherOp (freshMem tolerance) ops).
Proof. apply runGrapherOps_wf, freshMem_wf. Qed.

(** Transaction 1 minted a state that transaction 2 spends; transaction 1 minted another one. *)
Definition stateA : EndorsableState := MkEndorsableState "0x0a" "schema" "{}".
Definition stateB : EndorsableState := MkEndorsableState "0x0b" "schema" "{}".
Definition snapshotB : SnapshotState := MkSnapshotState stateB ["node1"] (Some exampleLabels) 7.

Definition exampleOps : list grapherOp :=
  [OpAddMinter [stateA; stateB] 1%N; OpLockMintsOnCreate [stateA; stateB] 1%N;
   OpLockMintsOnReadAndSpend [] [stateA] 2%N].

Definition exampleMem : grapherMem :=
  (foldl runGrapherOp (freshMem 5) exampleOps) <| gm_vis := {["0x0b" := snapshotB]} |>.

Lemma exampleMem_wf : mem_wf exampleMem.
Proof. apply mem_wf_vis, runGrapherOps_wf, freshMem_wf. Qed.

(** Forgetting a transaction with its locks leaves nothing of it: no lock of any kind names
    it, no state is minted by it, no transaction waits for it or is waited on by it; and the private
    data of the states it created is gone. *)
Theorem forgetTransactionAndLocks_complete m tx :
  mem_wf m -> tx ∈ transactionByID (gm_g m) ->
  let m' := ForgetTransactionAndLocks m tx in
  tx ∉ transactionByID (gm_g m') /\
  (forall k s l, lockOn (gm_g m') k s = Some l -> lk_Transaction l <> Some tx) /\
  (forall s, transactionByOutputState (gm_g m') !! s <> Some tx) /\
  (forall t, tx ∉ GetPrerequisites (gm_deps m') t /\ tx ∉ GetDependents (gm_deps m') t) /\
  (forall s l, lockOn (gm_g m) KCreate s = Some l -> lk_Transaction l = Some tx -> gm_vis m' !! s = None).
Proof.
  intros [Hwf [E HE]] Htx m'.
  pose proof (grapher_wf_ForgetTransactionAndLocks m tx Hwf) as Hwf'. fold m' in Hwf'.
  destruct (forgetTransactionAndLocks_fields m tx Htx) as (Hh & Hl & Hi & Hd & _ & Hm & Hk & Hv). fold m' in Hh, Hl, Hi, Hd, Hm, Hk, Hv.
  split_and!.
  - rewrite Hi. set_solver.
  - intros k s l Hlk Ht. unfold lockOn in Hlk.
    apply bind_Some in Hlk as (ptr & Hp & Hl'). destruct (wf_locks _ Hwf' _ _ _ Hp) as (l2 & Hl2 & _ & _ & Ho).
    rewrite Hl' in Hl2. injection Hl2 as <-. unfold owned in Ho. rewrite Ht in Ho.
    rewrite (txLocksOf_delete _ _ tx tx Hl), decide_True in Ho by done. set_solver.
  - intros s Hs. apply (wf_mints _ Hwf') in Hs. rewrite Hm, decide_True in Hs by done. set_solver.
  - intros t. rewrite Hd. pose proof (represents_Delete _ _ tx HE) as [R1 R2 _ _ _]. rewrite R1, R2. naive_solver.
  - intros s l Hlk Ht. rewrite Hv. apply bind_Some in Hlk as (ptr & Hp & Hl').
    destruct (wf_locks _ Hwf _ _ _ Hp) as (l2 & Hl2 & Hs & Hk2 & Ho). rewrite Hl' in Hl2. injection Hl2 as <-.
    rewrite decide_True; [done|]. by eapply wf_owner_covered.
Qed.

Lemma forgetTransactionAndLocks_complete_witness :
  let m' := ForgetTransactionAndLocks exampleMem 1%N in
  1%N ∉ transactionByID (gm_g m') /\
  (forall k s l, lockOn (gm_g m') k s = Some l -> lk_Transaction l <> Some 1%N) /\
  (forall s, transactionByOutputState (gm_g m') !! s <> Some 1%N) /\
  (forall t, 1%N ∉ GetPrerequisites (gm_deps m') t /\ 1%N ∉ GetDependents (gm_deps m') t) /\
  (forall s l, lockOn (gm_g exampleMem) KCreate s = Some l -> lk_Transaction l = Some 1%N -> gm_vis m' !! s = None).
Proof. apply (forgetTransactionAndLocks_complete exampleMem 1%N exampleMem_wf). vm_compute. reflexivity. Defined.

(** Confirming a transaction turns exactly its own locks into confirmed ones: through the
    maps, a lock it owned loses its owner and carries the block, and every other lock is as it was;
    no lock appears or disappears and no private data is dropped. *)
Theorem forgetTransaction_confirms_own_locks m tx block :
  mem_wf m -> tx ∈ transactionByID (gm_g m) ->
  let m' := ForgetTransaction m tx block in
  (forall k s, lockOn (gm_g m') k s
     = (fun l => if decide (lk_Transaction l = Some tx)
                 then MkLock (lk_StateId l) None (lk_Type l) (Some block) else l) <$> lockOn (gm_g m) k s) /\
  gm_vis m' = gm_vis m /\ tx ∉ transactionByID (gm_g m').
Proof.
  intros [Hwf _] Htx m'. destruct (forgetTransaction_fields m tx block Htx) as (Hh & _ & Hi & _ & Hv & _ & _ & Hk).
  fold m' in Hh, Hi, Hv, Hk. split_and!; [|done|rewrite Hi; set_solver].
  intros k s. unfold lockOn. rewrite Hk. destruct (lockMap (gm_g m) k !! s) as [ptr|] eqn:Hp; [|done]. simpl.
  destruct (wf_locks _ Hwf _ _ _ Hp) as (l & Hl & _ & _ & Ho). rewrite Hh, lookup_stampLocks, Hl. simpl.
  case_decide as Hin.
  - destruct (wf_index _ Hwf _ _ Hin) as (_ & l' & Hl' & Ht). rewrite Hl in Hl'. injection Hl' as <-.
    by rewrite decide_True.
  - case_decide as Ht; [|done]. unfold owned in Ho. rewrite Ht in Ho. done.
Qed.

Lemma forgetTransaction_confirms_own_locks_witness :
  let m' := ForgetTransaction exampleMem 2%N 100 in
  (forall k s, lockOn (gm_g m') k s
     = (fun l => if decide (lk_Transaction l = Some 2%N)
                 then MkLock (lk_StateId l) None (lk_Type l) (Some 100%Z) else l) <$> lockOn (gm_g exampleMem) k s) /\
  gm_vis m' = gm_vis exampleMem /\ 2%N ∉ transactionByID (gm_g m').
Proof. apply (forgetTransaction_confirms_own_locks exampleMem 2%N 100 exampleMem_wf). vm_compute. reflexivity. Defined.

(** A lock survives the pruning at a block height exactly when it is still owned or its
    tolerance window has not passed, as long as that window does not exceed 64 bits. *)
Theorem forgetConfirmedLocks_window m height k s l :
  lockOn (gm_g m) k s = Some l ->
  (forall b, lk_ConfirmedAtBlock l = Some b -> u64_range b /\ (b + blockHeightTolerance (gm_g m) < u64_modulus)%Z) ->
  (0 <= blockHeightTolerance (gm_g m))%Z ->
  lockOn (gm_g (ForgetConfirmedLocks m height)) k s = Some l <->
  (is_Some (lk_Transaction l) \/ forall b, lk_ConfirmedAtBlock l = Some b -> (height < b + blockHeightTolerance (gm_g m))%Z).
Proof.
  intros Hl Hb Ht. unfold lockOn in *. rewrite lockMap_ForgetConfirmedLocks.
  apply bind_Some in Hl as (ptr & Hp & Hl). rewrite Hp. simpl.
  unfold lockExpired. rewrite Hl. destruct (lk_Transaction l); simpl; [split; [eauto|done]|].
  destruct (lk_ConfirmedAtBlock l) as [b|]; simpl.
  - destruct (Hb b eq_refl). rewrite u64_add_exact by (done || lia).
    destruct (Z.leb_spec (b + blockHeightTolerance (gm_g m)) height); simpl.
    + split; [done|]. intros [[]|H']; [done|]. specialize (H' b eq_refl). lia.
    + split; [|done]. intros _. right. intros b' [= <-]. done.
  - split; [|done]. intros _. right. done.
Qed.

Lemma forgetConfirmedLocks_window_witness :
  let m := ForgetTransaction exampleMem 2%N 100 in
  let l := MkLock "0x0a" None SPEND (Some 100%Z) in
  lockOn (gm_g (ForgetConfirmedLocks m 104)) KSpend "0x0a" = Some l <->
  (is_Some (lk_Transaction l) \/ forall b, lk_ConfirmedAtBlock l = Some b -> (104 < b + blockHeightTolerance (gm_g m))%Z).
Proof.
  apply (forgetConfirmedLocks_window (ForgetTransaction exampleMem 2%N 100) 104 KSpend "0x0a"
           (MkLock "0x0a" None SPEND (Some 100%Z))).
  - vm_compute. reflexivity.
  - intros b [= <-]. vm_compute. intuition congruence.
  - vm_compute. discriminate.
Defined.

Lemma snapshotView_candidates_ok m node st :
  mem_wf m ->
  st ∈ fst (SnapshotView m node) <->
  (exists id, gm_vis m !! id = Some st) /\ node ∈ sn_AllowedNodes st /\ is_Some (sn_Labels st) /\
  is_Some (lockOn (gm_g m) KCreate (es_Id (sn_State st))) /\ lockOn (gm_g m) KSpend (es_Id (sn_State st)) = None.
Proof.
  intros [Hwf _]. simpl. rewrite list_elem_of_In, filter_In, <-list_elem_of_In, elem_of_GetForNode.
  assert (forall k s, hasLock (lockMap (gm_g m) k) s = true <-> is_Some (lockOn (gm_g m) k s)) as Hlk.
  { intros k s. unfold hasLock, lockOn. destruct (lockMap (gm_g m) k !! s) as [p|] eqn:E; simpl; [|by rewrite is_Some_alt].
    destruct (wf_locks _ Hwf _ _ _ E) as (l & -> & _). split; [eauto|done]. }
  unfold viewCandidate. rewrite andb_true_iff, negb_true_iff, <-not_true_iff_false.
  rewrite (Hlk KCreate), (Hlk KSpend), <-eq_None_not_Some.
  unfold visibleTo. destruct (sn_Labels st) as [lb|].
  - rewrite nodeInAllowedList_spec. naive_solver.
  - split; [naive_solver|]. intros (_ & _ & [? [=]] & _).
Qed.

(** A node assembling a transaction is offered exactly the states that the store may show to
    it, that an in-flight or recently confirmed transaction created, and that none has spent. *)
Theorem snapshotView_candidates m node st :
  mem_wf m ->
  st ∈ fst (SnapshotView m node) <->
  (exists id, gm_vis m !! id = Some st) /\ node ∈ sn_AllowedNodes st /\ is_Some (sn_Labels st) /\
  is_Some (lockOn (gm_g m) KCreate (es_Id (sn_State st))) /\ lockOn (gm_g m) KSpend (es_Id (sn_State st)) = None.
Proof. apply snapshotView_candidates_ok. Qed.

Lemma snapshotView_candidates_witness :
  snapshotB ∈ fst (SnapshotView exampleMem "node1") <->
  (exists id, gm_vis exampleMem !! id = Some snapshotB) /\ "node1" ∈ sn_AllowedNodes snapshotB /\
  is_Some (sn_Labels snapshotB) /\
  is_Some (lockOn (gm_g exampleMem) KCreate "0x0b") /\ lockOn (gm_g exampleMem) KSpend "0x0b" = None.
Proof. exact (snapshotView_candidates exampleMem "node1" snapshotB exampleMem_wf). Defined.

(** Locking the inputs of an assembled transaction makes it wait for exactly the in-flight
    transactions that minted the states it reads or spends, besides those it already waited for. *)
Theorem lockMints_dependencies m reads spends tx E :
  grapher_wf (gm_g m) -> represents (gm_deps m) E ->
  let m' := LockMintsOnReadAndSpend m reads spends tx in
  forall t p, p ∈ GetPrerequisites (gm_deps m') t <->
    E t p \/ (t = tx /\ p <> tx /\ exists st, st ∈ reads ++ spends /\ transactionByOutputState (gm_g m) !! es_Id st = Some p).
Proof.
  intros Hwf HE m' t p. unfold m'. rewrite consumeLocks_eq.
  destruct (consumeLocks_ok READ tx reads (m <| gm_g ::= fun g => addConsumer g tx |>) E) as (W & T & O & _ & R);
    [by apply grapher_wf_addConsumer|unfold addConsumer; set_solver|done|].
  destruct (consumeLocks_ok SPEND tx spends _ _ W T R) as (_ & _ & _ & _ & [R' _ _ _ _]).
  rewrite R'. unfold consumes. rewrite O. simpl. setoid_rewrite elem_of_app. naive_solver.
Qed.

Lemma lockMints_dependencies_witness :
  let m := foldl runGrapherOp (freshMem 5) [OpAddMinter [stateA] 1%N] in
  let m' := LockMintsOnReadAndSpend m [] [stateA] 2%N in
  1%N ∈ GetPrerequisites (gm_deps m') 2%N /\ (1%N ∈ GetPrerequisites (gm_deps m') 1%N <-> False).
Proof.
  pose proof (lockMints_dependencies (foldl runGrapherOp (freshMem 5) [OpAddMinter [stateA] 1%N]) [] [stateA] 2%N
    (fun _ _ => False) (proj1 (runGrapherOps_wf [OpAddMinter [stateA] 1%N] _ (freshMem_wf 5))) represents_empty) as H.
  simpl in H |- *. split.
  - apply H. right. split; [done|]. split; [done|]. exists stateA. split; [set_solver|vm_compute; reflexivity].
  - rewrite H. naive_solver.
Defined.

(** ** Handover to a new coordinator *)

Lemma elem_of_locksOf g k l : l ∈ locksOf g (lockMap g k) <-> exists s, lockOn g k s = Some l.
Proof.
  unfold locksOf, lockOn. rewrite list_elem_of_omap. split.
  - intros ([s p] & Hin%elem_of_map_to_list & Hl). exists s. by rewrite Hin.
  - intros [s (p & Hp & Hl)%bind_Some]. exists (s, p). split; [by apply elem_of_map_to_list|done].
Qed.

Lemma wf_lockOn_state g k s l : grapher_wf g -> lockOn g k s = Some l -> lk_StateId l = s /\ kindOf (lk_Type l) = k.
Proof.
  intros Hwf (p & Hp & Hl)%bind_Some. destruct (wf_locks _ Hwf _ _ _ Hp) as (l' & Hl' & ? & ? & _). by simplify_eq.
Qed.

(** The last part of the message decides which confirmed lock of a state is kept. *)
Lemma confirmedLocks_last A B s l :
  l ∈ B -> lk_StateId l = s -> lk_Transaction l = None -> is_Some (lk_ConfirmedAtBlock l) ->
  (forall l', l' ∈ B -> lk_StateId l' = s -> lk_Transaction l' = None -> l' = l) ->
  confirmedLocks (A ++ B) !! s = Some l.
Proof.
  unfold confirmedLocks. rewrite foldl_app. intros Hin Hs Ht [b Hb] Huniq.
  generalize (foldl (fun acc lock => match lk_Transaction lock, lk_ConfirmedAtBlock lock with
    | None, Some _ => <[lk_StateId lock := lock]> acc | _, _ => acc end)
    (∅ : gmap string SnapshotStateLock) A) as acc.
  assert (forall acc : gmap string SnapshotStateLock, (l ∈ B \/ acc !! s = Some l) ->
    foldl (fun acc lock => match lk_Transaction lock, lk_ConfirmedAtBlock lock with
    | None, Some _ => <[lk_StateId lock := lock]> acc | _, _ => acc end) acc B !! s = Some l) as H; [|auto].
  clear Hin. induction B as [|x B IH]; intros acc Hor; simpl; [set_solver|].
  apply IH; [intros; apply Huniq; set_solver|].
  destruct Hor as [[<-|?]%elem_of_cons|Hacc]; [right; rewrite Ht, Hb; by simplify_map_eq|auto|].
  right. destruct (lk_Transaction x) eqn:Et; [done|]. destruct (lk_ConfirmedAtBlock x) eqn:Ec; [|done].
  destruct (decide (lk_StateId x = s)) as [Hx|]; [|by simplify_map_eq].
  rewrite (Huniq x) by (set_solver || done). subst s. by simplify_map_eq.
Qed.

Lemma lockOn_importLock g s l k s' :
  grapher_wf g ->
  lockOn (importLock g (s, l)) k s'
  = (if decide (s' = s /\ k = kindOf (lk_Type l) /\ lockMap g k !! s = None) then Some l else lockOn g k s').
Proof.
  intros Hwf. rewrite importLock_upd. unfold lockOn.
  destruct (lockMap g (kindOf (lk_Type l)) !! s) as [p|] eqn:E.
  { rewrite decide_False; [done|]. intros (_ & -> & ?). congruence. }
  destruct (upd_fields (kindOf (lk_Type l)) (<[s := length (lockHeap g)]>)
    (g <| lockHeap ::= fun h => h ++ [l] |>)) as (-> & _). rewrite lockMap_upd. cbn [lockHeap field_set].
  assert (forall k, lockMap (g <| lockHeap ::= fun h => h ++ [l] |>) k = lockMap g k) as Hm by by intros [].
  rewrite Hm.
  assert (forall p, lockMap g k !! s' = Some p -> (lockHeap g ++ [l]) !! p = lockHeap g !! p) as Hold.
  { intros p (l' & Hl' & _)%(wf_locks _ Hwf). rewrite Hl'. by apply lookup_app_l_Some. }
  destruct (decide (k = kindOf (lk_Type l))) as [->|Hk].
  - destruct (decide (s' = s)) as [->|Hs].
    + rewrite decide_True by done. rewrite lookup_insert_eq. simpl. by apply list_lookup_middle.
    + rewrite decide_False by naive_solver. rewrite lookup_insert_ne by done.
      destruct (lockMap g _ !! s') eqn:E'; simpl; auto.
  - rewrite decide_False by naive_solver. destruct (lockMap g k !! s') eqn:E'; simpl; auto.
Qed.

Lemma lockOn_importLocks_other kvs g k s :
  Forall importable kvs -> grapher_wf g -> s ∉ kvs.*1 -> lockOn (foldl importLock g kvs) k s = lockOn g k s.
Proof.
  intros HF. revert g. induction HF as [|[s' l] kvs Hkv HF IH]; intros g Hwf Hs; [done|].
  cbn [foldl]. rewrite IH; [|by apply grapher_wf_importLock|set_solver].
  rewrite lockOn_importLock by done. rewrite decide_False; [done|]. set_solver.
Qed.

(** Importing into a grapher that has no lock on [s]: the one confirmed lock kept for [s] decides. *)
Lemma lockOn_Import m snap s l k :
  grapher_wf (gm_g m) -> (forall k, lockMap (gm_g m) k !! s = None) ->
  confirmedLocks (ss_Locks snap) !! s = Some l ->
  lockOn (gm_g (ImportStatesAndLocks m snap)) k s = if decide (k = kindOf (lk_Type l)) then Some l else None.
Proof.
  intros Hwf Hnone Hl. simpl.
  assert (Forall importable (map_to_list (confirmedLocks (ss_Locks snap)))) as HF.
  { apply Forall_forall. intros [s0 l0] Hin%elem_of_map_to_list. by apply confirmedLocks_spec in Hin as (? & ? & ? & ?). }
  pose proof (NoDup_fst_map_to_list (confirmedLocks (ss_Locks snap))) as Hnd.
  apply elem_of_map_to_list in Hl. revert Hl Hnd HF.
  generalize (map_to_list (confirmedLocks (ss_Locks snap))) as kvs.
  intros kvs (A & B & ->)%list_elem_of_split.
  rewrite fmap_app, fmap_cons. intros (_ & HA & [HB _]%NoDup_cons)%NoDup_app [HFA [Hkv HFB]%Forall_cons]%Forall_app.
  rewrite foldl_app. cbn [foldl].
  assert (grapher_wf (foldl importLock (gm_g m) A)) as HwfA.
  { clear -HFA Hwf. revert Hwf. generalize (gm_g m). induction HFA; simpl; auto using grapher_wf_importLock. }
  rewrite lockOn_importLocks_other by (by apply grapher_wf_importLock || done).
  rewrite lockOn_importLock by done.
  assert (s ∉ A.*1) as HsA by (intros H; specialize (HA _ H); set_solver).
  assert (forall k, lockOn (foldl importLock (gm_g m) A) k s = None) as HnA.
  { intros k'. rewrite lockOn_importLocks_other by done. unfold lockOn. by rewrite Hnone. }
  assert (lockMap (foldl importLock (gm_g m) A) k !! s = None) as HmA.
  { specialize (HnA k). unfold lockOn in HnA. destruct (lockMap _ k !! s) as [p|] eqn:E; [|done].
    destruct (wf_locks _ HwfA _ _ _ E) as (l' & Hl' & _). simpl in HnA. congruence. }
  rewrite HnA, HmA. destruct (decide (k = kindOf (lk_Type l))).
  - by rewrite decide_True.
  - rewrite decide_False; naive_solver.
Qed.

(** Handover keeps a confirmed lock that is the only confirmed lock on its state: the new
    coordinator, starting afresh, holds the same lock with the same block. *)
Theorem handover_keeps_single_lock m node tolerance k s l :
  mem_wf m -> lockOn (gm_g m) k s = Some l -> lk_Transaction l = None ->
  (forall k' l', k' <> k -> lockOn (gm_g m) k' s = Some l' -> is_Some (lk_Transaction l')) ->
  lockOn (gm_g (ImportStatesAndLocks (freshMem tolerance) (ExportStatesAndLocks m node))) k s = Some l.
Proof.
  intros [Hwf _] Hl Ht Hother. destruct (wf_lockOn_state _ _ _ _ Hwf Hl) as [Hs Hk].
  assert (is_Some (lk_ConfirmedAtBlock l)) as Hc.
  { pose proof Hl as (p & Hp & Hh)%bind_Some. destruct (wf_locks _ Hwf _ _ _ Hp) as (l' & Hl' & _ & _ & Ho).
    rewrite Hh in Hl'. injection Hl' as <-. unfold owned in Ho. by rewrite Ht in Ho. }
  rewrite (lockOn_Import _ _ s l); [by rewrite decide_True|apply grapher_wf_new|by intros []|].
  simpl. apply (confirmedLocks_last []); try done.
  - rewrite !elem_of_app.
    destruct k; [left|right; left|right; right];
      [apply (elem_of_locksOf _ KCreate)|apply (elem_of_locksOf _ KSpend)|apply (elem_of_locksOf _ KRead)]; eauto.
  - intros l' Hin Hs' Ht'.
    assert (exists k', lockOn (gm_g m) k' s = Some l') as [k' Hl'].
    { rewrite !elem_of_app in Hin.
      destruct Hin as [Hin|[Hin|Hin]];
        [apply (elem_of_locksOf _ KCreate) in Hin|apply (elem_of_locksOf _ KSpend) in Hin|apply (elem_of_locksOf _ KRead) in Hin];
        destruct Hin as [s2 Hin]; destruct (wf_lockOn_state _ _ _ _ Hwf Hin) as [<- _]; rewrite <-Hs'; eauto. }
    destruct (decide (k' = k)) as [->|Hne]; [congruence|]. destruct (Hother k' l' Hne Hl') as [? ?]. congruence.
Qed.

(** A state that was spent and also read by confirmed transactions loses its spend lock on
    handover: the import keeps one confirmed lock per state id, and read locks come last in the
    message.  The new coordinator no longer lists the state among the spent ones. *)
Theorem handover_read_lock_hides_spend m node tolerance s lspend lread :
  mem_wf m ->
  lockOn (gm_g m) KSpend s = Some lspend -> lk_Transaction lspend = None ->
  lockOn (gm_g m) KRead s = Some lread -> lk_Transaction lread = None ->
  let m' := ImportStatesAndLocks (freshMem tolerance) (ExportStatesAndLocks m node) in
  lockOn (gm_g m') KRead s = Some lread /\ lockOn (gm_g m') KSpend s = None.
Proof.
  intros [Hwf _] Hsp _ Hl Ht m'. destruct (wf_lockOn_state _ _ _ _ Hwf Hl) as [Hs Hk].
  assert (is_Some (lk_ConfirmedAtBlock lread)) as Hc.
  { pose proof Hl as (p & Hp & Hh)%bind_Some. destruct (wf_locks _ Hwf _ _ _ Hp) as (l' & Hl' & _ & _ & Ho).
    rewrite Hh in Hl'. injection Hl' as <-. unfold owned in Ho. by rewrite Ht in Ho. }
  assert (confirmedLocks (ss_Locks (ExportStatesAndLocks m node)) !! s = Some lread) as Hconf.
  { simpl. rewrite app_assoc. apply confirmedLocks_last; try done.
    - apply (elem_of_locksOf _ KRead). eauto.
    - intros l' [s2 Hin]%(elem_of_locksOf _ KRead) Hs' _.
      destruct (wf_lockOn_state _ _ _ _ Hwf Hin) as [<- _]. rewrite Hs' in Hin. congruence. }
  pose proof (fun k => lockOn_Import (freshMem tolerance) (ExportStatesAndLocks m node) s lread k
    (grapher_wf_new tolerance) ltac:(by intros []) Hconf) as HI.
  unfold m'. by rewrite !HI, Hk.
Qed.

(** Transaction 1 spent a state that transaction 3 read, and both are confirmed. *)
Definition confirmedOps : list grapherOp :=
  [OpLockMintsOnReadAndSpend [stateA] [] 3%N; OpLockMintsOnReadAndSpend [] [stateA; stateB] 1%N;
   OpForgetTransaction 3%N 99; OpForgetTransaction 1%N 100].

Definition confirmedMem : grapherMem := foldl runGrapherOp (freshMem 5) confirmedOps.

Lemma handover_keeps_single_lock_witness :
  lockOn (gm_g (ImportStatesAndLocks (freshMem 5) (ExportStatesAndLocks confirmedMem "node2"))) KSpend "0x0b"
  = Some (MkLock "0x0b" None SPEND (Some 100%Z)).
Proof.
  apply (handover_keeps_single_lock confirmedMem "node2" 5 KSpend "0x0b" (MkLock "0x0b" None SPEND (Some 100%Z))).
  - exact (runGrapherOps_wf confirmedOps _ (freshMem_wf 5)).
  - vm_compute. reflexivity.
  - reflexivity.
  - intros k' l' Hk'. destruct k'; [|congruence|]; vm_compute; discriminate.
Defined.

Lemma handover_read_lock_hides_spend_witness :
  let m' := ImportStatesAndLocks (freshMem 5) (ExportStatesAndLocks confirmedMem "node2") in
  lockOn (gm_g m') KRead "0x0a" = Some (MkLock "0x0a" None READ (Some 99%Z)) /\ lockOn (gm_g m') KSpend "0x0a" = None.
Proof.
  apply (handover_read_lock_hides_spend confirmedMem "node2" 5 "0x0a"
           (MkLock "0x0a" None SPEND (Some 100%Z)) (MkLock "0x0a" None READ (Some 99%Z))).
  - exact (runGrapherOps_wf confirmedOps _ (freshMem_wf 5)).
  - vm_compute. reflexivity.
  - reflexivity.
  - vm_compute. reflexivity.
  - reflexivity.
Defined.

Definition consumeRead (tx : uuid) (st : EndorsableState) (g : grapher) : grapher :=
  updLockMap KRead (<[es_Id st := length (lockHeap g)]>) (newLock tx (es_Id st) READ g).

Lemma gm_g_readOne m st tx :
  gm_g (LockMintsOnReadAndSpend m [st] [] tx) = consumeRead tx st (addConsumer (gm_g m) tx).
Proof. unfold LockMintsOnReadAndSpend. cbn [foldl]. unfold readLock, dependOnMinter. by case_match. Qed.

Lemma transactionByID_addConsumer g tx : transactionByID (addConsumer g tx) = {[tx]} ∪ transactionByID g.
Proof. done. Qed.

Lemma consumeRead_fields tx st g :
  lockMap (consumeRead tx st g) KRead = <[es_Id st := length (lockHeap g)]> (lockMap g KRead) /\
  lockHeap (consumeRead tx st g) = lockHeap g ++ [MkLock (es_Id st) (Some tx) READ None] /\
  (forall t, txLocksOf (consumeRead tx st g) t = if decide (t = tx) then txLocksOf g tx ++ [length (lockHeap g)] else txLocksOf g t) /\
  transactionByID (consumeRead tx st g) = transactionByID g.
Proof. split_and!; [done|done| |done]. intros t. unfold txLocksOf. simpl. case_decide; by simplify_map_eq. Qed.

Lemma forgetTransactionAndLocks_covered m tx k s ptr :
  tx ∈ transactionByID (gm_g m) -> ptr ∈ txLocksOf (gm_g m) tx -> coversLock (lockHeap (gm_g m)) k s ptr ->
  lockOn (gm_g (ForgetTransactionAndLocks m tx)) k s = None /\
  transactionByID (gm_g (ForgetTransactionAndLocks m tx)) = transactionByID (gm_g m) ∖ {[tx]}.
Proof.
  intros Hin Hp Hc. destruct (forgetTransactionAndLocks_fields m tx Hin) as (_ & _ & Hi & _ & _ & _ & Hk & _).
  split; [|done]. unfold lockOn. rewrite Hk, decide_True; [done|]. apply Exists_exists. eauto.
Qed.

Lemma two_readers g st tx1 tx2 :
  tx1 <> tx2 ->
  let g2 := consumeRead tx2 st (addConsumer (consumeRead tx1 st (addConsumer g tx1)) tx2) in
  lockOn g2 KRead (es_Id st) = Some (MkLock (es_Id st) (Some tx2) READ None) /\
  length (lockHeap g) ∈ txLocksOf g2 tx1 /\ coversLock (lockHeap g2) KRead (es_Id st) (length (lockHeap g)) /\
  tx1 ∈ transactionByID g2 /\ tx2 ∈ transactionByID g2.
Proof.
  intros Hne g2. set (g1 := consumeRead tx1 st (addConsumer g tx1)) in g2.
  destruct (consumeRead_fields tx1 st (addConsumer g tx1)) as (_ & Hh1 & Ht1 & Hi1).
  destruct (consumeRead_fields tx2 st (addConsumer g1 tx2)) as (Hm2 & Hh2 & Ht2 & Hi2).
  rewrite transactionByID_addConsumer in Hi1, Hi2.
  fold g1 in Hh1, Ht1, Hi1. fold g2 in Hm2, Hh2, Ht2, Hi2. clearbody g2. clearbody g1.
  cbn [lockHeap addConsumer field_set] in Hh1, Hh2, Hm2, Ht1. rewrite Hh1 in Hh2. split_and!.
  - unfold lockOn. rewrite Hm2, lookup_insert_eq, Hh2, Hh1. simpl. by apply list_lookup_middle.
  - rewrite Ht2, decide_False by done. change (length (lockHeap g) ∈ txLocksOf g1 tx1).
    rewrite Ht1, decide_True by done. set_solver.
  - exists (MkLock (es_Id st) (Some tx1) READ None). split_and!; [|done..].
    rewrite Hh2, <-app_assoc. by apply list_lookup_middle.
  - rewrite Hi2, Hi1. set_solver.
  - rewrite Hi2. set_solver.
Qed.

(** Two in-flight transactions may read the same state, but one entry holds the read lock:
    forgetting the first reader removes the lock that the second reader still owns. *)
Theorem forget_drops_other_readers_lock m0 st tx1 tx2 :
  tx1 <> tx2 ->
  let m := LockMintsOnReadAndSpend (LockMintsOnReadAndSpend m0 [st] [] tx1) [st] [] tx2 in
  lockOn (gm_g m) KRead (es_Id st) = Some (MkLock (es_Id st) (Some tx2) READ None) /\
  tx2 ∈ transactionByID (gm_g (ForgetTransactionAndLocks m tx1)) /\
  lockOn (gm_g (ForgetTransactionAndLocks m tx1)) KRead (es_Id st) = None.
Proof.
  intros Hne m. destruct (two_readers (gm_g m0) st tx1 tx2 Hne) as (Hl & Hp & Hc & H1 & H2).
  rewrite <-!gm_g_readOne in Hl, Hp, Hc, H1, H2.
  destruct (forgetTransactionAndLocks_covered m tx1 KRead (es_Id st) _ H1 Hp Hc) as [Hn Hi].
  split_and!; [done| |done]. rewrite Hi. set_solver.
Qed.

Lemma forget_drops_other_readers_lock_witness :
  let m := LockMintsOnReadAndSpend (LockMintsOnReadAndSpend (freshMem 5) [stateA] [] 1%N) [stateA] [] 2%N in
  lockOn (gm_g m) KRead "0x0a" = Some (MkLock "0x0a" (Some 2%N) READ None) /\
  2%N ∈ transactionByID (gm_g (ForgetTransactionAndLocks m 1%N)) /\
  lockOn (gm_g (ForgetTransactionAndLocks m 1%N)) KRead "0x0a" = None.
Proof. apply (forget_drops_other_readers_lock (freshMem 5) stateA 1%N 2%N). discriminate. Defined.
