(* ===== verification/StateView.v ===== *)
(** * The views served to assembling originators (coordinator/stateview)

    While a transaction is assembling, its originator may query the point in time that the
    coordinator captured when it sent the assemble request.  The evaluation of the query belongs to
    the state manager, which is an interface here. *)

From S2P Require Import Prelude HexBytes DependencyTracker StateVisibility Grapher.
Open Scope string_scope.
Open Scope list_scope.

(** Assemble request ids are the text of uuids. *)
Record capturedView : Type := MkCapturedView {
  cv_node : string;
  cv_candidates : list SnapshotState;
  cv_spentStateIDs : list (option string)
}.

(** [provider.views] *)
Abbreviation providerViews := (gmap N capturedView).

Record QueriedState : Type := MkQueriedState { qs_State : EndorsableState; qs_Created : Z }.

Record QueryAvailableStatesRequest : Type := MkQueryRequest {
  qr_RequestId : string;
  qr_AssembleRequestId : uuid;
  qr_SchemaId : string;
  qr_QueryJson : string
}.

Record GetSpentStateIDsRequest : Type := MkSpentRequest {
  sr_RequestId : string;
  sr_AssembleRequestId : uuid
}.

(** The messages of the provider, each with its destination. *)
Inductive ViewMessage : Type :=
| SendQueryAvailableStatesResponse (node : string) (requestID : string) (states : list QueriedState)
| SendGetSpentStateIDsResponse (node : string) (requestID : string) (spentStateIDs : list (option string))
| SendStateViewError (node : string) (requestID : string) (cause : error).

(** What the provider needs of [components.StateManager]: a query language and its evaluation over
    a list of candidate states. *)
Class InMemoryQuery : Type := {
  QueryJSON : Type;
  json_Unmarshal : string -> option QueryJSON;
  FindMatchingInMemoryStates : string -> string -> QueryJSON -> list SnapshotState -> res (list QueriedState)
}.

(** The promise: every result is one of the candidates. *)
Class InMemoryQueryLaws (Q : InMemoryQuery) : Prop := {
  find_from_candidates : forall domain schema jq candidates out,
    FindMatchingInMemoryStates domain schema jq candidates = Ok out ->
    forall q, q ∈ out -> exists c, c ∈ candidates /\ qs_State q = sn_State c /\ qs_Created q = sn_Created c
}.

Definition CaptureSnapshot (m : grapherMem) (views : providerViews) (assembleRequestID : uuid) (node : string) : providerViews :=
  match views !! assembleRequestID with
  | Some _ => views
  | None =>
      let '(candidates, spentStateIDs) := SnapshotView m node in
      <[assembleRequestID := MkCapturedView node candidates spentStateIDs]> views
  end.

Definition DeleteSnapshot (views : providerViews) (assembleRequestID : uuid) : providerViews :=
  delete assembleRequestID views.

Definition lookupView (views : providerViews) (fromNode : string) (assembleRequestID : uuid) : res capturedView :=
  match views !! assembleRequestID with
  | None => Err (MsgSequencerStateViewUnknownAssemble assembleRequestID)
  | Some view =>
      if String.eqb (cv_node view) fromNode then Ok view
      else Err (MsgSequencerStateViewWrongNode assembleRequestID fromNode)
  end.

Section Provider.
Context `{Q : InMemoryQuery} (domainName : string).

(** The one message each request is answered with. *)
Definition HandleQueryAvailableStates (views : providerViews) (fromNode : string) (req : QueryAvailableStatesRequest) : ViewMessage :=
  let sendError e := SendStateViewError fromNode (qr_RequestId req) e in
  match lookupView views fromNode (qr_AssembleRequestId req) with
  | Ok view =>
      match ParseBytes32Ctx (qr_SchemaId req) with
      | Ok schemaID =>
          match json_Unmarshal (qr_QueryJson req) with
          | Some jq =>
              match FindMatchingInMemoryStates domainName schemaID jq (cv_candidates view) with
              | Ok states => SendQueryAvailableStatesResponse fromNode (qr_RequestId req) states
              | Err e => sendError e
              | Crash _ => sendError (ErrExternal "state manager")
              end
          | None => sendError (MsgSequencerStateViewInvalid (qr_RequestId req) (ErrJSON (qr_QueryJson req)))
          end
      | Err e => sendError (MsgSequencerStateViewInvalid (qr_RequestId req) e)
      | Crash _ => sendError (ErrExternal "unreachable")
      end
  | Err e => sendError e
  | Crash _ => sendError (ErrExternal "unreachable")
  end.

Definition HandleGetSpentStateIDs (views : providerViews) (fromNode : string) (req : GetSpentStateIDsRequest) : ViewMessage :=
  match lookupView views fromNode (sr_AssembleRequestId req) with
  | Ok view => SendGetSpentStateIDsResponse fromNode (sr_RequestId req) (cv_spentStateIDs view)
  | Err e => SendStateViewError fromNode (sr_RequestId req) e
  | Crash _ => SendStateViewError fromNode (sr_RequestId req) (ErrExternal "unreachable")
  end.
End Provider.

(** ** What a view discloses *)

(** The history of the provider: captures, each from the grapher of that moment, and deletions. *)
Inductive viewOp : Type :=
| OpCapture (m : grapherMem) (request : uuid) (node : string)
| OpDeleteSnapshot (request : uuid).

Definition runViewOp (views : providerViews) (op : viewOp) : providerViews :=
  match op with
  | OpCapture m request node => CaptureSnapshot m views request node
  | OpDeleteSnapshot request => DeleteSnapshot views request
  end.

(** Every open view was captured, from some grapher memory of the history, for its own node. *)
Definition views_captured (ops : list viewOp) (views : providerViews) : Prop :=
  forall request view, views !! request = Some view ->
    exists m, OpCapture m request (cv_node view) ∈ ops /\
      (cv_candidates view, cv_spentStateIDs view) = SnapshotView m (cv_node view).

Lemma views_captured_run ops : views_captured ops (foldl runViewOp ∅ ops).
Proof.
  induction ops as [|op ops IH] using rev_ind; [intros r v H; cbn [foldl] in H; by rewrite lookup_empty in H|].
  rewrite foldl_app. cbn [foldl]. intros r v Hv.
  assert (forall views : providerViews, views !! r = Some v -> views_captured ops views ->
    exists m, OpCapture m r (cv_node v) ∈ ops ++ [op] /\ (cv_candidates v, cv_spentStateIDs v) = SnapshotView m (cv_node v)) as Hold.
  { intros views H Hc. destruct (Hc _ _ H) as (m & ? & ?). exists m. split; [apply elem_of_app; auto|done]. }
  destruct op as [m r' node|r']; cbn [runViewOp] in Hv.
  - unfold CaptureSnapshot in Hv. destruct (foldl runViewOp ∅ ops !! r') eqn:E; [eauto|].
    destruct (SnapshotView m node) as [cands spent] eqn:Es.
    destruct (decide (r = r')) as [->|]; simplify_map_eq; [|eauto].
    exists m. split; [apply elem_of_app; right; by apply list_elem_of_singleton|by rewrite Es].
  - unfold DeleteSnapshot in Hv. destruct (decide (r = r')) as [->|]; simplify_map_eq. eauto.
Qed.

(** Whatever the history of captures and deletions, a state that a query response carries to
    a node comes from a view captured for that same node, and at that capture it was a state the node
    was allowed to see, created ahead of the chain and unspent. *)
Theorem query_response_confined `{Q : InMemoryQuery} `{!InMemoryQueryLaws Q} domain ops fromNode req node rid states q :
  (forall m r n, OpCapture m r n ∈ ops -> mem_wf m) ->
  HandleQueryAvailableStates domain (foldl runViewOp ∅ ops) fromNode req
    = SendQueryAvailableStatesResponse node rid states ->
  q ∈ states ->
  node = fromNode /\ exists m st,
    OpCapture m (qr_AssembleRequestId req) fromNode ∈ ops /\
    qs_State q = sn_State st /\ fromNode ∈ sn_AllowedNodes st /\
    (exists id, gm_vis m !! id = Some st) /\
    is_Some (lockOn (gm_g m) KCreate (es_Id (sn_State st))) /\ lockOn (gm_g m) KSpend (es_Id (sn_State st)) = None.
Proof.
  intros Hwf. unfold HandleQueryAvailableStates, lookupView.
  destruct (foldl runViewOp ∅ ops !! _) as [view|] eqn:Ev; [|done].
  destruct (String.eqb_spec (cv_node view) fromNode) as [<-|]; [|done].
  destruct (ParseBytes32Ctx _) as [schema|?|?]; [|done..]. destruct (json_Unmarshal _) as [jq|]; [|done].
  destruct (FindMatchingInMemoryStates _ _ _ _) as [out|?|?] eqn:Ef; [|done..].
  intros [= <- <- <-] Hq. split; [done|].
  destruct (find_from_candidates _ _ _ _ _ Ef q Hq) as (c & Hc & Hs & _).
  destruct (views_captured_run ops _ _ Ev) as (m & Hcap & Hsv).
  exists m, c. assert (c ∈ fst (SnapshotView m (cv_node view))) as Hin by (by rewrite <-Hsv).
  apply snapshotView_candidates_ok in Hin as (? & ? & ? & ? & ?); [|by eapply Hwf]. done.
Qed.

(** A state manager that returns every candidate of the schema's name. *)
#[local] Instance anyQuery : InMemoryQuery := {|
  QueryJSON := unit;
  json_Unmarshal := fun s => if String.eqb s "{}" then Some tt else None;
  FindMatchingInMemoryStates := fun _ _ _ candidates =>
    Ok ((fun c => MkQueriedState (sn_State c) (sn_Created c)) <$> candidates)
|}.

#[local] Instance anyQueryLaws : InMemoryQueryLaws anyQuery.
Proof.
  constructor. intros domain schema jq candidates out [= <-] q (c & -> & Hc)%list_elem_of_fmap. eauto.
Qed.

Definition zeros32 : string := "0x0000000000000000000000000000000000000000000000000000000000000000".
Definition exampleRequest : QueryAvailableStatesRequest := MkQueryRequest "req1" 9%N zeros32 "{}".

Lemma query_response_confined_witness :
  "node1" = "node1" /\ exists m st,
    OpCapture m 9%N "node1" ∈ [OpCapture exampleMem 9%N "node1"] /\
    stateB = sn_State st /\ "node1" ∈ sn_AllowedNodes st /\
    (exists id, gm_vis m !! id = Some st) /\
    is_Some (lockOn (gm_g m) KCreate (es_Id (sn_State st))) /\ lockOn (gm_g m) KSpend (es_Id (sn_State st)) = None.
Proof.
  apply (query_response_confined "domain1" [OpCapture exampleMem 9%N "node1"] "node1" exampleRequest "node1" "req1"
           [MkQueriedState stateB 7] (MkQueriedState stateB 7)).
  - intros m r n H%list_elem_of_singleton. injection H as -> -> ->. exact exampleMem_wf.
  - vm_compute. reflexivity.
  - left.
Defined.
