(* ===== verification/TxTypes.v ===== *)
(** * The data of a coordinated transaction

    The private transaction and its assembly (internal/components/transaction.go and the messages
    of toolkit/proto it embeds), the states and events of the coordinator's transaction machine
    (coordinator/transaction/state_machine.go, events.go), and the messages it sends. *)

From S2P Require Import Prelude StateVisibility.
Open Scope list_scope.

(** ** Attestation *)

Inductive AttestationType : Type :=
| AttestationType_SIGN
| AttestationType_ENDORSE
| AttestationType_other (value : Z).

#[export] Instance AttestationType_eq_dec : EqDecision AttestationType.
Proof. solve_decision. Defined.

Record AttestationRequest : Type := MkAttestationRequest {
  ar_Name : string;
  ar_AttestationType : AttestationType;
  ar_Algorithm : string;
  ar_VerifierType : string;
  ar_Payload : string;
  ar_PayloadType : string;
  ar_Parties : list string;
  ar_Threshold : Z (* GetThreshold(): 0 when unset; an int32 *)
}.

Record ResolvedVerifier : Type := MkResolvedVerifier {
  rv_Lookup : string;
  rv_Algorithm : string;
  rv_VerifierType : string;
  rv_Verifier : string
}.

Inductive AttestationConstraint : Type :=
| ENDORSER_MUST_SUBMIT
| AttestationConstraint_other (value : Z).

Record AttestationResult : Type := MkAttestationResult {
  at_Name : string;
  at_AttestationType : AttestationType;
  at_Verifier : option ResolvedVerifier; (* a pointer, nil when the sender left it out *)
  at_Payload : string;
  at_Constraints : list AttestationConstraint
}.

(** ** Text that ends in receipts: the sequencer's coded messages, and text from elsewhere *)
Inductive FailureText : Type :=
| Text (s : string)
| MsgTxMgrDependencyFailed (id : uuid) (* PD012256 *)
| MsgSequencerAssembleRevert (reason : FailureText)
| MsgSequencerInternalErrorText (cause : error)
| MsgSequencerEndorseRevert (reasons : list (string * string)) (* party, reason *)
| MsgTxMgrRevertedDecodedData (reason : string).

(** [strings.HasPrefix(failureMessage, "PD012256")] *)
Definition hasPrefixPD012256 (t : FailureText) : bool :=
  match t with
  | Text s => String.prefix "PD012256" s
  | MsgTxMgrDependencyFailed _ => true
  | _ => false
  end.

Definition emptyText (t : FailureText) : bool := match t with Text s => String.eqb s "" | _ => false end.

(** ** Assembly *)

Inductive AssemblyResult : Type :=
| AssembleTransactionResponse_OK
| AssembleTransactionResponse_REVERT
| AssembleTransactionResponse_PARK
| AssembleTransactionResponse_other (value : Z).

#[export] Instance AssemblyResult_eq_dec : EqDecision AssemblyResult.
Proof. solve_decision. Defined.

(** [prototk.NewState]: a potential state, without an id. *)
Record NewState : Type := MkNewState {
  ns_SchemaId : string;
  ns_StateDataJson : string;
  ns_DistributionList : list string
}.

(** [prototk.TransactionPostAssembly] *)
Record PostAssemblyProto : Type := MkPostAssemblyProto {
  pp_AssemblyResult : AssemblyResult;
  pp_BlockContext : string;
  pp_OutputStatesPotential : list NewState;
  pp_InfoStatesPotential : list NewState;
  pp_InputStates : list EndorsableState;
  pp_ReadStates : list EndorsableState;
  pp_AttestationPlan : list AttestationRequest;
  pp_Signatures : list AttestationResult;
  pp_Endorsements : list AttestationResult;
  pp_DomainData : option string;
  pp_RevertReason : option FailureText;
  pp_ResolvedVerifiers : list ResolvedVerifier
}.
#[export] Instance PostAssemblyProto_rebuild : Rebuild PostAssemblyProto := fun p =>
  MkPostAssemblyProto (pp_AssemblyResult p) (pp_BlockContext p) (pp_OutputStatesPotential p) (pp_InfoStatesPotential p)
    (pp_InputStates p) (pp_ReadStates p) (pp_AttestationPlan p) (pp_Signatures p) (pp_Endorsements p) (pp_DomainData p)
    (pp_RevertReason p) (pp_ResolvedVerifiers p).

(** [components.TransactionPostAssembly]; a [StateWithLabels] is known by its labels. *)
Record TransactionPostAssembly : Type := MkPostAssembly {
  pa_AssembleResponse : PostAssemblyProto;
  pa_OutputStates : list EndorsableState;
  pa_OutputStatesWithLabels : list (option StateLabels);
  pa_InfoStates : list EndorsableState;
  pa_InfoStatesWithLabels : list (option StateLabels);
  pa_CollectedEndorsements : list AttestationResult
}.
#[export] Instance TransactionPostAssembly_rebuild : Rebuild TransactionPostAssembly := fun p =>
  MkPostAssembly (pa_AssembleResponse p) (pa_OutputStates p) (pa_OutputStatesWithLabels p) (pa_InfoStates p)
    (pa_InfoStatesWithLabels p) (pa_CollectedEndorsements p).

Inductive Intent : Type :=
| SEND_TRANSACTION
| PREPARE_TRANSACTION
| CALL
| Intent_other (value : Z).

Record TransactionSpecification : Type := MkTransactionSpecification {
  ts_From : string;
  ts_Intent : Intent;
  ts_Rest : string
}.

Record ResolveVerifierRequest : Type := MkResolveVerifierRequest {
  rvr_Lookup : string;
  rvr_Algorithm : string;
  rvr_VerifierType : string
}.

(** [prototk.TransactionPreAssembly]; a chained dependency is the text of an id, [None] when the
    text does not parse. *)
Record TransactionPreAssembly : Type := MkPreAssembly {
  pre_TransactionSpecification : TransactionSpecification;
  pre_RequiredVerifiers : list ResolveVerifierRequest;
  pre_ChainedDependsOn : list (option uuid)
}.

(** [components.PrivateTransaction]; what the domain prepared is opaque. *)
Record PrivateTransaction : Type := MkPrivateTransaction {
  pt_ID : uuid;
  pt_Domain : string;
  pt_Address : string;
  pt_Intent : Intent;
  pt_PreAssembly : option TransactionPreAssembly;
  pt_ResolvedVerifiers : list ResolvedVerifier;
  pt_PostAssembly : option TransactionPostAssembly;
  pt_Signer : string;
  pt_PreparedPublicTransaction : option string;
  pt_PreparedPrivateTransaction : option string;
  pt_PreparedMetadata : option string
}.
#[export] Instance PrivateTransaction_rebuild : Rebuild PrivateTransaction := fun p =>
  MkPrivateTransaction (pt_ID p) (pt_Domain p) (pt_Address p) (pt_Intent p) (pt_PreAssembly p) (pt_ResolvedVerifiers p) (pt_PostAssembly p) (pt_Signer p)
    (pt_PreparedPublicTransaction p) (pt_PreparedPrivateTransaction p) (pt_PreparedMetadata p).

Definition CleanUpPostAssemblyData (pt : PrivateTransaction) : PrivateTransaction :=
  pt <| pt_PostAssembly := None |> <| pt_PreparedPublicTransaction := None |>
     <| pt_PreparedPrivateTransaction := None |> <| pt_PreparedMetadata := None |>.

Inductive OnChainLocationType : Type := NotOnChain | OnChainTransaction | OnChainEvent.

Record OnChainLocation : Type := MkOnChainLocation {
  ocl_Type : OnChainLocationType;
  ocl_TransactionHash : string;
  ocl_BlockNumber : Z;
  ocl_TransactionIndex : Z;
  ocl_LogIndex : Z;
  ocl_Source : option string
}.

(** ** Dispatch: syncpoints/dispatch.go *)

Record ChainedPrivateTransaction : Type := MkChainedPrivateTransaction {
  cpt_NewTransactionID : option uuid; (* NewTransaction.Transaction.ID, when all three are set *)
  cpt_ChainedDependsOn : list uuid
}.

Record TransactionDispatch : Type := MkTransactionDispatch {
  td_PublicDispatches : list string;
  td_PrivateDispatches : list ChainedPrivateTransaction;
  td_PreparedTransactions : list string
}.

Record PendingDispatch : Type := MkPendingDispatch {
  pd_TransactionID : uuid;
  pd_Dispatch : TransactionDispatch;
  pd_StatesToWrite : list (option StateLabels)
}.

(** [components.PrepareTransactionResult]: what the domain prepared. *)
Record PrepareTransactionResult : Type := MkPrepareResult {
  pr_PreparedPublicTransaction : option string;
  pr_PreparedPrivateTransaction : option string;
  pr_Signer : string
}.

(** ** States and events *)

Inductive State : Type :=
| State_Initial
| State_Pooled
| State_PreAssembly_Blocked
| State_Assembling
| State_Signing
| State_Reverted
| State_Endorsement_Gathering
| State_Blocked
| State_Confirming_Dispatchable
| State_Preparing
| State_Ready_For_Dispatch
| State_Dispatched
| State_Confirmed
| State_Final
| State_Evicted.

#[export] Instance State_eq_dec : EqDecision State.
Proof. solve_decision. Defined.

Inductive EventType : Type :=
| Event_HeartbeatInterval
| Event_Delegated
| Event_DependencySelectedForAssemble
| Event_Selected
| Event_AssembleRequestSent
| Event_AssembleSuccess
| Event_AssembleRevert
| Event_AssembleError
| Event_AssembleRequestRejected
| Event_AssembleCancelled
| Event_Signed
| Event_SignError
| Event_Endorsed
| Event_EndorseRevert
| Event_EndorseError
| Event_EndorseRequestRejected
| Event_DependencyReady
| Event_DependencyReset
| Event_DependencyConfirmedReverted
| Event_DispatchRequestApproved
| Event_DispatchRequestRejected
| Event_Dispatched
| Event_Collected
| Event_NonceAllocated
| Event_Submitted
| Event_ConfirmedSuccess
| Event_ConfirmedReverted
| Event_RequestTimeoutInterval
| Event_StateTimeoutInterval
| Event_StateTransition
| Event_PreDispatchRequestRejected
| Event_ChainedDependencyFailed
| Event_ChainedDependencyEvicted
| Event_PreAssembleDependencyTerminated
| Event_PrepareSucceeded
| Event_PrepareFailed.

#[export] Instance EventType_eq_dec : EqDecision EventType.
Proof. solve_decision. Defined.

Inductive RejectionReason : Type :=
| RejectionReason_BLOCK_HEIGHT_TOLERANCE
| RejectionReason_NOT_CURRENT_DELEGATE
| RejectionReason_TRANSACTION_UNKNOWN
| RejectionReason_ENDORSER_IS_ACTIVE_COORDINATOR
| RejectionReason_PRIVATE_STATE_DATA_PENDING
| RejectionReason_other (value : Z).

#[export] Instance RejectionReason_eq_dec : EqDecision RejectionReason.
Proof. solve_decision. Defined.

(** One constructor per event struct; the transaction it is addressed to is the machine it is
    handed to.  A post-assembly that the struct holds by pointer is optional. *)
Inductive Event : Type :=
| HeartbeatIntervalEvent
| DelegatedEvent
| SelectedEvent
| AssembleCancelledEvent
| AssembleRequestSentEvent
| AssembleSuccessEvent (PostAssembly : PostAssemblyProto) (RequestID : uuid)
| AssembleRevertEvent (PostAssembly : PostAssemblyProto) (RequestID : uuid)
| AssembleErrorEvent (RequestID : uuid)
| SignedEvent (Result : option AttestationResult) (PostAssembly : option PostAssemblyProto) (RequestID : uuid)
| SignErrorEvent (RequestID : uuid)
| EndorsedEvent (Endorsement : option AttestationResult) (RequestID : uuid)
| EndorseRevertEvent (Party RevertReason AttestationRequestName : string) (RequestID : uuid)
| EndorseErrorEvent (RequestID : uuid) (Party AttestationRequestName : string)
| EndorseRequestRejectedEvent (Party AttestationRequestName : string) (RequestID : uuid) (Reason : RejectionReason)
| AssembleRequestRejectedEvent (RequestID : uuid) (Reason : RejectionReason)
| DispatchRequestApprovedEvent (RequestID : uuid)
| CollectedEvent (SignerAddress : string)
| DispatchedEvent (PublicTransaction : bool)
| NonceAllocatedEvent (Nonce : Z)
| SubmittedEvent (SubmissionHash : string)
| ConfirmedSuccessEvent (Nonce : option Z) (Hash : string) (OnChain : OnChainLocation)
| ConfirmedRevertedEvent (Nonce : option Z) (Hash : string) (FailureMessage : FailureText)
    (RevertReason : option string) (OnChain : OnChainLocation)
| DependencySelectedForAssemblyEvent (SourceTransactionID : uuid)
| DependencyResetEvent (SourceTransactionID : uuid)
| DependencyConfirmedRevertedEvent (SourceTransactionID : uuid)
| DependencyReadyEvent
| RequestTimeoutIntervalEvent
| StateTimeoutIntervalEvent
| StateTransitionEvent (FromState ToState : State)
| PreDispatchRequestRejectedEvent (RequestID : uuid) (Reason : RejectionReason)
| ChainedDependencyFailedEvent (FailedTxID : uuid)
| ChainedDependencyEvictedEvent (EvictedTxID : uuid)
| PrepareSucceededEvent (PrepareID : uuid) (Dispatch : PendingDispatch)
| PrepareFailedEvent (PrepareID : uuid)
| PreAssembleDependencyTerminatedEvent.

(** The [Type()] methods.  No event struct has the type [Event_DispatchRequestRejected]. *)
Definition Type_of (event : Event) : EventType :=
  match event with
  | HeartbeatIntervalEvent => Event_HeartbeatInterval
  | DelegatedEvent => Event_Delegated
  | SelectedEvent => Event_Selected
  | AssembleCancelledEvent => Event_AssembleCancelled
  | AssembleRequestSentEvent => Event_AssembleRequestSent
  | AssembleSuccessEvent _ _ => Event_AssembleSuccess
  | AssembleRevertEvent _ _ => Event_AssembleRevert
  | AssembleErrorEvent _ => Event_AssembleError
  | SignedEvent _ _ _ => Event_Signed
  | SignErrorEvent _ => Event_SignError
  | EndorsedEvent _ _ => Event_Endorsed
  | EndorseRevertEvent _ _ _ _ => Event_EndorseRevert
  | EndorseErrorEvent _ _ _ => Event_EndorseError
  | EndorseRequestRejectedEvent _ _ _ _ => Event_EndorseRequestRejected
  | AssembleRequestRejectedEvent _ _ => Event_AssembleRequestRejected
  | DispatchRequestApprovedEvent _ => Event_DispatchRequestApproved
  | CollectedEvent _ => Event_Collected
  | DispatchedEvent _ => Event_Dispatched
  | NonceAllocatedEvent _ => Event_NonceAllocated
  | SubmittedEvent _ => Event_Submitted
  | ConfirmedSuccessEvent _ _ _ => Event_ConfirmedSuccess
  | ConfirmedRevertedEvent _ _ _ _ _ => Event_ConfirmedReverted
  | DependencySelectedForAssemblyEvent _ => Event_DependencySelectedForAssemble
  | DependencyResetEvent _ => Event_DependencyReset
  | DependencyConfirmedRevertedEvent _ => Event_DependencyConfirmedReverted
  | DependencyReadyEvent => Event_DependencyReady
  | RequestTimeoutIntervalEvent => Event_RequestTimeoutInterval
  | StateTimeoutIntervalEvent => Event_StateTimeoutInterval
  | StateTransitionEvent _ _ => Event_StateTransition
  | PreDispatchRequestRejectedEvent _ _ => Event_PreDispatchRequestRejected
  | ChainedDependencyFailedEvent _ => Event_ChainedDependencyFailed
  | ChainedDependencyEvictedEvent _ => Event_ChainedDependencyEvicted
  | PrepareSucceededEvent _ _ => Event_PrepareSucceeded
  | PrepareFailedEvent _ => Event_PrepareFailed
  | PreAssembleDependencyTerminatedEvent => Event_PreAssembleDependencyTerminated
  end.

(** ** Messages to other nodes *)

Record AssembleRequest : Type := MkAssembleRequest {
  asr_TransactionId : uuid;
  asr_AssembleRequestId : uuid;
  asr_ContractAddress : string;
  asr_CoordinatorBlockHeight : Z;
  asr_ExpiryTimeUnixMs : Z;
  asr_BlockHeightTolerance : Z
}.

Record EndorsementRequest : Type := MkEndorsementRequest {
  er_IdempotencyKey : uuid;
  er_ContractAddress : string;
  er_AttestationRequest : AttestationRequest;
  er_Party : string;
  er_TransactionSpecification : TransactionSpecification;
  er_BlockContext : string;
  er_Verifiers : list ResolvedVerifier;
  er_Signatures : list AttestationResult;
  er_InputStates : list EndorsableState;
  er_ReadStates : list EndorsableState;
  er_OutputStates : list EndorsableState;
  er_InfoStates : list EndorsableState;
  er_ExpiryTimeUnixMs : Z;
  er_CoordinatorBlockHeight : Z;
  er_BlockHeightTolerance : Z
}.

Record PreDispatchRequest : Type := MkPreDispatchRequest {
  pdr_Id : uuid;
  pdr_TransactionId : uuid;
  pdr_ContractAddress : string;
  pdr_PostAssembleHash : string
}.

Inductive Outcome : Type := OUTCOME_SUCCESS | OUTCOME_REVERTED.

Record TransactionConfirmed : Type := MkTransactionConfirmed {
  tc_Id : uuid;
  tc_TransactionId : uuid;
  tc_ContractAddress : string;
  tc_Outcome : Outcome;
  tc_Nonce : Z;
  tc_RevertReason : option string;
  tc_FailureMessage : FailureText;
  tc_WillRetry : bool
}.

Inductive Message : Type :=
| SendAssembleRequest (node : string) (request : AssembleRequest)
| SendEndorsementRequest (node : string) (request : EndorsementRequest)
| SendPreDispatchRequest (node : string) (request : PreDispatchRequest)
| SendTransactionConfirmed (node : string) (msg : TransactionConfirmed)
| SendDispatched (node : string) (id : uuid) (contract signer : string) (tx : uuid)
| SendNonceAssigned (node : string) (id tx : uuid) (contract : string) (nonce : Z)
| SendTransactionSubmitted (node : string) (id tx : uuid) (contract hash : string).

Record TransactionFinalizeRequest : Type := MkFinalizeRequest {
  fr_Domain : string;
  fr_ContractAddress : string;
  fr_Originator : string;
  fr_TransactionID : uuid;
  fr_FailureMessage : FailureText;
  fr_RevertData : option string;
  fr_OnChain : option OnChainLocation
}.
