(* ===== verification/CoordTypes.v ===== *)
(** * The data of the coordinator's own machine

    The states and events of coordinator/state_machine.go and events.go, the snapshot that heartbeats
    carry (common/types.go), and the messages the coordinator sends for itself.  All states, snapshots
    and messages are the coordinator's; those of a transaction are in [TxTypes]. *)

From S2P Require Import Prelude StateVisibility Grapher TxTypes.
Open Scope list_scope.

(** ** States: common/states.go *)

(** The state in a received snapshot is an int32 that nothing bounds. *)
Inductive CoordinatorState : Type :=
| CoordinatorState_Initial
| CoordinatorState_Idle
| CoordinatorState_Observing
| CoordinatorState_Elect
| CoordinatorState_Prepared
| CoordinatorState_Active
| CoordinatorState_Active_Flush
| CoordinatorState_Closing_Flush
| CoordinatorState_Closing
| CoordinatorState_unknown (value : Z).

#[export] Instance CoordinatorState_eq_dec : EqDecision CoordinatorState.
Proof. solve_decision. Defined.

(** ** Snapshots: common/types.go *)

Record SnapshotDispatched : Type := MkSnapshotDispatched {
  sd_ID : uuid;
  sd_Signer : string;
  sd_LatestSubmissionHash : option string;
  sd_Nonce : option Z
}.

Record SnapshotReverted : Type := MkSnapshotReverted {
  sr_ID : uuid;
  sr_RevertReason : option string
}.

(** No coordinator fills in the hash of a confirmed transaction. *)
Record CoordinatorSnapshot : Type := MkCoordinatorSnapshot {
  cs_DispatchedTransactions : list SnapshotDispatched;
  cs_PooledTransactions : list uuid;
  cs_ConfirmedTransactions : list SnapshotDispatched;
  cs_RevertedTransactions : list SnapshotReverted;
  cs_CoordinatorState : CoordinatorState;
  cs_BlockHeight : Z;
  cs_EndorserCandidates : list string;
  cs_StateSnapshot : option StateSnapshot
}.
#[export] Instance CoordinatorSnapshot_rebuild : Rebuild CoordinatorSnapshot := fun s =>
  MkCoordinatorSnapshot (cs_DispatchedTransactions s) (cs_PooledTransactions s) (cs_ConfirmedTransactions s)
    (cs_RevertedTransactions s) (cs_CoordinatorState s) (cs_BlockHeight s) (cs_EndorserCandidates s) (cs_StateSnapshot s).

(** ** Events: coordinator/events.go, common/events.go *)

(** [components.PrivateTransactionEndorseRequest]; the endorser is filled in by the endorsing node. *)
Record PrivateTransactionEndorseRequest : Type := MkPrivateTransactionEndorseRequest {
  per_BlockContext : string;
  per_TransactionSpecification : TransactionSpecification;
  per_Verifiers : list ResolvedVerifier;
  per_Signatures : list AttestationResult;
  per_InputStates : list EndorsableState;
  per_ReadStates : list EndorsableState;
  per_OutputStates : list EndorsableState;
  per_InfoStates : list EndorsableState;
  per_Endorsement : AttestationRequest;
  per_Endorser : option ResolvedVerifier
}.
#[export] Instance PrivateTransactionEndorseRequest_rebuild : Rebuild PrivateTransactionEndorseRequest := fun r =>
  MkPrivateTransactionEndorseRequest (per_BlockContext r) (per_TransactionSpecification r) (per_Verifiers r)
    (per_Signatures r) (per_InputStates r) (per_ReadStates r) (per_OutputStates r) (per_InfoStates r)
    (per_Endorsement r) (per_Endorser r).

Record EndorsementRequestReceived : Type := MkEndorsementRequestReceived {
  err_FromNode : string;
  err_TransactionId : string;
  err_IdempotencyKey : string;
  err_Party : string;
  err_PrivateEndorsementRequest : PrivateTransactionEndorseRequest;
  err_AttestationRequest : AttestationRequest;
  err_Expiry : option Z; (* None: the zero time *)
  err_CoordinatorBlockHeight : Z;
  err_BlockHeightTolerance : Z
}.

Record TransactionsDelegated : Type := MkTransactionsDelegated {
  tde_FromNode : string;
  tde_Originator : string;
  tde_Transactions : list PrivateTransaction;
  tde_OriginatorsBlockHeight : Z;
  tde_DelegationID : string
}.

(** One constructor per event struct that reaches the coordinator's loop; events of transactions are
    wrapped with the id of the transaction they are for. *)
Inductive CoordinatorEvent : Type :=
| TransactionEvent (tx : uuid) (event : Event)
| TransactionStateTransitionEvent (tx : uuid) (FromState ToState : State)
| EpochBoundaryReachedEvent
| RestartDispatchLoopEvent
| CoordinatorCreatedEvent
| TransactionsDelegatedEvent (delegation : TransactionsDelegated)
| HandoverRequestTimeoutIntervalEvent (* RequestTimeoutIntervalEvent of this package *)
| ElectionTimeoutIntervalEvent (* StateTimeoutIntervalEvent of this package *)
| HandoverRequestEvent (FromNode : string)
| EndorsementRequestReceivedEvent (request : EndorsementRequestReceived)
| CoordinatorHeartbeatIntervalEvent
| HeartbeatReceivedEvent (FromNode : string) (CoordinatorSnapshot : option CoordinatorSnapshot).

Inductive CoordinatorEventType : Type :=
| CEvent_Transaction (* never handed to the machine *)
| CEvent_TransactionStateTransition
| CEvent_EpochBoundaryReached
| CEvent_RestartDispatchLoop
| CEvent_CoordinatorCreated
| CEvent_TransactionsDelegated
| CEvent_RequestTimeoutInterval
| CEvent_StateTimeoutInterval
| CEvent_HandoverRequest
| CEvent_EndorsementRequestReceived
| CEvent_HeartbeatInterval
| CEvent_HeartbeatReceived.

#[export] Instance CoordinatorEventType_eq_dec : EqDecision CoordinatorEventType.
Proof. solve_decision. Defined.

(** The [Type()] methods. *)
Definition CoordinatorType_of (event : CoordinatorEvent) : CoordinatorEventType :=
  match event with
  | TransactionEvent _ _ => CEvent_Transaction
  | TransactionStateTransitionEvent _ _ _ => CEvent_TransactionStateTransition
  | EpochBoundaryReachedEvent => CEvent_EpochBoundaryReached
  | RestartDispatchLoopEvent => CEvent_RestartDispatchLoop
  | CoordinatorCreatedEvent => CEvent_CoordinatorCreated
  | TransactionsDelegatedEvent _ => CEvent_TransactionsDelegated
  | HandoverRequestTimeoutIntervalEvent => CEvent_RequestTimeoutInterval
  | ElectionTimeoutIntervalEvent => CEvent_StateTimeoutInterval
  | HandoverRequestEvent _ => CEvent_HandoverRequest
  | EndorsementRequestReceivedEvent _ => CEvent_EndorsementRequestReceived
  | CoordinatorHeartbeatIntervalEvent => CEvent_HeartbeatInterval
  | HeartbeatReceivedEvent _ _ => CEvent_HeartbeatReceived
  end.

(** ** Messages *)

Inductive DelegationAcknowledgementError : Type :=
| DelegationAcknowledgementError_None
| DelegationAcknowledgementError_MaxInflightTransactions
| DelegationAcknowledgementError_CoordinatorError
| DelegationAcknowledgementError_PreviousTransactionError.

#[export] Instance DelegationAcknowledgementError_eq_dec : EqDecision DelegationAcknowledgementError.
Proof. solve_decision. Defined.

Record DelegationResponse : Type := MkDelegationResponse {
  dr_DelegationId : string;
  dr_TransactionIds : list uuid;
  dr_DelegateNodeId : string;
  dr_ContractAddress : string;
  dr_Errors : list DelegationAcknowledgementError
}.

Record DelegationRejection : Type := MkDelegationRejection {
  dj_DelegationId : string;
  dj_DelegateNodeId : string;
  dj_ContractAddress : string;
  dj_ActiveCoordinator : string;
  dj_RejectionReason : RejectionReason;
  dj_OriginatorBlockHeight : Z;
  dj_CoordinatorBlockHeight : Z;
  dj_BlockHeightTolerance : Z
}.

Record EndorsementRejection : Type := MkEndorsementRejection {
  ej_TransactionId : string;
  ej_IdempotencyKey : string;
  ej_ContractAddress : string;
  ej_AttestationRequestName : string;
  ej_Party : string;
  ej_RejectionReason : RejectionReason;
  ej_CoordinatorBlockHeight : Z;
  ej_EndorserBlockHeight : Z;
  ej_BlockHeightTolerance : Z
}.

Record EndorsementResponse : Type := MkEndorsementResponse {
  es_Endorsement : AttestationResult;
  es_TransactionId : string;
  es_IdempotencyKey : string;
  es_AttestationRequestName : string;
  es_Party : string;
  es_ContractAddress : string;
  es_RevertReason : option string
}.

Record EndorsementError : Type := MkEndorsementError {
  ee_TransactionId : string;
  ee_IdempotencyKey : string;
  ee_ContractAddress : string;
  ee_ErrorMessage : error;
  ee_Party : string;
  ee_AttestationRequestName : string
}.

Inductive CoordinatorMessage : Type :=
| SendHeartbeat (node : string) (contract : string) (snapshot : CoordinatorSnapshot)
| SendHandoverRequest (node : string) (contract : string)
| SendDelegationResponse (node : string) (msg : DelegationResponse)
| SendDelegationRejection (node : string) (msg : DelegationRejection)
| SendEndorsementRejection (node : string) (msg : EndorsementRejection)
| SendEndorsementResponse (node : string) (msg : EndorsementResponse)
| SendEndorsementError (node : string) (msg : EndorsementError).
