(* ===== verification/World.v ===== *)
(** * The coordinator's memory

    One coordinator of one contract: its transactions, the objects they share (grapher, dependency
    tracker, visibility store, state views), the coordinator's own fields that they reach through
    callbacks, and what leaves the node.  The memory is changed by one goroutine at a time, the
    coordinator's event loop or its dispatch loop; [heldLocks] are the transaction mutexes that
    goroutine holds.

    Sources: coordinator/transaction/transaction.go, coordinator/coordinator.go,
    coordinator/coordinating.go, coordinator/selection.go, common/request.go, common/clock.go. *)

From S2P Require Import Prelude StateMachine Selection DependencyTracker StateVisibility Grapher StateView TxTypes CoordTypes.
Open Scope list_scope.

(** ** Requests: common/request.go *)

(** The send function a request was built with, by the values it captured. *)
Inductive SendClosure : Type :=
| SendAssemble
| SendEndorsement (party : string) (attRequest : AttestationRequest)
| SendPreDispatch (hash : string).

Record IdempotentRequest : Type := MkIdempotentRequest {
  ir_idempotencyKey : uuid;
  ir_requestTime : option Z;
  ir_firstRequestTime : option Z;
  ir_send : SendClosure;
  ir_timeout : Z
}.

Definition NewIdempotentRequestWithKey (timeout : Z) (idempotencyKey : uuid) (send : SendClosure) : IdempotentRequest :=
  MkIdempotentRequest idempotencyKey None None send timeout.

(** [!time.Now().Before(start.Add(duration))] (common/clock.go) *)
Definition HasExpired (now start duration : Z) : bool := negb (now <? start + duration)%Z.

Definition requestDue (now : Z) (r : IdempotentRequest) : bool :=
  match ir_requestTime r with
  | None => true
  | Some t => HasExpired now t (ir_timeout r)
  end.

Definition requestSent (now : Z) (r : IdempotentRequest) : IdempotentRequest :=
  MkIdempotentRequest (ir_idempotencyKey r) (Some now)
    (match ir_firstRequestTime r with None => Some now | t => t end) (ir_send r) (ir_timeout r).

(** ** coordinatorTransaction *)

Inductive SubmitterSelection : Type :=
| SUBMITTER_COORDINATOR
| SUBMITTER_SENDER
| SubmitterSelection_other (value : Z).

#[export] Instance SubmitterSelection_eq_dec : EqDecision SubmitterSelection.
Proof. solve_decision. Defined.

(** The counters are Go [int]s; none counts far enough to overflow 64 bits.  A nil map of counts
    and an empty one read alike. *)
Record coordinatorTransaction : Type := MkTransaction {
  pt : PrivateTransaction;
  stateMachine : Machine State EventType;
  originator : string;
  originatorNode : string;
  nodeName : string;
  domainSigningIdentity : string;
  submitterSelection : SubmitterSelection;
  signerAddress : option string;
  latestSubmissionHash : option string;
  nonce : option Z;
  revertReason : option string;
  decodedRevertReason : FailureText;
  revertOnChain : option OnChainLocation;
  revertCount : Z;
  lastCanRetryRevert : bool;
  assembleErrorCount : Z;
  signErrorCount : Z;
  endorseToleranceByRequirement : gmap string Z;
  endorseFailureCountByRequirement : gmap string Z;
  endorseRevertCountByRequirement : gmap string Z;
  endorseRevertReasons : list (string * string);
  heartbeatIntervalsSinceStateChange : Z;
  stateEntryTime : Z;
  pendingAssembleRequest : option IdempotentRequest;
  assembleRequestID : uuid;
  cancelRequestTimeoutSchedule : option uuid; (* the timer it cancels *)
  cancelStateTimeoutSchedule : option uuid;
  pendingEndorsementRequests : option (gmap string (gmap string (option IdempotentRequest)));
  pendingPreDispatchRequest : option IdempotentRequest;
  inFlightPrepareID : uuid;
  cancelPrepare : option uuid; (* the prepare goroutine it cancels *)
  tx_blockHeightTolerance : Z;
  requestTimeout : Z;
  stateTimeout : Z;
  finalizingGracePeriod : Z;
  baseLedgerRevertRetryThreshold : Z;
  assembleErrorRetryThreshhold : Z;
  signErrorRetryThreshhold : Z
}.
#[export] Instance coordinatorTransaction_rebuild : Rebuild coordinatorTransaction := fun t =>
  MkTransaction (pt t) (stateMachine t) (originator t) (originatorNode t) (nodeName t) (domainSigningIdentity t)
    (submitterSelection t) (signerAddress t) (latestSubmissionHash t) (nonce t) (revertReason t) (decodedRevertReason t)
    (revertOnChain t) (revertCount t) (lastCanRetryRevert t) (assembleErrorCount t) (signErrorCount t)
    (endorseToleranceByRequirement t) (endorseFailureCountByRequirement t) (endorseRevertCountByRequirement t)
    (endorseRevertReasons t) (heartbeatIntervalsSinceStateChange t) (stateEntryTime t) (pendingAssembleRequest t)
    (assembleRequestID t) (cancelRequestTimeoutSchedule t) (cancelStateTimeoutSchedule t) (pendingEndorsementRequests t)
    (pendingPreDispatchRequest t) (inFlightPrepareID t) (cancelPrepare t) (tx_blockHeightTolerance t) (requestTimeout t)
    (stateTimeout t) (finalizingGracePeriod t) (baseLedgerRevertRetryThreshold t) (assembleErrorRetryThreshhold t)
    (signErrorRetryThreshhold t).

(** ** The coordinator's fields that transactions reach *)

Record coordinatorFields : Type := MkCoordinatorFields {
  c_nodeName : string;
  c_coordinatorSelection : CoordinatorSelection;
  c_endorserCandidates : list string;
  c_coordinatorPriorityList : list string;
  c_currentBlockHeight : Z;
  c_effectiveBlockHeight : Z;
  c_coordinatorSelectionBlockRange : Z;
  c_signingIdentity : string;
  c_signingIdentityUsed : bool;
  c_internalQueue : list CoordinatorEvent;
  c_originatorNotices : list (list string); (* EndorserNodesDiscoveredEvents handed to the local originator *)
  c_inFlightTxns : gset N;
  c_dispatchQueue : list (uuid * PendingDispatch)
}.
#[export] Instance coordinatorFields_rebuild : Rebuild coordinatorFields := fun c =>
  MkCoordinatorFields (c_nodeName c) (c_coordinatorSelection c) (c_endorserCandidates c) (c_coordinatorPriorityList c)
    (c_currentBlockHeight c) (c_effectiveBlockHeight c) (c_coordinatorSelectionBlockRange c) (c_signingIdentity c)
    (c_signingIdentityUsed c) (c_internalQueue c) (c_originatorNotices c) (c_inFlightTxns c) (c_dispatchQueue c).

(** A prepare goroutine, running off the event loop; it reads the private transaction through its
    pointer. *)
Record PrepareJob : Type := MkPrepareJob {
  pj_tx : uuid;
  pj_revertCount : Z;
  pj_cancelled : bool
}.
#[export] Instance PrepareJob_rebuild : Rebuild PrepareJob :=
  fun j => MkPrepareJob (pj_tx j) (pj_revertCount j) (pj_cancelled j).

Record Timer : Type := MkTimer { tm_tx : uuid; tm_event : Event; tm_due : Z }.

Record World : Type := MkWorld {
  transactionsByID : gmap N coordinatorTransaction;
  heldLocks : gset N;
  w_grapher : grapher;
  w_deps : dependencyTracker;
  w_vis : visibilityStore;
  w_views : providerViews;
  w_c : coordinatorFields;
  w_outbox : list Message;
  w_finalizeRequests : list TransactionFinalizeRequest;
  w_persisted : list PendingDispatch;
  w_timers : gmap N Timer;
  w_prepares : gmap N PrepareJob;
  w_nextUUID : uuid;
  w_now : Z;
  w_liveBlockHeight : Z
}.
#[export] Instance World_rebuild : Rebuild World := fun w =>
  MkWorld (transactionsByID w) (heldLocks w) (w_grapher w) (w_deps w) (w_vis w) (w_views w) (w_c w) (w_outbox w)
    (w_finalizeRequests w) (w_persisted w) (w_timers w) (w_prepares w) (w_nextUUID w) (w_now w) (w_liveBlockHeight w).

(** ** Components outside the model *)

(** The transport writer may refuse a message; engine integration resolves potential states to
    states with ids and labels; the domain judges base ledger reverts; the digest is Keccak-256; the key manager and
    the transaction managers validate what a prepared transaction is dispatched as. *)
Class Env : Type := {
  env_transport : list Message -> Message -> option error;
  env_ResolveStatesForTransaction : PrivateTransaction -> TransactionPostAssembly -> res TransactionPostAssembly;
  env_IsBaseLedgerRevertRetryable : option string -> bool * string * option error;
  env_keccak256 : string -> string;
  env_buildPublicTxSubmission : PrivateTransaction -> PrepareTransactionResult -> res string;
  env_PrepareChainedPrivateTransaction : PrivateTransaction -> string -> Z -> Z -> res (option uuid)
}.

(** ** Elementary steps *)

Definition getTx (id : uuid) : M World coordinatorTransaction := fun w =>
  match transactionsByID w !! id with
  | Some t => (w, Ok t)
  | None => (w, Crash Panic)
  end.

Definition setTx (id : uuid) (f : coordinatorTransaction -> coordinatorTransaction) (w : World) : World :=
  w <| transactionsByID ::= alter f id |>.

Definition updTx (id : uuid) (f : coordinatorTransaction -> coordinatorTransaction) : M World unit := modify (setTx id f).

Definition newUUID : M World uuid := fun w => (w <| w_nextUUID ::= N.succ |>, Ok (w_nextUUID w)).

Definition send `{Env} (msg : Message) : M World unit := fun w =>
  match env_transport (w_outbox w) msg with
  | None => (w <| w_outbox ::= fun l => l ++ [msg] |>, Ok tt)
  | Some e => (w, Err e)
  end.

Definition QueueTransactionFinalize (r : TransactionFinalizeRequest) : M World unit :=
  modify (fun w => w <| w_finalizeRequests ::= fun l => l ++ [r] |>).

(** [queueEventInternal], from transactions *)
Definition queueEventForCoordinator (e : CoordinatorEvent) : M World unit :=
  modify (fun w => w <| w_c ::= fun c => c <| c_internalQueue ::= fun q => q ++ [e] |> |>).

(** The grapher with the chain and the store it shares. *)
Definition grapherMemOf (w : World) : grapherMem := MkGrapherMem (w_grapher w) (postAssembly (w_deps w)) (w_vis w).

Definition putGrapherMem (m : grapherMem) (w : World) : World :=
  w <| w_grapher := gm_g m |> <| w_deps ::= fun d => d <| postAssembly := gm_deps m |> |> <| w_vis := gm_vis m |>.

Definition onGrapher (f : grapherMem -> grapherMem) : M World unit :=
  modify (fun w => putGrapherMem (f (grapherMemOf w)) w).

Definition onDeps (f : dependencyTracker -> dependencyTracker) : M World unit :=
  modify (fun w => w <| w_deps ::= f |>).

Definition onChained (f : chainedDependencies -> chainedDependencies) : M World unit :=
  onDeps (fun d => d <| chained ::= f |>).

(** [clock.ScheduleTimer]: one shot; the cancel function removes it. *)
Definition ScheduleTimer (tx : uuid) (duration : Z) (event : Event) : M World uuid :=
  timer ← newUUID;
  modify (fun w => w <| w_timers ::= <[timer := MkTimer tx event (w_now w + duration)%Z]> |>) ≫= fun _ =>
  mret timer.

Definition cancelTimer (timer : uuid) : M World unit := modify (fun w => w <| w_timers ::= delete timer |>).

(** A due timer fires: the goroutine queues its event and ends. *)
Definition fireTimer (timer : uuid) (w : World) : World :=
  match w_timers w !! timer with
  | Some t =>
      if (tm_due t <=? w_now w)%Z then
        (queueEventForCoordinator (TransactionEvent (tm_tx t) (tm_event t)) (w <| w_timers ::= delete timer |>)).1
      else w
  | None => w
  end.

(** A prepare goroutine ends: it queues its result, tagged with its id. *)
Definition finishPrepare (prepareID : uuid) (result : option PendingDispatch) (w : World) : World :=
  match w_prepares w !! prepareID with
  | Some job =>
      let event := match result with
                   | Some pd => PrepareSucceededEvent prepareID pd
                   | None => PrepareFailedEvent prepareID
                   end in
      (queueEventForCoordinator (TransactionEvent (pj_tx job) event) (w <| w_prepares ::= delete prepareID |>)).1
  | None => w
  end.

(** ** Callbacks into the coordinator *)

(** [getCoordinatorTransactionState]; reading a state takes no transaction lock. *)
Definition getCoordinatorTransactionState (w : World) (id : uuid) : option State :=
  currentState ∘ stateMachine <$> transactionsByID w !! id.

(** [setDispatchedInFlight] (coordinator.go) *)
Definition setDispatchedInFlight (txID : uuid) (inFlight : bool) : M World unit :=
  modify (fun w => w <| w_c ::= fun c => c <| c_inFlightTxns ::= fun s =>
    if inFlight then {[txID]} ∪ s else s ∖ {[txID]} |> |>).

(** [enqueueForDispatch] (dispatch_loop.go); a full queue blocks the event loop until the dispatch
    loop takes an element, which the model does not bound. *)
Definition enqueueForDispatch (tx : uuid) (prepared : PendingDispatch) : M World unit :=
  modify (fun w => w <| w_c ::= fun c => c <| c_dispatchQueue ::= fun q => q ++ [(tx, prepared)] |> |>).

Definition getCoordinatorSigningIdentity : M World string := fun w =>
  (w <| w_c ::= fun c => c <| c_signingIdentityUsed := true |> |>, Ok (c_signingIdentity (w_c w))).

(** [calculateCoordinatorPriorities] (selection.go) *)
Definition calculateCoordinatorPriorities (c : coordinatorFields) : coordinatorFields :=
  match c_coordinatorSelection c with
  | COORDINATOR_ENDORSER =>
      c <| c_coordinatorPriorityList := ComputeCoordinatorPriorityList (c_endorserCandidates c) (c_effectiveBlockHeight c) |>
  | _ => c
  end.

(** [updateEndorserCandidates] (coordinating.go) *)
Definition addCandidate (candidates : list string) (node : string) : list string :=
  if existsb (String.eqb node) candidates then candidates else candidates ++ [node].

Definition updateEndorserCandidates (c : coordinatorFields) (nodes : list string) : coordinatorFields * bool :=
  match c_coordinatorSelection c with
  | COORDINATOR_ENDORSER =>
      let before := length (c_endorserCandidates c) in
      let candidates := addCandidate (foldl addCandidate (c_endorserCandidates c) nodes) (c_nodeName c) in
      if (before <? length candidates)%nat then
        let sorted := sorting.merge_sort String.le candidates in
        let c := c <| c_endorserCandidates := sorted |> in
        let c := c <| c_coordinatorPriorityList := ComputeCoordinatorPriorityList sorted (c_effectiveBlockHeight c) |> in
        (c <| c_originatorNotices ::= fun l => l ++ [sorted] |>, true)
      else (c <| c_endorserCandidates := candidates |>, false)
  | _ => (c, false)
  end.

Definition notifyEndorserCandidates (nodes : list string) : M World unit :=
  modify (fun w => w <| w_c ::= fun c => fst (updateEndorserCandidates c nodes) |>).

(** [refreshBlockHeight] (coordinating.go); [uint64(liveHeight)] reinterprets an int64. *)
Definition refreshBlockHeight : M World unit :=
  liveHeight ← gets w_liveBlockHeight;
  modify (fun w => w <| w_c ::= fun c => c <| c_currentBlockHeight := liveHeight |> |>) ≫= fun _ =>
  onGrapher (fun m => ForgetConfirmedLocks m (u64 liveHeight)) ≫= fun _ =>
  modify (fun w => w <| w_c ::= calculateCoordinatorPriorities |>) ≫= fun _ =>
  newEffective ← liftR (fun w => ComputeEffectiveBlockHeight (u64 liveHeight) (c_coordinatorSelectionBlockRange (w_c w)));
  effective ← gets (fun w => c_effectiveBlockHeight (w_c w));
  if (newEffective =? effective)%Z then mret tt
  else
    modify (fun w => w <| w_c ::= fun c => c <| c_effectiveBlockHeight := newEffective |> |>) ≫= fun _ =>
    queueEventForCoordinator EpochBoundaryReachedEvent.
