(* ===== verification/TxActions.v ===== *)
(** * Actions, guards and validators of the coordinator's transactions
    (coordinator/transaction/*.go)

    One definition per Go function, on the memory and the id of the transaction it is called on;
    a transaction sits in [transactionsByID] under its own id.  [handle] is the callback
    [coordinatorTransactionHandleEvent], which runs another transaction's machine. *)

From S2P Require Import Prelude StateMachine Identity Selection DependencyTracker StateVisibility Grapher StateView TxTypes CoordTypes World.
Open Scope list_scope.

Abbreviation TxGuard := (Guard World).
Abbreviation TxValidator := (Validator Event World).
Abbreviation TxAction := (Action Event World).

(** A guard on the transaction's own fields (and the memory). *)
Definition onTx (id : uuid) (f : World -> coordinatorTransaction -> option bool) : TxGuard := fun w =>
  match transactionsByID w !! id with
  | Some t => f w t
  | None => None
  end.

(** A validator that reads the transaction. *)
Definition validTx (id : uuid) (f : World -> coordinatorTransaction -> Event -> res bool) : TxValidator := fun event w =>
  match transactionsByID w !! id with
  | Some t => f w t event
  | None => Crash Panic
  end.

Section Actions.
Context `{Env}.
Context (handle : uuid -> Event -> M World unit).

(** ** timeouts.go *)

Definition clearRequestTimeoutSchedule (id : uuid) : M World unit :=
  t ← getTx id;
  match cancelRequestTimeoutSchedule t with
  | Some timer => cancelTimer timer ≫= fun _ => updTx id (fun t => t <| cancelRequestTimeoutSchedule := None |>)
  | None => mret tt
  end.

Definition clearStateTimeoutSchedule (id : uuid) : M World unit :=
  t ← getTx id;
  match cancelStateTimeoutSchedule t with
  | Some timer => cancelTimer timer ≫= fun _ => updTx id (fun t => t <| cancelStateTimeoutSchedule := None |>)
  | None => mret tt
  end.

Definition clearTimeoutSchedules (id : uuid) : M World unit :=
  clearRequestTimeoutSchedule id ≫= fun _ => clearStateTimeoutSchedule id.

Definition scheduleRequestTimeout (id : uuid) : M World unit :=
  clearRequestTimeoutSchedule id ≫= fun _ =>
  t ← getTx id;
  timer ← ScheduleTimer id (requestTimeout t) RequestTimeoutIntervalEvent;
  updTx id (fun t => t <| cancelRequestTimeoutSchedule := Some timer |>).

Definition scheduleStateTimeout (id : uuid) : M World unit :=
  clearStateTimeoutSchedule id ≫= fun _ =>
  t ← getTx id;
  timer ← ScheduleTimer id (stateTimeout t) StateTimeoutIntervalEvent;
  updTx id (fun t => t <| cancelStateTimeoutSchedule := Some timer |>).

Definition action_ScheduleStateTimeout (id : uuid) : TxAction := fun _ => scheduleStateTimeout id.
Definition action_ClearStateTimeout (id : uuid) : TxAction := fun _ => clearStateTimeoutSchedule id.

(** ** Sending requests *)

Definition expiryUnixMs (now timeout : Z) : Z := ((now + timeout) / 1000000)%Z.

(** [requestEndorsement] (endorsing.go) *)
Definition requestEndorsement (id : uuid) (idempotencyKey : uuid) (party : string) (attRequest : AttestationRequest) : M World unit :=
  partyNode ← liftR (fun _ => Node party false);
  t ← getTx id;
  now ← gets w_now;
  height ← gets (fun w => c_currentBlockHeight (w_c w));
  match pt_PreAssembly (pt t), pt_PostAssembly (pt t) with
  | Some pre, Some pa =>
      let resp := pa_AssembleResponse pa in
      send (SendEndorsementRequest partyNode
        (MkEndorsementRequest idempotencyKey (pt_Address (pt t)) attRequest party (pre_TransactionSpecification pre)
           (pp_BlockContext resp) (pp_ResolvedVerifiers resp) (pp_Signatures resp) (pp_InputStates resp) (pp_ReadStates resp)
           (pa_OutputStates pa) (pa_InfoStates pa) (expiryUnixMs now (stateTimeout t)) height (tx_blockHeightTolerance t)))
  | _, _ => crashM Panic
  end.

(** The send functions, on the values they captured. *)
Definition runSend (id : uuid) (idempotencyKey : uuid) (closure : SendClosure) : M World unit :=
  match closure with
  | SendAssemble =>
      t ← getTx id;
      now ← gets w_now;
      height ← gets (fun w => c_currentBlockHeight (w_c w));
      send (SendAssembleRequest (originatorNode t)
        (MkAssembleRequest id idempotencyKey (pt_Address (pt t)) height (expiryUnixMs now (stateTimeout t))
           (tx_blockHeightTolerance t)))
  | SendEndorsement party attRequest => requestEndorsement id idempotencyKey party attRequest
  | SendPreDispatch hash =>
      t ← getTx id;
      send (SendPreDispatchRequest (originatorNode t) (MkPreDispatchRequest idempotencyKey id (pt_Address (pt t)) hash))
  end.

(** [IdempotentRequest.Nudge]: the request afterwards; an error leaves it as it was. *)
Definition Nudge (id : uuid) (r : IdempotentRequest) : M World IdempotentRequest :=
  now ← gets w_now;
  if requestDue now r then
    runSend id (ir_idempotencyKey r) (ir_send r) ≫= fun _ => mret (requestSent now r)
  else mret r.

(** ** endorsing.go: resetting *)

Definition resetEndorsementRequests (id : uuid) : M World unit :=
  clearTimeoutSchedules id ≫= fun _ =>
  updTx id (fun t => t <| pendingEndorsementRequests := None |> <| endorseFailureCountByRequirement := ∅ |>
    <| endorseRevertCountByRequirement := ∅ |> <| endorseRevertReasons := [] |> <| endorseToleranceByRequirement := ∅ |>).

(** ** pooled.go *)

Definition forgetTransactionAndLocks (id : uuid) : M World unit := onGrapher (fun m => ForgetTransactionAndLocks m id).

Definition initializeForNewAssembly (id : uuid) : M World unit :=
  updTx id (fun t => t <| pt ::= CleanUpPostAssemblyData |>) ≫= fun _ =>
  onChained (fun cd => ForgetChainedChild cd id) ≫= fun _ =>
  updTx id (fun t => t <| pendingPreDispatchRequest := None |>) ≫= fun _ =>
  forgetTransactionAndLocks id ≫= fun _ =>
  clearTimeoutSchedules id ≫= fun _ =>
  resetEndorsementRequests id.

Definition action_InitializeForNewAssembly (id : uuid) : TxAction := fun _ => initializeForNewAssembly id.
Definition action_ResetTransactionLocks (id : uuid) : TxAction := fun _ => forgetTransactionAndLocks id.

Definition guard_HasUnassembledDependencies (id : uuid) : TxGuard := fun w =>
  Some (HasPrerequisites (preAssembly (w_deps w)) id || HasUnassembledDependencies (chained (w_deps w)) id).

Definition action_MarkChainedDependencyAssembled (id : uuid) : TxAction := fun event =>
  match event with
  | DependencySelectedForAssemblyEvent source => onChained (fun cd => DeleteUnassembledDependencies cd id [source])
  | _ => crashM Panic
  end.

Definition chainedPrerequisites (w : World) (id : uuid) : list uuid := GetPrerequisites (ch_chain (chained (w_deps w))) id.

Definition validator_IsChainedDependency (id : uuid) : TxValidator := fun event w =>
  let isPrerequisite source := existsb (N.eqb source) (chainedPrerequisites w id) in
  match event with
  | DependencySelectedForAssemblyEvent source => Ok (isPrerequisite source)
  | DependencyResetEvent source => Ok (isPrerequisite source)
  | DependencyConfirmedRevertedEvent source => Ok (isPrerequisite source)
  | _ => Ok false
  end.

Definition action_MarkChainedDependencyUnassembled (id : uuid) : TxAction := fun event =>
  match event with
  | DependencyResetEvent source => onChained (fun cd => AddUnassembledDependencies cd id [source])
  | DependencyConfirmedRevertedEvent source => onChained (fun cd => AddUnassembledDependencies cd id [source])
  | _ => mret tt
  end.

(** Dependents in the post-assembly chain, then in the chained one. *)
Definition allDependents (w : World) (id : uuid) : list uuid :=
  GetDependents (postAssembly (w_deps w)) id ++ GetDependents (ch_chain (chained (w_deps w))) id.

Definition chainedDependents (w : World) (id : uuid) : list uuid := GetDependents (ch_chain (chained (w_deps w))) id.

Definition notifyDependentsOfReset (id : uuid) : M World unit :=
  dependents ← gets (fun w => allDependents w id);
  for_each dependents (fun dependentID => log_error (handle dependentID (DependencyResetEvent id))).

Definition action_NotifyDependentsOfReset (id : uuid) : TxAction := fun _ =>
  notifyDependentsOfReset id ≫= fun _ => forgetTransactionAndLocks id.

(** A chained dependency in the given state. *)
Definition chainedDependencyIn (state : State) (w : World) (id : uuid) : option uuid :=
  List.find (fun depID => bool_decide (getCoordinatorTransactionState w depID = Some state)) (chainedPrerequisites w id).

Definition guard_HasRevertedChainedDependency (id : uuid) : TxGuard := fun w =>
  Some (match chainedDependencyIn State_Reverted w id with Some _ => true | None => false end).

Definition guard_HasEvictedChainedDependency (id : uuid) : TxGuard := fun w =>
  Some (match chainedDependencyIn State_Evicted w id with Some _ => true | None => false end).

(** A finalize request with only a failure message. *)
Definition finalizeWith (id : uuid) (failureMessage : FailureText) : M World unit :=
  t ← getTx id;
  QueueTransactionFinalize
    (MkFinalizeRequest (pt_Domain (pt t)) (pt_Address (pt t)) (originator t) id failureMessage None None).

(** A [TransactionConfirmed] message to the originator's node. *)
Definition sendConfirmed (id : uuid) (outcome : Outcome) (msgNonce : option Z) (reason : option string)
    (failureMessage : FailureText) (willRetry : bool) : M World unit :=
  msgID ← newUUID;
  t ← getTx id;
  send (SendTransactionConfirmed (originatorNode t)
    (MkTransactionConfirmed msgID id (pt_Address (pt t)) outcome (default 0%Z msgNonce) reason failureMessage willRetry)).

Definition action_FinalizeOnRevertedChainedDependencyAtCreation (id : uuid) : TxAction := fun _ =>
  dep ← gets (fun w => chainedDependencyIn State_Reverted w id);
  match dep with
  | Some depID => finalizeWith id (MsgTxMgrDependencyFailed depID)
  | None => mret tt
  end.

Definition action_NotifyOriginatorOfChainedDependencyFailureAtCreation (id : uuid) : TxAction := fun _ =>
  dep ← gets (fun w => chainedDependencyIn State_Reverted w id);
  match dep with
  | Some depID => sendConfirmed id OUTCOME_REVERTED None None (MsgTxMgrDependencyFailed depID) false
  | None => mret tt
  end.

Definition validator_IsPreAssembleDependency (id : uuid) : TxValidator := fun event w =>
  match event with
  | DependencySelectedForAssemblyEvent source =>
      Ok (match GetPrerequisite (preAssembly (w_deps w)) id with Some pre => N.eqb pre source | None => false end)
  | _ => Crash Panic
  end.

Definition action_RemovePreAssembleDependency (id : uuid) : TxAction := fun _ =>
  onDeps (fun d => d <| preAssembly ::= fun c => ClearPrerequisites c id |>).

Definition action_RemovePreAssemblePrereqOf (id : uuid) : TxAction := fun _ =>
  onDeps (fun d => d <| preAssembly ::= fun c => ClearDependents c id |>).

(** ** assembling.go *)

Definition revertTransactionFailedAssembly (id : uuid) (reason : FailureText) : M World unit := finalizeWith id reason.

(** [recordOutputStateVisibility]: each output is paired with its labels and with the distribution
    list of its potential state, by index; a missing index is out of range. *)
Definition outputVisibility (pa : TransactionPostAssembly) : option (list (option StateLabels) * list (list string)) :=
  let n := length (pa_OutputStates pa) in
  let potentials := pp_OutputStatesPotential (pa_AssembleResponse pa) in
  if (n <=? length (pa_OutputStatesWithLabels pa))%nat && (n <=? length potentials)%nat then
    Some (take n (pa_OutputStatesWithLabels pa), ns_DistributionList <$> take n potentials)
  else None.

Definition recordOutputStateVisibility (pa : TransactionPostAssembly) : M World unit :=
  match outputVisibility pa with
  | Some (labels, distributionLists) =>
      modify (fun w => w <| w_vis := RecordAssemblyOutput (w_now w) (w_vis w) (pa_OutputStates pa) labels distributionLists |>)
  | None => crashM Panic
  end.

Definition addMinter (id : uuid) (states : list EndorsableState) : M World unit := fun w =>
  let '(m, r) := AddMinter (grapherMemOf w) states id in (putGrapherMem m w, r).

Definition revertPostAssembly (reason : FailureText) : PostAssemblyProto :=
  MkPostAssemblyProto AssembleTransactionResponse_REVERT EmptyString [] [] [] [] [] [] [] None (Some reason) [].

Definition setPostAssembly (id : uuid) (pa : TransactionPostAssembly) : M World unit :=
  updTx id (fun t => t <| pt ::= fun p => p <| pt_PostAssembly := Some pa |> |>).

Definition applyPostAssembly (id : uuid) (assemblyResponse : PostAssemblyProto) (requestID : uuid) : M World unit :=
  let pa := MkPostAssembly assemblyResponse [] [] [] [] (pp_Endorsements assemblyResponse) in
  setPostAssembly id pa ≫= fun _ =>
  clearTimeoutSchedules id ≫= fun _ =>
  match pp_AssemblyResult assemblyResponse with
  | AssembleTransactionResponse_REVERT =>
      revertTransactionFailedAssembly id (MsgSequencerAssembleRevert (default (Text EmptyString) (pp_RevertReason assemblyResponse)))
  | AssembleTransactionResponse_PARK => mret tt
  | _ =>
      t ← getTx id;
      match env_ResolveStatesForTransaction (pt t) pa with
      | Ok pa =>
          setPostAssembly id pa ≫= fun _ =>
          addMinter id (pa_OutputStates pa) ≫= fun _ =>
          recordOutputStateVisibility pa ≫= fun _ =>
          onGrapher (fun m => LockMintsOnCreate m (pa_OutputStates pa) id) ≫= fun _ =>
          onGrapher (fun m => LockMintsOnReadAndSpend m (pp_ReadStates (pa_AssembleResponse pa))
                                (pp_InputStates (pa_AssembleResponse pa)) id)
      | Err err =>
          let reason := MsgSequencerInternalErrorText err in
          queueEventForCoordinator (TransactionEvent id (AssembleRevertEvent (revertPostAssembly reason) requestID)) ≫= fun _ =>
          revertTransactionFailedAssembly id reason ≫= fun _ =>
          throw err
      | Crash _ => crashM Panic
      end
  end.

Definition nudgeAssembleRequest (id : uuid) : M World unit :=
  t ← getTx id;
  match pendingAssembleRequest t with
  | None => throw (MsgSequencerInternalError "nudgeAssembleRequest called with no pending request")
  | Some r => r ← Nudge id r; updTx id (fun t => t <| pendingAssembleRequest := Some r |>)
  end.

Definition sendAssembleRequest (id : uuid) : M World unit :=
  updTx id (fun t => t <| pendingAssembleRequest :=
    Some (NewIdempotentRequestWithKey (requestTimeout t) (assembleRequestID t) SendAssemble) |>) ≫= fun _ =>
  scheduleRequestTimeout id ≫= fun _ =>
  nudgeAssembleRequest id.

Definition notifyDependentsOfSelection (id : uuid) : M World unit :=
  dependents ← gets (fun w => chainedDependents w id ++
    match GetDependent (preAssembly (w_deps w)) id with Some dep => [dep] | None => [] end);
  for_each dependents (fun dependentID => handle dependentID (DependencySelectedForAssemblyEvent id)).

Definition action_NotifyDependentsOfSelection (id : uuid) : TxAction := fun _ => notifyDependentsOfSelection id.

Definition validator_MatchesPendingAssembleRequest (id : uuid) : TxValidator := validTx id (fun _ t event =>
  match pendingAssembleRequest t with
  | None => Ok false
  | Some r =>
      let requestID := match event with
                       | AssembleSuccessEvent _ requestID => requestID
                       | AssembleRevertEvent _ requestID => requestID
                       | AssembleErrorEvent requestID => requestID
                       | SignedEvent _ _ requestID => requestID
                       | SignErrorEvent requestID => requestID
                       | _ => uuid_Nil
                       end in
      Ok (N.eqb (ir_idempotencyKey r) requestID)
  end).

Definition validator_SignedCarriesAssembly : TxValidator := fun event _ =>
  match event with
  | SignedEvent _ pa _ => Ok (match pa with Some _ => true | None => false end)
  | _ => Crash Panic
  end.

Definition action_AssembleSuccess (id : uuid) : TxAction := fun event =>
  match event with
  | AssembleSuccessEvent pa requestID => applyPostAssembly id pa requestID
  | _ => crashM Panic
  end.

Definition action_AssembleRevertResponse (id : uuid) : TxAction := fun event =>
  match event with
  | AssembleRevertEvent pa requestID => applyPostAssembly id pa requestID
  | _ => crashM Panic
  end.

Definition guard_CanRetryErroredAssemble (id : uuid) : TxGuard :=
  onTx id (fun _ t => Some (assembleErrorCount t <=? assembleErrorRetryThreshhold t)%Z).

Definition guard_CanRetryErroredSign (id : uuid) : TxGuard :=
  onTx id (fun _ t => Some (signErrorCount t <=? signErrorRetryThreshhold t)%Z).

Definition action_AssembleError (id : uuid) : TxAction := fun _ =>
  updTx id (fun t => t <| assembleErrorCount ::= Z.succ |>).

Definition action_SendAssembleRequest (id : uuid) : TxAction := fun _ => sendAssembleRequest id.

Definition action_CaptureGrapherSnapshot (id : uuid) : TxAction := fun _ =>
  requestID ← newUUID;
  updTx id (fun t => t <| assembleRequestID := requestID |>) ≫= fun _ =>
  t ← getTx id;
  modify (fun w => w <| w_views := CaptureSnapshot (grapherMemOf w) (w_views w) requestID (originatorNode t) |>).

Definition action_DeleteGrapherSnapshot (id : uuid) : TxAction := fun _ =>
  t ← getTx id;
  modify (fun w => w <| w_views ::= fun views => DeleteSnapshot views (assembleRequestID t) |>).

Definition action_NudgeAssembleRequest (id : uuid) : TxAction := fun _ => nudgeAssembleRequest id.

(** It only logs. *)
Definition action_LogAssembleRejection : TxAction := fun event =>
  match event with
  | AssembleRequestRejectedEvent _ _ => mret tt
  | _ => crashM Panic
  end.

Definition validator_IsAssembleRejection (reasons : list RejectionReason) : TxValidator := fun event _ =>
  match event with
  | AssembleRequestRejectedEvent _ reason => Ok (existsb (fun r => bool_decide (reason = r)) reasons)
  | _ => Crash Panic
  end.

(** ** signing.go *)

Definition verifierLookup (r : AttestationResult) : string :=
  match at_Verifier r with None => EmptyString | Some v => rv_Lookup v end.

Definition sameSignature (signature existing : AttestationResult) : bool :=
  String.eqb (at_Name existing) (at_Name signature) && String.eqb (verifierLookup existing) (verifierLookup signature).

Definition applySignature (id : uuid) (signature : option AttestationResult) : M World unit :=
  match signature with
  | None => mret tt
  | Some signature =>
      t ← getTx id;
      match pt_PostAssembly (pt t) with
      | None => crashM Panic
      | Some pa =>
          if existsb (sameSignature signature) (pp_Signatures (pa_AssembleResponse pa)) then mret tt
          else setPostAssembly id
                 (pa <| pa_AssembleResponse ::= fun r => r <| pp_Signatures ::= fun l => l ++ [signature] |> |>)
      end
  end.

(** A SIGN party on the originating node, and no collected signature of that name yet. *)
Definition hasOriginatorParty (node : string) (attRequest : AttestationRequest) : bool :=
  existsb (fun party => match Validate party node true with
                        | Ok (_, signerNode) => String.eqb signerNode node
                        | _ => false
                        end) (ar_Parties attRequest).

Definition unfulfilledSignRequirements (t : coordinatorTransaction) : list AttestationRequest :=
  match pt_PostAssembly (pt t) with
  | None => []
  | Some pa =>
      let resp := pa_AssembleResponse pa in
      List.filter (fun attRequest =>
        bool_decide (ar_AttestationType attRequest = AttestationType_SIGN)
        && hasOriginatorParty (originatorNode t) attRequest
        && negb (existsb (fun signature => String.eqb (at_Name signature) (ar_Name attRequest)) (pp_Signatures resp)))
        (pp_AttestationPlan resp)
  end.

Definition guard_SignRequirementsFulfilled (id : uuid) : TxGuard :=
  onTx id (fun _ t => Some (negb (nonEmpty (unfulfilledSignRequirements t)))).

Definition action_Signed (id : uuid) : TxAction := fun event =>
  match event with
  | SignedEvent result _ _ => applySignature id result
  | _ => crashM Panic
  end.

Definition action_AssembleAndSign (id : uuid) : TxAction := fun event =>
  match event with
  | SignedEvent result (Some pa) requestID => applyPostAssembly id pa requestID ≫= fun _ => applySignature id result
  | _ => crashM Panic
  end.

Definition action_SignError (id : uuid) : TxAction := fun _ =>
  updTx id (fun t => t <| signErrorCount ::= Z.succ |>).
(** ** endorsing.go *)

(** [t.pendingEndorsementRequests[name]] and [t.pendingEndorsementRequests[name][party]]. *)
Definition pendingFor (t : coordinatorTransaction) (name : string) : option (gmap string (option IdempotentRequest)) :=
  match pendingEndorsementRequests t with
  | Some m => m !! name
  | None => None
  end.

Definition pendingEntry (t : coordinatorTransaction) (name party : string) : option (option IdempotentRequest) :=
  match pendingFor t name with
  | Some m => m !! party
  | None => None
  end.

(** [applyEndorsement]; reached only behind [validator_MatchesPendingEndorsementRequest]. *)
Definition applyEndorsement (id : uuid) (endorsement : AttestationResult) : M World unit :=
  t ← getTx id;
  match at_Verifier endorsement, pt_PostAssembly (pt t) with
  | Some verifier, Some pa =>
      updTx id (fun t => t <| pendingEndorsementRequests ::=
        fmap (alter (delete (rv_Lookup verifier)) (at_Name endorsement)) |>) ≫= fun _ =>
      setPostAssembly id (pa <| pa_CollectedEndorsements ::= fun l => l ++ [endorsement] |>)
  | _, _ => crashM Panic
  end.

(** When the threshold is unset every party must endorse. *)
Definition effectiveThreshold (attRequest : AttestationRequest) : Z :=
  if (ar_Threshold attRequest =? 0)%Z then Z.of_nat (length (ar_Parties attRequest)) else ar_Threshold attRequest.

(** [receivedCount]: a nil verifier is dereferenced when the names match. *)
Fixpoint receivedCount (attRequest : AttestationRequest) (endorsements : list AttestationResult) : option Z :=
  match endorsements with
  | [] => Some 0%Z
  | e :: rest =>
      if String.eqb (at_Name e) (ar_Name attRequest) then
        v ← at_Verifier e;
        n ← receivedCount attRequest rest;
        Some (if String.eqb (ar_VerifierType attRequest) (rv_VerifierType v) then (n + 1)%Z else n)
      else receivedCount attRequest rest
  end.

(** The search for the party's endorsement; its log line dereferences every verifier it passes. *)
Fixpoint endorsedBy (attRequest : AttestationRequest) (party : string) (endorsements : list AttestationResult) : option bool :=
  match endorsements with
  | [] => Some false
  | e :: rest =>
      v ← at_Verifier e;
      if String.eqb (at_Name e) (ar_Name attRequest) && String.eqb party (rv_Lookup v)
         && String.eqb (ar_VerifierType attRequest) (rv_VerifierType v)
      then Some true
      else endorsedBy attRequest party rest
  end.

Fixpoint unfulfilledParties (attRequest : AttestationRequest) (endorsements : list AttestationResult)
    (parties : list string) : option (list (AttestationRequest * string)) :=
  match parties with
  | [] => Some []
  | party :: rest =>
      found ← endorsedBy attRequest party endorsements;
      l ← unfulfilledParties attRequest endorsements rest;
      Some (if found : bool then l else (attRequest, party) :: l)
  end.

(** One requirement of the plan. *)
Definition unfulfilledFor (attRequest : AttestationRequest) (endorsements : list AttestationResult) :
    option (list (AttestationRequest * string)) :=
  match ar_AttestationType attRequest with
  | AttestationType_ENDORSE =>
      n ← receivedCount attRequest endorsements;
      if (effectiveThreshold attRequest - n <=? 0)%Z then Some []
      else unfulfilledParties attRequest endorsements (ar_Parties attRequest)
  | _ => Some []
  end.

Fixpoint unfulfilledInPlan (plan : list AttestationRequest) (endorsements : list AttestationResult) :
    option (list (AttestationRequest * string)) :=
  match plan with
  | [] => Some []
  | attRequest :: rest =>
      l ← unfulfilledFor attRequest endorsements;
      l' ← unfulfilledInPlan rest endorsements;
      Some (l ++ l')
  end.

Definition unfulfilledEndorsementRequirements (t : coordinatorTransaction) : option (list (AttestationRequest * string)) :=
  match pt_PostAssembly (pt t) with
  | None => Some []
  | Some pa => unfulfilledInPlan (pp_AttestationPlan (pa_AssembleResponse pa)) (pa_CollectedEndorsements pa)
  end.

Definition endorseParties (t : coordinatorTransaction) : list string :=
  match pt_PostAssembly (pt t) with
  | None => []
  | Some pa =>
      mjoin ((fun attRequest => match ar_AttestationType attRequest with
                                | AttestationType_ENDORSE => ar_Parties attRequest
                                | _ => []
                                end) <$> pp_AttestationPlan (pa_AssembleResponse pa))
  end.

(** First occurrence of each node that parses. *)
Definition extractEndorserNodes (t : coordinatorTransaction) : list string :=
  foldl (fun nodes party => match Node party false with Ok node => addCandidate nodes node | _ => nodes end)
    [] (endorseParties t).

(** The body of the loop of [sendEndorsementRequests] for one requirement.  An existing entry that
    is nil marks a party that failed this round. *)
Definition storeEndorsementRequest (id : uuid) (name party : string) (r : IdempotentRequest) : M World unit :=
  updTx id (fun t => t <| pendingEndorsementRequests ::= fmap (fun m =>
    <[name := <[party := Some r]> (default ∅ (m !! name))]> m) |>).

Definition sendEndorsementRequest (id : uuid) (requirement : AttestationRequest * string) : M World unit :=
  let '(attRequest, party) := requirement in
  let name := ar_Name attRequest in
  updTx id (fun t => t <| pendingEndorsementRequests ::= fmap (fun m =>
    match m !! name with Some _ => m | None => <[name := ∅]> m end) |>) ≫= fun _ =>
  t ← getTx id;
  match pendingEntry t name party with
  | Some None => mret tt
  | Some (Some r) => log_error (r ← Nudge id r; storeEndorsementRequest id name party r)
  | None =>
      key ← newUUID;
      let r := NewIdempotentRequestWithKey (requestTimeout t) key (SendEndorsement party attRequest) in
      storeEndorsementRequest id name party r ≫= fun _ =>
      log_error (r ← Nudge id r; storeEndorsementRequest id name party r)
  end.

Definition sendEndorsementRequests (id : uuid) : M World unit :=
  t ← getTx id;
  match pt_PostAssembly (pt t) with
  | None => crashM Panic
  | Some _ =>
      (match pendingEndorsementRequests t with
       | Some _ => mret tt
       | None =>
           scheduleRequestTimeout id ≫= fun _ =>
           updTx id (fun t => t <| pendingEndorsementRequests := Some ∅ |>) ≫= fun _ =>
           notifyEndorserCandidates (extractEndorserNodes t)
       end) ≫= fun _ =>
      t ← getTx id;
      match unfulfilledEndorsementRequirements t with
      | None => crashM Panic
      | Some requirements => for_each requirements (sendEndorsementRequest id)
      end
  end.

Definition action_Endorsed (id : uuid) : TxAction := fun event =>
  match event with
  | EndorsedEvent (Some endorsement) _ => applyEndorsement id endorsement
  | _ => crashM Panic
  end.

Definition action_RefreshBlockHeight : TxAction := fun _ => refreshBlockHeight.
Definition action_SendEndorsementRequests (id : uuid) : TxAction := fun _ => sendEndorsementRequests id.
Definition action_NudgeEndorsementRequests (id : uuid) : TxAction := fun _ => sendEndorsementRequests id.
Definition action_ResetEndorsementRequests (id : uuid) : TxAction := fun _ => resetEndorsementRequests id.

Definition guard_AttestationPlanFulfilled (id : uuid) : TxGuard :=
  onTx id (fun _ t => l ← unfulfilledEndorsementRequirements t; Some (negb (nonEmpty l))).

(** Some requirement's count is over its tolerance. *)
Definition exceedsTolerance (tolerances counts : gmap string Z) : bool :=
  existsb (fun kv => (kv.2 <? default 0 (counts !! kv.1))%Z) (map_to_list tolerances).

Definition guard_EndorseFailureExceedsTolerance (id : uuid) : TxGuard :=
  onTx id (fun _ t => Some (exceedsTolerance (endorseToleranceByRequirement t) (endorseFailureCountByRequirement t))).

Definition guard_EndorseRevertExceedsTolerance (id : uuid) : TxGuard :=
  onTx id (fun _ t => Some (exceedsTolerance (endorseToleranceByRequirement t) (endorseRevertCountByRequirement t))).

Definition endorseRevertFailureMessage (t : coordinatorTransaction) : FailureText :=
  MsgSequencerEndorseRevert (endorseRevertReasons t).

Definition action_NotifyOriginatorOfEndorseRevert (id : uuid) : TxAction := fun _ =>
  t ← getTx id;
  sendConfirmed id OUTCOME_REVERTED None None (endorseRevertFailureMessage t) false.

Definition action_FinalizeEndorseRevert (id : uuid) : TxAction := fun _ =>
  t ← getTx id;
  finalizeWith id (endorseRevertFailureMessage t).

(** The requirement, party and request id an endorsement outcome names. *)
Definition endorsementOutcome (event : Event) : option (string * string * uuid) :=
  match event with
  | EndorsedEvent (Some endorsement) requestID =>
      v ← at_Verifier endorsement; Some (at_Name endorsement, rv_Lookup v, requestID)
  | EndorseErrorEvent requestID party name => Some (name, party, requestID)
  | EndorseRequestRejectedEvent party name requestID _ => Some (name, party, requestID)
  | EndorseRevertEvent party _ name requestID => Some (name, party, requestID)
  | _ => None
  end.

Definition validator_MatchesPendingEndorsementRequest (id : uuid) : TxValidator := validTx id (fun _ t event =>
  match endorsementOutcome event with
  | None => Ok false
  | Some (name, party, requestID) =>
      match pendingEntry t name party with
      | Some (Some r) => Ok (N.eqb (ir_idempotencyKey r) requestID)
      | _ => Ok false
      end
  end).

Definition increment (counts : gmap string Z) (name : string) : gmap string Z :=
  <[name := (default 0 (counts !! name) + 1)%Z]> counts.

(** The party's entry becomes nil; writing to a map that is nil panics. *)
Definition recordEndorseFailure (id : uuid) (name party : string) (revert : option string) : M World unit :=
  if String.eqb party EmptyString then mret tt
  else
    t ← getTx id;
    match pendingFor t name with
    | None => crashM Panic
    | Some _ =>
        updTx id (fun t => t <| pendingEndorsementRequests ::= fmap (alter (<[party := None]>) name) |>
          <| endorseFailureCountByRequirement ::= fun c => increment c name |>) ≫= fun _ =>
        match revert with
        | Some reason => updTx id (fun t => t <| endorseRevertCountByRequirement ::= fun c => increment c name |>
                                              <| endorseRevertReasons ::= fun l => l ++ [(party, reason)] |>)
        | None => mret tt
        end
    end.

Definition action_RecordEndorseFailure (id : uuid) : TxAction := fun event =>
  match event with
  | EndorseErrorEvent _ party name => recordEndorseFailure id name party None
  | EndorseRequestRejectedEvent party name _ _ => recordEndorseFailure id name party None
  | EndorseRevertEvent party reason name _ => recordEndorseFailure id name party (Some reason)
  | _ => mret tt
  end.

(** Later requirements of the same name overwrite earlier ones. *)
Definition addTolerance (tolerances : gmap string Z) (attRequest : AttestationRequest) : gmap string Z :=
  match ar_AttestationType attRequest with
  | AttestationType_ENDORSE =>
      <[ar_Name attRequest := (Z.of_nat (length (ar_Parties attRequest)) - effectiveThreshold attRequest)%Z]> tolerances
  | _ => tolerances
  end.

Definition computeTolerances (plan : list AttestationRequest) : gmap string Z := foldl addTolerance ∅ plan.

Definition action_ComputeEndorseTolerances (id : uuid) : TxAction := fun _ =>
  updTx id (fun t => t <| endorseToleranceByRequirement :=
    match pt_PostAssembly (pt t) with
    | Some pa => computeTolerances (pp_AttestationPlan (pa_AssembleResponse pa))
    | None => ∅
    end |>).

(** ** ready_for_dispatch.go *)

Definition guard_HasSigner (id : uuid) : TxGuard := onTx id (fun _ t => Some (negb (String.eqb (pt_Signer (pt t)) EmptyString))).

(** The first endorsement that carries the constraint; its verifier is dereferenced. *)
Definition mustSubmit (e : AttestationResult) : bool :=
  existsb (fun c => match c with ENDORSER_MUST_SUBMIT => true | _ => false end) (at_Constraints e).

Definition action_UpdateSigningIdentity (id : uuid) : TxAction := fun _ =>
  t ← getTx id;
  match pt_PostAssembly (pt t), submitterSelection t with
  | Some pa, SUBMITTER_COORDINATOR =>
      match List.find mustSubmit (pa_CollectedEndorsements pa) with
      | Some e =>
          match at_Verifier e with
          | Some v => updTx id (fun t => t <| pt ::= fun p => p <| pt_Signer := rv_Lookup v |> |>)
          | None => crashM Panic
          end
      | None => mret tt
      end
  | _, _ => mret tt
  end.

Definition dependencyNotReadyForDispatch (state : State) : bool :=
  match state with
  | State_Confirmed | State_Dispatched | State_Ready_For_Dispatch => false
  | _ => true
  end.

(** A dependency that the coordinator no longer knows blocks too. *)
Definition hasDependenciesNotReady (w : World) (id : uuid) : bool :=
  existsb (fun dependencyID => match getCoordinatorTransactionState w dependencyID with
                               | None => true
                               | Some state => dependencyNotReadyForDispatch state
                               end)
    (GetDependencies (grapherMemOf w) id ++ chainedPrerequisites w id).

Definition guard_HasDependenciesNotReady (id : uuid) : TxGuard := fun w => Some (hasDependenciesNotReady w id).

Definition notifyDependentsOfReadiness (id : uuid) : M World unit :=
  dependents ← gets (fun w => grapherGetDependents (grapherMemOf w) id ++ chainedDependents w id);
  for_each dependents (fun dependentID => log_error (handle dependentID DependencyReadyEvent)).

Definition action_NotifyDependentsOfReadiness (id : uuid) : TxAction := fun _ => notifyDependentsOfReadiness id.

Definition allocateSigningIdentity (id : uuid) : M World unit :=
  t ← getTx id;
  if String.eqb (domainSigningIdentity t) EmptyString then
    identity ← getCoordinatorSigningIdentity;
    updTx id (fun t => t <| pt ::= fun p => p <| pt_Signer := identity |> |>)
  else updTx id (fun t => t <| pt ::= fun p => p <| pt_Signer := domainSigningIdentity t |> |>).

Definition action_AllocateSigningIdentity (id : uuid) : TxAction := fun _ =>
  t ← getTx id;
  if String.eqb (pt_Signer (pt t)) EmptyString then allocateSigningIdentity id else mret tt.

(** ** confirming_dispatch.go *)

Definition completePreDispatchRequest (id : uuid) : M World unit :=
  updTx id (fun t => t <| pendingPreDispatchRequest := None |>) ≫= fun _ => clearTimeoutSchedules id.

(** The digest of the concatenated signature payloads. *)
Definition hash (t : coordinatorTransaction) : res string :=
  match pt_PostAssembly (pt t) with
  | None => Err (MsgSequencerInternalError "Cannot hash transaction without PostAssembly")
  | Some pa => Ok (env_keccak256 (String.concat EmptyString (at_Payload <$> pp_Signatures (pa_AssembleResponse pa))))
  end.

Definition nudgePreDispatchRequest (id : uuid) : M World unit :=
  t ← getTx id;
  match pendingPreDispatchRequest t with
  | None => throw (MsgSequencerInternalError "nudgePreDispatchRequest called with no pending request")
  | Some r => r ← Nudge id r; updTx id (fun t => t <| pendingPreDispatchRequest := Some r |>)
  end.

Definition sendPreDispatchRequest (id : uuid) : M World unit :=
  t ← getTx id;
  (match pendingPreDispatchRequest t with
   | Some _ => mret tt
   | None =>
       h ← liftR (fun _ => hash t);
       key ← newUUID;
       updTx id (fun t => t <| pendingPreDispatchRequest :=
         Some (NewIdempotentRequestWithKey (requestTimeout t) key (SendPreDispatch h)) |>) ≫= fun _ =>
       scheduleRequestTimeout id
   end) ≫= fun _ =>
  nudgePreDispatchRequest id.

Definition validator_MatchesPendingPreDispatchRequest (id : uuid) : TxValidator := validTx id (fun _ t event =>
  match event with
  | DispatchRequestApprovedEvent requestID =>
      Ok (match pendingPreDispatchRequest t with Some r => N.eqb (ir_idempotencyKey r) requestID | None => false end)
  | _ => Ok false
  end).

Definition action_DispatchRequestApproved (id : uuid) : TxAction := fun _ => completePreDispatchRequest id.
Definition action_DispatchRequestRejected (id : uuid) : TxAction := fun _ => completePreDispatchRequest id.
Definition action_SendPreDispatchRequest (id : uuid) : TxAction := fun _ => sendPreDispatchRequest id.
Definition action_NudgePreDispatchRequest (id : uuid) : TxAction := fun _ => nudgePreDispatchRequest id.

Definition validator_IsPreDispatchRejection (reason : RejectionReason) : TxValidator := fun event _ =>
  match event with
  | PreDispatchRequestRejectedEvent _ r => Ok (bool_decide (r = reason))
  | _ => Crash Panic
  end.

Definition validator_IsPreDispatchNotCurrentDelegateRejection : TxValidator :=
  validator_IsPreDispatchRejection RejectionReason_NOT_CURRENT_DELEGATE.

Definition validator_IsPreDispatchTransactionUnknownRejection : TxValidator :=
  validator_IsPreDispatchRejection RejectionReason_TRANSACTION_UNKNOWN.

(** ** confirming.go *)

Definition guard_CanRetryRevert (id : uuid) : TxGuard := onTx id (fun _ t => Some (lastCanRetryRevert t)).

Definition resetConfirmation (t : coordinatorTransaction) : coordinatorTransaction :=
  t <| revertReason := None |> <| decodedRevertReason := Text EmptyString |> <| revertOnChain := None |>
    <| lastCanRetryRevert := false |>.

(** [checkConfirmedHash] only logs. *)
Definition action_RecordConfirmationSuccess (id : uuid) : TxAction := fun event =>
  match event with
  | ConfirmedSuccessEvent _ _ onChain =>
      updTx id resetConfirmation ≫= fun _ =>
      onGrapher (fun m => ForgetTransaction m id (u64 (ocl_BlockNumber onChain)))
  | _ => crashM Panic
  end.

Definition decodedReasonOf (decoded : string) (failureMessage : FailureText) : FailureText :=
  if String.eqb decoded EmptyString then
    if emptyText failureMessage then Text EmptyString else failureMessage
  else MsgTxMgrRevertedDecodedData decoded.

Definition recordRevert (failureMessage : FailureText) (reason : option string) (onChain : OnChainLocation)
    (t : coordinatorTransaction) : coordinatorTransaction :=
  let t := (resetConfirmation t) <| revertCount ::= Z.succ |> <| revertReason := reason |> in
  match ocl_Type onChain with
  | NotOnChain =>
      t <| decodedRevertReason := failureMessage |>
        <| lastCanRetryRevert := hasPrefixPD012256 failureMessage && (revertCount t <=? baseLedgerRevertRetryThreshold t)%Z |>
  | _ =>
      let '(retryable, decoded, err) := env_IsBaseLedgerRevertRetryable reason in
      let retryable := match err with Some _ => false | None => retryable end in
      t <| revertOnChain := Some onChain |>
        <| decodedRevertReason := decodedReasonOf decoded failureMessage |>
        <| lastCanRetryRevert := retryable && (revertCount t <=? baseLedgerRevertRetryThreshold t)%Z |>
  end.

Definition action_RecordConfirmationRevert (id : uuid) : TxAction := fun event =>
  match event with
  | ConfirmedRevertedEvent _ _ failureMessage reason onChain => updTx id (recordRevert failureMessage reason onChain)
  | _ => crashM Panic
  end.

Definition action_NotifyOriginatorOfConfirmation (id : uuid) : TxAction := fun event =>
  match event with
  | ConfirmedSuccessEvent n _ _ => sendConfirmed id OUTCOME_SUCCESS n None (Text EmptyString) false
  | _ => crashM Panic
  end.

Definition action_NotifyOriginatorOfRetryableRevert (id : uuid) : TxAction := fun event =>
  match event with
  | ConfirmedRevertedEvent n _ _ _ _ =>
      t ← getTx id;
      sendConfirmed id OUTCOME_REVERTED n (revertReason t) (decodedRevertReason t) true
  | _ => crashM Panic
  end.

Definition action_NotifyOriginatorOfNonRetryableRevert (id : uuid) : TxAction := fun event =>
  match event with
  | ConfirmedRevertedEvent n _ _ _ _ =>
      t ← getTx id;
      sendConfirmed id OUTCOME_REVERTED n (revertReason t) (decodedRevertReason t) false
  | _ => crashM Panic
  end.

Definition action_NotifyOriginatorOfChainedDependencyFailure (id : uuid) : TxAction := fun event =>
  match event with
  | ChainedDependencyFailedEvent failedTxID => sendConfirmed id OUTCOME_REVERTED None None (MsgTxMgrDependencyFailed failedTxID) false
  | _ => crashM Panic
  end.

Definition action_FinalizeNonRetryableRevert (id : uuid) : TxAction := fun _ =>
  t ← getTx id;
  QueueTransactionFinalize
    (MkFinalizeRequest (pt_Domain (pt t)) (pt_Address (pt t)) (originator t) id (decodedRevertReason t)
       (revertReason t) (revertOnChain t)).

Definition action_NotifyDependentsOfRevertedConfirmation (id : uuid) : TxAction := fun _ =>
  dependents ← gets (fun w => allDependents w id);
  for_each dependents (fun dependentId => handle dependentId (DependencyConfirmedRevertedEvent id)).

Definition action_CascadeChainedDependencyFailure (id : uuid) : TxAction := fun _ =>
  dependents ← gets (fun w => chainedDependents w id);
  for_each dependents (fun dependentId => handle dependentId (ChainedDependencyFailedEvent id)).

Definition action_FinalizeOnChainedDependencyFailure (id : uuid) : TxAction := fun event =>
  match event with
  | ChainedDependencyFailedEvent failedTxID => finalizeWith id (MsgTxMgrDependencyFailed failedTxID)
  | _ => crashM Panic
  end.

Definition action_RevertTransactionInGrapher (id : uuid) : TxAction := fun _ => forgetTransactionAndLocks id.

Definition action_CascadeChainedDependencyEviction (id : uuid) : TxAction := fun _ =>
  dependents ← gets (fun w => chainedDependents w id);
  for_each dependents (fun dependentId => handle dependentId (ChainedDependencyEvictedEvent id)).

Definition action_NotifyPreAssembleDependentOfTermination (id : uuid) : TxAction := fun _ =>
  dependent ← gets (fun w => GetDependent (preAssembly (w_deps w)) id);
  match dependent with
  | None => mret tt
  | Some dependentID => handle dependentID PreAssembleDependencyTerminatedEvent
  end.

(** ** dispatch.go *)

Definition action_StartPrepare (id : uuid) : TxAction := fun _ =>
  prepareID ← newUUID;
  t ← getTx id;
  updTx id (fun t => t <| inFlightPrepareID := prepareID |> <| cancelPrepare := Some prepareID |>) ≫= fun _ =>
  modify (fun w => w <| w_prepares ::= <[prepareID := MkPrepareJob id (revertCount t) false]> |>).

Definition action_CancelPrepare (id : uuid) : TxAction := fun _ =>
  t ← getTx id;
  (match cancelPrepare t with
   | Some prepareID =>
       modify (fun w => w <| w_prepares ::= alter (fun j => j <| pj_cancelled := true |>) prepareID |>) ≫= fun _ =>
       updTx id (fun t => t <| cancelPrepare := None |>)
   | None => mret tt
   end) ≫= fun _ =>
  updTx id (fun t => t <| inFlightPrepareID := uuid_Nil |>).

Definition validator_MatchesInFlightPrepareID (id : uuid) : TxValidator := validTx id (fun _ t event =>
  match event with
  | PrepareSucceededEvent prepareID _ => Ok (N.eqb prepareID (inFlightPrepareID t))
  | PrepareFailedEvent prepareID => Ok (N.eqb prepareID (inFlightPrepareID t))
  | _ => Ok false
  end).

Definition registerChild (id : uuid) (cd : chainedDependencies) (d : ChainedPrivateTransaction) : chainedDependencies :=
  match cpt_NewTransactionID d with
  | Some childID => SetChainedChild cd id childID
  | None => cd
  end.

Definition action_QueuePreparedDispatch (id : uuid) : TxAction := fun event =>
  match event with
  | PrepareSucceededEvent _ pd =>
      onChained (fun cd => foldl (registerChild id) cd (td_PrivateDispatches (pd_Dispatch pd))) ≫= fun _ =>
      enqueueForDispatch id pd ≫= fun _ =>
      updTx id (fun t => t <| pt ::= CleanUpPostAssemblyData |>)
  | _ => crashM Panic
  end.

(** [buildTransactionDispatch], on the prepare goroutine: it reads the memory and writes nothing.
    A chained child depends on the children of the transactions that this one depends on. *)
Definition childrenOfDependencies (w : World) (id : uuid) : list uuid :=
  foldl (fun children depID => match GetChainedChild (chained (w_deps w)) depID with
                               | Some child => appendUnique children child
                               | None => children
                               end) []
    (GetPrerequisites (postAssembly (w_deps w)) id ++ chainedPrerequisites w id).

Definition buildTransactionDispatch (w : World) (p : PrivateTransaction) (prep : PrepareTransactionResult)
    (revertCount : Z) : res TransactionDispatch :=
  match pt_PreAssembly p with
  | None => Crash Panic
  | Some pre =>
      match ts_Intent (pre_TransactionSpecification pre), pr_PreparedPublicTransaction prep, pr_PreparedPrivateTransaction prep with
      | SEND_TRANSACTION, Some _, None =>
          mapRes (fun submission => MkTransactionDispatch [submission] [] []) (env_buildPublicTxSubmission p prep)
      | SEND_TRANSACTION, None, Some private =>
          mapRes (fun child => MkTransactionDispatch []
                    [MkChainedPrivateTransaction child
                       (match child with Some _ => childrenOfDependencies w (pt_ID p) | None => [] end)] [])
            (env_PrepareChainedPrivateTransaction p private (w_now w) revertCount)
      | PREPARE_TRANSACTION, Some public, _ => Ok (MkTransactionDispatch [] [] [public])
      | PREPARE_TRANSACTION, None, Some private => Ok (MkTransactionDispatch [] [] [private])
      | _, _, _ => Err (MsgSequencerInternalError "invalid prepare outcome")
      end
  end.

(** [prepareAndBuildDispatch], once the domain has prepared the transaction; state distributions and
    nullifiers are left out.  The states to write are read through the shared pointer, after the
    dispatch was built. *)
Definition prepareAndBuildDispatch (w : World) (p : PrivateTransaction) (prep : PrepareTransactionResult)
    (revertCount : Z) : res PendingDispatch :=
  match buildTransactionDispatch w p prep revertCount with
  | Ok dispatch =>
      match pt_PostAssembly p with
      | None => Crash Panic
      | Some pa => Ok (MkPendingDispatch (pt_ID p) dispatch (pa_OutputStatesWithLabels pa ++ pa_InfoStatesWithLabels pa))
      end
  | Err e => Err e
  | Crash c => Crash c
  end.

(** ** dispatched.go *)

Definition action_NotifyDispatched (id : uuid) : TxAction := fun _ =>
  msgID ← newUUID;
  t ← getTx id;
  send (SendDispatched (originatorNode t) msgID (pt_Address (pt t)) (originator t) id).

Definition action_MarkDispatchedInFlight (id : uuid) : TxAction := fun event =>
  match event with
  | DispatchedEvent true => setDispatchedInFlight id true
  | _ => mret tt
  end.

Definition action_ClearDispatchedInFlight (id : uuid) : TxAction := fun _ => setDispatchedInFlight id false.

Definition action_NotifyCollected (id : uuid) : TxAction := fun event =>
  match event with
  | CollectedEvent address => updTx id (fun t => t <| signerAddress := Some address |>)
  | _ => crashM Panic
  end.

Definition action_NotifyNonceAllocated (id : uuid) : TxAction := fun event =>
  match event with
  | NonceAllocatedEvent n =>
      updTx id (fun t => t <| nonce := Some n |>) ≫= fun _ =>
      msgID ← newUUID;
      t ← getTx id;
      send (SendNonceAssigned (originatorNode t) msgID id (pt_Address (pt t)) n)
  | _ => crashM Panic
  end.

Definition action_NotifySubmitted (id : uuid) : TxAction := fun event =>
  match event with
  | SubmittedEvent h =>
      updTx id (fun t => t <| latestSubmissionHash := Some h |>) ≫= fun _ =>
      msgID ← newUUID;
      t ← getTx id;
      send (SendTransactionSubmitted (originatorNode t) msgID id (pt_Address (pt t)) h)
  | _ => crashM Panic
  end.

(** ** finalizing.go and the heartbeat counter *)

Definition guard_HasFinalizingGracePeriodPassedSinceStateChange (id : uuid) : TxGuard :=
  onTx id (fun _ t => Some (finalizingGracePeriod t <? heartbeatIntervalsSinceStateChange t)%Z).

Definition action_FinalizeAsUnknownByOriginator (id : uuid) : TxAction := fun _ => clearTimeoutSchedules id.

Definition action_IncrementHeartbeatIntervalsSinceStateChange (id : uuid) : TxAction := fun _ =>
  updTx id (fun t => t <| heartbeatIntervalsSinceStateChange ::= Z.succ |>).
End Actions.

(** ** snapshot.go *)

Inductive Snapshot : Type :=
| SnapshotPooledTransaction (id : uuid)
| SnapshotDispatchedTransaction (id : uuid) (signer : string) (n : option Z) (latestHash : option string)
| SnapshotConfirmedTransaction (id : uuid) (signer : string) (n : option Z) (latestHash : option string)
| SnapshotRevertedTransaction (id : uuid) (reason : option string).

(** At most one of the four results of [GetSnapshot] is not nil. *)
Definition GetSnapshot (t : coordinatorTransaction) : option Snapshot :=
  let id := pt_ID (pt t) in
  match currentState (stateMachine t) with
  | State_Blocked | State_Confirming_Dispatchable | State_Preparing | State_Endorsement_Gathering
  | State_PreAssembly_Blocked | State_Assembling | State_Signing | State_Pooled => Some (SnapshotPooledTransaction id)
  | State_Ready_For_Dispatch | State_Dispatched =>
      Some (match signerAddress t with
            | Some signer => SnapshotDispatchedTransaction id signer (nonce t) (latestSubmissionHash t)
            | None => SnapshotDispatchedTransaction id EmptyString None None
            end)
  | State_Confirmed =>
      Some (SnapshotConfirmedTransaction id (default EmptyString (signerAddress t)) (nonce t) (latestSubmissionHash t))
  | State_Reverted => Some (SnapshotRevertedTransaction id (revertReason t))
  | _ => None
  end.

(** ** transaction.go: newTransaction *)

Record TransactionConfig : Type := MkTransactionConfig {
  cfg_domainSigningIdentity : string;
  cfg_submitterSelection : SubmitterSelection;
  cfg_blockHeightTolerance : Z;
  cfg_requestTimeout : Z;
  cfg_stateTimeout : Z;
  cfg_finalizingGracePeriod : Z;
  cfg_baseLedgerRevertRetryThreshold : Z;
  cfg_assembleErrorRetryThreshhold : Z;
  cfg_signErrorRetryThreshhold : Z
}.

Definition freshTransaction (cfg : TransactionConfig) (now : Z) (originator originatorNode nodeName : string)
    (p : PrivateTransaction) : coordinatorTransaction :=
  MkTransaction p (MkMachine State_Initial None now) originator originatorNode nodeName (cfg_domainSigningIdentity cfg)
    (cfg_submitterSelection cfg) None None None None (Text EmptyString) None 0 false 0 0 ∅ ∅ ∅ [] 0 now None uuid_Nil
    None None None None uuid_Nil None (cfg_blockHeightTolerance cfg) (cfg_requestTimeout cfg) (cfg_stateTimeout cfg)
    (cfg_finalizingGracePeriod cfg) (cfg_baseLedgerRevertRetryThreshold cfg) (cfg_assembleErrorRetryThreshhold cfg)
    (cfg_signErrorRetryThreshhold cfg).

(** A chained dependency is kept only while the coordinator knows it, and is unassembled while it
    is in a pre-assembly state. *)
Definition addChainedDependency (w : World) (id : uuid) (cd : chainedDependencies) (dep : option uuid) : chainedDependencies :=
  match dep with
  | None => cd
  | Some depID =>
      match getCoordinatorTransactionState w depID with
      | None => cd
      | Some state =>
          let cd := cd <| ch_chain ::= fun c => AddPrerequisites c id [depID] |> in
          match state with
          | State_Initial | State_PreAssembly_Blocked | State_Pooled => AddUnassembledDependencies cd id [depID]
          | _ => cd
          end
      end
  end.

Definition chainedDependsOn (p : PrivateTransaction) : list (option uuid) :=
  match pt_PreAssembly p with Some pre => pre_ChainedDependsOn pre | None => [] end.

(** The transaction, and the dependencies it registers. *)
Definition newTransaction (cfg : TransactionConfig) (originator originatorNode nodeName : string) (p : PrivateTransaction)
    (w : World) : coordinatorTransaction * World :=
  (freshTransaction cfg (w_now w) originator originatorNode nodeName p,
   w <| w_deps ::= fun d => d <| chained ::= fun cd => foldl (addChainedDependency w (pt_ID p)) cd (chainedDependsOn p) |> |>).
