(* ===== verification/TxMachine.v ===== *)
(** * The state machine of a coordinated transaction
    (coordinator/transaction/state_machine.go, dependency_reset_handlers.go)

    The table of states, events, guards and actions, one definition per state; the entity that
    places a transaction's machine in the coordinator's memory; and [HandleEvent], which runs the
    machine and through it the machines of dependent transactions. *)

From S2P Require Import Prelude StateMachine DependencyTracker StateVisibility Grapher StateView TxTypes CoordTypes World TxActions.
Open Scope list_scope.

Abbreviation TxStateDefinition := (StateDefinition State EventType Event World).
Abbreviation TxEventHandlers := (EventHandlers State Event World).
Abbreviation TxEventHandler := (EventHandler State Event World).
Abbreviation TxTransition := (Transition State Event World).
Abbreviation TxActionRule := (ActionRule Event World).

Section Table.
Context `{Env}.
Context (handle : uuid -> Event -> M World unit).
Context (id : uuid).

(** ** dependency_reset_handlers.go *)

Definition chainedDependencyFailedHandler : option TxEventHandlers :=
  First [On [Act (action_FinalizeOnChainedDependencyFailure id);
             Act (action_NotifyOriginatorOfChainedDependencyFailure id)]
            [To State_Reverted []]].

Definition dependencyResetToPreAssemblyOrPool : option TxEventHandlers :=
  First [OnValid (validator_IsChainedDependency id)
           [Act (action_MarkChainedDependencyUnassembled id)]
           [To State_PreAssembly_Blocked [Act (action_NotifyDependentsOfReset handle id)]];
         OnValid (ValidatorNot (validator_IsChainedDependency id))
           []
           [To State_Pooled [Act (action_NotifyDependentsOfReset handle id)]]].

Definition dependencyResetHandler : option TxEventHandlers := dependencyResetToPreAssemblyOrPool.
Definition dependencyRevertedHandler : option TxEventHandlers := dependencyResetToPreAssemblyOrPool.

(** ** stateDefinitionsMap *)

Definition stateInitial : TxStateDefinition := MkStateDefinition [] [] (fun ty =>
  match ty with
  | Event_Delegated => First [On []
      [ToIf State_Reverted (guard_HasRevertedChainedDependency id)
         [Act (action_FinalizeOnRevertedChainedDependencyAtCreation id);
          Act (action_NotifyOriginatorOfChainedDependencyFailureAtCreation id)];
       ToIf State_Evicted (guard_HasEvictedChainedDependency id) [];
       ToIf State_PreAssembly_Blocked (guard_HasUnassembledDependencies id) [];
       ToIf State_Pooled (GuardNot (guard_HasUnassembledDependencies id)) []]]
  | _ => None
  end).

Definition statePreAssembly_Blocked : TxStateDefinition :=
  MkStateDefinition [Act (action_InitializeForNewAssembly id)] [] (fun ty =>
  match ty with
  | Event_DependencySelectedForAssemble => All
      [OnValid (validator_IsPreAssembleDependency id) [Act (action_RemovePreAssembleDependency id)] [];
       OnValid (validator_IsChainedDependency id) [Act (action_MarkChainedDependencyAssembled id)] [];
       On [] [ToIf State_Pooled (GuardNot (guard_HasUnassembledDependencies id)) []]]
  | Event_DependencyReset => First
      [OnValid (validator_IsChainedDependency id) [Act (action_MarkChainedDependencyUnassembled id)] []]
  | Event_DependencyConfirmedReverted => First
      [OnValid (validator_IsChainedDependency id) [Act (action_MarkChainedDependencyUnassembled id)] []]
  | Event_PreAssembleDependencyTerminated => First
      [On [Act (action_RemovePreAssembleDependency id)]
          [ToIf State_Pooled (GuardNot (guard_HasUnassembledDependencies id)) []]]
  | Event_ChainedDependencyFailed => First
      [On [Act (action_FinalizeOnChainedDependencyFailure id);
           Act (action_NotifyOriginatorOfChainedDependencyFailure id)]
          [To State_Reverted []]]
  | Event_ChainedDependencyEvicted => First [On [] [To State_Evicted []]]
  | _ => None
  end).

Definition statePooled : TxStateDefinition :=
  MkStateDefinition [Act (action_InitializeForNewAssembly id)] [] (fun ty =>
  match ty with
  | Event_Selected => First
      [On [Act (action_NotifyDependentsOfSelection handle id); Act (action_RemovePreAssemblePrereqOf id)]
          [To State_Assembling []]]
  | Event_DependencyReset => First
      [OnValid (validator_IsChainedDependency id) [Act (action_MarkChainedDependencyUnassembled id)]
         [To State_PreAssembly_Blocked []]]
  | Event_DependencyConfirmedReverted => First
      [OnValid (validator_IsChainedDependency id) [Act (action_MarkChainedDependencyUnassembled id)]
         [To State_PreAssembly_Blocked []]]
  | Event_ChainedDependencyFailed => First
      [On [Act (action_FinalizeOnChainedDependencyFailure id);
           Act (action_NotifyOriginatorOfChainedDependencyFailure id)]
          [To State_Reverted []]]
  | Event_ChainedDependencyEvicted => First [On [] [To State_Evicted []]]
  | _ => None
  end).

(** Where a transaction goes once its assembly has been applied. *)
Definition assembledTransitions : list TxTransition :=
  [ToIf State_Signing (GuardNot (guard_SignRequirementsFulfilled id)) [];
   ToIf State_Endorsement_Gathering (GuardNot (guard_AttestationPlanFulfilled id)) [];
   ToIf State_Confirming_Dispatchable
     (GuardAnd [guard_AttestationPlanFulfilled id; GuardNot (guard_HasDependenciesNotReady id)]) [];
   ToIf State_Blocked (GuardAnd [guard_AttestationPlanFulfilled id; guard_HasDependenciesNotReady id]) []].

(** The same retry budget guards a signing error in [State_Assembling] and in [State_Signing]. *)
Definition signErrorTransitions : list TxTransition :=
  [ToIf State_Pooled (guard_CanRetryErroredSign id) [Act (action_NotifyDependentsOfReset handle id)];
   ToIf State_Evicted (GuardNot (guard_CanRetryErroredSign id)) []].

(** [State_Assembling], first half: the outcomes of the assemble request. *)
Definition assemblingResponses (ty : EventType) : option TxEventHandlers :=
  match ty with
  | Event_AssembleSuccess => First
      [OnValid (validator_MatchesPendingAssembleRequest id) [Act (action_AssembleSuccess id)] assembledTransitions]
  | Event_Signed => First
      [OnValid (ValidatorAnd [validator_MatchesPendingAssembleRequest id; validator_SignedCarriesAssembly])
         [Act (action_AssembleAndSign id)] assembledTransitions]
  | Event_SignError => First
      [OnValid (validator_MatchesPendingAssembleRequest id) [Act (action_SignError id)] signErrorTransitions]
  | Event_RequestTimeoutInterval => First [On [Act (action_NudgeAssembleRequest id)] []]
  | Event_StateTimeoutInterval => First [On [] [To State_Pooled [Act (action_NotifyDependentsOfReset handle id)]]]
  | Event_AssembleCancelled => First [On [] [To State_Pooled [Act (action_NotifyDependentsOfReset handle id)]]]
  | Event_AssembleRevert => First
      [OnValid (validator_MatchesPendingAssembleRequest id) [Act (action_AssembleRevertResponse id)]
         [To State_Reverted []]]
  | Event_AssembleError => First
      [OnValid (validator_MatchesPendingAssembleRequest id) [Act (action_AssembleError id)]
         [ToIf State_Pooled (guard_CanRetryErroredAssemble id) [Act (action_NotifyDependentsOfReset handle id)];
          ToIf State_Evicted (GuardNot (guard_CanRetryErroredAssemble id)) []]]
  | _ => None
  end.

(** [State_Assembling], second half: rejections and dependencies. *)
Definition assemblingInterruptions (ty : EventType) : option TxEventHandlers :=
  match ty with
  | Event_AssembleRequestRejected => All
      [On [Act action_LogAssembleRejection] [];
       OnValid (validator_IsAssembleRejection
                  [RejectionReason_BLOCK_HEIGHT_TOLERANCE; RejectionReason_PRIVATE_STATE_DATA_PENDING]) []
         [To State_Pooled [Act (action_NotifyDependentsOfReset handle id)]];
       OnValid (validator_IsAssembleRejection [RejectionReason_NOT_CURRENT_DELEGATE]) []
         [To State_Evicted []];
       OnValid (validator_IsAssembleRejection [RejectionReason_TRANSACTION_UNKNOWN]) []
         [To State_Final [Act (action_FinalizeAsUnknownByOriginator id)]]]
  | Event_DependencyReset => First
      [OnValid (validator_IsChainedDependency id) [Act (action_MarkChainedDependencyUnassembled id)]
         [To State_PreAssembly_Blocked [Act (action_NotifyDependentsOfReset handle id)]]]
  | Event_DependencyConfirmedReverted => First
      [OnValid (validator_IsChainedDependency id) [Act (action_MarkChainedDependencyUnassembled id)]
         [To State_PreAssembly_Blocked [Act (action_NotifyDependentsOfReset handle id)]]]
  | Event_ChainedDependencyFailed => First
      [On [Act (action_FinalizeOnChainedDependencyFailure id);
           Act (action_NotifyOriginatorOfChainedDependencyFailure id)]
          [To State_Reverted []]]
  | Event_ChainedDependencyEvicted => First [On [] [To State_Evicted []]]
  | _ => None
  end.

Definition stateAssembling : TxStateDefinition :=
  MkStateDefinition
    [Act (action_ScheduleStateTimeout id); Act action_RefreshBlockHeight; Act (action_CaptureGrapherSnapshot id);
     Act (action_SendAssembleRequest id)]
    [Act (action_DeleteGrapherSnapshot id)]
    (fun ty => match assemblingResponses ty with
               | Some handlers => Some handlers
               | None => assemblingInterruptions ty
               end).

Definition stateSigning : TxStateDefinition :=
  MkStateDefinition [Act (action_ScheduleStateTimeout id)] [Act (action_ClearStateTimeout id)] (fun ty =>
  match ty with
  | Event_Signed => First
      [OnValid (validator_MatchesPendingAssembleRequest id) [Act (action_Signed id)]
         [ToIf State_Endorsement_Gathering
            (GuardAnd [guard_SignRequirementsFulfilled id; GuardNot (guard_AttestationPlanFulfilled id)]) [];
          ToIf State_Confirming_Dispatchable
            (GuardAnd [guard_SignRequirementsFulfilled id; guard_AttestationPlanFulfilled id;
                       GuardNot (guard_HasDependenciesNotReady id)]) [];
          ToIf State_Blocked
            (GuardAnd [guard_SignRequirementsFulfilled id; guard_AttestationPlanFulfilled id;
                       guard_HasDependenciesNotReady id]) []]]
  | Event_SignError => First
      [OnValid (validator_MatchesPendingAssembleRequest id) [Act (action_SignError id)] signErrorTransitions]
  | Event_StateTimeoutInterval => First [On [] [To State_Pooled [Act (action_NotifyDependentsOfReset handle id)]]]
  | Event_DependencyReset => dependencyResetHandler
  | Event_DependencyConfirmedReverted => dependencyRevertedHandler
  | Event_ChainedDependencyFailed => chainedDependencyFailedHandler
  | _ => None
  end).

(** Repooling once too many endorsers failed. *)
Definition endorseFailureTransition : TxTransition :=
  ToIf State_Pooled (guard_EndorseFailureExceedsTolerance id)
    [Act (action_NotifyDependentsOfReset handle id); Act (action_ResetEndorsementRequests id)].

Definition stateEndorsement_Gathering : TxStateDefinition :=
  MkStateDefinition
    [Act (action_ScheduleStateTimeout id); Act (action_ComputeEndorseTolerances id); Act action_RefreshBlockHeight;
     Act (action_SendEndorsementRequests id)] [] (fun ty =>
  match ty with
  | Event_Endorsed => First
      [OnValid (validator_MatchesPendingEndorsementRequest id)
         [Act (action_Endorsed id);
          ActIf (guard_AttestationPlanFulfilled id) (action_ResetEndorsementRequests id);
          ActIf (GuardAnd [guard_AttestationPlanFulfilled id; GuardNot (guard_HasSigner id)])
            (action_UpdateSigningIdentity id)]
         [ToIf State_Confirming_Dispatchable
            (GuardAnd [guard_AttestationPlanFulfilled id; GuardNot (guard_HasDependenciesNotReady id)]) [];
          ToIf State_Blocked (GuardAnd [guard_AttestationPlanFulfilled id; guard_HasDependenciesNotReady id]) []]]
  | Event_EndorseRevert => First
      [OnValid (validator_MatchesPendingEndorsementRequest id) [Act (action_RecordEndorseFailure id)]
         [ToIf State_Reverted (guard_EndorseRevertExceedsTolerance id)
            [Act (action_NotifyOriginatorOfEndorseRevert id);
             Act (action_NotifyDependentsOfRevertedConfirmation handle id);
             Act (action_FinalizeEndorseRevert id)];
          endorseFailureTransition]]
  | Event_EndorseError => First
      [OnValid (validator_MatchesPendingEndorsementRequest id) [Act (action_RecordEndorseFailure id)]
         [endorseFailureTransition]]
  | Event_EndorseRequestRejected => First
      [OnValid (validator_MatchesPendingEndorsementRequest id) [Act (action_RecordEndorseFailure id)]
         [endorseFailureTransition]]
  | Event_RequestTimeoutInterval => First [On [Act (action_NudgeEndorsementRequests id)] []]
  | Event_StateTimeoutInterval => First [On [] [To State_Pooled [Act (action_NotifyDependentsOfReset handle id)]]]
  | Event_DependencyReset => dependencyResetHandler
  | Event_DependencyConfirmedReverted => dependencyRevertedHandler
  | Event_ChainedDependencyFailed => chainedDependencyFailedHandler
  | _ => None
  end).

Definition stateBlocked : TxStateDefinition := MkStateDefinition [] [] (fun ty =>
  match ty with
  | Event_DependencyReady => First
      [On [ActIf (GuardNot (guard_HasSigner id)) (action_UpdateSigningIdentity id)]
          [ToIf State_Confirming_Dispatchable (GuardNot (guard_HasDependenciesNotReady id)) []]]
  | Event_DependencyReset => dependencyResetHandler
  | Event_DependencyConfirmedReverted => dependencyRevertedHandler
  | Event_ChainedDependencyFailed => chainedDependencyFailedHandler
  | _ => None
  end).

Definition stateConfirming_Dispatchable : TxStateDefinition :=
  MkStateDefinition [Act (action_ScheduleStateTimeout id); Act (action_SendPreDispatchRequest id)] [] (fun ty =>
  match ty with
  | Event_DispatchRequestApproved => First
      [OnValid (validator_MatchesPendingPreDispatchRequest id) [Act (action_DispatchRequestApproved id)]
         [To State_Preparing []]]
  | Event_DispatchRequestRejected => First
      [OnValid (validator_MatchesPendingPreDispatchRequest id) [Act (action_DispatchRequestRejected id)]
         [To State_Pooled [Act (action_NotifyDependentsOfReset handle id)]]]
  | Event_PreDispatchRequestRejected => First
      [OnValid validator_IsPreDispatchNotCurrentDelegateRejection [] [To State_Evicted []];
       OnValid validator_IsPreDispatchTransactionUnknownRejection []
         [To State_Final [Act (action_FinalizeAsUnknownByOriginator id)]]]
  | Event_RequestTimeoutInterval => First [On [Act (action_NudgePreDispatchRequest id)] []]
  | Event_StateTimeoutInterval => First
      [On [] [To State_Pooled [Act (action_DispatchRequestRejected id); Act (action_NotifyDependentsOfReset handle id)]]]
  | Event_DependencyReset => dependencyResetHandler
  | Event_DependencyConfirmedReverted => dependencyRevertedHandler
  | Event_ChainedDependencyFailed => chainedDependencyFailedHandler
  | _ => None
  end).

Definition statePreparing : TxStateDefinition :=
  MkStateDefinition [Act (action_AllocateSigningIdentity id); Act (action_StartPrepare id)]
    [Act (action_CancelPrepare id)] (fun ty =>
  match ty with
  | Event_PrepareSucceeded => First
      [OnValid (validator_MatchesInFlightPrepareID id) [Act (action_QueuePreparedDispatch id)]
         [To State_Ready_For_Dispatch []]]
  | Event_PrepareFailed => First
      [OnValid (validator_MatchesInFlightPrepareID id) []
         [To State_Pooled [Act (action_NotifyDependentsOfReset handle id)]]]
  | Event_DependencyReset => dependencyResetHandler
  | Event_DependencyConfirmedReverted => dependencyRevertedHandler
  | Event_ChainedDependencyFailed => chainedDependencyFailedHandler
  | _ => None
  end).

Definition stateReady_For_Dispatch : TxStateDefinition :=
  MkStateDefinition [Act (action_NotifyDependentsOfReadiness handle id)] [] (fun ty =>
  match ty with
  | Event_Dispatched => First [On [] [To State_Dispatched []]]
  | Event_DependencyReset => dependencyResetHandler
  | Event_DependencyConfirmedReverted => dependencyRevertedHandler
  | Event_ChainedDependencyFailed => chainedDependencyFailedHandler
  | _ => None
  end).

Definition stateDispatched : TxStateDefinition :=
  MkStateDefinition [Act (action_MarkDispatchedInFlight id); Act (action_NotifyDispatched id)]
    [Act (action_ClearDispatchedInFlight id)] (fun ty =>
  match ty with
  | Event_Collected => First [On [Act (action_NotifyCollected id)] []]
  | Event_NonceAllocated => First [On [Act (action_NotifyNonceAllocated id)] []]
  | Event_Submitted => First [On [Act (action_NotifySubmitted id)] []]
  | Event_ConfirmedSuccess => First
      [On [Act (action_RecordConfirmationSuccess id); Act (action_NotifyOriginatorOfConfirmation id)]
          [To State_Confirmed []]]
  | Event_ConfirmedReverted => First
      [On [Act (action_RecordConfirmationRevert id)]
          [ToIf State_PreAssembly_Blocked (GuardAnd [guard_CanRetryRevert id; guard_HasUnassembledDependencies id])
             [Act (action_NotifyOriginatorOfRetryableRevert id); Act (action_NotifyDependentsOfReset handle id)];
           ToIf State_Pooled (GuardAnd [guard_CanRetryRevert id; GuardNot (guard_HasUnassembledDependencies id)])
             [Act (action_NotifyOriginatorOfRetryableRevert id); Act (action_NotifyDependentsOfReset handle id)];
           ToIf State_Reverted (GuardNot (guard_CanRetryRevert id))
             [Act (action_RevertTransactionInGrapher id);
              Act (action_NotifyOriginatorOfNonRetryableRevert id);
              Act (action_NotifyDependentsOfRevertedConfirmation handle id);
              Act (action_FinalizeNonRetryableRevert id)]]]
  | Event_DependencyReset => All
      [OnValid (validator_IsChainedDependency id) [Act (action_MarkChainedDependencyUnassembled id)] [];
       On [Act (action_ResetTransactionLocks id); Act (action_NotifyDependentsOfReset handle id)] []]
  | Event_DependencySelectedForAssemble => First
      [OnValid (validator_IsChainedDependency id) [Act (action_MarkChainedDependencyAssembled id)] []]
  | Event_DependencyConfirmedReverted => All
      [OnValid (validator_IsChainedDependency id) [Act (action_MarkChainedDependencyUnassembled id)] [];
       On [Act (action_ResetTransactionLocks id); Act (action_NotifyDependentsOfReset handle id)] []]
  | Event_ChainedDependencyFailed => First
      [On [Act (action_FinalizeOnChainedDependencyFailure id);
           Act (action_NotifyOriginatorOfChainedDependencyFailure id)]
          [To State_Reverted []]]
  | _ => None
  end).

(** Leaving a terminal state once the originator has had time to learn of it. *)
Definition finalizing (ty : EventType) : option TxEventHandlers :=
  match ty with
  | Event_HeartbeatInterval => First
      [On [Act (action_IncrementHeartbeatIntervalsSinceStateChange id)]
          [ToIf State_Final (guard_HasFinalizingGracePeriodPassedSinceStateChange id) []]]
  | _ => None
  end.

Definition stateReverted : TxStateDefinition :=
  MkStateDefinition
    [Act (action_ResetTransactionLocks id); Act (action_CascadeChainedDependencyFailure handle id);
     Act (action_NotifyPreAssembleDependentOfTermination handle id)] [] finalizing.

Definition stateConfirmed : TxStateDefinition := MkStateDefinition [] [] finalizing.

Definition stateFinal : TxStateDefinition := MkStateDefinition [] [] (fun _ => None).

Definition stateEvicted : TxStateDefinition :=
  MkStateDefinition
    [Act (action_CascadeChainedDependencyEviction handle id);
     Act (action_NotifyPreAssembleDependentOfTermination handle id)] [] (fun _ => None).

Definition stateDefinitionsMap : StateDefinitions State EventType Event World := fun state =>
  Some match state with
  | State_Initial => stateInitial
  | State_PreAssembly_Blocked => statePreAssembly_Blocked
  | State_Pooled => statePooled
  | State_Assembling => stateAssembling
  | State_Signing => stateSigning
  | State_Endorsement_Gathering => stateEndorsement_Gathering
  | State_Blocked => stateBlocked
  | State_Confirming_Dispatchable => stateConfirming_Dispatchable
  | State_Preparing => statePreparing
  | State_Ready_For_Dispatch => stateReady_For_Dispatch
  | State_Dispatched => stateDispatched
  | State_Reverted => stateReverted
  | State_Confirmed => stateConfirmed
  | State_Final => stateFinal
  | State_Evicted => stateEvicted
  end.
End Table.

(** ** The machine in memory *)

(** The zero machine stands for a transaction that is not there; no event is handed to one. *)
Definition machineOf (id : uuid) (w : World) : Machine State EventType :=
  match transactionsByID w !! id with
  | Some t => stateMachine t
  | None => MkMachine State_Initial None 0%Z
  end.

Definition lockTx (id : uuid) (w : World) : option World :=
  if decide (id ∈ heldLocks w) then None else Some (w <| heldLocks ::= union {[id]} |>).

Definition unlockTx (id : uuid) (w : World) : World := w <| heldLocks ::= fun s => s ∖ {[id]} |>.

Definition txEntity (id : uuid) : Entity State EventType Event World :=
  MkEntity Type_of (machineOf id) (fun m => setTx id (fun t => t <| stateMachine := m |>)) w_now
    (lockTx id) (unlockTx id).

(** The callback of [initializeStateMachine]. *)
Definition transitionCallback (id : uuid) : TransitionCallback State Event World := fun from to _ w =>
  let w := setTx id (fun t => t <| heartbeatIntervalsSinceStateChange := 0%Z |> <| stateEntryTime := w_now w |>) w in
  (queueEventForCoordinator (TransactionStateTransitionEvent id from to) w).1.

Section HandleEvent.
Context `{Env}.

(** [HandleEvent] on a transaction, given how events are handed to others. *)
Definition HandleEvent (handle : uuid -> Event -> M World unit) (id : uuid) (event : Event) : M World unit :=
  ProcessEvent (txEntity id) (stateDefinitionsMap handle id) (Some (transitionCallback id)) event.

(** [coordinatorTransactionHandleEvent] (coordinating.go): the machine of a transaction the
    coordinator knows, by id.  [fuel] bounds the nesting of machines. *)
Fixpoint coordinatorTransactionHandleEvent (fuel : nat) (id : uuid) (event : Event) : M World unit :=
  match fuel with
  | O => crashM OutOfFuel
  | S fuel => fun w =>
      match transactionsByID w !! id with
      | None => (w, Err (MsgSequencerTransactionNotFound id))
      | Some _ => HandleEvent (coordinatorTransactionHandleEvent fuel) id event w
      end
  end.
End HandleEvent.

(** The table passes the check of [validateDefinitions]: in no [MatchFirst] set does a handler
    without a validator hide a later one. *)
Lemma stateDefinitionsMap_no_warnings `{Env} handle id s d ty hs :
  stateDefinitionsMap handle id s = Some d -> Events d ty = Some hs -> handlerSetWarnings hs = [].
Proof. intros Hd He. destruct s; injection Hd as <-; destruct ty; try discriminate He; injection He as <-; reflexivity. Qed.
