(* ===== verification/Sample.v ===== *)
(** * A small coordinator, to run the definitions on

    An environment whose components always answer, and worlds with a few transactions.  The
    witnesses of the theorems about transactions evaluate on these. *)

From S2P Require Import Prelude StateMachine DependencyTracker StateVisibility Grapher StateView Selection TxTypes CoordTypes World TxActions TxMachine.
Open Scope list_scope.

#[export] Instance sampleEnv : Env := {|
  env_transport _ _ := None;
  env_ResolveStatesForTransaction _ pa := Ok pa;
  env_IsBaseLedgerRevertRetryable _ := (true, EmptyString, None);
  env_keccak256 s := s;
  env_buildPublicTxSubmission _ _ := Ok "submission"%string;
  env_PrepareChainedPrivateTransaction _ _ _ _ := Ok None
|}.

Definition sampleConfig : TransactionConfig :=
  MkTransactionConfig "domain-key" SUBMITTER_COORDINATOR 5 10 100 3 1 1 1.

Definition samplePrivateTx (id : uuid) : PrivateTransaction :=
  MkPrivateTransaction id "domain" "0xc0ffee" SEND_TRANSACTION
    (Some (MkPreAssembly (MkTransactionSpecification "alice@node1" SEND_TRANSACTION EmptyString) [] [])) []
    None EmptyString None None None.

(** A transaction in the given state. *)
Definition sampleTx (id : uuid) (state : State) : coordinatorTransaction :=
  (freshTransaction sampleConfig 0 "alice@node1" "node1" "node2" (samplePrivateTx id))
    <| stateMachine := MkMachine state None 0%Z |>.

Definition sampleCoordinator : coordinatorFields :=
  MkCoordinatorFields "node2" COORDINATOR_ENDORSER ["node1"; "node2"]%string ["node1"; "node2"]%string 0 0 50 "key" false
    [] [] ∅ [].

Definition sampleWorld (txs : list coordinatorTransaction) (deps : dependencyTracker) : World :=
  MkWorld (list_to_map ((fun t => (pt_ID (pt t), t)) <$> txs)) ∅ (NewGrapher 5) deps ∅ ∅ sampleCoordinator
    [] [] [] ∅ ∅ 1000 0 0.

(** Transaction 2 is chained to transaction 1. *)
Definition sampleChain : dependencyTracker :=
  MkTracker ∅ ∅ (MkChained (AddPrerequisites ∅ 2%N [1%N]) ∅ ∅).

(** An assembly with the given plan. *)
Definition sampleAssembly (plan : list AttestationRequest) : TransactionPostAssembly :=
  MkPostAssembly (MkPostAssemblyProto AssembleTransactionResponse_OK EmptyString [] [] [] [] plan [] [] None None [])
    [] [] [] [] [].

Definition withAssembly (plan : list AttestationRequest) (t : coordinatorTransaction) : coordinatorTransaction :=
  t <| pt ::= fun p => p <| pt_PostAssembly := Some (sampleAssembly plan) |> |>.
