(* ===== verification/TxPropagation.v ===== *)
(** * How events propagate between transactions

    An event handed to one transaction may hand further events to its dependents, and theirs, each
    under its own lock.  Whatever the events, the outcomes of the components outside the model and
    the errors on the way: every transaction moves only along the edges of the table, none appears
    or disappears, a transaction whose lock is held keeps its state, the nesting is bounded by the
    number of transactions, and without a cycle of dependencies no lock is taken twice. *)

From S2P Require Import Prelude StateMachine Identity Selection DependencyTracker StateVisibility Grapher StateView TxTypes CoordTypes World TxActions TxMachine Sample.
Open Scope list_scope.

(** ** The actions of the table *)

(** Membership in lists written out. *)
Ltac list_member :=
  cbn [fmap list_fmap app];
  solve [repeat (apply list_elem_of_here || apply list_elem_of_further)].
Ltac split_members :=
  repeat match goal with
  | H : _ ∈ [] |- _ => inversion H
  | H : _ ∈ _ :: _ |- _ => apply elem_of_cons in H as [->|H]
  end.

Section Rules.
Context `{Env}.
Context (handle : uuid -> Event -> M World unit).
Context (id : uuid).

Definition txActions : list TxAction :=
  [action_ScheduleStateTimeout id; action_ClearStateTimeout id; action_InitializeForNewAssembly id;
   action_ResetTransactionLocks id; action_MarkChainedDependencyAssembled id; action_MarkChainedDependencyUnassembled id;
   action_NotifyDependentsOfReset handle id; action_FinalizeOnRevertedChainedDependencyAtCreation id;
   action_NotifyOriginatorOfChainedDependencyFailureAtCreation id; action_RemovePreAssembleDependency id;
   action_RemovePreAssemblePrereqOf id; action_NotifyDependentsOfSelection handle id; action_AssembleSuccess id;
   action_AssembleRevertResponse id; action_AssembleError id; action_SendAssembleRequest id;
   action_CaptureGrapherSnapshot id; action_DeleteGrapherSnapshot id; action_NudgeAssembleRequest id;
   action_LogAssembleRejection; action_Signed id; action_AssembleAndSign id; action_SignError id; action_Endorsed id;
   action_RefreshBlockHeight; action_SendEndorsementRequests id; action_NudgeEndorsementRequests id;
   action_ResetEndorsementRequests id; action_NotifyOriginatorOfEndorseRevert id; action_FinalizeEndorseRevert id;
   action_RecordEndorseFailure id; action_ComputeEndorseTolerances id; action_UpdateSigningIdentity id;
   action_NotifyDependentsOfReadiness handle id; action_AllocateSigningIdentity id; action_DispatchRequestApproved id;
   action_DispatchRequestRejected id; action_SendPreDispatchRequest id; action_NudgePreDispatchRequest id;
   action_RecordConfirmationSuccess id; action_RecordConfirmationRevert id; action_NotifyOriginatorOfConfirmation id;
   action_NotifyOriginatorOfRetryableRevert id; action_NotifyOriginatorOfNonRetryableRevert id;
   action_NotifyOriginatorOfChainedDependencyFailure id; action_FinalizeNonRetryableRevert id;
   action_NotifyDependentsOfRevertedConfirmation handle id; action_CascadeChainedDependencyFailure handle id;
   action_FinalizeOnChainedDependencyFailure id; action_RevertTransactionInGrapher id;
   action_CascadeChainedDependencyEviction handle id; action_NotifyPreAssembleDependentOfTermination handle id;
   action_StartPrepare id; action_CancelPrepare id; action_QueuePreparedDispatch id; action_NotifyDispatched id;
   action_MarkDispatchedInFlight id; action_ClearDispatchedInFlight id; action_NotifyCollected id;
   action_NotifyNonceAllocated id; action_NotifySubmitted id; action_FinalizeAsUnknownByOriginator id;
   action_IncrementHeartbeatIntervalsSinceStateChange id].

Definition txRules : list TxActionRule :=
  (Act <$> txActions) ++
  [ActIf (guard_AttestationPlanFulfilled id) (action_ResetEndorsementRequests id);
   ActIf (GuardAnd [guard_AttestationPlanFulfilled id; GuardNot (guard_HasSigner id)]) (action_UpdateSigningIdentity id);
   ActIf (GuardNot (guard_HasSigner id)) (action_UpdateSigningIdentity id)].

(** Every rule of the table is one of the actions above, perhaps guarded. *)
Lemma defined_rule_in rule :
  defined_rule (stateDefinitionsMap handle id) rule -> rule ∈ txRules.
Proof.
  intros [[s Hr]|(s & ty & h & (d & hs & Hd & He & Hh) & Hr)].
  - destruct s; destruct Hr as [Hr|Hr]; cbn in Hr; split_members; unfold txRules, txActions; list_member.
  - destruct s; injection Hd as <-; destruct ty; try discriminate He; injection He as <-; cbn in Hh; split_members;
      destruct Hr as [Hr|(tr & Htr & Hr)]; cbn in *; unfold assembledTransitions, signErrorTransitions in *;
      split_members; cbn in *; split_members; unfold txRules, txActions; list_member.
Qed.

(** The validators of the table only crash by a failed type assertion. *)
Lemma validator_crash_panic s ty h event w c :
  handles (stateDefinitionsMap handle id) s ty h -> matchesHandler event h w = Crash c -> c = Panic.
Proof.
  intros (d & hs & Hd & He & Hh).
  destruct s; injection Hd as <-; destruct ty; try discriminate He; injection He as <-; cbn in Hh; split_members.
  all: cbn [matchesHandler eh_Validator On OnValid]; try discriminate.
  all: unfold ValidatorNot, ValidatorAnd, validator_MatchesPendingAssembleRequest, validator_SignedCarriesAssembly,
    validator_IsChainedDependency, validator_IsPreAssembleDependency, validator_IsAssembleRejection,
    validator_MatchesPendingEndorsementRequest, validator_MatchesPendingPreDispatchRequest,
    validator_IsPreDispatchNotCurrentDelegateRejection, validator_IsPreDispatchTransactionUnknownRejection,
    validator_IsPreDispatchRejection, validator_MatchesInFlightPrepareID, validTx.
  all: repeat case_match; congruence.
Qed.
End Rules.

(** ** What the actions may touch *)

(** The fields that identify a transaction and its limits never change. *)
Definition sameIdentity (t t' : coordinatorTransaction) : Prop :=
  pt_ID (pt t') = pt_ID (pt t) /\ pt_Address (pt t') = pt_Address (pt t) /\
  pt_PreAssembly (pt t') = pt_PreAssembly (pt t) /\
  originator t' = originator t /\ originatorNode t' = originatorNode t /\
  requestTimeout t' = requestTimeout t /\ stateTimeout t' = stateTimeout t /\
  assembleErrorRetryThreshhold t' = assembleErrorRetryThreshhold t /\
  signErrorRetryThreshhold t' = signErrorRetryThreshhold t /\
  baseLedgerRevertRetryThreshold t' = baseLedgerRevertRetryThreshold t.

#[export] Instance sameIdentity_preorder : PreOrder sameIdentity.
Proof.
  split; [by intros t|].
  intros t1 t2 t3 (?&?&?&?&?&?&?&?&?&?) (?&?&?&?&?&?&?&?&?&?). unfold sameIdentity. split_and!; by etrans.
Qed.

Definition keepsMachine (f : coordinatorTransaction -> coordinatorTransaction) : Prop :=
  forall t, stateMachine (f t) = stateMachine t /\ sameIdentity t (f t).

(** The transactions that events are propagated to. *)
Definition dependentsOf (d : dependencyTracker) (id : uuid) : list uuid :=
  GetDependents (preAssembly d) id ++ GetDependents (postAssembly d) id ++ GetDependents (ch_chain (chained d)) id.

Definition tracker_le (d' d : dependencyTracker) : Prop :=
  dependents_le (preAssembly d') (preAssembly d) /\ dependents_le (postAssembly d') (postAssembly d) /\
  dependents_le (ch_chain (chained d')) (ch_chain (chained d)).

(** Events that carry an assembly, the only ones that add dependencies. *)
Definition carriesAssembly (event : Event) : bool :=
  match event with
  | AssembleSuccessEvent _ _ | AssembleRevertEvent _ _ | SignedEvent _ _ _ => true
  | _ => false
  end.

(** The events that transactions send to each other. *)
Definition passedOn (event : Event) : bool :=
  match event with
  | DependencyResetEvent _ | DependencySelectedForAssemblyEvent _ | DependencyReadyEvent | DependencyConfirmedRevertedEvent _
  | ChainedDependencyFailedEvent _ | ChainedDependencyEvictedEvent _ | PreAssembleDependencyTerminatedEvent => true
  | _ => false
  end.

Lemma passedOn_carriesAssembly event : passedOn event = true -> carriesAssembly event = false.
Proof. by destruct event. Qed.

(** What an action may do to the coordinator's fields: not rename the node, change how coordinators
    are selected, or rotate the signing identity; and of the events it queues, none says that a
    transaction changed state, for that is the engine's callback. *)
Definition notTransition (e : CoordinatorEvent) : Prop :=
  match e with TransactionStateTransitionEvent _ _ _ => False | _ => True end.

Record quiet (c c' : coordinatorFields) : Prop := MkQuiet {
  quiet_node : c_nodeName c' = c_nodeName c;
  quiet_selection : c_coordinatorSelection c' = c_coordinatorSelection c;
  quiet_identity : c_signingIdentity c' = c_signingIdentity c;
  quiet_queue : exists q, c_internalQueue c' = c_internalQueue c ++ q /\ Forall notTransition q
}.

#[export] Instance quiet_preorder : PreOrder quiet.
Proof.
  split.
  - intros c. split; [done..|]. exists []. by rewrite app_nil_r.
  - intros c1 c2 c3 [?? ? (q & Eq & ?)] [?? ? (q' & Eq' & ?)]. split; [congruence..|].
    exists (q ++ q'). rewrite Eq', Eq, app_assoc. split; [done|]. by apply Forall_app_2.
Qed.

Lemma quiet_same c c' :
  c_nodeName c' = c_nodeName c -> c_coordinatorSelection c' = c_coordinatorSelection c ->
  c_signingIdentity c' = c_signingIdentity c -> c_internalQueue c' = c_internalQueue c -> quiet c c'.
Proof. intros ? ? ? E. split; [done..|]. exists []. by rewrite E, app_nil_r. Qed.

Lemma quiet_queued c e : notTransition e -> quiet c (c <| c_internalQueue ::= fun q => q ++ [e] |>).
Proof. intros He. split; [done..|]. exists [e]. by rewrite Forall_singleton. Qed.

Lemma quiet_priorities c : quiet c (calculateCoordinatorPriorities c).
Proof. unfold calculateCoordinatorPriorities. case_match; by apply quiet_same. Qed.

Lemma quiet_candidates c nodes : quiet c (updateEndorserCandidates c nodes).1.
Proof. unfold updateEndorserCandidates. repeat case_match; by apply quiet_same. Qed.

Create HintDb quiet discriminated.
#[export] Hint Extern 2 (quiet _ _) => apply quiet_priorities : quiet.
#[export] Hint Extern 3 (quiet _ _) => apply quiet_candidates : quiet.
#[export] Hint Extern 4 (quiet _ _) => reflexivity : quiet.
#[export] Hint Extern 5 (quiet _ _) => apply quiet_queued; exact Logic.I : quiet.
#[export] Hint Extern 6 (quiet _ _) => apply quiet_same; reflexivity : quiet.

Lemma tracker_le_refl d : tracker_le d d.
Proof. by unfold tracker_le. Qed.

Lemma tracker_le_postAssembly d post :
  dependents_le post (postAssembly d) -> tracker_le (d <| postAssembly := post |>) d.
Proof. by unfold tracker_le. Qed.

Section ActionsKeep.
Context `{Env}.
Context (handle : uuid -> Event -> M World unit).
Context (id : uuid).
Context (I : World -> Prop) (C : crash -> Prop) (assembly : bool).
Context (HPanic : C Panic).
Context (Hupd : forall f w, keepsMachine f -> I w -> I (setTx id f w)).
Context (Hframe : forall w w', transactionsByID w' = transactionsByID w -> heldLocks w' = heldLocks w ->
  (assembly = false -> tracker_le (w_deps w') (w_deps w)) -> quiet (w_c w) (w_c w') -> I w -> I w').
Context (Hhandle : forall w dep event, I w -> dep ∈ dependentsOf (w_deps w) id -> passedOn event = true ->
  keeps I C (handle dep event)).

Lemma keeps_updTx f : keepsMachine f -> keeps I C (updTx id f).
Proof. intros Hf. apply keeps_modify. intros w. by apply Hupd. Qed.

Lemma keeps_modify_frame (f : World -> World) :
  (forall w, transactionsByID (f w) = transactionsByID w /\ heldLocks (f w) = heldLocks w /\
             (assembly = false -> tracker_le (w_deps (f w)) (w_deps w)) /\ quiet (w_c w) (w_c (f w))) ->
  keeps I C (modify f).
Proof. intros Hf. apply keeps_modify. intros w. destruct (Hf w) as (?&?&?&?). by apply Hframe. Qed.

Lemma keeps_getTx : keeps I C (getTx id).
Proof. intros w Hw. unfold getTx. destruct (_ !! _); split; try done. by intros c [= <-]. Qed.

Lemma keeps_newUUID : keeps I C newUUID.
Proof. intros w Hw. split; [|done]. by apply (Hframe w); auto with quiet. Qed.

Lemma keeps_send msg : keeps I C (send msg).
Proof. intros w Hw. unfold send. destruct (env_transport _ _); split; try done. by apply (Hframe w); auto with quiet. Qed.

Lemma keeps_onDeps f : (forall d, tracker_le (f d) d) -> keeps I C (onDeps f).
Proof. intros Hf. apply keeps_modify_frame. intros w. split_and!; [done|done|intros _; apply Hf|auto with quiet]. Qed.

Lemma keeps_onChained f : (forall cd, dependents_le (ch_chain (f cd)) (ch_chain cd)) -> keeps I C (onChained f).
Proof. intros Hf. apply keeps_onDeps. intros d. split_and!; [done|done|]. apply Hf. Qed.

Lemma keeps_onGrapher f : (forall m, dependents_le (gm_deps (f m)) (gm_deps m)) -> keeps I C (onGrapher f).
Proof.
  intros Hf. apply keeps_modify_frame. intros w. split_and!; [done|done| |auto with quiet].
  intros _. split_and!; [done| |done]. apply Hf.
Qed.

Lemma keeps_getSigningIdentity : keeps I C getCoordinatorSigningIdentity.
Proof. intros w Hw. split; [|done]. by apply (Hframe w); auto with quiet. Qed.

Lemma keeps_liftR_panic {A} (f : World -> res A) : (forall w c, f w = Crash c -> c = Panic) -> keeps I C (liftR f).
Proof. intros Hf. apply keeps_liftR. intros w c Hc. by rewrite (Hf w c Hc). Qed.

Lemma keeps_notify (l : World -> list uuid) event :
  (forall w, l w ⊆ dependentsOf (w_deps w) id) -> passedOn event = true ->
  keeps I C (dependents ← gets l; for_each dependents (fun dep => handle dep event)).
Proof.
  intros Hl He. apply keeps_bind_gets. intros w Hw. apply keeps_for_each.
  intros dep Hdep. apply (Hhandle w); [done| |done]. by apply Hl.
Qed.

Lemma keeps_notify_logged (l : World -> list uuid) event :
  (forall w, l w ⊆ dependentsOf (w_deps w) id) -> passedOn event = true ->
  keeps I C (dependents ← gets l; for_each dependents (fun dep => log_error (handle dep event))).
Proof.
  intros Hl He. apply keeps_bind_gets. intros w Hw. apply keeps_for_each.
  intros dep Hdep. apply keeps_log_error, (Hhandle w); [done| |done]. by apply Hl.
Qed.

(** One step of the program text. *)
Ltac keeps_step :=
  first
  [ apply keeps_ret | apply keeps_gets | apply keeps_throw | apply keeps_crash, HPanic
  | apply keeps_getTx | apply keeps_newUUID | apply keeps_send | apply keeps_getSigningIdentity
  | lazymatch goal with
    | |- keeps _ _ (mbind _ _) => apply keeps_bind; [|intros ?]
    | |- keeps _ _ (log_error _) => apply keeps_log_error
    | |- keeps _ _ (for_each _ _) => apply keeps_for_each; intros ? _
    end
  | apply keeps_updTx; intros []; done
  | apply keeps_modify_frame; intros []; split_and!; [done|done|done|solve [auto with quiet]]
  | apply keeps_onChained; intros []; done
  | progress (apply keeps_liftR_panic; intros ? ?)
  | match goal with |- keeps _ _ (match ?x with _ => _ end) => destruct x end
  | match goal with |- keeps _ _ (if ?x then _ else _) => destruct x end ].
Ltac keeps_go := repeat keeps_step.

Lemma keeps_clearTimeoutSchedules : keeps I C (clearTimeoutSchedules id).
Proof. unfold clearTimeoutSchedules, clearRequestTimeoutSchedule, clearStateTimeoutSchedule, cancelTimer. keeps_go. Qed.

Lemma keeps_ScheduleTimer d e : keeps I C (ScheduleTimer id d e).
Proof. unfold ScheduleTimer. keeps_go. Qed.

Lemma keeps_scheduleRequestTimeout : keeps I C (scheduleRequestTimeout id).
Proof.
  unfold scheduleRequestTimeout, clearRequestTimeoutSchedule, cancelTimer. keeps_go; apply keeps_ScheduleTimer.
Qed.

Lemma keeps_scheduleStateTimeout : keeps I C (scheduleStateTimeout id).
Proof. unfold scheduleStateTimeout, clearStateTimeoutSchedule, cancelTimer. keeps_go; apply keeps_ScheduleTimer. Qed.

Lemma keeps_forgetTransactionAndLocks : keeps I C (forgetTransactionAndLocks id).
Proof.
  apply keeps_onGrapher. intros m. destruct (proj1 (gm_deps_forget m id)) as [-> | ->]; [|done].
  apply dependents_le_Delete.
Qed.

Lemma keeps_finalizeWith msg : keeps I C (finalizeWith id msg).
Proof. unfold finalizeWith, QueueTransactionFinalize. keeps_go. Qed.

Lemma keeps_sendConfirmed outcome n reason msg b : keeps I C (sendConfirmed id outcome n reason msg b).
Proof. unfold sendConfirmed. keeps_go. Qed.

Lemma Node_no_crash party b c : Node party b <> Crash c.
Proof. unfold Node, mapRes, Validate. repeat case_match; congruence. Qed.

Lemma keeps_Nudge r : keeps I C (Nudge id r).
Proof. unfold Nudge, runSend, requestEndorsement. keeps_go. by intros ?%Node_no_crash. Qed.

Lemma keeps_initializeForNewAssembly : keeps I C (initializeForNewAssembly id).
Proof.
  unfold initializeForNewAssembly, resetEndorsementRequests.
  keeps_go; eauto using keeps_clearTimeoutSchedules, keeps_forgetTransactionAndLocks.
Qed.

Lemma keeps_notifyDependentsOfReset : keeps I C (notifyDependentsOfReset handle id).
Proof. apply keeps_notify_logged; [|done]. intros w x. unfold allDependents, dependentsOf. set_solver. Qed.

Lemma keeps_nudgeAssembleRequest : keeps I C (nudgeAssembleRequest id).
Proof. unfold nudgeAssembleRequest. keeps_go; apply keeps_Nudge. Qed.

Lemma keeps_refreshBlockHeight : keeps I C refreshBlockHeight.
Proof.
  unfold refreshBlockHeight, queueEventForCoordinator. keeps_go.
  unfold ComputeEffectiveBlockHeight. case_match; congruence.
Qed.

Lemma keeps_sendEndorsementRequest r : keeps I C (sendEndorsementRequest id r).
Proof.
  unfold sendEndorsementRequest, storeEndorsementRequest. keeps_go; apply keeps_Nudge.
Qed.

Lemma keeps_sendEndorsementRequests : keeps I C (sendEndorsementRequests id).
Proof.
  unfold sendEndorsementRequests, notifyEndorserCandidates.
  keeps_go; eauto using keeps_scheduleRequestTimeout, keeps_sendEndorsementRequest.
Qed.

Lemma keeps_applySignature r : keeps I C (applySignature id r).
Proof. unfold applySignature, setPostAssembly. keeps_go. Qed.

Lemma addMints_no_crash g l c : (addMints g l id).2 <> Crash c.
Proof. revert g. induction l as [|x l IH]; intros g; simpl; [done|]. by case_match. Qed.

Lemma keeps_addMinter l : assembly = true -> keeps I C (addMinter id l).
Proof.
  intros Ha w Hw. unfold addMinter, AddMinter.
  pose proof (addMints_no_crash (addConsumer (gm_g (grapherMemOf w)) id) l) as Hn.
  destruct (addMints _ _ _) as [g r]. split.
  - apply (Hframe w); first [done | congruence | auto with quiet].
  - intros c Hc. by destruct (Hn c).
Qed.

(** With assemblies allowed, the grapher may be given anything to do. *)
Lemma keeps_onGrapher_assembly f : assembly = true -> keeps I C (onGrapher f).
Proof. intros Ha. apply keeps_modify_frame. intros w. split_and!; first [done | congruence | auto with quiet]. Qed.

Lemma keeps_applyPostAssembly pa r : assembly = true -> keeps I C (applyPostAssembly id pa r).
Proof.
  intros Ha. unfold applyPostAssembly, setPostAssembly, revertTransactionFailedAssembly, queueEventForCoordinator,
    recordOutputStateVisibility.
  keeps_go; eauto using keeps_clearTimeoutSchedules, keeps_finalizeWith, keeps_addMinter, keeps_onGrapher_assembly.
Qed.

Lemma keeps_sendPreDispatchRequest : keeps I C (sendPreDispatchRequest id).
Proof.
  unfold sendPreDispatchRequest, nudgePreDispatchRequest.
  keeps_go; eauto using keeps_scheduleRequestTimeout, keeps_Nudge.
  unfold hash. by case_match.
Qed.

Lemma keeps_recordEndorseFailure name party r : keeps I C (recordEndorseFailure id name party r).
Proof. unfold recordEndorseFailure. keeps_go. Qed.

Lemma keeps_recordRevert msg reason onChain : keeps I C (updTx id (recordRevert msg reason onChain)).
Proof.
  apply keeps_updTx. intros t. unfold recordRevert. destruct (ocl_Type onChain); [done|..].
  all: by destruct (env_IsBaseLedgerRevertRetryable reason) as [[??]?].
Qed.

Lemma keeps_forgetConfirmed block : keeps I C (onGrapher (fun m => ForgetTransaction m id block)).
Proof.
  apply keeps_onGrapher. intros m. destruct (proj2 (gm_deps_forget m id) block) as [-> | ->]; [|done].
  apply dependents_le_Delete.
Qed.

Lemma foldl_registerChild_chain l cd : ch_chain (foldl (registerChild id) cd l) = ch_chain cd.
Proof.
  revert cd. induction l as [|d l IH]; intros cd; simpl; [done|]. rewrite IH.
  unfold registerChild. by case_match.
Qed.

Lemma GetDependent_sub d x : match GetDependent d x with Some dep => [dep] | None => [] end ⊆ GetDependents d x.
Proof. unfold GetDependent. destruct (GetDependents d x); simpl; set_solver. Qed.

Lemma keeps_notifyDependentsOfSelection : keeps I C (notifyDependentsOfSelection handle id).
Proof.
  apply keeps_notify; [|done]. intros w x. rewrite elem_of_app. unfold chainedDependents, dependentsOf.
  rewrite !elem_of_app. intros [Hx|Hx]; [auto|]. left. by apply GetDependent_sub.
Qed.

Lemma keeps_notifyTermination : keeps I C (action_NotifyPreAssembleDependentOfTermination handle id HeartbeatIntervalEvent).
Proof.
  unfold action_NotifyPreAssembleDependentOfTermination. apply keeps_bind_gets. intros w Hw.
  pose proof (GetDependent_sub (preAssembly (w_deps w)) id) as Hsub.
  destruct (GetDependent _ _) as [dep|]; [|apply keeps_ret].
  apply (Hhandle w); [done| |done]. unfold dependentsOf. set_solver.
Qed.

Lemma keeps_notifyReadiness : keeps I C (notifyDependentsOfReadiness handle id).
Proof.
  apply keeps_notify_logged; [|done]. intros w x. unfold grapherGetDependents, chainedDependents, dependentsOf. simpl.
  case_bool_decide; set_solver.
Qed.

Lemma keeps_notify_chained event : passedOn event = true ->
  keeps I C (dependents ← gets (fun w => chainedDependents w id); for_each dependents (fun dep => handle dep event)).
Proof. apply keeps_notify. intros w x. unfold chainedDependents, dependentsOf. set_solver. Qed.

Lemma keeps_notify_all event : passedOn event = true ->
  keeps I C (dependents ← gets (fun w => allDependents w id); for_each dependents (fun dep => handle dep event)).
Proof. apply keeps_notify. intros w x. unfold allDependents, dependentsOf. set_solver. Qed.

#[local] Hint Resolve keeps_clearTimeoutSchedules keeps_scheduleRequestTimeout keeps_scheduleStateTimeout
  keeps_forgetTransactionAndLocks keeps_finalizeWith keeps_sendConfirmed keeps_Nudge keeps_initializeForNewAssembly
  keeps_notifyDependentsOfReset keeps_nudgeAssembleRequest keeps_refreshBlockHeight keeps_sendEndorsementRequests
  keeps_applySignature keeps_applyPostAssembly keeps_sendPreDispatchRequest keeps_recordEndorseFailure
  keeps_recordRevert keeps_forgetConfirmed keeps_notifyDependentsOfSelection keeps_notifyTermination
  keeps_notifyReadiness keeps_notify_chained keeps_notify_all : keeps.

(** Every action of the table, on every event the setting allows. *)
Lemma txActions_keep action event :
  action ∈ txActions handle id -> (carriesAssembly event = true -> assembly = true) -> keeps I C (action event).
Proof.
  intros Hin Hev. unfold txActions in Hin.
  repeat (apply elem_of_cons in Hin as [->|Hin]); [..|by inversion Hin].
  all: lazymatch goal with |- keeps _ _ (?a _) =>
         let rec go t := lazymatch t with ?f _ => go f | _ => unfold t end in go a end.
  all: try solve [eauto with keeps].
  all: try match goal with |- keeps _ _ (match ?e with _ => _ end) => is_var e; destruct e;
             try solve [apply keeps_crash, HPanic | apply keeps_ret] end.
  all: try solve [eauto 3 with keeps].
  all: unfold clearStateTimeoutSchedule, cancelTimer, completePreDispatchRequest, nudgePreDispatchRequest,
    sendAssembleRequest, resetEndorsementRequests, applyEndorsement, allocateSigningIdentity, setPostAssembly,
    QueueTransactionFinalize, setDispatchedInFlight, enqueueForDispatch.
  all: try solve [keeps_go; eauto 3 with keeps].
  - apply keeps_onDeps. intros d. split_and!; [apply dependents_le_ClearPrerequisites|done..].
  - apply keeps_onDeps. intros d. split_and!; [apply dependents_le_ClearDependents|done..].
  - apply keeps_bind; [|intros _; keeps_go]. apply keeps_onChained. intros cd. by rewrite foldl_registerChild_chain.
Qed.

Lemma defined_rule_keeps rule event :
  defined_rule (stateDefinitionsMap handle id) rule -> (carriesAssembly event = true -> assembly = true) ->
  keeps I C (ar_Action rule event).
Proof.
  intros Hr%defined_rule_in Hev.
  assert (Hin : ar_Action rule ∈ txActions handle id); [|by apply txActions_keep].
  apply elem_of_app in Hr as [Hr|Hr].
  - apply list_elem_of_fmap in Hr as (action & -> & Hin). exact Hin.
  - unfold txActions. repeat (apply elem_of_cons in Hr as [->|Hr]); [..|by inversion Hr]; list_member.
Qed.

(** Dispatching an event keeps what its actions keep, if taking a transition does too. *)
Lemma dispatchEvent_tx_keeps event :
  (forall s w, I w -> I (enterState (txEntity id) s event w)) ->
  (forall from to w, I w -> I (transitionCallback id from to event w)) ->
  (carriesAssembly event = true -> assembly = true) ->
  keeps I C (dispatchEvent (txEntity id) (stateDefinitionsMap handle id) (Some (transitionCallback id)) event).
Proof.
  intros Henter Hcb Hev. apply dispatchEvent_keeps; [done|..].
  - intros rule Hr. by apply defined_rule_keeps.
  - intros s ty h w c Hh Hc. by rewrite (validator_crash_panic handle id s ty h event w c Hh Hc).
  - done.
  - intros cb from to w [= <-]. apply Hcb.
Qed.
End ActionsKeep.

(** ** The lifecycle: the abstract table of states *)

(** The states a transaction may go to from [s] on an event of type [ty]. *)
Definition nextStates (s : State) (ty : EventType) : list State :=
  let reset := [State_PreAssembly_Blocked; State_Pooled] in
  match s, ty with
  | State_Initial, Event_Delegated => [State_Reverted; State_Evicted; State_PreAssembly_Blocked; State_Pooled]
  | State_PreAssembly_Blocked, (Event_DependencySelectedForAssemble | Event_PreAssembleDependencyTerminated) => [State_Pooled]
  | State_Pooled, Event_Selected => [State_Assembling]
  | State_Pooled, (Event_DependencyReset | Event_DependencyConfirmedReverted) => [State_PreAssembly_Blocked]
  | State_Assembling, (Event_AssembleSuccess | Event_Signed) =>
      [State_Signing; State_Endorsement_Gathering; State_Confirming_Dispatchable; State_Blocked]
  | State_Assembling, (Event_SignError | Event_AssembleError) => [State_Pooled; State_Evicted]
  | State_Assembling, (Event_StateTimeoutInterval | Event_AssembleCancelled) => [State_Pooled]
  | State_Assembling, Event_AssembleRevert => [State_Reverted]
  | State_Assembling, Event_AssembleRequestRejected => [State_Pooled; State_Evicted; State_Final]
  | State_Assembling, (Event_DependencyReset | Event_DependencyConfirmedReverted) => [State_PreAssembly_Blocked]
  | State_Signing, Event_Signed => [State_Endorsement_Gathering; State_Confirming_Dispatchable; State_Blocked]
  | State_Signing, Event_SignError => [State_Pooled; State_Evicted]
  | State_Signing, Event_StateTimeoutInterval => [State_Pooled]
  | State_Endorsement_Gathering, Event_Endorsed => [State_Confirming_Dispatchable; State_Blocked]
  | State_Endorsement_Gathering, Event_EndorseRevert => [State_Reverted; State_Pooled]
  | State_Endorsement_Gathering, (Event_EndorseError | Event_EndorseRequestRejected | Event_StateTimeoutInterval) => [State_Pooled]
  | State_Blocked, Event_DependencyReady => [State_Confirming_Dispatchable]
  | State_Confirming_Dispatchable, Event_DispatchRequestApproved => [State_Preparing]
  | State_Confirming_Dispatchable, (Event_DispatchRequestRejected | Event_StateTimeoutInterval) => [State_Pooled]
  | State_Confirming_Dispatchable, Event_PreDispatchRequestRejected => [State_Evicted; State_Final]
  | State_Preparing, Event_PrepareSucceeded => [State_Ready_For_Dispatch]
  | State_Preparing, Event_PrepareFailed => [State_Pooled]
  | State_Ready_For_Dispatch, Event_Dispatched => [State_Dispatched]
  | State_Dispatched, Event_ConfirmedSuccess => [State_Confirmed]
  | State_Dispatched, Event_ConfirmedReverted => [State_PreAssembly_Blocked; State_Pooled; State_Reverted]
  | (State_Signing | State_Endorsement_Gathering | State_Blocked | State_Confirming_Dispatchable | State_Preparing
     | State_Ready_For_Dispatch), (Event_DependencyReset | Event_DependencyConfirmedReverted) => reset
  | (State_Initial | State_Reverted | State_Confirmed | State_Final | State_Evicted), Event_ChainedDependencyFailed => []
  | _, Event_ChainedDependencyFailed => [State_Reverted]
  | (State_PreAssembly_Blocked | State_Pooled | State_Assembling), Event_ChainedDependencyEvicted => [State_Evicted]
  | (State_Reverted | State_Confirmed), Event_HeartbeatInterval => [State_Final]
  | _, _ => []
  end.

Definition lifecycle (s s' : State) : Prop := exists ty, s' ∈ nextStates s ty.

Section Lifecycle.
Context `{Env} (handle : uuid -> Event -> M World unit) (id : uuid).

Lemma targets_nextStates s ty : targets (stateDefinitionsMap handle id) s ty = nextStates s ty.
Proof. destruct s, ty; reflexivity. Qed.

Lemma edge_nextStates s ty s' : edge (stateDefinitionsMap handle id) s ty s' <-> s' ∈ nextStates s ty.
Proof. by rewrite edge_targets, targets_nextStates. Qed.
End Lifecycle.

(** ** Every transaction moves along the lifecycle *)

(** From [w] to [w'] the same locks are held and the same transactions exist, each identified as
    before; each has moved along the lifecycle, and not at all if its lock is held. *)
Definition evolves (w w' : World) : Prop :=
  heldLocks w' = heldLocks w /\
  forall j, match transactionsByID w !! j, transactionsByID w' !! j with
            | Some t, Some t' =>
                sameIdentity t t' /\
                rtc lifecycle (currentState (stateMachine t)) (currentState (stateMachine t')) /\
                (j ∈ heldLocks w -> currentState (stateMachine t') = currentState (stateMachine t))
            | None, None => True
            | _, _ => False
            end.

#[export] Instance evolves_preorder : PreOrder evolves.
Proof.
  split.
  - intros w. split; [done|]. intros j. destruct (transactionsByID w !! j); [|done]. split_and!; done.
  - intros w1 w2 w3 [Hl1 H1] [Hl2 H2]. split; [congruence|]. intros j. specialize (H1 j). specialize (H2 j).
    destruct (transactionsByID w1 !! j), (transactionsByID w2 !! j), (transactionsByID w3 !! j); try done.
    destruct H1 as (? & ? & Hh1), H2 as (? & ? & Hh2). split_and!; [by etrans|by etrans|].
    intros Hj. rewrite Hh2, Hh1; congruence.
Qed.

Lemma evolves_frame w w' :
  transactionsByID w' = transactionsByID w -> heldLocks w' = heldLocks w -> evolves w w'.
Proof.
  intros Ht Hl. split; [done|]. intros j. rewrite Ht. destruct (transactionsByID w !! j); [|done]. split_and!; done.
Qed.

Lemma evolves_setTx id f w : keepsMachine f -> evolves w (setTx id f w).
Proof.
  intros Hf. split; [done|]. intros j. unfold setTx. simpl.
  destruct (decide (j = id)) as [->|Hne].
  - rewrite lookup_alter_eq. destruct (transactionsByID w !! id) as [t|]; simpl; [|done].
    destruct (Hf t) as [-> Hi]. split_and!; done.
  - rewrite lookup_alter_ne by done. destruct (transactionsByID w !! j); [|done]. split_and!; done.
Qed.

Lemma evolves_callback id from to event w : evolves w (transitionCallback id from to event w).
Proof.
  etrans; [apply (evolves_setTx id (fun t => t <| heartbeatIntervalsSinceStateChange := 0%Z |> <| stateEntryTime := w_now w |>))|].
  - by intros t.
  - by apply evolves_frame.
Qed.

Section Evolves.
Context `{Env}.

Lemma txEntity_laws_at id w t :
  transactionsByID w !! id = Some t -> GetCurrentState (txEntity id) w = currentState (stateMachine t).
Proof. intros Ht. unfold GetCurrentState, txEntity, machineOf. simpl. by rewrite Ht. Qed.

Lemma respects_evolves_rule handle id rule event :
  (forall dep event, respects evolves (handle dep event)) ->
  defined_rule (stateDefinitionsMap handle id) rule -> respects evolves (ar_Action rule event).
Proof.
  intros Hh Hr. apply keeps_respects; [apply _|]. intros w0.
  apply (defined_rule_keeps handle id (evolves w0) (fun _ => True) true); try done.
  - intros f w Hf Hw. etrans; [exact Hw|]. by apply evolves_setTx.
  - intros w w' Ht Hl _ _ Hw. etrans; [exact Hw|]. by apply evolves_frame.
  - intros w dep ev _ _ _ w1 Hw1. split; [|done]. etrans; [exact Hw1|apply Hh].
Qed.

Lemma enterState_lookup id s event w j :
  transactionsByID (enterState (txEntity id) s event w) !! j
  = if decide (j = id)
    then (fun t => t <| stateMachine := MkMachine s (Some (Type_of event)) (w_now w) |>) <$> transactionsByID w !! j
    else transactionsByID w !! j.
Proof.
  unfold enterState, SetCurrentState, txEntity, setTx, machineOf. simpl. case_decide as Hj.
  - subst j. rewrite !lookup_alter_eq. by destruct (transactionsByID w !! id).
  - by rewrite !lookup_alter_ne by done.
Qed.

(** Taking one transition of a transaction whose lock is not in [L]. *)
Lemma evolves_enterState id t s event w :
  transactionsByID w !! id = Some t -> lifecycle (currentState (stateMachine t)) s -> id ∉ heldLocks w ->
  evolves w (enterState (txEntity id) s event w).
Proof.
  intros Ht Hs Hl. split; [done|]. intros j. rewrite enterState_lookup. case_decide as Hj.
  - subst j. rewrite Ht. simpl. split_and!; [done|by apply rtc_once|done].
  - destruct (transactionsByID w !! j); [|done]. split_and!; done.
Qed.

(** Only [id] is added to the locks, or taken off them again. *)
Lemma evolves_relock w w' L :
  evolves (w <| heldLocks := L |>) w' -> heldLocks w ⊆ L -> evolves w (w' <| heldLocks := heldLocks w |>).
Proof.
  intros [Hl He] Hsub. split; [done|]. intros j. specialize (He j). simpl in *.
  destruct (transactionsByID w !! j), (transactionsByID w' !! j); try done.
  destruct He as (? & ? & Hs). split_and!; [done|done|]. intros Hj. apply Hs. set_solver.
Qed.

(** The same, between a world where [id] is locked as well and one where it is not. *)
Lemma evolves_underLock w w' L : heldLocks w = L -> evolves w w' -> forall L', L' ⊆ L ->
  evolves (w <| heldLocks := L' |>) (w' <| heldLocks := L' |>).
Proof.
  intros Hl He L' Hsub.
  change (w' <| heldLocks := L' |>) with (w' <| heldLocks := heldLocks (w <| heldLocks := L' |>) |>).
  apply (evolves_relock (w <| heldLocks := L' |>) w' L); [|done].
  destruct w. simpl in *. by subst.
Qed.

Lemma took_evolves handle id event t w w1 w2 w3 tr h :
  transactionsByID w !! id = Some t -> id ∉ heldLocks w ->
  w1 = w <| heldLocks ::= union {[id]} |> ->
  handles (stateDefinitionsMap handle id) (currentState (stateMachine t)) (Type_of event) h -> tr ∈ eh_Transitions h ->
  evolves w1 w3 -> evolves (enterState (txEntity id) (tr_To tr) event w3) w2 ->
  evolves w (w2 <| heldLocks := heldLocks w |>).
Proof.
  intros Ht Hid -> Hh Htr Hw3 Hw2.
  assert (Hl3 : heldLocks w3 = {[id]} ∪ heldLocks w) by apply Hw3.
  assert (Ht3 : exists t3, transactionsByID w3 !! id = Some t3 /\
                currentState (stateMachine t3) = currentState (stateMachine t)).
  { destruct Hw3 as [_ H3]. specialize (H3 id). simpl in H3. rewrite Ht in H3.
    destruct (transactionsByID w3 !! id) as [t3|]; [|done]. exists t3. split; [done|].
    apply H3. set_solver. }
  destruct Ht3 as (t3 & Ht3 & Hs3).
  etrans; [apply (evolves_relock w w3 ({[id]} ∪ heldLocks w)); [exact Hw3|set_solver]|].
  etrans; [apply (evolves_enterState id t3 (tr_To tr) event); [exact Ht3| |exact Hid]|].
  - rewrite Hs3. exists (Type_of event). apply (edge_nextStates handle id). by exists h, tr.
  - exact (evolves_underLock (enterState (txEntity id) (tr_To tr) event w3) w2 ({[id]} ∪ heldLocks w) Hl3 Hw2 (heldLocks w) ltac:(set_solver)).
Qed.

Lemma respects_evolves_cb id cb from to event w :
  Some (transitionCallback id) = Some cb -> evolves w (cb from to event w).
Proof. intros [= <-]. apply evolves_callback. Qed.

(** Re-entering a locked transaction blocks, and nothing else happens. *)
Lemma HandleEvent_locked handle id event w :
  id ∈ heldLocks w -> HandleEvent handle id event w = (w, Crash Deadlock).
Proof. intros Hid. unfold HandleEvent, ProcessEvent, txEntity at 1, lockTx. simpl. by rewrite decide_True. Qed.

Lemma HandleEvent_unlocked handle id event w :
  id ∉ heldLocks w ->
  HandleEvent handle id event w
  = let '(w2, r) := dispatchEvent (txEntity id) (stateDefinitionsMap handle id) (Some (transitionCallback id)) event
                      (w <| heldLocks ::= union {[id]} |>) in
    (unlockTx id w2, r).
Proof. intros Hid. unfold HandleEvent, ProcessEvent, txEntity at 1, lockTx. simpl. by rewrite decide_False. Qed.

(** What [HandleEvent] does under the lock. *)
Lemma HandleEvent_stepped handle id event t w :
  (forall dep event, respects evolves (handle dep event)) ->
  transactionsByID w !! id = Some t -> id ∉ heldLocks w ->
  exists w2 r, HandleEvent handle id event w = (w2 <| heldLocks := heldLocks w |>, r) /\
    stepped (txEntity id) (stateDefinitionsMap handle id) (Some (transitionCallback id)) evolves
      (currentState (stateMachine t)) (Type_of event) event (w <| heldLocks ::= union {[id]} |>) (w2, r).
Proof.
  intros Hh Ht Hid. rewrite HandleEvent_unlocked by done.
  set (w1 := w <| heldLocks ::= union {[id]} |>).
  pose proof (dispatch_stepped (txEntity id) (stateDefinitionsMap handle id) (Some (transitionCallback id)) evolves
    (fun rule ev => respects_evolves_rule handle id rule ev Hh) event w1) as Hd.
  rewrite (txEntity_laws_at id w1 t Ht) in Hd. cbn [ent_type txEntity] in Hd.
  destruct (dispatchEvent _ _ _ event w1) as [w2 r]. exists w2, r. split; [|exact Hd].
  assert (Hl : heldLocks w2 = {[id]} ∪ heldLocks w).
  { destruct Hd as [Hd|Hd]; [apply Hd|].
    apply took_entered in Hd as (h & tr & w3 & _ & _ & Hw3 & Hw2); [|apply _|..].
    - exact (eq_trans (proj1 Hw2) (proj1 Hw3)).
    - intros rule ev. by apply respects_evolves_rule.
    - apply respects_evolves_cb. }
  unfold unlockTx, field_set. simpl. rewrite Hl. do 2 f_equal. set_solver.
Qed.

Lemma stepped_entered handle id s ty event w out :
  (forall dep event, respects evolves (handle dep event)) ->
  stepped (txEntity id) (stateDefinitionsMap handle id) (Some (transitionCallback id)) evolves s ty event w out ->
  evolves w out.1 \/
  exists h tr w3, handles (stateDefinitionsMap handle id) s ty h /\ tr ∈ eh_Transitions h /\ evolves w w3 /\
    evolves (enterState (txEntity id) (tr_To tr) event w3) out.1.
Proof.
  intros Hh [Hd|Hd]; [by left|right]. apply took_entered in Hd; [done|apply _|..].
  - intros rule ev. by apply respects_evolves_rule.
  - apply respects_evolves_cb.
Qed.

Lemma HandleEvent_evolves handle id event t w :
  (forall dep event, respects evolves (handle dep event)) ->
  transactionsByID w !! id = Some t ->
  evolves w (HandleEvent handle id event w).1.
Proof.
  intros Hh Ht. destruct (decide (id ∈ heldLocks w)) as [Hid|Hid]; [by rewrite HandleEvent_locked|].
  destruct (HandleEvent_stepped handle id event t w Hh Ht Hid) as (w2 & r & -> & Hd). simpl.
  apply stepped_entered in Hd as [Hd|(h & tr & w3 & Hhd & Htr & Hw3 & Hw2)]; [..|done].
  - apply (evolves_relock w w2 ({[id]} ∪ heldLocks w)); [exact Hd|set_solver].
  - by eapply (took_evolves handle id event t w _ w2 w3 tr h).
Qed.

(** The transaction itself takes at most one edge, on the event's own type. *)
Lemma HandleEvent_own handle id event t w :
  (forall dep event, respects evolves (handle dep event)) ->
  transactionsByID w !! id = Some t ->
  exists t', transactionsByID (HandleEvent handle id event w).1 !! id = Some t' /\ sameIdentity t t' /\
    (currentState (stateMachine t') = currentState (stateMachine t) \/
     currentState (stateMachine t') ∈ nextStates (currentState (stateMachine t)) (Type_of event)).
Proof.
  intros Hh Ht. pose proof (proj2 (HandleEvent_evolves handle id event t w Hh Ht) id) as He. rewrite Ht in He.
  destruct (transactionsByID (HandleEvent handle id event w).1 !! id) as [t'|] eqn:Ht'; [|done].
  exists t'. split_and!; [done|apply He|].
  destruct (decide (id ∈ heldLocks w)) as [Hid|Hid].
  { rewrite HandleEvent_locked in Ht' by done. simpl in Ht'. rewrite Ht in Ht'. injection Ht' as <-. by left. }
  destruct (HandleEvent_stepped handle id event t w Hh Ht Hid) as (w2 & r & Heq & Hd).
  rewrite Heq in Ht'. simpl in Ht'.
  apply stepped_entered in Hd as [Hd|(h & tr & w3 & Hhd & Htr & Hw3 & Hw2)]; [..|done].
  - left. destruct Hd as [_ Hd]. specialize (Hd id). simpl in Hd. rewrite Ht, Ht' in Hd. apply Hd. set_solver.
  - right. cbn [fst] in Hw2. destruct Hw2 as [_ H2]. specialize (H2 id). rewrite enterState_lookup, decide_True, Ht' in H2 by done.
    destruct (transactionsByID w3 !! id) as [t3|]; [|done]. simpl in H2.
    assert (Hs : currentState (stateMachine t') = tr_To tr).
    { apply H2. rewrite (proj1 Hw3). set_solver. }
    rewrite Hs. apply (edge_nextStates handle id). by exists h, tr.
Qed.

Lemma handleEvent_evolves fuel id event : respects evolves (coordinatorTransactionHandleEvent fuel id event).
Proof.
  revert id event. induction fuel as [|fuel IH]; intros id event w; simpl; [done|].
  destruct (transactionsByID w !! id) as [t|] eqn:Ht; [|done]. by apply (HandleEvent_evolves _ id event t).
Qed.
End Evolves.

(** ** Termination and locks *)

Section Nesting.
Context `{Env}.

Lemma dom_enterState id s event w :
  dom (transactionsByID (enterState (txEntity id) s event w)) = dom (transactionsByID w).
Proof. unfold enterState, SetCurrentState, txEntity, setTx. simpl. by rewrite !dom_alter_L. Qed.

(** [HandleEvent] keeps an invariant of the locks, the transactions' ids and the dependencies, if
    it is one at every set of locks and the nested events keep it with [id] locked too. *)
Lemma HandleEvent_keeps handle id event (J : gset N -> World -> Prop) (C : crash -> Prop) (assembly : bool) L :
  id ∉ L ->
  (forall L w, J L w -> heldLocks w = L) ->
  (forall L L' w, J L w -> J L' (w <| heldLocks := L' |>)) ->
  (forall L w w', dom (transactionsByID w') = dom (transactionsByID w) -> heldLocks w' = heldLocks w ->
     (assembly = false -> tracker_le (w_deps w') (w_deps w)) -> J L w -> J L w') ->
  C Panic -> (carriesAssembly event = true -> assembly = true) ->
  (forall w dep event, J ({[id]} ∪ L) w -> dep ∈ dependentsOf (w_deps w) id -> passedOn event = true ->
     keeps (J ({[id]} ∪ L)) C (handle dep event)) ->
  keeps (J L) C (HandleEvent handle id event).
Proof.
  intros Hid Hlocks Hrelock Hframe HC Hev Hh w Hw. rewrite HandleEvent_unlocked by (by rewrite (Hlocks L w Hw)).
  set (w1 := w <| heldLocks ::= union {[id]} |>).
  assert (Hw1 : J ({[id]} ∪ L) w1).
  { change (J ({[id]} ∪ L) (w <| heldLocks := {[id]} ∪ heldLocks w |>)).
    rewrite (Hlocks L w Hw). by apply (Hrelock L). }
  assert (Hk : keeps (J ({[id]} ∪ L)) C
    (dispatchEvent (txEntity id) (stateDefinitionsMap handle id) (Some (transitionCallback id)) event)).
  { apply (dispatchEvent_tx_keeps handle id _ C assembly); try done.
    - intros f w' _ Hw'. apply (Hframe _ w'); [|done|intros _; apply tracker_le_refl|done]. simpl. by rewrite dom_alter_L.
    - intros w' w'' Ht Hl Hd _. apply Hframe; [by rewrite Ht|done|done].
    - intros s w' Hw'. apply (Hframe _ w'); [|done|intros _; apply tracker_le_refl|done]. apply dom_enterState.
    - intros from to w' Hw'. apply (Hframe _ w'); [|done|intros _; apply tracker_le_refl|done]. simpl. by rewrite dom_alter_L. }
  destruct (Hk _ Hw1) as [Hd Hc]. destruct (dispatchEvent _ _ _ event w1) as [w2 r]. simpl in *.
  split; [|exact Hc]. assert (Heq : unlockTx id w2 = w2 <| heldLocks := L |>); [|by rewrite Heq; apply (Hrelock ({[id]} ∪ L))].
  unfold unlockTx, field_set. simpl. rewrite (Hlocks _ _ Hd). f_equal. set_solver.
Qed.

Definition lockedIn (D L : gset N) (w : World) : Prop := heldLocks w = L /\ dom (transactionsByID w) = D.

Lemma handleEvent_fuel fuel D L id event :
  (size (D ∖ L) < fuel)%nat ->
  keeps (lockedIn D L) (fun c => c <> OutOfFuel) (coordinatorTransactionHandleEvent fuel id event).
Proof.
  revert L id event. induction fuel as [|fuel IH]; intros L id event Hf; [lia|]. intros w Hw. simpl.
  destruct (transactionsByID w !! id) as [t|] eqn:Ht; [|done].
  destruct (decide (id ∈ L)) as [Hid|Hid].
  { rewrite HandleEvent_locked by (by destruct Hw as [-> _]). split; [done|]. by intros c [= <-]. }
  assert (HidD : id ∈ D). { destruct Hw as [_ <-]. apply elem_of_dom. eauto. }
  revert w Hw Ht. intros w Hw _. revert w Hw.
  apply (HandleEvent_keeps _ id event (lockedIn D) _ true L); try done.
  - by intros L' w [? ?].
  - by intros L' L'' w [? ?].
  - intros L' w w' Hd Hl _ [? ?]. split; congruence.
  - intros w dep ev _ _ _. apply IH.
    assert (size (D ∖ ({[id]} ∪ L)) < size (D ∖ L))%nat; [|lia].
    apply subset_size. set_solver.
Qed.

(** [rank] decreases along every dependency. *)
Definition ranked (rank : uuid -> nat) (w : World) : Prop :=
  forall j dep, dep ∈ dependentsOf (w_deps w) j -> (rank dep < rank j)%nat.

Lemma ranked_le rank w w' : tracker_le (w_deps w') (w_deps w) -> ranked rank w -> ranked rank w'.
Proof.
  intros (H1 & H2 & H3) Hr j dep. unfold dependentsOf. rewrite !elem_of_app. intros Hdep. apply Hr.
  unfold dependentsOf. rewrite !elem_of_app. specialize (H1 j). specialize (H2 j). specialize (H3 j). set_solver.
Qed.

Lemma handleEvent_ranked rank fuel L id event :
  (forall l, l ∈ L -> (rank id < rank l)%nat) -> carriesAssembly event = false ->
  keeps (fun w => heldLocks w = L /\ ranked rank w) (fun c => c <> Deadlock)
    (coordinatorTransactionHandleEvent fuel id event).
Proof.
  revert L id event. induction fuel as [|fuel IH]; intros L id event HL Hev w Hw; simpl.
  { split; [done|]. by intros c [= <-]. }
  destruct (transactionsByID w !! id) as [t|]; [|done].
  assert (Hid : id ∉ L). { intros Hid. specialize (HL id Hid). lia. }
  revert w Hw. apply (HandleEvent_keeps _ id event (fun L w => heldLocks w = L /\ ranked rank w) _ false L); try done.
  - by intros L' w [? ?].
  - by intros L' L'' w [? ?].
  - intros L' w w' _ Hl Hd [? ?]. split; [congruence|]. apply (ranked_le rank w); [by apply Hd|done].
  - by rewrite Hev.
  - intros w dep ev [_ Hr] Hdep Hev'%passedOn_carriesAssembly. apply IH; [|done].
    specialize (Hr id dep Hdep). intros l [->%elem_of_singleton|Hl]%elem_of_union; [lia|].
    specialize (HL l Hl). lia.
Qed.
End Nesting.

(** ** The guarantees *)

(** (C1) Whatever event is handed to whatever transaction, in any memory, and whether it is handled,
    fails or crashes half-way: the transactions that exist afterwards are those that existed before,
    with the same identity and limits; each of them, dependents reached by propagation included, has
    moved only along transitions of the state table, and the machines that were already locked have
    not moved; and the locks held are the same as before. *)
Theorem handleEvent_follows_lifecycle `{Env} fuel id event w :
  evolves w (coordinatorTransactionHandleEvent fuel id event w).1.
Proof. apply handleEvent_evolves. Qed.

(** Propagation terminates: the nesting of machines never exceeds the number of transactions,
    because each nested machine locks another transaction, so one more unit of fuel than there are
    transactions is always enough. *)
Theorem handleEvent_nesting_bounded `{Env} fuel id event w :
  (size (dom (transactionsByID w)) < fuel)%nat ->
  (coordinatorTransactionHandleEvent fuel id event w).2 <> Crash OutOfFuel.
Proof.
  intros Hf Hc.
  assert (Hs : (size (dom (transactionsByID w) ∖ heldLocks w) < fuel)%nat).
  { eapply Nat.le_lt_trans; [|exact Hf]. apply subseteq_size. set_solver. }
  by destruct (handleEvent_fuel fuel _ _ id event Hs w (conj eq_refl eq_refl)) as [_ H2]; apply (H2 OutOfFuel).
Qed.

(** No transaction's lock is taken twice by one chain of calls, unless the dependencies are
    cyclic: with a rank that decreases from every transaction to its dependents, in the three
    dependency chains together, an event that does not carry an assembly never blocks on a lock its
    own goroutine holds. *)
Theorem propagation_deadlock_free `{Env} rank fuel id event w :
  heldLocks w = ∅ -> ranked rank w -> carriesAssembly event = false ->
  (coordinatorTransactionHandleEvent fuel id event w).2 <> Crash Deadlock.
Proof.
  intros Hl Hr Hev Hc.
  destruct (handleEvent_ranked rank fuel ∅ id event) with (w := w) as [_ H2]; [set_solver|done|done|].
  by apply (H2 Deadlock).
Qed.

(** Events delivered one after the other, errors dropped as the event loop drops them. *)
Definition deliver `{Env} (fuel : nat) (w : World) (events : list (uuid * Event)) : World :=
  foldl (fun w '(id, event) => (coordinatorTransactionHandleEvent fuel id event w).1) w events.

Lemma deliver_evolves `{Env} fuel w events : evolves w (deliver fuel w events).
Proof.
  revert w. induction events as [|[id event] events IH]; intros w; simpl; [done|].
  etrans; [apply handleEvent_evolves|apply IH].
Qed.

Lemma evolves_state w w' id s :
  evolves w w' -> getCoordinatorTransactionState w id = Some s ->
  exists s', getCoordinatorTransactionState w' id = Some s' /\ rtc lifecycle s s'.
Proof.
  unfold getCoordinatorTransactionState. intros [_ He] Hs. specialize (He id).
  destruct (transactionsByID w !! id) as [t|]; [|done]. injection Hs as <-.
  destruct (transactionsByID w' !! id) as [t'|]; [|done]. exists (currentState (stateMachine t')). split; [done|apply He].
Qed.

(** A set of states that no transition leaves. *)
Definition closedStates (P : State -> bool) : bool :=
  forallb (fun s => negb (P s) || forallb (fun ty => forallb P (nextStates s ty))
    [Event_HeartbeatInterval; Event_Delegated; Event_DependencySelectedForAssemble; Event_Selected;
     Event_AssembleRequestSent; Event_AssembleSuccess; Event_AssembleRevert; Event_AssembleError;
     Event_AssembleRequestRejected; Event_AssembleCancelled; Event_Signed; Event_SignError; Event_Endorsed;
     Event_EndorseRevert; Event_EndorseError; Event_EndorseRequestRejected; Event_DependencyReady;
     Event_DependencyReset; Event_DependencyConfirmedReverted; Event_DispatchRequestApproved;
     Event_DispatchRequestRejected; Event_Dispatched; Event_Collected; Event_NonceAllocated; Event_Submitted;
     Event_ConfirmedSuccess; Event_ConfirmedReverted; Event_RequestTimeoutInterval; Event_StateTimeoutInterval;
     Event_StateTransition; Event_PreDispatchRequestRejected; Event_ChainedDependencyFailed;
     Event_ChainedDependencyEvicted; Event_PreAssembleDependencyTerminated; Event_PrepareSucceeded; Event_PrepareFailed])
    [State_Initial; State_Pooled; State_PreAssembly_Blocked; State_Assembling; State_Signing; State_Reverted;
     State_Endorsement_Gathering; State_Blocked; State_Confirming_Dispatchable; State_Preparing;
     State_Ready_For_Dispatch; State_Dispatched; State_Confirmed; State_Final; State_Evicted].

Lemma closedStates_rtc P s s' : closedStates P = true -> rtc lifecycle s s' -> P s = true -> P s' = true.
Proof.
  intros Hc. induction 1 as [s|s s1 s2 [ty Hty] _ IH]; [done|]. intros Hs. apply IH.
  assert (Hin : forall (A : Type) (P : A -> bool) l x, forallb P l = true -> x ∈ l -> P x = true).
  { intros A Q l x Hl Hx. rewrite forallb_forall in Hl. apply Hl. by apply list_elem_of_In. }
  eapply Hin in Hc; [|instantiate (1 := s); destruct s; list_member].
  cbv beta in Hc. rewrite Hs in Hc. cbn [negb orb] in Hc.
  eapply Hin in Hc; [|instantiate (1 := ty); destruct ty; list_member]. by eapply Hin in Hc.
Qed.

(** (C8) Outcomes are final, whatever is delivered afterwards to whichever transactions: a confirmed
    transaction stays confirmed until it is cleaned up (so it is never reverted, reassembled or
    dispatched again), a reverted one stays reverted, an evicted one evicted, a final one final, and
    no transaction returns to the initial state. *)
Theorem outcomes_are_final `{Env} fuel w events id s :
  getCoordinatorTransactionState w id = Some s ->
  exists s', getCoordinatorTransactionState (deliver fuel w events) id = Some s' /\
    match s with
    | State_Confirmed => s' = State_Confirmed \/ s' = State_Final
    | State_Reverted => s' = State_Reverted \/ s' = State_Final
    | State_Evicted => s' = State_Evicted
    | State_Final => s' = State_Final
    | State_Initial => True
    | _ => s' <> State_Initial
    end.
Proof.
  intros Hs. destruct (evolves_state _ _ id s (deliver_evolves fuel w events) Hs) as (s' & Hs' & Hr).
  exists s'. split; [done|].
  pose proof (fun P => closedStates_rtc P s s') as Hcl.
  destruct s; try done.
  all: try (specialize (Hcl (fun s => match s with State_Initial => false | _ => true end) eq_refl Hr eq_refl);
            intros ->; discriminate Hcl).
  - specialize (Hcl (fun s => match s with State_Reverted | State_Final => true | _ => false end) eq_refl Hr eq_refl).
    destruct s'; auto; discriminate.
  - specialize (Hcl (fun s => match s with State_Confirmed | State_Final => true | _ => false end) eq_refl Hr eq_refl).
    destruct s'; auto; discriminate.
  - specialize (Hcl (fun s => match s with State_Final => true | _ => false end) eq_refl Hr eq_refl).
    destruct s'; auto; discriminate.
  - specialize (Hcl (fun s => match s with State_Evicted => true | _ => false end) eq_refl Hr eq_refl).
    destruct s'; auto; discriminate.
Qed.

(** *** On a chain of two transactions *)

(** The first one's base ledger transaction reverts. *)
Definition sampleRevert : Event :=
  ConfirmedRevertedEvent None EmptyString (Text "reverted") None (MkOnChainLocation OnChainTransaction EmptyString 5 0 0 None).

Definition sampleTwo : World :=
  sampleWorld [sampleTx 1 State_Dispatched; sampleTx 2 State_Ready_For_Dispatch] sampleChain.

Lemma handleEvent_nesting_bounded_witness :
  (size (dom (transactionsByID sampleTwo)) < 3)%nat /\
  (coordinatorTransactionHandleEvent 3 1 sampleRevert sampleTwo).2 <> Crash OutOfFuel /\
  (coordinatorTransactionHandleEvent 1 1 sampleRevert sampleTwo).2 = Crash OutOfFuel.
Proof.
  split; [vm_compute; lia|]. split; [|vm_compute; reflexivity].
  apply handleEvent_nesting_bounded. vm_compute. lia.
Defined.

Lemma sampleTwo_ranked : ranked (fun id => if N.eqb id 1 then 1%nat else 0%nat) sampleTwo.
Proof.
  intros j dep Hdep. unfold dependentsOf, sampleTwo, sampleWorld, sampleChain in Hdep. cbn [w_deps preAssembly postAssembly chained ch_chain] in Hdep.
  unfold GetDependents at 1 2 in Hdep. rewrite lookup_empty in Hdep. cbn [app] in Hdep.
  apply (rep_dependents _ _ (represents_AddPrerequisites ∅ _ 2%N [1%N] represents_empty)) in Hdep
    as [[]|(-> & ->%list_elem_of_singleton & _)].
  simpl. lia.
Qed.

Lemma propagation_deadlock_free_witness :
  heldLocks sampleTwo = ∅ /\
  (coordinatorTransactionHandleEvent 3 1 sampleRevert sampleTwo).2 <> Crash Deadlock.
Proof.
  split; [reflexivity|].
  apply (propagation_deadlock_free (fun id => if N.eqb id 1 then 1%nat else 0%nat));
    [reflexivity|exact sampleTwo_ranked|reflexivity].
Defined.

Lemma outcomes_are_final_witness :
  getCoordinatorTransactionState (sampleWorld [sampleTx 1 State_Confirmed] NewDependencyTracker) 1 = Some State_Confirmed /\
  exists s', getCoordinatorTransactionState
    (deliver 2 (sampleWorld [sampleTx 1 State_Confirmed] NewDependencyTracker)
       [(1%N, sampleRevert); (1%N, HeartbeatIntervalEvent); (1%N, SelectedEvent)]) 1 = Some s' /\
    (s' = State_Confirmed \/ s' = State_Final).
Proof.
  split; [reflexivity|].
  apply (outcomes_are_final 2 (sampleWorld [sampleTx 1 State_Confirmed] NewDependencyTracker) _ 1 State_Confirmed).
  reflexivity.
Defined.
