(* ===== verification/TxGates.v ===== *)
(** * What lets a transaction move on

    Responses from other nodes and from the prepare goroutine are only acted on when they answer the
    request that is outstanding now; each forward state is entered only by the answer it waits for
    and with its guard satisfied; and a transaction that goes back to be assembled again carries
    nothing over from the previous attempt. *)

From S2P Require Import Prelude StateMachine DependencyTracker StateVisibility Grapher StateView TxTypes CoordTypes World TxActions TxMachine Sample TxPropagation.
Open Scope list_scope.

(** ** Responses and the requests they answer *)

Definition keyIs (r : option IdempotentRequest) (requestID : uuid) : bool :=
  match r with Some r => N.eqb (ir_idempotencyKey r) requestID | None => false end.

Definition entryIs (t : coordinatorTransaction) (name party : string) (requestID : uuid) : bool :=
  match pendingEntry t name party with Some r => keyIs r requestID | None => false end.

(** Responses that are matched with a request, and whether it is the one outstanding; rejections of
    assemble and pre-dispatch requests carry an id too, which is not looked at. *)
Definition answers (t : coordinatorTransaction) (event : Event) : option bool :=
  match event with
  | AssembleSuccessEvent _ requestID | AssembleRevertEvent _ requestID | AssembleErrorEvent requestID
  | SignedEvent _ _ requestID | SignErrorEvent requestID => Some (keyIs (pendingAssembleRequest t) requestID)
  | EndorsedEvent _ _ | EndorseRevertEvent _ _ _ _ | EndorseErrorEvent _ _ _ | EndorseRequestRejectedEvent _ _ _ _ =>
      Some (match endorsementOutcome event with
            | Some (name, party, requestID) => entryIs t name party requestID
            | None => false
            end)
  | DispatchRequestApprovedEvent requestID => Some (keyIs (pendingPreDispatchRequest t) requestID)
  | PrepareSucceededEvent prepareID _ | PrepareFailedEvent prepareID => Some (N.eqb prepareID (inFlightPrepareID t))
  | _ => None
  end.

Section Responses.
Context `{Env}.

Lemma validator_assemble id t event w :
  transactionsByID w !! id = Some t ->
  match event with
  | AssembleSuccessEvent _ _ | AssembleRevertEvent _ _ | AssembleErrorEvent _ | SignedEvent _ _ _ | SignErrorEvent _ => true
  | _ => false
  end = true ->
  answers t event = Some false -> validator_MatchesPendingAssembleRequest id event w = Ok false.
Proof.
  intros Ht He Ha. unfold validator_MatchesPendingAssembleRequest, validTx. rewrite Ht.
  destruct event; try discriminate He; cbn in Ha; unfold keyIs in Ha; destruct (pendingAssembleRequest t); congruence.
Qed.

Lemma validator_endorsement id t event w :
  transactionsByID w !! id = Some t ->
  match event with
  | EndorsedEvent _ _ | EndorseRevertEvent _ _ _ _ | EndorseErrorEvent _ _ _ | EndorseRequestRejectedEvent _ _ _ _ => true
  | _ => false
  end = true ->
  answers t event = Some false -> validator_MatchesPendingEndorsementRequest id event w = Ok false.
Proof.
  intros Ht He Ha. unfold validator_MatchesPendingEndorsementRequest, validTx. rewrite Ht.
  assert (Ha' : match endorsementOutcome event with
                | Some (name, party, requestID) => entryIs t name party requestID
                | None => false end = false).
  { destruct event; try discriminate He; unfold answers in Ha; congruence. }
  destruct (endorsementOutcome event) as [[[name party] requestID]|]; [|done].
  unfold entryIs, keyIs in Ha'. destruct (pendingEntry t name party) as [[r|]|]; congruence.
Qed.

Lemma validator_approval id t requestID w :
  transactionsByID w !! id = Some t -> answers t (DispatchRequestApprovedEvent requestID) = Some false ->
  validator_MatchesPendingPreDispatchRequest id (DispatchRequestApprovedEvent requestID) w = Ok false.
Proof.
  intros Ht Ha. unfold validator_MatchesPendingPreDispatchRequest, validTx. rewrite Ht. cbn in Ha. unfold keyIs in Ha.
  destruct (pendingPreDispatchRequest t); congruence.
Qed.

Lemma validator_prepare id t event w :
  transactionsByID w !! id = Some t ->
  match event with PrepareSucceededEvent _ _ | PrepareFailedEvent _ => true | _ => false end = true ->
  answers t event = Some false -> validator_MatchesInFlightPrepareID id event w = Ok false.
Proof.
  intros Ht He Ha. unfold validator_MatchesInFlightPrepareID, validTx. rewrite Ht.
  destruct event; try discriminate He; cbn in Ha; congruence.
Qed.

(** A handler list with one validated handler that declines. *)
Lemma declined_one event w (v : TxValidator) acts trs :
  v event w = Ok false ->
  forallb (fun h : TxEventHandler => match matchesHandler event h w with Ok false => true | _ => false end)
    [OnValid v acts trs] = true.
Proof. intros Hv. cbn. by rewrite Hv. Qed.

Lemma stale_dispatch handle id event t w :
  transactionsByID w !! id = Some t -> answers t event = Some false ->
  dispatchEvent (txEntity id) (stateDefinitionsMap handle id) (Some (transitionCallback id)) event w = (w, Ok tt).
Proof.
  intros Ht Ha. eapply dispatch_declined; [reflexivity|].
  rewrite (txEntity_laws_at id w t Ht).
  destruct (currentState (stateMachine t)); destruct event; try discriminate Ha; try exact I; apply declined_one.
  all: try (by apply (validator_assemble id t)); try (by apply (validator_endorsement id t));
    try (by apply (validator_approval id t)); try (by apply (validator_prepare id t)).
  all: unfold ValidatorAnd; by rewrite (validator_assemble id t (SignedEvent _ _ _) w Ht eq_refl Ha).
Qed.

Lemma relock_same id w : id ∉ heldLocks w -> unlockTx id (w <| heldLocks ::= union {[id]} |>) = w.
Proof.
  intros Hid. destruct w as [txs L]. unfold unlockTx, field_set. simpl in *. f_equal. set_solver.
Qed.

Lemma stale_response_declined fuel id event t w :
  transactionsByID w !! id = Some t -> id ∉ heldLocks w -> answers t event = Some false ->
  coordinatorTransactionHandleEvent (S fuel) id event w = (w, Ok tt).
Proof.
  intros Ht Hid Ha. cbn [coordinatorTransactionHandleEvent]. rewrite Ht, HandleEvent_unlocked by done.
  rewrite (stale_dispatch _ id event t) by done. by rewrite relock_same.
Qed.

(** (C10) A response that does not answer the request outstanding now has no effect at all, in every
    state, for these responses: the success, revert and error of an assembly, a signature and its error,
    an endorsement, its revert, error and rejection, the approval of a dispatch, and the results of
    prepare goroutines. Late, duplicated and forged ones are so ignored. The rejections of an assemble
    request and of a pre-dispatch request are not among them: they carry the id of a request, which is
    not compared. *)
Theorem stale_response_ignored fuel id event t w :
  transactionsByID w !! id = Some t -> id ∉ heldLocks w -> answers t event = Some false ->
  coordinatorTransactionHandleEvent (S fuel) id event w = (w, Ok tt).
Proof. apply stale_response_declined. Qed.

(** What [event] must be for a transaction in [s] to enter [s']. *)
Definition entryTicket (t : coordinatorTransaction) (s : State) (event : Event) (s' : State) : Prop :=
  match s' with
  | State_Assembling => s = State_Pooled /\ event = SelectedEvent
  | State_Signing => s = State_Assembling /\ answers t event = Some true
  | State_Endorsement_Gathering => (s = State_Assembling \/ s = State_Signing) /\ answers t event = Some true
  | State_Blocked =>
      (s = State_Assembling \/ s = State_Signing \/ s = State_Endorsement_Gathering) /\ answers t event = Some true
  | State_Confirming_Dispatchable =>
      ((s = State_Assembling \/ s = State_Signing \/ s = State_Endorsement_Gathering) /\ answers t event = Some true) \/
      (s = State_Blocked /\ event = DependencyReadyEvent)
  | State_Preparing =>
      s = State_Confirming_Dispatchable /\
      exists requestID, event = DispatchRequestApprovedEvent requestID /\ keyIs (pendingPreDispatchRequest t) requestID = true
  | State_Ready_For_Dispatch =>
      s = State_Preparing /\ exists dispatch, event = PrepareSucceededEvent (inFlightPrepareID t) dispatch
  | State_Dispatched => s = State_Ready_For_Dispatch /\ exists public, event = DispatchedEvent public
  | State_Confirmed => s = State_Dispatched /\ Type_of event = Event_ConfirmedSuccess
  | State_Initial => False
  | _ => True
  end.

(** (C2) The way to the base ledger is gated step by step: whenever handling an event moves a
    transaction into a forward state, it came from the state before it, by the event that state
    waits for, and a response that moved it answered the request outstanding at that moment.  In
    particular it is prepared only after the originator approved the very pre-dispatch request that
    was sent for this assembly, becomes ready only with the result of its current prepare, is
    dispatched only from there, and is confirmed only once dispatched. *)
Theorem forward_states_gated fuel id event t w t' :
  transactionsByID w !! id = Some t ->
  transactionsByID (coordinatorTransactionHandleEvent fuel id event w).1 !! id = Some t' ->
  let s := currentState (stateMachine t) in let s' := currentState (stateMachine t') in
  s' <> s -> entryTicket t s event s'.
Proof.
  intros Ht Ht' s s' Hne.
  assert (Hsame : transactionsByID w !! id <> Some t') by (intros E; apply Hne; unfold s, s'; congruence).
  destruct fuel as [|fuel]; [done|].
  assert (Hid : id ∉ heldLocks w).
  { intros Hid. cbn [coordinatorTransactionHandleEvent] in Ht'. rewrite Ht, HandleEvent_locked in Ht' by done. done. }
  assert (Hans : answers t event <> Some false).
  { intros Ha. rewrite (stale_response_declined fuel id event t w Ht Hid Ha) in Ht'. done. }
  cbn [coordinatorTransactionHandleEvent] in Ht'. rewrite Ht in Ht'.
  destruct (HandleEvent_own (coordinatorTransactionHandleEvent fuel) id event t w (handleEvent_evolves fuel) Ht)
    as (t2 & Ht2 & _ & Hs). rewrite Ht2 in Ht'. injection Ht' as ->.
  destruct Hs as [Hs|Hs]; [done|]. fold s s' in Hs. clearbody s s'.
  assert (Htrue : forall b, answers t event = Some b -> answers t event = Some true).
  { intros [] Hb; [done|congruence]. }
  destruct event; destruct s; cbn in Hs; split_members; try exact Logic.I; cbn [entryTicket]; eauto 6.
  all: try (split; [auto|]; eexists; split; [reflexivity|]; cbn in Hans; destruct (keyIs _ _); congruence).
  all: try (split; [done|]; cbn in Hans; destruct (N.eqb_spec PrepareID (inFlightPrepareID t)); [subst; eauto|congruence]).
Qed.
End Responses.

(** *** On a transaction being confirmed for dispatch *)

Definition confirmingTx : coordinatorTransaction :=
  (sampleTx 1 State_Confirming_Dispatchable)
    <| pendingPreDispatchRequest := Some (NewIdempotentRequestWithKey 10 77%N (SendPreDispatch "h"%string)) |>.

Definition confirmingWorld : World := sampleWorld [confirmingTx] NewDependencyTracker.

Lemma stale_response_ignored_witness :
  answers confirmingTx (DispatchRequestApprovedEvent 76) = Some false /\
  coordinatorTransactionHandleEvent 2 1 (DispatchRequestApprovedEvent 76) confirmingWorld = (confirmingWorld, Ok tt).
Proof.
  split; [reflexivity|].
  apply (stale_response_ignored 1 1 (DispatchRequestApprovedEvent 76) confirmingTx); [reflexivity| |reflexivity].
  apply not_elem_of_empty.
Defined.

(** The rejection of any pre-dispatch request, outstanding or not, evicts the transaction. *)
Theorem rejection_of_other_request_accepted :
  pendingPreDispatchRequest confirmingTx = Some (NewIdempotentRequestWithKey 10 77%N (SendPreDispatch "h"%string)) /\
  exists t', transactionsByID (coordinatorTransactionHandleEvent 2 1 (PreDispatchRequestRejectedEvent 76 RejectionReason_NOT_CURRENT_DELEGATE) confirmingWorld).1 !! 1%N = Some t' /\
    currentState (stateMachine t') = State_Evicted.
Proof. split; [reflexivity|]. eexists. split; [vm_compute; reflexivity|reflexivity]. Qed.

Lemma forward_states_gated_witness :
  exists t', transactionsByID (coordinatorTransactionHandleEvent 2 1 (DispatchRequestApprovedEvent 77) confirmingWorld).1 !! 1%N = Some t' /\
  currentState (stateMachine t') = State_Preparing /\
  entryTicket confirmingTx State_Confirming_Dispatchable (DispatchRequestApprovedEvent 77) (currentState (stateMachine t')).
Proof.
  eexists. split; [vm_compute; reflexivity|]. split; [reflexivity|].
  refine (forward_states_gated 2 1 (DispatchRequestApprovedEvent 77) confirmingTx confirmingWorld _ eq_refl _ _).
  - vm_compute. reflexivity.
  - discriminate.
Defined.

(** ** Back to assembly *)

(** What a previous assembly led to is gone: the assembly itself, the requests for endorsement and
    dispatch with their counters, the timers, the transaction's node in the grapher, and the child it was
    dispatched as.  The signer and the last assemble request are kept. *)
Definition cleanForAssembly (id : uuid) (w : World) : Prop :=
  exists t, transactionsByID w !! id = Some t /\
    (pt_PostAssembly (pt t) = None /\ pt_PreparedPublicTransaction (pt t) = None /\
     pt_PreparedPrivateTransaction (pt t) = None /\ pt_PreparedMetadata (pt t) = None) /\
    (pendingPreDispatchRequest t = None /\ pendingEndorsementRequests t = None /\
     endorseFailureCountByRequirement t = ∅ /\ endorseRevertCountByRequirement t = ∅ /\ endorseRevertReasons t = []) /\
    (cancelRequestTimeoutSchedule t = None /\ cancelStateTimeoutSchedule t = None) /\
    id ∉ transactionByID (w_grapher w) /\ GetChainedChild (chained (w_deps w)) id = None.

Lemma updTx_eq id f w : updTx id f w = (setTx id f w, Ok tt).
Proof. done. Qed.

Lemma getTx_eq id t w : transactionsByID w !! id = Some t -> getTx id w = (w, Ok t).
Proof. intros Ht. unfold getTx. by rewrite Ht. Qed.

Lemma setTx_lookup id f w t : transactionsByID w !! id = Some t -> transactionsByID (setTx id f w) !! id = Some (f t).
Proof. intros Ht. unfold setTx. simpl. by rewrite lookup_alter_eq, Ht. Qed.

(** After clearing the timers both cancel functions are nil, and nothing else of the transaction,
    the grapher or the tracker has changed. *)
Lemma clearTimeoutSchedules_spec id w t :
  transactionsByID w !! id = Some t ->
  exists w', clearTimeoutSchedules id w = (w', Ok tt) /\
    transactionsByID w' !! id = Some (t <| cancelRequestTimeoutSchedule := None |> <| cancelStateTimeoutSchedule := None |>) /\
    w_grapher w' = w_grapher w /\ w_deps w' = w_deps w.
Proof.
  intros Ht. unfold clearTimeoutSchedules, clearRequestTimeoutSchedule.
  assert (H1 : exists w1, (t0 ← getTx id; match cancelRequestTimeoutSchedule t0 with
      | Some timer => cancelTimer timer ≫= (fun _ => updTx id (fun t => t <| cancelRequestTimeoutSchedule := None |>))
      | None => mret tt end) w = (w1, Ok tt) /\
      transactionsByID w1 !! id = Some (t <| cancelRequestTimeoutSchedule := None |>) /\
      w_grapher w1 = w_grapher w /\ w_deps w1 = w_deps w).
  { rewrite (bind_ok _ _ _ _ _ (getTx_eq id t w Ht)). destruct (cancelRequestTimeoutSchedule t) as [timer|] eqn:Ec.
    - eexists. split; [reflexivity|]. split; [|done]. by apply (setTx_lookup id _ (w <| w_timers ::= delete timer |>)).
    - exists w. split_and!; try done. rewrite Ht. f_equal. destruct t. simpl in Ec. by subst. }
  destruct H1 as (w1 & H1 & Ht1 & Hg1 & Hd1). rewrite (bind_ok _ _ _ _ _ H1). unfold clearStateTimeoutSchedule.
  rewrite (bind_ok _ _ _ _ _ (getTx_eq id _ w1 Ht1)). cbn [cancelStateTimeoutSchedule field_set].
  destruct (cancelStateTimeoutSchedule t) as [timer|] eqn:Ec.
  - eexists. split; [reflexivity|]. split; [|done]. by apply (setTx_lookup id _ (w1 <| w_timers ::= delete timer |>)).
  - exists w1. split_and!; try done. rewrite Ht1. f_equal. destruct t. simpl in Ec. by subst.
Qed.

Lemma forget_not_in m id : id ∉ transactionByID (gm_g (ForgetTransactionAndLocks m id)).
Proof.
  destruct (decide (id ∈ transactionByID (gm_g m))) as [Hin|Hin].
  - destruct (forgetTransactionAndLocks_fields m id Hin) as (_ & _ & -> & _). set_solver.
  - unfold ForgetTransactionAndLocks. by rewrite bool_decide_false.
Qed.

Lemma initializeForNewAssembly_clean id w t :
  transactionsByID w !! id = Some t ->
  exists w', initializeForNewAssembly id w = (w', Ok tt) /\ cleanForAssembly id w'.
Proof.
  intros Ht. unfold initializeForNewAssembly, resetEndorsementRequests.
  rewrite (bind_ok _ _ _ _ _ (updTx_eq id _ w)). unfold onChained, onDeps at 1.
  erewrite (bind_ok (modify _)) by reflexivity. rewrite (bind_ok _ _ _ _ _ (updTx_eq id _ _)).
  unfold forgetTransactionAndLocks, onGrapher. erewrite (bind_ok (modify _)) by reflexivity.
  match goal with |- context [(clearTimeoutSchedules id ≫= _) ?x] => set (w1 := x) end.
  assert (Ht1 : transactionsByID w1 !! id = Some (t <| pt ::= CleanUpPostAssemblyData |> <| pendingPreDispatchRequest := None |>)).
  { unfold w1. simpl. rewrite !lookup_alter_eq, Ht. done. }
  assert (Hg1 : id ∉ transactionByID (w_grapher w1)). { unfold w1. apply forget_not_in. }
  assert (Hc1 : GetChainedChild (chained (w_deps w1)) id = None).
  { unfold w1, GetChainedChild. simpl. by rewrite lookup_delete_eq. }
  clearbody w1. destruct (clearTimeoutSchedules_spec id w1 _ Ht1) as (w2 & E2 & Ht2 & Hg2 & Hd2).
  rewrite (bind_ok _ _ _ _ _ E2). destruct (clearTimeoutSchedules_spec id w2 _ Ht2) as (w3 & E3 & Ht3 & Hg3 & Hd3).
  rewrite (bind_ok _ _ _ _ _ E3). eexists. split; [apply updTx_eq|].
  eexists. split; [apply setTx_lookup; exact Ht3|]. split_and!; try done.
  - change (id ∉ transactionByID (w_grapher w3)). by rewrite Hg3, Hg2.
  - change (GetChainedChild (chained (w_deps w3)) id = None). by rewrite Hd3, Hd2.
Qed.

(** The state of a locked transaction right after entering a state and evolving from there. *)
Lemma entered_state id s event w w' t :
  id ∈ heldLocks w -> evolves (enterState (txEntity id) s event w) w' -> transactionsByID w !! id = Some t ->
  exists t', transactionsByID w' !! id = Some t' /\ currentState (stateMachine t') = s.
Proof.
  intros Hid [_ He] Ht. specialize (He id). rewrite enterState_lookup, decide_True, Ht in He by done. simpl in He.
  destruct (transactionsByID w' !! id) as [t'|]; [|done]. exists t'. split; [done|]. by apply He.
Qed.

Section Reassembly.
Context `{Env}.

Lemma entry_clean handle id event s w w' t :
  s = State_Pooled \/ s = State_PreAssembly_Blocked ->
  transactionsByID w !! id = Some t ->
  executeActionRules event (onTransitionTo (stateDefinitionsMap handle id) s) w = (w', Ok tt) -> cleanForAssembly id w'.
Proof.
  intros Hs Ht. destruct (initializeForNewAssembly_clean id w t Ht) as (w1 & E & Hc).
  assert (Hx : executeActionRules event [Act (action_InitializeForNewAssembly id)] w = (w1, Ok tt)).
  { simpl. unfold action_InitializeForNewAssembly. rewrite (bind_ok _ _ w w true) by done.
    by rewrite (bind_ok _ _ _ _ _ E). }
  destruct Hs as [-> | ->]; cbn [onTransitionTo stateDefinitionsMap OnTransitionTo statePooled statePreAssembly_Blocked];
    rewrite Hx; by intros [= <-].
Qed.

Lemma evolves_tx w w' id t : evolves w w' -> transactionsByID w !! id = Some t -> exists t', transactionsByID w' !! id = Some t'.
Proof. intros [_ He] Ht. specialize (He id). rewrite Ht in He. destruct (transactionsByID w' !! id); [eauto|done]. Qed.

(** A transition of a locked transaction that ran to its end: the state it left the transaction in,
    and the run of that state's entry actions. *)
Lemma transition_entry handle id event h tr s ty w w2 t :
  (forall dep ev, respects evolves (handle dep ev)) -> id ∈ heldLocks w -> transactionsByID w !! id = Some t ->
  handles (stateDefinitionsMap handle id) s ty h -> tr ∈ eh_Transitions h ->
  takeTransition (txEntity id) (stateDefinitionsMap handle id) (Some (transitionCallback id)) event tr w = (w2, Ok tt) ->
  (exists t2, transactionsByID w2 !! id = Some t2 /\ currentState (stateMachine t2) = tr_To tr) /\
  exists w5 t5, transactionsByID w5 !! id = Some t5 /\
    executeActionRules event (onTransitionTo (stateDefinitionsMap handle id) (tr_To tr)) w5 = (w2, Ok tt).
Proof.
  intros Hh Hid Ht Hhd Htr Htake.
  pose proof (fun rule ev => respects_evolves_rule handle id rule ev Hh) as Hrules.
  pose proof (takeTransition_respects (txEntity id) (stateDefinitionsMap handle id) (Some (transitionCallback id)) evolves
    Hrules (respects_evolves_cb id) h tr event s ty w Hhd Htr) as Hfin.
  rewrite Htake in Hfin. split; [by apply (entered_state id _ event w w2 t)|].
  destruct (takeTransition_entry (txEntity id) (stateDefinitionsMap handle id) (Some (transitionCallback id)) evolves
    Hrules h tr event s ty w w2 Hhd Htr Htake) as (w4 & w5 & Hw4 & Hcb & Hexec).
  destruct (entered_state id _ event w w4 t Hid Hw4 Ht) as (t4 & Ht4 & Hs4).
  rewrite (txEntity_laws_at id w4 t4 Ht4) in Hcb, Hexec. rewrite Hs4 in Hexec. exists w5.
  injection Hcb as <-. eexists. split; [|exact Hexec]. simpl. by rewrite lookup_alter_eq, Ht4.
Qed.

(** An event that moved its transaction and was handled to the end: the transition it took. *)
Lemma HandleEvent_moved handle id event t w w' t' :
  (forall dep ev, respects evolves (handle dep ev)) -> transactionsByID w !! id = Some t ->
  HandleEvent handle id event w = (w', Ok tt) -> transactionsByID w' !! id = Some t' ->
  currentState (stateMachine t') <> currentState (stateMachine t) ->
  exists h tr w3 w2,
    handles (stateDefinitionsMap handle id) (currentState (stateMachine t)) (Type_of event) h /\ tr ∈ eh_Transitions h /\
    guardPasses (tr_If tr) w3 = (w3, Ok true) /\ evolves (w <| heldLocks ::= union {[id]} |>) w3 /\
    takeTransition (txEntity id) (stateDefinitionsMap handle id) (Some (transitionCallback id)) event tr w3 = (w2, Ok tt) /\
    w' = w2 <| heldLocks := heldLocks w |>.
Proof.
  intros Hh Ht Hrun Ht' Hne.
  destruct (decide (id ∈ heldLocks w)) as [Hid|Hid]; [by rewrite HandleEvent_locked in Hrun|].
  destruct (HandleEvent_stepped handle id event t w Hh Ht Hid) as (w2 & r & E & Hd).
  rewrite E in Hrun. injection Hrun as <- ->. simpl in Ht'.
  destruct Hd as [[_ Hd]|(h & tr & w3 & Hhd & Htr & Hg & Hw3 & Htake)]; [|by exists h, tr, w3, w2].
  specialize (Hd id). simpl in Hd. rewrite Ht, Ht' in Hd. destruct Hd as (_ & _ & Hd).
  destruct Hne. apply Hd. set_solver.
Qed.

Lemma moved_back_clean fuel id event t w w' t' :
  transactionsByID w !! id = Some t ->
  coordinatorTransactionHandleEvent fuel id event w = (w', Ok tt) ->
  transactionsByID w' !! id = Some t' ->
  currentState (stateMachine t') <> currentState (stateMachine t) ->
  currentState (stateMachine t') = State_Pooled \/ currentState (stateMachine t') = State_PreAssembly_Blocked ->
  cleanForAssembly id w'.
Proof.
  intros Ht Hrun Ht' Hne Hs. destruct fuel as [|fuel]; [done|].
  cbn [coordinatorTransactionHandleEvent] in Hrun. rewrite Ht in Hrun.
  set (handle := coordinatorTransactionHandleEvent fuel) in *.
  assert (Hh : forall dep ev, respects evolves (handle dep ev)) by apply handleEvent_evolves.
  destruct (HandleEvent_moved handle id event t w w' t' Hh Ht Hrun Ht' Hne)
    as (h & tr & w3 & w2 & Hhd & Htr & _ & Hw3 & Htake & ->).
  destruct (evolves_tx _ w3 id t Hw3 Ht) as [t3 Ht3].
  assert (Hid3 : id ∈ heldLocks w3) by (rewrite (proj1 Hw3); simpl; set_solver).
  destruct (transition_entry handle id event h tr _ _ w3 w2 t3 Hh Hid3 Ht3 Hhd Htr Htake)
    as [(t2 & Ht2 & Hs2) (w5 & t5 & Ht5 & Hexec)].
  simpl in Ht'. rewrite Ht' in Ht2. injection Ht2 as <-. rewrite <-Hs2 in Hexec.
  exact (entry_clean handle id event _ w5 w2 t5 Hs Ht5 Hexec).
Qed.

(** (C9) When handling an event succeeds and has moved a transaction to [State_Pooled] or
    [State_PreAssembly_Blocked], whatever state it came from and whatever propagation happened on the
    way, then what its previous assembly led to is gone: the assembled transaction and what was prepared
    of it, the pre-dispatch request, the endorsement requests with their failure counts and revert
    reasons, both timers, its node in the grapher, and the child it was dispatched as. The signer and
    the last assemble request are not among this: they stay. *)
Theorem reassembly_starts_clean fuel id event t w w' t' :
  transactionsByID w !! id = Some t ->
  coordinatorTransactionHandleEvent fuel id event w = (w', Ok tt) ->
  transactionsByID w' !! id = Some t' ->
  currentState (stateMachine t') <> currentState (stateMachine t) ->
  currentState (stateMachine t') = State_Pooled \/ currentState (stateMachine t') = State_PreAssembly_Blocked ->
  cleanForAssembly id w'.
Proof. apply moved_back_clean. Qed.

(** The prepare goroutine works on the transaction that the event loop may be repooling: when
    an event takes a transaction from [State_Preparing] back to be assembled again, a goroutine that
    has the domain's result and goes on to collect the states to write finds the assembly gone, and
    panics. *)
Theorem prepare_panics_after_repool fuel id event t w w' t' prep dispatch :
  transactionsByID w !! id = Some t -> currentState (stateMachine t) = State_Preparing ->
  coordinatorTransactionHandleEvent fuel id event w = (w', Ok tt) ->
  transactionsByID w' !! id = Some t' ->
  currentState (stateMachine t') = State_Pooled \/ currentState (stateMachine t') = State_PreAssembly_Blocked ->
  buildTransactionDispatch w' (pt t') prep (revertCount t) = Ok dispatch ->
  prepareAndBuildDispatch w' (pt t') prep (revertCount t) = Crash Panic.
Proof.
  intros Ht Hs Hrun Ht' Hs' Hb.
  destruct (moved_back_clean fuel id event t w w' t' Ht Hrun Ht') as (t2 & Ht2 & (Hpa & _) & _); [|done|].
  - rewrite Hs. destruct Hs' as [-> | ->]; discriminate.
  - rewrite Ht' in Ht2. injection Ht2 as <-. unfold prepareAndBuildDispatch. by rewrite Hb, Hpa.
Qed.
End Reassembly.

Lemma reassembly_starts_clean_witness :
  exists w', coordinatorTransactionHandleEvent 2 1 StateTimeoutIntervalEvent confirmingWorld = (w', Ok tt) /\
    cleanForAssembly 1 w'.
Proof.
  eexists. split; [vm_compute; reflexivity|].
  eapply (reassembly_starts_clean 2 1 StateTimeoutIntervalEvent confirmingTx confirmingWorld).
  - reflexivity.
  - vm_compute. reflexivity.
  - vm_compute. reflexivity.
  - discriminate.
  - left. reflexivity.
Defined.

(** ** Asking for dispatch *)

(** The memory as far as dependencies and assemblies go. *)
Definition sameAssembly (w w' : World) : Prop :=
  w_deps w' = w_deps w /\ w_grapher w' = w_grapher w /\
  forall j, (fun t => (stateMachine t, pt t)) <$> transactionsByID w' !! j
          = (fun t => (stateMachine t, pt t)) <$> transactionsByID w !! j.

#[export] Instance sameAssembly_preorder : PreOrder sameAssembly.
Proof.
  split; [by intros w|]. intros w1 w2 w3 (D1 & G1 & H1) (D2 & G2 & H2).
  split_and!; [congruence|congruence|]. intros j. by rewrite H2, H1.
Qed.

Lemma sameAssembly_setTx id f w :
  (forall t, stateMachine (f t) = stateMachine t /\ pt (f t) = pt t) -> sameAssembly w (setTx id f w).
Proof.
  intros Hf. split_and!; [done|done|]. intros j. unfold setTx. simpl. destruct (decide (j = id)) as [->|Hj].
  - rewrite lookup_alter_eq. destruct (transactionsByID w !! id) as [t|]; [|done]. simpl. by destruct (Hf t) as [-> ->].
  - by rewrite lookup_alter_ne by done.
Qed.

Lemma sameAssembly_updTx id f :
  (forall t, stateMachine (f t) = stateMachine t /\ pt (f t) = pt t) -> respects sameAssembly (updTx id f).
Proof. intros Hf. apply respects_modify. intros w. by apply sameAssembly_setTx. Qed.

Lemma sameAssembly_modify (f : World -> World) :
  (forall w, w_deps (f w) = w_deps w /\ w_grapher (f w) = w_grapher w /\ transactionsByID (f w) = transactionsByID w) ->
  respects sameAssembly (modify f).
Proof. intros Hf. apply respects_modify. intros w. destruct (Hf w) as (? & ? & E). split_and!; [done|done|]. by rewrite E. Qed.

Section AskForDispatch.
Context `{Env}.

Lemma sameAssembly_getTx id : respects sameAssembly (getTx id).
Proof. intros w. unfold getTx. by destruct (_ !! _). Qed.

Lemma sameAssembly_newUUID : respects sameAssembly newUUID.
Proof. by intros w. Qed.

Lemma sameAssembly_send msg : respects sameAssembly (send msg).
Proof. intros w. unfold send. by destruct (env_transport _ _). Qed.

Ltac same_step :=
  first
  [ apply respects_ret; apply _ | apply respects_gets; apply _ | apply respects_throw; apply _
  | apply respects_crash; apply _ | apply respects_liftR; apply _
  | apply sameAssembly_getTx | apply sameAssembly_newUUID | apply sameAssembly_send
  | lazymatch goal with |- respects _ (mbind _ _) => apply respects_bind; [apply _| |intros ?] end
  | apply sameAssembly_updTx; intros []; done
  | apply sameAssembly_modify; intros []; done
  | match goal with |- respects _ (match ?x with _ => _ end) => destruct x end ].
Ltac same_go := repeat same_step.

Lemma sameAssembly_schedule id : respects sameAssembly (scheduleStateTimeout id) /\ respects sameAssembly (scheduleRequestTimeout id).
Proof.
  unfold scheduleStateTimeout, scheduleRequestTimeout, clearStateTimeoutSchedule, clearRequestTimeoutSchedule, cancelTimer,
    ScheduleTimer.
  split; same_go.
Qed.

Lemma sameAssembly_sendPreDispatchRequest id : respects sameAssembly (sendPreDispatchRequest id).
Proof.
  unfold sendPreDispatchRequest, nudgePreDispatchRequest, Nudge, runSend, requestEndorsement.
  same_go; apply sameAssembly_schedule.
Qed.

(** The exit actions of the states that precede it, and the entry actions of
    [State_Confirming_Dispatchable]. *)
Lemma confirming_actions handle id rule event :
  rule ∈ onTransitionTo (stateDefinitionsMap handle id) State_Confirming_Dispatchable ++
         onTransitionFrom (stateDefinitionsMap handle id) State_Assembling ++
         onTransitionFrom (stateDefinitionsMap handle id) State_Signing ->
  respects sameAssembly (ar_Action rule event).
Proof.
  intros Hr. cbn in Hr. split_members.
  - apply (proj1 (sameAssembly_schedule id)).
  - apply sameAssembly_sendPreDispatchRequest.
  - cbn. unfold action_DeleteGrapherSnapshot. same_go.
  - cbn. unfold action_ClearStateTimeout, clearStateTimeoutSchedule, cancelTimer. same_go.
Qed.

(** The transitions that lead there, and what their guards require. *)
Lemma confirming_transition handle id s ty h tr :
  handles (stateDefinitionsMap handle id) s ty h -> tr ∈ eh_Transitions h -> tr_To tr = State_Confirming_Dispatchable ->
  tr_Actions tr = [] /\
  (s = State_Assembling \/ s = State_Signing \/ s = State_Endorsement_Gathering \/ s = State_Blocked) /\
  forall w, guardPasses (tr_If tr) w = (w, Ok true) ->
    hasDependenciesNotReady w id = false /\ (s = State_Blocked \/ guard_AttestationPlanFulfilled id w = Some true).
Proof.
  intros (d & hs & Hd & He & Hh) Htr Hto.
  destruct s; injection Hd as <-; destruct ty; try discriminate He; injection He as <-; cbn in Hh; split_members;
    cbn in Htr; unfold assembledTransitions, signErrorTransitions in *; split_members; try discriminate Hto.
  all: split; [reflexivity|]; split; [auto|]; intros w; cbn [ToIf tr_If guardPasses GuardAnd GuardNot].
  all: unfold liftR, guard_HasDependenciesNotReady, GuardNot; cbn [GuardAnd].
  all: destruct (guard_SignRequirementsFulfilled id w) as [[]|]; try discriminate.
  all: destruct (guard_AttestationPlanFulfilled id w) as [[]|]; try discriminate.
  all: destruct (hasDependenciesNotReady w id); try discriminate; auto.
Qed.

Lemma sameAssembly_rules handle id event rules :
  (forall rule, rule ∈ rules ->
     rule ∈ onTransitionTo (stateDefinitionsMap handle id) State_Confirming_Dispatchable ++
            onTransitionFrom (stateDefinitionsMap handle id) State_Assembling ++
            onTransitionFrom (stateDefinitionsMap handle id) State_Signing) ->
  respects sameAssembly (executeActionRules event rules).
Proof.
  intros Hr. apply executeActionRules_respects; [apply _|]. intros rule Hin. eapply confirming_actions. by apply Hr.
Qed.

Lemma sameAssembly_callback id from to event w : sameAssembly w (transitionCallback id from to event w).
Proof.
  unfold transitionCallback. etrans; [apply (sameAssembly_setTx id (fun t => t <| heartbeatIntervalsSinceStateChange := 0%Z |> <| stateEntryTime := w_now w |>)); by intros []|].
  by apply (sameAssembly_modify (fun w => w <| w_c ::= fun c => c <| c_internalQueue ::= fun q => q ++ [_] |> |>)).
Qed.

Lemma sameAssembly_state id w w' t :
  sameAssembly w w' -> transactionsByID w !! id = Some t ->
  exists t', transactionsByID w' !! id = Some t' /\ stateMachine t' = stateMachine t /\ pt t' = pt t.
Proof.
  intros (_ & _ & Hs) Ht. specialize (Hs id). rewrite Ht in Hs. destruct (transactionsByID w' !! id) as [t'|]; [|done].
  injection Hs as H1 H2. eauto.
Qed.

(** From the guard of the transition to the end of the entry actions, dependencies and assemblies
    stay as they were, up to the state of [id] itself. *)
Lemma confirming_taken handle id event h tr s ty t w w2 :
  transactionsByID w !! id = Some t -> currentState (stateMachine t) = s ->
  handles (stateDefinitionsMap handle id) s ty h -> tr ∈ eh_Transitions h -> tr_To tr = State_Confirming_Dispatchable ->
  takeTransition (txEntity id) (stateDefinitionsMap handle id) (Some (transitionCallback id)) event tr w = (w2, Ok tt) ->
  sameAssembly (enterState (txEntity id) State_Confirming_Dispatchable event w) w2.
Proof.
  intros Ht Hs Hh Htr Hto. destruct (confirming_transition handle id s ty h tr Hh Htr Hto) as (Ha & Hfrom & _).
  unfold takeTransition, gets, modify. rewrite Ha, Hto.
  unfold mbind at 1, M_bind at 1. unfold mbind at 1, M_bind at 1. cbn [executeActionRules].
  unfold mbind at 1, M_bind at 1. cbn [mret M_ret]. rewrite (txEntity_laws_at id w t Ht), Hs.
  set (w0 := enterState _ _ _ _).
  assert (HF : respects sameAssembly (executeActionRules event (onTransitionFrom (stateDefinitionsMap handle id) s))).
  { apply (sameAssembly_rules handle id). intros rule Hr. rewrite !elem_of_app.
    destruct Hfrom as [-> |[-> |[-> | ->]]]; [auto|auto|by inversion Hr..]. }
  specialize (HF w0). unfold mbind at 1, M_bind at 1.
  destruct (executeActionRules event (onTransitionFrom (stateDefinitionsMap handle id) s) w0) as [wa [[]|e|c]]; try done.
  simpl in HF. unfold mbind at 1, M_bind at 1.
  assert (Ht0 : transactionsByID w0 !! id = Some (t <| stateMachine := MkMachine State_Confirming_Dispatchable (Some (Type_of event)) (w_now w) |>)).
  { unfold w0. by rewrite enterState_lookup, decide_True, Ht. }
  destruct (sameAssembly_state id w0 wa _ HF Ht0) as (ta & Hta & Hsa & _).
  rewrite (txEntity_laws_at id wa ta Hta), Hsa. cbn [currentState stateMachine field_set runCallback].
  unfold modify, mbind, M_bind. intros He. etrans; [exact HF|]. etrans; [apply (sameAssembly_callback id s State_Confirming_Dispatchable event)|].
  assert (HE : respects sameAssembly (executeActionRules event (onTransitionTo (stateDefinitionsMap handle id) State_Confirming_Dispatchable))).
  { apply (sameAssembly_rules handle id). intros rule Hr. rewrite !elem_of_app. auto. }
  specialize (HE (transitionCallback id s State_Confirming_Dispatchable event wa)). by rewrite He in HE.
Qed.

Lemma sameAssembly_unfulfilled t t' : pt t' = pt t -> unfulfilledEndorsementRequirements t' = unfulfilledEndorsementRequirements t.
Proof. unfold unfulfilledEndorsementRequirements. by intros ->. Qed.

(** Ready to be dispatched, or past it. *)
Definition readyState (s : State) : Prop := s = State_Ready_For_Dispatch \/ s = State_Dispatched \/ s = State_Confirmed.

Lemma hasDependenciesNotReady_false w id dep :
  hasDependenciesNotReady w id = false -> dep ∈ GetDependencies (grapherMemOf w) id ++ chainedPrerequisites w id ->
  exists s, getCoordinatorTransactionState w dep = Some s /\ readyState s.
Proof.
  unfold hasDependenciesNotReady. intros Hn Hdep.
  apply not_true_iff_false in Hn. destruct (getCoordinatorTransactionState w dep) as [s|] eqn:Es.
  - exists s. split; [done|]. unfold readyState. destruct s; auto; destruct Hn; apply existsb_exists; exists dep;
      (split; [by apply list_elem_of_In|by rewrite Es]).
  - destruct Hn. apply existsb_exists. exists dep. split; [by apply list_elem_of_In|by rewrite Es].
Qed.

(** The dependencies of [id], seen after the transition. *)
Lemma ready_after id event w w2 t dep :
  transactionsByID w !! id = Some t -> ~ readyState (currentState (stateMachine t)) ->
  hasDependenciesNotReady w id = false ->
  sameAssembly (enterState (txEntity id) State_Confirming_Dispatchable event w) w2 ->
  dep ∈ GetDependencies (grapherMemOf w2) id ++ chainedPrerequisites w2 id ->
  exists s, getCoordinatorTransactionState w2 dep = Some s /\ readyState s.
Proof.
  intros Ht Hnr Hg (Hd & Hgr & Hs) Hdep.
  assert (Hdep' : dep ∈ GetDependencies (grapherMemOf w) id ++ chainedPrerequisites w id).
  { revert Hdep. unfold GetDependencies, chainedPrerequisites, grapherMemOf. cbn [gm_g gm_deps]. by rewrite Hd, Hgr. }
  destruct (hasDependenciesNotReady_false w id dep Hg Hdep') as (s & Es & Hr).
  exists s. split; [|done].
  assert (Hne : dep <> id).
  { intros ->. apply Hnr. unfold getCoordinatorTransactionState in Es. rewrite Ht in Es. by injection Es as ->. }
  specialize (Hs dep). rewrite enterState_lookup, decide_False in Hs by done. revert Es. unfold getCoordinatorTransactionState.
  destruct (transactionsByID w !! dep) as [td|], (transactionsByID w2 !! dep) as [td2|]; try done.
  injection Hs as Hm _. simpl. by rewrite Hm.
Qed.

(** (C5) The originator is asked to approve the dispatch of a transaction only when everything it
    depends on is ready: once handling an event, without error, has moved a transaction to
    [State_Confirming_Dispatchable], every transaction it depends on, through the states it consumes or
    as a chained dependency, is known to the coordinator and ready for dispatch, dispatched or
    confirmed; and unless it had been waiting in [State_Blocked], its attestation plan is fulfilled. *)
Theorem dispatch_requested_when_ready fuel id event t w w' t' :
  transactionsByID w !! id = Some t ->
  coordinatorTransactionHandleEvent fuel id event w = (w', Ok tt) ->
  transactionsByID w' !! id = Some t' ->
  currentState (stateMachine t) <> State_Confirming_Dispatchable ->
  currentState (stateMachine t') = State_Confirming_Dispatchable ->
  (forall dep, dep ∈ GetDependencies (grapherMemOf w') id ++ chainedPrerequisites w' id ->
     exists s, getCoordinatorTransactionState w' dep = Some s /\ readyState s) /\
  (currentState (stateMachine t) = State_Blocked \/ unfulfilledEndorsementRequirements t' = Some []).
Proof.
  intros Ht Hrun Ht' Hne Hs'. destruct fuel as [|fuel]; [done|].
  cbn [coordinatorTransactionHandleEvent] in Hrun. rewrite Ht in Hrun.
  set (handle := coordinatorTransactionHandleEvent fuel) in *.
  assert (Hh : forall dep ev, respects evolves (handle dep ev)) by apply handleEvent_evolves.
  destruct (HandleEvent_moved handle id event t w w' t' Hh Ht Hrun Ht' ltac:(congruence))
    as (h & tr & w3 & w2 & Hhd & Htr & Hg & Hw3 & Htake & ->).
  assert (Hid3 : id ∈ heldLocks w3) by (rewrite (proj1 Hw3); simpl; set_solver).
  assert (H3 : exists t3, transactionsByID w3 !! id = Some t3 /\ currentState (stateMachine t3) = currentState (stateMachine t)).
  { destruct Hw3 as [_ H3]. specialize (H3 id). simpl in H3. rewrite Ht in H3.
    destruct (transactionsByID w3 !! id) as [t3|]; [|done]. exists t3. split; [done|]. apply H3. set_solver. }
  destruct H3 as (t3 & Ht3 & Hs3). simpl in Ht'.
  destruct (transition_entry handle id event h tr _ _ w3 w2 t3 Hh Hid3 Ht3 Hhd Htr Htake) as [(t2 & Ht2 & Hs2) _].
  rewrite Ht' in Ht2. injection Ht2 as <-. rewrite Hs' in Hs2. symmetry in Hs2.
  destruct (confirming_transition handle id _ _ h tr Hhd Htr Hs2) as (_ & Hfrom & Hguard).
  destruct (Hguard w3 Hg) as [Hready Hplan].
  pose proof (confirming_taken handle id event h tr _ _ t3 w3 w2 Ht3 Hs3 Hhd Htr Hs2 Htake) as Hsame.
  split.
  - intros dep Hdep. apply (ready_after id event w3 w2 t3 dep); try done.
    rewrite Hs3. unfold readyState. destruct Hfrom as [-> |[-> |[-> | ->]]]; intros [|[|]]; done.
  - destruct Hplan as [Hb|Hplan]; [by left|right].
    destruct (sameAssembly_state id _ w2 (t3 <| stateMachine := MkMachine State_Confirming_Dispatchable (Some (Type_of event)) (w_now w3) |>) Hsame)
      as (t2 & Ht2 & _ & Hpt). { by rewrite enterState_lookup, decide_True, Ht3. }
    rewrite Ht' in Ht2. injection Ht2 as <-. rewrite (sameAssembly_unfulfilled _ _ Hpt).
    unfold guard_AttestationPlanFulfilled, onTx in Hplan. rewrite Ht3 in Hplan.
    change (unfulfilledEndorsementRequirements t3 = Some []).
    destruct (unfulfilledEndorsementRequirements t3) as [[|x l]|]; try done.
Qed.
End AskForDispatch.

(** The second transaction of a chain is blocked on the first, which is ready. *)
Definition blockedTx : coordinatorTransaction := withAssembly [] (sampleTx 2 State_Blocked).
Definition blockedWorld : World := sampleWorld [sampleTx 1 State_Ready_For_Dispatch; blockedTx] sampleChain.

Lemma dispatch_requested_when_ready_witness :
  exists w' t', coordinatorTransactionHandleEvent 3 2 DependencyReadyEvent blockedWorld = (w', Ok tt) /\
    transactionsByID w' !! 2%N = Some t' /\ chainedPrerequisites w' 2 = [1%N] /\
    (forall dep, dep ∈ GetDependencies (grapherMemOf w') 2 ++ chainedPrerequisites w' 2 ->
       exists s, getCoordinatorTransactionState w' dep = Some s /\ readyState s).
Proof.
  eexists _, _. split; [vm_compute; reflexivity|]. split; [vm_compute; reflexivity|]. split; [reflexivity|].
  eapply (dispatch_requested_when_ready 3 2 DependencyReadyEvent blockedTx blockedWorld).
  - reflexivity.
  - vm_compute. reflexivity.
  - vm_compute. reflexivity.
  - discriminate.
  - reflexivity.
Defined.

(** The prepare goroutine of a transaction chained to one that resets. *)
Definition racingTx : coordinatorTransaction := withAssembly [] (sampleTx 2 State_Preparing).
Definition racingWorld : World := sampleWorld [sampleTx 1 State_Dispatched; racingTx] sampleChain.
Definition samplePrepared : PrepareTransactionResult := MkPrepareResult (Some "tx"%string) None "key"%string.

Lemma prepare_panics_after_repool_witness :
  exists w' t', coordinatorTransactionHandleEvent 3 2 (DependencyResetEvent 1) racingWorld = (w', Ok tt) /\
    transactionsByID w' !! 2%N = Some t' /\
    is_Ok (prepareAndBuildDispatch racingWorld (pt racingTx) samplePrepared 0) = true /\
    prepareAndBuildDispatch w' (pt t') samplePrepared 0 = Crash Panic.
Proof.
  eexists _, _. split; [vm_compute; reflexivity|]. split; [vm_compute; reflexivity|]. split; [reflexivity|].
  eapply (prepare_panics_after_repool 3 2 (DependencyResetEvent 1) racingTx racingWorld).
  - reflexivity.
  - reflexivity.
  - vm_compute. reflexivity.
  - vm_compute. reflexivity.
  - right. reflexivity.
  - reflexivity.
Defined.
