(* ===== verification/Endorsement.v ===== *)
(** * Gathering endorsements

    When an attestation plan counts as fulfilled, when enough endorsers have failed that it cannot
    be any more, and that each request is answered once (coordinator/transaction/endorsing.go). *)

From S2P Require Import Prelude StateMachine TxTypes CoordTypes World TxActions TxMachine Sample.
Open Scope list_scope.

(** ** The attestation plan *)

(** An endorsement counts towards a requirement by its name and verifier type, and as a party's by
    the lookup of its verifier. *)
Definition countsFor (r : AttestationRequest) (e : AttestationResult) : bool :=
  String.eqb (at_Name e) (ar_Name r) &&
  match at_Verifier e with Some v => String.eqb (ar_VerifierType r) (rv_VerifierType v) | None => false end.

Definition endorses (r : AttestationRequest) (party : string) (e : AttestationResult) : Prop :=
  countsFor r e = true /\ exists v, at_Verifier e = Some v /\ rv_Lookup v = party.

(** A requirement is met by enough endorsements, or by all of its parties. *)
Definition requirementMet (r : AttestationRequest) (endorsements : list AttestationResult) : Prop :=
  (effectiveThreshold r <= Z.of_nat (length (List.filter (countsFor r) endorsements)))%Z \/
  forall party, party ∈ ar_Parties r -> exists e, e ∈ endorsements /\ endorses r party e.

Definition verified (endorsements : list AttestationResult) : Prop := Forall (fun e => is_Some (at_Verifier e)) endorsements.

Lemma receivedCount_spec r l : verified l -> receivedCount r l = Some (Z.of_nat (length (List.filter (countsFor r) l))).
Proof.
  induction 1 as [|e l [v Hv] _ IH]; simpl; [done|]. unfold countsFor at 1. rewrite Hv.
  destruct (String.eqb (at_Name e) (ar_Name r)); simpl; [|done]. rewrite IH. simpl. f_equal.
  destruct (String.eqb (ar_VerifierType r) (rv_VerifierType v)); simpl; lia.
Qed.

Lemma endorsedBy_spec r party l :
  verified l -> exists b, endorsedBy r party l = Some b /\ (b = true <-> exists e, e ∈ l /\ endorses r party e).
Proof.
  induction 1 as [|e l [v Hv] _ (b & Hb & IH)]; simpl.
  { exists false. split; [done|]. split; [done|]. by intros (e & ?%not_elem_of_nil & _). }
  rewrite Hv. cbn [mbind option_bind].
  destruct (String.eqb_spec (at_Name e) (ar_Name r)) as [Hn|Hn],
    (String.eqb_spec party (rv_Lookup v)) as [Hp|Hp],
    (String.eqb_spec (ar_VerifierType r) (rv_VerifierType v)) as [Ht|Ht]; cbn [andb].
  1: { exists true. split; [done|]. split; [|done]. intros _. exists e. split; [left|]. split; [|by exists v].
       unfold countsFor. rewrite Hv, Hn, Ht, !String.eqb_refl. done. }
  all: exists b; split; [exact Hb|]; rewrite IH; split.
  all: try (intros (e' & Hin & He); exists e'; split; [by right|done]).
  all: intros (e' & [->|Hin]%elem_of_cons & He); [|by exists e'].
  all: exfalso; destruct He as [Hc (v' & Hv' & Hl)]; unfold countsFor in Hc; rewrite Hv in Hv'; injection Hv' as <-.
  all: rewrite Hv in Hc; apply andb_prop in Hc as [Hc1%String.eqb_eq Hc2%String.eqb_eq]; congruence.
Qed.

Lemma unfulfilledParties_spec r l parties :
  verified l -> exists u, unfulfilledParties r l parties = Some u /\
    (u = [] <-> forall party, party ∈ parties -> exists e, e ∈ l /\ endorses r party e).
Proof.
  intros Hl. induction parties as [|party parties (u & Hu & IH)]; simpl.
  { exists []. split; [done|]. split; [|done]. intros _ party ?%not_elem_of_nil. done. }
  destruct (endorsedBy_spec r party l Hl) as (b & -> & Hb). cbn [mbind option_bind]. rewrite Hu. cbn [option_bind].
  eexists. split; [reflexivity|]. destruct b.
  - rewrite IH. split.
    + intros H p [->|Hp]%elem_of_cons; [by apply Hb|by apply H].
    + intros H p Hp. apply H. by right.
  - split; [done|]. intros H. assert (false = true); [|done]. apply Hb, H. left.
Qed.

Lemma unfulfilledFor_spec r l :
  verified l -> exists u, unfulfilledFor r l = Some u /\
    (u = [] <-> (ar_AttestationType r = AttestationType_ENDORSE -> requirementMet r l)).
Proof.
  intros Hl. unfold unfulfilledFor. destruct (ar_AttestationType r); try (by exists []).
  rewrite receivedCount_spec by done. cbn [mbind option_bind].
  destruct (unfulfilledParties_spec r l (ar_Parties r) Hl) as (u & Hu & Hiff). unfold requirementMet.
  destruct (Z.leb_spec (effectiveThreshold r - Z.of_nat (length (List.filter (countsFor r) l))) 0).
  - exists []. split; [done|]. split; [|done]. intros _ _. left. lia.
  - exists u. split; [done|]. rewrite Hiff. split; [by right|]. intros [?|?]; [done|lia|done].
Qed.

(** (C33) An attestation plan counts as fulfilled, when every endorsement that was collected has a
    verifier, exactly when each of its endorsement requirements is met: by endorsements of its name and
    verifier type up to the threshold (all its parties when none is set), or, whatever the threshold, by
    an endorsement of every one of its parties. *)
Theorem attestationPlan_fulfilled_iff t pa :
  pt_PostAssembly (pt t) = Some pa -> verified (pa_CollectedEndorsements pa) ->
  unfulfilledEndorsementRequirements t = Some [] <->
  forall r, r ∈ pp_AttestationPlan (pa_AssembleResponse pa) -> ar_AttestationType r = AttestationType_ENDORSE ->
    requirementMet r (pa_CollectedEndorsements pa).
Proof.
  intros Hpa Hl. unfold unfulfilledEndorsementRequirements. rewrite Hpa.
  induction (pp_AttestationPlan (pa_AssembleResponse pa)) as [|r plan IH]; simpl.
  { split; [|done]. intros _ r ?%not_elem_of_nil. done. }
  destruct (unfulfilledFor_spec r _ Hl) as (u & -> & Hu). cbn [mbind option_bind].
  destruct (unfulfilledInPlan plan (pa_CollectedEndorsements pa)) as [u'|]; cbn [option_bind].
  - split.
    + intros [= [Hu0 Hu']%app_eq_nil] r' [->|Hr']%elem_of_cons; [by apply Hu|]. apply IH; [by f_equal|done].
    + intros H. f_equal. rewrite (proj2 Hu) by (apply H; left). simpl.
      assert (Some u' = Some []) as [= ->]; [|done]. apply IH. intros r' Hr'. apply H. by right.
  - split; [done|]. intros H. assert (@None (list (AttestationRequest * string)) = Some []); [|done].
    apply IH. intros r' Hr'. apply H. by right.
Qed.

(** ** Tolerated failures *)

Definition isEndorse (r : AttestationRequest) : bool :=
  match ar_AttestationType r with AttestationType_ENDORSE => true | _ => false end.

Definition endorseNames (plan : list AttestationRequest) : list string := map ar_Name (List.filter isEndorse plan).

Lemma addTolerance_other plan acc name :
  name ∉ endorseNames plan -> foldl addTolerance acc plan !! name = acc !! name.
Proof.
  revert acc. induction plan as [|r plan IH]; intros acc Hn; simpl; [done|].
  unfold endorseNames in *. simpl in Hn. unfold isEndorse at 1 in Hn. unfold addTolerance at 2.
  destruct (ar_AttestationType r); try (by apply IH). simpl in Hn. apply not_elem_of_cons in Hn as [Hne Hn].
  rewrite IH by done. apply lookup_insert_ne. congruence.
Qed.

Lemma computeTolerances_lookup plan acc r :
  NoDup (endorseNames plan) -> r ∈ plan -> isEndorse r = true ->
  foldl addTolerance acc plan !! ar_Name r = Some (Z.of_nat (length (ar_Parties r)) - effectiveThreshold r)%Z.
Proof.
  revert acc. induction plan as [|r' plan IH]; intros acc Hnd Hr He; [by apply not_elem_of_nil in Hr|].
  simpl. unfold endorseNames in Hnd. simpl in Hnd. apply elem_of_cons in Hr as [->|Hr].
  - rewrite He in Hnd. simpl in Hnd. apply NoDup_cons in Hnd as [Hn _]. rewrite addTolerance_other by done.
    unfold isEndorse in He. unfold addTolerance. destruct (ar_AttestationType r'); try done. apply lookup_insert_eq.
  - apply IH; try done. destruct (isEndorse r'); [|done]. simpl in Hnd. apply NoDup_cons in Hnd as [_ Hnd]. exact Hnd.
Qed.

(** Repooling is neither premature nor too late: for a plan whose endorsement requirements have
    distinct names, the number of a requirement's parties that failed exceeds the computed tolerance
    exactly when the parties left are fewer than its threshold, so that no further endorsement can
    meet it. *)
Theorem tolerance_exceeded_iff_unreachable plan r failed :
  NoDup (endorseNames plan) -> r ∈ plan -> isEndorse r = true ->
  NoDup (ar_Parties r) -> NoDup failed -> failed ⊆ ar_Parties r ->
  exists tolerance, computeTolerances plan !! ar_Name r = Some tolerance /\
    ((tolerance < Z.of_nat (length failed))%Z <->
     (Z.of_nat (length (list_difference (ar_Parties r) failed)) < effectiveThreshold r)%Z).
Proof.
  intros Hnd Hr He Hparties Hfailed Hsub. eexists. split; [by apply computeTolerances_lookup|].
  assert (Hlen : length (ar_Parties r) = (length failed + length (list_difference (ar_Parties r) failed))%nat).
  { rewrite <-length_app. apply Permutation_length, NoDup_Permutation.
    - done.
    - apply NoDup_app. split_and!; [done| |by apply NoDup_list_difference].
      intros x Hx [_ Hn]%list_elem_of_difference. done.
    - intros x. rewrite elem_of_app, list_elem_of_difference. destruct (decide (x ∈ failed)); set_solver. }
  lia.
Qed.

(** ** Each request is answered once *)

(** The parties of a requirement that are marked as failed this round. *)
Definition failedEntries (t : coordinatorTransaction) (name : string) : gmap string (option IdempotentRequest) :=
  filter (fun kv => kv.2 = None) (default ∅ (pendingFor t name)).

Definition failuresCounted (t : coordinatorTransaction) : Prop :=
  forall name, default 0%Z (endorseFailureCountByRequirement t !! name) = Z.of_nat (size (failedEntries t name)).

(** The failures: errors, rejections and reverts, with the revert's reason. *)
Definition failureOf (event : Event) : option (string * string * option string) :=
  match event with
  | EndorseErrorEvent _ party name => Some (name, party, None)
  | EndorseRequestRejectedEvent party name _ _ => Some (name, party, None)
  | EndorseRevertEvent party reason name _ => Some (name, party, Some reason)
  | _ => None
  end.

(** The transaction after a failure of [party] was recorded. *)
Definition afterFailure (name party : string) (revert : option string) (t : coordinatorTransaction) : coordinatorTransaction :=
  let t := t <| pendingEndorsementRequests ::= fmap (alter (<[party := None]>) name) |>
             <| endorseFailureCountByRequirement ::= fun c => increment c name |> in
  match revert with
  | Some reason => t <| endorseRevertCountByRequirement ::= fun c => increment c name |>
                     <| endorseRevertReasons ::= fun l => l ++ [(party, reason)] |>
  | None => t
  end.

Lemma pendingFor_afterFailure name party revert t name' :
  pendingFor (afterFailure name party revert t) name'
  = if decide (name' = name) then <[party := None]> <$> pendingFor t name else pendingFor t name'.
Proof.
  assert (Hp : pendingEndorsementRequests (afterFailure name party revert t)
               = alter (<[party := None]>) name <$> pendingEndorsementRequests t) by (by destruct revert).
  unfold pendingFor. rewrite Hp. destruct (pendingEndorsementRequests t) as [m|]; simpl; [|by case_decide].
  case_decide as Hn; [subst; apply lookup_alter_eq|by apply lookup_alter_ne].
Qed.

Lemma failuresCounted_after name party revert r t :
  failuresCounted t -> pendingEntry t name party = Some (Some r) ->
  failuresCounted (afterFailure name party revert t) /\
  size (failedEntries (afterFailure name party revert t) name) = S (size (failedEntries t name)).
Proof.
  intros Hc Hp. unfold pendingEntry in Hp. destruct (pendingFor t name) as [m|] eqn:Hm; [|done].
  assert (Hsize : size (failedEntries (afterFailure name party revert t) name) = S (size (failedEntries t name))).
  { unfold failedEntries. rewrite pendingFor_afterFailure, decide_True, Hm by done. cbn [fmap option_fmap option_map from_option id].
    rewrite map_filter_insert_True by done. apply map_size_insert_None. apply map_lookup_filter_None. right.
    intros x Hx. rewrite Hp in Hx. by injection Hx as <-. }
  split; [|done]. intros name'.
  assert (Hf : endorseFailureCountByRequirement (afterFailure name party revert t)
               = increment (endorseFailureCountByRequirement t) name) by (by destruct revert).
  rewrite Hf. unfold increment. destruct (decide (name' = name)) as [->|Hn].
  - rewrite lookup_insert_eq, Hsize. simpl. rewrite (Hc name). lia.
  - rewrite lookup_insert_ne by done. rewrite (Hc name'). unfold failedEntries.
    by rewrite pendingFor_afterFailure, decide_False by done.
Qed.

Lemma recordEndorseFailure_run id name party revert r t w :
  transactionsByID w !! id = Some t -> party <> EmptyString -> pendingEntry t name party = Some (Some r) ->
  exists w', recordEndorseFailure id name party revert w = (w', Ok tt) /\
    transactionsByID w' !! id = Some (afterFailure name party revert t).
Proof.
  intros Ht Hparty Hp. unfold recordEndorseFailure.
  destruct (String.eqb_spec party EmptyString); [done|].
  unfold getTx. unfold mbind at 1, M_bind at 1. rewrite Ht.
  unfold pendingEntry in Hp. destruct (pendingFor t name) as [m|]; [|done].
  unfold updTx at 1, modify. unfold mbind, M_bind. destruct revert; eexists; (split; [reflexivity|]).
  all: unfold setTx; simpl; rewrite !lookup_alter_eq, ?Ht; done.
Qed.

(** A failing endorser is counted once: recording a failure that answers the outstanding
    request of a party adds one to the failures counted for the requirement, keeps the count equal
    to the number of parties marked as failed, counts a revert as a revert, and retires the request,
    so that the same failure delivered again no longer matches. *)
Theorem endorse_failure_counted_once id event name party revert t w :
  transactionsByID w !! id = Some t -> failuresCounted t ->
  failureOf event = Some (name, party, revert) -> party <> EmptyString ->
  validator_MatchesPendingEndorsementRequest id event w = Ok true ->
  exists w' t', action_RecordEndorseFailure id event w = (w', Ok tt) /\ transactionsByID w' !! id = Some t' /\
    failuresCounted t' /\
    size (failedEntries t' name) = S (size (failedEntries t name)) /\
    default 0%Z (endorseRevertCountByRequirement t' !! name)
      = (default 0%Z (endorseRevertCountByRequirement t !! name) + match revert with Some _ => 1 | None => 0 end)%Z /\
    validator_MatchesPendingEndorsementRequest id event w' = Ok false.
Proof.
  intros Ht Hc Hf Hparty Hv.
  assert (Ho : exists requestID, endorsementOutcome event = Some (name, party, requestID)).
  { destruct event; try discriminate Hf; cbn in Hf; injection Hf as <- <- <-; eexists; reflexivity. }
  destruct Ho as [requestID Ho].
  assert (Hp : exists r, pendingEntry t name party = Some (Some r)).
  { unfold validator_MatchesPendingEndorsementRequest, validTx in Hv. rewrite Ht, Ho in Hv.
    destruct (pendingEntry t name party) as [[r|]|]; [eauto|done|done]. }
  destruct Hp as [r Hp].
  destruct (recordEndorseFailure_run id name party revert r t w Ht Hparty Hp) as (w' & Hrun & Ht').
  destruct (failuresCounted_after name party revert r t Hc Hp) as [Hc' Hs'].
  exists w', (afterFailure name party revert t). split_and!; try done.
  - destruct event; try discriminate Hf; cbn in Hf; injection Hf as <- <- <-; exact Hrun.
  - destruct revert; simpl; [unfold increment; by rewrite lookup_insert_eq|lia].
  - unfold validator_MatchesPendingEndorsementRequest, validTx. rewrite Ht', Ho. unfold pendingEntry.
    rewrite pendingFor_afterFailure, decide_True by done. unfold pendingEntry in Hp.
    destruct (pendingFor t name) as [m|]; [|done]. cbn [fmap option_fmap option_map]. by rewrite lookup_insert_eq.
Qed.

(** ** An endorsement without a verifier *)

Lemma receivedCount_nil r e l :
  e ∈ l -> at_Name e = ar_Name r -> at_Verifier e = None -> receivedCount r l = None.
Proof.
  intros He Hn Hv. induction l as [|e' l IH]; [by apply not_elem_of_nil in He|]. simpl.
  apply elem_of_cons in He as [<-|He]; [by rewrite Hn, String.eqb_refl, Hv|].
  rewrite (IH He). destruct (String.eqb _ _); [|done]. by destruct (at_Verifier e').
Qed.

Lemma unfulfilledInPlan_nil r plan l : r ∈ plan -> unfulfilledFor r l = None -> unfulfilledInPlan plan l = None.
Proof.
  intros Hr Hn. induction plan as [|r' plan IH]; [by apply not_elem_of_nil in Hr|]. simpl.
  apply elem_of_cons in Hr as [<-|Hr]; [by rewrite Hn|]. rewrite (IH Hr). by destruct (unfulfilledFor r' l).
Qed.

(** The endorsements that an assemble response brings along are collected as they come, and
    judging the plan dereferences the verifier of each one that names a requirement: when a collected
    endorsement that names one has no verifier, evaluating whether the plan is fulfilled panics. *)
Theorem endorsement_without_verifier_panics id t w pa r e :
  transactionsByID w !! id = Some t -> pt_PostAssembly (pt t) = Some pa ->
  r ∈ pp_AttestationPlan (pa_AssembleResponse pa) -> ar_AttestationType r = AttestationType_ENDORSE ->
  e ∈ pa_CollectedEndorsements pa -> at_Name e = ar_Name r -> at_Verifier e = None ->
  guardPasses (Some (guard_AttestationPlanFulfilled id)) w = (w, Crash Panic).
Proof.
  intros Ht Hpa Hr Hty He Hn Hv. simpl. unfold liftR, guard_AttestationPlanFulfilled, onTx. rewrite Ht.
  unfold unfulfilledEndorsementRequirements. rewrite Hpa. simpl.
  rewrite (unfulfilledInPlan_nil r); [done|done|]. unfold unfulfilledFor. by rewrite Hty, (receivedCount_nil r e).
Qed.

(** *** Two of three endorsers *)

Definition twoOfThree : AttestationRequest :=
  MkAttestationRequest "endorse"%string AttestationType_ENDORSE "alg"%string "eth"%string EmptyString EmptyString ["a@n1"; "b@n2"; "c@n3"]%string 2.

Definition endorsedBySample (party : string) : AttestationResult :=
  MkAttestationResult "endorse"%string AttestationType_ENDORSE
    (Some (MkResolvedVerifier party "alg"%string "eth"%string "0x01"%string)) EmptyString [].

Definition gatheringTx (endorsements : list AttestationResult) : coordinatorTransaction :=
  (sampleTx 1 State_Endorsement_Gathering)
    <| pt ::= fun p => p <| pt_PostAssembly :=
         Some ((sampleAssembly [twoOfThree]) <| pa_CollectedEndorsements := endorsements |>) |> |>
    <| pendingEndorsementRequests := Some {[ "endorse"%string :=
         {[ "c@n3"%string := Some (NewIdempotentRequestWithKey 10 5%N (SendEndorsement "c@n3"%string twoOfThree)) ]} ]} |>.

Lemma attestationPlan_fulfilled_iff_witness :
  unfulfilledEndorsementRequirements (gatheringTx [endorsedBySample "a@n1"%string; endorsedBySample "b@n2"%string]) = Some [] /\
  requirementMet twoOfThree [endorsedBySample "a@n1"%string; endorsedBySample "b@n2"%string].
Proof.
  split; [reflexivity|].
  refine (proj1 (attestationPlan_fulfilled_iff
    (gatheringTx [endorsedBySample "a@n1"%string; endorsedBySample "b@n2"%string]) _ eq_refl _) eq_refl twoOfThree _ eq_refl).
  - repeat constructor; eauto.
  - left.
Defined.

Lemma tolerance_exceeded_iff_unreachable_witness :
  exists tolerance, computeTolerances [twoOfThree] !! "endorse"%string = Some tolerance /\
    ((tolerance < 2)%Z <-> (Z.of_nat (length (list_difference (ar_Parties twoOfThree) ["a@n1"; "b@n2"]%string)) < 2)%Z).
Proof.
  apply (tolerance_exceeded_iff_unreachable [twoOfThree] twoOfThree ["a@n1"; "b@n2"]%string).
  - apply (bool_decide_unpack _). reflexivity.
  - left.
  - reflexivity.
  - apply (bool_decide_unpack _). vm_compute. reflexivity.
  - apply (bool_decide_unpack _). vm_compute. reflexivity.
  - intros x Hx. simpl. set_solver.
Defined.

Lemma endorse_failure_counted_once_witness :
  exists w' t', action_RecordEndorseFailure 1 (EndorseErrorEvent 5 "c@n3"%string "endorse"%string)
      (sampleWorld [gatheringTx []] DependencyTracker.NewDependencyTracker) = (w', Ok tt) /\
    transactionsByID w' !! 1%N = Some t' /\ failuresCounted t' /\
    size (failedEntries t' "endorse"%string) = 1%nat.
Proof.
  destruct (endorse_failure_counted_once 1 (EndorseErrorEvent 5 "c@n3"%string "endorse"%string) "endorse"%string "c@n3"%string None
    (gatheringTx []) (sampleWorld [gatheringTx []] DependencyTracker.NewDependencyTracker)) as (w' & t' & H1 & H2 & H3 & H4 & _).
  - reflexivity.
  - intros name. unfold failedEntries, pendingFor, gatheringTx. simpl.
    destruct (decide (name = "endorse"%string)) as [->|Hn]; [reflexivity|].
    rewrite lookup_singleton_ne by congruence. reflexivity.
  - reflexivity.
  - discriminate.
  - reflexivity.
  - exists w', t'. split_and!; try done.
Defined.

Lemma endorsement_without_verifier_panics_witness :
  exists t, guardPasses (Some (guard_AttestationPlanFulfilled 1))
    (sampleWorld [t] DependencyTracker.NewDependencyTracker) = (sampleWorld [t] DependencyTracker.NewDependencyTracker, Crash Panic).
Proof.
  set (e := MkAttestationResult "endorse"%string AttestationType_ENDORSE None EmptyString []).
  set (response := (pa_AssembleResponse (sampleAssembly [twoOfThree])) <| pp_Endorsements := [e] |>).
  exists ((sampleTx 1 State_Assembling) <| pt ::= fun p => p <| pt_PostAssembly := Some (MkPostAssembly response [] [] [] [] [e]) |> |>).
  eapply (endorsement_without_verifier_panics 1 _ _ (MkPostAssembly response [] [] [] [] [e]) twoOfThree e); try reflexivity; left.
Defined.
