(* ===== verification/DispatchLoop.v ===== *)
(** * The dispatch loop (coordinator/dispatch_loop.go)

    The goroutine that takes prepared dispatches off the queue, in batches that fit under the
    dispatch-ahead limit, commits each transaction to them and hands them to persistence. *)

From S2P Require Import Prelude StateMachine DependencyTracker StateVisibility Grapher StateView TxTypes CoordTypes World TxActions TxMachine Sample TxPropagation.
Open Scope list_scope.

Section DispatchLoop.
Context `{Env}.
Context (maxDispatchAhead dispatchMaxBatchSize : Z).

(** The free slots; [None] while the loop waits for one. *)
Definition awaitDispatchAheadCapacity (w : World) : option Z :=
  let inFlight := Z.of_nat (size (c_inFlightTxns (w_c w))) in
  if (maxDispatchAhead <=? inFlight)%Z then None else Some (maxDispatchAhead - inFlight)%Z.

(** [first] and up to [capacity - 1] more from the queue. *)
Definition pullDispatchBatch (first : uuid * PendingDispatch) (capacity : Z) (w : World) :
    list (uuid * PendingDispatch) * World :=
  let n := Z.to_nat (capacity - 1) in
  let q := c_dispatchQueue (w_c w) in
  (first :: take n q, w <| w_c ::= fun c => c <| c_dispatchQueue := drop n q |> |>).

(** One turn of the loop of [dispatchBatch]: the event is handed to the transaction, an error is
    logged, and the dispatch is appended if the transaction is now dispatched.  A transaction that
    the coordinator has since cleaned up keeps its last state, which is not [State_Dispatched]. *)
Definition commitDispatch (fuel : nat) (acc : World * list PendingDispatch) (qd : uuid * PendingDispatch) :
    World * list PendingDispatch :=
  let '(w, batch) := acc in
  let '(txn, prepared) := qd in
  let event := DispatchedEvent (nonEmpty (td_PublicDispatches (pd_Dispatch prepared))) in
  let w := (coordinatorTransactionHandleEvent fuel txn event w).1 in
  (w, if bool_decide (getCoordinatorTransactionState w txn = Some State_Dispatched) then batch ++ [prepared] else batch).

(** The commit is retried until it succeeds; chained children are then handed to the sequencer
    manager, which is outside the model. *)
Definition dispatchBatch (fuel : nat) (batch : list (uuid * PendingDispatch)) (w : World) : World :=
  let '(w, dispatches) := foldl (commitDispatch fuel) (w, []) batch in
  w <| w_persisted ::= fun l => l ++ dispatches |>.

(** One turn of [dispatchLoop]: [None] while it waits for a dispatch or for capacity. *)
Definition dispatchLoopStep (fuel : nat) (w : World) : option World :=
  match c_dispatchQueue (w_c w) with
  | [] => None
  | qd :: rest =>
      match awaitDispatchAheadCapacity w with
      | None => None
      | Some capacity =>
          let '(batch, w) := pullDispatchBatch qd (Z.min capacity dispatchMaxBatchSize)
                               (w <| w_c ::= fun c => c <| c_dispatchQueue := rest |> |>) in
          Some (dispatchBatch fuel batch w)
      end
  end.

(** ** What the dispatched event does *)

(** In flight and queued, of the coordinator's fields. *)
Definition committed (id : uuid) (public : bool) (w w' : World) : Prop :=
  c_dispatchQueue (w_c w') = c_dispatchQueue (w_c w) /\ w_persisted w' = w_persisted w /\
  c_inFlightTxns (w_c w') ⊆ (if public then {[id]} else ∅) ∪ c_inFlightTxns (w_c w) /\
  heldLocks w' = heldLocks w /\
  forall j, getCoordinatorTransactionState w' j
            = if bool_decide (j = id /\ getCoordinatorTransactionState w id = Some State_Ready_For_Dispatch)
              then Some State_Dispatched else getCoordinatorTransactionState w j.

Lemma dispatched_declined handle id public t w :
  transactionsByID w !! id = Some t -> currentState (stateMachine t) <> State_Ready_For_Dispatch ->
  dispatchEvent (txEntity id) (stateDefinitionsMap handle id) (Some (transitionCallback id)) (DispatchedEvent public) w = (w, Ok tt).
Proof.
  intros Ht Hs. eapply dispatch_declined; [reflexivity|]. rewrite (txEntity_laws_at id w t Ht).
  by destruct (currentState (stateMachine t)).
Qed.

(** The memory once the dispatched event has been taken: the transaction has entered the state and
    is marked in flight if it is public, before its originator is told. *)
Definition dispatchedMem (id : uuid) (public : bool) (w : World) : World :=
  let w1 := enterState (txEntity id) State_Dispatched (DispatchedEvent public) w in
  let w2 := transitionCallback id State_Ready_For_Dispatch State_Dispatched (DispatchedEvent public) w1 in
  if public then (setDispatchedInFlight id true w2).1 else w2.

Lemma dispatched_accepted handle id public t w :
  transactionsByID w !! id = Some t -> currentState (stateMachine t) = State_Ready_For_Dispatch ->
  (dispatchEvent (txEntity id) (stateDefinitionsMap handle id) (Some (transitionCallback id)) (DispatchedEvent public) w).1
  = (action_NotifyDispatched id (DispatchedEvent public) (dispatchedMem id public w)).1.
Proof.
  intros Ht Hs. assert (Hg : GetCurrentState (txEntity id) w = State_Ready_For_Dispatch) by (by rewrite (txEntity_laws_at id w t Ht)).
  rewrite (dispatch_goto _ _ _ _ _ (stateReady_For_Dispatch handle id) (To State_Dispatched []) false)
    by (rewrite ?Hg; reflexivity).
  rewrite takeTransition_plain by (rewrite ?Hg; reflexivity). rewrite Hg. cbn [To tr_To].
  assert (Hg' : GetCurrentState (txEntity id) (enterState (txEntity id) State_Dispatched (DispatchedEvent public) w) = State_Dispatched).
  { unfold GetCurrentState, txEntity, machineOf. cbn [ent_get]. change (MkEntity _ _ _ _ _ _) with (txEntity id).
    by rewrite enterState_lookup, decide_True, Ht. }
  rewrite Hg'. unfold dispatchedMem, runCallback. rewrite (bind_ok (modify _) _ _ _ tt) by reflexivity.
  generalize (transitionCallback id State_Ready_For_Dispatch State_Dispatched (DispatchedEvent public)
    (enterState (txEntity id) State_Dispatched (DispatchedEvent public) w)) as w2. intros w2.
  cbn [onTransitionTo stateDefinitionsMap stateDispatched OnTransitionTo].
  destruct public; simpl; unfold mbind, M_bind, mret, M_ret; cbn [guardPasses Act ar_If ar_Action action_MarkDispatchedInFlight].
  all: unfold mret, M_ret, setDispatchedInFlight, modify; cbn [fst].
  all: by destruct (action_NotifyDispatched id _ _) as [? [[]| |]].
Qed.

(** Telling the originator changes nothing here. *)
Lemma notifyDispatched_frame id event w :
  let w' := (action_NotifyDispatched id event w).1 in
  transactionsByID w' = transactionsByID w /\ heldLocks w' = heldLocks w /\ w_c w' = w_c w /\ w_persisted w' = w_persisted w.
Proof.
  unfold action_NotifyDispatched, newUUID, getTx, send, mbind, M_bind. cbn [fst].
  destruct (transactionsByID (w <| w_nextUUID ::= N.succ |>) !! id); [|done]. cbn.
  by destruct (env_transport _ _).
Qed.

Lemma dispatchedMem_committed id public t w :
  transactionsByID w !! id = Some t -> currentState (stateMachine t) = State_Ready_For_Dispatch ->
  committed id public w (dispatchedMem id public w).
Proof.
  intros Ht Hs. unfold committed. split_and!.
  - by destruct public.
  - by destruct public.
  - destruct public; cbn; set_solver.
  - by destruct public.
  - intros j.
    assert (Hready : getCoordinatorTransactionState w id = Some State_Ready_For_Dispatch).
    { unfold getCoordinatorTransactionState. rewrite Ht. simpl. by rewrite Hs. }
    assert (Hj : transactionsByID (dispatchedMem id public w) !! j
      = alter (fun t => t <| heartbeatIntervalsSinceStateChange := 0%Z |> <| stateEntryTime := w_now w |>) id
          (transactionsByID (enterState (txEntity id) State_Dispatched (DispatchedEvent public) w)) !! j) by (by destruct public).
    unfold getCoordinatorTransactionState at 1. rewrite Hj. destruct (decide (j = id)) as [->|Hne].
    + rewrite bool_decide_true by done. by rewrite lookup_alter_eq, enterState_lookup, decide_True, Ht.
    + rewrite bool_decide_false by naive_solver. by rewrite lookup_alter_ne, enterState_lookup, decide_False.
Qed.

Lemma committed_frame id public w w1 w2 :
  transactionsByID w2 = transactionsByID w1 -> heldLocks w2 = heldLocks w1 -> w_c w2 = w_c w1 ->
  w_persisted w2 = w_persisted w1 -> committed id public w w1 -> committed id public w w2.
Proof.
  unfold committed, getCoordinatorTransactionState. intros -> -> -> ->. done.
Qed.

(** The event commits a transaction that is ready, and leaves any other as it is. *)
Lemma handle_dispatched fuel id public w :
  heldLocks w = ∅ ->
  committed id public w (coordinatorTransactionHandleEvent (S fuel) id (DispatchedEvent public) w).1.
Proof.
  intros Hl. cbn [coordinatorTransactionHandleEvent].
  destruct (transactionsByID w !! id) as [t|] eqn:Ht.
  2: { unfold committed. split_and!; try done; [set_solver|]. intros j. rewrite bool_decide_false; [done|].
       unfold getCoordinatorTransactionState. rewrite Ht. naive_solver. }
  rewrite HandleEvent_unlocked by (rewrite Hl; set_solver).
  set (w1 := w <| heldLocks ::= union {[id]} |>). set (handle := coordinatorTransactionHandleEvent fuel).
  assert (Hw1 : committed id public w1
    (dispatchEvent (txEntity id) (stateDefinitionsMap handle id) (Some (transitionCallback id)) (DispatchedEvent public) w1).1).
  { destruct (decide (currentState (stateMachine t) = State_Ready_For_Dispatch)) as [Hs|Hs].
    - rewrite (dispatched_accepted handle id public t w1 Ht Hs).
      destruct (notifyDispatched_frame id (DispatchedEvent public) (dispatchedMem id public w1)) as (E1 & E2 & E3 & E4).
      apply (committed_frame id public w1 _ _ E1 E2 E3 E4). by apply (dispatchedMem_committed id public t).
    - rewrite (dispatched_declined handle id public t w1 Ht Hs). unfold committed. split_and!; try done; [cbn; set_solver|].
      intros j. rewrite bool_decide_false; [done|]. intros [-> Hj]. apply Hs.
      unfold getCoordinatorTransactionState in Hj. change (transactionsByID w1) with (transactionsByID w) in Hj.
      rewrite Ht in Hj. by injection Hj. }
  destruct (dispatchEvent _ _ _ _ w1) as [w2 r]. destruct Hw1 as (Q & P & F & L & St).
  unfold committed. split_and!; try done. unfold unlockTx, fst. simpl. simpl in L. rewrite L, Hl. set_solver.
Qed.

Lemma commit_inFlight id public w w' :
  committed id public w w' -> (size (c_inFlightTxns (w_c w')) <= S (size (c_inFlightTxns (w_c w))))%nat.
Proof.
  intros (_ & _ & F & _). etrans; [by apply subseteq_size|]. destruct public.
  - rewrite size_union_alt, size_singleton.
    pose proof (subseteq_size (c_inFlightTxns (w_c w) ∖ {[id]}) (c_inFlightTxns (w_c w)) ltac:(set_solver)). lia.
  - rewrite union_empty_l_L. lia.
Qed.

Lemma commitDispatch_fold fuel batch w acc :
  heldLocks w = ∅ ->
  exists w' ds, foldl (commitDispatch (S fuel)) (w, acc) batch = (w', acc ++ ds) /\
    sublist ds (snd <$> batch) /\ heldLocks w' = ∅ /\
    c_dispatchQueue (w_c w') = c_dispatchQueue (w_c w) /\ w_persisted w' = w_persisted w /\
    (size (c_inFlightTxns (w_c w')) <= size (c_inFlightTxns (w_c w)) + length batch)%nat.
Proof.
  revert w acc. induction batch as [|[id prepared] batch IH]; intros w acc Hl; cbn [foldl].
  { exists w, []. rewrite app_nil_r. split_and!; try done. cbn. lia. }
  rewrite fmap_cons. unfold commitDispatch at 2. cbn [snd length].
  set (public := nonEmpty (td_PublicDispatches (pd_Dispatch prepared))).
  pose proof (handle_dispatched fuel id public w Hl) as Hc.
  destruct (coordinatorTransactionHandleEvent (S fuel) id (DispatchedEvent public) w) as [w1 r]. cbn [fst] in *.
  pose proof (commit_inFlight _ _ _ _ Hc) as Hf. destruct Hc as (Q & P & _ & L & _). rewrite Hl in L.
  case_bool_decide as Hd.
  - destruct (IH w1 (acc ++ [prepared]) L) as (w' & ds & E & Hs & L' & Q' & P' & F'). exists w', (prepared :: ds).
    rewrite E, <-app_assoc. split_and!; [done|by apply sublist_skip|done|congruence|congruence|lia].
  - destruct (IH w1 acc L) as (w' & ds & E & Hs & L' & Q' & P' & F'). exists w', ds.
    split_and!; [done|by apply sublist_cons|done|congruence|congruence|lia].
Qed.

(** What one turn of the loop may do. *)
Definition loopTurn (w w' : World) : Prop :=
  heldLocks w' = ∅ /\
  (Z.of_nat (size (c_inFlightTxns (w_c w'))) <= maxDispatchAhead)%Z /\
  exists taken ds, c_dispatchQueue (w_c w) = taken ++ c_dispatchQueue (w_c w') /\
    w_persisted w' = w_persisted w ++ ds /\ sublist ds (snd <$> taken).

Lemma dispatchLoopStep_ok fuel w w' :
  heldLocks w = ∅ -> dispatchLoopStep (S fuel) w = Some w' -> loopTurn w w'.
Proof.
  intros Hl. unfold dispatchLoopStep, awaitDispatchAheadCapacity.
  destruct (c_dispatchQueue (w_c w)) as [|qd rest] eqn:Eq; [done|].
  destruct (Z.leb_spec maxDispatchAhead (Z.of_nat (size (c_inFlightTxns (w_c w))))) as [|Hcap]; [done|].
  unfold pullDispatchBatch, dispatchBatch. cbn [w_c c_dispatchQueue field_set].
  set (n := Z.to_nat _). set (w1 := field_set _ _ _).
  destruct (commitDispatch_fold fuel (qd :: take n rest) w1 [] Hl) as (w2 & ds & E & Hs & L & Q & P & F).
  cbn [app] in E. rewrite E. intros [= <-]. split_and!; [done| |].
  - cbn. cbn [length] in F. rewrite length_take in F. change (c_inFlightTxns (w_c w1)) with (c_inFlightTxns (w_c w)) in F.
    assert (Hn : (Z.of_nat n <= maxDispatchAhead - Z.of_nat (size (c_inFlightTxns (w_c w))) - 1)%Z).
    { unfold n. destruct (Z.le_ge_cases 0 (Z.min (maxDispatchAhead - Z.of_nat (size (c_inFlightTxns (w_c w)))) dispatchMaxBatchSize - 1)).
      - rewrite Z2Nat.id by done. lia.
      - rewrite (Z2Nat.nonpos _ ltac:(done)). lia. }
    lia.
  - exists (qd :: take n rest), ds. split_and!; [|cbn; by rewrite P|done].
    rewrite Eq. change (qd :: rest = (qd :: take n rest) ++ c_dispatchQueue (w_c w2)). rewrite Q. cbn. by rewrite take_drop.
Qed.

(** The loop, turn after turn, until it would wait. *)
Fixpoint dispatchLoop (turns fuel : nat) (w : World) : World :=
  match turns with
  | O => w
  | S turns =>
      match dispatchLoopStep fuel w with
      | Some w' => dispatchLoop turns fuel w'
      | None => w
      end
  end.

(** (C34) The dispatch loop keeps the order and the limit: however many turns it runs, what it
    persists is taken from the front of the queue, in queue order, each queued dispatch at most once,
    and it never takes the number of public transactions in flight beyond the dispatch-ahead limit. *)
Theorem dispatchLoop_keeps_order_and_limit turns fuel w :
  heldLocks w = ∅ -> (Z.of_nat (size (c_inFlightTxns (w_c w))) <= maxDispatchAhead)%Z ->
  let w' := dispatchLoop turns (S fuel) w in
  (Z.of_nat (size (c_inFlightTxns (w_c w'))) <= maxDispatchAhead)%Z /\
  exists taken ds, c_dispatchQueue (w_c w) = taken ++ c_dispatchQueue (w_c w') /\
    w_persisted w' = w_persisted w ++ ds /\ sublist ds (snd <$> taken).
Proof.
  revert w. induction turns as [|turns IH]; intros w Hl Hi; cbn [dispatchLoop]; cbv zeta.
  { split; [done|]. exists [], []. by rewrite app_nil_r. }
  destruct (dispatchLoopStep (S fuel) w) as [w1|] eqn:E.
  2: { split; [done|]. exists [], []. by rewrite app_nil_r. }
  destruct (dispatchLoopStep_ok fuel w w1 Hl E) as (L & I1 & taken & ds & Q & P & Hs).
  destruct (IH w1 L I1) as (I2 & taken2 & ds2 & Q2 & P2 & Hs2). split; [done|].
  exists (taken ++ taken2), (ds ++ ds2). rewrite Q, Q2, P2, P, !app_assoc, fmap_app.
  split_and!; [done|done|by apply sublist_app].
Qed.

(** A queued dispatch is not tied to the preparation it came from: if a transaction is ready
    for dispatch when its turn comes, every dispatch queued for it in the batch is persisted, those
    of preparations abandoned since as well as the current one. *)
Theorem requeued_dispatches_all_persisted fuel id dispatches w :
  heldLocks w = ∅ -> getCoordinatorTransactionState w id = Some State_Ready_For_Dispatch ->
  w_persisted (dispatchBatch (S fuel) ((fun d => (id, d)) <$> dispatches) w) = w_persisted w ++ dispatches.
Proof.
  intros Hl Hs. unfold dispatchBatch.
  assert (Hx : forall ds acc w, heldLocks w = ∅ ->
    getCoordinatorTransactionState w id = Some State_Ready_For_Dispatch \/ getCoordinatorTransactionState w id = Some State_Dispatched ->
    exists w', foldl (commitDispatch (S fuel)) (w, acc) ((fun d => (id, d)) <$> ds) = (w', acc ++ ds) /\ w_persisted w' = w_persisted w).
  { clear. induction ds as [|d ds IH]; intros acc w Hl Hs.
    { exists w. by rewrite app_nil_r. }
    rewrite fmap_cons. cbn [foldl]. unfold commitDispatch at 2.
    set (public := nonEmpty (td_PublicDispatches (pd_Dispatch d))).
    destruct (handle_dispatched fuel id public w Hl) as (_ & P & _ & L & St). rewrite Hl in L.
    set (w1 := (coordinatorTransactionHandleEvent (S fuel) id (DispatchedEvent public) w).1) in *.
    assert (Hd : getCoordinatorTransactionState w1 id = Some State_Dispatched).
    { rewrite (St id). case_bool_decide as Hb; [done|]. destruct Hs as [Hs|Hs]; [by destruct Hb|done]. }
    rewrite bool_decide_true by done. destruct (IH (acc ++ [d]) w1 L (or_intror Hd)) as (w' & E & P').
    exists w'. rewrite E, <-app_assoc. split; [done|congruence]. }
  destruct (Hx dispatches [] w Hl (or_introl Hs)) as (w' & E & P). cbn [app] in E. rewrite E. cbn. by rewrite P.
Qed.
End DispatchLoop.

(** *** A transaction reset between two preparations *)

Definition sampleDispatch (n : string) : PendingDispatch := MkPendingDispatch 2 (MkTransactionDispatch [n] [] []) [].

(** Chained to a dispatched transaction, and being prepared. *)
Definition preparingWorld : World :=
  sampleWorld [sampleTx 1 State_Dispatched;
               (withAssembly [] (sampleTx 2 State_Preparing)) <| inFlightPrepareID := 500%N |>] sampleChain.

(** The first dispatch is queued; the dependency resets before the loop takes it; the transaction
    is assembled, approved and prepared again. *)
Definition preparedTwice : World :=
  deliver 3 preparingWorld
    [(2%N, PrepareSucceededEvent 500 (sampleDispatch "first"%string)); (2%N, DependencyResetEvent 1);
     (2%N, DependencySelectedForAssemblyEvent 1); (2%N, SelectedEvent);
     (2%N, AssembleSuccessEvent (pa_AssembleResponse (sampleAssembly [])) 1001);
     (2%N, DispatchRequestApprovedEvent 1004); (2%N, PrepareSucceededEvent 1006 (sampleDispatch "second"%string))].

Lemma requeued_dispatches_all_persisted_witness :
  c_dispatchQueue (w_c preparedTwice) = [(2%N, sampleDispatch "first"%string); (2%N, sampleDispatch "second"%string)] /\
  w_persisted (dispatchBatch 3 (c_dispatchQueue (w_c preparedTwice)) preparedTwice)
  = w_persisted preparedTwice ++ [sampleDispatch "first"%string; sampleDispatch "second"%string].
Proof.
  split; [vm_compute; reflexivity|].
  refine (requeued_dispatches_all_persisted 2 2 [sampleDispatch "first"%string; sampleDispatch "second"%string] preparedTwice _ _);
    vm_compute; reflexivity.
Defined.

Lemma dispatchLoop_keeps_order_and_limit_witness :
  let w' := dispatchLoop 1 10 5 3 preparedTwice in
  w_persisted w' = [sampleDispatch "first"%string] /\
  (Z.of_nat (size (c_inFlightTxns (w_c w'))) <= 1)%Z /\
  exists taken ds, c_dispatchQueue (w_c preparedTwice) = taken ++ c_dispatchQueue (w_c w') /\
    w_persisted w' = w_persisted preparedTwice ++ ds /\ sublist ds (snd <$> taken).
Proof.
  cbv zeta. split; [vm_compute; reflexivity|].
  apply (dispatchLoop_keeps_order_and_limit 1 10 5 2 preparedTwice); vm_compute; [reflexivity|discriminate].
Defined.
