(* ===== verification/BlockHeight.v ===== *)
(** * Refreshing the block height (coordinator/coordinating.go, coordinator/selection.go)

    The coordinator samples the block height when it sends requests, and recomputes from it who may
    coordinate. *)

From S2P Require Import Prelude Selection DependencyTracker StateVisibility Grapher TxTypes CoordTypes World Sample.
Open Scope list_scope.

(** A refresh that enters a new epoch records the new effective height but leaves the priority
    list of the previous one: the list is recomputed before the effective height is updated, so it
    ranks the candidates for the epoch that has just ended. *)
Theorem refreshBlockHeight_priorities_lag w :
  c_coordinatorSelection (w_c w) = COORDINATOR_ENDORSER -> c_coordinatorSelectionBlockRange (w_c w) <> 0%Z ->
  exists w', refreshBlockHeight w = (w', Ok tt) /\
    ComputeEffectiveBlockHeight (u64 (w_liveBlockHeight w)) (c_coordinatorSelectionBlockRange (w_c w))
      = Ok (c_effectiveBlockHeight (w_c w')) /\
    c_coordinatorPriorityList (w_c w')
      = ComputeCoordinatorPriorityList (c_endorserCandidates (w_c w)) (c_effectiveBlockHeight (w_c w)) /\
    (c_effectiveBlockHeight (w_c w') <> c_effectiveBlockHeight (w_c w) ->
     c_internalQueue (w_c w') = c_internalQueue (w_c w) ++ [EpochBoundaryReachedEvent]).
Proof.
  intros Hs Hr. unfold refreshBlockHeight, ComputeEffectiveBlockHeight.
  destruct (Z.eqb_spec (c_coordinatorSelectionBlockRange (w_c w)) 0) as [|_]; [done|].
  set (new := u64_sub _ _). unfold gets, modify, onGrapher, liftR, mbind, M_bind, calculateCoordinatorPriorities.
  cbn -[ComputeCoordinatorPriorityList ForgetConfirmedLocks u64 u64_sub Z.modulo]. rewrite Hs.
  cbn -[ComputeCoordinatorPriorityList ForgetConfirmedLocks u64 u64_sub Z.modulo].
  destruct (Z.eqb_spec (c_coordinatorSelectionBlockRange (w_c w)) 0) as [|_]; [done|]. fold new.
  destruct (Z.eqb_spec new (c_effectiveBlockHeight (w_c w))) as [E|E]; (eexists; split; [reflexivity|]).
  all: cbn -[ComputeCoordinatorPriorityList ForgetConfirmedLocks u64 u64_sub Z.modulo]; rewrite Hs; split_and!; try done.
  by rewrite E.
Qed.

(** The chain has moved from the first epoch of fifty blocks into the second. *)
Definition epochWorld : World := (sampleWorld [] NewDependencyTracker) <| w_liveBlockHeight := 60%Z |>.

Lemma refreshBlockHeight_priorities_lag_witness :
  exists w', refreshBlockHeight epochWorld = (w', Ok tt) /\
    c_effectiveBlockHeight (w_c w') = 50%Z /\
    c_coordinatorPriorityList (w_c w') = ComputeCoordinatorPriorityList ["node1"; "node2"]%string 0 /\
    c_coordinatorPriorityList (w_c w') <> ComputeCoordinatorPriorityList ["node1"; "node2"]%string 50.
Proof.
  destruct (refreshBlockHeight_priorities_lag epochWorld) as (w' & Hrun & He & Hl & _); [reflexivity|discriminate|].
  exists w'. split; [exact Hrun|]. split; [assert (Hx : Ok 50%Z = Ok (c_effectiveBlockHeight (w_c w'))) by (rewrite <-He; vm_compute; reflexivity); by injection Hx|]. split; [exact Hl|].
  rewrite Hl. vm_compute. discriminate.
Defined.
