(* ===== verification/CoordWorld.v ===== *)
(** * The memory of a coordinator, around its transactions

    [Coord] holds the fields of [coordinator] (coordinator/coordinator.go) that only its own event
    loop touches, and inside it the memory [World] that its transactions reach.  What a transaction
    does is lifted unchanged ([onWorld]).

    Sources: coordinator/coordinator.go, coordinator/dispatch_loop.go, common/clock.go. *)

From S2P Require Import Prelude StateMachine Selection DependencyTracker StateVisibility Grapher StateView.
From S2P Require Import TxTypes CoordTypes World TxActions TxMachine DispatchLoop.
Open Scope list_scope.

(** ** Configuration *)

(** The durations and thresholds read from the sequencer's configuration; constant once built. *)
Record CoordConfig : Type := MkCoordConfig {
  conf_contractAddress : string;
  conf_blockHeightTolerance : Z;
  conf_closingGracePeriod : Z;
  conf_inactiveGracePeriod : Z;
  conf_baseLedgerRevertRetryThreshold : Z;
  conf_assembleErrorRetryThreshhold : Z;
  conf_signErrorRetryThreshhold : Z;
  conf_requestTimeout : Z;
  conf_stateTimeout : Z;
  conf_endorseMaxAttempts : nat; (* of endorseErrorRetry; 0 is no limit *)
  conf_maxInflightTransactions : Z;
  conf_maxDispatchAhead : Z;
  conf_dispatchMaxBatchSize : Z
}.

(** ** State *)

(** The pending [CoordinatorHandoverRequest]; its send function reads the node to send to when it
    runs, so the request holds none. *)
Record HandoverRequest : Type := MkHandoverRequest {
  hr_requestTime : option Z;
  hr_timeout : Z
}.

Record CoordTimer : Type := MkCoordTimer { ctm_event : CoordinatorEvent; ctm_due : Z }.

(** Pooled transactions are pointers to transactions the coordinator knows, so ids.  The dispatch
    loop is running iff [dispatchLoopCancel] is set.  [co_endorseJobs] are the endorsement goroutines
    that have not finished.  [co_ctx]: [Start] has set the context. *)
Record Coord : Type := MkCoord {
  co_w : World;
  co_machine : Machine CoordinatorState CoordinatorEventType;
  co_locked : bool;
  co_ctx : bool;
  co_currentActiveCoordinator : string;
  co_heartbeatIntervalsSinceStateChange : Z;
  co_heartbeatIntervalsSinceLastReceive : Z;
  co_pooledTransactions : list uuid;
  co_assemblyInFlight : bool;
  co_assemblingTxID : uuid;
  co_originatorActivity : gmap string Z;
  co_pendingHandoverRequest : option HandoverRequest;
  co_inFlightEndorsements : gset string;
  co_endorseJobs : list EndorsementRequestReceived;
  co_cancelRequestTimeout : option uuid; (* the timer it cancels *)
  co_cancelStateTimeout : option uuid;
  co_timers : gmap N CoordTimer;
  co_dispatchLoop : bool;
  co_events : list CoordinatorEvent; (* the event loop's other queue *)
  co_outbox : list CoordinatorMessage;
  co_conf : CoordConfig
}.
#[export] Instance Coord_rebuild : Rebuild Coord := fun c =>
  MkCoord (co_w c) (co_machine c) (co_locked c) (co_ctx c) (co_currentActiveCoordinator c)
    (co_heartbeatIntervalsSinceStateChange c) (co_heartbeatIntervalsSinceLastReceive c) (co_pooledTransactions c)
    (co_assemblyInFlight c) (co_assemblingTxID c) (co_originatorActivity c) (co_pendingHandoverRequest c)
    (co_inFlightEndorsements c) (co_endorseJobs c) (co_cancelRequestTimeout c) (co_cancelStateTimeout c) (co_timers c)
    (co_dispatchLoop c) (co_events c) (co_outbox c) (co_conf c).

(** ** Components outside the model *)

Inductive EndorseResult : Type :=
| EndorseTransactionResponse_SIGN
| EndorseTransactionResponse_REVERT
| EndorseTransactionResponse_ENDORSER_SUBMIT
| EndorseTransactionResponse_other (value : Z).

(** [components.EndorsementResult] *)
Record EndorsementResult : Type := MkEndorsementResult {
  enr_Endorser : option ResolvedVerifier;
  enr_Result : EndorseResult;
  enr_Payload : string;
  enr_RevertReason : option string
}.

(** The transport refuses a message it cannot marshal.  Go ranges over a map in any order: the order
    is the environment's, and all that is known of it is that it is a permutation.  What engine
    integration says of pending private state data does not change while one event is handled.  The
    answers to an endorsement may differ from attempt to attempt. *)
Class CoordEnv : Type := {
  cenv_transport : list CoordinatorMessage -> CoordinatorMessage -> option error;
  cenv_rangeTransactions : list N -> list N;
  cenv_rangeTransactions_perm : forall l, cenv_rangeTransactions l ≡ₚ l;
  cenv_rangeNodes : list string -> list string;
  cenv_rangeNodes_perm : forall l, cenv_rangeNodes l ≡ₚ l;
  cenv_CheckPendingPrivateStateData : Z -> res bool;
  cenv_FixedSigningIdentity : string;
  cenv_SubmitterSelection : SubmitterSelection;
  cenv_ResolveKey : nat -> string -> string -> string -> res string;
  cenv_EndorseTransaction : nat -> PrivateTransactionEndorseRequest -> res EndorsementResult;
  cenv_Sign : nat -> string -> string -> string -> res string
}.

(** ** Elementary steps *)

(** A step of the transactions' memory. *)
Definition onWorld {A} (m : M World A) : M Coord A := fun c =>
  let '(w, r) := m (co_w c) in (c <| co_w := w |>, r).

Definition onFields (f : coordinatorFields -> coordinatorFields) : M Coord unit :=
  onWorld (modify (fun w => w <| w_c ::= f |>)).

(** An event handed to a transaction.  One unit of fuel more than there are transactions is enough
    ([handleEvent_nesting_bounded]). *)
Definition txHandleEvent `{Env} (id : uuid) (event : Event) : M World unit := fun w =>
  coordinatorTransactionHandleEvent (S (size (transactionsByID w))) id event w.

(** [c.transportWriter.Send...] *)
Definition sendC `{CoordEnv} (msg : CoordinatorMessage) : M Coord unit := fun c =>
  match cenv_transport (co_outbox c) msg with
  | None => (c <| co_outbox ::= fun l => l ++ [msg] |>, Ok tt)
  | Some e => (c, Err e)
  end.

(** [c.clock.ScheduleTimer], queueing [event] when it fires. *)
Definition scheduleC (duration : Z) (event : CoordinatorEvent) : M Coord uuid :=
  timer ← onWorld newUUID;
  modify (fun c => c <| co_timers ::= <[timer := MkCoordTimer event (w_now (co_w c) + duration)%Z]> |>) ≫= fun _ =>
  mret timer.

(** A due timer fires: [c.QueueEvent], on the queue that other nodes' messages go to. *)
Definition fireCoordTimer (timer : uuid) (c : Coord) : Coord :=
  match co_timers c !! timer with
  | Some t =>
      if (ctm_due t <=? w_now (co_w c))%Z then
        c <| co_timers ::= delete timer |> <| co_events ::= fun q => q ++ [ctm_event t] |>
      else c
  | None => c
  end.

(** [queueEventInternal] *)
Definition queueEventInternal (e : CoordinatorEvent) : M Coord unit := onWorld (queueEventForCoordinator e).

(** The transactions, in the order the map is ranged over. *)
Definition rangeTransactions `{CoordEnv} (w : World) : list uuid :=
  cenv_rangeTransactions (fst <$> map_to_list (transactionsByID w)).

(** [getTransactionsInStates] and [getTransactionsNotInStates] (coordinator.go), by id *)
Definition txInStates (w : World) (states : list State) (id : uuid) : bool :=
  match getCoordinatorTransactionState w id with
  | Some s => bool_decide (s ∈ states)
  | None => false
  end.

Definition getTransactionsInStates `{CoordEnv} (w : World) (states : list State) : list uuid :=
  List.filter (txInStates w states) (rangeTransactions w).

Definition getTransactionsNotInStates `{CoordEnv} (w : World) (states : list State) : list uuid :=
  List.filter (fun id => negb (txInStates w states id)) (rangeTransactions w).

(** [propagateEventToTransaction] (coordinator.go) *)
Definition propagateEventToTransaction `{Env} (id : uuid) (event : Event) : M Coord unit :=
  onWorld (fun w => match transactionsByID w !! id with
                    | Some _ => txHandleEvent id event w
                    | None => (w, Ok tt)
                    end).

(** [propagateEventToAllTransactions] (coordinator.go) *)
Definition propagateEventToAllTransactions `{Env, CoordEnv} (event : Event) : M Coord unit :=
  onWorld (l ← gets rangeTransactions; for_each l (fun id => txHandleEvent id event)).

(** [startDispatchLoop] and [stopDispatchLoop] (dispatch_loop.go).  Stopping waits for the loop to
    end, so afterwards it takes no further step. *)
Definition startDispatchLoop : M Coord unit := modify (fun c =>
  if negb (co_ctx c) || co_dispatchLoop c then c else c <| co_dispatchLoop := true |>).

Definition stopDispatchLoop : M Coord unit := modify (fun c => c <| co_dispatchLoop := false |>).

(** One turn of the dispatch loop, while it runs. *)
Definition coordDispatchStep `{Env} (fuel : nat) (c : Coord) : option Coord :=
  if co_dispatchLoop c then
    w ← dispatchLoopStep (conf_maxDispatchAhead (co_conf c)) (conf_dispatchMaxBatchSize (co_conf c)) fuel (co_w c);
    Some (c <| co_w := w |>)
  else None.
