(* ===== verification/CoordActions.v ===== *)
(** * What the coordinator's machine does

    One definition per action, guard and validator of the coordinator's state table, with the
    functions they call.  A type assertion on an event of another type panics, as does reading the
    snapshot of a heartbeat that carries none.

    Sources: coordinator/coordinating.go, inactive.go, snapshot.go, endorsing.go,
    state_transition_guards.go, selection.go, dispatch_loop.go. *)

From S2P Require Import Prelude StateMachine Identity Selection DependencyTracker StateVisibility Grapher StateView.
From S2P Require Import TxTypes CoordTypes World TxActions TxMachine DispatchLoop CoordWorld.
From stdpp Require Import pretty.
Open Scope list_scope.

Abbreviation CAction := (Action CoordinatorEvent Coord) (only parsing).
Abbreviation CGuard := (Guard Coord) (only parsing).
Abbreviation CValidator := (Validator CoordinatorEvent Coord) (only parsing).

Section Actions.
Context `{Env, CoordEnv}.

(** ** Timers and the handover request: coordinating.go *)

Definition cancelCoordTimer (timer : option uuid) : M Coord unit :=
  modify (fun c => match timer with Some t => c <| co_timers ::= delete t |> | None => c end).

Definition scheduleRequestTimeout : M Coord unit :=
  cancel ← gets co_cancelRequestTimeout;
  cancelCoordTimer cancel ≫= fun _ =>
  conf ← gets co_conf;
  timer ← scheduleC (conf_requestTimeout conf) HandoverRequestTimeoutIntervalEvent;
  modify (fun c => c <| co_cancelRequestTimeout := Some timer |>).

Definition scheduleStateTimeout : M Coord unit :=
  cancel ← gets co_cancelStateTimeout;
  cancelCoordTimer cancel ≫= fun _ =>
  conf ← gets co_conf;
  timer ← scheduleC (conf_stateTimeout conf) ElectionTimeoutIntervalEvent;
  modify (fun c => c <| co_cancelStateTimeout := Some timer |>).

Definition clearTimeoutSchedules : M Coord unit :=
  request ← gets co_cancelRequestTimeout;
  cancelCoordTimer request ≫= fun _ =>
  modify (fun c => c <| co_cancelRequestTimeout := None |>) ≫= fun _ =>
  state ← gets co_cancelStateTimeout;
  cancelCoordTimer state ≫= fun _ =>
  modify (fun c => c <| co_cancelStateTimeout := None |>) ≫= fun _ =>
  modify (fun c => c <| co_pendingHandoverRequest := None |>).

(** [Nudge] of the pending request: sent when it is due, to the node that is believed active now. *)
Definition nudgePending (r : HandoverRequest) : M Coord unit :=
  now ← gets (fun c => w_now (co_w c));
  if match hr_requestTime r with None => true | Some t => HasExpired now t (hr_timeout r) end then
    c ← gets (fun c => c);
    sendC (SendHandoverRequest (co_currentActiveCoordinator c) (conf_contractAddress (co_conf c))) ≫= fun _ =>
    modify (fun c => c <| co_pendingHandoverRequest := Some (MkHandoverRequest (Some now) (hr_timeout r)) |>)
  else mret tt.

Definition nudgeHandoverRequest : M Coord unit :=
  pending ← gets co_pendingHandoverRequest;
  match pending with
  | None => throw (MsgSequencerInternalError "nudgeHandoverRequest called with no pending request")
  | Some r => nudgePending r
  end.

Definition sendHandoverRequest : M Coord unit :=
  pending ← gets co_pendingHandoverRequest;
  match pending with
  | Some r => nudgePending r
  | None =>
      conf ← gets co_conf;
      let r := MkHandoverRequest None (conf_requestTimeout conf) in
      onWorld newUUID ≫= fun _ =>
      modify (fun c => c <| co_pendingHandoverRequest := Some r |>) ≫= fun _ =>
      scheduleRequestTimeout ≫= fun _ =>
      nudgePending r
  end.

Definition action_SendHandoverRequest : CAction := fun _ => sendHandoverRequest.
Definition action_NudgeHandoverRequest : CAction := fun _ => nudgeHandoverRequest.
Definition action_ScheduleStateTimeout : CAction := fun _ => scheduleStateTimeout.
Definition action_ClearTimeoutSchedules : CAction := fun _ => clearTimeoutSchedules.

(** ** Cleaning up transactions *)

(** The first element that has the id goes; the slice is compacted. *)
Fixpoint removeFirst (id : uuid) (l : list uuid) : list uuid :=
  match l with
  | [] => []
  | x :: l => if N.eqb x id then l else x :: removeFirst id l
  end.

Definition removeTransactionFromPool (id : uuid) : M Coord unit :=
  modify (fun c => c <| co_pooledTransactions ::= removeFirst id |>).

Definition cleanUpTransaction (id : uuid) : M Coord unit :=
  known ← gets (fun c => transactionsByID (co_w c) !! id);
  match known with
  | None => mret tt
  | Some _ =>
      onWorld (modify (fun w => w <| transactionsByID ::= delete id |>)) ≫= fun _ =>
      removeTransactionFromPool id ≫= fun _ =>
      onWorld (onGrapher (fun m => ForgetTransactionAndLocks m id)) ≫= fun _ =>
      onWorld (onDeps (fun d => trackerDelete d id))
  end.

Definition clearAssembly : M Coord unit :=
  modify (fun c => c <| co_assemblyInFlight := false |> <| co_assemblingTxID := uuid_Nil |>).

(** The dispatch loop is stopped by then, so draining the queue empties it. *)
Definition action_CleanUpTransactionsNotYetDispatched : CAction := fun _ =>
  txns ← gets (fun c => getTransactionsNotInStates (co_w c) [State_Dispatched; State_Confirmed; State_Reverted]);
  for_each txns cleanUpTransaction ≫= fun _ =>
  clearAssembly ≫= fun _ =>
  onFields (fun f => f <| c_dispatchQueue := [] |>).

Definition action_CleanUpTransaction : CAction := fun event =>
  match event with
  | TransactionStateTransitionEvent tx _ _ => cleanUpTransaction tx
  | _ => crashM Panic
  end.

Definition action_ClearAssemblyInFlight : CAction := fun _ => clearAssembly.

Definition action_cancelCurrentlyAssemblingTransaction : CAction := fun _ =>
  c ← gets (fun c => c);
  if co_assemblyInFlight c then
    match transactionsByID (co_w c) !! co_assemblingTxID c with
    | None => mret tt
    | Some _ => onWorld (txHandleEvent (co_assemblingTxID c) AssembleCancelledEvent)
    end
  else mret tt.

(** ** Handover *)

Definition action_ProcessConfirmedTransactionsFromSnapshot : CAction := fun event =>
  match event with
  | HeartbeatReceivedEvent _ None => mret tt
  | HeartbeatReceivedEvent _ (Some s) => for_each (sd_ID <$> cs_ConfirmedTransactions s) cleanUpTransaction
  | _ => crashM Panic
  end.

(** [dropUnlabelledHandoverStates] *)
Definition dropUnlabelledHandoverStates (s : StateSnapshot) : StateSnapshot :=
  MkStateSnapshot (List.filter (fun st => match sn_Labels st with Some _ => true | None => false end) (ss_States s))
    (ss_Locks s).

Definition action_ImportStatesAndLocks : CAction := fun event =>
  match event with
  | HeartbeatReceivedEvent _ None => mret tt
  | HeartbeatReceivedEvent _ (Some s) =>
      match cs_StateSnapshot s with
      | Some ss =>
          if nonEmpty (ss_Locks ss) || nonEmpty (ss_States ss) then
            onWorld (onGrapher (fun m => ImportStatesAndLocks m (dropUnlabelledHandoverStates ss)))
          else mret tt
      | None => mret tt
      end
  | _ => crashM Panic
  end.

(** ** Delegation *)

Definition recordOriginatorActivity (node : string) : M Coord unit := modify (fun c =>
  match c_coordinatorSelection (w_c (co_w c)) with
  | COORDINATOR_ENDORSER => c
  | _ => c <| co_originatorActivity ::= <[node := 0%Z]> |>
  end).

Definition guard_IsCoordinatorEndorserSelectionMode : CGuard := fun c =>
  Some match c_coordinatorSelection (w_c (co_w c)) with COORDINATOR_ENDORSER => true | _ => false end.

(** [newCoordinatorTransaction] passes the coordinator's configuration on. *)
Definition transactionConfig (conf : CoordConfig) : TransactionConfig :=
  MkTransactionConfig cenv_FixedSigningIdentity cenv_SubmitterSelection (conf_blockHeightTolerance conf)
    (conf_requestTimeout conf) (conf_stateTimeout conf) (conf_closingGracePeriod conf)
    (conf_baseLedgerRevertRetryThreshold conf) (conf_assembleErrorRetryThreshhold conf) (conf_signErrorRetryThreshhold conf).

(** The local variables of [addToDelegatedTransactions]. *)
Record Delegating : Type := MkDelegating {
  dl_previousTransaction : option uuid;
  dl_AcknowledgementErrors : list DelegationAcknowledgementError;
  dl_rejectedMaxInFlight : nat;
  dl_accepted : nat;
  dl_inProgress : nat;
  dl_error : option error
}.
#[local] Instance Delegating_rebuild : Rebuild Delegating := fun d =>
  MkDelegating (dl_previousTransaction d) (dl_AcknowledgementErrors d) (dl_rejectedMaxInFlight d) (dl_accepted d)
    (dl_inProgress d) (dl_error d).

(** Ordering within the originator: the new transaction waits for the one before it in the request
    while that one has not been assembled. *)
Definition addPreassemblyDependency (previous : option uuid) (id : uuid) (w : World) : World :=
  match previous with
  | None => w
  | Some prev =>
      match getCoordinatorTransactionState w prev with
      | Some (State_Initial | State_PreAssembly_Blocked | State_Pooled) =>
          w <| w_deps ::= fun d => d <| preAssembly ::= fun ch => AddPrerequisite ch id prev |> |>
      | _ => w
      end
  end.

(** A transaction enters the coordinator: it is created, recorded, and handed [DelegatedEvent]. *)
Definition admitTransaction (cfg : TransactionConfig) (originator originatorNode : string) (previous : option uuid)
    (p : PrivateTransaction) : M World unit := fun w =>
  let id := pt_ID p in
  let w := addPreassemblyDependency previous id w in
  let '(t, w) := newTransaction cfg originator originatorNode (c_nodeName (w_c w)) p w in
  txHandleEvent id DelegatedEvent (w <| transactionsByID ::= <[id := t]> |>).

(** One turn of the loop. *)
Definition delegateOne (conf : CoordConfig) (originator originatorNode : string) (d : Delegating)
    (p : PrivateTransaction) : M World Delegating := fun w =>
  let id := pt_ID p in
  let ack e := dl_AcknowledgementErrors d ++ [e] in
  match dl_error d with
  | Some _ => (w, Ok (d <| dl_AcknowledgementErrors := ack DelegationAcknowledgementError_PreviousTransactionError |>))
  | None =>
      match transactionsByID w !! id with
      | Some _ =>
          (w, Ok (d <| dl_inProgress ::= S |> <| dl_previousTransaction := Some id |>
                    <| dl_AcknowledgementErrors := ack DelegationAcknowledgementError_None |>))
      | None =>
          if (conf_maxInflightTransactions conf <=? Z.of_nat (size (transactionsByID w)))%Z then
            (w, Ok (d <| dl_rejectedMaxInFlight ::= S |>
                      <| dl_AcknowledgementErrors := ack DelegationAcknowledgementError_MaxInflightTransactions |>))
          else
            match admitTransaction (transactionConfig conf) originator originatorNode (dl_previousTransaction d) p w with
            | (w, Ok _) =>
                (w, Ok (d <| dl_accepted ::= S |> <| dl_previousTransaction := Some id |>
                          <| dl_AcknowledgementErrors := ack DelegationAcknowledgementError_None |>))
            | (w, Err e) =>
                (w <| transactionsByID ::= delete id |>,
                 Ok (d <| dl_error := Some e |>
                       <| dl_AcknowledgementErrors := ack DelegationAcknowledgementError_CoordinatorError |>))
            | (w, Crash x) => (w, Crash x)
            end
      end
  end.

Fixpoint delegateAll (conf : CoordConfig) (originator originatorNode : string) (d : Delegating)
    (transactions : list PrivateTransaction) : M World Delegating :=
  match transactions with
  | [] => mret d
  | p :: rest => d ← delegateOne conf originator originatorNode d p; delegateAll conf originator originatorNode d rest
  end.

Definition addToDelegatedTransactions (originator : string) (transactions : list PrivateTransaction)
    (delegationID : string) : M Coord unit :=
  conf ← gets co_conf;
  validated ← liftR (fun _ => Validate originator EmptyString false);
  let originatorNode := snd validated in
  d ← onWorld (delegateAll conf originator originatorNode (MkDelegating None [] 0 0 0 None) transactions);
  sendC (SendDelegationResponse originatorNode
    (MkDelegationResponse delegationID (pt_ID <$> transactions) originatorNode (conf_contractAddress conf)
       (dl_AcknowledgementErrors d))) ≫= fun _ =>
  if (0 <? dl_rejectedMaxInFlight d)%nat then
    throw (MsgSequencerMaxInflightTransactions (conf_maxInflightTransactions conf) originatorNode (length transactions)
             (dl_accepted d) (dl_inProgress d) (dl_rejectedMaxInFlight d))
  else match dl_error d with Some e => throw e | None => mret tt end.

Definition action_ProcessDelegatedTransactions : CAction := fun event =>
  match event with
  | TransactionsDelegatedEvent e =>
      recordOriginatorActivity (tde_FromNode e) ≫= fun _ =>
      addToDelegatedTransactions (tde_Originator e) (tde_Transactions e) (tde_DelegationID e)
  | _ => crashM Panic
  end.

(** ** Priorities and block height: coordinating.go, selection.go *)

Definition action_RefreshBlockHeight : CAction := fun _ => onWorld refreshBlockHeight.
Definition action_CalculateCoordinatorPriorities : CAction := fun _ => onFields calculateCoordinatorPriorities.

(** ** Assembly: one transaction at a time, from the pool *)

Definition action_NewSigningIdentity : CAction := fun _ =>
  id ← onWorld newUUID;
  conf ← gets co_conf;
  onFields (fun f => f
    <| c_signingIdentity := ("domains." ++ conf_contractAddress conf ++ ".submit." ++ pretty id)%string |>
    <| c_signingIdentityUsed := false |>).

Definition popNextPooledTransaction : M Coord (option uuid) := fun c =>
  match co_pooledTransactions c with
  | [] => (c, Ok None)
  | id :: rest => (c <| co_pooledTransactions := rest |>, Ok (Some id))
  end.

Definition selectNextTransactionToAssemble : M Coord unit :=
  txn ← popNextPooledTransaction;
  match txn with
  | None => mret tt
  | Some id =>
      onWorld (txHandleEvent id SelectedEvent) ≫= fun _ =>
      modify (fun c => c <| co_assemblyInFlight := true |> <| co_assemblingTxID := id |>)
  end.

Definition action_SelectTransaction : CAction := fun _ => selectNextTransactionToAssemble.

Definition addTransactionToBackOfPool (id : uuid) : M Coord unit := modify (fun c =>
  if bool_decide (id ∈ co_pooledTransactions c) then c else c <| co_pooledTransactions ::= fun l => l ++ [id] |>).

Definition action_PoolTransaction : CAction := fun event =>
  match event with
  | TransactionStateTransitionEvent tx _ _ =>
      known ← gets (fun c => transactionsByID (co_w c) !! tx);
      match known with Some _ => addTransactionToBackOfPool tx | None => mret tt end
  | _ => crashM Panic
  end.

Definition validator_TransactionStateTransitionFrom (states : list State) : CValidator := fun event _ =>
  match event with
  | TransactionStateTransitionEvent _ from _ => Ok (bool_decide (from ∈ states))
  | _ => Crash Panic
  end.

Definition validator_TransactionStateTransitionTo (states : list State) : CValidator := fun event _ =>
  match event with
  | TransactionStateTransitionEvent _ _ to => Ok (bool_decide (to ∈ states))
  | _ => Crash Panic
  end.

(** ** Heartbeats received: inactive.go, coordinating.go *)

Definition validator_HeartBeatState (states : list CoordinatorState) : CValidator := fun event _ =>
  match event with
  | HeartbeatReceivedEvent _ (Some s) => Ok (bool_decide (cs_CoordinatorState s ∈ states))
  | _ => Crash Panic
  end.

Definition isHigherPriorityThanSelf (c : Coord) (node : string) : bool :=
  IsHigherPriority (c_coordinatorPriorityList (w_c (co_w c))) node (c_nodeName (w_c (co_w c))).

Definition validator_IsHeartbeatFromHigherPriorityCoordinator : CValidator := fun event c =>
  match event with
  | HeartbeatReceivedEvent from _ => Ok (isHigherPriorityThanSelf c from)
  | _ => Crash Panic
  end.

(** The states in which a node says that it coordinates or is about to. *)
Definition liveState (s : CoordinatorState) : bool :=
  match s with
  | CoordinatorState_Elect | CoordinatorState_Prepared | CoordinatorState_Active | CoordinatorState_Active_Flush => true
  | _ => false
  end.

Definition validator_IsHeartbeatSenderLive : CValidator := fun event _ =>
  match event with
  | HeartbeatReceivedEvent _ (Some s) => Ok (liveState (cs_CoordinatorState s))
  | _ => Crash Panic
  end.

Definition validator_IsHandoverRequestFromHigherPriorityCoordinator : CValidator := fun event c =>
  match event with
  | HandoverRequestEvent from => Ok (isHigherPriorityThanSelf c from)
  | _ => Crash Panic
  end.

Definition validator_IsHeartbeatFromCurrentActiveCoordinator : CValidator := fun event c =>
  match event with
  | HeartbeatReceivedEvent from _ => Ok (String.eqb (co_currentActiveCoordinator c) from)
  | _ => Crash Panic
  end.

Definition validator_IsDelegationBlockHeightToleranceExceeded : CValidator := fun event c =>
  match event with
  | TransactionsDelegatedEvent e =>
      Ok (conf_blockHeightTolerance (co_conf c)
          <? heightDistance (u64 (c_currentBlockHeight (w_c (co_w c)))) (tde_OriginatorsBlockHeight e))%Z
  | _ => Crash Panic
  end.

Definition action_RejectDelegationRequestBlockHeight : CAction := fun event =>
  match event with
  | TransactionsDelegatedEvent e =>
      recordOriginatorActivity (tde_FromNode e) ≫= fun _ =>
      c ← gets (fun c => c);
      sendC (SendDelegationRejection (tde_FromNode e)
        (MkDelegationRejection (tde_DelegationID e) (tde_FromNode e) (conf_contractAddress (co_conf c)) EmptyString
           RejectionReason_BLOCK_HEIGHT_TOLERANCE (i64 (tde_OriginatorsBlockHeight e))
           (c_currentBlockHeight (w_c (co_w c))) (i64 (conf_blockHeightTolerance (co_conf c)))))
  | _ => crashM Panic
  end.

Definition action_RejectDelegationRequest : CAction := fun event =>
  match event with
  | TransactionsDelegatedEvent e =>
      recordOriginatorActivity (tde_FromNode e) ≫= fun _ =>
      c ← gets (fun c => c);
      sendC (SendDelegationRejection (tde_FromNode e)
        (MkDelegationRejection (tde_DelegationID e) (tde_FromNode e) (conf_contractAddress (co_conf c))
           (co_currentActiveCoordinator c) RejectionReason_NOT_CURRENT_DELEGATE (i64 (tde_OriginatorsBlockHeight e))
           (c_currentBlockHeight (w_c (co_w c))) 0))
  | _ => crashM Panic
  end.

Definition setActiveCoordinator (node : string) : M Coord unit := modify (fun c => c <| co_currentActiveCoordinator := node |>).

Definition action_SetSelfAsActiveCoordinator : CAction := fun _ =>
  modify (fun c => c <| co_currentActiveCoordinator := c_nodeName (w_c (co_w c)) |>).

Definition action_UpdateActiveCoordinator : CAction := fun event =>
  match event with
  | HeartbeatReceivedEvent from _ => setActiveCoordinator from
  | HandoverRequestEvent from => setActiveCoordinator from
  | _ => mret tt
  end.

Definition action_ResetHeartbeatIntervalsSinceLastReceive : CAction := fun _ =>
  modify (fun c => c <| co_heartbeatIntervalsSinceLastReceive := 0%Z |>).

Definition action_IncrementHeartbeatIntervalCounts : CAction := fun _ =>
  modify (fun c => c <| co_heartbeatIntervalsSinceLastReceive ::= Z.succ |>
                     <| co_heartbeatIntervalsSinceStateChange ::= Z.succ |>).

Definition action_AddEndorsersFromSnapshot : CAction := fun event =>
  match event with
  | HeartbeatReceivedEvent _ (Some s) => onWorld (notifyEndorserCandidates (cs_EndorserCandidates s))
  | _ => crashM Panic
  end.

(** ** Heartbeats sent: snapshot.go *)

(** [getSnapshot]: each transaction is in at most one of the four lists. *)
Definition addToSnapshot (s : CoordinatorSnapshot) (t : coordinatorTransaction) : CoordinatorSnapshot :=
  match GetSnapshot t with
  | Some (SnapshotPooledTransaction id) => s <| cs_PooledTransactions ::= fun l => l ++ [id] |>
  | Some (SnapshotDispatchedTransaction id signer n h) =>
      s <| cs_DispatchedTransactions ::= fun l => l ++ [MkSnapshotDispatched id signer h n] |>
  | Some (SnapshotConfirmedTransaction id signer n h) =>
      s <| cs_ConfirmedTransactions ::= fun l => l ++ [MkSnapshotDispatched id signer h n] |>
  | Some (SnapshotRevertedTransaction id reason) =>
      s <| cs_RevertedTransactions ::= fun l => l ++ [MkSnapshotReverted id reason] |>
  | None => s
  end.

Definition getSnapshot (c : Coord) : CoordinatorSnapshot :=
  foldl (fun s id => match transactionsByID (co_w c) !! id with Some t => addToSnapshot s t | None => s end)
    (MkCoordinatorSnapshot [] [] [] [] (currentState (co_machine c)) (u64 (c_currentBlockHeight (w_c (co_w c))))
       (c_endorserCandidates (w_c (co_w c))) None)
    (rangeTransactions (co_w c)).

(** The nodes that heartbeats go to. *)
Definition heartbeatNodes (c : Coord) : list string :=
  match c_coordinatorSelection (w_c (co_w c)) with
  | COORDINATOR_ENDORSER => c_endorserCandidates (w_c (co_w c))
  | _ => cenv_rangeNodes (fst <$> map_to_list (co_originatorActivity c))
  end.

(** [err = sendErr] and the loop goes on: the last error is returned. *)
Fixpoint sendToAll (l : list (string * CoordinatorSnapshot)) (contract : string) (err : option error) : M Coord unit :=
  match l with
  | [] => match err with Some e => throw e | None => mret tt end
  | (node, snapshot) :: rest => fun c =>
      match sendC (SendHeartbeat node contract snapshot) c with
      | (c, Ok _) => sendToAll rest contract err c
      | (c, Err e) => sendToAll rest contract (Some e) c
      | (c, Crash x) => (c, Crash x)
      end
  end.

Definition sendHeartbeat (includeLocks : bool) : M Coord unit :=
  c ← gets (fun c => c);
  let base := getSnapshot c in
  let snapshotFor node :=
    if includeLocks then base <| cs_StateSnapshot := Some (ExportStatesAndLocks (grapherMemOf (co_w c)) node) |> else base in
  sendToAll ((fun node => (node, snapshotFor node)) <$> heartbeatNodes c) (conf_contractAddress (co_conf c)) None.

Definition action_SendHeartbeat : CAction := fun _ => sendHeartbeat false.
Definition action_SendHeartbeatWithLocks : CAction := fun _ => sendHeartbeat true.

(** [updateOriginatorActivity] *)
Definition hasTransactionFrom (w : World) (node : string) : bool :=
  existsb (fun kv => String.eqb (originatorNode kv.2) node) (map_to_list (transactionsByID w)).

Definition updateOriginatorActivity (w : World) (inactiveGracePeriod : Z) (activity : gmap string Z) : gmap string Z :=
  filter (fun kv => kv.2 <= inactiveGracePeriod)%Z
    (map_imap (fun node count => Some (if hasTransactionFrom w node then 0 else Z.succ count)%Z) activity).

Definition action_UpdateOriginatorActivity : CAction := fun _ => modify (fun c =>
  match c_coordinatorSelection (w_c (co_w c)) with
  | COORDINATOR_ENDORSER => c
  | _ => c <| co_originatorActivity ::= updateOriginatorActivity (co_w c) (conf_inactiveGracePeriod (co_conf c)) |>
  end).

Definition action_IncrementHeartbeatIntervalsSinceStateChange : CAction := fun _ =>
  modify (fun c => c <| co_heartbeatIntervalsSinceStateChange ::= Z.succ |>).

Definition action_PropagateHeartbeatIntervalToTransactions : CAction := fun _ =>
  propagateEventToAllTransactions HeartbeatIntervalEvent.

(** ** Guards: state_transition_guards.go *)

Definition hasUnconfirmedDispatched (w : World) : bool := nonEmpty (getTransactionsInStates w [State_Dispatched]).

Definition guard_HasUnconfirmedDispatchedTransactions : CGuard := fun c => Some (hasUnconfirmedDispatched (co_w c)).
Definition guard_HasTransactionsInflight : CGuard := fun c => Some (0 <? size (transactionsByID (co_w c)))%nat.
Definition guard_ClosingGracePeriodExpired : CGuard := fun c =>
  Some (conf_closingGracePeriod (co_conf c) <? co_heartbeatIntervalsSinceStateChange c)%Z.
Definition guard_HasTransactionAssembling : CGuard := fun c => Some (co_assemblyInFlight c).
Definition guard_InactiveGracePeriodExceeded : CGuard := fun c =>
  Some (conf_inactiveGracePeriod (co_conf c) <? co_heartbeatIntervalsSinceLastReceive c)%Z.
Definition guard_IsHigherPriorityThanCurrentActive : CGuard := fun c =>
  Some (IsHigherPriority (c_coordinatorPriorityList (w_c (co_w c))) (c_nodeName (w_c (co_w c))) (co_currentActiveCoordinator c)).
Definition guard_MustFlushToRotateSigningIdentity : CGuard := fun c =>
  Some (c_signingIdentityUsed (w_c (co_w c)) && hasUnconfirmedDispatched (co_w c)).

(** ** The dispatch loop: dispatch_loop.go *)

Definition action_StartDispatchLoop : CAction := fun _ => startDispatchLoop.
Definition action_StopDispatchLoop : CAction := fun _ => stopDispatchLoop.
Definition action_QueueRestartDispatchLoop : CAction := fun _ => queueEventInternal RestartDispatchLoopEvent.
End Actions.
