(* ===== verification/CoordEndorse.v ===== *)
(** * The coordinator's node as an endorser

    Requests for endorsement reach the coordinator's machine, which rejects them or starts a
    goroutine that asks the domain and sends one reply.

    Sources: coordinator/endorsing.go, sdk/go/pkg/retry/retry.go. *)

From S2P Require Import Prelude StateMachine Identity Selection DependencyTracker StateVisibility Grapher.
From S2P Require Import TxTypes CoordTypes World TxActions CoordWorld CoordActions.
Open Scope list_scope.

(** ** Retry.Do: sdk/go/pkg/retry/retry.go

    [do attempt] is the retryable flag and the outcome.  [maxAttempts = 0] is no limit.  The wait
    after the attempt [cancelledAt], or a later one, is cut short by the context.  The delays are
    left out. *)
Section Retry.
Context {A : Type}.

Fixpoint retryDo (fuel : nat) (maxAttempts : nat) (cancelledAt : option nat) (attempt : nat)
    (do : nat -> bool * res A) : res A :=
  match fuel with
  | O => Crash OutOfFuel
  | S fuel =>
      match do attempt with
      | (_, Ok a) => Ok a
      | (_, Crash x) => Crash x
      | (retry, Err e) =>
          if negb retry || ((0 <? maxAttempts)%nat && (maxAttempts <=? attempt)%nat) then Err e
          else if match cancelledAt with Some k => (k <=? attempt)%nat | None => false end then Err MsgContextCanceled
          else retryDo fuel maxAttempts cancelledAt (S attempt) do
      end
  end.
End Retry.

Section Endorse.
Context `{Env, CoordEnv}.

(** ** Validators *)

Definition validator_IsPrivateStateDataPendingForEndorsement : CValidator := fun event _ =>
  match event with
  | EndorsementRequestReceivedEvent e =>
      mapRes negb (cenv_CheckPendingPrivateStateData (i64 (err_CoordinatorBlockHeight e - err_BlockHeightTolerance e)))
  | _ => Crash Panic
  end.

Definition validator_IsEndorsementBlockHeightToleranceExceeded : CValidator := fun event c =>
  match event with
  | EndorsementRequestReceivedEvent e =>
      Ok (conf_blockHeightTolerance (co_conf c)
          <? heightDistance (u64 (c_currentBlockHeight (w_c (co_w c)))) (u64 (err_CoordinatorBlockHeight e)))%Z
  | _ => Crash Panic
  end.

Definition validator_IsEndorsementRequestFromHigherPriorityCoordinator : CValidator := fun event c =>
  match event with
  | EndorsementRequestReceivedEvent e => Ok (isHigherPriorityThanSelf c (err_FromNode e))
  | _ => Crash Panic
  end.

Definition validator_IsEndorsementRequestFromSelf : CValidator := fun event c =>
  match event with
  | EndorsementRequestReceivedEvent e => Ok (String.eqb (err_FromNode e) (c_nodeName (w_c (co_w c))))
  | _ => Crash Panic
  end.

(** ** Rejections *)

Definition endorsementRejection (c : Coord) (e : EndorsementRequestReceived) (reason : RejectionReason)
    (coordinatorHeight endorserHeight tolerance : Z) : CoordinatorMessage :=
  SendEndorsementRejection (err_FromNode e)
    (MkEndorsementRejection (err_TransactionId e) (err_IdempotencyKey e) (conf_contractAddress (co_conf c))
       (ar_Name (err_AttestationRequest e)) (err_Party e) reason coordinatorHeight endorserHeight tolerance).

Definition action_RejectEndorsementPrivateStateDataPending : CAction := fun event =>
  match event with
  | EndorsementRequestReceivedEvent e =>
      c ← gets (fun c => c);
      sendC (endorsementRejection c e RejectionReason_PRIVATE_STATE_DATA_PENDING (err_CoordinatorBlockHeight e)
               (c_currentBlockHeight (w_c (co_w c))) (err_BlockHeightTolerance e))
  | _ => crashM Panic
  end.

Definition action_RejectEndorsementBlockHeight : CAction := fun event =>
  match event with
  | EndorsementRequestReceivedEvent e =>
      c ← gets (fun c => c);
      sendC (endorsementRejection c e RejectionReason_BLOCK_HEIGHT_TOLERANCE (err_CoordinatorBlockHeight e)
               (c_currentBlockHeight (w_c (co_w c))) (i64 (conf_blockHeightTolerance (co_conf c))))
  | _ => crashM Panic
  end.

Definition action_RejectEndorsementEndorserIsActiveCoordinator : CAction := fun event =>
  match event with
  | EndorsementRequestReceivedEvent e =>
      c ← gets (fun c => c);
      sendC (endorsementRejection c e RejectionReason_ENDORSER_IS_ACTIVE_COORDINATOR 0 0 0)
  | _ => crashM Panic
  end.

(** ** Other actions *)

Definition action_UpdateActiveCoordinatorFromEndorsementRequest : CAction := fun event =>
  match event with
  | EndorsementRequestReceivedEvent e => setActiveCoordinator (err_FromNode e)
  | _ => crashM Panic
  end.

Definition action_AddEndorsementRequestSenderToEndorserCandidates : CAction := fun event =>
  match event with
  | EndorsementRequestReceivedEvent e => onWorld (notifyEndorserCandidates [err_FromNode e])
  | _ => crashM Panic
  end.

(** [beginEndorsement] *)
Definition beginEndorsement (key : string) : M Coord bool := fun c =>
  if bool_decide (key ∈ co_inFlightEndorsements c) then (c, Ok false)
  else (c <| co_inFlightEndorsements ::= union {[key]} |>, Ok true).

Definition endEndorsement (key : string) : M Coord unit :=
  modify (fun c => c <| co_inFlightEndorsements ::= fun s => s ∖ {[key]} |>).

(** The goroutine is started; [finishEndorsement] is its run. *)
Definition action_HandleEndorsementRequest : CAction := fun event =>
  match event with
  | EndorsementRequestReceivedEvent e =>
      if String.eqb (err_IdempotencyKey e) EmptyString then mret tt
      else
        began ← beginEndorsement (err_IdempotencyKey e);
        if began : bool then modify (fun c => c <| co_endorseJobs ::= fun l => l ++ [e] |>) else mret tt
  | _ => crashM Panic
  end.

(** ** The goroutine *)

(** [res] with the retryable flag that goes with its error. *)
Definition bindAttempt {A B} (retryable : bool) (r : res A) (f : A -> bool * res B) : bool * res B :=
  match r with
  | Ok a => f a
  | Err e => (retryable, Err e)
  | Crash x => (false, Crash x)
  end.

(** The reason that goes with a revert, and the part of the answer that a signature or the submitter
    constraint fills in. *)
Definition revertReasonOf (result : EndorsementResult) : option string :=
  match enr_Result result with
  | EndorseTransactionResponse_REVERT =>
      match enr_RevertReason result with
      | Some EmptyString => None (* an empty reason is not sent *)
      | Some reason => Some reason
      | None => Some "(no revert reason)"%string
      end
  | _ => None
  end.

Definition attested (nodeName : string) (attempt : nat) (ar : AttestationRequest) (result : EndorsementResult) :
    bool * res AttestationResult :=
  let att payload constraints := MkAttestationResult (ar_Name ar) (ar_AttestationType ar) (enr_Endorser result) payload constraints in
  match enr_Result result with
  | EndorseTransactionResponse_SIGN =>
      match enr_Endorser result with
      | None => (false, Crash Panic)
      | Some endorser =>
          bindAttempt false (Validate (rv_Lookup endorser) nodeName true) (fun '(lookup, signerNode) =>
            if String.eqb signerNode nodeName then
              bindAttempt true (cenv_ResolveKey attempt lookup (ar_Algorithm ar) (ar_VerifierType ar)) (fun key =>
              bindAttempt true (cenv_Sign attempt key (ar_PayloadType ar) (enr_Payload result)) (fun signature =>
                (false, Ok (att signature []))))
            else (false, Ok (att EmptyString [])))
      end
  | EndorseTransactionResponse_ENDORSER_SUBMIT => (false, Ok (att EmptyString [ENDORSER_MUST_SUBMIT]))
  | _ => (false, Ok (att EmptyString []))
  end.

(** [endorse]: one attempt. *)
Definition endorse (nodeName contract : string) (e : EndorsementRequestReceived) (attempt : nat) :
    bool * res EndorsementResponse :=
  let ar := err_AttestationRequest e in
  bindAttempt false (Identity (err_Party e)) (fun lookup =>
  bindAttempt true (cenv_ResolveKey attempt lookup (ar_Algorithm ar) (ar_VerifierType ar)) (fun verifier =>
  let request := (err_PrivateEndorsementRequest e)
    <| per_Endorser := Some (MkResolvedVerifier (err_Party e) (ar_Algorithm ar) (ar_VerifierType ar) verifier) |> in
  bindAttempt true (cenv_EndorseTransaction attempt request) (fun result =>
  match attested nodeName attempt ar result with
  | (retryable, Ok att) =>
      (false, Ok (MkEndorsementResponse att (err_TransactionId e) (err_IdempotencyKey e) (ar_Name ar) (err_Party e)
                    contract (revertReasonOf result)))
  | (retryable, Err x) => (retryable, Err x)
  | (retryable, Crash x) => (retryable, Crash x)
  end))).

(** [handleEndorsementRequest]; the error of a send is logged. *)
Definition handleEndorsementRequest (fuel : nat) (cancelledAt : option nat) (e : EndorsementRequestReceived) : M Coord unit :=
  c ← gets (fun c => c);
  let contract := conf_contractAddress (co_conf c) in
  match retryDo fuel (conf_endorseMaxAttempts (co_conf c)) cancelledAt 1 (endorse (c_nodeName (w_c (co_w c))) contract e) with
  | Ok response => log_error (sendC (SendEndorsementResponse (err_FromNode e) response))
  | Err x =>
      log_error (sendC (SendEndorsementError (err_FromNode e)
        (MkEndorsementError (err_TransactionId e) (err_IdempotencyKey e) contract x (err_Party e)
           (ar_Name (err_AttestationRequest e)))))
  | Crash x => crashM x
  end.

(** The goroutine of the [i]-th job runs to its end. *)
Definition finishEndorsement (fuel : nat) (cancelledAt : option nat) (i : nat) : M Coord unit :=
  jobs ← gets co_endorseJobs;
  match jobs !! i with
  | None => mret tt
  | Some e =>
      handleEndorsementRequest fuel cancelledAt e ≫= fun _ =>
      endEndorsement (err_IdempotencyKey e) ≫= fun _ =>
      modify (fun c => c <| co_endorseJobs := delete i jobs |>)
  end.
End Endorse.
