(* ===== verification/CoordMachine.v ===== *)
(** * The coordinator's state machine (coordinator/state_machine.go)

    The table of the nine states, one definition per state; the entity that places the machine in the
    coordinator's memory; and [coordinatorProcessEvent], what the event loop does with one event. *)

From S2P Require Import Prelude StateMachine Selection DependencyTracker StateVisibility Grapher StateView.
From S2P Require Import TxTypes CoordTypes World TxActions TxMachine CoordWorld CoordActions CoordEndorse.
Open Scope list_scope.

Abbreviation CStateDefinition := (StateDefinition CoordinatorState CoordinatorEventType CoordinatorEvent Coord).
Abbreviation CEventHandlers := (EventHandlers CoordinatorState CoordinatorEvent Coord).
Abbreviation CEventHandler := (EventHandler CoordinatorState CoordinatorEvent Coord).
Abbreviation CTransition := (Transition CoordinatorState CoordinatorEvent Coord).
Abbreviation CActionRule := (ActionRule CoordinatorEvent Coord).

Section Table.
Context `{Env, CoordEnv}.

(** ** Literals that several states repeat *)

(** The first handler of every [Event_HeartbeatReceived]. *)
Definition addEndorsers : CEventHandler :=
  On [ActIf guard_IsCoordinatorEndorserSelectionMode action_AddEndorsersFromSnapshot] [].

(** The first two handlers of every [Event_TransactionsDelegated]. *)
Definition delegationChecks : list CEventHandler :=
  [On [Act action_RefreshBlockHeight] [];
   OnValid validator_IsDelegationBlockHeightToleranceExceeded [Act action_RejectDelegationRequestBlockHeight] []].

Definition heightTolerated : CValidator := ValidatorNot validator_IsDelegationBlockHeightToleranceExceeded.

Definition acceptDelegations : option CEventHandlers :=
  All (delegationChecks ++ [OnValid heightTolerated [Act action_ProcessDelegatedTransactions] []]).

(** The first four handlers of every [Event_EndorsementRequestReceived], and what the others start from. *)
Definition endorsementChecks : list CEventHandler :=
  [On [Act action_RefreshBlockHeight] [];
   On [ActIf guard_IsCoordinatorEndorserSelectionMode action_AddEndorsementRequestSenderToEndorserCandidates] [];
   OnValid validator_IsEndorsementBlockHeightToleranceExceeded [Act action_RejectEndorsementBlockHeight] [];
   OnValid validator_IsPrivateStateDataPendingForEndorsement [Act action_RejectEndorsementPrivateStateDataPending] []].

Definition endorsable : list CValidator :=
  [ValidatorNot validator_IsEndorsementBlockHeightToleranceExceeded;
   ValidatorNot validator_IsPrivateStateDataPendingForEndorsement].

(** The last handlers of [Event_EndorsementRequestReceived] in a state that coordinates. *)
Definition rejectAsActive (conditions : list CValidator) : CEventHandler :=
  OnValid (ValidatorAnd (endorsable ++ conditions))
    [Act action_RejectEndorsementEndorserIsActiveCoordinator;
     ActIf guard_IsCoordinatorEndorserSelectionMode action_SendHeartbeat] [].

Definition endorseOwn : CEventHandler :=
  OnValid (ValidatorAnd (endorsable ++ [validator_IsEndorsementRequestFromSelf])) [Act action_HandleEndorsementRequest] [].

(** Where a node that gives up its election goes. *)
Definition backOff : list CTransition :=
  [ToIf CoordinatorState_Observing (GuardNot guard_HasTransactionsInflight) [];
   ToIf CoordinatorState_Closing_Flush
     (GuardAnd [guard_HasTransactionsInflight; guard_HasUnconfirmedDispatchedTransactions]) [];
   ToIf CoordinatorState_Closing
     (GuardAnd [guard_HasTransactionsInflight; GuardNot guard_HasUnconfirmedDispatchedTransactions]) []].

(** Where a node that coordinates steps down to. *)
Definition stepDown : list CTransition :=
  [ToIf CoordinatorState_Closing_Flush guard_HasUnconfirmedDispatchedTransactions [];
   ToIf CoordinatorState_Closing (GuardNot guard_HasUnconfirmedDispatchedTransactions) []].

Definition fromHigherPriorityLive : CValidator :=
  ValidatorAnd [validator_IsHeartbeatFromHigherPriorityCoordinator; validator_IsHeartbeatSenderLive].

(** What all states but Initial, Idle, Observing and Closing do with a transaction that is final,
    and the coordinating ones with the others. *)
Definition poolOrCleanUp : option CEventHandlers := First
  [OnValid (validator_TransactionStateTransitionTo [State_Pooled]) [Act action_PoolTransaction] [];
   OnValid (validator_TransactionStateTransitionTo [State_Final]) [Act action_CleanUpTransaction] []].

Definition coordinateTransition : list CEventHandler :=
  [OnValid (ValidatorAnd [validator_TransactionStateTransitionFrom [State_Dispatched];
                          validator_TransactionStateTransitionTo [State_Pooled; State_Reverted]])
     [ActIf guard_HasTransactionAssembling action_cancelCurrentlyAssemblingTransaction] [];
   OnValid (validator_TransactionStateTransitionTo [State_Pooled]) [Act action_PoolTransaction] [];
   OnValid (validator_TransactionStateTransitionFrom [State_Assembling]) [Act action_ClearAssemblyInFlight] [];
   OnValid (validator_TransactionStateTransitionTo [State_Final; State_Evicted]) [Act action_CleanUpTransaction] [];
   On [ActIf (GuardNot guard_HasTransactionAssembling) action_SelectTransaction] []].

(** ** stateDefinitionsMap *)

Definition coordInitial : CStateDefinition := MkStateDefinition [] [] (fun ty =>
  match ty with
  | CEvent_CoordinatorCreated => First
      [On [Act action_CalculateCoordinatorPriorities] [To CoordinatorState_Idle []]]
  | _ => None
  end).

Definition coordIdle : CStateDefinition := MkStateDefinition [] [] (fun ty =>
  match ty with
  | CEvent_HeartbeatReceived => All
      [addEndorsers;
       OnValid validator_IsHeartbeatSenderLive [Act action_UpdateActiveCoordinator] [To CoordinatorState_Observing []]]
  | CEvent_EndorsementRequestReceived => All (endorsementChecks ++
      [OnValid (ValidatorAnd endorsable)
         [Act action_UpdateActiveCoordinatorFromEndorsementRequest; Act action_HandleEndorsementRequest]
         [To CoordinatorState_Observing []]])
  | CEvent_TransactionsDelegated => All (delegationChecks ++
      [OnValid heightTolerated [Act action_ProcessDelegatedTransactions] [To CoordinatorState_Active []]])
  | _ => None
  end).

Definition coordObserving : CStateDefinition := MkStateDefinition [] [] (fun ty =>
  match ty with
  | CEvent_HeartbeatReceived => All
      [addEndorsers;
       OnValid validator_IsHeartbeatSenderLive
         [Act action_ResetHeartbeatIntervalsSinceLastReceive; Act action_UpdateActiveCoordinator] []]
  | CEvent_EndorsementRequestReceived => All (endorsementChecks ++
      [OnValid (ValidatorAnd endorsable)
         [Act action_UpdateActiveCoordinatorFromEndorsementRequest; Act action_HandleEndorsementRequest] []])
  | CEvent_HeartbeatInterval => First
      [On [Act action_UpdateOriginatorActivity; Act action_IncrementHeartbeatIntervalCounts]
          [ToIf CoordinatorState_Idle guard_InactiveGracePeriodExceeded []]]
  | CEvent_TransactionsDelegated => All (delegationChecks ++
      [OnValid heightTolerated
         [ActIf guard_IsHigherPriorityThanCurrentActive action_ProcessDelegatedTransactions;
          ActIf (GuardNot guard_IsHigherPriorityThanCurrentActive) action_RejectDelegationRequest]
         [ToIf CoordinatorState_Elect guard_IsHigherPriorityThanCurrentActive []]])
  | _ => None
  end).

Definition coordElect : CStateDefinition :=
  MkStateDefinition [Act action_ScheduleStateTimeout; Act action_SendHandoverRequest] [] (fun ty =>
  match ty with
  | CEvent_RequestTimeoutInterval => First [On [Act action_NudgeHandoverRequest] []]
  | CEvent_StateTimeoutInterval => First [On [] [To CoordinatorState_Active [Act action_ClearTimeoutSchedules]]]
  | CEvent_HeartbeatInterval => First
      [On [Act action_UpdateOriginatorActivity; Act action_PropagateHeartbeatIntervalToTransactions;
           Act action_SendHeartbeat] []]
  | CEvent_HeartbeatReceived => All
      [addEndorsers;
       OnValid fromHigherPriorityLive
         [Act action_CleanUpTransactionsNotYetDispatched; Act action_UpdateActiveCoordinator;
          Act action_ClearTimeoutSchedules] backOff;
       OnValid (ValidatorAnd [validator_IsHeartbeatFromCurrentActiveCoordinator;
                              validator_HeartBeatState [CoordinatorState_Closing_Flush]])
         [Act action_ClearTimeoutSchedules] [To CoordinatorState_Prepared []];
       OnValid (ValidatorAnd [validator_IsHeartbeatFromCurrentActiveCoordinator;
                              validator_HeartBeatState [CoordinatorState_Closing]])
         [Act action_ClearTimeoutSchedules; Act action_ImportStatesAndLocks] [To CoordinatorState_Active []]]
  | CEvent_HandoverRequest => First
      [OnValid validator_IsHandoverRequestFromHigherPriorityCoordinator
         [Act action_UpdateActiveCoordinator; Act action_CleanUpTransactionsNotYetDispatched] stepDown]
  | CEvent_EndorsementRequestReceived => All (endorsementChecks ++
      [OnValid (ValidatorAnd (endorsable ++ [validator_IsEndorsementRequestFromHigherPriorityCoordinator]))
         [Act action_UpdateActiveCoordinatorFromEndorsementRequest; Act action_CleanUpTransactionsNotYetDispatched;
          Act action_ClearTimeoutSchedules; Act action_HandleEndorsementRequest] backOff;
       rejectAsActive [ValidatorNot validator_IsEndorsementRequestFromHigherPriorityCoordinator]])
  | CEvent_TransactionsDelegated => acceptDelegations
  | CEvent_TransactionStateTransition => poolOrCleanUp
  | _ => None
  end).

Definition coordPrepared : CStateDefinition := MkStateDefinition [] [] (fun ty =>
  match ty with
  | CEvent_HeartbeatInterval => First
      [On [Act action_UpdateOriginatorActivity; Act action_IncrementHeartbeatIntervalCounts;
           Act action_PropagateHeartbeatIntervalToTransactions; Act action_SendHeartbeat]
          [ToIf CoordinatorState_Active guard_InactiveGracePeriodExceeded []]]
  | CEvent_HeartbeatReceived => All
      [addEndorsers;
       OnValid (ValidatorAnd [validator_IsHeartbeatFromCurrentActiveCoordinator;
                              validator_HeartBeatState [CoordinatorState_Closing_Flush]])
         [Act action_ResetHeartbeatIntervalsSinceLastReceive; Act action_ProcessConfirmedTransactionsFromSnapshot] [];
       OnValid (ValidatorAnd [validator_IsHeartbeatFromCurrentActiveCoordinator;
                              validator_HeartBeatState [CoordinatorState_Closing]])
         [Act action_ResetHeartbeatIntervalsSinceLastReceive; Act action_ProcessConfirmedTransactionsFromSnapshot;
          Act action_ImportStatesAndLocks] [To CoordinatorState_Active []];
       OnValid fromHigherPriorityLive
         [Act action_CleanUpTransactionsNotYetDispatched; Act action_UpdateActiveCoordinator] backOff]
  | CEvent_HandoverRequest => First
      [OnValid validator_IsHandoverRequestFromHigherPriorityCoordinator
         [Act action_UpdateActiveCoordinator; Act action_CleanUpTransactionsNotYetDispatched] stepDown]
  | CEvent_EndorsementRequestReceived => All (endorsementChecks ++
      [OnValid (ValidatorAnd (endorsable ++ [validator_IsEndorsementRequestFromHigherPriorityCoordinator]))
         [Act action_UpdateActiveCoordinatorFromEndorsementRequest; Act action_CleanUpTransactionsNotYetDispatched;
          Act action_HandleEndorsementRequest] backOff;
       rejectAsActive [ValidatorNot validator_IsEndorsementRequestFromHigherPriorityCoordinator]])
  | CEvent_TransactionsDelegated => acceptDelegations
  | CEvent_TransactionStateTransition => poolOrCleanUp
  | _ => None
  end).

Definition coordActive : CStateDefinition :=
  MkStateDefinition
    [Act action_SetSelfAsActiveCoordinator; Act action_SendHeartbeat; Act action_NewSigningIdentity;
     Act action_StartDispatchLoop; ActIf (GuardNot guard_HasTransactionAssembling) action_SelectTransaction;
     Act action_ResetHeartbeatIntervalsSinceLastReceive]
    [Act action_StopDispatchLoop] (fun ty =>
  match ty with
  | CEvent_HeartbeatInterval => First
      [On [Act action_UpdateOriginatorActivity; Act action_PropagateHeartbeatIntervalToTransactions;
           Act action_SendHeartbeat]
          [ToIf CoordinatorState_Idle (GuardNot guard_HasTransactionsInflight) []]]
  | CEvent_HeartbeatReceived => All
      [addEndorsers;
       OnValid fromHigherPriorityLive
         [Act action_UpdateActiveCoordinator; Act action_StopDispatchLoop;
          Act action_CleanUpTransactionsNotYetDispatched] stepDown]
  | CEvent_HandoverRequest => First
      [OnValid validator_IsHandoverRequestFromHigherPriorityCoordinator
         [Act action_UpdateActiveCoordinator; Act action_StopDispatchLoop;
          Act action_CleanUpTransactionsNotYetDispatched] stepDown]
  | CEvent_EndorsementRequestReceived => All (endorsementChecks ++
      [OnValid (ValidatorAnd (endorsable ++ [validator_IsEndorsementRequestFromHigherPriorityCoordinator]))
         [Act action_UpdateActiveCoordinatorFromEndorsementRequest; Act action_StopDispatchLoop;
          Act action_CleanUpTransactionsNotYetDispatched; Act action_HandleEndorsementRequest] stepDown;
       endorseOwn;
       rejectAsActive [ValidatorNot validator_IsEndorsementRequestFromHigherPriorityCoordinator;
                       ValidatorNot validator_IsEndorsementRequestFromSelf]])
  | CEvent_TransactionsDelegated => acceptDelegations
  | CEvent_TransactionStateTransition => All coordinateTransition
  | CEvent_EpochBoundaryReached => First
      [On [Act action_StopDispatchLoop;
           ActIf (GuardNot guard_MustFlushToRotateSigningIdentity) action_NewSigningIdentity;
           ActIf (GuardNot guard_MustFlushToRotateSigningIdentity) action_QueueRestartDispatchLoop]
          [ToIf CoordinatorState_Active_Flush guard_MustFlushToRotateSigningIdentity []]]
  | CEvent_RestartDispatchLoop => First [On [Act action_StartDispatchLoop] []]
  | _ => None
  end).

Definition coordActive_Flush : CStateDefinition := MkStateDefinition [] [] (fun ty =>
  match ty with
  | CEvent_HeartbeatInterval => First
      [On [Act action_UpdateOriginatorActivity; Act action_PropagateHeartbeatIntervalToTransactions;
           Act action_SendHeartbeat] []]
  | CEvent_HeartbeatReceived => All
      [addEndorsers;
       OnValid fromHigherPriorityLive []
         [To CoordinatorState_Closing_Flush
            [Act action_UpdateActiveCoordinator; Act action_CleanUpTransactionsNotYetDispatched]]]
  | CEvent_HandoverRequest => First
      [OnValid validator_IsHandoverRequestFromHigherPriorityCoordinator
         [Act action_CleanUpTransactionsNotYetDispatched; Act action_UpdateActiveCoordinator] stepDown]
  | CEvent_EndorsementRequestReceived => All (endorsementChecks ++
      [OnValid (ValidatorAnd (endorsable ++ [validator_IsEndorsementRequestFromHigherPriorityCoordinator]))
         [Act action_UpdateActiveCoordinatorFromEndorsementRequest; Act action_CleanUpTransactionsNotYetDispatched;
          Act action_HandleEndorsementRequest] [To CoordinatorState_Closing_Flush []];
       endorseOwn;
       rejectAsActive [ValidatorNot validator_IsEndorsementRequestFromHigherPriorityCoordinator;
                       ValidatorNot validator_IsEndorsementRequestFromSelf]])
  | CEvent_TransactionsDelegated => acceptDelegations
  | CEvent_TransactionStateTransition => All (coordinateTransition ++
      [OnValid (validator_TransactionStateTransitionFrom [State_Dispatched]) []
         [ToIf CoordinatorState_Active (GuardNot guard_HasUnconfirmedDispatchedTransactions) []]])
  | _ => None
  end).

Definition coordClosing_Flush : CStateDefinition :=
  MkStateDefinition [Act action_SendHeartbeatWithLocks] [] (fun ty =>
  match ty with
  | CEvent_HeartbeatInterval => First
      [On [Act action_UpdateOriginatorActivity; Act action_IncrementHeartbeatIntervalsSinceStateChange;
           Act action_SendHeartbeatWithLocks; Act action_PropagateHeartbeatIntervalToTransactions] []]
  | CEvent_HeartbeatReceived => All
      [addEndorsers;
       OnValid validator_IsHeartbeatSenderLive
         [Act action_ResetHeartbeatIntervalsSinceLastReceive; Act action_UpdateActiveCoordinator] []]
  | CEvent_EndorsementRequestReceived => All (endorsementChecks ++
      [OnValid (ValidatorAnd endorsable)
         [Act action_UpdateActiveCoordinatorFromEndorsementRequest; Act action_HandleEndorsementRequest] []])
  | CEvent_TransactionsDelegated => All (delegationChecks ++
      [OnValid heightTolerated
         [ActIf guard_IsHigherPriorityThanCurrentActive action_ProcessDelegatedTransactions;
          ActIf (GuardNot guard_IsHigherPriorityThanCurrentActive) action_RejectDelegationRequest]
         [ToIf CoordinatorState_Elect guard_IsHigherPriorityThanCurrentActive []]])
  | CEvent_TransactionStateTransition => All
      [OnValid (ValidatorOr [validator_TransactionStateTransitionTo [State_Final];
                             ValidatorAnd [validator_TransactionStateTransitionFrom [State_Dispatched];
                                           validator_TransactionStateTransitionTo [State_PreAssembly_Blocked; State_Pooled]]])
         [Act action_CleanUpTransaction] [];
       OnValid (validator_TransactionStateTransitionFrom [State_Dispatched]) []
         [ToIf CoordinatorState_Closing (GuardNot guard_HasUnconfirmedDispatchedTransactions) []]]
  | _ => None
  end).

Definition coordClosing : CStateDefinition :=
  MkStateDefinition [Act action_SendHeartbeatWithLocks] [] (fun ty =>
  match ty with
  | CEvent_HeartbeatReceived => All
      [addEndorsers;
       OnValid validator_IsHeartbeatSenderLive
         [Act action_ResetHeartbeatIntervalsSinceLastReceive; Act action_UpdateActiveCoordinator] []]
  | CEvent_EndorsementRequestReceived => All (endorsementChecks ++
      [OnValid (ValidatorAnd endorsable)
         [Act action_UpdateActiveCoordinatorFromEndorsementRequest; Act action_HandleEndorsementRequest] []])
  | CEvent_HeartbeatInterval => First
      [On [Act action_UpdateOriginatorActivity; Act action_IncrementHeartbeatIntervalsSinceStateChange;
           Act action_SendHeartbeatWithLocks; Act action_PropagateHeartbeatIntervalToTransactions]
          [ToIf CoordinatorState_Idle (GuardAnd [GuardNot guard_HasTransactionsInflight; guard_ClosingGracePeriodExpired;
                                                 guard_InactiveGracePeriodExceeded]) [];
           ToIf CoordinatorState_Observing (GuardAnd [GuardNot guard_HasTransactionsInflight; guard_ClosingGracePeriodExpired;
                                                      GuardNot guard_InactiveGracePeriodExceeded]) []]]
  | CEvent_TransactionsDelegated => All (delegationChecks ++
      [OnValid heightTolerated
         [ActIf (GuardAnd [GuardNot guard_IsHigherPriorityThanCurrentActive; GuardNot guard_InactiveGracePeriodExceeded])
            action_RejectDelegationRequest]
         [ToIf CoordinatorState_Elect
            (GuardAnd [guard_IsHigherPriorityThanCurrentActive; GuardNot guard_InactiveGracePeriodExceeded])
            [Act action_ProcessDelegatedTransactions];
          ToIf CoordinatorState_Active
            (GuardAnd [GuardNot guard_IsHigherPriorityThanCurrentActive; guard_InactiveGracePeriodExceeded]) []]])
  | CEvent_TransactionStateTransition => First
      [OnValid (validator_TransactionStateTransitionTo [State_Final]) [Act action_CleanUpTransaction] []]
  | _ => None
  end).

Definition coordStateDefinitionsMap : StateDefinitions CoordinatorState CoordinatorEventType CoordinatorEvent Coord :=
  fun state =>
  match state with
  | CoordinatorState_Initial => Some coordInitial
  | CoordinatorState_Idle => Some coordIdle
  | CoordinatorState_Observing => Some coordObserving
  | CoordinatorState_Elect => Some coordElect
  | CoordinatorState_Prepared => Some coordPrepared
  | CoordinatorState_Active => Some coordActive
  | CoordinatorState_Active_Flush => Some coordActive_Flush
  | CoordinatorState_Closing_Flush => Some coordClosing_Flush
  | CoordinatorState_Closing => Some coordClosing
  | CoordinatorState_unknown _ => None
  end.
End Table.

(** ** NewCoordinator and Start (coordinator.go) *)

(** The coordinator as it is built, before [Start]. *)
Definition NewCoordinator (conf : CoordConfig) (blockRange : Z) (nodeName : string)
    (selectionConfig : CoordinatorSelectionConfig) : Coord :=
  let fields := MkCoordinatorFields nodeName (csc_Mode selectionConfig)
    match csc_Mode selectionConfig with COORDINATOR_ENDORSER => csc_Endorsers selectionConfig | _ => [] end
    [] 0 0 blockRange EmptyString false [] [] ∅ [] in
  let world := MkWorld ∅ ∅ (NewGrapher (conf_blockHeightTolerance conf)) NewDependencyTracker ∅ ∅ fields [] [] [] ∅ ∅ 1 0 0 in
  MkCoord world (MkMachine CoordinatorState_Initial None 0) false false
    match csc_Mode selectionConfig with
    | COORDINATOR_STATIC => csc_StaticCoordinator selectionConfig
    | COORDINATOR_SENDER => nodeName
    | _ => EmptyString
    end
    0 0 [] false uuid_Nil ∅ None ∅ [] None None ∅ false [] [] conf.

(** [Start]; dividing by the block range panics when it is zero. *)
Definition Start : M Coord unit := fun c =>
  if co_ctx c then (c, Ok tt)
  else
    let height := w_liveBlockHeight (co_w c) in
    match ComputeEffectiveBlockHeight (u64 height) (c_coordinatorSelectionBlockRange (w_c (co_w c))) with
    | Ok effective =>
        (c <| co_ctx := true |>
           <| co_w ::= fun w => w <| w_c ::= fun f => f <| c_currentBlockHeight := height |> <| c_effectiveBlockHeight := effective |> |> |>
           <| co_events ::= fun q => q ++ [CoordinatorCreatedEvent] |>, Ok tt)
    | Err e => (c, Err e)
    | Crash x => (c <| co_ctx := true |>, Crash x)
    end.

(** ** The machine in memory *)

Definition coordEntity : Entity CoordinatorState CoordinatorEventType CoordinatorEvent Coord :=
  MkEntity CoordinatorType_of co_machine (fun m c => c <| co_machine := m |>) (fun c => w_now (co_w c))
    (fun c => if co_locked c then None else Some (c <| co_locked := true |>))
    (fun c => c <| co_locked := false |>).

#[export] Instance coordEntity_laws : EntityLaws coordEntity.
Proof. split; [done| |done]. intros c c'. simpl. destruct (co_locked c); [done|]. by intros [= <-]. Qed.

(** [onStateTransition] *)
Definition onStateTransition : TransitionCallback CoordinatorState CoordinatorEvent Coord :=
  fun _ _ _ c => c <| co_heartbeatIntervalsSinceStateChange := 0%Z |>.

Section ProcessEvent.
Context `{Env, CoordEnv}.

(** [preProcessEvent]: the event is for a transaction, or a heartbeat of this node. *)
Definition preProcessEvent (event : CoordinatorEvent) : M Coord bool := fun c =>
  match event with
  | TransactionEvent id e => (propagateEventToTransaction id e ≫= fun _ => mret true) c
  | HeartbeatReceivedEvent from _ => (c, Ok (String.eqb from (c_nodeName (w_c (co_w c)))))
  | _ => (c, Ok false)
  end.

(** The lock is taken and released around [preProcessEvent], and again by the machine. *)
Definition withCoordLock {A} (m : M Coord A) : M Coord A := fun c =>
  if co_locked c then (c, Crash Deadlock)
  else let '(c, r) := m (c <| co_locked := true |>) in (c <| co_locked := false |>, r).

(** What the event loop does with one event. *)
Definition coordinatorProcessEvent (event : CoordinatorEvent) : M Coord unit :=
  handled ← withCoordLock (preProcessEvent event);
  if handled : bool then mret tt
  else ProcessEvent coordEntity coordStateDefinitionsMap (Some onStateTransition) event.

(** The loop takes the next event of its internal queue. *)
Definition nextInternal (c : Coord) : option (CoordinatorEvent * Coord) :=
  match c_internalQueue (w_c (co_w c)) with
  | [] => None
  | e :: q => Some (e, c <| co_w ::= fun w => w <| w_c ::= fun f => f <| c_internalQueue := q |> |> |>)
  end.

Fixpoint drainInternal (fuel : nat) (c : Coord) : Coord :=
  match fuel with
  | O => c
  | S fuel =>
      match nextInternal c with
      | None => c
      | Some (e, c) => drainInternal fuel (coordinatorProcessEvent e c).1
      end
  end.

(** The table passes the check of [validateDefinitions]. *)
Lemma coordStateDefinitionsMap_no_warnings s d ty hs :
  coordStateDefinitionsMap s = Some d -> Events d ty = Some hs -> handlerSetWarnings hs = [].
Proof. intros Hd He. destruct s; try discriminate Hd; injection Hd as <-; destruct ty; try discriminate He; injection He as <-; reflexivity. Qed.
End ProcessEvent.
