(* ===== verification/CoordSample.v ===== *)
(** * A small coordinator node, to run the coordinator's machine on

    An environment in which every component answers, a configuration with small limits, and the
    coordinator of node2 among the endorsers node1, node2 and node3. *)

From S2P Require Import Prelude StateMachine Selection DependencyTracker StateVisibility Grapher StateView.
From S2P Require Import TxTypes CoordTypes World TxActions TxMachine Sample CoordWorld CoordActions CoordEndorse CoordMachine.
Open Scope list_scope.

#[export] Instance sampleCoordEnv : CoordEnv := {|
  cenv_transport _ _ := None;
  cenv_rangeTransactions l := l;
  cenv_rangeTransactions_perm l := Permutation_refl l;
  cenv_rangeNodes l := l;
  cenv_rangeNodes_perm l := Permutation_refl l;
  cenv_CheckPendingPrivateStateData _ := Ok true;
  cenv_FixedSigningIdentity := EmptyString;
  cenv_SubmitterSelection := SUBMITTER_COORDINATOR;
  cenv_ResolveKey _ lookup _ _ := Ok ("verifier-of-" ++ lookup)%string;
  cenv_EndorseTransaction _ r := Ok (MkEndorsementResult (per_Endorser r) EndorseTransactionResponse_SIGN "payload"%string None);
  cenv_Sign _ key _ payload := Ok (key ++ payload)%string
|}.

(** At most two transactions in flight; three attempts to endorse. *)
Definition sampleCoordConfig : CoordConfig :=
  MkCoordConfig "0xc0ffee" 5 2 3 1 1 1 10 100 3 2 4 2.

Definition sampleSelection : CoordinatorSelectionConfig :=
  MkCoordinatorSelectionConfig COORDINATOR_ENDORSER EmptyString ["node1"; "node2"; "node3"]%string.

Definition newCoordAt (node : string) : Coord := NewCoordinator sampleCoordConfig 50 node sampleSelection.

(** The event loop handles [e], then what that queued. *)
Definition deliver (e : CoordinatorEvent) (c : Coord) : Coord := drainInternal 20 (coordinatorProcessEvent e c).1.

(** The loop takes the event that [Start] queued. *)
Definition startedAt (node : string) : Coord := (Start (newCoordAt node)).1 <| co_events := [] |>.
Definition idleAt (node : string) : Coord := deliver CoordinatorCreatedEvent (startedAt node).
Definition idleCoord : Coord := idleAt "node2".

Definition sampleDelegation (ids : list uuid) : CoordinatorEvent :=
  TransactionsDelegatedEvent (MkTransactionsDelegated "node1" "alice@node1" (samplePrivateTx <$> ids) 0 "delegation").

(** A coordinator that has taken transactions from an originator. *)
Definition activeAt (node : string) (ids : list uuid) : Coord := deliver (sampleDelegation ids) (idleAt node).
Definition activeCoord (ids : list uuid) : Coord := activeAt "node2" ids.

Definition sampleHeartbeat (from : string) (state : CoordinatorState) : CoordinatorEvent :=
  HeartbeatReceivedEvent from (Some (MkCoordinatorSnapshot [] [] [] [] state 0 [] None)).
