(* ===== verification/CoordInvariants.v ===== *)
(** * What every step of a coordinator keeps

    The actions of the coordinator's table, the fields none of them touches, the table's abstract
    form, and the invariant of the coordinator's own data: the pool, the ids, the limit on
    transactions, and the endorsements in flight. *)

From S2P Require Import Prelude StateMachine Identity Selection DependencyTracker StateVisibility Grapher StateView.
From S2P Require Import TxTypes CoordTypes World TxActions TxMachine TxPropagation DispatchLoop.
From S2P Require Import CoordWorld CoordActions CoordEndorse CoordMachine.
Open Scope list_scope.

(** ** Transactions leave the coordinator's identity alone *)

(** Like [quiet], with state changes queued as well. *)
Record calm (c c' : coordinatorFields) : Prop := MkCalm {
  calm_node : c_nodeName c' = c_nodeName c;
  calm_selection : c_coordinatorSelection c' = c_coordinatorSelection c;
  calm_identity : c_signingIdentity c' = c_signingIdentity c;
  calm_queue : exists q, c_internalQueue c' = c_internalQueue c ++ q
}.

#[export] Instance calm_preorder : PreOrder calm.
Proof.
  split.
  - intros c. split; [done..|]. exists []. by rewrite app_nil_r.
  - intros c1 c2 c3 [?? ? (q & Eq)] [?? ? (q' & Eq')]. split; [congruence..|].
    exists (q ++ q'). by rewrite Eq', Eq, app_assoc.
Qed.

Lemma quiet_calm c c' : quiet c c' -> calm c c'.
Proof. intros [?? ? (q & Eq & _)]. split; [done..|]. by exists q. Qed.

(** From [w] to [w'] the transactions have moved along their lifecycle and the coordinator's fields
    are calm. *)
Definition settles (w w' : World) : Prop := evolves w w' /\ calm (w_c w) (w_c w').

#[export] Instance settles_preorder : PreOrder settles.
Proof. split; [by intros w|]. intros w1 w2 w3 [? ?] [? ?]. split; by etrans. Qed.

Section Settles.
Context `{Env}.

Lemma HandleEvent_calm handle id event (w0 : coordinatorFields) :
  (forall dep event, keeps (fun w => calm w0 (w_c w)) (fun _ => True) (handle dep event)) ->
  keeps (fun w => calm w0 (w_c w)) (fun _ => True) (HandleEvent handle id event).
Proof.
  intros Hh w Hw. split; [|done].
  destruct (decide (id ∈ heldLocks w)) as [Hid|Hid]; [by rewrite HandleEvent_locked|].
  rewrite HandleEvent_unlocked by done. set (w1 := w <| heldLocks ::= union {[id]} |>).
  assert (Hk : keeps (fun w => calm w0 (w_c w)) (fun _ => True)
    (dispatchEvent (txEntity id) (stateDefinitionsMap handle id) (Some (transitionCallback id)) event)).
  { apply (dispatchEvent_tx_keeps handle id _ _ true); try done.
    - intros w' w'' _ _ _ Hq Hw'. etrans; [exact Hw'|by apply quiet_calm].
    - intros from to w' Hw'. etrans; [exact Hw'|]. split; [done..|]. by eexists [_]. }
  destruct (Hk w1 Hw) as [Hd _]. by destruct (dispatchEvent _ _ _ event w1) as [w2 r].
Qed.

Lemma handleEvent_calm fuel id event w0 :
  keeps (fun w => calm w0 (w_c w)) (fun _ => True) (coordinatorTransactionHandleEvent fuel id event).
Proof.
  revert id event. induction fuel as [|fuel IH]; intros id event w Hw; simpl; [done|].
  destruct (transactionsByID w !! id) as [t|]; [|done]. by apply HandleEvent_calm.
Qed.

Lemma txHandleEvent_settles id event : respects settles (txHandleEvent id event).
Proof. intros w. split; [apply handleEvent_evolves|]. by apply handleEvent_calm. Qed.

Lemma settles_frame w w' :
  transactionsByID w' = transactionsByID w -> heldLocks w' = heldLocks w -> calm (w_c w) (w_c w') -> settles w w'.
Proof. intros. split; [by apply evolves_frame|done]. Qed.

Lemma refreshBlockHeight_settles : respects settles refreshBlockHeight.
Proof.
  apply keeps_respects; [apply _|]. intros w0.
  apply (keeps_refreshBlockHeight (settles w0) (fun _ => True) true); try done.
  intros w w' Ht Hl _ Hq Hw. etrans; [exact Hw|]. apply settles_frame; [done|done|by apply quiet_calm].
Qed.
End Settles.

(** ** The actions of the table *)

Section Rules.
Context `{Env, CoordEnv}.

Definition coordActions : list CAction :=
  [action_CalculateCoordinatorPriorities; action_AddEndorsersFromSnapshot; action_UpdateActiveCoordinator;
   action_RefreshBlockHeight; action_AddEndorsementRequestSenderToEndorserCandidates; action_RejectEndorsementBlockHeight;
   action_RejectEndorsementPrivateStateDataPending; action_UpdateActiveCoordinatorFromEndorsementRequest;
   action_HandleEndorsementRequest; action_RejectDelegationRequestBlockHeight; action_ProcessDelegatedTransactions;
   action_ResetHeartbeatIntervalsSinceLastReceive; action_UpdateOriginatorActivity;
   action_IncrementHeartbeatIntervalCounts; action_RejectDelegationRequest; action_ScheduleStateTimeout;
   action_SendHandoverRequest; action_NudgeHandoverRequest; action_ClearTimeoutSchedules;
   action_PropagateHeartbeatIntervalToTransactions; action_SendHeartbeat; action_CleanUpTransactionsNotYetDispatched;
   action_ImportStatesAndLocks; action_RejectEndorsementEndorserIsActiveCoordinator; action_PoolTransaction;
   action_CleanUpTransaction; action_ProcessConfirmedTransactionsFromSnapshot; action_SetSelfAsActiveCoordinator;
   action_NewSigningIdentity; action_StartDispatchLoop; action_StopDispatchLoop; action_SelectTransaction;
   action_cancelCurrentlyAssemblingTransaction; action_ClearAssemblyInFlight; action_QueueRestartDispatchLoop;
   action_SendHeartbeatWithLocks; action_IncrementHeartbeatIntervalsSinceStateChange].

(** Every rule of the table runs one of these. *)
Lemma coord_defined_rule_in rule :
  defined_rule coordStateDefinitionsMap rule -> ar_Action rule ∈ coordActions.
Proof.
  intros [[s Hr]|(s & ty & h & (d & hs & Hd & He & Hh) & Hr)].
  - destruct s; destruct Hr as [Hr|Hr]; cbn in Hr; split_members; unfold coordActions; cbn [ar_Action Act ActIf]; list_member.
  - destruct s; try discriminate Hd; injection Hd as <-; destruct ty; try discriminate He; injection He as <-;
      cbn in Hh; unfold coordinateTransition in Hh; split_members; destruct Hr as [Hr|(tr & Htr & Hr)]; cbn in *; unfold backOff, stepDown in *;
      split_members; cbn in *; split_members; unfold coordActions; cbn [ar_Action Act ActIf]; list_member.
Qed.

(** ** What no action touches *)

(** The machine and its lock, the configuration, whether the coordinator was started, and the node's
    name and selection mode. *)
Record stays (c c' : Coord) : Prop := MkStays {
  stays_machine : co_machine c' = co_machine c;
  stays_locked : co_locked c' = co_locked c;
  stays_ctx : co_ctx c' = co_ctx c;
  stays_conf : co_conf c' = co_conf c;
  stays_node : c_nodeName (w_c (co_w c')) = c_nodeName (w_c (co_w c));
  stays_selection : c_coordinatorSelection (w_c (co_w c')) = c_coordinatorSelection (w_c (co_w c))
}.

#[export] Instance stays_preorder : PreOrder stays.
Proof. split; [by intros c|]. intros c1 c2 c3 [] []. split; congruence. Qed.

(** The same of the transactions' memory. *)
Definition worldStays (w w' : World) : Prop :=
  c_nodeName (w_c w') = c_nodeName (w_c w) /\ c_coordinatorSelection (w_c w') = c_coordinatorSelection (w_c w).

#[export] Instance worldStays_preorder : PreOrder worldStays.
Proof. split; [by intros w|]. intros w1 w2 w3 [] []. split; congruence. Qed.

Lemma settles_worldStays w w' : settles w w' -> worldStays w w'.
Proof. by intros [_ [? ? _ _]]. Qed.

Lemma respects_onWorld {A} (m : M World A) : respects worldStays m -> respects stays (onWorld m).
Proof.
  intros Hm c. specialize (Hm (co_w c)). unfold onWorld. destruct (m (co_w c)) as [w r]. destruct Hm. by split.
Qed.

Lemma respects_sendC msg : respects stays (sendC msg).
Proof. intros c. unfold sendC. by destruct (cenv_transport _ _). Qed.

Lemma worldStays_txHandleEvent id event : respects worldStays (txHandleEvent id event).
Proof. eapply respects_weaken; [apply settles_worldStays|apply txHandleEvent_settles]. Qed.

Lemma worldStays_modify f : (forall w, worldStays w (f w)) -> respects worldStays (modify f).
Proof. intros Hf w. apply Hf. Qed.

Lemma worldStays_candidates nodes : respects worldStays (notifyEndorserCandidates nodes).
Proof. intros w. by destruct (quiet_candidates (w_c w) nodes). Qed.

Lemma worldStays_refresh : respects worldStays refreshBlockHeight.
Proof. eapply respects_weaken; [apply settles_worldStays|apply refreshBlockHeight_settles]. Qed.

Lemma worldStays_delegateAll conf o node d l : respects worldStays (delegateAll conf o node d l).
Proof.
  revert d. induction l as [|p l IH]; intros d; simpl; [apply respects_ret, _|].
  apply respects_bind; [apply _| |intros d'; apply IH].
  intros w. unfold delegateOne. destruct (dl_error d); [done|]. destruct (transactionsByID w !! pt_ID p); [done|].
  destruct (_ <=? _)%Z; [done|].
  pose proof (fun w => worldStays_txHandleEvent (pt_ID p) DelegatedEvent w) as Hh. unfold admitTransaction, newTransaction. cbv zeta.
  match goal with |- context [txHandleEvent _ _ ?w1] => specialize (Hh w1); assert (Hw1 : worldStays w w1) end.
  { unfold addPreassemblyDependency. by repeat case_match. }
  destruct (txHandleEvent _ _ _) as [w2 [[]|e|x]]; simpl in *; (etrans; [exact Hw1|exact Hh]).
Qed.

(** One step of the program text. *)
Ltac stays_step :=
  first
  [ apply respects_ret, _ | apply respects_gets, _ | apply respects_throw, _ | apply respects_crash, _
  | apply respects_liftR, _ | apply respects_sendC
  | lazymatch goal with
    | |- respects _ (mbind _ _) => apply respects_bind; [apply _| |intros ?]
    | |- respects _ (log_error _) => apply respects_log_error
    | |- respects _ (for_each _ _) => apply respects_for_each; [apply _|intros ? _]
    | |- respects stays (onWorld _) => apply respects_onWorld
    end
  | apply worldStays_txHandleEvent | apply worldStays_candidates | apply worldStays_refresh | apply worldStays_delegateAll
  | apply worldStays_modify; intros []; done
  | apply respects_modify; intros []; done
  | match goal with |- respects _ (match ?x with _ => _ end) => destruct x end
  | match goal with |- respects _ (if ?x then _ else _) => destruct x end ].
Ltac stays_go := repeat stays_step.

Lemma worldStays_newUUID : respects worldStays newUUID.
Proof. by intros w. Qed.

Lemma stays_cancel t : respects stays (cancelCoordTimer t).
Proof. intros c. by destruct t. Qed.

Lemma stays_schedule d e : respects stays (scheduleC d e).
Proof. unfold scheduleC. stays_go. Qed.

Lemma stays_scheduleRequestTimeout : respects stays scheduleRequestTimeout.
Proof. unfold scheduleRequestTimeout. stays_go; eauto using stays_cancel, stays_schedule. Qed.

Lemma stays_nudgePending r : respects stays (nudgePending r).
Proof. unfold nudgePending. stays_go. Qed.

Lemma stays_cleanUpTransaction id : respects stays (cleanUpTransaction id).
Proof. unfold cleanUpTransaction, removeTransactionFromPool, onGrapher, onDeps. stays_go. Qed.

Lemma stays_recordOriginatorActivity node : respects stays (recordOriginatorActivity node).
Proof. apply respects_modify. intros c. by case_match. Qed.

Lemma stays_sendToAll l contract e : respects stays (sendToAll l contract e).
Proof.
  revert e. induction l as [|[node s] l IH]; intros e; simpl; [stays_go|].
  intros c. pose proof (respects_sendC (SendHeartbeat node contract s) c) as Hs.
  destruct (sendC _ c) as [c' [[]|e'|x]]; simpl in *; [..|done].
  all: etrans; [exact Hs|apply IH].
Qed.

Lemma stays_beginEndorsement key : respects stays (beginEndorsement key).
Proof. intros c. unfold beginEndorsement. by case_match. Qed.

Lemma stays_popNextPooledTransaction : respects stays popNextPooledTransaction.
Proof. intros c. unfold popNextPooledTransaction. by case_match. Qed.

#[local] Create HintDb stays.
#[local] Hint Resolve stays_cancel stays_schedule stays_scheduleRequestTimeout stays_nudgePending stays_cleanUpTransaction
  stays_recordOriginatorActivity stays_sendToAll stays_beginEndorsement stays_popNextPooledTransaction worldStays_newUUID : stays.

Lemma coordActions_stay action event : action ∈ coordActions -> respects stays (action event).
Proof.
  intros Hin. unfold coordActions in Hin.
  repeat (apply elem_of_cons in Hin as [->|Hin]); [..|by inversion Hin].
  all: lazymatch goal with |- respects _ (?a _) =>
         let rec go t := lazymatch t with ?f _ => go f | _ => unfold t end in go a end.
  all: try match goal with |- respects _ (match ?e with _ => _ end) => is_var e; destruct e;
             try solve [apply respects_crash, _ | apply respects_ret, _] end.
  all: unfold onFields, setActiveCoordinator, clearAssembly, addToDelegatedTransactions,
    sendHandoverRequest, nudgeHandoverRequest, scheduleStateTimeout, clearTimeoutSchedules, sendHeartbeat, onGrapher,
    selectNextTransactionToAssemble, addTransactionToBackOfPool, startDispatchLoop, stopDispatchLoop,
    queueEventInternal, queueEventForCoordinator, propagateEventToAllTransactions.
  all: try solve [stays_go; eauto with stays].
  all: stays_go; eauto with stays.
  { apply worldStays_modify. intros w. by destruct (quiet_priorities (w_c w)). }
  all: apply respects_modify; intros ?; cbv beta; by case_match.
Qed.
End Rules.

(** ** What most actions do not touch *)

(** The transactions have moved along their lifecycle; the pool, the assembly slot, the endorsements
    in flight and the dispatch loop are as they were. *)
Record mild (c c' : Coord) : Prop := MkMild {
  mild_stays : stays c c';
  mild_evolves : evolves (co_w c) (co_w c');
  mild_pool : co_pooledTransactions c' = co_pooledTransactions c;
  mild_inFlight : co_assemblyInFlight c' = co_assemblyInFlight c;
  mild_assembling : co_assemblingTxID c' = co_assemblingTxID c;
  mild_keys : co_inFlightEndorsements c' = co_inFlightEndorsements c;
  mild_jobs : co_endorseJobs c' = co_endorseJobs c;
  mild_loop : co_dispatchLoop c' = co_dispatchLoop c
}.

#[export] Instance mild_preorder : PreOrder mild.
Proof. split; [intros c; by split|]. intros c1 c2 c3 [] []. split; try congruence; by etrans. Qed.

Section Mild.
Context `{Env, CoordEnv}.

(** World steps that are mild. *)
Definition worldMild (w w' : World) : Prop := worldStays w w' /\ evolves w w'.

#[export] Instance worldMild_preorder : PreOrder worldMild.
Proof. split; [by intros w|]. intros w1 w2 w3 [] []. split; by etrans. Qed.

Lemma worldMild_frame w w' :
  transactionsByID w' = transactionsByID w -> heldLocks w' = heldLocks w -> worldStays w w' -> worldMild w w'.
Proof. intros. split; [done|by apply evolves_frame]. Qed.

Lemma mild_onWorld {A} (m : M World A) : respects worldMild m -> respects mild (onWorld m).
Proof.
  intros Hm c. specialize (Hm (co_w c)). unfold onWorld. destruct (m (co_w c)) as [w r]. destruct Hm as [[] ?]. split; [by split|done..].
Qed.

Lemma settles_worldMild w w' : settles w w' -> worldMild w w'.
Proof. intros Hw. split; [by apply settles_worldStays|apply Hw]. Qed.

Lemma worldMild_txHandleEvent id event : respects worldMild (txHandleEvent id event).
Proof. eapply respects_weaken; [apply settles_worldMild|apply txHandleEvent_settles]. Qed.

Lemma worldMild_refresh : respects worldMild refreshBlockHeight.
Proof. eapply respects_weaken; [apply settles_worldMild|apply refreshBlockHeight_settles]. Qed.

Lemma worldMild_candidates nodes : respects worldMild (notifyEndorserCandidates nodes).
Proof. intros w. apply worldMild_frame; [done..|apply worldStays_candidates]. Qed.

Lemma worldMild_modify f :
  (forall w, transactionsByID (f w) = transactionsByID w /\ heldLocks (f w) = heldLocks w /\ worldStays w (f w)) ->
  respects worldMild (modify f).
Proof. intros Hf w. destruct (Hf w) as (?&?&?). by apply worldMild_frame. Qed.

Lemma worldMild_newUUID : respects worldMild newUUID.
Proof. intros w. by apply worldMild_frame. Qed.

Lemma mild_modify f :
  (forall c, stays c (f c) /\ co_w (f c) = co_w c /\ co_pooledTransactions (f c) = co_pooledTransactions c /\
    co_assemblyInFlight (f c) = co_assemblyInFlight c /\ co_assemblingTxID (f c) = co_assemblingTxID c /\
    co_inFlightEndorsements (f c) = co_inFlightEndorsements c /\ co_endorseJobs (f c) = co_endorseJobs c /\
    co_dispatchLoop (f c) = co_dispatchLoop c) ->
  respects mild (modify f).
Proof. intros Hf c. destruct (Hf c) as (?&Hw&?&?&?&?&?&?). split; try done. simpl. by rewrite Hw. Qed.

Lemma mild_sendC msg : respects mild (sendC msg).
Proof. intros c. unfold sendC. by destruct (cenv_transport _ _). Qed.

(** One step of the program text. *)
Ltac mild_step :=
  first
  [ apply respects_ret, _ | apply respects_gets, _ | apply respects_throw, _ | apply respects_crash, _
  | apply respects_liftR, _ | apply mild_sendC
  | lazymatch goal with
    | |- respects _ (mbind _ _) => apply respects_bind; [apply _| |intros ?]
    | |- respects _ (for_each _ _) => apply respects_for_each; [apply _|intros ? _]
    | |- respects mild (onWorld _) => apply mild_onWorld
    end
  | apply worldMild_txHandleEvent | apply worldMild_candidates | apply worldMild_refresh | apply worldMild_newUUID
  | apply worldMild_modify; intros []; done
  | apply mild_modify; intros []; by repeat split
  | match goal with |- respects _ (match ?x with _ => _ end) => destruct x end
  | match goal with |- respects _ (if ?x then _ else _) => destruct x end ].
Ltac mild_go := repeat mild_step.

Lemma mild_cancel t : respects mild (cancelCoordTimer t).
Proof. intros c. by destruct t. Qed.

Lemma mild_schedule d e : respects mild (scheduleC d e).
Proof. unfold scheduleC. mild_go. Qed.

Lemma mild_scheduleRequestTimeout : respects mild scheduleRequestTimeout.
Proof. unfold scheduleRequestTimeout. mild_go; eauto using mild_cancel, mild_schedule. Qed.

Lemma mild_nudgePending r : respects mild (nudgePending r).
Proof. unfold nudgePending. mild_go. Qed.

Lemma mild_recordOriginatorActivity node : respects mild (recordOriginatorActivity node).
Proof. apply mild_modify. intros c. by case_match. Qed.

Lemma mild_sendToAll l contract e : respects mild (sendToAll l contract e).
Proof.
  revert e. induction l as [|[node s] l IH]; intros e; simpl; [mild_go|].
  intros c. pose proof (mild_sendC (SendHeartbeat node contract s) c) as Hs.
  destruct (sendC _ c) as [c' [[]|e'|x]]; simpl in *; [..|done].
  all: etrans; [exact Hs|apply IH].
Qed.

#[local] Create HintDb mild.
#[local] Hint Resolve mild_cancel mild_schedule mild_scheduleRequestTimeout mild_nudgePending
  mild_recordOriginatorActivity mild_sendToAll : mild.

Definition mildActions : list CAction :=
  [action_CalculateCoordinatorPriorities; action_AddEndorsersFromSnapshot; action_UpdateActiveCoordinator;
   action_RefreshBlockHeight; action_AddEndorsementRequestSenderToEndorserCandidates; action_RejectEndorsementBlockHeight;
   action_RejectEndorsementPrivateStateDataPending; action_UpdateActiveCoordinatorFromEndorsementRequest;
   action_RejectDelegationRequestBlockHeight;
   action_ResetHeartbeatIntervalsSinceLastReceive; action_UpdateOriginatorActivity;
   action_IncrementHeartbeatIntervalCounts; action_RejectDelegationRequest; action_ScheduleStateTimeout;
   action_SendHandoverRequest; action_NudgeHandoverRequest; action_ClearTimeoutSchedules;
   action_PropagateHeartbeatIntervalToTransactions; action_SendHeartbeat;
   action_ImportStatesAndLocks; action_RejectEndorsementEndorserIsActiveCoordinator; action_SetSelfAsActiveCoordinator;
   action_NewSigningIdentity; action_cancelCurrentlyAssemblingTransaction; action_QueueRestartDispatchLoop;
   action_SendHeartbeatWithLocks; action_IncrementHeartbeatIntervalsSinceStateChange].

Lemma mildActions_mild action event : action ∈ mildActions -> respects mild (action event).
Proof.
  intros Hin. unfold mildActions in Hin.
  repeat (apply elem_of_cons in Hin as [->|Hin]); [..|by inversion Hin].
  all: lazymatch goal with |- respects _ (?a _) =>
         let rec go t := lazymatch t with ?f _ => go f | _ => unfold t end in go a end.
  all: try match goal with |- respects _ (match ?e with _ => _ end) => is_var e; destruct e;
             try solve [apply respects_crash, _ | apply respects_ret, _] end.
  all: unfold onFields, setActiveCoordinator,
    sendHandoverRequest, nudgeHandoverRequest, scheduleStateTimeout, clearTimeoutSchedules, sendHeartbeat, onGrapher,
    queueEventInternal, queueEventForCoordinator, propagateEventToAllTransactions.
  all: try solve [mild_go; eauto with mild].
  all: mild_go; eauto with mild.
  { apply worldMild_modify. intros w. split_and!; [done..|]. by destruct (quiet_priorities (w_c w)). }
  apply mild_modify. intros c. cbv beta. by case_match.
Qed.
End Mild.

(** The other actions. *)
Definition specialActions `{Env, CoordEnv} : list CAction :=
  [action_CleanUpTransactionsNotYetDispatched; action_CleanUpTransaction; action_ProcessConfirmedTransactionsFromSnapshot;
   action_ProcessDelegatedTransactions; action_PoolTransaction; action_SelectTransaction; action_ClearAssemblyInFlight;
   action_HandleEndorsementRequest; action_StopDispatchLoop].

Lemma coordActions_split `{Env, CoordEnv} action :
  action ∈ coordActions -> action ∈ mildActions \/ action ∈ specialActions \/ action = action_StartDispatchLoop.
Proof.
  intros Hin. unfold coordActions in Hin. repeat (apply elem_of_cons in Hin as [->|Hin]); [..|by inversion Hin].
  all: unfold mildActions, specialActions;
    first [solve [right; right; reflexivity] | left; list_member | right; left; list_member].
Qed.

(** ** The dispatch loop is started in one place *)

Definition loopOff (c c' : Coord) : Prop := co_dispatchLoop c' = true -> co_dispatchLoop c = true.

#[export] Hint Extern 0 (loopOff _ _) => exact (fun H => H) : core.

#[export] Instance loopOff_preorder : PreOrder loopOff.
Proof. unfold loopOff. split; [by intros c ?|]. intros c1 c2 c3 ???. auto. Qed.

Lemma loopOff_onWorld {A} (m : M World A) : respects loopOff (onWorld m).
Proof. intros c. unfold onWorld, loopOff. by destruct (m (co_w c)). Qed.

Section LoopOff.
Context `{Env, CoordEnv}.

Lemma loopOff_cleanUp id : respects loopOff (cleanUpTransaction id).
Proof.
  unfold cleanUpTransaction, removeTransactionFromPool. apply respects_bind; [apply _|apply respects_gets, _|intros [t|]; [|apply respects_ret, _]].
  repeat (apply respects_bind; [apply _| |intros ?]); first [apply loopOff_onWorld | apply respects_modify; intros ?; by unfold loopOff].
Qed.

Lemma specialActions_loopOff action event : action ∈ specialActions -> respects loopOff (action event).
Proof.
  intros Hin. unfold specialActions in Hin.
  repeat (apply elem_of_cons in Hin as [->|Hin]); [..|by inversion Hin].
  all: lazymatch goal with |- respects _ (?a _) =>
         let rec go t := lazymatch t with ?f _ => go f | _ => unfold t end in go a end.
  all: try match goal with |- respects _ (match ?e with _ => _ end) => is_var e; destruct e;
             try solve [apply respects_crash, _ | apply respects_ret, _] end.
  all: unfold addToDelegatedTransactions, addTransactionToBackOfPool, selectNextTransactionToAssemble,
    popNextPooledTransaction, clearAssembly, beginEndorsement, onFields, recordOriginatorActivity, stopDispatchLoop.
  all: repeat first
    [ apply loopOff_onWorld | apply loopOff_cleanUp | apply respects_ret, _ | apply respects_gets, _ | apply respects_throw, _
    | apply respects_liftR, _
    | lazymatch goal with
      | |- respects _ (mbind _ _) => apply respects_bind; [apply _| |intros ?]
      | |- respects _ (for_each _ _) => apply respects_for_each; [apply _|intros ? _]
      | |- respects _ (sendC _) => intros ?; unfold sendC, loopOff; by destruct (cenv_transport _ _)
      end
    | apply respects_modify; intros ?; unfold loopOff; by repeat case_match
    | match goal with |- respects _ (match ?x with _ => _ end) => destruct x end
    | match goal with |- respects _ (if ?x then _ else _) => destruct x end
    | intros ?; unfold loopOff; by repeat case_match ].
Qed.

(** Every action but the one that starts it. *)
Lemma coordActions_loopOff action event :
  action ∈ coordActions -> action = action_StartDispatchLoop \/ respects loopOff (action event).
Proof.
  intros [Hm|[Hs|Hs]]%coordActions_split; [right|right; by apply specialActions_loopOff|by left].
  intros c. destruct (mildActions_mild _ event Hm c). unfold loopOff. congruence.
Qed.
End LoopOff.

(** ** The abstract table of states *)

(** The states a coordinator may go to from [s] on an event of type [ty].  A handler that lists a
    state twice does so for two conditions. *)
Definition coordNextStates (s : CoordinatorState) (ty : CoordinatorEventType) : list CoordinatorState :=
  let closing := [CoordinatorState_Closing_Flush; CoordinatorState_Closing] in
  let backOff := CoordinatorState_Observing :: closing in
  match s, ty with
  | CoordinatorState_Initial, CEvent_CoordinatorCreated => [CoordinatorState_Idle]
  | CoordinatorState_Idle, (CEvent_HeartbeatReceived | CEvent_EndorsementRequestReceived) => [CoordinatorState_Observing]
  | CoordinatorState_Idle, CEvent_TransactionsDelegated => [CoordinatorState_Active]
  | CoordinatorState_Observing, CEvent_HeartbeatInterval => [CoordinatorState_Idle]
  | CoordinatorState_Observing, CEvent_TransactionsDelegated => [CoordinatorState_Elect]
  | CoordinatorState_Elect, CEvent_StateTimeoutInterval => [CoordinatorState_Active]
  | CoordinatorState_Elect, CEvent_HeartbeatReceived => backOff ++ [CoordinatorState_Prepared; CoordinatorState_Active]
  | CoordinatorState_Prepared, CEvent_HeartbeatInterval => [CoordinatorState_Active]
  | CoordinatorState_Prepared, CEvent_HeartbeatReceived => CoordinatorState_Active :: backOff
  | (CoordinatorState_Elect | CoordinatorState_Prepared), CEvent_EndorsementRequestReceived => backOff
  | CoordinatorState_Active, CEvent_HeartbeatInterval => [CoordinatorState_Idle]
  | CoordinatorState_Active, CEvent_EpochBoundaryReached => [CoordinatorState_Active_Flush]
  | CoordinatorState_Active, (CEvent_HeartbeatReceived | CEvent_EndorsementRequestReceived) => closing
  | CoordinatorState_Active_Flush, (CEvent_HeartbeatReceived | CEvent_EndorsementRequestReceived) =>
      [CoordinatorState_Closing_Flush]
  | CoordinatorState_Active_Flush, CEvent_TransactionStateTransition => [CoordinatorState_Active]
  | (CoordinatorState_Elect | CoordinatorState_Prepared | CoordinatorState_Active | CoordinatorState_Active_Flush),
      CEvent_HandoverRequest => closing
  | CoordinatorState_Closing_Flush, CEvent_TransactionStateTransition => [CoordinatorState_Closing]
  | CoordinatorState_Closing_Flush, CEvent_TransactionsDelegated => [CoordinatorState_Elect]
  | CoordinatorState_Closing, CEvent_HeartbeatInterval => [CoordinatorState_Idle; CoordinatorState_Observing]
  | CoordinatorState_Closing, CEvent_TransactionsDelegated => [CoordinatorState_Elect; CoordinatorState_Active]
  | _, _ => []
  end.

Section Lifecycle.
Context `{Env, CoordEnv}.

Lemma coord_targets s ty : targets coordStateDefinitionsMap s ty = coordNextStates s ty.
Proof. destruct s, ty; reflexivity. Qed.

Lemma coord_actionsKeepState : actionsKeepState coordEntity coordStateDefinitionsMap (Some onStateTransition).
Proof.
  split; [|by intros cb from to event c [= <-]].
  intros rule event Hr c. pose proof (coordActions_stay _ event (coord_defined_rule_in _ Hr) c) as [Hm _ _ _ _ _].
  unfold sameState, GetCurrentState. simpl. by rewrite Hm.
Qed.
End Lifecycle.
