(* ===== verification/CoordWf.v ===== *)
(** * The invariant of the coordinator's own data

    The pool, the ids, the limit on transactions and the endorsements in flight, kept by every action
    of the table.

    Sources: coordinator/coordinating.go, coordinator/endorsing.go, coordinator/coordinator.go. *)

From S2P Require Import Prelude StateMachine Identity Selection DependencyTracker StateVisibility Grapher StateView.
From S2P Require Import TxTypes CoordTypes World TxActions TxMachine TxPropagation DispatchLoop.
From S2P Require Import CoordWorld CoordActions CoordEndorse CoordMachine CoordInvariants.
Open Scope list_scope.

(** Transactions are filed under their id, there are no more of them than the limit, and between
    events no transaction's lock is held. *)
Record world_wf (conf : CoordConfig) (w : World) : Prop := MkWorldWf {
  wf_ids : map_Forall (fun id t => pt_ID (pt t) = id) (transactionsByID w);
  wf_limit : (Z.of_nat (size (transactionsByID w)) <= Z.max 0 (conf_maxInflightTransactions conf))%Z;
  wf_locks : heldLocks w = ∅
}.

(** The pool lists known transactions, each once; a free slot names no transaction; the keys of the
    endorsements in flight are those of the goroutines that run. *)
Record coord_wf (c : Coord) : Prop := MkCoordWf {
  wf_world : world_wf (co_conf c) (co_w c);
  wf_pool_NoDup : NoDup (co_pooledTransactions c);
  wf_pool_known : Forall (fun id => id ∈ dom (transactionsByID (co_w c))) (co_pooledTransactions c);
  wf_slot : co_assemblyInFlight c = false -> co_assemblingTxID c = uuid_Nil;
  wf_jobs_NoDup : NoDup (err_IdempotencyKey <$> co_endorseJobs c);
  wf_keys : co_inFlightEndorsements c = list_to_set (err_IdempotencyKey <$> co_endorseJobs c)
}.

(** ** Transactions *)

Lemma evolves_dom w w' : evolves w w' -> dom (transactionsByID w') = dom (transactionsByID w).
Proof.
  intros [_ Hw]. apply set_eq. intros j. rewrite !elem_of_dom. specialize (Hw j).
  destruct (transactionsByID w !! j), (transactionsByID w' !! j); naive_solver.
Qed.

Lemma evolves_size w w' : evolves w w' -> size (transactionsByID w') = size (transactionsByID w).
Proof. intros Hw. rewrite <- !size_dom. by rewrite (evolves_dom w w'). Qed.

Lemma evolves_world_wf conf w w' : evolves w w' -> world_wf conf w -> world_wf conf w'.
Proof.
  intros He [Hi Hm Hl]. split; [|by rewrite (evolves_size w w')|by rewrite (proj1 He)].
  intros j t' Ht'. pose proof (proj2 He j) as Hj. rewrite Ht' in Hj.
  destruct (transactionsByID w !! j) as [t|] eqn:Ht; [|done]. destruct Hj as ([-> _] & _). by apply Hi.
Qed.

(** The transactions of [w'] include those of [w], and the invariant is kept. *)
Definition wfGrows (conf : CoordConfig) (w w' : World) : Prop :=
  (world_wf conf w -> world_wf conf w') /\ dom (transactionsByID w) ⊆ dom (transactionsByID w').

#[export] Instance wfGrows_preorder conf : PreOrder (wfGrows conf).
Proof. split; [by intros w|]. intros w1 w2 w3 [] []. split; [auto|by etrans]. Qed.

Lemma evolves_wfGrows conf w w' : evolves w w' -> wfGrows conf w w'.
Proof. intros He. split; [by apply evolves_world_wf|]. by rewrite (evolves_dom w w'). Qed.

Section Delegation.
Context `{Env, CoordEnv}.

Lemma addPreassemblyDependency_frame prev id w :
  transactionsByID (addPreassemblyDependency prev id w) = transactionsByID w /\
  heldLocks (addPreassemblyDependency prev id w) = heldLocks w.
Proof. unfold addPreassemblyDependency. by repeat case_match. Qed.

(** The memory once the transaction is recorded, and what handing it its first event does. *)
Lemma admit_evolves cfg o node prev p w :
  exists w1 t, evolves w1 (admitTransaction cfg o node prev p w).1 /\ pt t = p /\
    transactionsByID w1 = <[pt_ID p := t]> (transactionsByID w) /\ heldLocks w1 = heldLocks w.
Proof.
  unfold admitTransaction, newTransaction. cbv zeta.
  destruct (addPreassemblyDependency_frame prev (pt_ID p) w) as [Ht Hl].
  eexists _, _. split; [apply handleEvent_evolves|]. split; [|simpl; by rewrite Ht]. done.
Qed.

Lemma delegateOne_grows conf o node d p : respects (wfGrows conf) (delegateOne conf o node d p).
Proof.
  intros w. unfold delegateOne. destruct (dl_error d); [done|].
  destruct (transactionsByID w !! pt_ID p) eqn:Hnew; [done|].
  destruct (_ <=? _)%Z eqn:Hlim; [done|]. apply Z.leb_gt in Hlim.
  destruct (admit_evolves (transactionConfig conf) o node (dl_previousTransaction d) p w) as (w1 & t & He & Hp & Ht1 & Hl1).
  assert (Hg : wfGrows conf w w1).
  { split; [|rewrite Ht1; set_solver]. intros [Hi Hm Hl]. split; [| |by rewrite Hl1].
    - rewrite Ht1. apply map_Forall_insert_2; [by rewrite Hp|done].
    - rewrite Ht1, map_size_insert_None by done. lia. }
  destruct (admitTransaction _ _ _ _ _ _) as [w2 [[]|e|x]]; simpl in *.
  1, 3: etrans; [exact Hg|by apply evolves_wfGrows].
  pose proof (evolves_dom _ _ He) as Hdom. split.
  - intros Hw. destruct (evolves_world_wf conf _ _ He (proj1 Hg Hw)) as [Hi Hm Hl]. split; [..|done].
    + by apply map_Forall_delete.
    + etrans; [|exact Hm]. apply Nat2Z.inj_le. simpl. apply map_subseteq_size, delete_subseteq.
  - simpl. rewrite dom_delete_L, Hdom, Ht1, dom_insert_L. apply not_elem_of_dom in Hnew. set_solver.
Qed.

Lemma delegateAll_grows conf o node d l : respects (wfGrows conf) (delegateAll conf o node d l).
Proof.
  revert d. induction l as [|p l IH]; intros d; simpl; [apply respects_ret, _|].
  apply respects_bind; [apply _|apply delegateOne_grows|intros d'; apply IH].
Qed.
End Delegation.

(** ** The actions *)

Definition wfKept (c c' : Coord) : Prop := coord_wf c -> coord_wf c'.

#[export] Instance wfKept_preorder : PreOrder wfKept.
Proof. unfold wfKept. split; [by intros c|]. intros c1 c2 c3 ??. auto. Qed.

Lemma mild_wfKept c c' : mild c c' -> wfKept c c'.
Proof.
  intros [[_ _ _ Hconf _ _] He Hp Hf Ha Hk Hj _] [Hw Hn Hpk Hs Hjn Hkeys]. split; rewrite ?Hconf, ?Hp, ?Hf, ?Ha, ?Hk, ?Hj; try done.
  - by apply (evolves_world_wf _ (co_w c)).
  - by rewrite (evolves_dom (co_w c)).
Qed.

Lemma removeFirst_sublist id l : removeFirst id l `sublist_of` l.
Proof. induction l as [|x l IH]; simpl; [done|]. destruct (N.eqb x id); by constructor. Qed.

Lemma removeFirst_absent id l : NoDup l -> id ∉ removeFirst id l.
Proof.
  induction 1 as [|x l Hx Hl IH]; simpl; [set_solver|].
  destruct (N.eqb_spec x id) as [->|Hne]; [done|]. set_solver.
Qed.

Section Actions.
Context `{Env, CoordEnv}.

(** What cleaning one transaction up does to the memory. *)
Lemma cleanUpTransaction_mem id c :
  exists w', (cleanUpTransaction id c) =
    (match transactionsByID (co_w c) !! id with
     | Some _ => c <| co_w := w' |> <| co_pooledTransactions ::= removeFirst id |>
     | None => c
     end, Ok tt) /\
    transactionsByID w' = delete id (transactionsByID (co_w c)) /\ heldLocks w' = heldLocks (co_w c) /\ w_c w' = w_c (co_w c).
Proof.
  unfold cleanUpTransaction, gets. unfold mbind at 1, M_bind at 1.
  destruct (transactionsByID (co_w c) !! id) eqn:Hid.
  - eexists. split; [reflexivity|]. done.
  - exists ((co_w c) <| transactionsByID ::= delete id |>). done.
Qed.

Lemma cleanUpTransaction_wf id : respects wfKept (cleanUpTransaction id).
Proof.
  intros c [Hw Hn Hpk Hs Hjn Hkeys]. destruct (cleanUpTransaction_mem id c) as (w' & -> & Ht & Hl & _). simpl.
  destruct (transactionsByID (co_w c) !! id); [|by split]. split; try done; simpl.
  - destruct Hw as [Hi Hm Hlk]. split; [| |by rewrite Hl].
    + rewrite Ht. by apply map_Forall_delete.
    + rewrite Ht. etrans; [|exact Hm]. apply Nat2Z.inj_le, map_subseteq_size, delete_subseteq.
  - eapply sublist_NoDup; [exact Hn|apply removeFirst_sublist].
  - apply Forall_forall. intros j Hj. rewrite Ht, dom_delete_L.
    assert (j <> id) by (intros ->; by apply (removeFirst_absent id (co_pooledTransactions c))).
    apply elem_of_difference. split; [|set_solver]. rewrite Forall_forall in Hpk. apply Hpk.
    by apply (sublist_subseteq (removeFirst id (co_pooledTransactions c)) _ (removeFirst_sublist _ _)).
Qed.

Lemma clearAssembly_wf : respects wfKept clearAssembly.
Proof. intros c [Hw Hn Hpk Hs Hjn Hkeys]. by split. Qed.

Lemma wfKept_mild {A} (m : M Coord A) : respects mild m -> respects wfKept m.
Proof. intros Hm c. apply mild_wfKept, Hm. Qed.

Lemma select_wf : respects wfKept selectNextTransactionToAssemble.
Proof.
  unfold selectNextTransactionToAssemble. apply respects_bind; [apply _| |].
  - intros c Hc. unfold popNextPooledTransaction. destruct (co_pooledTransactions c) as [|id rest] eqn:E; [exact Hc|].
    destruct Hc as [Hw Hn Hpk Hs Hjn Hkeys]. rewrite E in Hn, Hpk. apply NoDup_cons in Hn as [_ Hn]. apply Forall_cons in Hpk as [_ Hpk]. by split.
  - intros [id|]; [|apply respects_ret, _]. apply respects_bind; [apply _| |intros _].
    + apply wfKept_mild, mild_onWorld, worldMild_txHandleEvent.
    + intros c [Hw Hn Hpk Hs Hjn Hkeys]. by split.
Qed.

Lemma pool_wf tx from to : respects wfKept (action_PoolTransaction (TransactionStateTransitionEvent tx from to)).
Proof.
  intros c [Hw Hn Hpk Hs Hjn Hkeys]. unfold action_PoolTransaction, gets, addTransactionToBackOfPool, modify.
  unfold mbind, M_bind. destruct (transactionsByID (co_w c) !! tx) eqn:Htx; [|by split]. simpl.
  case_bool_decide as Hin; [by split|]. split; try done; simpl.
  - apply NoDup_app. split_and!; [done| |apply NoDup_singleton]. set_solver.
  - apply Forall_app. split; [done|]. apply Forall_singleton, elem_of_dom. eauto.
Qed.

Lemma endorse_wf e : respects wfKept (action_HandleEndorsementRequest (EndorsementRequestReceivedEvent e)).
Proof.
  intros c [Hw Hn Hpk Hs Hjn Hkeys]. unfold action_HandleEndorsementRequest, beginEndorsement. destruct (String.eqb _ _); [by split|].
  unfold mbind, M_bind. case_bool_decide as Hin; [by split|]. rewrite Hkeys, elem_of_list_to_set in Hin. split; try done; simpl.
  - rewrite fmap_app. apply NoDup_app. split_and!; [done| |apply NoDup_singleton]. set_solver.
  - rewrite fmap_app, list_to_set_app_L, Hkeys. simpl. set_solver.
Qed.

Lemma delegateAll_wf o node d l : respects wfKept (fun c => onWorld (delegateAll (co_conf c) o node d l) c).
Proof.
  intros c [Hw Hn Hpk Hs Hjn Hkeys]. pose proof (delegateAll_grows (co_conf c) o node d l (co_w c)) as [Hg Hd].
  unfold onWorld. destruct (delegateAll _ _ _ _ _ _) as [w' r]. simpl in *. split; try done; simpl; [by apply Hg|].
  eapply Forall_impl; [exact Hpk|]. intros j Hj. by apply Hd.
Qed.

Lemma addToDelegatedTransactions_wf o l d : respects wfKept (addToDelegatedTransactions o l d).
Proof.
  intros c. unfold addToDelegatedTransactions, gets, liftR. unfold mbind at 1, M_bind at 1. unfold mbind at 1, M_bind at 1.
  destruct (Validate o EmptyString false) as [v|e|x]; [|by intros ?..].
  pose proof (delegateAll_wf o v.2 (MkDelegating None [] 0 0 0 None) l c) as Hd. cbv beta in Hd.
  unfold mbind at 1, M_bind at 1. destruct (onWorld _ c) as [c1 [d1|e|x]]; [|exact Hd..]. etrans; [exact Hd|].
  apply wfKept_mild. clear. apply respects_bind; [apply _|apply mild_sendC|intros _].
  destruct (0 <? _)%nat; [apply respects_throw, _|]. destruct (dl_error d1); [apply respects_throw, _|apply respects_ret, _].
Qed.

(** Every action keeps the invariant. *)
Lemma specialActions_wf action event : action ∈ specialActions -> respects wfKept (action event).
Proof.
  intros Hin. unfold specialActions in Hin. split_members.
  - apply respects_bind; [apply _|apply respects_gets, _|intros txns].
    apply respects_bind; [apply _| |intros _].
    { apply respects_for_each; [apply _|]. intros id _. apply cleanUpTransaction_wf. }
    apply respects_bind; [apply _|apply clearAssembly_wf|intros _]. apply wfKept_mild, mild_onWorld, worldMild_modify. by intros [].
  - destruct event; try apply respects_crash, _. apply cleanUpTransaction_wf.
  - destruct event as [| | | | | | | | | | |from [s|]]; try apply respects_crash, _; [|apply respects_ret, _].
    apply respects_for_each; [apply _|]. intros id _. apply cleanUpTransaction_wf.
  - destruct event; try apply respects_crash, _. apply respects_bind; [apply _|apply wfKept_mild, mild_recordOriginatorActivity|].
    intros _. apply addToDelegatedTransactions_wf.
  - destruct event; try apply respects_crash, _. apply pool_wf.
  - apply select_wf.
  - apply clearAssembly_wf.
  - destruct event; try apply respects_crash, _. apply endorse_wf.
  - intros c [Hw Hn Hpk Hs Hjn Hkeys]. by split.
Qed.

Lemma coordActions_wf action event : action ∈ coordActions -> respects wfKept (action event).
Proof.
  intros [Hm|[Hs| ->]]%coordActions_split; [by apply wfKept_mild, mildActions_mild|by apply specialActions_wf|].
  intros c [Hw Hn Hpk Hs Hjn Hkeys]. unfold action_StartDispatchLoop, startDispatchLoop, modify. simpl. case_match; by split.
Qed.

Lemma dispatch_wf event c : coord_wf c ->
  coord_wf (dispatchEvent coordEntity coordStateDefinitionsMap (Some onStateTransition) event c).1.
Proof.
  intros Hc. apply (dispatchEvent_keeps coordEntity coordStateDefinitionsMap (Some onStateTransition) coord_wf (fun _ => True)); try done.
  - intros rule Hr c0 Hc0. split; [|done]. by apply (coordActions_wf _ event (coord_defined_rule_in _ Hr)).
  - intros s c0 [Hw Hn Hpk Hs Hjn Hkeys]. by split.
  - intros cb from to c0 [= <-] [Hw Hn Hpk Hs Hjn Hkeys]. by split.
Qed.

(** ** The goroutines *)

Lemma handleEndorsementRequest_mild fuel cancelledAt e : respects mild (handleEndorsementRequest fuel cancelledAt e).
Proof.
  unfold handleEndorsementRequest. apply respects_bind; [apply _|apply respects_gets, _|intros c0].
  destruct (retryDo _ _ _ _ _); [apply respects_log_error, mild_sendC..|apply respects_crash, _].
Qed.

Lemma delete_keys {A} `{Countable K} (f : A -> K) l i x :
  NoDup (f <$> l) -> l !! i = Some x ->
  NoDup (f <$> delete i l) /\ (list_to_set (f <$> delete i l) : gset K) = list_to_set (f <$> l) ∖ {[f x]}.
Proof.
  intros Hn Hi. rewrite delete_take_drop. pose proof (take_drop_middle l i x Hi) as Hl.
  set (before := take i l) in *. set (after := drop (S i) l) in *. clearbody before after. clear Hi. subst l. rewrite fmap_app, fmap_cons in Hn. apply NoDup_app in Hn as (Hn1 & Hd & Hn2).
  apply NoDup_cons in Hn2 as [Hx Hn2]. rewrite !fmap_app, fmap_cons. split.
  - apply NoDup_app. split_and!; [done| |done]. intros y Hy Hy'. apply (Hd y Hy). by right.
  - assert (Hx' : f x ∉ f <$> before) by (intros Hin; apply (Hd _ Hin); left).
    rewrite !list_to_set_app_L. cbn [list_to_set]. set_solver.
Qed.

Lemma finishEndorsement_wf fuel cancelledAt i : respects wfKept (finishEndorsement fuel cancelledAt i).
Proof.
  intros c. unfold finishEndorsement, gets. unfold mbind at 1, M_bind at 1.
  destruct (co_endorseJobs c !! i) as [e|] eqn:Hi; [|by intros ?].
  pose proof (handleEndorsementRequest_mild fuel cancelledAt e c) as Hm. unfold mbind at 1, M_bind at 1.
  destruct (handleEndorsementRequest _ _ _ c) as [c1 [[]|x|x]]; [|by apply mild_wfKept..].
  intros Hc. pose proof (mild_jobs _ _ Hm) as Hj. destruct (mild_wfKept _ _ Hm Hc) as [Hw Hn Hpk Hs Hjn Hkeys].
  cbn [fst] in *. rewrite Hj in Hjn, Hkeys.
  destruct (delete_keys err_IdempotencyKey (co_endorseJobs c) i e Hjn Hi) as [Hjn' Hkeys'].
  split; try done. simpl. by rewrite Hkeys, Hkeys'.
Qed.

(** A goroutine leaves the machine, its lock and the dispatch loop alone. *)
Definition offLoop (c c' : Coord) : Prop :=
  co_machine c' = co_machine c /\ co_locked c' = co_locked c /\ co_dispatchLoop c' = co_dispatchLoop c.

Lemma finishEndorsement_offLoop fuel cancelledAt i : respects offLoop (finishEndorsement fuel cancelledAt i).
Proof.
  intros c. unfold finishEndorsement, gets. unfold mbind at 1, M_bind at 1.
  destruct (co_endorseJobs c !! i) as [e|]; [|by split_and!].
  destruct (handleEndorsementRequest_mild fuel cancelledAt e c) as [[Hm Hl _ _ _ _] _ _ _ _ _ _ Hlp].
  unfold mbind at 1, M_bind at 1. destruct (handleEndorsementRequest _ _ _ c) as [c1 [[]|x|x]]; by split_and!.
Qed.

(** ** The dispatch loop *)

Lemma commitDispatch_evolves fuel acc qd : evolves acc.1 (commitDispatch fuel acc qd).1.
Proof. destruct acc as [w l], qd as [id pd]. simpl. apply handleEvent_evolves. Qed.

Lemma dispatchLoopStep_evolves ahead batchSize fuel w w' : dispatchLoopStep ahead batchSize fuel w = Some w' -> evolves w w'.
Proof.
  unfold dispatchLoopStep. destruct (c_dispatchQueue (w_c w)) as [|qd rest]; [done|].
  destruct (awaitDispatchAheadCapacity ahead w) as [capacity|]; [|done]. unfold pullDispatchBatch, dispatchBatch.
  set (w0 := field_set _ _ (field_set _ _ w)). set (batch := qd :: _). intros [= <-].
  assert (Hf : forall acc, evolves acc.1 (foldl (commitDispatch fuel) acc batch).1).
  { generalize batch. clear. intros batch. induction batch as [|qd batch IH]; intros acc; [done|].
    simpl. etrans; [apply commitDispatch_evolves|apply IH]. }
  specialize (Hf (w0, [])). destruct (foldl _ _ _) as [w1 l]. etrans; [|etrans; [exact Hf|]]; by apply evolves_frame.
Qed.
End Actions.
