(* ===== verification/CoordRuns.v ===== *)
(** * Runs of a coordinator

    The steps a coordinator takes, as a relation: its event loop, its dispatch loop, its timers, the
    goroutines it started, and the world around it.  What holds of the memory between any two steps
    is proved by induction on runs.

    Sources: coordinator/coordinator.go, coordinator/state_machine.go, coordinator/dispatch_loop.go. *)

From S2P Require Import Prelude StateMachine Identity Selection DependencyTracker StateVisibility Grapher StateView.
From S2P Require Import TxTypes CoordTypes World TxActions TxMachine TxPropagation DispatchLoop Sample.
From S2P Require Import CoordWorld CoordActions CoordEndorse CoordMachine CoordSample CoordInvariants CoordWf.
Open Scope list_scope.

Definition coordState (c : Coord) : CoordinatorState := currentState (co_machine c).

(** A panic ends the process. *)
Definition survived {A} (r : res A) : Prop := forall x, r <> Crash x.

Section Steps.
Context `{Env, CoordEnv}.

(** Other goroutines, other nodes, the clock and the chain move between events. *)
Inductive background_step : Coord -> Coord -> Prop :=
| step_start c c' : Start c = (c', Ok tt) -> background_step c c'
| step_arrives e c : background_step c (c <| co_events ::= fun q => q ++ [e] |>)
| step_dispatch fuel c c' : coordDispatchStep fuel c = Some c' -> background_step c c'
| step_timer timer c : background_step c (fireCoordTimer timer c)
| step_txTimer timer c : background_step c (c <| co_w ::= fireTimer timer |>)
| step_prepared prepareID result c : background_step c (c <| co_w ::= finishPrepare prepareID result |>)
| step_endorsed fuel cancelledAt i c c' r :
    finishEndorsement fuel cancelledAt i c = (c', r) -> survived r -> background_step c c'
| step_environment now height c :
    background_step c (c <| co_w ::= fun w => w <| w_now := now |> <| w_liveBlockHeight := height |> |>).

(** The loop may take the head of either queue. *)
Inductive coord_step : Coord -> Coord -> Prop :=
| step_event e q c c' r :
    co_events c = e :: q -> coordinatorProcessEvent e (c <| co_events := q |>) = (c', r) -> survived r -> coord_step c c'
| step_internal e c1 c c' r :
    nextInternal c = Some (e, c1) -> coordinatorProcessEvent e c1 = (c', r) -> survived r -> coord_step c c'
| step_background c c' : background_step c c' -> coord_step c c'.

(** What one event does to the coordinator's state. *)
Lemma preProcess_stays event : respects stays (preProcessEvent event).
Proof.
  intros c. destruct event as [id e| | | | | | | | | | |from s]; try done. unfold preProcessEvent.
  pose proof (respects_bind stays (propagateEventToTransaction id e) (fun _ => mret true)) as Hb.
  apply Hb; [|intros; apply respects_ret, _]. apply respects_onWorld. intros w.
  destruct (transactionsByID w !! id); [|done]. apply worldStays_txHandleEvent.
Qed.

(** The coordinator handles an event itself with its lock free. *)
Lemma coordinatorProcessEvent_cases event c :
  co_locked c = false ->
  let '(c1, r1) := preProcessEvent event (c <| co_locked := true |>) in
  let out := coordinatorProcessEvent event c in
  co_locked c1 = true /\
  match r1 with
  | Ok true => out = (c1 <| co_locked := false |>, Ok tt)
  | Ok false => c1 = c <| co_locked := true |> /\
      exists c2 r2, dispatchEvent coordEntity coordStateDefinitionsMap (Some onStateTransition) event (c <| co_locked := true |>) = (c2, r2)
                    /\ out = (c2 <| co_locked := false |>, r2)
  | Err e => out = (c1 <| co_locked := false |>, Err e)
  | Crash x => out = (c1 <| co_locked := false |>, Crash x)
  end.
Proof.
  intros Hl. pose proof (preProcess_stays event (c <| co_locked := true |>)) as [_ Hlk _ _ _ _].
  destruct (preProcessEvent event (c <| co_locked := true |>)) as [c1 r1] eqn:E1. simpl in Hlk. split; [done|].
  unfold coordinatorProcessEvent, withCoordLock. unfold mbind, M_bind. rewrite Hl, E1.
  destruct r1 as [[|]| |]; [done| |done..].
  assert (Hc : c1 = c <| co_locked := true |>).
  { destruct event; simpl in E1; unfold mbind, M_bind, mret, M_ret in E1; try (by injection E1 as <-).
    destruct (propagateEventToTransaction _ _ _) as [? [[]| |]]; discriminate. }
  split; [done|]. subst c1. unfold ProcessEvent. cbn [ent_lock coordEntity].
  replace (c <| co_locked := true |> <| co_locked := false |> <| co_locked := true |>) with (c <| co_locked := true |>) by done.
  replace (co_locked (c <| co_locked := true |> <| co_locked := false |>)) with false by done.
  destruct (dispatchEvent _ _ _ _ _) as [c2 r2]. by exists c2, r2.
Qed.

(** ** The states of a coordinator *)

Lemma step_state event c :
  co_locked c = false ->
  let c' := (coordinatorProcessEvent event c).1 in
  coordState c' = coordState c \/ coordState c' ∈ coordNextStates (coordState c) (CoordinatorType_of event).
Proof.
  intros Hl. pose proof (coordinatorProcessEvent_cases event c Hl) as Hp.
  pose proof (preProcess_stays event (c <| co_locked := true |>)) as [Hm _ _ _ _ _].
  destruct (preProcessEvent event _) as [c1 r1]. destruct Hp as [_ Hp]. simpl in Hm.
  destruct r1 as [[|]| |]; try (left; rewrite Hp; unfold coordState; simpl; by rewrite Hm).
  destruct Hp as (_ & c2 & r2 & Hd & Hp). rewrite Hp. simpl.
  pose proof (processEvent_edge coordEntity coordStateDefinitionsMap (Some onStateTransition) event c
    coord_actionsKeepState) as Hs. cbv zeta in Hs.
  unfold ProcessEvent in Hs. cbn [ent_lock coordEntity] in Hs. rewrite Hl in Hs.
  change (dispatchEvent (MkEntity _ _ _ _ _ _)) with (dispatchEvent coordEntity) in Hs.
  rewrite Hd in Hs. unfold GetCurrentState in Hs. simpl in Hs.
  destruct Hs as [Hs|Hs]; [by left|right]. apply edge_targets in Hs. by rewrite coord_targets in Hs.
Qed.

(** ** Only an active coordinator dispatches *)

Definition dispatchesOnlyIfActive (c : Coord) : Prop := co_dispatchLoop c = true -> coordState c = CoordinatorState_Active.

(** Where the loop is not started. *)
Lemma handler_rules_loopOff s ty h rule event :
  s <> CoordinatorState_Active -> handles coordStateDefinitionsMap s ty h -> rule ∈ eh_Actions h ->
  respects loopOff (ar_Action rule event).
Proof.
  intros Hs (d & hs & Hd & He & Hh) Hr.
  assert (Hin : ar_Action rule ∈ mildActions \/ ar_Action rule ∈ specialActions).
  { destruct s; try done; try discriminate Hd; injection Hd as <-; destruct ty; try discriminate He; injection He as <-;
      cbn in Hh; unfold coordinateTransition in Hh; split_members; cbn in Hr; split_members;
      unfold mildActions, specialActions; cbn [ar_Action Act ActIf];
      first [left; list_member | right; list_member]. }
  destruct Hin as [Hm|Hm]; [|by apply specialActions_loopOff].
  intros c. destruct (mildActions_mild _ event Hm c). unfold loopOff. congruence.
Qed.

(** The actions of a transition, on leaving a state, and on entering any state but Active. *)
Lemma transition_rules_loopOff s ty h tr rule event :
  handles coordStateDefinitionsMap s ty h -> tr ∈ eh_Transitions h -> rule ∈ tr_Actions tr ->
  respects loopOff (ar_Action rule event).
Proof.
  intros (d & hs & Hd & He & Hh) Htr Hr.
  assert (Hin : ar_Action rule ∈ mildActions \/ ar_Action rule ∈ specialActions).
  { destruct s; try discriminate Hd; injection Hd as <-; destruct ty; try discriminate He; injection He as <-;
      cbn in Hh; unfold coordinateTransition in Hh; split_members; cbn in Htr; unfold backOff, stepDown in Htr; split_members;
      cbn in Hr; split_members;
      unfold mildActions, specialActions; cbn [ar_Action Act ActIf];
      first [left; list_member | right; list_member]. }
  destruct Hin as [Hm|Hm]; [|by apply specialActions_loopOff].
  intros c. destruct (mildActions_mild _ event Hm c). unfold loopOff. congruence.
Qed.

Lemma exit_rules s : onTransitionFrom coordStateDefinitionsMap s =
  match s with CoordinatorState_Active => [Act action_StopDispatchLoop] | _ => [] end.
Proof. by destruct s. Qed.

Lemma exit_rules_loopOff s event : respects loopOff (executeActionRules event (onTransitionFrom coordStateDefinitionsMap s)).
Proof.
  apply executeActionRules_respects; [apply _|]. intros rule Hr. rewrite exit_rules in Hr.
  destruct s; split_members. apply specialActions_loopOff. unfold specialActions. cbn [ar_Action Act]. list_member.
Qed.

Lemma entry_rules_loopOff s event :
  s <> CoordinatorState_Active -> respects loopOff (executeActionRules event (onTransitionTo coordStateDefinitionsMap s)).
Proof.
  intros Hs. apply executeActionRules_respects; [apply _|]. intros rule Hr.
  assert (Hm : ar_Action rule ∈ mildActions).
  { destruct s; try done; cbn in Hr; split_members; unfold mildActions; cbn [ar_Action Act]; list_member. }
  intros c. destruct (mildActions_mild _ event Hm c). unfold loopOff. congruence.
Qed.

(** The actions keep the state, besides. *)
Lemma defined_rule_state rule event : defined_rule coordStateDefinitionsMap rule ->
  respects (sameState coordEntity) (ar_Action rule event).
Proof. apply coord_actionsKeepState. Qed.

Definition idleLoop (c c' : Coord) : Prop := sameState coordEntity c c' /\ loopOff c c'.

#[local] Instance idleLoop_preorder : PreOrder idleLoop.
Proof.
  unfold idleLoop. split; [by intros c|]. intros c1 c2 c3 [] []. split; by etrans.
Qed.

Lemma rules_state s ty h tr event :
  handles coordStateDefinitionsMap s ty h -> tr ∈ eh_Transitions h ->
  respects (sameState coordEntity) (executeActionRules event (tr_Actions tr)).
Proof.
  intros Hh Htr. apply executeActionRules_respects; [apply _|]. intros rule Hr. apply defined_rule_state.
  right. exists s, ty, h. split; [done|]. right. eauto.
Qed.

Lemma entry_rules_state s event :
  respects (sameState coordEntity) (executeActionRules event (onTransitionTo coordStateDefinitionsMap s)).
Proof. apply executeActionRules_respects; [apply _|]. intros rule Hr. apply defined_rule_state. left. eauto. Qed.

Lemma exit_rules_state s event :
  respects (sameState coordEntity) (executeActionRules event (onTransitionFrom coordStateDefinitionsMap s)).
Proof. apply executeActionRules_respects; [apply _|]. intros rule Hr. apply defined_rule_state. left. eauto. Qed.

#[local] Abbreviation coordDispatch := (dispatchEvent coordEntity coordStateDefinitionsMap (Some onStateTransition)).
#[local] Abbreviation coordTake := (takeTransition coordEntity coordStateDefinitionsMap (Some onStateTransition)).

(** Leaving Active stops the loop, whatever the transition. *)
Lemma leave_active ty h tr event c :
  coordState c = CoordinatorState_Active -> handles coordStateDefinitionsMap CoordinatorState_Active ty h ->
  tr ∈ eh_Transitions h -> co_dispatchLoop (coordTake event tr c).1 = false.
Proof.
  intros Hs Hh Htr.
  assert (Hto : tr_To tr <> CoordinatorState_Active /\ tr_Actions tr = []).
  { destruct Hh as (d & hs & [= <-] & He & Hh). destruct ty; try discriminate He; injection He as <-.
    all: cbn in Hh; unfold coordinateTransition in Hh; split_members; cbn in Htr; unfold stepDown in Htr; split_members; by cbn. }
  destruct Hto as [Hto Hacts]. set (c1 := (enterState coordEntity (tr_To tr) event c) <| co_dispatchLoop := false |>).
  assert (Ht : coordTake event tr c
    = executeActionRules event (onTransitionTo coordStateDefinitionsMap (tr_To tr))
        (onStateTransition CoordinatorState_Active (tr_To tr) event c1)).
  { unfold takeTransition, gets, modify. unfold mbind at 1, M_bind at 1. rewrite Hacts.
    change (GetCurrentState coordEntity c) with (coordState c). by rewrite Hs. }
  rewrite Ht. apply not_true_is_false. intros Hl. by apply entry_rules_loopOff in Hl.
Qed.

Lemma take_idle s ty h tr event c :
  handles coordStateDefinitionsMap s ty h -> tr ∈ eh_Transitions h -> co_dispatchLoop c = false ->
  dispatchesOnlyIfActive (coordTake event tr c).1.
Proof.
  intros Hh Htr Hc.
  pose proof (takeTransition_run coordEntity coordStateDefinitionsMap (Some onStateTransition) idleLoop event tr c) as Hrun.
  destruct (coordTake event tr c) as [c' r]. destruct Hrun as (c1 & [Hst1 Hc1] & Hend).
  { apply respects_conj; [by apply (rules_state s ty h)|]. apply executeActionRules_respects; [apply _|].
    intros rule Hr. by apply (transition_rules_loopOff s ty h tr). }
  { apply respects_conj; [apply exit_rules_state|apply exit_rules_loopOff]. }
  assert (Hc1f : co_dispatchLoop c1 = false).
  { apply not_true_is_false. intros Hl. apply Hc1 in Hl. change (co_dispatchLoop c = true) in Hl. congruence. }
  destruct Hend as [[-> _]|(c2 & [= <-] & Hex)]; [intros Hl; simpl in Hl; congruence|].
  set (s1 := GetCurrentState coordEntity c1) in *. set (c2 := onStateTransition _ s1 event c1) in *.
  pose proof (entry_rules_state s1 event c2) as He. rewrite Hex in He. intros Hl.
  destruct (decide (s1 = CoordinatorState_Active)) as [Ha|Ha]; [exact (eq_trans He Ha)|].
  pose proof (entry_rules_loopOff s1 event Ha c2) as Hof. rewrite Hex in Hof. specialize (Hof Hl).
  change (co_dispatchLoop c1 = true) in Hof. congruence.
Qed.

Lemma dispatch_keeps_loop event c : dispatchesOnlyIfActive c -> dispatchesOnlyIfActive (coordDispatch event c).1.
Proof.
  intros Hc. destruct (decide (coordState c = CoordinatorState_Active)) as [Ha|Ha].
  - destruct (dispatch_stepped coordEntity coordStateDefinitionsMap (Some onStateTransition) (sameState coordEntity)
      defined_rule_state event c) as [Hs|(h & tr & c1 & Hh & Htr & _ & Hs & Ht)].
    + intros _. exact (eq_trans Hs Ha).
    + rewrite <- Ht. intros Hl. change (GetCurrentState coordEntity c) with (coordState c) in Hh. rewrite Ha in Hh.
      rewrite (leave_active _ h tr event c1 (eq_trans Hs Ha) Hh Htr) in Hl. done.
  - assert (Hf : co_dispatchLoop c = false). { apply not_true_is_false. intros Hl. by apply Ha, Hc. }
    destruct (dispatch_stepped_at coordEntity coordStateDefinitionsMap (Some onStateTransition) loopOff event c)
      as [Hs|(h & tr & c1 & Hh & Htr & _ & Hs & Ht)].
    { intros h rule Hh Hr. by apply (handler_rules_loopOff (coordState c) (CoordinatorType_of event) h). }
    + intros Hl. apply Hs in Hl. congruence.
    + rewrite <- Ht. apply (take_idle _ _ h tr event c1 Hh Htr). apply not_true_is_false. intros Hl. apply Hs in Hl. congruence.
Qed.

(** ** What holds between steps *)

Record coord_ok (c : Coord) : Prop := MkCoordOk {
  ok_unlocked : co_locked c = false;
  ok_loop : dispatchesOnlyIfActive c;
  ok_wf : coord_wf c
}.

Lemma mild_loop_kept c c' : mild c c' -> dispatchesOnlyIfActive c -> dispatchesOnlyIfActive c'.
Proof. intros [[Hm _ _ _ _ _] _ _ _ _ _ _ Hl] Hc. unfold dispatchesOnlyIfActive, coordState. rewrite Hl, Hm. apply Hc. Qed.

Lemma mild_ok c c' : mild c c' -> coord_ok c -> coord_ok c'.
Proof.
  intros Hm [Hu Hl Hw]. split; [by rewrite (stays_locked _ _ (mild_stays _ _ Hm))|by apply (mild_loop_kept c)|by apply (mild_wfKept c)].
Qed.

Lemma preProcess_mild event : respects mild (preProcessEvent event).
Proof.
  intros c. destruct event as [id e| | | | | | | | | | |from s]; try done. unfold preProcessEvent.
  pose proof (respects_bind mild (propagateEventToTransaction id e) (fun _ => mret true)) as Hb.
  apply Hb; [|intros; apply respects_ret, _]. apply mild_onWorld. intros w.
  destruct (transactionsByID w !! id); [|done]. apply worldMild_txHandleEvent.
Qed.

Lemma process_ok event c : coord_ok c -> coord_ok (coordinatorProcessEvent event c).1.
Proof.
  intros [Hu Hl Hw]. pose proof (coordinatorProcessEvent_cases event c Hu) as Hp.
  pose proof (preProcess_mild event (c <| co_locked := true |>)) as Hm.
  destruct (preProcessEvent event _) as [c1 r1]. destruct Hp as [_ Hp]. cbn [fst] in Hm.
  assert (Hw' : coord_wf (c <| co_locked := true |>)) by (by destruct Hw; split).
  assert (H1 : coord_ok (c1 <| co_locked := false |>)).
  { split; [done|exact (mild_loop_kept _ _ Hm Hl)|]. by destruct (mild_wfKept _ _ Hm Hw'); split. }
  destruct r1 as [[|]| |]; try (by rewrite Hp). destruct Hp as (_ & c2 & r2 & Hd & Hp). rewrite Hp.
  assert (dispatchesOnlyIfActive c2 /\ coord_wf c2) as [Hl2 Hw2].
  { change c2 with (c2, r2).1. rewrite <- Hd. split; [by apply dispatch_keeps_loop|by apply dispatch_wf]. }
  split; [done|exact Hl2|]. by destruct Hw2; split.
Qed.

Lemma coord_ok_frame c c' :
  stays c c' -> transactionsByID (co_w c') = transactionsByID (co_w c) -> heldLocks (co_w c') = heldLocks (co_w c) ->
  co_pooledTransactions c' = co_pooledTransactions c -> co_assemblyInFlight c' = co_assemblyInFlight c ->
  co_assemblingTxID c' = co_assemblingTxID c -> co_inFlightEndorsements c' = co_inFlightEndorsements c ->
  co_endorseJobs c' = co_endorseJobs c -> co_dispatchLoop c' = co_dispatchLoop c -> coord_ok c -> coord_ok c'.
Proof. intros ? Ht Hl ??????. apply mild_ok. split; try done. by apply evolves_frame. Qed.

Lemma background_ok c c' : background_step c c' -> coord_ok c -> coord_ok c'.
Proof.
  intros Hstep Hc. destruct Hstep as [c c' Hs|e c|fuel c c' Hd|timer c|timer c|prepareID result c|fuel k i c c' r Hf _|now height c].
  - unfold Start in Hs. destruct (co_ctx c); [by injection Hs as <-|].
    destruct (ComputeEffectiveBlockHeight _ _); try discriminate Hs. injection Hs as <-.
    destruct Hc as [Hu Hl [[] Hn Hpk Hsl Hjn Hkeys]]. by split.
  - by apply (coord_ok_frame c).
  - unfold coordDispatchStep in Hd. destruct (co_dispatchLoop c) eqn:Hloop; [|done].
    destruct (dispatchLoopStep _ _ _ _) as [w|] eqn:Hw; [|done]. injection Hd as <-.
    apply dispatchLoopStep_evolves in Hw. destruct Hc as [Hu Hl [Hwf Hn Hpk Hsl Hjn Hkeys]]. split; [done|done|].
    split; try done; simpl; [by apply (evolves_world_wf _ (co_w c))|by rewrite (evolves_dom (co_w c))].
  - unfold fireCoordTimer. destruct (co_timers c !! timer); [|done]. destruct (_ <=? _)%Z; [|done]. by apply (coord_ok_frame c).
  - apply (coord_ok_frame c); try done; [split; try done|..]; simpl; unfold fireTimer; by repeat case_match.
  - apply (coord_ok_frame c); try done; [split; try done|..]; simpl; unfold finishPrepare; by repeat case_match.
  - pose proof (finishEndorsement_wf fuel k i c (ok_wf c Hc)) as Hw. rewrite Hf in Hw.
    pose proof (finishEndorsement_offLoop fuel k i c) as Hst. rewrite Hf in Hst. destruct Hc as [Hu Hl _].
    destruct Hst as (Hm & Hlk & Hlp). cbn [fst] in *. split; [by rewrite Hlk| |exact Hw].
    unfold dispatchesOnlyIfActive, coordState. rewrite Hlp, Hm. exact Hl.
  - by apply (coord_ok_frame c).
Qed.

Lemma background_state c c' : background_step c c' -> coordState c' = coordState c.
Proof.
  intros Hstep. destruct Hstep as [c c' Hs|e c|fuel c c' Hd|timer c|timer c|prepareID result c|fuel k i c c' r Hf _|now height c]; try done.
  - unfold Start in Hs. destruct (co_ctx c); [by injection Hs as <-|]. destruct (ComputeEffectiveBlockHeight _ _); by simplify_eq.
  - unfold coordDispatchStep in Hd. destruct (co_dispatchLoop c); [|done]. destruct (dispatchLoopStep _ _ _ _); [|done]. by injection Hd as <-.
  - unfold fireCoordTimer. destruct (co_timers c !! timer); [|done]. by destruct (_ <=? _)%Z.
  - destruct (finishEndorsement_offLoop fuel k i c) as [Hm _]. rewrite Hf in Hm. unfold coordState. simpl in Hm. by rewrite Hm.
Qed.

Lemma step_ok c c' : coord_step c c' -> coord_ok c -> coord_ok c'.
Proof.
  intros Hstep Hc. destruct Hstep as [e q c c' r _ Hp _|e c1 c c' r Hn Hp _|c c' Hb]; [..|by apply (background_ok c)].
  - change c' with (c', r).1. rewrite <- Hp. apply process_ok. by apply (coord_ok_frame c).
  - change c' with (c', r).1. rewrite <- Hp. apply process_ok. unfold nextInternal in Hn.
    destruct (c_internalQueue _); [done|]. injection Hn as <- <-. by apply (coord_ok_frame c).
Qed.

(** ** Runs *)

Definition reachable (c : Coord) : Prop :=
  exists conf blockRange nodeName selectionConfig, rtc coord_step (NewCoordinator conf blockRange nodeName selectionConfig) c.

Lemma new_ok conf blockRange nodeName selectionConfig : coord_ok (NewCoordinator conf blockRange nodeName selectionConfig).
Proof. split; [done|done|]. split; [split; [done|cbn [co_w NewCoordinator transactionsByID]; rewrite map_size_empty; lia|done]|constructor|constructor|done|constructor|done]. Qed.

Lemma reachable_ok c : reachable c -> coord_ok c.
Proof.
  intros (conf & blockRange & nodeName & sc & Hr). pose proof (new_ok conf blockRange nodeName sc) as Hok.
  induction Hr; eauto using step_ok.
Qed.

Lemma reachable_step c c' : reachable c -> coord_step c c' -> reachable c'.
Proof. intros (conf & blockRange & nodeName & sc & Hr) Hs. exists conf, blockRange, nodeName, sc. by eapply rtc_r. Qed.

(** (C35) In every state a coordinator can reach, its own data is consistent: transactions are filed
    under their ids and number at most the configured limit; the pool lists known transactions, each
    once; a free assembly slot names no transaction; each endorsement in flight has one goroutine; and
    between events no lock is held. *)
Theorem coordinator_data_consistent c : reachable c -> coord_wf c /\ co_locked c = false.
Proof. intros [Hu _ Hw]%reachable_ok. done. Qed.

(** (C7) A dispatch loop runs only while the coordinator is Active: it is stopped on the way out of
    Active whatever the transition, and nothing else starts it. *)
Theorem dispatch_only_while_active c : reachable c -> dispatchesOnlyIfActive c.
Proof. apply reachable_ok. Qed.

(** (C11) A coordinator changes its state only by handling an event, and only to a state that its
    table allows from the current one on that event, whatever the actions do and even if they fail. *)
Theorem coordinator_follows_lifecycle c c' :
  reachable c -> coord_step c c' -> coordState c' <> coordState c ->
  exists event, (head (co_events c) = Some event \/ head (c_internalQueue (w_c (co_w c))) = Some event) /\
    coordState c' ∈ coordNextStates (coordState c) (CoordinatorType_of event).
Proof.
  intros [Hu _ _]%reachable_ok Hstep Hne.
  destruct Hstep as [e q c c' r Hq Hp _|e c1 c c' r Hn Hp _|c c' Hb%background_state]; [..|by destruct Hne].
  - exists e. rewrite Hq. split; [by left|]. set (c0 := c <| co_events := q |>) in *.
    pose proof (step_state e c0 Hu) as Hst. rewrite Hp in Hst. by destruct Hst.
  - exists e. unfold nextInternal in Hn. destruct (c_internalQueue _) as [|e' q]; [done|]. injection Hn as -> Hc1. split; [by right|].
    assert (Hu1 : co_locked c1 = false /\ coordState c1 = coordState c) by (by subst c1). destruct Hu1 as [Hu1 Hs1].
    pose proof (step_state e c1 Hu1) as Hst. rewrite Hp, Hs1 in Hst. by destruct Hst.
Qed.

(** Events delivered one at a time are a run. *)
Fixpoint drains (fuel : nat) (c : Coord) : bool :=
  match fuel with
  | O => true
  | S fuel =>
      match nextInternal c with
      | None => true
      | Some (e, c) => is_Ok (coordinatorProcessEvent e c).2 && drains fuel (coordinatorProcessEvent e c).1
      end
  end.

Lemma drain_run fuel c : drains fuel c = true -> rtc coord_step c (drainInternal fuel c).
Proof.
  revert c. induction fuel as [|fuel IH]; intros c; simpl; [done|].
  destruct (nextInternal c) as [[e c1]|] eqn:Hn; [|done]. intros [Hok Hd]%andb_prop.
  eapply rtc_l; [|by apply IH]. destruct (coordinatorProcessEvent e c1) as [c2 r] eqn:Hp.
  apply (step_internal e c1 c c2 r); [done|done|]. intros x Hx. simpl in Hok. by rewrite Hx in Hok.
Qed.
End Steps.

(** ** The runs of a small node *)

Lemma deliver_run e c :
  co_events c = [] -> is_Ok (coordinatorProcessEvent e c).2 && drains 20 (coordinatorProcessEvent e c).1 = true ->
  rtc coord_step c (deliver e c).
Proof.
  intros He [Hok Hd]%andb_prop. eapply rtc_l; [apply step_background, (step_arrives e)|].
  unfold deliver. eapply rtc_l; [|by apply drain_run]. destruct (coordinatorProcessEvent e c) as [c2 r] eqn:Hp.
  apply (step_event e [] _ c2 r); [simpl; by rewrite He| |intros x Hx; simpl in Hok; by rewrite Hx in Hok].
  rewrite <- Hp. f_equal. destruct c. simpl in He. by subst.
Qed.

(** Whether an event and what it queues are handled without error. *)
Definition handledOk (e : CoordinatorEvent) (c : Coord) : bool :=
  is_Ok (coordinatorProcessEvent e c).2 && drains 20 (coordinatorProcessEvent e c).1.

Lemma idle_reached node :
  is_Ok (Start (newCoordAt node)).2 && handledOk CoordinatorCreatedEvent (startedAt node) = true ->
  rtc coord_step (newCoordAt node) (idleAt node).
Proof.
  unfold handledOk. intros [Hs [Hok Hd]%andb_prop]%andb_prop. set (c := (Start (newCoordAt node)).1) in *.
  assert (Hstart : Start (newCoordAt node) = (c, Ok tt)) by done.
  eapply rtc_l; [apply step_background, (step_start _ _ Hstart)|].
  unfold idleAt, deliver. eapply rtc_l; [|by apply drain_run].
  destruct (coordinatorProcessEvent CoordinatorCreatedEvent (startedAt node)) as [c1 r] eqn:E.
  apply (step_event CoordinatorCreatedEvent [] c c1 r); [done|done|]. intros x ->. done.
Qed.

Lemma idle_reachable : reachable idleCoord.
Proof. exists sampleCoordConfig, 50%Z, "node2"%string, sampleSelection. exact (idle_reached "node2" eq_refl). Qed.

Lemma deliver_reachable e c : reachable c -> co_events c = [] -> handledOk e c = true -> reachable (deliver e c).
Proof.
  unfold handledOk. intros (conf & blockRange & node & sc & Hr) He Ho. exists conf, blockRange, node, sc.
  etrans; [exact Hr|by apply deliver_run].
Qed.

Lemma active_reached node ids :
  is_Ok (Start (newCoordAt node)).2 && handledOk CoordinatorCreatedEvent (startedAt node) = true ->
  handledOk (sampleDelegation ids) (idleAt node) = true -> co_events (idleAt node) = [] -> reachable (activeAt node ids).
Proof.
  unfold handledOk at 2. intros Hi Ha He. exists sampleCoordConfig, 50%Z, node, sampleSelection. etrans; [exact (idle_reached node Hi)|].
  exact (deliver_run (sampleDelegation ids) (idleAt node) He Ha).
Qed.

Lemma active_reachable : reachable (activeCoord [1%N; 2%N]).
Proof. apply active_reached; vm_compute; reflexivity. Qed.

Lemma coordinator_data_consistent_witness :
  co_pooledTransactions (activeCoord [1%N; 2%N]) = [2%N] /\ coord_wf (activeCoord [1%N; 2%N]).
Proof. split; [vm_compute; reflexivity|]. apply (coordinator_data_consistent _ active_reachable). Defined.

Lemma dispatch_only_while_active_witness :
  co_dispatchLoop (activeCoord [1%N; 2%N]) = true /\ coordState (activeCoord [1%N; 2%N]) = CoordinatorState_Active.
Proof.
  assert (Hl : co_dispatchLoop (activeCoord [1%N; 2%N]) = true) by (vm_compute; reflexivity).
  split; [exact Hl|]. exact (dispatch_only_while_active _ active_reachable Hl).
Defined.

(** The idle coordinator with a delegation waiting. *)
Definition delegatedTo : Coord := (idleAt "node2") <| co_events ::= fun q => q ++ [sampleDelegation [1%N; 2%N]] |>.

Lemma delegatedTo_step :
  coord_step delegatedTo (coordinatorProcessEvent (sampleDelegation [1%N; 2%N]) (delegatedTo <| co_events := [] |>)).1.
Proof.
  set (c0 := delegatedTo <| co_events := [] |>).
  assert (H0 : coordinatorProcessEvent (sampleDelegation [1%N; 2%N]) c0
    = ((coordinatorProcessEvent (sampleDelegation [1%N; 2%N]) c0).1, Ok tt)) by (vm_compute; reflexivity).
  by apply (step_event (sampleDelegation [1%N; 2%N]) [] delegatedTo _ _ eq_refl H0).
Qed.

Lemma delegatedTo_reachable : reachable delegatedTo.
Proof.
  exists sampleCoordConfig, 50%Z, "node2"%string, sampleSelection.
  apply (rtc_r _ _ _ (idle_reached "node2" eq_refl) (step_background _ _ (step_arrives (sampleDelegation [1%N; 2%N]) (idleAt "node2")))).
Qed.

Lemma coordinator_follows_lifecycle_witness :
  exists event, (head (co_events delegatedTo) = Some event \/ head (c_internalQueue (w_c (co_w delegatedTo))) = Some event) /\
    CoordinatorState_Active ∈ coordNextStates CoordinatorState_Idle (CoordinatorType_of event).
Proof.
  apply (coordinator_follows_lifecycle delegatedTo _ delegatedTo_reachable delegatedTo_step).
  vm_compute. discriminate.
Defined.
