(* ===== verification/CoordStepDown.v ===== *)
(** * Stepping down

    A coordinator that hears from a node of higher priority gives up: it keeps only what has already
    been dispatched, and from then on takes that node for the active coordinator.

    Sources: coordinator/coordinating.go, coordinator/state_machine.go. *)

From S2P Require Import Prelude StateMachine Identity Selection DependencyTracker StateVisibility Grapher StateView.
From S2P Require Import TxTypes CoordTypes World TxActions TxMachine TxPropagation DispatchLoop Sample.
From S2P Require Import CoordWorld CoordActions CoordEndorse CoordMachine CoordSample CoordInvariants CoordWf CoordRuns.
Open Scope list_scope.

(** ** Cleaning up *)

(** What stays with a coordinator that has stepped down. *)
Definition retainedStates : list State := [State_Dispatched; State_Confirmed; State_Reverted].

Definition retained (txs : gmap N coordinatorTransaction) : gmap N coordinatorTransaction :=
  filter (fun kv => currentState (stateMachine kv.2) ∈ retainedStates) txs.

Section CleanUp.
Context `{Env, CoordEnv}.

Lemma elem_of_rangeTransactions w id : id ∈ rangeTransactions w <-> id ∈ dom (transactionsByID w).
Proof.
  unfold rangeTransactions. rewrite cenv_rangeTransactions_perm, list_elem_of_fmap. split.
  - intros ([k t] & -> & Ht%elem_of_map_to_list). simpl. apply elem_of_dom. eauto.
  - intros [t Ht]%elem_of_dom. exists (id, t). split; [done|]. by apply elem_of_map_to_list.
Qed.

Lemma elem_of_txInStates w states id t :
  transactionsByID w !! id = Some t -> txInStates w states id = bool_decide (currentState (stateMachine t) ∈ states).
Proof. intros Ht. unfold txInStates, getCoordinatorTransactionState. by rewrite Ht. Qed.

Lemma elem_of_getTransactionsNotInStates w states id :
  id ∈ getTransactionsNotInStates w states <->
  exists t, transactionsByID w !! id = Some t /\ currentState (stateMachine t) ∉ states.
Proof.
  unfold getTransactionsNotInStates. rewrite list_elem_of_In, filter_In, <- list_elem_of_In, elem_of_rangeTransactions, elem_of_dom.
  split.
  - intros [[t Ht] Hn]. exists t. split; [done|]. rewrite (elem_of_txInStates _ _ _ t Ht) in Hn. by case_bool_decide.
  - intros (t & Ht & Hn). split; [by exists t|]. rewrite (elem_of_txInStates _ _ _ t Ht). by rewrite bool_decide_false.
Qed.

Lemma elem_of_getTransactionsInStates w states id :
  id ∈ getTransactionsInStates w states <->
  exists t, transactionsByID w !! id = Some t /\ currentState (stateMachine t) ∈ states.
Proof.
  unfold getTransactionsInStates. rewrite list_elem_of_In, filter_In, <- list_elem_of_In, elem_of_rangeTransactions, elem_of_dom.
  split.
  - intros [[t Ht] Hn]. exists t. split; [done|]. rewrite (elem_of_txInStates _ _ _ t Ht) in Hn. by case_bool_decide.
  - intros (t & Ht & Hn). split; [by exists t|]. rewrite (elem_of_txInStates _ _ _ t Ht). by rewrite bool_decide_true.
Qed.

(** The coordinator's own fields that cleaning up leaves alone, besides the pool and the slot. *)
Record tidied (c c' : Coord) : Prop := MkTidied {
  tidied_stays : stays c c';
  tidied_active : co_currentActiveCoordinator c' = co_currentActiveCoordinator c;
  tidied_priorities : c_coordinatorPriorityList (w_c (co_w c')) = c_coordinatorPriorityList (w_c (co_w c));
  tidied_loop : co_dispatchLoop c' = co_dispatchLoop c
}.

#[export] Instance tidied_preorder : PreOrder tidied.
Proof. split; [by intros c|]. intros c1 c2 c3 [] []. split; try congruence. by etrans. Qed.

Lemma cleanUpAll_mem ids c :
  exists c', for_each ids cleanUpTransaction c = (c', Ok tt) /\ tidied c c' /\
    forall j, transactionsByID (co_w c') !! j = if bool_decide (j ∈ ids) then None else transactionsByID (co_w c) !! j.
Proof.
  revert c. induction ids as [|id ids IH]; intros c.
  - exists c. split_and!; [done|done|]. intros j. by rewrite bool_decide_false by set_solver.
  - simpl. destruct (cleanUpTransaction_mem id c) as (w' & Hc & Ht & Hl & Hf). rewrite (bind_ok _ _ _ _ _ Hc).
    set (c1 := match transactionsByID (co_w c) !! id with Some _ => _ | None => c end).
    assert (H1 : tidied c c1 /\ transactionsByID (co_w c1) = delete id (transactionsByID (co_w c))).
    { subst c1. destruct (transactionsByID (co_w c) !! id) eqn:Hid; [|by rewrite delete_id].
      split; [|done]. split; simpl; rewrite ?Hf; try done. split; simpl; by rewrite ?Hf. }
    destruct H1 as [H1 Ht1]. destruct (IH c1) as (c2 & Hc2 & H2 & Hj). exists c2. split_and!; [done|by etrans|].
    intros j. rewrite Hj, Ht1. destruct (decide (j = id)) as [->|Hne].
    + rewrite lookup_delete_eq, (bool_decide_true (id ∈ id :: ids)) by set_solver. by destruct (bool_decide _).
    + rewrite lookup_delete_ne by done. destruct (decide (j ∈ ids)).
      * by rewrite !bool_decide_true by set_solver.
      * by rewrite !bool_decide_false by set_solver.
Qed.

Lemma cleanUp_mem event c :
  exists c', action_CleanUpTransactionsNotYetDispatched event c = (c', Ok tt) /\ tidied c c' /\
    transactionsByID (co_w c') = retained (transactionsByID (co_w c)) /\
    co_assemblyInFlight c' = false /\ c_dispatchQueue (w_c (co_w c')) = [].
Proof.
  unfold action_CleanUpTransactionsNotYetDispatched, gets. unfold mbind at 1, M_bind at 1.
  destruct (cleanUpAll_mem (getTransactionsNotInStates (co_w c) [State_Dispatched; State_Confirmed; State_Reverted]) c)
    as (c1 & Hc1 & [[] Ha Hp Hl] & Hj). rewrite (bind_ok _ _ _ _ _ Hc1).
  eexists. split; [reflexivity|]. split; [by split; [split|..]|]. split_and!; [|done|done].
  apply map_eq. intros j. simpl. rewrite Hj. unfold retained.
  destruct (transactionsByID (co_w c) !! j) as [t|] eqn:Ht.
  2: { rewrite map_lookup_filter, Ht. by destruct (bool_decide _). }
  assert (Hg : j ∈ getTransactionsNotInStates (co_w c) retainedStates <-> ~ currentState (stateMachine t) ∈ retainedStates).
  { rewrite elem_of_getTransactionsNotInStates. split; [intros (t' & Ht' & Hs); by simplify_eq|by exists t]. }
  destruct (decide (currentState (stateMachine t) ∈ retainedStates)) as [Hin|Hin].
  - rewrite bool_decide_false by tauto. symmetry. by apply map_lookup_filter_Some.
  - rewrite bool_decide_true by tauto. symmetry. apply map_lookup_filter_None. right. intros t' Ht'. by simplify_eq.
Qed.
End CleanUp.

(** ** The handlers that give up *)

Definition coordinatingStates : list CoordinatorState :=
  [CoordinatorState_Elect; CoordinatorState_Prepared; CoordinatorState_Active; CoordinatorState_Active_Flush].

(** Giving up to [from], as far as a handler's actions go. *)
Record givenUp (from : string) (c c' : Coord) : Prop := MkGivenUp {
  gu_machine : co_machine c' = co_machine c;
  gu_active : co_currentActiveCoordinator c' = from;
  gu_transactions : transactionsByID (co_w c') = retained (transactionsByID (co_w c));
  gu_slot : co_assemblyInFlight c' = false;
  gu_queue : c_dispatchQueue (w_c (co_w c')) = [];
  gu_loop : loopOff c c'
}.

(** Steps that leave all of that alone. *)
Record standing (c c' : Coord) : Prop := MkStanding {
  sta_world : co_w c' = co_w c;
  sta_active : co_currentActiveCoordinator c' = co_currentActiveCoordinator c;
  sta_slot : co_assemblyInFlight c' = co_assemblyInFlight c;
  sta_loop : loopOff c c'
}.

#[export] Instance standing_preorder : PreOrder standing.
Proof. split; [by intros c|]. intros c1 c2 c3 [] []. split; try congruence. by etrans. Qed.

#[local] Create HintDb giveup.

Section GiveUp.
Context `{Env, CoordEnv}.

Lemma standing_sendToAll l contract e : respects standing (sendToAll l contract e).
Proof.
  revert e. induction l as [|[node s] l IH]; intros e; simpl; [intros c; by destruct e|].
  intros c. unfold sendC. destruct (cenv_transport _ _); simpl; [apply IH|].
  etrans; [|apply IH]. by split.
Qed.

Lemma standing_sendHeartbeat locks : respects standing (sendHeartbeat locks).
Proof. intros c. unfold sendHeartbeat, gets, mbind, M_bind. apply standing_sendToAll. Qed.

Lemma clearTimeouts_mem event c :
  exists c', action_ClearTimeoutSchedules event c = (c', Ok tt) /\ co_machine c' = co_machine c /\ standing c c'.
Proof.
  unfold action_ClearTimeoutSchedules, clearTimeoutSchedules, cancelCoordTimer, gets, modify, mbind, M_bind.
  eexists. split; [reflexivity|]. destruct (co_cancelRequestTimeout c); simpl; destruct (co_cancelStateTimeout c); by split; [|split].
Qed.

Lemma givenUp_standing from c c1 c2 : givenUp from c c1 -> co_machine c2 = co_machine c1 -> standing c1 c2 -> givenUp from c c2.
Proof.
  intros [Hm Ha Ht Hs Hq Hl] Hm2 [Hw Ha2 Hs2 Hl2]. split; [congruence|congruence|by rewrite Hw|congruence|by rewrite Hw|by etrans].
Qed.

(** The event names [from] as the node to give up to. *)
Definition namesActive (event : CoordinatorEvent) (from : string) : Prop :=
  action_UpdateActiveCoordinator event = setActiveCoordinator from.

Lemma givenUp_update_cleanup event from c :
  namesActive event from ->
  exists c1, executeActionRules event [Act action_UpdateActiveCoordinator; Act action_CleanUpTransactionsNotYetDispatched] c
    = (c1, Ok tt) /\ givenUp from c c1.
Proof.
  intros He. cbn [executeActionRules Act ar_If ar_Action guardPasses]. rewrite He.
  destruct (cleanUp_mem event (c <| co_currentActiveCoordinator := from |>)) as (c1 & Hc & [[] Ha Hp Hl] & Ht & Hs & Hq).
  unfold setActiveCoordinator, modify, mbind, M_bind, mret, M_ret. rewrite Hc. exists c1. split; [done|].
  split; try done. unfold loopOff. by rewrite Hl.
Qed.

Lemma givenUp_cleanup_update event from c :
  namesActive event from ->
  exists c1, executeActionRules event [Act action_CleanUpTransactionsNotYetDispatched; Act action_UpdateActiveCoordinator] c
    = (c1, Ok tt) /\ givenUp from c c1.
Proof.
  intros He. cbn [executeActionRules Act ar_If ar_Action guardPasses]. rewrite He.
  destruct (cleanUp_mem event c) as (c1 & Hc & [[] Ha Hp Hl] & Ht & Hs & Hq).
  unfold mbind, M_bind, mret, M_ret. rewrite Hc. eexists. split; [reflexivity|]. split; try done. unfold loopOff. simpl. by rewrite Hl.
Qed.

(** What happens to the machine afterwards. *)
Definition closingStates : list CoordinatorState :=
  [CoordinatorState_Observing; CoordinatorState_Closing_Flush; CoordinatorState_Closing].

Record steppedDown (from : string) (c c' : Coord) : Prop := MkSteppedDown {
  sd_state : coordState c' ∈ closingStates;
  sd_flushing : coordState c' <> CoordinatorState_Closing_Flush ->
    map_Forall (fun _ t => currentState (stateMachine t) <> State_Dispatched) (transactionsByID (co_w c'));
  sd_active : co_currentActiveCoordinator c' = from;
  sd_transactions : transactionsByID (co_w c') = retained (transactionsByID (co_w c));
  sd_slot : co_assemblyInFlight c' = false;
  sd_queue : c_dispatchQueue (w_c (co_w c')) = [];
  sd_loop : loopOff c c'
}.

#[local] Abbreviation coordDispatch := (dispatchEvent coordEntity coordStateDefinitionsMap (Some onStateTransition)).
#[local] Abbreviation coordTake := (takeTransition coordEntity coordStateDefinitionsMap (Some onStateTransition)).
#[local] Abbreviation coordEvaluate := (evaluateTransitions coordEntity coordStateDefinitionsMap (Some onStateTransition)).

(** A transition to a closing state, after its own actions. *)
Lemma take_closing_after event tr c c0 :
  executeActionRules event (tr_Actions tr) (enterState coordEntity (tr_To tr) event c) = (c0, Ok tt) ->
  coordState c0 = tr_To tr -> tr_To tr ∈ closingStates ->
  let c' := (coordTake event tr c).1 in coordState c' = tr_To tr /\ standing c0 c'.
Proof.
  intros Ha Hs0 Hto. cbv zeta.
  assert (Hexit : exists c1, executeActionRules event (onTransitionFrom coordStateDefinitionsMap (coordState c)) c0 = (c1, Ok tt)
    /\ coordState c1 = tr_To tr /\ standing c0 c1).
  { rewrite exit_rules. destruct (coordState c); (eexists; split; [reflexivity|by split; [|split]]). }
  destruct Hexit as (c1 & He & Hs1 & Hst1).
  assert (Hentry : respects standing (executeActionRules event (onTransitionTo coordStateDefinitionsMap (tr_To tr)))).
  { unfold closingStates in Hto.
    split_members; cbn [onTransitionTo coordStateDefinitionsMap coordClosing coordClosing_Flush coordObserving OnTransitionTo].
    - intros x. reflexivity.
    - apply executeActionRules_respects; [apply _|]. intros rule Hr. split_members. apply standing_sendHeartbeat.
    - apply executeActionRules_respects; [apply _|]. intros rule Hr. split_members. apply standing_sendHeartbeat. }
  set (c2 := onStateTransition (coordState c) (tr_To tr) event c1).
  assert (Ht : coordTake event tr c = executeActionRules event (onTransitionTo coordStateDefinitionsMap (tr_To tr)) c2).
  { unfold takeTransition, gets, modify. unfold mbind at 1, M_bind at 1. unfold mbind at 1, M_bind at 1.
    rewrite (bind_ok _ _ _ _ _ Ha). change (GetCurrentState coordEntity c) with (coordState c). rewrite (bind_ok _ _ _ _ _ He).
    unfold mbind at 1, M_bind at 1. change (GetCurrentState coordEntity c1) with (coordState c1). by rewrite Hs1. }
  rewrite Ht. split; [exact (eq_trans (entry_rules_state (tr_To tr) event c2) Hs1)|].
  etrans; [exact Hst1|]. etrans; [|apply Hentry]. by split.
Qed.

Lemma take_closing event tr c :
  tr_Actions tr = [] -> tr_To tr ∈ closingStates ->
  let c' := (coordTake event tr c).1 in coordState c' = tr_To tr /\ standing c c'.
Proof.
  intros Ha Hto. destruct (take_closing_after event tr c (enterState coordEntity (tr_To tr) event c)) as [Hs Hst];
    [by rewrite Ha|done|done|]. split; [exact Hs|]. etrans; [|exact Hst]. by split.
Qed.

(** The conditions of [stepDown] and [backOff] cover every case, and tell whether something is still
    to be confirmed. *)
Definition nothingDispatched (w : World) : Prop :=
  map_Forall (fun _ t => currentState (stateMachine t) <> State_Dispatched) (transactionsByID w).

Lemma hasUnconfirmedDispatched_false w : hasUnconfirmedDispatched w = false <-> nothingDispatched w.
Proof.
  unfold hasUnconfirmedDispatched, nothingDispatched. split.
  - intros Hf id t Ht Hs.
    assert (Hin : id ∈ getTransactionsInStates w [State_Dispatched]) by (apply elem_of_getTransactionsInStates; exists t; set_solver).
    by destruct (getTransactionsInStates w [State_Dispatched]); [inversion Hin|].
  - intros Hn. destruct (getTransactionsInStates w [State_Dispatched]) as [|id l] eqn:E; [done|].
    assert (Hin : id ∈ getTransactionsInStates w [State_Dispatched]) by (rewrite E; left).
    apply elem_of_getTransactionsInStates in Hin as (t & Ht & Hs). apply list_elem_of_singleton in Hs. by destruct (Hn id t Ht).
Qed.

(** A list of transitions always takes one, to a closing state that fits. *)
Definition closes (trs : list CTransition) : Prop :=
  forall event c, exists tr, tr_Actions tr = [] /\ tr_To tr ∈ closingStates /\
    (tr_To tr <> CoordinatorState_Closing_Flush -> nothingDispatched (co_w c)) /\
    coordEvaluate event trs c = (coordTake event tr ≫= fun _ => mret true) c.

#[local] Ltac closing tr :=
  exists tr; split_and!; [done|unfold closingStates; simpl; set_solver|try by intros []|].

Lemma stepDown_closes : closes stepDown.
Proof.
  intros event c. unfold stepDown. destruct (hasUnconfirmedDispatched (co_w c)) eqn:Hd.
  - closing (ToIf CoordinatorState_Closing_Flush guard_HasUnconfirmedDispatchedTransactions [] : CTransition).
    apply evaluate_takes. unfold guard_HasUnconfirmedDispatchedTransactions. by rewrite Hd.
  - closing (ToIf CoordinatorState_Closing (GuardNot guard_HasUnconfirmedDispatchedTransactions) [] : CTransition).
    { intros _. by apply hasUnconfirmedDispatched_false. }
    rewrite evaluate_skips, evaluate_takes; [done|..];
      unfold GuardNot, guard_HasUnconfirmedDispatchedTransactions; by rewrite Hd.
Qed.

Lemma hasInflight_retained w : (0 <? size (transactionsByID w))%nat = false -> nothingDispatched w.
Proof.
  intros Hz%Nat.ltb_ge. assert (Hs : size (transactionsByID w) = 0%nat) by lia. apply map_size_empty_inv in Hs.
  unfold nothingDispatched. rewrite Hs. apply map_Forall_empty.
Qed.

Lemma backOff_closes : closes backOff.
Proof.
  intros event c. unfold backOff.
  destruct (0 <? size (transactionsByID (co_w c)))%nat eqn:Hi; [destruct (hasUnconfirmedDispatched (co_w c)) eqn:Hd|].
  - closing (ToIf CoordinatorState_Closing_Flush
      (GuardAnd [guard_HasTransactionsInflight; guard_HasUnconfirmedDispatchedTransactions]) [] : CTransition).
    rewrite evaluate_skips, evaluate_takes; [done|..];
      unfold GuardAnd, GuardNot, guard_HasTransactionsInflight, guard_HasUnconfirmedDispatchedTransactions; by rewrite Hi, ?Hd.
  - closing (ToIf CoordinatorState_Closing
      (GuardAnd [guard_HasTransactionsInflight; GuardNot guard_HasUnconfirmedDispatchedTransactions]) [] : CTransition).
    { intros _. by apply hasUnconfirmedDispatched_false. }
    rewrite evaluate_skips, evaluate_skips, evaluate_takes; [done|..];
      unfold GuardAnd, GuardNot, guard_HasTransactionsInflight, guard_HasUnconfirmedDispatchedTransactions; by rewrite Hi, ?Hd.
  - closing (ToIf CoordinatorState_Observing (GuardNot guard_HasTransactionsInflight) [] : CTransition).
    { intros _. by apply hasInflight_retained. }
    apply evaluate_takes. unfold GuardNot, guard_HasTransactionsInflight. by rewrite Hi.
Qed.

Lemma toFlush_closes : closes [To CoordinatorState_Closing_Flush []].
Proof.
  intros event c. exists (To CoordinatorState_Closing_Flush []).
  split_and!; [done|unfold closingStates; simpl; set_solver|by intros []|done].
Qed.

(** A handler whose actions give up and whose transitions close. *)
Lemma giveUp_takes event from tr c c1 :
  coordState c ∈ coordinatingStates -> givenUp from c c1 -> tr_Actions tr = [] -> tr_To tr ∈ closingStates ->
  (tr_To tr <> CoordinatorState_Closing_Flush -> nothingDispatched (co_w c1)) ->
  steppedDown from c (coordTake event tr c1).1.
Proof.
  intros Hs [Hm Ha Ht Hsl Hq Hl] Hacts Hto Hn.
  destruct (take_closing event tr c1 Hacts Hto) as [Hs' [Hw Hact Hslot Hloop]].
  split; rewrite ?Hs', ?Hw; try done; try congruence. by etrans.
Qed.

(** ** The two announcements *)

(** The nodes a heartbeat lists become candidates before its sender's priority is looked at. *)
Definition learned (s : CoordinatorSnapshot) (c : Coord) : Coord :=
  match c_coordinatorSelection (w_c (co_w c)) with
  | COORDINATOR_ENDORSER => (onWorld (notifyEndorserCandidates (cs_EndorserCandidates s)) c).1
  | _ => c
  end.

Lemma addEndorsers_learned from s c :
  executeActionRules (HeartbeatReceivedEvent from (Some s)) (eh_Actions addEndorsers) c = (learned s c, Ok tt).
Proof.
  unfold learned, addEndorsers. cbn [On eh_Actions executeActionRules ActIf ar_If ar_Action guardPasses].
  unfold guard_IsCoordinatorEndorserSelectionMode, liftR, mbind, M_bind. by destruct (c_coordinatorSelection _).
Qed.

Lemma learned_frame s c :
  co_machine (learned s c) = co_machine c /\ transactionsByID (co_w (learned s c)) = transactionsByID (co_w c) /\
  co_dispatchLoop (learned s c) = co_dispatchLoop c.
Proof. unfold learned. by destruct (c_coordinatorSelection _). Qed.

(** [event] tells the coordinator that the node [from], which outranks it, coordinates or is about to. *)
Inductive outranked (c : Coord) : CoordinatorEvent -> string -> Prop :=
| outranked_handover from :
    isHigherPriorityThanSelf c from = true -> outranked c (HandoverRequestEvent from) from
| outranked_heartbeat from s :
    liveState (cs_CoordinatorState s) = true -> isHigherPriorityThanSelf (learned s c) from = true ->
    outranked c (HeartbeatReceivedEvent from (Some s)) from.

Lemma givenUp_update_stop_cleanup event from c :
  namesActive event from ->
  exists c1, executeActionRules event
    [Act action_UpdateActiveCoordinator; Act action_StopDispatchLoop; Act action_CleanUpTransactionsNotYetDispatched] c
    = (c1, Ok tt) /\ givenUp from c c1.
Proof.
  intros He. cbn [executeActionRules Act ar_If ar_Action guardPasses]. rewrite He.
  destruct (cleanUp_mem event (c <| co_currentActiveCoordinator := from |> <| co_dispatchLoop := false |>))
    as (c1 & Hc & [[] Ha Hp Hl] & Ht & Hs & Hq).
  unfold action_StopDispatchLoop, stopDispatchLoop, setActiveCoordinator, modify, mbind, M_bind, mret, M_ret. rewrite Hc.
  exists c1. split; [done|]. split; try done. unfold loopOff. by rewrite Hl.
Qed.

Lemma givenUp_cleanup_update_clear event from c :
  namesActive event from ->
  exists c1, executeActionRules event
    [Act action_CleanUpTransactionsNotYetDispatched; Act action_UpdateActiveCoordinator; Act action_ClearTimeoutSchedules] c
    = (c1, Ok tt) /\ givenUp from c c1.
Proof.
  intros He. cbn [executeActionRules Act ar_If ar_Action guardPasses]. rewrite He.
  destruct (cleanUp_mem event c) as (c1 & Hc & [[] Ha Hp Hl] & Ht & Hs & Hq).
  destruct (clearTimeouts_mem event (c1 <| co_currentActiveCoordinator := from |>)) as (c2 & Hc2 & Hm2 & Hst2).
  unfold setActiveCoordinator, modify, mbind, M_bind, mret, M_ret. rewrite Hc, Hc2. exists c2. split; [done|].
  eapply givenUp_standing; [|exact Hm2|exact Hst2]. split; try done. unfold loopOff. simpl. by rewrite Hl.
Qed.

(** What [dispatchEvent] runs in a given state. *)
Lemma dispatch_handlers event c d hs :
  coordStateDefinitionsMap (coordState c) = Some d -> Events d (CoordinatorType_of event) = Some hs ->
  coordDispatch event c
  = match ehs_Match hs with
    | MatchAll => processMatchAll coordEntity coordStateDefinitionsMap (Some onStateTransition) event (ehs_Handlers hs) c
    | MatchFirst => processMatchFirst coordEntity coordStateDefinitionsMap (Some onStateTransition) event (ehs_Handlers hs) c
    end.
Proof.
  intros Hd He. unfold dispatchEvent, gets. unfold mbind, M_bind.
  change (GetCurrentState coordEntity c) with (coordState c). rewrite Hd. cbn [ent_type coordEntity]. rewrite He. by destruct (ehs_Match hs).
Qed.

#[local] Abbreviation coordFirst := (processMatchFirst coordEntity coordStateDefinitionsMap (Some onStateTransition)).
#[local] Abbreviation coordAll := (processMatchAll coordEntity coordStateDefinitionsMap (Some onStateTransition)).

Lemma first_gives_up event from v acts trs rest c :
  coordState c ∈ coordinatingStates -> v event c = Ok true ->
  (exists c1, executeActionRules event acts c = (c1, Ok tt) /\ givenUp from c c1) -> closes trs ->
  steppedDown from c (coordFirst event (OnValid v acts trs :: rest) c).1.
Proof.
  intros Hs Hv (c1 & Ha & Hg) Hc. destruct (Hc event c1) as (tr & H1 & H2 & H3 & H4).
  rewrite (matchFirst_takes _ _ _ event (OnValid v acts trs) rest c c1 tr Hv Ha H4). by apply giveUp_takes.
Qed.

Lemma all_gives_up event from v acts trs rest c :
  coordState c ∈ coordinatingStates -> v event c = Ok true ->
  (exists c1, executeActionRules event acts c = (c1, Ok tt) /\ givenUp from c c1) -> closes trs ->
  steppedDown from c (coordAll event (OnValid v acts trs :: rest) c).1.
Proof.
  intros Hs Hv (c1 & Ha & Hg) Hc. destruct (Hc event c1) as (tr & H1 & H2 & H3 & H4).
  rewrite (matchAll_takes _ _ _ event (OnValid v acts trs) rest c c1 tr Hv Ha H4). by apply giveUp_takes.
Qed.

#[local] Hint Resolve givenUp_update_cleanup givenUp_cleanup_update givenUp_update_stop_cleanup givenUp_cleanup_update_clear
  stepDown_closes backOff_closes : giveup.

Lemma handover_steps_down from c :
  coordState c ∈ coordinatingStates -> isHigherPriorityThanSelf c from = true ->
  steppedDown from c (coordDispatch (HandoverRequestEvent from) c).1.
Proof.
  intros Hs Hp.
  assert (Hn : namesActive (HandoverRequestEvent from) from) by done.
  assert (Hv : validator_IsHandoverRequestFromHigherPriorityCoordinator (HandoverRequestEvent from) c = Ok true) by (simpl; by rewrite Hp).
  pose proof Hs as Hin. unfold coordinatingStates in Hin.
  apply elem_of_cons in Hin as [He|[He|[He|He%list_elem_of_singleton]%elem_of_cons]%elem_of_cons];
    (erewrite dispatch_handlers; [|by rewrite He|reflexivity]); cbn [ehs_Match ehs_Handlers]; apply first_gives_up; auto with giveup.
Qed.

(** The heartbeat is live, so neither of the handlers of Prepared for a closing coordinator matches. *)
Lemma live_not_closing from s states c :
  liveState (cs_CoordinatorState s) = true -> (forall x, x ∈ states -> liveState x = false) ->
  ValidatorAnd [validator_IsHeartbeatFromCurrentActiveCoordinator; validator_HeartBeatState states]
    (HeartbeatReceivedEvent from (Some s)) c = Ok false.
Proof.
  intros Hl Hs. simpl. destruct (String.eqb _ _); [|done]. rewrite bool_decide_false; [done|]. intros Hin%Hs. congruence.
Qed.

Lemma steppedDown_learned from s c c' : steppedDown from (learned s c) c' -> steppedDown from c c'.
Proof.
  intros [Hst Hf Ha Ht Hs Hq Hl]. destruct (learned_frame s c) as (Hm & Htx & Hlp). split; try done; [by rewrite Ht, Htx|].
  unfold loopOff in *. by rewrite Hlp in Hl.
Qed.

Lemma flush_heartbeat_steps_down from s c :
  coordState c = CoordinatorState_Active_Flush -> fromHigherPriorityLive (HeartbeatReceivedEvent from (Some s)) c = Ok true ->
  steppedDown from c (coordAll (HeartbeatReceivedEvent from (Some s))
    [OnValid fromHigherPriorityLive []
       [To CoordinatorState_Closing_Flush
          [Act action_UpdateActiveCoordinator; Act action_CleanUpTransactionsNotYetDispatched]]] c).1.
Proof.
  intros Hs Hv. set (e := HeartbeatReceivedEvent from (Some s)) in *.
  set (tr := To CoordinatorState_Closing_Flush [Act action_UpdateActiveCoordinator; Act action_CleanUpTransactionsNotYetDispatched]).
  rewrite (matchAll_takes _ _ _ e (OnValid fromHigherPriorityLive [] [tr]) [] c c tr Hv eq_refl eq_refl).
  destruct (givenUp_update_cleanup e from (enterState coordEntity CoordinatorState_Closing_Flush e c) eq_refl)
    as (c0 & Ha & [Hm Hact Ht Hsl Hq Hl]).
  assert (Hs0 : coordState c0 = CoordinatorState_Closing_Flush) by (unfold coordState; by rewrite Hm).
  destruct (take_closing_after e tr c c0 Ha Hs0) as [Hs' [Hw Ha' Hsl' Hl']]; [unfold closingStates; simpl; set_solver|].
  split; rewrite ?Hs', ?Hw; try done; try congruence; [unfold closingStates; simpl; set_solver|]. by etrans.
Qed.

Lemma heartbeat_steps_down from s c :
  coordState c ∈ coordinatingStates -> liveState (cs_CoordinatorState s) = true ->
  isHigherPriorityThanSelf (learned s c) from = true ->
  steppedDown from c (coordDispatch (HeartbeatReceivedEvent from (Some s)) c).1.
Proof.
  intros Hs Hl Hp. apply (steppedDown_learned _ s). destruct (learned_frame s c) as (Hm & _ & _).
  assert (Hs1 : coordState (learned s c) = coordState c) by (unfold coordState; by rewrite Hm).
  assert (Hn : namesActive (HeartbeatReceivedEvent from (Some s)) from) by done.
  assert (Hv : fromHigherPriorityLive (HeartbeatReceivedEvent from (Some s)) (learned s c) = Ok true).
  { cbn [fromHigherPriorityLive ValidatorAnd validator_IsHeartbeatFromHigherPriorityCoordinator validator_IsHeartbeatSenderLive].
    by rewrite Hp, Hl. }
  assert (Hin1 : coordState (learned s c) ∈ coordinatingStates) by (by rewrite Hs1).
  pose proof Hs as Hin. unfold coordinatingStates in Hin.
  apply elem_of_cons in Hin as [He|[He|[He|He%list_elem_of_singleton]%elem_of_cons]%elem_of_cons];
    (erewrite dispatch_handlers; [|by rewrite He|reflexivity]); cbn [ehs_Match ehs_Handlers];
    (rewrite (matchAll_acts _ _ _ _ addEndorsers _ c (learned s c)) by (done || apply addEndorsers_learned)).
  - apply all_gives_up; auto with giveup.
  - rewrite !matchAll_declines by (apply live_not_closing; [done|]; intros x ->%list_elem_of_singleton; done).
    apply all_gives_up; auto with giveup.
  - apply all_gives_up; auto with giveup.
  - apply flush_heartbeat_steps_down; congruence.
Qed.

(** ** A coordinator that is outranked *)

Lemma outranked_other c event from : outranked c event from -> from <> c_nodeName (w_c (co_w c)).
Proof.
  intros [f Hp|f s _ Hp] ->; unfold isHigherPriorityThanSelf in Hp; [by rewrite IsHigherPriority_irrefl in Hp|].
  assert (Hn : c_nodeName (w_c (co_w (learned s c))) = c_nodeName (w_c (co_w c))).
  { unfold learned. destruct (c_coordinatorSelection _); try done. apply (worldStays_candidates (cs_EndorserCandidates s) (co_w c)). }
  by rewrite Hn, IsHigherPriority_irrefl in Hp.
Qed.

Lemma outranked_locked c event from b : outranked c event from -> outranked (c <| co_locked := b |>) event from.
Proof.
  intros [f Hp|f s Hl Hp]; constructor; try done. revert Hp. unfold learned.
  change (co_w (c <| co_locked := b |>)) with (co_w c). by destruct (c_coordinatorSelection (w_c (co_w c))).
Qed.

Lemma outranked_stepped c event from :
  reachable c -> coordState c ∈ coordinatingStates -> outranked c event from ->
  steppedDown from c (coordinatorProcessEvent event c).1.
Proof.
  intros Hr Hs Ho. pose proof (reachable_ok c Hr) as [Hu _ _]. pose proof (outranked_other c event from Ho) as Hne.
  pose proof (coordinatorProcessEvent_cases event c Hu) as Hp.
  assert (Hpre : preProcessEvent event (c <| co_locked := true |>) = (c <| co_locked := true |>, Ok false)).
  { destruct Ho; [done|]. simpl. by rewrite (proj2 (String.eqb_neq _ _) Hne). }
  rewrite Hpre in Hp. destruct Hp as (_ & _ & c2 & r2 & Hd & ->).
  assert (Hsd2 : steppedDown from (c <| co_locked := true |>) c2).
  { change c2 with (c2, r2).1. rewrite <- Hd. destruct (outranked_locked c event from true Ho) as [f Hp|f s Hlive Hp].
    - by apply handover_steps_down.
    - by apply heartbeat_steps_down. }
  by destruct Hsd2; split.
Qed.

(** (C12) A coordinator that is elected, prepared or active and learns, by a heartbeat or a handover
    request, that a node of higher priority coordinates or is about to, steps down at once: it takes
    that node for the active coordinator, forgets every transaction that is not dispatched, confirmed or
    reverted, frees the assembly slot and the dispatch queue, and goes to Closing_Flush unless nothing
    it dispatched is unconfirmed. This happens even if telling the other nodes fails. *)
Theorem outranked_steps_down c event from :
  reachable c -> coordState c ∈ coordinatingStates -> outranked c event from ->
  steppedDown from c (coordinatorProcessEvent event c).1 /\
  co_dispatchLoop (coordinatorProcessEvent event c).1 = false.
Proof.
  intros Hr Hs Ho. pose proof (outranked_stepped c event from Hr Hs Ho) as Hsd. split; [done|].
  pose proof (process_ok event c (reachable_ok c Hr)) as [_ Hl' _].
  apply not_true_is_false. intros Ha%Hl'. pose proof (sd_state _ _ _ Hsd) as Hst. rewrite Ha in Hst.
  unfold closingStates in Hst. set_solver.
Qed.
End GiveUp.

(** node2 is active with two transactions, node1 outranks it. *)
Lemma outranked_steps_down_witness :
  let c' := (coordinatorProcessEvent (HandoverRequestEvent "node1") (activeCoord [1%N; 2%N])).1 in
  steppedDown "node1" (activeCoord [1%N; 2%N]) c' /\ co_dispatchLoop c' = false.
Proof.
  apply outranked_steps_down; [apply active_reachable|..].
  - assert (Hs : coordState (activeCoord [1%N; 2%N]) = CoordinatorState_Active) by (vm_compute; reflexivity).
    rewrite Hs. unfold coordinatingStates. list_member.
  - constructor. vm_compute. reflexivity.
Defined.
