(* ===== verification/CoordProtocol.v ===== *)
(** * What the protocol between coordinators relies on

    Two active coordinators that hear of each other, the rotation of the signing identity at an epoch
    boundary, the end of closing, and delegations that are accepted or refused.

    Sources: coordinator/state_machine.go, coordinating.go, state_transition_guards.go. *)

From S2P Require Import Prelude StateMachine Identity Selection DependencyTracker StateVisibility Grapher StateView.
From S2P Require Import TxTypes CoordTypes World TxActions TxMachine TxPropagation DispatchLoop Sample.
From S2P Require Import CoordWorld CoordActions CoordEndorse CoordMachine CoordSample CoordInvariants CoordWf CoordRuns CoordStepDown.
Open Scope list_scope.

Section Protocol.
Context `{Env, CoordEnv}.

#[local] Abbreviation coordDispatch := (dispatchEvent coordEntity coordStateDefinitionsMap (Some onStateTransition)).

(** An event that [preProcessEvent] leaves to the machine. *)
Lemma process_dispatched event c c2 r2 :
  co_locked c = false -> preProcessEvent event (c <| co_locked := true |>) = (c <| co_locked := true |>, Ok false) ->
  coordDispatch event (c <| co_locked := true |>) = (c2, r2) ->
  coordinatorProcessEvent event c = (c2 <| co_locked := false |>, r2).
Proof.
  intros Hu Hpre Hd. pose proof (coordinatorProcessEvent_cases event c Hu) as Hp. rewrite Hpre in Hp.
  destruct Hp as (_ & _ & c3 & r3 & Hd' & ->). rewrite Hd in Hd'. by simplify_eq.
Qed.

(** ** Two coordinators that hear of each other *)

Lemma learned_priorities_locked s c :
  isHigherPriorityThanSelf (learned s (c <| co_locked := true |>)) = isHigherPriorityThanSelf (learned s c).
Proof.
  unfold learned. change (co_w (c <| co_locked := true |>)) with (co_w c). by destruct (c_coordinatorSelection (w_c (co_w c))).
Qed.

(** A heartbeat of a node that does not outrank it leaves an active coordinator active. *)
Lemma heartbeat_ignored from s c :
  co_locked c = false -> coordState c = CoordinatorState_Active ->
  isHigherPriorityThanSelf (learned s c) from = false ->
  coordState (coordinatorProcessEvent (HeartbeatReceivedEvent from (Some s)) c).1 = CoordinatorState_Active.
Proof.
  intros Hu Hs Hp. destruct (String.eqb_spec from (c_nodeName (w_c (co_w c)))) as [->|Hne].
  { pose proof (coordinatorProcessEvent_cases (HeartbeatReceivedEvent (c_nodeName (w_c (co_w c))) (Some s)) c Hu) as Hc.
    simpl in Hc. rewrite String.eqb_refl in Hc. destruct Hc as [_ ->]. exact Hs. }
  assert (Hpre : preProcessEvent (HeartbeatReceivedEvent from (Some s)) (c <| co_locked := true |>) = (c <| co_locked := true |>, Ok false)).
  { simpl. by rewrite (proj2 (String.eqb_neq _ _) Hne). }
  erewrite process_dispatched; [|done|exact Hpre|].
  2: { erewrite dispatch_handlers; [|by change (coordState (c <| co_locked := true |>)) with (coordState c); rewrite Hs|reflexivity].
       cbn [ehs_Match ehs_Handlers].
       rewrite (matchAll_acts _ _ _ _ addEndorsers _ _ (learned s (c <| co_locked := true |>))) by (done || apply addEndorsers_learned).
       rewrite matchAll_declines; [reflexivity|].
       unfold matchesHandler, OnValid, eh_Validator.
       cbn [fromHigherPriorityLive ValidatorAnd validator_IsHeartbeatFromHigherPriorityCoordinator].
       by rewrite learned_priorities_locked, Hp. }
  destruct (learned_frame s (c <| co_locked := true |>)) as (Hm & _). unfold coordState. simpl. rewrite Hm. exact Hs.
Qed.

(** (C13) Two active coordinators that agree on the order of priority and hear each other's heartbeat
    resolve the conflict in one exchange: one of them, and only one, stays active; the other has
    stepped down and takes the first for the active coordinator. *)
Theorem two_actives_resolve c1 c2 s1 s2 :
  let n1 := c_nodeName (w_c (co_w c1)) in
  let n2 := c_nodeName (w_c (co_w c2)) in
  let list := c_coordinatorPriorityList (w_c (co_w (learned s2 c1))) in
  reachable c1 -> reachable c2 ->
  coordState c1 = CoordinatorState_Active -> coordState c2 = CoordinatorState_Active ->
  c_coordinatorPriorityList (w_c (co_w (learned s1 c2))) = list -> n1 ∈ list -> n2 ∈ list -> n1 <> n2 ->
  liveState (cs_CoordinatorState s1) = true -> liveState (cs_CoordinatorState s2) = true ->
  let c1' := (coordinatorProcessEvent (HeartbeatReceivedEvent n2 (Some s2)) c1).1 in
  let c2' := (coordinatorProcessEvent (HeartbeatReceivedEvent n1 (Some s1)) c2).1 in
  (coordState c1' = CoordinatorState_Active /\ steppedDown n1 c2 c2') \/
  (coordState c2' = CoordinatorState_Active /\ steppedDown n2 c1 c1').
Proof.
  intros n1 n2 list Hr1 Hr2 Ha1 Ha2 Hlist Hn1 Hn2 Hne Hl1 Hl2 c1' c2'.
  pose proof (reachable_ok _ Hr1) as [Hu1 _ _]. pose proof (reachable_ok _ Hr2) as [Hu2 _ _].
  assert (Hnode : forall s c, c_nodeName (w_c (co_w (learned s c))) = c_nodeName (w_c (co_w c))).
  { intros s c. unfold learned. destruct (c_coordinatorSelection _); try done. apply (worldStays_candidates (cs_EndorserCandidates s) (co_w c)). }
  assert (Hp1 : isHigherPriorityThanSelf (learned s2 c1) n2 = IsHigherPriority list n2 n1).
  { unfold isHigherPriorityThanSelf. by rewrite Hnode. }
  assert (Hp2 : isHigherPriorityThanSelf (learned s1 c2) n1 = IsHigherPriority list n1 n2).
  { unfold isHigherPriorityThanSelf. by rewrite Hnode, Hlist. }
  assert (Hcase : IsHigherPriority list n2 n1 = negb (IsHigherPriority list n1 n2)) by (by apply IsHigherPriority_total).
  assert (Hin : CoordinatorState_Active ∈ coordinatingStates) by (unfold coordinatingStates; list_member).
  destruct (IsHigherPriority list n1 n2) eqn:Hh.
  - left. split; [apply heartbeat_ignored; [done..|by rewrite Hp1, Hcase]|].
    apply outranked_stepped; [done|by rewrite Ha2|]. constructor; [done|by rewrite Hp2].
  - right. split; [apply heartbeat_ignored; [done..|by rewrite Hp2]|].
    apply outranked_stepped; [done|by rewrite Ha1|]. constructor; [done|by rewrite Hp1, Hcase].
Qed.
(** ** Rotating the signing identity *)

Lemma hasUnconfirmedDispatched_frame w w' :
  transactionsByID w' = transactionsByID w -> hasUnconfirmedDispatched w' = hasUnconfirmedDispatched w.
Proof.
  intros Ht. unfold hasUnconfirmedDispatched, getTransactionsInStates, rangeTransactions, txInStates, getCoordinatorTransactionState.
  by rewrite Ht.
Qed.

(** The identity that [action_NewSigningIdentity] makes next. *)
Definition nextSigningIdentity (c : Coord) : string :=
  ("domains." ++ conf_contractAddress (co_conf c) ++ ".submit." ++ pretty.pretty (w_nextUUID (co_w c)))%string.

(** What handling the epoch boundary leaves, when the identity may be rotated in place. *)
Definition rotated (c c' : Coord) : Prop :=
  coordState c' = CoordinatorState_Active /\ c_signingIdentity (w_c (co_w c')) = nextSigningIdentity c /\
  c_signingIdentityUsed (w_c (co_w c')) = false /\
  c_internalQueue (w_c (co_w c')) = c_internalQueue (w_c (co_w c)) ++ [RestartDispatchLoopEvent].

Lemma epoch_rotates c :
  coordState c = CoordinatorState_Active -> c_signingIdentityUsed (w_c (co_w c)) && hasUnconfirmedDispatched (co_w c) = false ->
  rotated c (coordDispatch EpochBoundaryReachedEvent c).1 /\ co_dispatchLoop (coordDispatch EpochBoundaryReachedEvent c).1 = false.
Proof.
  intros Hs Hm. erewrite dispatch_handlers; [|by rewrite Hs|reflexivity]. cbn [ehs_Match ehs_Handlers].
  set (c1 := c <| co_dispatchLoop := false |>).
  set (c2 := (action_NewSigningIdentity EpochBoundaryReachedEvent c1).1).
  set (c3 := (queueEventInternal RestartDispatchLoopEvent c2).1).
  rewrite (matchFirst_stays _ _ _ _ _ _ c c3); [|done|..].
  - repeat split; try done.
  - cbn [On eh_Actions]. rewrite (exec_act _ action_StopDispatchLoop _ c c1) by done.
    rewrite (exec_actIf _ _ action_NewSigningIdentity _ c1 c2); [|by cbv [GuardNot guard_MustFlushToRotateSigningIdentity]; simpl; rewrite Hm|done].
    by rewrite (exec_actIf _ _ action_QueueRestartDispatchLoop _ c2 c3).
  - cbn [On eh_Transitions]. by rewrite evaluate_skips.
Qed.

Lemma epoch_flushes c :
  coordState c = CoordinatorState_Active -> c_signingIdentityUsed (w_c (co_w c)) && hasUnconfirmedDispatched (co_w c) = true ->
  let c' := (coordDispatch EpochBoundaryReachedEvent c).1 in
  coordState c' = CoordinatorState_Active_Flush /\ co_w c' = co_w c /\ co_dispatchLoop c' = false.
Proof.
  intros Hs Hm. cbv zeta. erewrite dispatch_handlers; [|by rewrite Hs|reflexivity]. cbn [ehs_Match ehs_Handlers].
  set (c1 := c <| co_dispatchLoop := false |>).
  assert (Hg : guard_MustFlushToRotateSigningIdentity c1 = Some true) by (unfold guard_MustFlushToRotateSigningIdentity; simpl; by rewrite Hm).
  rewrite (matchFirst_takes _ _ _ _ _ _ c c1
    (ToIf CoordinatorState_Active_Flush guard_MustFlushToRotateSigningIdentity [])); [|done|..].
  - assert (Ht : takeTransition coordEntity coordStateDefinitionsMap (Some onStateTransition) EpochBoundaryReachedEvent
      (ToIf CoordinatorState_Active_Flush guard_MustFlushToRotateSigningIdentity []) c1
      = ((enterState coordEntity CoordinatorState_Active_Flush EpochBoundaryReachedEvent c1)
           <| co_dispatchLoop := false |> <| co_heartbeatIntervalsSinceStateChange := 0%Z |>, Ok tt)).
    { unfold takeTransition, gets, modify. unfold mbind at 1, M_bind at 1.
      change (GetCurrentState coordEntity c1) with (coordState c). by rewrite Hs. }
    by rewrite Ht.
  - cbn [On eh_Actions]. rewrite (exec_act _ action_StopDispatchLoop _ c c1) by done.
    rewrite !exec_skipIf; [done|..]; unfold GuardNot; by rewrite Hg.
  - cbn [On eh_Transitions]. by rewrite evaluate_takes.
Qed.

(** At an epoch boundary an active coordinator stops dispatching.  If its signing identity has
    been used for a transaction that is dispatched and not confirmed it flushes first and keeps the
    identity; otherwise it takes a new one, unused, and will restart the dispatch loop. *)
Theorem rotation_waits_for_flush c :
  reachable c -> coordState c = CoordinatorState_Active ->
  let c' := (coordinatorProcessEvent EpochBoundaryReachedEvent c).1 in
  co_dispatchLoop c' = false /\
  if c_signingIdentityUsed (w_c (co_w c)) && hasUnconfirmedDispatched (co_w c)
  then coordState c' = CoordinatorState_Active_Flush /\ w_c (co_w c') = w_c (co_w c)
  else rotated c c'.
Proof.
  intros Hr Hs. pose proof (reachable_ok _ Hr) as [Hu _ _]. cbv zeta.
  destruct (coordDispatch EpochBoundaryReachedEvent (c <| co_locked := true |>)) as [c2 r2] eqn:Hd.
  erewrite process_dispatched by done. set (c0 := c <| co_locked := true |>) in *.
  destruct (c_signingIdentityUsed (w_c (co_w c)) && hasUnconfirmedDispatched (co_w c)) eqn:Hm.
  - destruct (epoch_flushes c0 Hs Hm) as (H1 & H2 & H3). rewrite Hd in H1, H2, H3. simpl in *. by rewrite H2.
  - destruct (epoch_rotates c0 Hs Hm) as (H1 & H3). rewrite Hd in H1, H3. done.
Qed.

(** ** The end of closing *)

Lemma sendToAll_ok l contract c :
  (forall out msg, cenv_transport out msg = None) -> exists out, sendToAll l contract None c = (c <| co_outbox := out |>, Ok tt).
Proof.
  intros Ht. revert c. induction l as [|[node s] l IH]; intros c; simpl.
  - exists (co_outbox c). by destruct c.
  - unfold sendC. rewrite Ht. destruct (IH (c <| co_outbox ::= fun l0 => l0 ++ [SendHeartbeat node contract s] |>)) as (out & ->).
    by exists out.
Qed.

Lemma rangeTransactions_none w : transactionsByID w = ∅ -> rangeTransactions w = [].
Proof.
  intros Hw. unfold rangeTransactions. rewrite Hw, map_to_list_empty. apply Permutation_nil. symmetry. apply cenv_rangeTransactions_perm.
Qed.

(** One heartbeat interval of a coordinator that is closing and has nothing left in flight: the
    actions all succeed and count it. *)
Lemma closing_interval_actions c :
  (forall out msg, cenv_transport out msg = None) -> transactionsByID (co_w c) = ∅ ->
  exists c', executeActionRules CoordinatorHeartbeatIntervalEvent
    [Act action_UpdateOriginatorActivity; Act action_IncrementHeartbeatIntervalsSinceStateChange;
     Act action_SendHeartbeatWithLocks; Act action_PropagateHeartbeatIntervalToTransactions] c = (c', Ok tt) /\
    co_machine c' = co_machine c /\ co_locked c' = co_locked c /\ co_conf c' = co_conf c /\ co_w c' = co_w c /\
    co_heartbeatIntervalsSinceStateChange c' = Z.succ (co_heartbeatIntervalsSinceStateChange c) /\
    co_heartbeatIntervalsSinceLastReceive c' = co_heartbeatIntervalsSinceLastReceive c.
Proof.
  intros Ht Hw. set (c1 := (action_UpdateOriginatorActivity CoordinatorHeartbeatIntervalEvent c).1).
  assert (Hc1 : co_machine c1 = co_machine c /\ co_locked c1 = co_locked c /\ co_conf c1 = co_conf c /\ co_w c1 = co_w c /\
    co_heartbeatIntervalsSinceStateChange c1 = co_heartbeatIntervalsSinceStateChange c /\
    co_heartbeatIntervalsSinceLastReceive c1 = co_heartbeatIntervalsSinceLastReceive c).
  { subst c1. unfold action_UpdateOriginatorActivity, modify. simpl. by destruct (c_coordinatorSelection _). }
  destruct Hc1 as (H1 & H2 & H3 & H4 & H5 & H6). rewrite (exec_act _ _ _ _ c1) by done.
  set (c2 := c1 <| co_heartbeatIntervalsSinceStateChange ::= Z.succ |>). rewrite (exec_act _ _ _ _ c2) by done.
  assert (Hs : exists out, action_SendHeartbeatWithLocks CoordinatorHeartbeatIntervalEvent c2 = (c2 <| co_outbox := out |>, Ok tt)).
  { unfold action_SendHeartbeatWithLocks, sendHeartbeat, gets, mbind, M_bind. by apply sendToAll_ok. }
  destruct Hs as (out & Hs). rewrite (exec_act _ _ _ _ _ Hs). set (c3 := c2 <| co_outbox := out |>).
  rewrite (exec_act _ _ _ c3 c3).
  - exists c3. split; [done|]. split_and!; try done. simpl. by rewrite H5.
  - unfold action_PropagateHeartbeatIntervalToTransactions, propagateEventToAllTransactions, onWorld, gets, mbind, M_bind.
    rewrite rangeTransactions_none by (simpl; by rewrite H4). by destruct c3.
Qed.

(** Where closing ends. *)
Definition afterClosing (c : Coord) : CoordinatorState :=
  if (conf_inactiveGracePeriod (co_conf c) <? co_heartbeatIntervalsSinceLastReceive c)%Z
  then CoordinatorState_Idle else CoordinatorState_Observing.

Lemma closing_interval c :
  (forall out msg, cenv_transport out msg = None) -> transactionsByID (co_w c) = ∅ -> coordState c = CoordinatorState_Closing ->
  let c' := (coordDispatch CoordinatorHeartbeatIntervalEvent c).1 in
  co_locked c' = co_locked c /\ co_conf c' = co_conf c /\ transactionsByID (co_w c') = ∅ /\
  if (conf_closingGracePeriod (co_conf c) <=? co_heartbeatIntervalsSinceStateChange c)%Z
  then coordState c' = afterClosing c
  else coordState c' = CoordinatorState_Closing /\ afterClosing c' = afterClosing c /\
       co_heartbeatIntervalsSinceStateChange c' = Z.succ (co_heartbeatIntervalsSinceStateChange c).
Proof.
  intros Ht Hw Hs. cbv zeta. erewrite dispatch_handlers; [|by rewrite Hs|reflexivity]. cbn [ehs_Match ehs_Handlers].
  destruct (closing_interval_actions c Ht Hw) as (c1 & Ha & H1 & H2 & H3 & H4 & H5 & H6).
  assert (Hin : GuardNot guard_HasTransactionsInflight c1 = Some true).
  { unfold GuardNot, guard_HasTransactionsInflight. by rewrite H4, Hw, map_size_empty. }
  assert (Hgr : guard_ClosingGracePeriodExpired c1
    = Some (conf_closingGracePeriod (co_conf c) <=? co_heartbeatIntervalsSinceStateChange c)%Z).
  { unfold guard_ClosingGracePeriodExpired. rewrite H3, H5. f_equal. apply eq_bool_prop_intro. rewrite !Is_true_true, Z.ltb_lt, Z.leb_le. lia. }
  assert (Hs1 : coordState c1 = CoordinatorState_Closing) by (unfold coordState; by rewrite H1).
  assert (Htake : forall tr, tr_Actions tr = [] -> onTransitionTo coordStateDefinitionsMap (tr_To tr) = [] ->
    takeTransition coordEntity coordStateDefinitionsMap (Some onStateTransition) CoordinatorHeartbeatIntervalEvent tr c1
    = (onStateTransition CoordinatorState_Closing (tr_To tr) CoordinatorHeartbeatIntervalEvent
         (enterState coordEntity (tr_To tr) CoordinatorHeartbeatIntervalEvent c1), Ok tt)).
  { intros tr Hta Hto. rewrite takeTransition_plain; [|done|by change (GetCurrentState coordEntity c1) with (coordState c1); rewrite Hs1].
    rewrite GetCurrentState_enterState by apply _. change (GetCurrentState coordEntity c1) with (coordState c1). by rewrite Hs1, Hto. }
  destruct (conf_closingGracePeriod (co_conf c) <=? co_heartbeatIntervalsSinceStateChange c)%Z.
  - assert (Hia : guard_InactiveGracePeriodExceeded c1
      = Some (conf_inactiveGracePeriod (co_conf c) <? co_heartbeatIntervalsSinceLastReceive c)%Z).
    { unfold guard_InactiveGracePeriodExceeded. by rewrite H3, H6. }
    unfold afterClosing. destruct (conf_inactiveGracePeriod (co_conf c) <? co_heartbeatIntervalsSinceLastReceive c)%Z.
    + erewrite matchFirst_takes; [|done|exact Ha|].
      2: { cbn [On eh_Transitions]. apply evaluate_takes. unfold GuardAnd. by rewrite Hin, Hgr, Hia. }
      rewrite Htake by done. split_and!; [exact H2|exact H3|simpl; by rewrite H4|done].
    + erewrite matchFirst_takes; [|done|exact Ha|].
      2: { cbn [On eh_Transitions]. rewrite evaluate_skips, evaluate_takes; [reflexivity|..];
             unfold GuardAnd; rewrite Hin, Hgr; unfold GuardNot; by rewrite Hia. }
      rewrite Htake by done. split_and!; [exact H2|exact H3|simpl; by rewrite H4|done].
  - erewrite matchFirst_stays; [|done|exact Ha|].
    2: { cbn [On eh_Transitions]. rewrite !evaluate_skips; [reflexivity|..]; unfold GuardAnd; by rewrite Hin, Hgr. }
    split_and!; [exact H2|exact H3|simpl; by rewrite H4|done|simpl; unfold afterClosing; by rewrite H3, H6|exact H5].
Qed.

(** [n] heartbeat intervals in a row. *)
Definition intervals (n : nat) (c : Coord) : Coord :=
  Nat.iter n (fun c => (coordinatorProcessEvent CoordinatorHeartbeatIntervalEvent c).1) c.

Lemma intervals_succ n c : intervals (S n) c = intervals n (coordinatorProcessEvent CoordinatorHeartbeatIntervalEvent c).1.
Proof. unfold intervals. apply Nat.iter_succ_r. Qed.

Lemma closing_process c :
  (forall out msg, cenv_transport out msg = None) -> co_locked c = false -> transactionsByID (co_w c) = ∅ ->
  coordState c = CoordinatorState_Closing ->
  let c' := (coordinatorProcessEvent CoordinatorHeartbeatIntervalEvent c).1 in
  co_locked c' = false /\ co_conf c' = co_conf c /\ transactionsByID (co_w c') = ∅ /\
  if (conf_closingGracePeriod (co_conf c) <=? co_heartbeatIntervalsSinceStateChange c)%Z
  then coordState c' = afterClosing c
  else coordState c' = CoordinatorState_Closing /\ afterClosing c' = afterClosing c /\
       co_heartbeatIntervalsSinceStateChange c' = Z.succ (co_heartbeatIntervalsSinceStateChange c).
Proof.
  intros Ht Hu Hw Hs. cbv zeta.
  destruct (coordDispatch CoordinatorHeartbeatIntervalEvent (c <| co_locked := true |>)) as [c2 r2] eqn:Hd.
  erewrite process_dispatched by done. set (c0 := c <| co_locked := true |>) in *.
  destruct (closing_interval c0 Ht Hw Hs) as (_ & H2 & H3 & H4). rewrite Hd in H2, H3, H4. cbn [fst] in *.
  split_and!; [done|exact H2|exact H3|]. exact H4.
Qed.

(** Closing ends: a closing coordinator with nothing left in flight, whose messages can be sent,
    leaves Closing after as many heartbeat intervals as are left of its grace period, and one more.
    The intervals it spends closing do not count as silence of the node it handed over to: it goes to
    Idle only if that node was already counted as inactive before, and to Observing otherwise. *)
Theorem closing_ends c :
  reachable c -> (forall out msg, cenv_transport out msg = None) ->
  coordState c = CoordinatorState_Closing -> transactionsByID (co_w c) = ∅ ->
  coordState (intervals (S (Z.to_nat (conf_closingGracePeriod (co_conf c) - co_heartbeatIntervalsSinceStateChange c))) c)
  = afterClosing c.
Proof.
  intros Hr Ht Hs Hw. pose proof (reachable_ok _ Hr) as [Hu _ _]. clear Hr.
  remember (Z.to_nat (conf_closingGracePeriod (co_conf c) - co_heartbeatIntervalsSinceStateChange c)) as n eqn:Hn.
  revert c Hs Hw Hu Hn. induction n as [|n IH]; intros c Hs Hw Hu Hn; rewrite intervals_succ;
    destruct (closing_process c Ht Hu Hw Hs) as (H1 & H2 & H3 & H4);
    destruct (Z.leb_spec (conf_closingGracePeriod (co_conf c)) (co_heartbeatIntervalsSinceStateChange c)).
  - exact H4.
  - lia.
  - lia.
  - destruct H4 as (Hs' & <- & Hk). apply IH; [done..|]. rewrite H2, Hk. lia.
Qed.
End Protocol.

(** node1 and node2 are both active. *)
Lemma two_actives_resolve_witness :
  let c1 := activeAt "node1" [1%N] in
  let c2 := activeAt "node2" [2%N] in
  let s := MkCoordinatorSnapshot [] [] [] [] CoordinatorState_Active 0 [] None in
  let c1' := (coordinatorProcessEvent (HeartbeatReceivedEvent "node2" (Some s)) c1).1 in
  let c2' := (coordinatorProcessEvent (HeartbeatReceivedEvent "node1" (Some s)) c2).1 in
  (coordState c1' = CoordinatorState_Active /\ steppedDown "node1" c2 c2') \/
  (coordState c2' = CoordinatorState_Active /\ steppedDown "node2" c1 c1').
Proof.
  intros c1 c2 s.
  assert (Hn1 : c_nodeName (w_c (co_w c1)) = "node1"%string) by (vm_compute; reflexivity).
  assert (Hn2 : c_nodeName (w_c (co_w c2)) = "node2"%string) by (vm_compute; reflexivity).
  assert (Hl : c_coordinatorPriorityList (w_c (co_w (learned s c1))) = ["node1"; "node2"; "node3"]%string) by (vm_compute; reflexivity).
  pose proof (two_actives_resolve c1 c2 s s) as Ht. cbv zeta in Ht. rewrite Hn1, Hn2, Hl in Ht. apply Ht.
  1, 2: apply active_reached; vm_compute; reflexivity.
  1, 2, 3: vm_compute; reflexivity.
  1, 2: list_member.
  - done.
  - reflexivity.
  - reflexivity.
Defined.

(** An active coordinator that handed over, with nothing dispatched. *)
Definition closingCoord : Coord := deliver (HandoverRequestEvent "node1") (activeCoord [1%N; 2%N]).

Lemma closing_reachable : reachable closingCoord.
Proof.
  destruct active_reachable as (conf & range & node & sc & Hr). exists conf, range, node, sc. etrans; [exact Hr|].
  apply deliver_run; vm_compute; reflexivity.
Qed.

Lemma closing_ends_witness : coordState (intervals 3 closingCoord) = CoordinatorState_Observing.
Proof.
  assert (Hk : 3%nat = S (Z.to_nat (conf_closingGracePeriod (co_conf closingCoord) - co_heartbeatIntervalsSinceStateChange closingCoord)))
    by (vm_compute; reflexivity).
  rewrite Hk. change CoordinatorState_Observing with (afterClosing closingCoord).
  apply (closing_ends closingCoord); [apply closing_reachable|done|vm_compute; reflexivity..].
Defined.

Lemma rotation_waits_for_flush_witness :
  let c' := (coordinatorProcessEvent EpochBoundaryReachedEvent (activeCoord [1%N; 2%N])).1 in
  co_dispatchLoop c' = false /\ rotated (activeCoord [1%N; 2%N]) c'.
Proof.
  assert (Hs : coordState (activeCoord [1%N; 2%N]) = CoordinatorState_Active) by (vm_compute; reflexivity).
  assert (Hm : c_signingIdentityUsed (w_c (co_w (activeCoord [1%N; 2%N]))) && hasUnconfirmedDispatched (co_w (activeCoord [1%N; 2%N])) = false)
    by (vm_compute; reflexivity).
  pose proof (rotation_waits_for_flush _ active_reachable Hs) as Hr. cbv zeta in Hr. rewrite Hm in Hr. exact Hr.
Defined.
