(* ===== verification/CoordDelegation.v ===== *)
(** * Delegated transactions

    What an originator is told about the transactions it delegates, and the delegations that a
    coordinator mishandles.

    Sources: coordinator/coordinating.go (addToDelegatedTransactions), coordinator/state_machine.go. *)

From S2P Require Import Prelude StateMachine Identity Selection DependencyTracker StateVisibility Grapher StateView.
From S2P Require Import TxTypes CoordTypes World TxActions TxMachine TxPropagation DispatchLoop Sample.
From S2P Require Import CoordWorld CoordActions CoordEndorse CoordMachine CoordSample CoordInvariants CoordWf CoordRuns CoordStepDown.
From S2P Require Import CoordProtocol.
Open Scope list_scope.

Section Delegation.
Context `{Env, CoordEnv}.

(** The coordinator takes no further transaction. *)
Definition fullUp (conf : CoordConfig) (d : Delegating) (w : World) : Prop :=
  dl_error d <> None \/ (conf_maxInflightTransactions conf <= Z.of_nat (size (transactionsByID w)))%Z.

(** What an acknowledgement promises about the transactions the coordinator ends up with. *)
Definition ackHolds (ids : gset N) (p : PrivateTransaction) (a : DelegationAcknowledgementError) : Prop :=
  match a with
  | DelegationAcknowledgementError_None => pt_ID p ∈ ids
  | DelegationAcknowledgementError_MaxInflightTransactions | DelegationAcknowledgementError_CoordinatorError => pt_ID p ∉ ids
  | DelegationAcknowledgementError_PreviousTransactionError => True
  end.

(** One turn: what it appends, and what it does to the ids. *)
Lemma delegateOne_ack conf o node d p w w' d' :
  delegateOne conf o node d p w = (w', Ok d') ->
  exists a, dl_AcknowledgementErrors d' = dl_AcknowledgementErrors d ++ [a] /\
    dom (transactionsByID w) ⊆ dom (transactionsByID w') /\
    (fullUp conf d w -> dom (transactionsByID w') = dom (transactionsByID w) /\ fullUp conf d' w') /\
    (dl_error d <> None -> dl_error d' <> None) /\
    ackHolds (dom (transactionsByID w')) p a /\
    (match a with
     | DelegationAcknowledgementError_MaxInflightTransactions | DelegationAcknowledgementError_CoordinatorError => fullUp conf d' w'
     | _ => True
     end).
Proof.
  unfold delegateOne, fullUp. destruct (dl_error d) as [e|] eqn:Ee.
  { intros [= <- <-]. exists DelegationAcknowledgementError_PreviousTransactionError. simpl. rewrite Ee. naive_solver. }
  destruct (transactionsByID w !! pt_ID p) as [t|] eqn:Hp.
  { intros [= <- <-]. exists DelegationAcknowledgementError_None. simpl. rewrite Ee.
    split_and!; try done. apply elem_of_dom. eauto. }
  apply not_elem_of_dom in Hp. destruct (_ <=? _)%Z eqn:Hlim.
  { intros [= <- <-]. exists DelegationAcknowledgementError_MaxInflightTransactions. simpl. rewrite Ee.
    apply Z.leb_le in Hlim. split_and!; try done; naive_solver. }
  apply Z.leb_gt in Hlim.
  destruct (admit_evolves (transactionConfig conf) o node (dl_previousTransaction d) p w) as (w1 & t & He & Hpt & Ht1 & Hl1).
  destruct (admitTransaction _ _ _ _ _ _) as [w2 [[]|e|x]]; simpl in He; [| |done].
  all: pose proof (evolves_dom _ _ He) as Hdom; rewrite Ht1, dom_insert_L in Hdom.
  - intros [= <- <-]. exists DelegationAcknowledgementError_None. simpl. rewrite Hdom, Ee.
    split_and!; try done; [set_solver|intros [|]; [done|lia]|set_solver].
  - intros [= <- <-]. exists DelegationAcknowledgementError_CoordinatorError. simpl. rewrite dom_delete_L, Hdom.
    split_and!; try done; [set_solver|intros [|]; [done|lia]|set_solver|by left].
Qed.

Lemma delegateAll_acks conf o node l d w w' d' :
  delegateAll conf o node d l w = (w', Ok d') ->
  exists acks, dl_AcknowledgementErrors d' = dl_AcknowledgementErrors d ++ acks /\
    dom (transactionsByID w) ⊆ dom (transactionsByID w') /\
    (fullUp conf d w -> dom (transactionsByID w') = dom (transactionsByID w)) /\
    Forall2 (ackHolds (dom (transactionsByID w'))) l acks.
Proof.
  revert d w. induction l as [|p l IH]; intros d w; simpl.
  - intros [= <- <-]. exists []. rewrite app_nil_r. split_and!; try done; by constructor.
  - unfold mbind, M_bind. destruct (delegateOne conf o node d p w) as [w1 [d1| |]] eqn:E; [|done..].
    intros Hl. destruct (delegateOne_ack _ _ _ _ _ _ _ _ E) as (a & Ha & Hd & Hf & He & Hk & Hfull).
    destruct (IH d1 w1 Hl) as (acks & Hacks & Hd1 & Hf1 & Hk1). exists (a :: acks).
    split_and!; [by rewrite Hacks, Ha, <- app_assoc|by etrans| |].
    + intros Hfu. destruct (Hf Hfu) as [Hdom Hfu1]. by rewrite (Hf1 Hfu1).
    + constructor; [|done]. destruct a; simpl in *; [by apply Hd1|by rewrite Hf1|by rewrite Hf1|done].
Qed.

(** The errors of single transactions are collected, not returned. *)
Lemma delegateAll_never_fails conf o node l d w w' e : delegateAll conf o node d l w <> (w', Err e).
Proof.
  revert d w. induction l as [|p l IH]; intros d w; simpl; [done|]. unfold mbind, M_bind.
  destruct (delegateOne conf o node d p w) as [w1 [d1|e1|x]] eqn:E; [apply IH| |done].
  exfalso. revert E. unfold delegateOne. destruct (dl_error d); [done|]. destruct (transactionsByID w !! pt_ID p); [done|].
  destruct (_ <=? _)%Z; [done|]. by destruct (admitTransaction _ _ _ _ _ _) as [? [[]| |]].
Qed.

(** Every delegation that names its originator is answered with one acknowledgement per
    transaction, in the order of the request: a transaction acknowledged without error is being
    coordinated, and one refused for the limit or for an error is not. *)
Theorem delegation_acknowledged originator transactions delegationID c c' r identity node :
  addToDelegatedTransactions originator transactions delegationID c = (c', r) -> survived r ->
  Validate originator EmptyString false = Ok (identity, node) ->
  (forall out msg, cenv_transport out msg = None) ->
  exists acks,
    co_outbox c' = co_outbox c ++ [SendDelegationResponse node
      (MkDelegationResponse delegationID (pt_ID <$> transactions) node (conf_contractAddress (co_conf c)) acks)] /\
    Forall2 (ackHolds (dom (transactionsByID (co_w c')))) transactions acks.
Proof.
  intros Hrun Hsv Hval Ht. unfold addToDelegatedTransactions, gets, liftR in Hrun.
  unfold mbind at 1, M_bind at 1 in Hrun. unfold mbind at 1, M_bind at 1 in Hrun. rewrite Hval in Hrun.
  unfold mbind at 1, M_bind at 1, onWorld in Hrun. cbn [snd] in Hrun.
  destruct (delegateAll _ _ _ _ _ (co_w c)) as [w1 [d1|e|x]] eqn:Hd.
  - destruct (delegateAll_acks _ _ _ _ _ _ _ _ Hd) as (acks & Hacks & _ & _ & Hk). simpl in Hacks. rewrite Hacks in Hrun.
    exists acks. unfold mbind, M_bind, sendC in Hrun. rewrite Ht in Hrun.
    destruct (0 <? dl_rejectedMaxInFlight d1)%nat; [|destruct (dl_error d1)]; by injection Hrun as <- <-.
  - by apply delegateAll_never_fails in Hd.
  - injection Hrun as <- <-. by destruct (Hsv x).
Qed.

(** ** Delegations that go wrong *)

Lemma idle_ignores_transitions tx from to c :
  co_locked c = false -> coordState c = CoordinatorState_Idle ->
  coordinatorProcessEvent (TransactionStateTransitionEvent tx from to) c = (c, Ok tt).
Proof.
  intros Hu Hs. rewrite (process_dispatched _ c (c <| co_locked := true |>) (Ok tt)); [|done|done|].
  - f_equal. destruct c. simpl in Hu. by subst.
  - unfold dispatchEvent, gets, mbind, M_bind. change (GetCurrentState coordEntity (c <| co_locked := true |>)) with (coordState c).
    by rewrite Hs.
Qed.

Lemma matchAll_fails event (h : CEventHandler) rest c c1 err :
  matchesHandler event h c = Ok true -> executeActionRules event (eh_Actions h) c = (c1, Err err) ->
  processMatchAll coordEntity coordStateDefinitionsMap (Some onStateTransition) event (h :: rest) c = (c1, Err err).
Proof. intros Hh Ha. simpl. unfold mbind, M_bind, liftR. by rewrite Hh, Ha. Qed.

Lemma matchAll_panics event (h : CEventHandler) rest c c1 x :
  matchesHandler event h c = Ok true -> executeActionRules event (eh_Actions h) c = (c1, Crash x) ->
  processMatchAll coordEntity coordStateDefinitionsMap (Some onStateTransition) event (h :: rest) c = (c1, Crash x).
Proof. intros Hh Ha. simpl. unfold mbind, M_bind, liftR. by rewrite Hh, Ha. Qed.

(** The action fails once the limit was reached, whatever it accepted. *)
Lemma overlimit_action_fails e c w2 d identity node :
  Validate (tde_Originator e) EmptyString false = Ok (identity, node) ->
  delegateAll (co_conf c) (tde_Originator e) node (MkDelegating None [] 0 0 0 None) (tde_Transactions e) (co_w c) = (w2, Ok d) ->
  (0 < dl_rejectedMaxInFlight d)%nat ->
  exists c' err, action_ProcessDelegatedTransactions (TransactionsDelegatedEvent e) c = (c', Err err) /\
    co_machine c' = co_machine c /\ co_locked c' = co_locked c /\ co_w c' = w2 /\ co_pooledTransactions c' = co_pooledTransactions c.
Proof.
  intros Hv Hd Hrej%Nat.ltb_lt.
  unfold action_ProcessDelegatedTransactions, recordOriginatorActivity, addToDelegatedTransactions, modify, gets, liftR.
  unfold mbind, M_bind. rewrite Hv. cbn [snd].
  set (c1 := match c_coordinatorSelection (w_c (co_w c)) with COORDINATOR_ENDORSER => c | _ => _ end).
  assert (H1 : co_machine c1 = co_machine c /\ co_locked c1 = co_locked c /\ co_w c1 = co_w c /\ co_conf c1 = co_conf c /\
    co_pooledTransactions c1 = co_pooledTransactions c) by (subst c1; by destruct (c_coordinatorSelection _)).
  destruct H1 as (Hm & Hl & Hw & Hc & Hp). unfold onWorld. rewrite Hc, Hw, Hd. unfold sendC.
  destruct (cenv_transport _ _) as [err|]; [|rewrite Hrej]; eexists _, _; (split; [reflexivity|by split_and!]).
Qed.

(** An idle coordinator that is delegated more transactions than its limit allows accepts the
    first ones, tells the originator so, and then fails: it stays Idle, so the transactions it
    accepted never enter the pool, and their state changes, which queue them for assembly, are
    ignored. *)
Theorem overlimit_delegation_strands c e w1 w2 d identity node :
  reachable c -> coordState c = CoordinatorState_Idle ->
  refreshBlockHeight (co_w c) = (w1, Ok tt) ->
  (heightDistance (u64 (c_currentBlockHeight (w_c w1))) (tde_OriginatorsBlockHeight e) <= conf_blockHeightTolerance (co_conf c))%Z ->
  Validate (tde_Originator e) EmptyString false = Ok (identity, node) ->
  delegateAll (co_conf c) (tde_Originator e) node (MkDelegating None [] 0 0 0 None) (tde_Transactions e) w1 = (w2, Ok d) ->
  (0 < dl_rejectedMaxInFlight d)%nat ->
  let c' := (coordinatorProcessEvent (TransactionsDelegatedEvent e) c).1 in
  coordState c' = CoordinatorState_Idle /\ co_w c' = w2 /\ co_pooledTransactions c' = co_pooledTransactions c /\
  forall tx from to, coordinatorProcessEvent (TransactionStateTransitionEvent tx from to) c' = (c', Ok tt).
Proof.
  intros Hr Hs Href Hh Hv Hd Hrej. pose proof (reachable_ok _ Hr) as [Hu _ _]. cbv zeta.
  set (c0 := c <| co_locked := true |>). set (c1 := c0 <| co_w := w1 |>).
  destruct (overlimit_action_fails e c1 w2 d identity node Hv Hd Hrej) as (c2 & err & Ha & Hm & Hl & Hw & Hp).
  assert (Hex : validator_IsDelegationBlockHeightToleranceExceeded (TransactionsDelegatedEvent e) c1 = Ok false).
  { simpl. f_equal. by apply Z.ltb_ge. }
  assert (Hp2 : coordinatorProcessEvent (TransactionsDelegatedEvent e) c = (c2 <| co_locked := false |>, Err err)).
  { apply process_dispatched; [done|done|]. change (c <| co_locked := true |>) with c0.
    erewrite dispatch_handlers; [|by change (coordState c0) with (coordState c); rewrite Hs|reflexivity].
    cbn [ehs_Match ehs_Handlers app delegationChecks].
    erewrite (matchAll_acts _ _ _ _ _ _ _ c1); [|done| |done|done].
    2: { cbn [On eh_Actions]. erewrite exec_act; [reflexivity|]. unfold action_RefreshBlockHeight, onWorld.
         change (co_w c0) with (co_w c). by rewrite Href. }
    rewrite matchAll_declines by exact Hex. apply matchAll_fails.
    - unfold matchesHandler, OnValid, eh_Validator, heightTolerated, ValidatorNot. by rewrite Hex.
    - cbn [OnValid eh_Actions executeActionRules Act ar_If ar_Action guardPasses]. unfold mbind, M_bind, mret, M_ret. by rewrite Ha. }
  rewrite Hp2. cbn [fst].
  assert (Hs2 : coordState (c2 <| co_locked := false |>) = CoordinatorState_Idle).
  { unfold coordState. simpl. rewrite Hm. exact Hs. }
  split_and!; [done|done|exact Hp|]. intros tx from to. by apply idle_ignores_transitions.
Qed.

(** In endorser mode a heartbeat that carries no snapshot panics the coordinator's event loop
    in every state but Initial. *)
Theorem heartbeat_without_snapshot_panics c from :
  reachable c -> coordState c <> CoordinatorState_Initial -> (forall value, coordState c <> CoordinatorState_unknown value) ->
  c_coordinatorSelection (w_c (co_w c)) = COORDINATOR_ENDORSER -> from <> c_nodeName (w_c (co_w c)) ->
  (coordinatorProcessEvent (HeartbeatReceivedEvent from None) c).2 = Crash Panic.
Proof.
  intros Hr Hi Hunk Hsel Hne. pose proof (reachable_ok _ Hr) as [Hu _ _]. set (c0 := c <| co_locked := true |>).
  assert (Hg : guard_IsCoordinatorEndorserSelectionMode c0 = Some true).
  { unfold guard_IsCoordinatorEndorserSelectionMode. change (co_w c0) with (co_w c). by rewrite Hsel. }
  assert (Hcrash : forall rest, processMatchAll coordEntity coordStateDefinitionsMap (Some onStateTransition)
    (HeartbeatReceivedEvent from None) (addEndorsers :: rest) c0 = (c0, Crash Panic)).
  { intros rest. apply matchAll_panics; [done|]. cbn [addEndorsers On eh_Actions executeActionRules ActIf ar_If ar_Action guardPasses].
    unfold mbind, M_bind, liftR. cbv beta. by rewrite Hg. }
  rewrite (process_dispatched _ c c0 (Crash Panic)); [done|done| |].
  - simpl. by rewrite (proj2 (String.eqb_neq _ _) Hne).
  - change (c <| co_locked := true |>) with c0.
    destruct (coordState c) eqn:Hs; try done; try (by destruct (Hunk value)).
    all: erewrite dispatch_handlers; [|by change (coordState c0) with (coordState c); rewrite Hs|reflexivity].
    all: cbn [ehs_Match ehs_Handlers]; apply Hcrash.
Qed.
End Delegation.

(** ** Examples *)

Lemma delegation_acknowledged_witness :
  let c' := (addToDelegatedTransactions "alice@node1" (samplePrivateTx <$> [1%N; 2%N; 3%N]) "delegation" idleCoord).1 in
  exists acks,
    co_outbox c' = [SendDelegationResponse "node1"
      (MkDelegationResponse "delegation" [1%N; 2%N; 3%N] "node1" "0xc0ffee" acks)] /\
    Forall2 (ackHolds (dom (transactionsByID (co_w c')))) (samplePrivateTx <$> [1%N; 2%N; 3%N]) acks.
Proof.
  cbv zeta. destruct (addToDelegatedTransactions "alice@node1" (samplePrivateTx <$> [1%N; 2%N; 3%N]) "delegation" idleCoord) as [c' r] eqn:E.
  apply (delegation_acknowledged "alice@node1" (samplePrivateTx <$> [1%N; 2%N; 3%N]) "delegation" idleCoord c' r "alice" "node1" E);
    [|vm_compute; reflexivity|done].
  intros x ->. apply (f_equal (fun p => is_Ok p.2 || match p.2 with Err _ => true | _ => false end)) in E. vm_compute in E. discriminate E.
Defined.

(** Three transactions for a coordinator that takes two. *)
Definition overlimitDelegation : TransactionsDelegated :=
  MkTransactionsDelegated "node1" "alice@node1" (samplePrivateTx <$> [1%N; 2%N; 3%N]) 0 "delegation".

Lemma overlimit_delegation_strands_witness :
  let c' := (coordinatorProcessEvent (TransactionsDelegatedEvent overlimitDelegation) idleCoord).1 in
  size (transactionsByID (co_w c')) = 2%nat /\ coordState c' = CoordinatorState_Idle /\ co_pooledTransactions c' = [].
Proof.
  cbv zeta. split; [vm_compute; reflexivity|].
  set (w1 := (refreshBlockHeight (co_w idleCoord)).1).
  destruct (delegateAll (co_conf idleCoord) "alice@node1" "node1" (MkDelegating None [] 0 0 0 None)
    (tde_Transactions overlimitDelegation) w1) as [w [d|e|x]] eqn:Hd; [|exfalso..].
  - assert (Hrej : (0 < dl_rejectedMaxInFlight d)%nat).
    { apply (f_equal (fun p => match p.2 with Ok d => dl_rejectedMaxInFlight d | _ => O end)) in Hd. simpl in Hd. rewrite <- Hd.
      vm_compute. lia. }
    pose proof (overlimit_delegation_strands idleCoord overlimitDelegation w1 w d "alice" "node1" idle_reachable) as Hs.
    destruct Hs as (Hst & _ & Hp & _); [vm_compute; reflexivity|vm_compute; reflexivity|vm_compute; discriminate|vm_compute; reflexivity|exact Hd|exact Hrej|].
    split; [exact Hst|]. rewrite Hp. vm_compute. reflexivity.
  - apply (f_equal (fun p => match p.2 with Err _ => true | _ => false end)) in Hd. vm_compute in Hd. discriminate Hd.
  - apply (f_equal (fun p => match p.2 with Crash _ => true | _ => false end)) in Hd. vm_compute in Hd. discriminate Hd.
Defined.

Lemma heartbeat_without_snapshot_panics_witness :
  (coordinatorProcessEvent (HeartbeatReceivedEvent "node1" None) idleCoord).2 = Crash Panic.
Proof.
  apply (heartbeat_without_snapshot_panics idleCoord "node1" idle_reachable); vm_compute; try reflexivity; try discriminate.
Defined.
