(* ===== verification/CoordSlot.v ===== *)
(** * One assembly at a time

    The coordinator's assembly slot is held from the selection of a transaction until the coordinator
    has handled the event that says it left State_Assembling.  So at most one transaction is being
    assembled.

    Sources: coordinator/coordinating.go, coordinator/state_machine.go, transaction/state_machine.go. *)

From S2P Require Import Prelude StateMachine Identity Selection DependencyTracker StateVisibility Grapher StateView.
From S2P Require Import TxTypes CoordTypes World TxActions TxMachine TxPropagation DispatchLoop Sample.
From S2P Require Import CoordWorld CoordActions CoordEndorse CoordMachine CoordSample CoordInvariants CoordWf CoordRuns CoordStepDown.
Open Scope list_scope.

(** ** Transactions in assembly *)

Definition isAssembling (t : coordinatorTransaction) : Prop := currentState (stateMachine t) = State_Assembling.

#[export] Instance isAssembling_dec t : Decision (isAssembling t) := decide (currentState (stateMachine t) = State_Assembling).

(** One for the state that holds the slot. *)
Definition holds (s : State) : nat := match s with State_Assembling => 1 | _ => 0 end.

Lemma holds_spec t : (if decide (isAssembling t) then 1 else 0)%nat = holds (currentState (stateMachine t)).
Proof. destruct (decide (isAssembling t)) as [Hs|Hs]; unfold isAssembling in Hs; [by rewrite Hs|]. by destruct (currentState (stateMachine t)). Qed.

(** The transactions in State_Assembling. *)
Definition assembling (w : World) : gmap N coordinatorTransaction := filter (fun kv => isAssembling kv.2) (transactionsByID w).

(** The event says that a transaction has left State_Assembling. *)
Definition fromAssembling (e : CoordinatorEvent) : bool :=
  match e with
  | TransactionStateTransitionEvent _ State_Assembling _ => true
  | _ => false
  end.

(** Transactions in assembly, and departures the coordinator has not handled yet. *)
Definition leaving (w : World) : nat := length (List.filter fromAssembling (c_internalQueue (w_c w))).
Definition occupancy (w : World) : nat := (size (assembling w) + leaving w)%nat.

(** Of a map in which one entry changes. *)
Lemma size_assembling_insert (m : gmap N coordinatorTransaction) id t t' :
  m !! id = Some t ->
  (size (filter (fun kv => isAssembling kv.2) (<[id := t']> m)) + (if decide (isAssembling t) then 1 else 0)
   = size (filter (fun kv => isAssembling kv.2) m) + (if decide (isAssembling t') then 1 else 0))%nat.
Proof.
  intros Ht. set (P := fun kv : N * coordinatorTransaction => isAssembling kv.2).
  assert (Hnone : filter P (delete id m) !! id = None).
  { apply map_lookup_filter_None. left. apply lookup_delete_eq. }
  assert (Hsz : forall x, size (filter P (<[id := x]> (delete id m))) = ((if decide (isAssembling x) then 1 else 0) + size (filter P (delete id m)))%nat).
  { intros x. destruct (decide (isAssembling x)) as [Hx|Hx].
    - rewrite map_filter_insert_True by done. by rewrite map_size_insert_None.
    - rewrite map_filter_insert_False by done. by rewrite delete_id by (apply lookup_delete_eq). }
  rewrite <- (insert_delete_eq m id t' ), (Hsz t'). rewrite <- (insert_delete_id m id t Ht) at 2. rewrite (Hsz t). lia.
Qed.

Lemma occupancy_frame w w' :
  transactionsByID w' = transactionsByID w ->
  (exists q, c_internalQueue (w_c w') = c_internalQueue (w_c w) ++ q /\ Forall notTransition q) -> occupancy w' = occupancy w.
Proof.
  intros Ht (q & Hq & Hn). unfold occupancy, assembling, leaving. rewrite Ht, Hq, List.filter_app, length_app. f_equal.
  assert (Hf : List.filter fromAssembling q = []); [|rewrite Hf; simpl; lia].
  clear Hq. induction Hn as [|e q He _ IH]; [done|]. destruct e; simpl; first [exact IH | by destruct He].
Qed.

Lemma occupancy_quiet w w' :
  transactionsByID w' = transactionsByID w -> quiet (w_c w) (w_c w') -> occupancy w' = occupancy w.
Proof. intros Ht [_ _ _ Hq]. by apply occupancy_frame. Qed.

Lemma occupancy_insert w id t t' :
  transactionsByID w !! id = Some t ->
  (occupancy (w <| transactionsByID := <[id := t']> (transactionsByID w) |>) + holds (currentState (stateMachine t))
   = occupancy w + holds (currentState (stateMachine t')))%nat.
Proof.
  intros Ht. pose proof (size_assembling_insert _ _ _ t' Ht) as Hs. rewrite !holds_spec in Hs. unfold occupancy, assembling, leaving. simpl. lia.
Qed.

Lemma occupancy_setTx id f w : keepsMachine f -> occupancy (setTx id f w) = occupancy w.
Proof.
  intros Hf. unfold setTx. destruct (transactionsByID w !! id) as [t|] eqn:Ht.
  - pose proof (occupancy_insert w id t (f t) Ht) as Hi.
    rewrite (proj1 (Hf t)) in Hi.
    assert (He : w <| transactionsByID ::= alter f id |> = w <| transactionsByID := <[id := f t]> (transactionsByID w) |>).
    { unfold field_set. f_equal. apply map_eq. intros j. destruct (decide (j = id)) as [->|Hne].
      - by rewrite lookup_alter_eq, lookup_insert_eq, Ht.
      - by rewrite lookup_alter_ne, lookup_insert_ne. }
    rewrite He. lia.
  - apply occupancy_quiet; [|done]. simpl. apply map_eq. intros j. destruct (decide (j = id)) as [->|Hne].
    + by rewrite lookup_alter_eq, Ht.
    + by rewrite lookup_alter_ne.
Qed.

(** A transaction enters another state. *)
Lemma occupancy_enterState id s event t w :
  transactionsByID w !! id = Some t ->
  (occupancy (enterState (txEntity id) s event w) + holds (currentState (stateMachine t)) = occupancy w + holds s)%nat.
Proof.
  intros Ht. set (t' := t <| stateMachine := MkMachine s (Some (Type_of event)) (w_now w) |>).
  pose proof (occupancy_insert w id t t' Ht) as Hi.
  assert (He : transactionsByID (enterState (txEntity id) s event w) = <[id := t']> (transactionsByID w)).
  { apply map_eq. intros j. rewrite enterState_lookup. destruct (decide (j = id)) as [->|Hne].
    - by rewrite lookup_insert_eq, Ht.
    - by rewrite lookup_insert_ne. }
  assert (Ho : occupancy (enterState (txEntity id) s event w) = occupancy (w <| transactionsByID := <[id := t']> (transactionsByID w) |>)).
  { apply occupancy_frame; [by rewrite He|]. exists []. by rewrite app_nil_r. }
  by rewrite Ho, Hi.
Qed.

(** The engine's callback announces the state left. *)
Lemma occupancy_callback id from to event w :
  occupancy (transitionCallback id from to event w) = (occupancy w + holds from)%nat.
Proof.
  unfold transitionCallback. set (f := fun t => _).
  assert (Hs : occupancy (setTx id f w) = occupancy w) by (apply occupancy_setTx; intros t; by split; [|unfold sameIdentity]).
  rewrite <- Hs. generalize (setTx id f w). clear. intros w.
  unfold occupancy, assembling, leaving. simpl. rewrite List.filter_app, length_app. simpl.
  destruct from; simpl; lia.
Qed.

(** ** Events handed to transactions *)

(** Nothing more is in assembly. *)
Definition lowers (w w' : World) : Prop := (occupancy w' <= occupancy w)%nat.

#[export] Instance lowers_preorder : PreOrder lowers.
Proof. unfold lowers. split; [by intros w|]. intros w1 w2 w3 ??. lia. Qed.

Definition lowersEvolving (w w' : World) : Prop := evolves w w' /\ lowers w w'.

Section Handling.
Context `{Env}.

Lemma rule_lowers handle id rule event :
  (forall dep ev, passedOn ev = true -> respects lowers (handle dep ev)) ->
  defined_rule (stateDefinitionsMap handle id) rule -> respects lowers (ar_Action rule event).
Proof.
  intros Hh Hr. apply keeps_respects; [apply _|]. intros w0.
  apply (defined_rule_keeps handle id (lowers w0) (fun _ => True) true); try done.
  - intros f w Hf Hw. unfold lowers in *. by rewrite occupancy_setTx.
  - intros w w' Ht Hl _ Hq Hw. unfold lowers in *. by rewrite (occupancy_quiet w w').
  - intros w dep ev _ _ Hp w1 Hw1. split; [|done]. etrans; [exact Hw1|by apply Hh].
Qed.

(** One unit for a transaction that is selected. *)
Definition selects (event : Event) : nat := match Type_of event with Event_Selected => 1 | _ => 0 end.

Lemma nextStates_assembling s ty : State_Assembling ∈ nextStates s ty -> ty = Event_Selected /\ s <> State_Assembling.
Proof. intros Hin. destruct s, ty; cbn in Hin; try (by split); exfalso; set_solver. Qed.

Lemma HandleEvent_occupancy handle id event t w :
  (forall dep ev, respects evolves (handle dep ev)) ->
  (forall dep ev, passedOn ev = true -> respects lowers (handle dep ev)) ->
  transactionsByID w !! id = Some t ->
  (occupancy (HandleEvent handle id event w).1 <= occupancy w + selects event)%nat.
Proof.
  intros Hev Hh Ht. destruct (decide (id ∈ heldLocks w)) as [Hid|Hid]; [rewrite HandleEvent_locked by done; simpl; lia|].
  rewrite HandleEvent_unlocked by done. set (w1 := w <| heldLocks ::= union {[id]} |>).
  assert (Hrules : forall rule ev, defined_rule (stateDefinitionsMap handle id) rule -> respects lowersEvolving (ar_Action rule ev)).
  { intros rule ev Hr. apply respects_conj; [by apply (respects_evolves_rule handle id)|by apply (rule_lowers handle id)]. }
  assert (Hexec : forall rules, (forall rule, rule ∈ rules -> defined_rule (stateDefinitionsMap handle id) rule) ->
    respects lowersEvolving (executeActionRules event rules)).
  { intros rules Hd. apply executeActionRules_respects; [apply _|]. intros rule Hr. by apply Hrules, Hd. }
  pose proof (dispatch_stepped (txEntity id) (stateDefinitionsMap handle id) (Some (transitionCallback id)) lowersEvolving Hrules event w1) as Hd.
  assert (Hunlock : forall w', occupancy (unlockTx id w') = occupancy w') by done.
  destruct (dispatchEvent _ _ _ event w1) as [w2 r]. cbn [fst]. rewrite Hunlock. change (occupancy w) with (occupancy w1).
  destruct Hd as [[_ Hd]|(h & tr & w3 & Hhd & Htr & _ & [He3 Hl3] & Htake)]; [unfold lowers in Hd; simpl in Hd; lia|].
  rewrite (txEntity_laws_at id w1 t Ht) in Hhd. cbn [ent_type txEntity] in Hhd.
  assert (Ht3 : exists t3, transactionsByID w3 !! id = Some t3 /\ currentState (stateMachine t3) = currentState (stateMachine t)).
  { pose proof (proj2 He3 id) as Hj. change (transactionsByID w1) with (transactionsByID w) in Hj. rewrite Ht in Hj.
    destruct (transactionsByID w3 !! id) as [t3|]; [|done]. exists t3. split; [done|]. apply Hj. simpl. set_solver. }
  destruct Ht3 as (t3 & Ht3 & Hs3).
  assert (Hto : (holds (tr_To tr) <= selects event)%nat).
  { destruct (decide (tr_To tr = State_Assembling)) as [Hto|Hto]; [|destruct (tr_To tr); simpl; done || lia]. assert (Hin : State_Assembling ∈ nextStates (currentState (stateMachine t)) (Type_of event)).
    { rewrite <- Hto. apply (edge_nextStates handle id). by exists h, tr. }
    apply nextStates_assembling in Hin as [Hty _]. unfold selects. rewrite Hty, Hto. simpl. lia. }
  pose proof (takeTransition_run (txEntity id) (stateDefinitionsMap handle id) (Some (transitionCallback id)) lowersEvolving event tr w3) as Hrun.
  rewrite Htake in Hrun. destruct Hrun as (w4 & [_ Hl4] & Hend).
  { apply Hexec. intros rule Hr. right. exists (currentState (stateMachine t)), (Type_of event), h. split; [done|]. right. eauto. }
  { apply Hexec. intros rule Hr. left. eauto. }
  pose proof (occupancy_enterState id (tr_To tr) event t3 w3 Ht3) as Hen. rewrite Hs3 in Hen.
  unfold lowers in *. destruct Hend as [[-> _]|(w5 & [= <-] & Hex)].
  - lia.
  - rewrite (txEntity_laws_at id w3 t3 Ht3), Hs3 in Hex.
    assert (Hle : (occupancy w2 <= occupancy w4 + holds (currentState (stateMachine t)))%nat).
    { set (w5 := transitionCallback _ _ _ _ _) in Hex. pose proof (occupancy_callback id (currentState (stateMachine t))
        (GetCurrentState (txEntity id) w4) event w4) as Hcb. change (transitionCallback _ _ _ _ w4) with w5 in Hcb. rewrite <- Hcb.
      change w2 with (w2, r).1. rewrite <- Hex. apply Hexec. intros rule Hr. left. eauto. }
    lia.
Qed.

Lemma handleEvent_occupancy fuel id event w :
  (occupancy (coordinatorTransactionHandleEvent fuel id event w).1 <= occupancy w + selects event)%nat.
Proof.
  revert id event w. induction fuel as [|fuel IH]; intros id event w; simpl; [lia|].
  destruct (transactionsByID w !! id) as [t|] eqn:Ht; [|simpl; lia].
  apply (HandleEvent_occupancy _ id event t); [intros; apply handleEvent_evolves| |done].
  intros dep ev Hp w0. pose proof (IH dep ev w0) as Hi. assert (selects ev = 0%nat) by (by destruct ev). unfold lowers. lia.
Qed.

Lemma txHandleEvent_lowers id event : selects event = 0%nat -> respects lowers (txHandleEvent id event).
Proof. intros Hs w. pose proof (handleEvent_occupancy (S (size (transactionsByID w))) id event w). unfold lowers, txHandleEvent. lia. Qed.
End Handling.

(** ** The coordinator's actions *)

Definition slot (c : Coord) : nat := if co_assemblyInFlight c then 1 else 0.

(** At most what the slot allows is in assembly. *)
Definition slotHeld (c : Coord) : Prop := (occupancy (co_w c) <= slot c)%nat.

(** Steps that add nothing and leave the slot alone; and that add no departure either. *)
Definition lowersC (c c' : Coord) : Prop := lowers (co_w c) (co_w c') /\ co_assemblyInFlight c' = co_assemblyInFlight c.
Definition stills (c c' : Coord) : Prop := lowersC c c' /\ (leaving (co_w c') <= leaving (co_w c))%nat.

#[export] Instance lowersC_preorder : PreOrder lowersC.
Proof. unfold lowersC. split; [by intros c|]. intros c1 c2 c3 [] []. split; [by etrans|congruence]. Qed.

#[export] Instance stills_preorder : PreOrder stills.
Proof. unfold stills. split; [intros c; split; [done|lia]|]. intros c1 c2 c3 [] []. split; [by etrans|lia]. Qed.

(** A memory with the same transactions and queue. *)
Definition stillWorld (w w' : World) : Prop := lowers w w' /\ (leaving w' <= leaving w)%nat.

#[export] Instance stillWorld_preorder : PreOrder stillWorld.
Proof. unfold stillWorld. split; [intros w; split; [done|lia]|]. intros w1 w2 w3 [] []. split; [by etrans|lia]. Qed.

Lemma leaving_frame w w' :
  (exists q, c_internalQueue (w_c w') = c_internalQueue (w_c w) ++ q /\ Forall notTransition q) -> leaving w' = leaving w.
Proof.
  intros Hq. pose proof (occupancy_frame (w <| transactionsByID := ∅ |>) (w' <| transactionsByID := ∅ |>) eq_refl Hq) as Ho.
  unfold occupancy, assembling in Ho. simpl in Ho. unfold leaving in *. simpl in Ho. lia.
Qed.

Lemma stillWorld_frame w w' :
  transactionsByID w' = transactionsByID w ->
  (exists q, c_internalQueue (w_c w') = c_internalQueue (w_c w) ++ q /\ Forall notTransition q) -> stillWorld w w'.
Proof. intros Ht Hq. unfold stillWorld, lowers. rewrite (occupancy_frame w w') by done. rewrite (leaving_frame w w' Hq). lia. Qed.

Section Actions.
Context `{Env, CoordEnv}.

Lemma stills_onWorld {A} (m : M World A) : respects stillWorld m -> respects stills (onWorld m).
Proof. intros Hm c. specialize (Hm (co_w c)). unfold onWorld. destruct (m (co_w c)) as [w r]. by destruct Hm. Qed.

Lemma lowersC_onWorld {A} (m : M World A) : respects lowers m -> respects lowersC (onWorld m).
Proof. intros Hm c. specialize (Hm (co_w c)). unfold onWorld. by destruct (m (co_w c)) as [w r]. Qed.

Lemma stillWorld_modify f :
  (forall w, transactionsByID (f w) = transactionsByID w /\
     exists q, c_internalQueue (w_c (f w)) = c_internalQueue (w_c w) ++ q /\ Forall notTransition q) -> respects stillWorld (modify f).
Proof. intros Hf w. destruct (Hf w). by apply stillWorld_frame. Qed.

Lemma stillWorld_refresh : respects stillWorld refreshBlockHeight.
Proof.
  apply keeps_respects; [apply _|]. intros w0.
  apply (keeps_refreshBlockHeight (stillWorld w0) (fun _ => True) true); try done.
  intros w w' Ht _ _ Hq Hw. etrans; [exact Hw|]. apply stillWorld_frame; [done|apply Hq].
Qed.

Lemma stillWorld_candidates nodes : respects stillWorld (notifyEndorserCandidates nodes).
Proof. apply stillWorld_modify. intros w. split; [done|]. apply quiet_candidates. Qed.

Lemma queue_same w : exists q, c_internalQueue (w_c w) = c_internalQueue (w_c w) ++ q /\ Forall notTransition q.
Proof. exists []. by rewrite app_nil_r. Qed.

Lemma stillWorld_same f :
  (forall w, transactionsByID (f w) = transactionsByID w /\ c_internalQueue (w_c (f w)) = c_internalQueue (w_c w)) ->
  respects stillWorld (modify f).
Proof. intros Hf. apply stillWorld_modify. intros w. destruct (Hf w) as [Ht ->]. split; [done|]. apply queue_same. Qed.

Lemma stills_modify f :
  (forall c, co_w (f c) = co_w c /\ co_assemblyInFlight (f c) = co_assemblyInFlight c) -> respects stills (modify f).
Proof. intros Hf c. destruct (Hf c) as [Hw Ha]. unfold stills, lowersC, lowers. simpl. rewrite Hw. split; [by split|lia]. Qed.

Lemma stills_sendC msg : respects stills (sendC msg).
Proof. intros c. unfold sendC. destruct (cenv_transport _ _); by apply (stills_modify (fun c => c)). Qed.

(** One step of the program text. *)
#[local] Ltac still_step :=
  first
  [ apply respects_ret, _ | apply respects_gets, _ | apply respects_throw, _ | apply respects_crash, _
  | apply respects_liftR, _ | apply stills_sendC
  | lazymatch goal with
    | |- respects _ (mbind _ _) => apply respects_bind; [apply _| |intros ?]
    | |- respects _ (for_each _ _) => apply respects_for_each; [apply _|intros ? _]
    | |- respects stills (onWorld _) => apply stills_onWorld
    end
  | apply stillWorld_candidates | apply stillWorld_refresh
  | apply stillWorld_same; intros []; done
  | apply stills_modify; intros []; done
  | apply stills_modify; intros ?; cbv beta; by repeat case_match
  | match goal with |- respects _ (match ?x with _ => _ end) => destruct x end
  | match goal with |- respects _ (if ?x then _ else _) => destruct x end ].
#[local] Ltac still_go := repeat still_step.

Lemma stills_cancel t : respects stills (cancelCoordTimer t).
Proof. apply stills_modify. intros c. by destruct t. Qed.

Lemma stillWorld_newUUID : respects stillWorld newUUID.
Proof. intros w. apply stillWorld_frame; [done|]. apply (queue_same w). Qed.

Lemma stills_schedule d e : respects stills (scheduleC d e).
Proof. unfold scheduleC. still_go. Qed.

Lemma stills_scheduleRequestTimeout : respects stills scheduleRequestTimeout.
Proof. unfold scheduleRequestTimeout. still_go; eauto using stills_cancel, stills_schedule. Qed.

Lemma stills_nudgePending r : respects stills (nudgePending r).
Proof. unfold nudgePending. still_go. Qed.

Lemma stills_sendToAll l contract e : respects stills (sendToAll l contract e).
Proof.
  revert e. induction l as [|[node s] l IH]; intros e; simpl; [still_go|].
  intros c. pose proof (stills_sendC (SendHeartbeat node contract s) c) as Hs.
  destruct (sendC _ c) as [c' [[]|e'|x]]; simpl in *; [..|done].
  all: etrans; [exact Hs|apply IH].
Qed.

Lemma stillWorld_delete id w w' :
  transactionsByID w' = delete id (transactionsByID w) -> w_c w' = w_c w -> stillWorld w w'.
Proof.
  intros Ht Hc. unfold stillWorld, lowers, occupancy, leaving, assembling. rewrite Ht, Hc.
  assert (Hs : (size (filter (fun kv => isAssembling kv.2) (delete id (transactionsByID w)))
    <= size (filter (fun kv => isAssembling kv.2) (transactionsByID w)))%nat); [|lia].
  rewrite map_filter_delete. apply map_subseteq_size, delete_subseteq.
Qed.

Lemma stills_cleanUpTransaction id : respects stills (cleanUpTransaction id).
Proof.
  intros c. destruct (cleanUpTransaction_mem id c) as (w' & -> & Ht & _ & Hf).
  destruct (transactionsByID (co_w c) !! id); [|reflexivity]. destruct (stillWorld_delete id (co_w c) w' Ht Hf). by repeat split.
Qed.

Lemma stills_beginEndorsement key : respects stills (beginEndorsement key).
Proof. intros c. unfold beginEndorsement. case_match; [reflexivity|]. apply (stills_modify (fun c => c)). done. Qed.

#[local] Create HintDb still.
#[local] Hint Resolve stills_cancel stills_schedule stills_scheduleRequestTimeout stills_nudgePending stills_cleanUpTransaction
  stills_sendToAll stillWorld_newUUID stills_beginEndorsement : still.

(** The actions that hand no event to a transaction. *)
Definition stillActions : list CAction :=
  [action_CalculateCoordinatorPriorities; action_AddEndorsersFromSnapshot; action_UpdateActiveCoordinator;
   action_RefreshBlockHeight; action_AddEndorsementRequestSenderToEndorserCandidates; action_RejectEndorsementBlockHeight;
   action_RejectEndorsementPrivateStateDataPending; action_UpdateActiveCoordinatorFromEndorsementRequest;
   action_RejectDelegationRequestBlockHeight;
   action_ResetHeartbeatIntervalsSinceLastReceive; action_UpdateOriginatorActivity;
   action_IncrementHeartbeatIntervalCounts; action_RejectDelegationRequest; action_ScheduleStateTimeout;
   action_SendHandoverRequest; action_NudgeHandoverRequest; action_ClearTimeoutSchedules; action_SendHeartbeat;
   action_ImportStatesAndLocks; action_RejectEndorsementEndorserIsActiveCoordinator; action_SetSelfAsActiveCoordinator;
   action_NewSigningIdentity; action_QueueRestartDispatchLoop; action_SendHeartbeatWithLocks;
   action_IncrementHeartbeatIntervalsSinceStateChange; action_CleanUpTransaction; action_ProcessConfirmedTransactionsFromSnapshot;
   action_PoolTransaction; action_HandleEndorsementRequest; action_StopDispatchLoop; action_StartDispatchLoop].

Lemma stillActions_still action event : action ∈ stillActions -> respects stills (action event).
Proof.
  intros Hin. unfold stillActions in Hin.
  repeat (apply elem_of_cons in Hin as [->|Hin]); [..|by inversion Hin].
  all: lazymatch goal with |- respects _ (?a _) =>
         let rec go t := lazymatch t with ?f _ => go f | _ => unfold t end in go a end.
  all: try match goal with |- respects _ (match ?e with _ => _ end) => is_var e; destruct e;
             try solve [apply respects_crash, _ | apply respects_ret, _] end.
  all: unfold onFields, setActiveCoordinator, recordOriginatorActivity, addTransactionToBackOfPool, startDispatchLoop, stopDispatchLoop,
    sendHandoverRequest, nudgeHandoverRequest, scheduleStateTimeout, clearTimeoutSchedules, sendHeartbeat, onGrapher,
    queueEventInternal, queueEventForCoordinator.
  all: try solve [still_go; eauto with still].
  all: still_go; eauto with still.
  { apply stillWorld_modify. intros w. split; [done|]. apply quiet_priorities. }
  apply stillWorld_modify. intros w. split; [done|]. exists [RestartDispatchLoopEvent]. split; [done|by repeat constructor].
Qed.

(** ** The other actions *)

Lemma stills_lowersC {A} (m : M Coord A) : respects stills m -> respects lowersC m.
Proof. intros Hm c. apply Hm. Qed.

Lemma lowersC_propagate event : selects event = 0%nat -> respects lowersC (propagateEventToAllTransactions event).
Proof.
  intros Hs. apply lowersC_onWorld. apply respects_bind; [apply _|apply respects_gets, _|intros l].
  apply respects_for_each; [apply _|]. intros id _. by apply txHandleEvent_lowers.
Qed.

Lemma lowersC_cancelAssembling event : respects lowersC (action_cancelCurrentlyAssemblingTransaction event).
Proof.
  apply respects_bind; [apply _|apply respects_gets, _|intros c0]. destruct (co_assemblyInFlight c0); [|apply respects_ret, _].
  destruct (transactionsByID (co_w c0) !! co_assemblingTxID c0); [|apply respects_ret, _].
  by apply lowersC_onWorld, txHandleEvent_lowers.
Qed.

(** A new transaction starts in State_Initial. *)
Lemma admit_lowers cfg o node prev p w :
  transactionsByID w !! pt_ID p = None -> lowers w (admitTransaction cfg o node prev p w).1.
Proof.
  intros Hnew. unfold admitTransaction, newTransaction. cbv zeta.
  match goal with |- lowers w (txHandleEvent _ _ ?w1).1 => set (w1' := w1) end.
  assert (Hw1 : occupancy w1' = occupancy w).
  { assert (Ht : exists t, transactionsByID w1' = <[pt_ID p := t]> (transactionsByID w) /\ ~ isAssembling t).
    { eexists. split; [subst w1'; simpl; by rewrite (proj1 (addPreassemblyDependency_frame _ _ _))|]. unfold isAssembling. done. }
    destruct Ht as (t & Ht & Hna). unfold occupancy, assembling, leaving. rewrite Ht, map_filter_insert_False by done.
    rewrite delete_id by done. f_equal. subst w1'. simpl. unfold addPreassemblyDependency. by repeat case_match. }
  etrans; [|by apply txHandleEvent_lowers]. unfold lowers. lia.
Qed.

Lemma delegateAll_lowers conf o node d l : respects lowers (delegateAll conf o node d l).
Proof.
  revert d. induction l as [|p l IH]; intros d; simpl; [apply respects_ret, _|].
  apply respects_bind; [apply _| |intros d'; apply IH].
  intros w. unfold delegateOne. destruct (dl_error d); [done|]. destruct (transactionsByID w !! pt_ID p) eqn:Hnew; [done|].
  destruct (_ <=? _)%Z; [done|]. pose proof (admit_lowers (transactionConfig conf) o node (dl_previousTransaction d) p w Hnew) as Ha.
  destruct (admitTransaction _ _ _ _ _ _) as [w2 [[]|e|x]]; [exact Ha| |exact Ha]. etrans; [exact Ha|].
  apply (stillWorld_delete (pt_ID p)); done.
Qed.

Lemma lowersC_delegate event : respects lowersC (action_ProcessDelegatedTransactions event).
Proof.
  destruct event; try apply respects_crash, _. unfold action_ProcessDelegatedTransactions, addToDelegatedTransactions.
  apply respects_bind; [apply _| |intros _].
  { apply stills_lowersC, stills_modify. intros c. by case_match. }
  apply respects_bind; [apply _|apply respects_gets, _|intros conf].
  apply respects_bind; [apply _|apply respects_liftR, _|intros v].
  apply respects_bind; [apply _|apply lowersC_onWorld, delegateAll_lowers|intros d].
  apply respects_bind; [apply _|apply stills_lowersC, stills_sendC|intros _].
  destruct (0 <? _)%nat; [apply respects_throw, _|]. destruct (dl_error d); [apply respects_throw, _|apply respects_ret, _].
Qed.

(** Selecting a transaction fills the slot that was free. *)
Lemma select_fills event c c' :
  slotHeld c -> co_assemblyInFlight c = false -> action_SelectTransaction event c = (c', Ok tt) -> slotHeld c'.
Proof.
  unfold slotHeld, slot. intros Hc Hf. rewrite Hf in Hc. unfold action_SelectTransaction, selectNextTransactionToAssemble, popNextPooledTransaction.
  unfold mbind at 1, M_bind at 1. destruct (co_pooledTransactions c) as [|id rest]; [intros [= <-]; rewrite Hf; done|].
  unfold mbind, M_bind, onWorld, txHandleEvent. change (co_w (c <| co_pooledTransactions := rest |>)) with (co_w c).
  generalize (S (size (transactionsByID (co_w c)))). intros fuel. pose proof (handleEvent_occupancy fuel id SelectedEvent (co_w c)) as Ho.
  destruct (coordinatorTransactionHandleEvent fuel id SelectedEvent (co_w c)) as [w' [[]|e|x]]; try done.
  intros [= <-]. unfold selects in Ho. simpl in *. lia.
Qed.

(** Once everything that is not dispatched has been cleaned up, only departures are left. *)
Lemma retained_not_assembling w w' :
  transactionsByID w' = filter (fun kv => currentState (stateMachine kv.2) ∈ [State_Dispatched; State_Confirmed; State_Reverted]) (transactionsByID w) ->
  assembling w' = ∅.
Proof.
  intros Ht. apply map_empty. intros j. apply map_lookup_filter_None. right. intros t Hj. simpl. unfold isAssembling. intros Ha.
  rewrite Ht in Hj. apply map_lookup_filter_Some in Hj as [_ Hin]. simpl in Hin. rewrite Ha in Hin. set_solver.
Qed.

(** ** Rules that keep the slot *)

(** What a rule does under its guard, without error. *)
Definition keepsSlot (I : Coord -> Prop) (event : CoordinatorEvent) (rule : CActionRule) : Prop :=
  forall c c', I c -> guardPasses (ar_If rule) c = (c, Ok true) -> ar_Action rule event c = (c', Ok tt) -> I c'.

Definition loweringActions : list CAction :=
  [action_PropagateHeartbeatIntervalToTransactions; action_cancelCurrentlyAssemblingTransaction; action_ProcessDelegatedTransactions].

Definition plainRule (rule : CActionRule) : Prop := ar_Action rule ∈ stillActions \/ ar_Action rule ∈ loweringActions.

Definition selectRule : CActionRule := ActIf (GuardNot guard_HasTransactionAssembling) action_SelectTransaction.

Lemma plainRule_lowersC rule event : plainRule rule -> respects lowersC (ar_Action rule event).
Proof.
  intros [Hs|Hl]; [by apply stills_lowersC, stillActions_still|]. unfold loweringActions in Hl.
  apply elem_of_cons in Hl as [->|[->|[->|Hl]%elem_of_cons]%elem_of_cons];
    [by apply lowersC_propagate|apply lowersC_cancelAssembling|apply lowersC_delegate|by inversion Hl].
Qed.

Lemma slotRule_keeps rule event : plainRule rule \/ rule = selectRule -> keepsSlot slotHeld event rule.
Proof.
  intros [Hp| ->] c c' Hc Hg Ha.
  - pose proof (plainRule_lowersC rule event Hp c) as [Hl Hf]. rewrite Ha in Hl, Hf. unfold slotHeld, slot, lowers in *. simpl in *.
    rewrite Hf. lia.
  - apply (select_fills event c); [done| |done]. unfold selectRule in Hg. simpl in Hg. unfold liftR in Hg. simpl in Hg.
    by destruct (co_assemblyInFlight c).
Qed.

(** Nothing is in assembly. *)
Definition vacant (c : Coord) : Prop := occupancy (co_w c) = 0%nat.

Lemma vacant_keeps rule event : plainRule rule \/ ar_Action rule = action_ClearAssemblyInFlight -> keepsSlot vacant event rule.
Proof.
  intros [Hp|Hp] c c' Hc _ Ha.
  - pose proof (plainRule_lowersC rule event Hp c) as [Hl _]. rewrite Ha in Hl. unfold vacant, lowers in *. simpl in *. lia.
  - rewrite Hp in Ha. by injection Ha as <-.
Qed.

(** The slot is held and no departure is waiting. *)
Definition slotSettled (c : Coord) : Prop := slotHeld c /\ leaving (co_w c) = 0%nat.

Lemma cleanUp_settles event c c' :
  slotSettled c -> action_CleanUpTransactionsNotYetDispatched event c = (c', Ok tt) -> slotSettled c'.
Proof.
  intros [Hs Hl] Ha. destruct (cleanUp_mem event c) as (c1 & Ha1 & _ & Ht & _ & _). rewrite Ha in Ha1. injection Ha1 as <-.
  assert (Hle : (leaving (co_w c') <= leaving (co_w c))%nat).
  { assert (Hst : respects stills (for_each (getTransactionsNotInStates (co_w c) [State_Dispatched; State_Confirmed; State_Reverted]) cleanUpTransaction)).
    { apply respects_for_each; [apply _|]. intros id _. apply stills_cleanUpTransaction. }
    specialize (Hst c). revert Ha. unfold action_CleanUpTransactionsNotYetDispatched, gets. unfold mbind at 1, M_bind at 1.
    unfold mbind at 1, M_bind at 1. destruct (for_each _ cleanUpTransaction c) as [c1 [[]|e|x]]; try done. intros [= <-]. apply Hst. }
  unfold slotSettled, slotHeld, occupancy. rewrite (retained_not_assembling (co_w c) (co_w c') Ht), map_size_empty. lia.
Qed.

Lemma settledRule_keeps rule event :
  ar_Action rule ∈ stillActions \/ ar_Action rule = action_CleanUpTransactionsNotYetDispatched -> keepsSlot slotSettled event rule.
Proof.
  intros [Hp|Hp] c c' [Hs Hl] _ Ha.
  - pose proof (stillActions_still _ event Hp c) as [[Hlo Hf] Hle]. rewrite Ha in Hlo, Hf, Hle.
    unfold slotSettled, slotHeld, slot, lowers in *. simpl in *. rewrite Hf. lia.
  - rewrite Hp in Ha. by apply (cleanUp_settles event c).
Qed.

(** ** Transitions *)

Lemma entry_slotRules s rule : rule ∈ onTransitionTo coordStateDefinitionsMap s -> plainRule rule \/ rule = selectRule.
Proof.
  intros Hr. destruct s; cbn in Hr; split_members; try (by right); left; left; unfold stillActions; cbn [ar_Action Act ActIf]; list_member.
Qed.

Lemma entry_keeps_slot event s : actionsKeepOk event slotHeld (onTransitionTo coordStateDefinitionsMap s).
Proof. apply executeActionRules_ok. intros rule c c' Hr. apply slotRule_keeps. by apply (entry_slotRules s). Qed.

Lemma exit_still s rule : rule ∈ onTransitionFrom coordStateDefinitionsMap s -> ar_Action rule ∈ stillActions.
Proof. rewrite exit_rules. intros Hr. destruct s; split_members. unfold stillActions. cbn [ar_Action Act]. list_member. Qed.

(** A transition whose own actions keep [I], which does not depend on the machine. *)
Lemma take_keeps_slot (I : Coord -> Prop) event tr c c' :
  (forall c, I c -> slotHeld c) -> (forall s event c, I c -> I (enterState coordEntity s event c)) ->
  (forall rule, ar_Action rule ∈ stillActions -> keepsSlot I event rule) -> (forall rule, rule ∈ tr_Actions tr -> keepsSlot I event rule) ->
  I c -> takeTransition coordEntity coordStateDefinitionsMap (Some onStateTransition) event tr c = (c', Ok tt) -> slotHeld c'.
Proof.
  intros HI Henter Hstill Hacts Hc. apply (takeTransition_ok _ _ _ event I slotHeld); [by apply Henter|..].
  - apply executeActionRules_ok. intros rule c1 c2 Hr. by apply Hacts.
  - apply executeActionRules_ok. intros rule c1 c2 Hr%exit_still. by apply Hstill.
  - intros from to c1 Hc1. exact (HI c1 Hc1).
  - apply entry_keeps_slot.
Qed.

(** ** One event *)

(** The events by which a coordinator may step down. *)
Definition stepDownType (ty : CoordinatorEventType) : bool :=
  match ty with
  | CEvent_HeartbeatReceived | CEvent_HandoverRequest | CEvent_EndorsementRequestReceived => true
  | _ => false
  end.

(** Close a goal about the rules of a concrete handler. *)
#[local] Ltac rule_member :=
  unfold plainRule, stillActions, loweringActions; cbn [ar_Action Act ActIf];
  first [left; list_member | right; list_member | left; left; list_member | left; right; list_member | by right].

Lemma settled_rules s ty h rule :
  stepDownType ty = true -> handles coordStateDefinitionsMap s ty h -> handler_rule h rule ->
  ar_Action rule ∈ stillActions \/ ar_Action rule = action_CleanUpTransactionsNotYetDispatched.
Proof.
  intros Hty (d & hs & Hd & He & Hh) Hr.
  destruct ty; try discriminate Hty; destruct s; try discriminate Hd; injection Hd as <-; try discriminate He; injection He as <-;
    cbn in Hh; split_members; destruct Hr as [Hr|(tr & Htr & Hr)]; cbn in *; unfold backOff, stepDown in *; split_members;
    cbn in *; split_members; rule_member.
Qed.

Lemma plain_rules s ty h rule :
  stepDownType ty = false -> (ty = CEvent_TransactionStateTransition -> s <> CoordinatorState_Active /\ s <> CoordinatorState_Active_Flush) ->
  handles coordStateDefinitionsMap s ty h -> handler_rule h rule -> plainRule rule.
Proof.
  intros Hty Hex (d & hs & Hd & He & Hh) Hr.
  destruct ty; try discriminate Hty; destruct s; try discriminate Hd; injection Hd as <-; try discriminate He; injection He as <-;
    try (by destruct (Hex eq_refl)); cbn in Hh; split_members; destruct Hr as [Hr|(tr & Htr & Hr)]; cbn in *; split_members;
    cbn in *; split_members; rule_member.
Qed.

#[local] Abbreviation coordDispatch := (dispatchEvent coordEntity coordStateDefinitionsMap (Some onStateTransition)).

(** The handlers of a set keep [I] until a transition. *)
Lemma dispatch_keeps_slot (I : Coord -> Prop) event c c' :
  (forall c, I c -> slotHeld c) -> (forall s event c, I c -> I (enterState coordEntity s event c)) ->
  (forall rule, ar_Action rule ∈ stillActions -> keepsSlot I event rule) ->
  (forall h rule, handles coordStateDefinitionsMap (coordState c) (CoordinatorType_of event) h -> handler_rule h rule -> keepsSlot I event rule) ->
  I c -> coordDispatch event c = (c', Ok tt) -> slotHeld c'.
Proof.
  intros HI Henter Hstill Hrules Hc. unfold dispatchEvent, gets. unfold mbind, M_bind.
  change (GetCurrentState coordEntity c) with (coordState c).
  destruct (coordStateDefinitionsMap (coordState c)) as [d|] eqn:Hd; [|intros [= <-]; auto].
  cbn [ent_type coordEntity]. destruct (Events d (CoordinatorType_of event)) as [hs|] eqn:He; [|intros [= <-]; auto].
  assert (Hhs : forall h, h ∈ ehs_Handlers hs -> handles coordStateDefinitionsMap (coordState c) (CoordinatorType_of event) h).
  { intros h Hh. exists d, hs. done. }
  assert (Hacts : forall h w w', h ∈ ehs_Handlers hs -> I w -> matchesHandler event h w = Ok true ->
    executeActionRules event (eh_Actions h) w = (w', Ok tt) -> I w').
  { intros h w w' Hh Hw _. apply executeActionRules_ok; [|done]. intros rule c1 c2 Hr. apply (Hrules h); [by apply Hhs|by left]. }
  assert (Htrs : forall h tr w w', h ∈ ehs_Handlers hs -> tr ∈ eh_Transitions h -> I w ->
    takeTransition coordEntity coordStateDefinitionsMap (Some onStateTransition) event tr w = (w', Ok tt) -> slotHeld w').
  { intros h tr w w' Hh Htr Hw. apply (take_keeps_slot I); try done. intros rule Hr. apply (Hrules h); [by apply Hhs|]. right. eauto. }
  destruct (ehs_Match hs); [by apply (processMatchFirst_ok _ _ _ _ I slotHeld HI)|by apply (processMatchAll_ok _ _ _ _ I slotHeld HI)].
Qed.

Lemma stillRule_slot rule event : ar_Action rule ∈ stillActions -> keepsSlot slotHeld event rule.
Proof. intros Hs. apply slotRule_keeps. left. by left. Qed.

Lemma stillRule_settled rule event : ar_Action rule ∈ stillActions -> keepsSlot slotSettled event rule.
Proof. intros Hs. apply settledRule_keeps. by left. Qed.

(** A transaction's change of state, while coordinating. *)
Lemma coordinate_keeps_slot tx from to rest c c' :
  slotHeld c -> (from = State_Assembling -> vacant c) ->
  (forall h rule, h ∈ rest -> rule ∈ eh_Actions h -> plainRule rule) ->
  (forall h tr rule, h ∈ rest -> tr ∈ eh_Transitions h -> rule ∈ tr_Actions tr -> plainRule rule) ->
  processMatchAll coordEntity coordStateDefinitionsMap (Some onStateTransition) (TransactionStateTransitionEvent tx from to)
    (coordinateTransition ++ rest) c = (c', Ok tt) -> slotHeld c'.
Proof.
  intros Hc Hv Hacts Htrs Hp. set (e := TransactionStateTransitionEvent tx from to) in *.
  set (last := On [selectRule] [] : CEventHandler).
  change (coordinateTransition ++ rest) with (take 3 coordinateTransition ++ (drop 3 coordinateTransition ++ rest)) in Hp.
  apply processMatchAll_app in Hp as (c1 & H1 & H2); [|by repeat constructor].
  assert (Hc1 : slotHeld c1).
  { destruct (decide (from = State_Assembling)) as [Hf|Hf].
    - assert (Hv1 : vacant c1); [|unfold slotHeld; unfold vacant in Hv1; lia].
      revert H1. apply (processMatchAll_ok coordEntity coordStateDefinitionsMap (Some onStateTransition) e vacant vacant); [done| | |by apply Hv].
      + intros h w w' Hh Hw _. apply executeActionRules_ok; [|done]. intros rule x y Hr. apply vacant_keeps.
        cbn in Hh. split_members; cbn in Hr; split_members; rule_member.
      + intros h tr w w' Hh Htr. cbn in Hh. split_members; cbn in Htr; split_members.
    - revert H1. apply (processMatchAll_ok coordEntity coordStateDefinitionsMap (Some onStateTransition) e slotHeld slotHeld); [done| | |done].
      + intros h w w' Hh Hw Hm. apply executeActionRules_ok; [|done]. intros rule x y Hr. apply slotRule_keeps. left.
        cbn in Hh. split_members; cbn in Hr; split_members; try rule_member.
        exfalso. cbn in Hm. injection Hm as Hm. apply bool_decide_eq_true in Hm. set_solver.
      + intros h tr w w' Hh Htr. cbn in Hh. split_members; cbn in Htr; split_members. }
  revert H2. apply (processMatchAll_ok coordEntity coordStateDefinitionsMap (Some onStateTransition) e slotHeld slotHeld); [done| | |done].
  - intros h w w' Hh Hw _. apply executeActionRules_ok; [|done]. intros rule x y Hr. apply slotRule_keeps.
    apply elem_of_app in Hh as [Hh|Hh]; [|left; by apply (Hacts h)].
    cbn in Hh. split_members; cbn in Hr; split_members; [left; rule_member|by right].
  - intros h tr w w' Hh Htr Hw. apply (take_keeps_slot slotHeld); try done; [intros rule; apply stillRule_slot|].
    apply elem_of_app in Hh as [Hh|Hh]; [cbn in Hh; split_members; cbn in Htr; split_members|].
    intros rule Hr. apply slotRule_keeps. left. by apply (Htrs h tr).
Qed.

Lemma dispatch_slot event c c' :
  slotHeld c -> (stepDownType (CoordinatorType_of event) = true -> leaving (co_w c) = 0%nat) ->
  (fromAssembling event = true -> vacant c) -> coordDispatch event c = (c', Ok tt) -> slotHeld c'.
Proof.
  intros Hc Hl Hv. destruct (stepDownType (CoordinatorType_of event)) eqn:Hty.
  { apply (dispatch_keeps_slot slotSettled); [by intros x []|done|intros; by apply stillRule_settled| |by split; auto].
    intros h rule Hh Hr. by apply settledRule_keeps, (settled_rules (coordState c) (CoordinatorType_of event) h). }
  destruct (decide (CoordinatorType_of event = CEvent_TransactionStateTransition /\
    (coordState c = CoordinatorState_Active \/ coordState c = CoordinatorState_Active_Flush))) as [[Ht Hs]|Hn].
  - destruct event as [|tx from to| | | | | | | | | |]; try discriminate Ht. destruct Hs as [Hs|Hs].
    + erewrite dispatch_handlers; [|by rewrite Hs|reflexivity]. cbn [ehs_Match ehs_Handlers].
      rewrite <- (app_nil_r coordinateTransition). apply coordinate_keeps_slot; [done| |set_solver..]. intros ->. by apply Hv.
    + erewrite dispatch_handlers; [|by rewrite Hs|reflexivity]. cbn [ehs_Match ehs_Handlers].
      apply coordinate_keeps_slot; [done| |..].
      * intros ->. by apply Hv.
      * intros h rule Hh Hr. split_members; cbn in Hr; split_members.
      * intros h tr rule Hh Htr Hr. split_members; cbn in Htr; split_members; cbn in Hr; split_members.
  - apply (dispatch_keeps_slot slotHeld); [done|done|intros; by apply stillRule_slot| |done].
    intros h rule Hh Hr. apply slotRule_keeps. left. apply (plain_rules (coordState c) (CoordinatorType_of event) h); try done.
    intros Ht. split; intros Hs; apply Hn; auto.
Qed.
End Actions.
