(* ===== verification/CoordAssembly.v ===== *)
(** * At most one transaction is being assembled

    Runs in which the event loop prefers what transactions queued to what arrives, as it is written
    to: in these the assembly slot is never given out twice.

    Sources: statemachine/statemachine.go, coordinator/coordinating.go, coordinator/state_machine.go. *)

From S2P Require Import Prelude StateMachine Identity Selection DependencyTracker StateVisibility Grapher StateView.
From S2P Require Import TxTypes CoordTypes World TxActions TxMachine TxPropagation DispatchLoop Sample.
From S2P Require Import CoordWorld CoordActions CoordEndorse CoordMachine CoordSample CoordInvariants CoordWf CoordRuns CoordStepDown CoordSlot.
Open Scope list_scope.

(** Only the coordinator itself selects a transaction, by a direct call. *)
Definition notSelection (e : CoordinatorEvent) : Prop := match e with TransactionEvent _ SelectedEvent => False | _ => True end.

Section Orderly.
Context `{Env, CoordEnv}.

(** What the coordinator and its transactions queue for themselves: no message of another node. *)
Definition ownEvent (e : CoordinatorEvent) : Prop := notSelection e /\ stepDownType (CoordinatorType_of e) = false.

(** An event that has arrived is handled when no departure from assembly waits (a transition that the
    dispatch loop's goroutine queued may still wait); nothing queued fails. *)
Inductive orderly_step : Coord -> Coord -> Prop :=
| orderly_event e q c c' :
    co_events c = e :: q -> notTransition e -> notSelection e ->
    Forall (fun e => fromAssembling e = false) (c_internalQueue (w_c (co_w c))) ->
    coordinatorProcessEvent e (c <| co_events := q |>) = (c', Ok tt) -> orderly_step c c'
| orderly_internal e c1 c c' :
    nextInternal c = Some (e, c1) -> ownEvent e -> coordinatorProcessEvent e c1 = (c', Ok tt) -> orderly_step c c'
| orderly_background c c' : background_step c c' -> orderly_step c c'.

(** Orderly runs are runs. *)
Lemma orderly_coord_step c c' : orderly_step c c' -> coord_step c c'.
Proof. intros [e q ??? ? ? ? Hp|e c1 ?? ? ? Hp|]; [eapply step_event|eapply step_internal|eapply step_background]; done. Qed.

Lemma leaving_none w : Forall (fun e => fromAssembling e = false) (c_internalQueue (w_c w)) -> leaving w = 0%nat.
Proof. unfold leaving. induction 1 as [|e q He _ IH]; [done|]. simpl. by rewrite He. Qed.

Lemma preProcess_lowers event : notSelection event -> respects lowersC (preProcessEvent event).
Proof.
  intros Hn c. destruct event as [id e| | | | | | | | | | |from s]; try done. unfold preProcessEvent.
  pose proof (respects_bind lowersC (propagateEventToTransaction id e) (fun _ => mret true)) as Hb.
  apply Hb; [|intros; apply respects_ret, _]. apply lowersC_onWorld. intros w.
  destruct (transactionsByID w !! id); [|done]. apply txHandleEvent_lowers. by destruct e.
Qed.

Lemma process_slot event c c' :
  co_locked c = false -> notSelection event -> slotHeld c ->
  (stepDownType (CoordinatorType_of event) = true -> leaving (co_w c) = 0%nat) ->
  (fromAssembling event = true -> vacant c) -> coordinatorProcessEvent event c = (c', Ok tt) -> slotHeld c'.
Proof.
  intros Hu Hn Hc Hsd Hv Hp. pose proof (coordinatorProcessEvent_cases event c Hu) as Hcs.
  pose proof (preProcess_lowers event Hn (c <| co_locked := true |>)) as [Hl Hf].
  destruct (preProcessEvent event _) as [c1 r1]. destruct Hcs as [_ Hcs]. simpl in Hl, Hf.
  destruct r1 as [[|]|x|x]; [| |rewrite Hp in Hcs; discriminate..].
  - rewrite Hp in Hcs. injection Hcs as ->. unfold slotHeld, slot, lowers in *. simpl in *. rewrite Hf. lia.
  - destruct Hcs as (_ & c2 & r2 & Hd & Hcs). rewrite Hp in Hcs. injection Hcs as -> <-.
    set (c0 := c <| co_locked := true |>) in *. exact (dispatch_slot event c0 c2 Hc Hsd Hv Hd).
Qed.

(** ** Between events *)

Lemma commitDispatch_lowers fuel acc qd : lowers acc.1 (commitDispatch fuel acc qd).1.
Proof.
  destruct acc as [w l], qd as [id pd]. simpl. unfold lowers.
  match goal with |- context [coordinatorTransactionHandleEvent fuel id ?e w] => pose proof (handleEvent_occupancy fuel id e w) as Ho end.
  unfold selects in Ho. simpl in Ho. lia.
Qed.

Lemma dispatchLoopStep_lowers ahead batchSize fuel w w' : dispatchLoopStep ahead batchSize fuel w = Some w' -> lowers w w'.
Proof.
  unfold dispatchLoopStep. destruct (c_dispatchQueue (w_c w)) as [|qd rest]; [done|].
  destruct (awaitDispatchAheadCapacity ahead w) as [capacity|]; [|done]. unfold pullDispatchBatch, dispatchBatch.
  set (w0 := field_set _ _ (field_set _ _ w)). set (batch := qd :: _). intros [= <-].
  assert (Hf : forall acc, lowers acc.1 (foldl (commitDispatch fuel) acc batch).1).
  { generalize batch. clear. intros batch. induction batch as [|qd batch IH]; intros acc; [done|].
    simpl. etrans; [apply commitDispatch_lowers|apply IH]. }
  specialize (Hf (w0, [])). destruct (foldl _ _ _) as [w1 l]. etrans; [|etrans; [exact Hf|]]; exact (le_n _).
Qed.

Lemma handleEndorsementRequest_stills fuel cancelledAt e : respects stills (handleEndorsementRequest fuel cancelledAt e).
Proof.
  unfold handleEndorsementRequest. apply respects_bind; [apply _|apply respects_gets, _|intros c0].
  destruct (retryDo _ _ _ _ _); [apply respects_log_error, stills_sendC..|apply respects_crash, _].
Qed.

Lemma finishEndorsement_stills fuel cancelledAt i : respects stills (finishEndorsement fuel cancelledAt i).
Proof.
  apply respects_bind; [apply _|apply respects_gets, _|intros jobs]. destruct (jobs !! i) as [e|]; [|apply respects_ret, _].
  apply respects_bind; [apply _|apply handleEndorsementRequest_stills|intros _].
  apply respects_bind; [apply _|by apply stills_modify|intros _]. by apply stills_modify.
Qed.

Lemma lowersC_slot c c' : lowersC c c' -> slotHeld c -> slotHeld c'.
Proof. intros [Hl Hf] Hc. unfold slotHeld, slot, lowers in *. rewrite Hf. lia. Qed.

Lemma background_slot c c' : background_step c c' -> slotHeld c -> slotHeld c'.
Proof.
  intros Hstep. apply lowersC_slot.
  destruct Hstep as [c c' Hs|e c|fuel c c' Hd|timer c|timer c|prepareID result c|fuel k i c c' r Hf _|now height c]; try (split; [exact (le_n _)|done]).
  - unfold Start in Hs. destruct (co_ctx c); [by injection Hs as <-|].
    destruct (ComputeEffectiveBlockHeight _ _); try discriminate Hs. injection Hs as <-. split; [exact (le_n _)|done].
  - unfold coordDispatchStep in Hd. destruct (co_dispatchLoop c); [|done].
    destruct (dispatchLoopStep _ _ _ _) as [w|] eqn:Hw; [|done]. injection Hd as <-. split; [|done]. by eapply dispatchLoopStep_lowers.
  - unfold fireCoordTimer. destruct (co_timers c !! timer); [|done]. destruct (_ <=? _)%Z; [split; [exact (le_n _)|done]|done].
  - split; [|done]. simpl. unfold fireTimer. destruct (w_timers (co_w c) !! timer) as [t|]; [|done]. destruct (_ <=? _)%Z; [|done].
    apply stillWorld_frame; [done|]. eexists. split; [done|by repeat constructor].
  - split; [|done]. simpl. unfold finishPrepare. destruct (w_prepares (co_w c) !! prepareID) as [job|]; [|done].
    apply stillWorld_frame; [done|]. eexists. split; [done|by repeat constructor].
  - pose proof (finishEndorsement_stills fuel k i c) as [Hl _]. by rewrite Hf in Hl.
Qed.

(** ** Every step *)

Lemma orderly_slot c c' : co_locked c = false -> orderly_step c c' -> slotHeld c -> slotHeld c'.
Proof.
  intros Hu Hstep Hc. destruct Hstep as [e q c c' Hq Ht Hs Hint Hp|e c1 c c' Hn [Hs Hty] Hp|c c' Hb]; [..|by apply (background_slot c)].
  - revert Hp. apply process_slot; [done..| |].
    + intros _. by apply leaving_none.
    + intros Hfrom. by destruct e.
  - unfold nextInternal in Hn. destruct (c_internalQueue _) as [|e' q] eqn:Hq; [done|]. injection Hn as -> <-.
    set (c1 := c <| co_w ::= _ |>) in *.
    assert (Ho : occupancy (co_w c) = (occupancy (co_w c1) + (if fromAssembling e then 1 else 0))%nat).
    { unfold occupancy. change (leaving (co_w c1)) with (length (List.filter fromAssembling q)).
      change (assembling (co_w c1)) with (assembling (co_w c)). unfold leaving. rewrite Hq. cbn [List.filter].
      destruct (fromAssembling e); cbn [length]; lia. }
    assert (Hslot : slot c1 = slot c) by done. unfold slotHeld in Hc. assert (Hle : (slot c <= 1)%nat) by (unfold slot; clear; destruct (co_assemblyInFlight c); lia).
    revert Hp. apply process_slot; [done..| | |].
    + unfold slotHeld. lia.
    + congruence.
    + intros Hfrom. rewrite Hfrom in Ho. unfold vacant. lia.
Qed.

Lemma orderly_run_slot c c' : rtc orderly_step c c' -> coord_ok c -> slotHeld c -> slotHeld c'.
Proof.
  induction 1 as [|c1 c2 c3 Hstep _ IH]; [done|]. intros Hok Hc. apply IH.
  - by apply (step_ok c1); [apply orderly_coord_step|].
  - apply (orderly_slot c1); [apply Hok|done|done].
Qed.

(** (C4) Along every run in which the event loop drains the coordinator's own queue before it takes a
    message, and in which no event fails, at most one of the coordinator's transactions is in
    State_Assembling, and none is while the assembly slot is free: the slot is held from the selection
    of a transaction until the coordinator has been told that it left that state, through cancelled
    assemblies, step-downs, re-elections and the dispatch loop running in between. *)
Theorem one_assembly_at_a_time conf blockRange nodeName selectionConfig c :
  rtc orderly_step (NewCoordinator conf blockRange nodeName selectionConfig) c ->
  (size (assembling (co_w c)) <= 1)%nat /\ (co_assemblyInFlight c = false -> assembling (co_w c) = ∅).
Proof.
  intros Hr. apply orderly_run_slot in Hr as Hs; [|apply new_ok|].
  - unfold slotHeld, slot, occupancy in Hs. split; [case_match; lia|]. intros Hf. rewrite Hf in Hs. apply map_size_empty_iff. lia.
  - unfold slotHeld, occupancy, assembling, leaving. cbn [co_w NewCoordinator transactionsByID]. rewrite map_filter_empty, map_size_empty. simpl. lia.
Qed.
End Orderly.

(** ** Orderly runs of a small node *)

#[export] Instance notSelection_dec e : Decision (notSelection e).
Proof. destruct e as [id []| | | | | | | | | | |]; simpl; apply _. Defined.
#[export] Instance ownEvent_dec e : Decision (ownEvent e).
Proof. unfold ownEvent. apply _. Defined.
#[export] Instance notTransition_dec e : Decision (notTransition e).
Proof. destruct e; simpl; apply _. Defined.

(** What is queued is the coordinator's own and is handled without error. *)
Fixpoint drainsOrderly (fuel : nat) (c : Coord) : bool :=
  match fuel with
  | O => true
  | S fuel =>
      match nextInternal c with
      | None => true
      | Some (e, c) =>
          bool_decide (ownEvent e) && is_Ok (coordinatorProcessEvent e c).2 && drainsOrderly fuel (coordinatorProcessEvent e c).1
      end
  end.

Definition handledOrderly (e : CoordinatorEvent) (c : Coord) : bool :=
  bool_decide (co_events c = [] /\ c_internalQueue (w_c (co_w c)) = [] /\ notTransition e /\ notSelection e) &&
  is_Ok (coordinatorProcessEvent e c).2 && drainsOrderly 20 (coordinatorProcessEvent e c).1.

Lemma is_Ok_unit (c : Coord) (r : res unit) : is_Ok r = true -> (c, r) = (c, Ok tt).
Proof. by destruct r as [[]|e|x]. Qed.

Lemma drain_orderly fuel c : drainsOrderly fuel c = true -> rtc orderly_step c (drainInternal fuel c).
Proof.
  revert c. induction fuel as [|fuel IH]; intros c; simpl; [done|].
  destruct (nextInternal c) as [[e c1]|] eqn:Hn; [|done]. intros [[Hown%bool_decide_eq_true Hok]%andb_prop Hd]%andb_prop.
  eapply rtc_l; [|by apply IH]. apply (orderly_internal e c1 c _ Hn Hown).
  destruct (coordinatorProcessEvent e c1) as [c2 r]. by apply is_Ok_unit.
Qed.

Lemma deliver_orderly e c : handledOrderly e c = true -> rtc orderly_step c (deliver e c).
Proof.
  intros [[(He & Hq & Ht & Hs)%bool_decide_eq_true Hok]%andb_prop Hd]%andb_prop.
  eapply rtc_l; [apply orderly_background, (step_arrives e)|]. unfold deliver. eapply rtc_l; [|by apply drain_orderly].
  apply (orderly_event e []); [simpl; by rewrite He|done|done|simpl; by rewrite Hq|].
  set (c0 := (c <| co_events ::= _ |>) <| co_events := [] |>). assert (Hc0 : c0 = c) by (subst c0; destruct c; simpl in He; by subst).
  rewrite Hc0. destruct (coordinatorProcessEvent e c) as [c2 r]. by apply is_Ok_unit.
Qed.

Lemma active_orderly : rtc orderly_step (newCoordAt "node2") (activeCoord [1%N; 2%N]).
Proof.
  assert (Hs : Start (newCoordAt "node2") = ((Start (newCoordAt "node2")).1, Ok tt)) by (vm_compute; reflexivity).
  eapply rtc_l; [apply orderly_background, (step_start _ _ Hs)|].
  etrans; [|apply deliver_orderly; vm_compute; reflexivity]. unfold idleAt, deliver.
  eapply rtc_l; [|apply drain_orderly; vm_compute; reflexivity].
  apply (orderly_event CoordinatorCreatedEvent []); [done..|vm_compute; reflexivity].
Qed.

Lemma one_assembly_at_a_time_witness :
  size (transactionsByID (co_w (activeCoord [1%N; 2%N]))) = 2%nat /\ co_assemblyInFlight (activeCoord [1%N; 2%N]) = true /\
  (size (assembling (co_w (activeCoord [1%N; 2%N]))) <= 1)%nat.
Proof.
  split; [vm_compute; reflexivity|]. split; [vm_compute; reflexivity|].
  apply (one_assembly_at_a_time sampleCoordConfig 50 "node2" sampleSelection _ active_orderly).
Defined.
