(* ===== verification/CoordAnswers.v ===== *)
(** * Endorsement requests are answered

    The goroutine that endorses for another node: it ends within the configured number of attempts,
    answers its sender once, and frees the key of the request.

    Sources: coordinator/endorsing.go, sdk/go/pkg/retry/retry.go. *)

From S2P Require Import Prelude StateMachine Identity Selection DependencyTracker StateVisibility Grapher StateView.
From S2P Require Import TxTypes CoordTypes World TxActions TxMachine TxPropagation DispatchLoop Sample.
From S2P Require Import CoordWorld CoordActions CoordEndorse CoordMachine CoordSample CoordInvariants CoordWf CoordRuns.
Open Scope list_scope.

Section Retries.
Context {A : Type}.

(** The outcome of the first attempt that settledBy it. *)
Definition settledBy (maxAttempts : nat) (attempt : nat) (out : bool * res A) : bool :=
  match out with
  | (_, Ok _) | (_, Crash _) => true
  | (retry, Err _) => negb retry || ((0 <? maxAttempts)%nat && (maxAttempts <=? attempt)%nat)
  end.

(** An uninterrupted retry ends with the outcome of the first attempt that settledBy it. *)
Lemma retryDo_first maxAttempts (do : nat -> bool * res A) fuel attempt k :
  (attempt <= k < attempt + fuel)%nat -> (forall j, (attempt <= j < k)%nat -> settledBy maxAttempts j (do j) = false) ->
  settledBy maxAttempts k (do k) = true -> retryDo fuel maxAttempts None attempt do = (do k).2.
Proof.
  revert attempt. induction fuel as [|fuel IH]; intros attempt Hk Hbefore Hend; [lia|]. simpl.
  destruct (decide (attempt = k)) as [->|Hne].
  - unfold settledBy in Hend. destruct (do k) as [retry [a|e|x]]; [done| |done]. by rewrite Hend.
  - assert (Hn : settledBy maxAttempts attempt (do attempt) = false) by (apply Hbefore; lia). unfold settledBy in Hn.
    destruct (do attempt) as [retry [a|e|x]]; [done| |done]. rewrite Hn. apply IH; [lia| |done]. intros j Hj. apply Hbefore. lia.
Qed.

(** With a limit, it is settled within the limit. *)
Lemma settled_within maxAttempts (do : nat -> bool * res A) :
  (0 < maxAttempts)%nat ->
  exists k, (1 <= k <= maxAttempts)%nat /\ settledBy maxAttempts k (do k) = true /\ forall j, (1 <= j < k)%nat -> settledBy maxAttempts j (do j) = false.
Proof.
  intros Hm. assert (Hlast : settledBy maxAttempts maxAttempts (do maxAttempts) = true).
  { unfold settledBy. destruct (do maxAttempts) as [retry [a|e|x]]; [done| |done].
    rewrite (proj2 (Nat.ltb_lt 0 maxAttempts) Hm), Nat.leb_refl. by destruct retry. }
  assert (Hfind : forall n, (1 <= n)%nat -> settledBy maxAttempts n (do n) = true ->
    exists k, (1 <= k <= n)%nat /\ settledBy maxAttempts k (do k) = true /\ forall j, (1 <= j < k)%nat -> settledBy maxAttempts j (do j) = false).
  { induction n as [n IH] using lt_wf_ind. intros Hn Hs.
    destruct (decide (Exists (fun j => settledBy maxAttempts j (do j) = true) (seq 1 (n - 1)))) as [He|He].
    - apply Exists_exists in He as (j & Hj%elem_of_seq & Hsj). destruct (IH j) as (k & Hk & Hsk & Hbk); [lia..|done|].
      exists k. split; [lia|done].
    - exists n. split; [lia|]. split; [done|]. intros j Hj. apply not_true_is_false. intros Hsj. apply He, Exists_exists.
      exists j. split; [apply elem_of_seq; lia|done]. }
  destruct (Hfind maxAttempts) as (k & Hk & Hsk & Hbk); [lia|done|]. by exists k.
Qed.
End Retries.

Section Answers.
Context `{Env, CoordEnv}.

(** The message that goes with an outcome. *)
Definition answerTo (contract : string) (e : EndorsementRequestReceived) (outcome : res EndorsementResponse) : option CoordinatorMessage :=
  match outcome with
  | Ok response => Some (SendEndorsementResponse (err_FromNode e) response)
  | Err x =>
      Some (SendEndorsementError (err_FromNode e)
        (MkEndorsementError (err_TransactionId e) (err_IdempotencyKey e) contract x (err_Party e) (ar_Name (err_AttestationRequest e))))
  | Crash _ => None
  end.

(** The goroutine of an endorsement request ends, after at most the configured number of
    attempts: it sends one answer to the node that asked, which is the endorsement of the first
    attempt that succeeded or the error of the one that could not be retried; then the request is no
    longer in flight, so a repeat of it is endorsed again. *)
Theorem endorsement_answered fuel i e c :
  reachable c -> co_endorseJobs c !! i = Some e ->
  (0 < conf_endorseMaxAttempts (co_conf c) <= fuel)%nat -> (forall l msg, cenv_transport l msg = None) ->
  (forall attempt x, (endorse (c_nodeName (w_c (co_w c))) (conf_contractAddress (co_conf c)) e attempt).2 <> Crash x) ->
  exists k msg,
    let attempt := endorse (c_nodeName (w_c (co_w c))) (conf_contractAddress (co_conf c)) e in
    (1 <= k <= conf_endorseMaxAttempts (co_conf c))%nat /\
    (forall j, (1 <= j < k)%nat -> exists err, attempt j = (true, Err err)) /\
    answerTo (conf_contractAddress (co_conf c)) e (attempt k).2 = Some msg /\
    finishEndorsement fuel None i c =
      (c <| co_outbox ::= fun l => l ++ [msg] |> <| co_inFlightEndorsements ::= fun s => s ∖ {[err_IdempotencyKey e]} |>
         <| co_endorseJobs := delete i (co_endorseJobs c) |>, Ok tt) /\
    err_IdempotencyKey e ∉ co_inFlightEndorsements c ∖ {[err_IdempotencyKey e]} /\
    Forall (fun e' => err_IdempotencyKey e' <> err_IdempotencyKey e) (delete i (co_endorseJobs c)).
Proof.
  intros Hr Hi Hmax Ht Hnc. set (attempt := endorse _ _ e) in *.
  destruct (settled_within (conf_endorseMaxAttempts (co_conf c)) attempt) as (k & Hk & Hsk & Hbk); [lia|].
  assert (Hre : retryDo fuel (conf_endorseMaxAttempts (co_conf c)) None 1 attempt = (attempt k).2) by (apply retryDo_first; [lia|done..]).
  assert (Hmsg : exists msg, answerTo (conf_contractAddress (co_conf c)) e (attempt k).2 = Some msg).
  { specialize (Hnc k). destruct (attempt k) as [r [a|err|x]]; [by eexists..|]. by destruct (Hnc x). }
  destruct Hmsg as [msg Hmsg]. exists k, msg. cbv zeta. split; [done|]. split.
  { intros j Hj. specialize (Hbk j Hj). unfold settledBy in Hbk. destruct (attempt j) as [r [a|err|x]]; try discriminate Hbk.
    exists err. f_equal. by destruct r. }
  split; [done|]. apply reachable_ok in Hr as [_ _ [_ _ _ _ Hjn Hkeys]]. split; [|split; [set_solver|]].
  - unfold finishEndorsement, gets. unfold mbind at 1, M_bind at 1. rewrite Hi. unfold handleEndorsementRequest, gets.
    unfold mbind at 1, M_bind at 1. unfold mbind at 1, M_bind at 1. cbv beta. change (endorse _ _ e) with attempt. rewrite Hre.
    destruct (attempt k) as [r [a|err|x]]; simpl in Hmsg; try discriminate Hmsg; injection Hmsg as <-.
    all: unfold log_error, sendC; cbn [snd]; by rewrite Ht.
  - destruct (delete_keys err_IdempotencyKey (co_endorseJobs c) i e Hjn Hi) as [_ Hk']. apply Forall_forall. intros e' He' Heq.
    assert (Hin : err_IdempotencyKey e' ∈ (list_to_set (err_IdempotencyKey <$> delete i (co_endorseJobs c)) : gset string)).
    { apply elem_of_list_to_set, list_elem_of_fmap. eauto. }
    rewrite Hk' in Hin. rewrite Heq in Hin. set_solver.
Qed.
End Answers.

(** ** Example *)

Definition sampleAttestation : AttestationRequest :=
  MkAttestationRequest "endorsement" AttestationType_ENDORSE "alg" "verifier" "payload" "payloadType" ["bob@node2"]%string 0.

Definition sampleEndorsementRequest : EndorsementRequestReceived :=
  MkEndorsementRequestReceived "node1" "tx1" "key1" "bob@node2"
    (MkPrivateTransactionEndorseRequest "block" (MkTransactionSpecification "alice@node1" SEND_TRANSACTION EmptyString) [] [] [] [] [] [] sampleAttestation None) sampleAttestation None 0 5.

(** A coordinator that has been asked to endorse. *)
Definition endorsingCoord : Coord := deliver (EndorsementRequestReceivedEvent sampleEndorsementRequest) idleCoord.

Lemma endorsing_reachable : reachable endorsingCoord.
Proof.
  apply (deliver_reachable _ _ idle_reachable); vm_compute; reflexivity.
Qed.

Lemma sample_endorse_ok attempt :
  is_Ok (endorse (c_nodeName (w_c (co_w endorsingCoord))) (conf_contractAddress (co_conf endorsingCoord)) sampleEndorsementRequest attempt).2 = true.
Proof. vm_compute. reflexivity. Qed.

Lemma endorsement_answered_witness :
  exists k msg, (1 <= k <= 3)%nat /\
    answerTo "0xc0ffee" sampleEndorsementRequest
      (endorse (c_nodeName (w_c (co_w endorsingCoord))) (conf_contractAddress (co_conf endorsingCoord)) sampleEndorsementRequest k).2 = Some msg.
Proof.
  destruct (endorsement_answered 3 0 sampleEndorsementRequest endorsingCoord endorsing_reachable) as (k & msg & Hk & _ & Hm & _).
  - vm_compute. reflexivity.
  - vm_compute. lia.
  - done.
  - intros attempt x Hx. pose proof (sample_endorse_ok attempt) as Ho. rewrite Hx in Ho. discriminate Ho.
  - exists k, msg. split; [exact Hk|exact Hm].
Defined.
