(* ===== verification/OrigTypes.v ===== *)
(** * The data of an originator

    The states and events of the two machines on the node that submits a private transaction, the
    originator's (originator/state_machine.go, events.go) and that of each of its transactions
    (originator/transaction/state_machine.go, events.go), and the messages they send to
    coordinators.  The two packages declare the same names as the coordinator's, so each has a module
    here: [OTx] for originator/transaction and [Orig] for originator. *)

From S2P Require Import Prelude TxTypes CoordTypes.
Open Scope list_scope.

(** [components.ResolvedTransaction], what the transaction manager knows of the transaction; opaque
    here but for what assembly checks. *)
Record LocalTransaction : Type := MkLocalTransaction {
  ltx_Domain : string;
  ltx_To : option string
}.

Record ResolvedTransaction : Type := MkResolvedTransaction { rtx_Transaction : option LocalTransaction }.

Module OTx.

(** ** States (common/states.go) *)
Inductive OriginatorTransactionState : Type :=
| State_Initial
| State_Resolving
| State_Pending
| State_Delegated
| State_Assembling
| State_Signing
| State_Endorsement_Gathering
| State_Prepared
| State_Dispatched
| State_Sequenced
| State_Submitted
| State_Confirmed
| State_Reverted
| State_Parked
| State_Final.

#[global] Instance OriginatorTransactionState_eq_dec : EqDecision OriginatorTransactionState.
Proof. solve_decision. Defined.

(** ** Events *)
Inductive OriginatorTransactionEventType : Type :=
| Event_Created
| Event_ConfirmedSuccess
| Event_ConfirmedReverted
| Event_Delegated
| Event_AssembleRequestReceived
| Event_AssembleSuccess
| Event_SignSuccess
| Event_SignError
| Event_AssembleRevert
| Event_AssemblePark
| Event_AssembleError
| Event_Dispatched
| Event_PreDispatchRequestReceived
| Event_Resumed
| Event_NonceAssigned
| Event_Submitted
| Event_Finalize
| Event_VerifiersResolved
| Event_VerifierResolutionFailed
| Event_VerifierResolutionRetry.

#[global] Instance OriginatorTransactionEventType_eq_dec : EqDecision OriginatorTransactionEventType.
Proof. solve_decision. Defined.

Record AssembleRequestReceived : Type := MkAssembleRequestReceived {
  arr_RequestID : uuid;
  arr_Coordinator : string;
  arr_CoordinatorBlockHeight : Z; (* int64 *)
  arr_BlockHeightTolerance : Z; (* int64 *)
  arr_Expiry : option Z (* None: the zero time *)
}.

Record PreDispatchRequestReceived : Type := MkPreDispatchRequestReceived {
  pdrr_RequestID : uuid;
  pdrr_Coordinator : string;
  pdrr_PostAssemblyHash : option string
}.

(** One constructor per event struct; the transaction it is addressed to is the machine it is handed
    to. *)
Inductive OriginatorTransactionEvent : Type :=
| CreatedEvent
| ConfirmedSuccessEvent
| ConfirmedRevertedEvent (RevertReason : option string) (FailureMessage : FailureText) (WillRetry : bool)
| DelegatedEvent (Coordinator : string)
| AssembleRequestReceivedEvent (request : AssembleRequestReceived)
| AssembleSuccessEvent (PostAssembly : TransactionPostAssembly) (RequestID : uuid)
| SignSuccessEvent (Results : list AttestationResult) (RequestID : uuid)
| SignErrorEvent (RequestID : uuid)
| AssembleRevertEvent (PostAssembly : TransactionPostAssembly) (RequestID : uuid)
| AssembleParkEvent (PostAssembly : TransactionPostAssembly) (RequestID : uuid)
| AssembleErrorEvent (RequestID : uuid)
| DispatchedEvent (SignerAddress Coordinator : string)
| PreDispatchRequestReceivedEvent (request : PreDispatchRequestReceived)
| ResumedEvent
| NonceAssignedEvent (SignerAddress : string) (Nonce : Z) (Coordinator : string)
| SubmittedEvent (SignerAddress : string) (Nonce : Z) (LatestSubmissionHash Coordinator : string)
| FinalizeEvent
| VerifiersResolvedEvent (ResolvedVerifiers : list ResolvedVerifier)
| VerifierResolutionFailedEvent
| VerifierResolutionRetryEvent.

(** The [Type()] methods. *)
Definition OriginatorTransactionType_of (event : OriginatorTransactionEvent) : OriginatorTransactionEventType :=
  match event with
  | CreatedEvent => Event_Created
  | ConfirmedSuccessEvent => Event_ConfirmedSuccess
  | ConfirmedRevertedEvent _ _ _ => Event_ConfirmedReverted
  | DelegatedEvent _ => Event_Delegated
  | AssembleRequestReceivedEvent _ => Event_AssembleRequestReceived
  | AssembleSuccessEvent _ _ => Event_AssembleSuccess
  | SignSuccessEvent _ _ => Event_SignSuccess
  | SignErrorEvent _ => Event_SignError
  | AssembleRevertEvent _ _ => Event_AssembleRevert
  | AssembleParkEvent _ _ => Event_AssemblePark
  | AssembleErrorEvent _ => Event_AssembleError
  | DispatchedEvent _ _ => Event_Dispatched
  | PreDispatchRequestReceivedEvent _ => Event_PreDispatchRequestReceived
  | ResumedEvent => Event_Resumed
  | NonceAssignedEvent _ _ _ => Event_NonceAssigned
  | SubmittedEvent _ _ _ _ => Event_Submitted
  | FinalizeEvent => Event_Finalize
  | VerifiersResolvedEvent _ => Event_VerifiersResolved
  | VerifierResolutionFailedEvent => Event_VerifierResolutionFailed
  | VerifierResolutionRetryEvent => Event_VerifierResolutionRetry
  end.

(** [EventWithCoordinator], for the structs that implement it. *)
Definition GetCoordinator (event : OriginatorTransactionEvent) : option string :=
  match event with
  | DelegatedEvent coordinator | DispatchedEvent _ coordinator | NonceAssignedEvent _ _ coordinator
  | SubmittedEvent _ _ _ coordinator => Some coordinator
  | _ => None
  end.
End OTx.

Module Orig.

Inductive OriginatorState : Type :=
| State_Initial
| State_Idle
| State_Observing
| State_Sending.

#[global] Instance OriginatorState_eq_dec : EqDecision OriginatorState.
Proof. solve_decision. Defined.

Inductive OriginatorEventType : Type :=
| Event_OriginatorCreated
| Event_TransactionCreated
| Event_DelegationRequestRejected
| Event_DelegateSendBatch
| Event_HeartbeatReceived
| Event_HeartbeatInterval
| Event_TransactionStateTransition
| Event_EndorserNodesDiscovered
| Event_OfTransaction (* the events of the other package, which never reach this machine *).

#[global] Instance OriginatorEventType_eq_dec : EqDecision OriginatorEventType.
Proof. solve_decision. Defined.

Record DelegationRequestRejected : Type := MkDelegationRequestRejected {
  drj_RejectionReason : RejectionReason;
  drj_ActiveCoordinator : string;
  drj_OriginatorBlockHeight : Z;
  drj_CoordinatorBlockHeight : Z;
  drj_BlockHeightTolerance : Z
}.

Inductive OriginatorEvent : Type :=
| TransactionEvent (tx : uuid) (event : OTx.OriginatorTransactionEvent)
| OriginatorCreatedEvent
| TransactionCreatedEvent (Transaction : option PrivateTransaction) (ResolvedTransaction : option ResolvedTransaction)
| DelegationRequestRejectedEvent (rejection : DelegationRequestRejected)
| DelegateSendBatchEvent (Full : bool)
| HeartbeatReceivedEvent (FromNode : string) (Snapshot : option CoordinatorSnapshot)
| HeartbeatIntervalEvent
| TransactionStateTransitionEvent (tx : uuid) (FromState ToState : OTx.OriginatorTransactionState)
| EndorserNodesDiscoveredEvent (Nodes : list string).

Definition OriginatorType_of (event : OriginatorEvent) : OriginatorEventType :=
  match event with
  | TransactionEvent _ _ => Event_OfTransaction
  | OriginatorCreatedEvent => Event_OriginatorCreated
  | TransactionCreatedEvent _ _ => Event_TransactionCreated
  | DelegationRequestRejectedEvent _ => Event_DelegationRequestRejected
  | DelegateSendBatchEvent _ => Event_DelegateSendBatch
  | HeartbeatReceivedEvent _ _ => Event_HeartbeatReceived
  | HeartbeatIntervalEvent => Event_HeartbeatInterval
  | TransactionStateTransitionEvent _ _ _ => Event_TransactionStateTransition
  | EndorserNodesDiscoveredEvent _ => Event_EndorserNodesDiscovered
  end.
End Orig.

(** ** Messages to coordinators *)

(** An entry of a delegation request, and the request. *)
Record PrivateTransactionDelegation : Type := MkPrivateTransactionDelegation {
  ptd_Domain : string;
  ptd_Intent : Intent;
  ptd_PreAssembly : option TransactionPreAssembly
}.

Record DelegationRequest : Type := MkDelegationRequest {
  dlr_DelegateNodeId : string;
  dlr_OriginatorBlockHeight : Z;
  dlr_ContractAddress : string;
  dlr_Transactions : list PrivateTransactionDelegation
}.

Record AssembleRejection : Type := MkAssembleRejection {
  arj_TransactionId : uuid;
  arj_AssembleRequestId : uuid;
  arj_ContractAddress : string;
  arj_RejectionReason : RejectionReason;
  arj_CoordinatorBlockHeight : Z;
  arj_AssemblerBlockHeight : Z
}.

Record PreDispatchRejection : Type := MkPreDispatchRejection {
  pdj_TransactionId : uuid;
  pdj_RequestId : uuid;
  pdj_ContractAddress : string;
  pdj_RejectionReason : RejectionReason
}.

Inductive OriginatorMessage : Type :=
| SendDelegationRequest (node : string) (request : DelegationRequest)
| SendAssembleResponse (node : string) (tx assembleRequestID : uuid) (contract : string) (PostAssembly : PostAssemblyProto)
| SendAssembleError (node : string) (tx assembleRequestID : uuid) (contract : string)
| SendAssembleRejection (node : string) (rejection : AssembleRejection)
| SendSignResponse (node : string) (tx assembleRequestID : uuid) (contract : string) (result : AttestationResult)
    (PostAssembly : PostAssemblyProto)
| SendSignError (node : string) (tx assembleRequestID : uuid) (contract : string)
| SendPreDispatchResponse (node : string) (id tx : uuid) (contract : string)
| SendPreDispatchRejection (node : string) (rejection : PreDispatchRejection).
