(* ===== verification/OrigWorld.v ===== *)
(** * The originator's memory

    One originator of one contract: its transactions, in the order they were created, its view of who
    coordinates, the goroutines and timers it started, and what leaves the node.  The memory is
    changed by the goroutine of the originator's event loop; [o_heldLocks] are the transaction mutexes
    it holds, [o_locked] is the originator's own.

    Sources: originator/originator.go, originator/originating.go, originator/transaction/transaction.go,
    common/clock.go. *)

From S2P Require Import Prelude StateMachine Selection TxTypes CoordTypes OrigTypes.
Open Scope list_scope.

(** ** originatorTransaction *)

Record assembleRequestFromCoordinator : Type := MkAssembleRequestFromCoordinator {
  rq_coordinatorsBlockHeight : Z;
  rq_coordinator : string;
  rq_requestID : uuid;
  rq_expiry : option Z
}.

Record originatorTransaction : Type := MkOriginatorTransaction {
  ot_pt : PrivateTransaction;
  ot_localTx : option ResolvedTransaction;
  ot_stateMachine : Machine OTx.OriginatorTransactionState OTx.OriginatorTransactionEventType;
  ot_currentDelegate : string;
  ot_lastDelegatedTime : option Z;
  ot_firstDelegatedTime : option Z;
  ot_latestAssembleRequest : option assembleRequestFromCoordinator;
  ot_latestFulfilledAssembleRequestID : uuid;
  ot_latestPreDispatchRequestID : uuid;
  ot_signerAddress : option string;
  ot_latestSubmissionHash : option string;
  ot_nonce : option Z;
  ot_cancelCurrentAssembly : option uuid; (* the assembly goroutine it cancels *)
  ot_currentAssemblyRequestID : uuid;
  ot_cancelCurrentSign : option uuid; (* the sign goroutine it cancels *)
  ot_cancelResolveRetry : option uuid; (* the timer it cancels *)
  ot_stateEntryTime : Z
}.
#[export] Instance originatorTransaction_rebuild : Rebuild originatorTransaction := fun t =>
  MkOriginatorTransaction (ot_pt t) (ot_localTx t) (ot_stateMachine t) (ot_currentDelegate t) (ot_lastDelegatedTime t)
    (ot_firstDelegatedTime t) (ot_latestAssembleRequest t) (ot_latestFulfilledAssembleRequestID t)
    (ot_latestPreDispatchRequestID t) (ot_signerAddress t) (ot_latestSubmissionHash t) (ot_nonce t)
    (ot_cancelCurrentAssembly t) (ot_currentAssemblyRequestID t) (ot_cancelCurrentSign t) (ot_cancelResolveRetry t)
    (ot_stateEntryTime t).

(** ** Goroutines that run off the event loop, by the values they captured *)

Record AssembleJob : Type := MkAssembleJob {
  aj_tx : uuid;
  aj_req : assembleRequestFromCoordinator;
  aj_preAssembly : option TransactionPreAssembly;
  aj_resolvedVerifiers : list ResolvedVerifier;
  aj_localTx : option ResolvedTransaction;
  aj_cancelled : bool
}.
#[export] Instance AssembleJob_rebuild : Rebuild AssembleJob := fun j =>
  MkAssembleJob (aj_tx j) (aj_req j) (aj_preAssembly j) (aj_resolvedVerifiers j) (aj_localTx j) (aj_cancelled j).

Record SignJob : Type := MkSignJob {
  sj_tx : uuid;
  sj_requestID : uuid;
  sj_attestationPlan : list AttestationRequest;
  sj_cancelled : bool
}.
#[export] Instance SignJob_rebuild : Rebuild SignJob := fun j =>
  MkSignJob (sj_tx j) (sj_requestID j) (sj_attestationPlan j) (sj_cancelled j).

Record ResolveJob : Type := MkResolveJob {
  rj_tx : uuid;
  rj_requiredVerifiers : list ResolveVerifierRequest
}.

Record OrigTimer : Type := MkOrigTimer { otm_tx : uuid; otm_event : OTx.OriginatorTransactionEvent; otm_due : Z }.

(** ** originator *)

Record OrigConfig : Type := MkOrigConfig {
  oc_nodeName : string;
  oc_contractAddress : string;
  oc_blockRange : Z;
  oc_inactiveGracePeriod : Z;
  oc_resolveRetryBackoff : Z;
  oc_heartbeatInterval : Z
}.

(** The two channels of length one that the delegation loop drains. *)
Record DelegationLoop : Type := MkDelegationLoop {
  dlp_notifyFull : bool;
  dlp_notifyPartial : bool
}.
#[export] Instance DelegationLoop_rebuild : Rebuild DelegationLoop := fun l =>
  MkDelegationLoop (dlp_notifyFull l) (dlp_notifyPartial l).

(** [o_transactionsOrdered] holds pointers to the transactions of [o_transactionsByID], so ids.  The
    delegation loop is running iff [o_delegationLoop] is set. *)
Record Originator : Type := MkOriginator {
  o_machine : Machine Orig.OriginatorState Orig.OriginatorEventType;
  o_locked : bool;
  o_started : bool;
  o_currentActiveCoordinator : string;
  o_heartbeatIntervalsSinceLastReceive : Z;
  o_transactionsByID : gmap N originatorTransaction;
  o_transactionsOrdered : list uuid;
  o_heldLocks : gset N;
  o_effectiveBlockHeight : Z;
  o_currentBlockHeight : Z;
  o_endorserCandidates : list string;
  o_coordinatorPriorityList : list string;
  o_failoverIndex : nat;
  o_delegationLoop : option DelegationLoop;
  o_internalQueue : list Orig.OriginatorEvent;
  o_events : list Orig.OriginatorEvent;
  o_outbox : list OriginatorMessage;
  o_assemblies : gmap N AssembleJob;
  o_signs : gmap N SignJob;
  o_resolves : gmap N ResolveJob;
  o_timers : gmap N OrigTimer;
  o_nextUUID : uuid;
  o_now : Z;
  o_liveBlockHeight : Z;
  o_conf : OrigConfig
}.
#[export] Instance Originator_rebuild : Rebuild Originator := fun o =>
  MkOriginator (o_machine o) (o_locked o) (o_started o) (o_currentActiveCoordinator o)
    (o_heartbeatIntervalsSinceLastReceive o) (o_transactionsByID o) (o_transactionsOrdered o) (o_heldLocks o)
    (o_effectiveBlockHeight o) (o_currentBlockHeight o) (o_endorserCandidates o) (o_coordinatorPriorityList o)
    (o_failoverIndex o) (o_delegationLoop o) (o_internalQueue o) (o_events o) (o_outbox o) (o_assemblies o) (o_signs o)
    (o_resolves o) (o_timers o) (o_nextUUID o) (o_now o) (o_liveBlockHeight o) (o_conf o).

(** ** Components outside the model *)

(** The transport writer may refuse a message; what engine integration says of pending private state
    data does not change while one event is handled; the digest is Keccak-256. *)
Class OrigEnv : Type := {
  oenv_transport : list OriginatorMessage -> OriginatorMessage -> option error;
  oenv_CheckPendingPrivateStateData : Z -> res bool;
  oenv_keccak256 : string -> string
}.

(** ** Elementary steps *)

Definition getOTx (id : uuid) : M Originator originatorTransaction := fun o =>
  match o_transactionsByID o !! id with
  | Some t => (o, Ok t)
  | None => (o, Crash Panic)
  end.

Definition setOTx (id : uuid) (f : originatorTransaction -> originatorTransaction) (o : Originator) : Originator :=
  o <| o_transactionsByID ::= alter f id |>.

Definition updOTx (id : uuid) (f : originatorTransaction -> originatorTransaction) : M Originator unit := modify (setOTx id f).

Definition newOUUID : M Originator uuid := fun o => (o <| o_nextUUID ::= N.succ |>, Ok (o_nextUUID o)).

(** [o.transportWriter.Send...] *)
Definition sendO `{OrigEnv} (msg : OriginatorMessage) : M Originator unit := fun o =>
  match oenv_transport (o_outbox o) msg with
  | None => (o <| o_outbox ::= fun l => l ++ [msg] |>, Ok tt)
  | Some e => (o, Err e)
  end.

(** [queueEventInternal] *)
Definition queueEventForOriginator (e : Orig.OriginatorEvent) : M Originator unit :=
  modify (fun o => o <| o_internalQueue ::= fun q => q ++ [e] |>).

(** [clock.ScheduleTimer]: one shot; the cancel function removes it. *)
Definition scheduleO (tx : uuid) (duration : Z) (event : OTx.OriginatorTransactionEvent) : M Originator uuid :=
  timer ← newOUUID;
  modify (fun o => o <| o_timers ::= <[timer := MkOrigTimer tx event (o_now o + duration)%Z]> |>) ≫= fun _ =>
  mret timer.

Definition fireOrigTimer (timer : uuid) (o : Originator) : Originator :=
  match o_timers o !! timer with
  | Some t =>
      if (otm_due t <=? o_now o)%Z then
        (queueEventForOriginator (Orig.TransactionEvent (otm_tx t) (otm_event t)) (o <| o_timers ::= delete timer |>)).1
      else o
  | None => o
  end.

(** ** Who coordinates: originating.go *)

(** [resetFailoverIndex] *)
Definition resetFailoverIndex (o : Originator) : Originator :=
  match o_coordinatorPriorityList o with
  | first :: _ :: _ => o <| o_failoverIndex := if String.eqb (o_currentActiveCoordinator o) first then 1%nat else 0%nat |>
  | _ => o
  end.

(** [calculateCoordinatorPriorities]; an empty list has no first element. *)
Definition calculateOriginatorPriorities : M Originator unit := fun o =>
  match o_endorserCandidates o with
  | [] => (o, Ok tt)
  | candidates =>
      let o := o <| o_coordinatorPriorityList := ComputeCoordinatorPriorityList candidates (o_effectiveBlockHeight o) |> in
      if String.eqb (o_currentActiveCoordinator o) EmptyString then
        match o_coordinatorPriorityList o with
        | [] => (o, Crash Panic)
        | first :: _ => (resetFailoverIndex (o <| o_currentActiveCoordinator := first |>), Ok tt)
        end
      else (resetFailoverIndex o, Ok tt)
  end.

(** [refreshBlockHeight]; [uint64(liveHeight)] reinterprets an int64. *)
Definition refreshOriginatorBlockHeight : M Originator unit :=
  liveHeight ← gets o_liveBlockHeight;
  modify (fun o => o <| o_currentBlockHeight := liveHeight |>) ≫= fun _ =>
  newEffective ← liftR (fun o => ComputeEffectiveBlockHeight (u64 liveHeight) (oc_blockRange (o_conf o)));
  effective ← gets o_effectiveBlockHeight;
  if (newEffective =? effective)%Z then mret tt
  else
    modify (fun o => o <| o_effectiveBlockHeight := newEffective |>) ≫= fun _ =>
    calculateOriginatorPriorities.
