(* ===== verification/OrigTxActions.v ===== *)
(** * What the originator's transaction machine does (originator/transaction/*.go)

    One definition per action, guard and validator, on the transaction [id] of the originator's
    memory.  A validator or action that converts its event to the wrong type panics. *)

From S2P Require Import Prelude StateMachine Identity Selection TxTypes CoordTypes OrigTypes OrigWorld.
Import OTx.
Open Scope list_scope.

Abbreviation OTAction := (Action OriginatorTransactionEvent Originator).
Abbreviation OTGuard := (Guard Originator).
Abbreviation OTValidator := (Validator OriginatorTransactionEvent Originator).

(** A guard, and a validator, that read the transaction. *)
Definition onOTx (id : uuid) (f : Originator -> originatorTransaction -> option bool) : OTGuard := fun o =>
  match o_transactionsByID o !! id with
  | Some t => f o t
  | None => None
  end.

Definition validOTx (id : uuid) (f : Originator -> originatorTransaction -> OriginatorTransactionEvent -> res bool) : OTValidator :=
  fun event o =>
  match o_transactionsByID o !! id with
  | Some t => f o t event
  | None => Crash Panic
  end.

(** ** transaction.go *)

Definition newOriginatorTransaction (p : PrivateTransaction) (localTx : option ResolvedTransaction) (now : Z) : originatorTransaction :=
  MkOriginatorTransaction p localTx (MkMachine State_Initial None now) EmptyString None None None uuid_Nil uuid_Nil None None None
    None uuid_Nil None None now.

(** The entry of the status for one party: whether an endorsement of it is there. *)
Fixpoint endorsementReceived (endorsements : list AttestationResult) (attRequest : AttestationRequest) (party : string) : option bool :=
  match endorsements with
  | [] => Some false
  | e :: rest =>
      match at_Verifier e with
      | None => None
      | Some v =>
          if String.eqb (at_Name e) (ar_Name attRequest) && String.eqb party (rv_Lookup v)
             && String.eqb (ar_VerifierType attRequest) (rv_VerifierType v)
          then Some true else endorsementReceived rest attRequest party
      end
  end.

(** [getEndorsementStatus]: one entry per requirement of the plan, which each party of the
    requirement overwrites; the zero value where there is none. *)
Fixpoint partiesStatus (endorsements : list AttestationResult) (attRequest : AttestationRequest) (parties : list string)
    (status : string * bool) : option (string * bool) :=
  match parties with
  | [] => Some status
  | party :: rest =>
      match endorsementReceived endorsements attRequest party with
      | None => None
      | Some received => partiesStatus endorsements attRequest rest (party, received)
      end
  end.

Fixpoint planStatus (endorsements : list AttestationResult) (plan : list AttestationRequest) : option (list (string * bool)) :=
  match plan with
  | [] => Some []
  | attRequest :: rest =>
      match (match ar_AttestationType attRequest with
             | AttestationType_ENDORSE => partiesStatus endorsements attRequest (ar_Parties attRequest) (EmptyString, false)
             | _ => Some (EmptyString, false)
             end), planStatus endorsements rest with
      | Some s, Some l => Some (s :: l)
      | _, _ => None
      end
  end.

Definition getEndorsementStatus (t : originatorTransaction) : option (list (string * bool)) :=
  match pt_PostAssembly (ot_pt t) with
  | None => Some []
  | Some pa => planStatus (pp_Endorsements (pa_AssembleResponse pa)) (pp_AttestationPlan (pa_AssembleResponse pa))
  end.

Section Actions.
Context `{OrigEnv}.
Context (id : uuid).

Definition hashInternal (t : originatorTransaction) : res string :=
  match pt_PostAssembly (ot_pt t) with
  | None => Err (MsgSequencerInternalError "cannot hash transaction without PostAssembly")
  | Some pa => Ok (oenv_keccak256 (String.concat EmptyString (at_Payload <$> pp_Signatures (pa_AssembleResponse pa))))
  end.

(** ** resolving.go *)

Definition guard_HasRequiredVerifiers : OTGuard := onOTx id (fun _ t =>
  Some (match pt_PreAssembly (ot_pt t) with
        | Some pre => (0 <? length (pre_RequiredVerifiers pre))%nat
        | None => false
        end)).

Definition action_ResolveVerifiers : OTAction := fun _ =>
  t ← getOTx id;
  job ← newOUUID;
  modify (fun o => o <| o_resolves ::= <[job := MkResolveJob id
    (match pt_PreAssembly (ot_pt t) with Some pre => pre_RequiredVerifiers pre | None => [] end)]> |>).

(** [handleResolveVerifiers], once engine integration has answered. *)
Definition handleResolveVerifiers (job : uuid) (result : option (list ResolvedVerifier)) (o : Originator) : Originator :=
  match o_resolves o !! job with
  | None => o
  | Some j =>
      (queueEventForOriginator
         (Orig.TransactionEvent (rj_tx j)
            (match result with
             | Some verifiers => VerifiersResolvedEvent verifiers
             | None => VerifierResolutionFailedEvent
             end)) (o <| o_resolves ::= delete job |>)).1
  end.

Definition action_VerifiersResolved : OTAction := fun event =>
  match event with
  | VerifiersResolvedEvent verifiers => updOTx id (fun t => t <| ot_pt ::= fun p => p <| pt_ResolvedVerifiers := verifiers |> |>)
  | _ => crashM Panic
  end.

Definition clearResolveRetrySchedule : M Originator unit :=
  t ← getOTx id;
  match ot_cancelResolveRetry t with
  | None => mret tt
  | Some timer =>
      modify (fun o => o <| o_timers ::= delete timer |>) ≫= fun _ =>
      updOTx id (fun t => t <| ot_cancelResolveRetry := None |>)
  end.

Definition scheduleResolveRetry : M Originator unit :=
  clearResolveRetrySchedule ≫= fun _ =>
  backoff ← gets (fun o => oc_resolveRetryBackoff (o_conf o));
  timer ← scheduleO id backoff VerifierResolutionRetryEvent;
  updOTx id (fun t => t <| ot_cancelResolveRetry := Some timer |>).

Definition action_ScheduleResolveRetry : OTAction := fun _ => scheduleResolveRetry.
Definition action_CancelResolveRetry : OTAction := fun _ => clearResolveRetrySchedule.

(** ** delegated.go *)

Definition action_Delegated : OTAction := fun event =>
  match event with
  | DelegatedEvent coordinator =>
      if String.eqb coordinator EmptyString then
        throw (MsgSequencerInternalError "transaction delegate cannot be set to an empty node identity")
      else
        now ← gets o_now;
        updOTx id (fun t =>
          (match ot_firstDelegatedTime t with
           | Some _ => if String.eqb coordinator (ot_currentDelegate t) then t else t <| ot_firstDelegatedTime := Some now |>
           | None => t <| ot_firstDelegatedTime := Some now |>
           end) <| ot_currentDelegate := coordinator |> <| ot_lastDelegatedTime := Some now |>)
  | _ => crashM Panic
  end.

Definition action_ResetDelegationState : OTAction := fun _ =>
  updOTx id (fun t => t <| ot_latestAssembleRequest := None |> <| ot_latestFulfilledAssembleRequestID := uuid_Nil |>
    <| ot_latestPreDispatchRequestID := uuid_Nil |> <| ot_signerAddress := None |> <| ot_latestSubmissionHash := None |>
    <| ot_nonce := None |>).

Definition validator_CoordinatorIsCurrentDelegate : OTValidator := validOTx id (fun _ t event =>
  Ok (match GetCoordinator event with
      | Some coordinator => String.eqb coordinator (ot_currentDelegate t)
      | None => false
      end)).

Definition action_SendPreDispatchResponse : OTAction := fun _ =>
  t ← getOTx id;
  sendO (SendPreDispatchResponse (ot_currentDelegate t) (ot_latestPreDispatchRequestID t) (pt_ID (ot_pt t)) (pt_Address (ot_pt t))).

Definition validator_AssembleRequestFromCurrentDelegate : OTValidator := validOTx id (fun _ t event =>
  Ok (match event with
      | AssembleRequestReceivedEvent e => String.eqb (arr_Coordinator e) (ot_currentDelegate t)
      | _ => false
      end)).

Definition validator_PreDispatchRequestFromCurrentDelegate : OTValidator := validOTx id (fun _ t event =>
  match event with
  | PreDispatchRequestReceivedEvent e =>
      if String.eqb (pdrr_Coordinator e) (ot_currentDelegate t) then
        match hashInternal t with
        | Ok hash => Ok (match pdrr_PostAssemblyHash e with Some h => String.eqb hash h | None => false end)
        | Err e => Err e
        | Crash x => Crash x
        end
      else Ok false
  | _ => Ok false
  end).

Definition action_SendPreDispatchRejectionNotCurrentDelegate : OTAction := fun event =>
  match event with
  | PreDispatchRequestReceivedEvent e =>
      t ← getOTx id;
      log_error (sendO (SendPreDispatchRejection (pdrr_Coordinator e)
        (MkPreDispatchRejection (pt_ID (ot_pt t)) (pdrr_RequestID e) (pt_Address (ot_pt t)) RejectionReason_NOT_CURRENT_DELEGATE)))
  | _ => crashM Panic
  end.

(** ** assembling.go *)

Definition action_AssembleRequestReceived : OTAction := fun event =>
  match event with
  | AssembleRequestReceivedEvent e =>
      updOTx id (fun t => t <| ot_currentDelegate := arr_Coordinator e |>
        <| ot_latestAssembleRequest := Some (MkAssembleRequestFromCoordinator (arr_CoordinatorBlockHeight e) (arr_Coordinator e)
             (arr_RequestID e) (arr_Expiry e)) |>)
  | _ => crashM Panic
  end.

Definition setFulfilled (pa : TransactionPostAssembly) (requestID : uuid) : M Originator unit :=
  updOTx id (fun t => t <| ot_pt ::= fun p => p <| pt_PostAssembly := Some pa |> |> <| ot_latestFulfilledAssembleRequestID := requestID |>).

Definition action_AssembleSuccess : OTAction := fun event =>
  match event with AssembleSuccessEvent pa requestID => setFulfilled pa requestID | _ => crashM Panic end.

Definition action_AssembleRevert : OTAction := fun event =>
  match event with AssembleRevertEvent pa requestID => setFulfilled pa requestID | _ => crashM Panic end.

Definition action_AssemblePark : OTAction := fun event =>
  match event with AssembleParkEvent pa requestID => setFulfilled pa requestID | _ => crashM Panic end.

Definition action_AssembleError : OTAction := fun event =>
  match event with
  | AssembleErrorEvent requestID => updOTx id (fun t => t <| ot_latestFulfilledAssembleRequestID := requestID |>)
  | _ => crashM Panic
  end.

Definition cancelAssembly (job : option uuid) : M Originator unit :=
  match job with
  | None => mret tt
  | Some job => modify (fun o => o <| o_assemblies ::= alter (fun j => j <| aj_cancelled := true |>) job |>)
  end.

Definition action_CancelCurrentAssembly : OTAction := fun _ =>
  t ← getOTx id;
  cancelAssembly (ot_cancelCurrentAssembly t) ≫= fun _ =>
  updOTx id (fun t => t <| ot_cancelCurrentAssembly := None |>).

(** The goroutine is started; [handleAssemble] is its end. *)
Definition action_Assemble : OTAction := fun _ =>
  t ← getOTx id;
  match ot_latestAssembleRequest t with
  | None => throw (MsgSequencerInternalError "No assemble request found")
  | Some req =>
      cancelAssembly (ot_cancelCurrentAssembly t) ≫= fun _ =>
      job ← newOUUID;
      updOTx id (fun t => t <| ot_cancelCurrentAssembly := Some job |> <| ot_currentAssemblyRequestID := rq_requestID req |>) ≫= fun _ =>
      modify (fun o => o <| o_assemblies ::= <[job := MkAssembleJob id req (pt_PreAssembly (ot_pt t))
        (pt_ResolvedVerifiers (ot_pt t)) (ot_localTx t) false]> |>)
  end.

(** The goroutine's context is done. *)
Definition assemblyAbandoned (now : Z) (j : AssembleJob) : bool :=
  aj_cancelled j || match rq_expiry (aj_req j) with Some expiry => (expiry <=? now)%Z | None => false end.

(** The event that goes with an outcome of the assembly, if any. *)
Definition assemblyEvent (requestID : uuid) (response : PostAssemblyProto) : option OriginatorTransactionEvent :=
  let pa := MkPostAssembly response [] [] [] [] [] in
  match pp_AssemblyResult response with
  | AssembleTransactionResponse_OK => Some (AssembleSuccessEvent pa requestID)
  | AssembleTransactionResponse_REVERT => Some (AssembleRevertEvent pa requestID)
  | AssembleTransactionResponse_PARK => Some (AssembleParkEvent pa requestID)
  | AssembleTransactionResponse_other _ => None
  end.

(** [handleAssemble], once engine integration has answered.  Queueing with a context that is done may
    [drop] the event. *)
Definition handleAssemble (job : uuid) (drop : bool) (result : option PostAssemblyProto) (o : Originator) : Originator :=
  match o_assemblies o !! job with
  | None => o
  | Some j =>
      let o := o <| o_assemblies ::= delete job |> in
      let requestID := rq_requestID (aj_req j) in
      let event := match result with
                   | None => if assemblyAbandoned (o_now o) j then None else Some (AssembleErrorEvent requestID)
                   | Some response => if assemblyAbandoned (o_now o) j && drop then None else assemblyEvent requestID response
                   end in
      match event with
      | None => o
      | Some e => (queueEventForOriginator (Orig.TransactionEvent (aj_tx j) e) o).1
      end
  end.

(** [buildAssembleResponse], sent to the current delegate. *)
Definition sendAssembleResponse : M Originator unit :=
  t ← getOTx id;
  match pt_PostAssembly (ot_pt t) with
  | None => crashM Panic
  | Some pa =>
      sendO (SendAssembleResponse (ot_currentDelegate t) (pt_ID (ot_pt t)) (ot_latestFulfilledAssembleRequestID t)
               (pt_Address (ot_pt t)) (pa_AssembleResponse pa))
  end.

Definition action_SendAssembleRevertResponse : OTAction := fun _ => sendAssembleResponse.
Definition action_SendAssembleParkResponse : OTAction := fun _ => sendAssembleResponse.
Definition action_SendAssembleSuccessResponse : OTAction := fun _ => sendAssembleResponse.

Definition action_SendAssembleError : OTAction := fun _ =>
  t ← getOTx id;
  sendO (SendAssembleError (ot_currentDelegate t) (pt_ID (ot_pt t)) (ot_latestFulfilledAssembleRequestID t) (pt_Address (ot_pt t))).

Definition action_RefreshBlockHeight : OTAction := fun _ => refreshOriginatorBlockHeight.

Definition validator_IsPrivateStateDataPendingForAssembly : OTValidator := fun event _ =>
  match event with
  | AssembleRequestReceivedEvent e =>
      match oenv_CheckPendingPrivateStateData (i64 (arr_CoordinatorBlockHeight e - arr_BlockHeightTolerance e)) with
      | Ok complete => Ok (negb complete)
      | Err e => Err e
      | Crash x => Crash x
      end
  | _ => Crash Panic
  end.

Definition sendAssembleRejection (reason : RejectionReason) (heights : bool) (e : AssembleRequestReceived) : M Originator unit :=
  t ← getOTx id;
  height ← gets o_currentBlockHeight;
  sendO (SendAssembleRejection (arr_Coordinator e)
    (MkAssembleRejection (pt_ID (ot_pt t)) (arr_RequestID e) (pt_Address (ot_pt t)) reason
       (if heights then arr_CoordinatorBlockHeight e else 0%Z) (if heights then height else 0%Z))).

Definition action_RejectAssemblyPrivateStateDataPending : OTAction := fun event =>
  match event with
  | AssembleRequestReceivedEvent e => sendAssembleRejection RejectionReason_PRIVATE_STATE_DATA_PENDING true e
  | _ => crashM Panic
  end.

Definition validator_AssembleBlockHeightToleranceExceeded : OTValidator := fun event o =>
  match event with
  | AssembleRequestReceivedEvent e =>
      Ok (u64 (arr_BlockHeightTolerance e) <? heightDistance (u64 (o_currentBlockHeight o)) (u64 (arr_CoordinatorBlockHeight e)))%Z
  | _ => Crash Panic
  end.

Definition action_SendAssembleBlockHeightRejection : OTAction := fun event =>
  match event with
  | AssembleRequestReceivedEvent e => sendAssembleRejection RejectionReason_BLOCK_HEIGHT_TOLERANCE true e
  | _ => crashM Panic
  end.

Definition validator_AssembleSuccessMatchesCurrentRequest : OTValidator := validOTx id (fun _ t event =>
  match event with
  | AssembleSuccessEvent _ requestID =>
      Ok (match ot_latestAssembleRequest t with Some r => N.eqb (rq_requestID r) requestID | None => false end)
  | _ => Crash Panic
  end).

Definition validator_AssembleRequestMatchesInProgressAssembly : OTValidator := validOTx id (fun _ t event =>
  match event with
  | AssembleRequestReceivedEvent e =>
      Ok (match ot_cancelCurrentAssembly t with Some _ => N.eqb (arr_RequestID e) (ot_currentAssemblyRequestID t) | None => false end)
  | _ => Crash Panic
  end).

Definition action_SendAssembleRejectionNotCurrentDelegate : OTAction := fun event =>
  match event with
  | AssembleRequestReceivedEvent e => log_error (sendAssembleRejection RejectionReason_NOT_CURRENT_DELEGATE false e)
  | _ => crashM Panic
  end.

(** ** endorsing.go *)

Definition action_ResendAssembleSuccessResponse : OTAction := action_SendAssembleSuccessResponse.
Definition action_ResendAssembleRevertResponse : OTAction := action_SendAssembleRevertResponse.
Definition action_ResendAssembleParkResponse : OTAction := action_SendAssembleParkResponse.

Definition validator_AssembleRequestMatchesPreviousResponse : OTValidator := validOTx id (fun _ t event =>
  match event with
  | AssembleRequestReceivedEvent e => Ok (N.eqb (arr_RequestID e) (ot_latestFulfilledAssembleRequestID t))
  | _ => Crash Panic
  end).

(** ** signing.go *)

Definition localParty (localNode party : string) : bool :=
  match Validate party localNode true with
  | Ok (_, signerNode) => String.eqb signerNode localNode
  | _ => false
  end.

Definition isSign (r : AttestationRequest) : bool := match ar_AttestationType r with AttestationType_SIGN => true | _ => false end.

Definition guard_HasLocalSignRequirement : OTGuard := onOTx id (fun o t =>
  Some (match pt_PostAssembly (ot_pt t) with
        | None => false
        | Some pa =>
            existsb (fun r => isSign r && existsb (localParty (oc_nodeName (o_conf o))) (ar_Parties r))
              (pp_AttestationPlan (pa_AssembleResponse pa))
        end)).

Definition cancelSign (job : option uuid) : M Originator unit :=
  match job with
  | None => mret tt
  | Some job => modify (fun o => o <| o_signs ::= alter (fun j => j <| sj_cancelled := true |>) job |>)
  end.

Definition action_FulfilSignAttestations : OTAction := fun _ =>
  t ← getOTx id;
  cancelSign (ot_cancelCurrentSign t) ≫= fun _ =>
  match pt_PostAssembly (ot_pt t) with
  | None => crashM Panic
  | Some pa =>
      job ← newOUUID;
      updOTx id (fun t => t <| ot_cancelCurrentSign := Some job |>) ≫= fun _ =>
      modify (fun o => o <| o_signs ::= <[job := MkSignJob id (ot_latestFulfilledAssembleRequestID t)
        (pp_AttestationPlan (pa_AssembleResponse pa)) false]> |>)
  end.

(** The signatures of one requirement, and of the plan; [sign] is [SignAttestation]. *)
Fixpoint signParties (sign : AttestationRequest -> string -> res (option AttestationResult)) (r : AttestationRequest)
    (parties : list string) : res (list AttestationResult) :=
  match parties with
  | [] => Ok []
  | party :: rest =>
      match sign r party with
      | Ok result =>
          match signParties sign r rest with
          | Ok l => Ok (option_list result ++ l)
          | other => other
          end
      | Err e => Err e
      | Crash x => Crash x
      end
  end.

Fixpoint signPlan (sign : AttestationRequest -> string -> res (option AttestationResult)) (plan : list AttestationRequest) :
    res (list AttestationResult) :=
  match plan with
  | [] => Ok []
  | r :: rest =>
      if isSign r then
        match signParties sign r (ar_Parties r) with
        | Ok results =>
            match signPlan sign rest with
            | Ok l => Ok (results ++ l)
            | other => other
            end
        | other => other
        end
      else signPlan sign rest
  end.

(** [handleSign], run to its end; a panic of the goroutine ends the process. *)
Definition handleSign (sign : AttestationRequest -> string -> res (option AttestationResult)) (job : uuid) (drop : bool)
    (o : Originator) : option Originator :=
  match o_signs o !! job with
  | None => Some o
  | Some j =>
      let o := o <| o_signs ::= delete job |> in
      let queue e := (queueEventForOriginator (Orig.TransactionEvent (sj_tx j) e) o).1 in
      match signPlan sign (sj_attestationPlan j) with
      | Ok results => Some (if sj_cancelled j && drop then o else queue (SignSuccessEvent results (sj_requestID j)))
      | Err _ => Some (if sj_cancelled j then o else queue (SignErrorEvent (sj_requestID j)))
      | Crash _ => None
      end
  end.

Definition action_SignSuccess : OTAction := fun event =>
  match event with
  | SignSuccessEvent results _ =>
      t ← getOTx id;
      match pt_PostAssembly (ot_pt t) with
      | None => crashM Panic
      | Some pa =>
          updOTx id (fun t => t <| ot_pt ::= fun p => p <| pt_PostAssembly :=
            Some (pa <| pa_AssembleResponse ::= fun r => r <| pp_Signatures ::= fun l => l ++ results |> |>) |> |>)
      end
  | _ => crashM Panic
  end.

Definition action_SendSignResponse : OTAction := fun _ =>
  t ← getOTx id;
  match pt_PostAssembly (ot_pt t) with
  | None => crashM Panic
  | Some pa =>
      for_each (pp_Signatures (pa_AssembleResponse pa)) (fun signature =>
        sendO (SendSignResponse (ot_currentDelegate t) (pt_ID (ot_pt t)) (ot_latestFulfilledAssembleRequestID t)
                 (pt_Address (ot_pt t)) signature (pa_AssembleResponse pa)))
  end.

Definition action_SendSignError : OTAction := fun _ =>
  t ← getOTx id;
  sendO (SendSignError (ot_currentDelegate t) (pt_ID (ot_pt t)) (ot_latestFulfilledAssembleRequestID t) (pt_Address (ot_pt t))).

Definition action_CancelCurrentSign : OTAction := fun _ =>
  t ← getOTx id;
  cancelSign (ot_cancelCurrentSign t) ≫= fun _ =>
  updOTx id (fun t => t <| ot_cancelCurrentSign := None |>).

Definition validator_SignSuccessMatchesCurrentRequest : OTValidator := validOTx id (fun _ t event =>
  match event with
  | SignSuccessEvent _ requestID => Ok (N.eqb (ot_latestFulfilledAssembleRequestID t) requestID)
  | _ => Crash Panic
  end).

(** ** prepared.go *)

Definition action_Dispatched : OTAction := fun event =>
  match event with
  | DispatchedEvent signer _ => updOTx id (fun t => t <| ot_signerAddress := Some signer |>)
  | _ => crashM Panic
  end.

Definition action_PreDispatchRequestReceived : OTAction := fun event =>
  match event with
  | PreDispatchRequestReceivedEvent e => updOTx id (fun t => t <| ot_latestPreDispatchRequestID := pdrr_RequestID e |>)
  | _ => crashM Panic
  end.

Definition action_ResendPreDispatchResponse : OTAction := action_SendPreDispatchResponse.

(** ** finalizing.go *)

Definition action_NonceAssigned : OTAction := fun event =>
  match event with
  | NonceAssignedEvent signer nonce _ => updOTx id (fun t => t <| ot_signerAddress := Some signer |> <| ot_nonce := Some nonce |>)
  | _ => crashM Panic
  end.

Definition action_Submitted : OTAction := fun event =>
  match event with
  | SubmittedEvent signer nonce hash _ =>
      updOTx id (fun t => t <| ot_signerAddress := Some signer |> <| ot_nonce := Some nonce |> <| ot_latestSubmissionHash := Some hash |>)
  | _ => crashM Panic
  end.

Definition action_QueueFinalizeEvent : OTAction := fun _ => queueEventForOriginator (Orig.TransactionEvent id FinalizeEvent).

Definition validator_WillRetry : OTValidator := fun event _ =>
  match event with
  | ConfirmedRevertedEvent _ _ willRetry => Ok willRetry
  | _ => Crash Panic
  end.
End Actions.
