(* ===== verification/OrigTxMachine.v ===== *)
(** * The state machine of an originator's transaction (originator/transaction/state_machine.go)

    The table of states, events, validators and actions, one definition per state; the entity that
    places a transaction's machine in the originator's memory; and [HandleEvent].  The handlers that
    the table of the code repeats word for word in several states are definitions of their own. *)

From S2P Require Import Prelude StateMachine TxTypes CoordTypes OrigTypes OrigWorld OrigTxActions.
Import OTx.
Open Scope list_scope.

Abbreviation OTxStateDefinition := (StateDefinition OriginatorTransactionState OriginatorTransactionEventType OriginatorTransactionEvent Originator).
Abbreviation OTxEventHandlers := (EventHandlers OriginatorTransactionState OriginatorTransactionEvent Originator).
Abbreviation OTxEventHandler := (EventHandler OriginatorTransactionState OriginatorTransactionEvent Originator).

Section Table.
Context `{OrigEnv}.
Context (id : uuid).

(** ** Handlers that several states share *)

(** The transaction was confirmed on the base ledger. *)
Definition confirmedSuccess : option OTxEventHandlers := First [On [] [To State_Confirmed []]].

(** It reverted there, before this node saw it dispatched, and after. *)
Definition confirmedReverted : option OTxEventHandlers :=
  First [OnValid (ValidatorNot validator_WillRetry) [] [To State_Confirmed []]].

Definition dispatchedReverted : option OTxEventHandlers :=
  First [OnValid validator_WillRetry [] [To State_Delegated []]; On [] [To State_Confirmed []]].

(** It was delegated to another coordinator. *)
Definition redelegated : option OTxEventHandlers :=
  First [OnValid (ValidatorNot (validator_CoordinatorIsCurrentDelegate id))
           [Act (action_Delegated id); Act (action_ResetDelegationState id)] [To State_Delegated []]].

(** The three reasons to refuse an assemble request, after the block height was refreshed. *)
Definition refreshed : OTxEventHandler := On [Act action_RefreshBlockHeight] [].

Definition assembleRefusals : list OTxEventHandler :=
  [OnValid (ValidatorNot (validator_AssembleRequestFromCurrentDelegate id))
     [Act (action_SendAssembleRejectionNotCurrentDelegate id)] [];
   OnValid validator_AssembleBlockHeightToleranceExceeded [Act (action_SendAssembleBlockHeightRejection id)] [];
   OnValid validator_IsPrivateStateDataPendingForAssembly [Act (action_RejectAssemblyPrivateStateDataPending id)] []].

Definition assembleAcceptable : Validator OriginatorTransactionEvent Originator :=
  ValidatorAnd [validator_AssembleRequestFromCurrentDelegate id;
                ValidatorNot validator_AssembleBlockHeightToleranceExceeded;
                ValidatorNot validator_IsPrivateStateDataPendingForAssembly].

(** A repeat of the request answered last, from the current delegate. *)
Definition assembleRepeated (resend : Action OriginatorTransactionEvent Originator) : OTxEventHandler :=
  ThenStop (OnValid (ValidatorAnd [validator_AssembleRequestMatchesPreviousResponse id;
                                   validator_AssembleRequestFromCurrentDelegate id]) [Act resend] []).

(** [State_Delegated], [State_Dispatched], [State_Sequenced], [State_Submitted]. *)
Definition assembleRequested : option OTxEventHandlers :=
  All (refreshed :: assembleRefusals ++
       [OnValid assembleAcceptable [Act (action_AssembleRequestReceived id)] [To State_Assembling []]]).

(** [State_Signing], [State_Endorsement_Gathering], [State_Prepared]. *)
Definition reassembleRequested : option OTxEventHandlers :=
  All (assembleRepeated (action_ResendAssembleSuccessResponse id) :: refreshed :: (ThenStop <$> assembleRefusals) ++
       [On [Act (action_AssembleRequestReceived id)] [To State_Assembling []]]).

(** [State_Parked], [State_Reverted]. *)
Definition assembleRequestRecorded (resend : Action OriginatorTransactionEvent Originator) : option OTxEventHandlers :=
  All (assembleRepeated resend :: refreshed :: assembleRefusals ++
       [OnValid assembleAcceptable [Act (action_AssembleRequestReceived id)] []]).

(** ** stateDefinitionsMap *)

Definition otxStateInitial : OTxStateDefinition := MkStateDefinition [] [] (fun ty =>
  match ty with
  | Event_ConfirmedSuccess => confirmedSuccess
  | Event_Created => First [On [] [ToIf State_Resolving (guard_HasRequiredVerifiers id) []; To State_Pending []]]
  | _ => None
  end).

Definition otxStateResolving : OTxStateDefinition :=
  MkStateDefinition [Act (action_ResolveVerifiers id)] [Act (action_CancelResolveRetry id)] (fun ty =>
  match ty with
  | Event_ConfirmedSuccess => confirmedSuccess
  | Event_ConfirmedReverted => confirmedReverted
  | Event_VerifiersResolved => First [On [Act (action_VerifiersResolved id)] [To State_Pending []]]
  | Event_VerifierResolutionFailed => First [On [Act (action_ScheduleResolveRetry id)] []]
  | Event_VerifierResolutionRetry => First [On [Act (action_CancelResolveRetry id); Act (action_ResolveVerifiers id)] []]
  | _ => None
  end).

Definition otxStatePending : OTxStateDefinition := MkStateDefinition [] [] (fun ty =>
  match ty with
  | Event_ConfirmedSuccess => confirmedSuccess
  | Event_ConfirmedReverted => confirmedReverted
  | Event_Delegated => First [On [Act (action_Delegated id)] [To State_Delegated []]]
  | _ => None
  end).

Definition otxStateDelegated : OTxStateDefinition := MkStateDefinition [] [] (fun ty =>
  match ty with
  | Event_ConfirmedSuccess => confirmedSuccess
  | Event_ConfirmedReverted => confirmedReverted
  | Event_Delegated => All
      [OnValid (ValidatorNot (validator_CoordinatorIsCurrentDelegate id)) [Act (action_ResetDelegationState id)] [];
       On [Act (action_Delegated id)] []]
  | Event_AssembleRequestReceived => assembleRequested
  | Event_Dispatched => First
      [OnValid (validator_CoordinatorIsCurrentDelegate id) [Act (action_Dispatched id)] [To State_Dispatched []]]
  | _ => None
  end).

Definition otxStateAssembling : OTxStateDefinition :=
  MkStateDefinition [Act (action_Assemble id)] [Act (action_CancelCurrentAssembly id)] (fun ty =>
  match ty with
  | Event_ConfirmedSuccess => confirmedSuccess
  | Event_ConfirmedReverted => confirmedReverted
  | Event_Delegated => redelegated
  | Event_AssembleSuccess => First
      [OnValid (validator_AssembleSuccessMatchesCurrentRequest id) [Act (action_AssembleSuccess id)]
         [ToIf State_Signing (guard_HasLocalSignRequirement id) [Act (action_SendAssembleSuccessResponse id)];
          To State_Endorsement_Gathering [Act (action_SendAssembleSuccessResponse id)]]]
  | Event_AssembleRevert => First
      [On [Act (action_AssembleRevert id)] [To State_Reverted [Act (action_SendAssembleRevertResponse id)]]]
  | Event_AssemblePark => First
      [On [Act (action_AssemblePark id)] [To State_Parked [Act (action_SendAssembleParkResponse id)]]]
  | Event_AssembleError => First
      [On [Act (action_AssembleError id)] [To State_Delegated [Act (action_SendAssembleError id)]]]
  | Event_AssembleRequestReceived => All
      (assembleRepeated (action_ResendAssembleSuccessResponse id) :: refreshed :: (ThenStop <$> assembleRefusals) ++
       [ThenStop (OnValid (validator_AssembleRequestMatchesInProgressAssembly id) [] []);
        On [Act (action_AssembleRequestReceived id); Act (action_Assemble id)] []])
  | _ => None
  end).

Definition otxStateSigning : OTxStateDefinition :=
  MkStateDefinition [Act (action_FulfilSignAttestations id)] [Act (action_CancelCurrentSign id)] (fun ty =>
  match ty with
  | Event_ConfirmedSuccess => confirmedSuccess
  | Event_ConfirmedReverted => confirmedReverted
  | Event_Delegated => redelegated
  | Event_SignSuccess => First
      [OnValid (validator_SignSuccessMatchesCurrentRequest id) [Act (action_SignSuccess id)]
         [To State_Endorsement_Gathering [Act (action_SendSignResponse id)]]]
  | Event_SignError => First [On [] [To State_Delegated [Act (action_SendSignError id)]]]
  | Event_AssembleRequestReceived => reassembleRequested
  | _ => None
  end).

Definition otxStateEndorsement_Gathering : OTxStateDefinition := MkStateDefinition [] [] (fun ty =>
  match ty with
  | Event_ConfirmedSuccess => confirmedSuccess
  | Event_ConfirmedReverted => confirmedReverted
  | Event_Delegated => redelegated
  | Event_AssembleRequestReceived => reassembleRequested
  | Event_PreDispatchRequestReceived => First
      [OnValid (validator_PreDispatchRequestFromCurrentDelegate id) [Act (action_PreDispatchRequestReceived id)]
         [To State_Prepared [Act (action_SendPreDispatchResponse id)]]]
  | _ => None
  end).

Definition otxStatePrepared : OTxStateDefinition := MkStateDefinition [] [] (fun ty =>
  match ty with
  | Event_ConfirmedSuccess => confirmedSuccess
  | Event_ConfirmedReverted => confirmedReverted
  | Event_Delegated => redelegated
  | Event_Dispatched => First [On [Act (action_Dispatched id)] [To State_Dispatched []]]
  | Event_AssembleRequestReceived => reassembleRequested
  | Event_PreDispatchRequestReceived => First
      [OnValid (validator_PreDispatchRequestFromCurrentDelegate id)
         [Act (action_PreDispatchRequestReceived id); Act (action_ResendPreDispatchResponse id)] [];
       OnValid (ValidatorNot (validator_PreDispatchRequestFromCurrentDelegate id))
         [Act (action_SendPreDispatchRejectionNotCurrentDelegate id)] []]
  | _ => None
  end).

Definition otxStateDispatched : OTxStateDefinition := MkStateDefinition [] [] (fun ty =>
  match ty with
  | Event_ConfirmedSuccess => confirmedSuccess
  | Event_ConfirmedReverted => dispatchedReverted
  | Event_Delegated => redelegated
  | Event_NonceAssigned => First
      [OnValid (validator_CoordinatorIsCurrentDelegate id) [Act (action_NonceAssigned id)] [To State_Sequenced []]]
  | Event_Submitted => First
      [OnValid (validator_CoordinatorIsCurrentDelegate id) [Act (action_Submitted id)] [To State_Submitted []]]
  | Event_AssembleRequestReceived => assembleRequested
  | _ => None
  end).

Definition otxStateSequenced : OTxStateDefinition := MkStateDefinition [] [] (fun ty =>
  match ty with
  | Event_ConfirmedSuccess => confirmedSuccess
  | Event_ConfirmedReverted => dispatchedReverted
  | Event_Delegated => redelegated
  | Event_Submitted => First
      [OnValid (validator_CoordinatorIsCurrentDelegate id) [Act (action_Submitted id)] [To State_Submitted []]]
  | Event_AssembleRequestReceived => assembleRequested
  | _ => None
  end).

Definition otxStateSubmitted : OTxStateDefinition := MkStateDefinition [] [] (fun ty =>
  match ty with
  | Event_Submitted => First [OnValid (validator_CoordinatorIsCurrentDelegate id) [Act (action_Submitted id)] []]
  | Event_ConfirmedSuccess => confirmedSuccess
  | Event_ConfirmedReverted => dispatchedReverted
  | Event_Delegated => redelegated
  | Event_AssembleRequestReceived => assembleRequested
  | _ => None
  end).

Definition otxStateParked : OTxStateDefinition := MkStateDefinition [] [] (fun ty =>
  match ty with
  | Event_ConfirmedSuccess => confirmedSuccess
  | Event_ConfirmedReverted => confirmedReverted
  | Event_Delegated => redelegated
  | Event_AssembleRequestReceived => assembleRequestRecorded (action_ResendAssembleParkResponse id)
  | Event_Resumed => First [On [] [To State_Pending []]]
  | _ => None
  end).

Definition otxStateConfirmed : OTxStateDefinition := MkStateDefinition [Act (action_QueueFinalizeEvent id)] [] (fun ty =>
  match ty with
  | Event_Finalize => First [On [] [To State_Final []]]
  | _ => None
  end).

Definition otxStateReverted : OTxStateDefinition := MkStateDefinition [Act (action_QueueFinalizeEvent id)] [] (fun ty =>
  match ty with
  | Event_Finalize => First [On [] [To State_Final []]]
  | Event_AssembleRequestReceived => assembleRequestRecorded (action_ResendAssembleRevertResponse id)
  | _ => None
  end).

Definition otxStateFinal : OTxStateDefinition := MkStateDefinition [] [] (fun _ => None).

Definition otxStateDefinitionsMap :
    StateDefinitions OriginatorTransactionState OriginatorTransactionEventType OriginatorTransactionEvent Originator := fun state =>
  Some match state with
  | State_Initial => otxStateInitial
  | State_Resolving => otxStateResolving
  | State_Pending => otxStatePending
  | State_Delegated => otxStateDelegated
  | State_Assembling => otxStateAssembling
  | State_Signing => otxStateSigning
  | State_Endorsement_Gathering => otxStateEndorsement_Gathering
  | State_Prepared => otxStatePrepared
  | State_Dispatched => otxStateDispatched
  | State_Sequenced => otxStateSequenced
  | State_Submitted => otxStateSubmitted
  | State_Confirmed => otxStateConfirmed
  | State_Reverted => otxStateReverted
  | State_Parked => otxStateParked
  | State_Final => otxStateFinal
  end.
End Table.

(** ** The machine in memory *)

Definition otxMachineOf (id : uuid) (o : Originator) : Machine OriginatorTransactionState OriginatorTransactionEventType :=
  match o_transactionsByID o !! id with
  | Some t => ot_stateMachine t
  | None => MkMachine State_Initial None 0%Z
  end.

Definition lockOTx (id : uuid) (o : Originator) : option Originator :=
  if decide (id ∈ o_heldLocks o) then None else Some (o <| o_heldLocks ::= union {[id]} |>).

Definition unlockOTx (id : uuid) (o : Originator) : Originator := o <| o_heldLocks ::= fun s => s ∖ {[id]} |>.

Definition otxEntity (id : uuid) :
    Entity OriginatorTransactionState OriginatorTransactionEventType OriginatorTransactionEvent Originator :=
  MkEntity OriginatorTransactionType_of (otxMachineOf id) (fun m => setOTx id (fun t => t <| ot_stateMachine := m |>)) o_now
    (lockOTx id) (unlockOTx id).

(** The callback of [initializeStateMachine]. *)
Definition otxTransitionCallback (id : uuid) : TransitionCallback OriginatorTransactionState OriginatorTransactionEvent Originator :=
  fun from to _ o =>
  let o := setOTx id (fun t => t <| ot_stateEntryTime := o_now o |>) o in
  (queueEventForOriginator (Orig.TransactionStateTransitionEvent id from to) o).1.

(** [HandleEvent] *)
Definition originatorTransactionHandleEvent `{OrigEnv} (id : uuid) (event : OriginatorTransactionEvent) : M Originator unit :=
  ProcessEvent (otxEntity id) (otxStateDefinitionsMap id) (Some (otxTransitionCallback id)) event.

(** No handler without a validator hides a later one of a [MatchFirst] set. *)
Lemma otxStateDefinitionsMap_no_warnings `{OrigEnv} id s d ty hs :
  otxStateDefinitionsMap id s = Some d -> Events d ty = Some hs -> handlerSetWarnings hs = [].
Proof. intros Hd He. destruct s; injection Hd as <-; destruct ty; try discriminate He; injection He as <-; reflexivity. Qed.
