(* ===== verification/OrigActions.v ===== *)
(** * What the originator's machine does (originator/*.go)

    One definition per action, guard and validator of delegation.go, observing.go and originating.go,
    and the operations of originator.go.  A validator or action that converts its event to the wrong
    type panics, and so does one that reads a heartbeat without a snapshot. *)

From S2P Require Import Prelude StateMachine Selection TxTypes CoordTypes OrigTypes OrigWorld OrigTxActions OrigTxMachine.
From stdpp Require Import sorting.
Import Orig.
Open Scope list_scope.

Abbreviation OAction := (Action OriginatorEvent Originator).
Abbreviation OGuard := (Guard Originator).
Abbreviation OValidator := (Validator OriginatorEvent Originator).

(** [i18n.NewError(ctx, msgs.MsgSequencerInternalError, msg)] around the error of a call. *)
Definition internalError (detail : string) (m : M Originator unit) : M Originator unit := fun o =>
  match m o with
  | (o', Err _) => (o', Err (MsgSequencerInternalError detail))
  | r => r
  end.

(** [txn.GetCurrentState()] *)
Definition otxState (id : uuid) (o : Originator) : OTx.OriginatorTransactionState := currentState (otxMachineOf id o).

Section Actions.
Context `{OrigEnv}.

(** ** delegation.go *)

Definition startDelegationLoop : M Originator unit := modify (fun o =>
  if o_started o then
    match o_delegationLoop o with
    | Some _ => o
    | None => o <| o_delegationLoop := Some (MkDelegationLoop false false) |>
    end
  else o).

Definition stopDelegationLoop : M Originator unit := modify (fun o => o <| o_delegationLoop := None |>).

(** One tick of [delegationLoop]. *)
Definition delegationLoop (o : Originator) : Originator :=
  match o_delegationLoop o with
  | None => o
  | Some l =>
      let o := o <| o_delegationLoop := Some (MkDelegationLoop false false) |> in
      if dlp_notifyPartial l || dlp_notifyFull l then (queueEventForOriginator (DelegateSendBatchEvent (dlp_notifyFull l)) o).1
      else o
  end.

(** Whether a transaction in this state goes into a partial delegation. *)
Definition awaitsAssembly (state : OTx.OriginatorTransactionState) : bool :=
  match state with OTx.State_Pending | OTx.State_Delegated => true | _ => false end.

Definition unresolved (state : OTx.OriginatorTransactionState) : bool :=
  match state with OTx.State_Initial | OTx.State_Resolving => true | _ => false end.

(** The loop over [transactionsOrdered], with the transactions to delegate. *)
Fixpoint delegateOrdered (full : bool) (coordinator : string) (ordered : list uuid) : M Originator (list uuid) :=
  match ordered with
  | [] => mret []
  | id :: rest =>
      state ← gets (otxState id);
      if unresolved state then mret []
      else if negb full && negb (awaitsAssembly state) then delegateOrdered full coordinator rest
      else
        internalError "error handling delegated event for transaction"
          (originatorTransactionHandleEvent id (OTx.DelegatedEvent coordinator)) ≫= fun _ =>
        later ← delegateOrdered full coordinator rest;
        mret (id :: later)
  end.

Definition delegationOf (o : Originator) (id : uuid) : list PrivateTransactionDelegation :=
  match o_transactionsByID o !! id with
  | Some t => [MkPrivateTransactionDelegation (pt_Domain (ot_pt t)) (pt_Intent (ot_pt t)) (pt_PreAssembly (ot_pt t))]
  | None => []
  end.

Definition sendDelegationRequest (full : bool) : M Originator unit :=
  coordinator ← gets o_currentActiveCoordinator;
  ordered ← gets o_transactionsOrdered;
  transactionsToDelegate ← delegateOrdered full coordinator ordered;
  match transactionsToDelegate with
  | [] => mret tt
  | _ =>
      delegations ← gets (fun o => mjoin (delegationOf o <$> transactionsToDelegate));
      height ← gets o_currentBlockHeight;
      contract ← gets (fun o => oc_contractAddress (o_conf o));
      sendO (SendDelegationRequest coordinator (MkDelegationRequest coordinator height contract delegations))
  end.

(** Sending on a channel of length one with a default: nothing to do when it is full or nil. *)
Definition requestPartialDelegation : M Originator unit :=
  modify (fun o => o <| o_delegationLoop ::= fmap (fun l => l <| dlp_notifyPartial := true |>) |>).

Definition requestFullDelegation : M Originator unit :=
  modify (fun o => o <| o_delegationLoop ::= fmap (fun l => l <| dlp_notifyFull := true |>) |>).

Definition action_NotifyPartialDelegation : OAction := fun _ => requestPartialDelegation.
Definition action_NotifyFullDelegation : OAction := fun _ => requestFullDelegation.

Definition action_SendDelegation : OAction := fun event =>
  match event with
  | DelegateSendBatchEvent full => refreshOriginatorBlockHeight ≫= fun _ => sendDelegationRequest full
  | _ => crashM Panic
  end.

Definition action_StartDelegationLoop : OAction := fun _ => startDelegationLoop.
Definition action_StopDelegationLoop : OAction := fun _ => stopDelegationLoop.

Definition validator_IsDelegationBlockHeightRejection : OValidator := fun event _ =>
  match event with
  | DelegationRequestRejectedEvent e => Ok (bool_decide (drj_RejectionReason e = RejectionReason_BLOCK_HEIGHT_TOLERANCE))
  | _ => Crash Panic
  end.

Definition validator_IsDelegationNotActiveCoordinatorRejection : OValidator := fun event _ =>
  match event with
  | DelegationRequestRejectedEvent e => Ok (bool_decide (drj_RejectionReason e = RejectionReason_NOT_CURRENT_DELEGATE))
  | _ => Crash Panic
  end.

Definition action_LogDelegationBlockHeightRejection : OAction := fun event =>
  match event with
  | DelegationRequestRejectedEvent _ => mret tt
  | _ => crashM Panic
  end.

Definition action_HandleDelegationRejected : OAction := fun event =>
  match event with
  | DelegationRequestRejectedEvent e =>
      if String.eqb (drj_ActiveCoordinator e) EmptyString then mret tt
      else modify (fun o =>
        if IsHigherPriority (o_coordinatorPriorityList o) (drj_ActiveCoordinator e) (o_currentActiveCoordinator o)
        then resetFailoverIndex (o <| o_currentActiveCoordinator := drj_ActiveCoordinator e |>)
        else o)
  | _ => crashM Panic
  end.

(** ** observing.go *)

(** An action on a heartbeat and its snapshot. *)
Definition withSnapshot (f : string -> CoordinatorSnapshot -> M Originator unit) : OAction := fun event =>
  match event with
  | HeartbeatReceivedEvent from (Some s) => f from s
  | _ => crashM Panic
  end.

(** Hand an event to a transaction this originator knows; those of other originators are skipped. *)
Definition notifyIfKnown (id : uuid) (detail : string) (event : OTx.OriginatorTransactionEvent) : M Originator unit := fun o =>
  match o_transactionsByID o !! id with
  | None => (o, Ok tt)
  | Some _ => internalError detail (originatorTransactionHandleEvent id event) o
  end.

Definition processConfirmedTransactions (s : CoordinatorSnapshot) : M Originator unit :=
  for_each (cs_ConfirmedTransactions s) (fun t =>
    notifyIfKnown (sd_ID t) "error handling confirmed success event for transaction" OTx.ConfirmedSuccessEvent).

Definition processRevertedTransactions (s : CoordinatorSnapshot) : M Originator unit :=
  for_each (cs_RevertedTransactions s) (fun t =>
    notifyIfKnown (sr_ID t) "error handling confirmed reverted event for transaction"
      (OTx.ConfirmedRevertedEvent (sr_RevertReason t) (Text EmptyString) false)).

(** The zero [EthAddress]. *)
Definition zeroAddress : string := "0x0000000000000000000000000000000000000000".

Definition processDispatchedTransactions (from : string) (s : CoordinatorSnapshot) : M Originator unit :=
  for_each (cs_DispatchedTransactions s) (fun t =>
    match sd_LatestSubmissionHash t, sd_Nonce t with
    | Some hash, nonce =>
        notifyIfKnown (sd_ID t) "error handling transaction submitted event for transaction"
          (OTx.SubmittedEvent (sd_Signer t) (default 0%Z nonce) hash from)
    | None, Some nonce =>
        notifyIfKnown (sd_ID t) "error handling nonce assigned event for transaction"
          (OTx.NonceAssignedEvent zeroAddress nonce from)
    | None, None => mret tt
    end).

Definition action_ProcessConfirmedTransactions : OAction := withSnapshot (fun _ => processConfirmedTransactions).
Definition action_ProcessRevertedTransactions : OAction := withSnapshot (fun _ => processRevertedTransactions).

(** The counter is reset before the snapshot is read. *)
Definition action_ProcessCurrentCoordinatorHeartbeat : OAction := fun event =>
  modify (fun o => o <| o_heartbeatIntervalsSinceLastReceive := 0%Z |>) ≫= fun _ =>
  withSnapshot processDispatchedTransactions event.

Definition action_SwitchActiveCoordinator : OAction := fun event =>
  match event with
  | HeartbeatReceivedEvent from _ =>
      modify (fun o => resetFailoverIndex (o <| o_currentActiveCoordinator := from |>)) ≫= fun _ =>
      modify (fun o => o <| o_heartbeatIntervalsSinceLastReceive := 0%Z |>) ≫= fun _ =>
      requestFullDelegation
  | _ => crashM Panic
  end.

Definition transactionFoundInSnapshot (s : CoordinatorSnapshot) (id : uuid) : bool :=
  existsb (fun t => N.eqb (sd_ID t) id) (cs_DispatchedTransactions s) || existsb (N.eqb id) (cs_PooledTransactions s)
  || existsb (fun t => N.eqb (sd_ID t) id) (cs_ConfirmedTransactions s) || existsb (fun t => N.eqb (sr_ID t) id) (cs_RevertedTransactions s).

(** The states that [hasDroppedTransactions] leaves out. *)
Definition excludedState (state : OTx.OriginatorTransactionState) : bool :=
  match state with
  | OTx.State_Initial | OTx.State_Resolving | OTx.State_Pending | OTx.State_Confirmed | OTx.State_Reverted | OTx.State_Final => true
  | _ => false
  end.

(** [heartbeatInterval*11/10] on an int64. *)
Definition dropGrace (heartbeatInterval : Z) : Z := Z.quot (i64 (heartbeatInterval * 11)) 10.

(** The transaction is delegated, and has been for long enough to be in a snapshot. *)
Definition snapshotDue (now grace : Z) (t : originatorTransaction) : bool :=
  negb (excludedState (currentState (ot_stateMachine t)))
  && match ot_firstDelegatedTime t with
     | None => false
     | Some first => negb (now - first <? grace)%Z
     end.

(** [getTransactionsNotInStates] ranges over a map; the answer does not depend on the order.  Without
    a snapshot, looking for a transaction there panics. *)
Definition hasDroppedTransactions (snapshot : option CoordinatorSnapshot) (o : Originator) : res bool :=
  let due := List.filter (snapshotDue (o_now o) (dropGrace (oc_heartbeatInterval (o_conf o))))
               ((map_to_list (o_transactionsByID o)).*2) in
  match snapshot, due with
  | Some s, _ => Ok (existsb (fun t => negb (transactionFoundInSnapshot s (pt_ID (ot_pt t)))) due)
  | None, [] => Ok false
  | None, _ => Crash Panic
  end.

Definition action_IncrementHeartbeatIntervalCounts : OAction := fun _ =>
  modify (fun o => o <| o_heartbeatIntervalsSinceLastReceive ::= Z.succ |>).

(** ** originating.go *)

(** [addToTransactions] *)
Definition addToTransactions (txn : option PrivateTransaction) (localTx : option ResolvedTransaction) : M Originator unit :=
  match txn with
  | None => throw (MsgSequencerInternalError "cannot create transaction without private tx")
  | Some p =>
      now ← gets o_now;
      modify (fun o => o <| o_transactionsByID ::= <[pt_ID p := newOriginatorTransaction p localTx now]> |>) ≫= fun _ =>
      modify (fun o => o <| o_transactionsOrdered ::= fun l => l ++ [pt_ID p] |>) ≫= fun _ =>
      originatorTransactionHandleEvent (pt_ID p) OTx.CreatedEvent
  end.

Definition action_TransactionCreated : OAction := fun event =>
  match event with
  | TransactionCreatedEvent txn localTx => addToTransactions txn localTx
  | _ => crashM Panic
  end.

Definition action_RefreshBlockHeight : OAction := fun _ => refreshOriginatorBlockHeight.

Definition action_FailoverToNextCoordinator : OAction := fun _ =>
  priorities ← gets o_coordinatorPriorityList;
  (if (1 <? length priorities)%nat then
     index ← gets o_failoverIndex;
     match priorities !! index with
     | None => crashM Panic
     | Some next =>
         modify (fun o => o <| o_currentActiveCoordinator := next |>
           <| o_failoverIndex := (index + 1) mod length priorities |> <| o_heartbeatIntervalsSinceLastReceive := 0%Z |>)
     end
   else mret tt) ≫= fun _ =>
  requestFullDelegation.

Definition action_ResetToTopPriorityCoordinator : OAction := fun _ => modify (fun o =>
  match o_coordinatorPriorityList o with
  | first :: _ :: _ => o <| o_currentActiveCoordinator := first |> <| o_failoverIndex := 1%nat |>
  | _ => o
  end).

Definition guard_InactiveGracePeriodExceeded : OGuard := fun o =>
  Some (oc_inactiveGracePeriod (o_conf o) <? o_heartbeatIntervalsSinceLastReceive o)%Z.

Definition validator_IsFromCurrentCoordinator : OValidator := fun event o =>
  match event with
  | HeartbeatReceivedEvent from _ => Ok (String.eqb from (o_currentActiveCoordinator o))
  | _ => Crash Panic
  end.

Definition validator_IsSenderHigherPriorityThanCurrentCoordinator : OValidator := fun event o =>
  match event with
  | HeartbeatReceivedEvent from _ => Ok (IsHigherPriority (o_coordinatorPriorityList o) from (o_currentActiveCoordinator o))
  | _ => Crash Panic
  end.

Definition validator_HasDroppedTransactions : OValidator := fun event o =>
  match event with
  | HeartbeatReceivedEvent _ snapshot => hasDroppedTransactions snapshot o
  | _ => Crash Panic
  end.

Definition action_ResetHeartbeatIntervalsSinceLastReceive : OAction := fun _ =>
  modify (fun o => o <| o_heartbeatIntervalsSinceLastReceive := 0%Z |>).

Definition validator_TransactionDoesNotExist : OValidator := fun event o =>
  match event with
  | TransactionCreatedEvent None _ => Ok true
  | TransactionCreatedEvent (Some p) _ => Ok (match o_transactionsByID o !! pt_ID p with Some _ => false | None => true end)
  | _ => Ok false
  end.

(** Validators on where a transaction went, and where from. *)
Definition validator_OriginatorTransactionStateTransitionToFinal : OValidator := fun event _ =>
  match event with
  | TransactionStateTransitionEvent _ _ to => Ok (bool_decide (to = OTx.State_Final))
  | _ => Crash Panic
  end.

Definition validator_OriginatorTransactionStateTransitionToConfirmed : OValidator := fun event _ =>
  match event with
  | TransactionStateTransitionEvent _ _ to => Ok (bool_decide (to = OTx.State_Confirmed))
  | _ => Crash Panic
  end.

Definition validator_OriginatorTransactionStateTransitionToReverted : OValidator := fun event _ =>
  match event with
  | TransactionStateTransitionEvent _ _ to => Ok (bool_decide (to = OTx.State_Reverted))
  | _ => Crash Panic
  end.

Definition validator_OriginatorTransactionStateTransitionFromResolving : OValidator := fun event _ =>
  match event with
  | TransactionStateTransitionEvent _ from _ => Ok (bool_decide (from = OTx.State_Resolving))
  | _ => Crash Panic
  end.

(** The first pointer to a transaction of that id. *)
Fixpoint removeFromOrdered (id : uuid) (l : list uuid) : list uuid :=
  match l with
  | [] => []
  | x :: rest => if N.eqb x id then rest else x :: removeFromOrdered id rest
  end.

Definition removeTransaction (id : uuid) : M Originator unit :=
  modify (fun o => o <| o_transactionsByID ::= delete id |>) ≫= fun _ =>
  modify (fun o => o <| o_transactionsOrdered ::= removeFromOrdered id |>).

Definition action_CleanUpTransaction : OAction := fun event =>
  match event with
  | TransactionStateTransitionEvent id _ _ => removeTransaction id
  | _ => crashM Panic
  end.

Definition action_FinalizeTransaction : OAction := fun event =>
  match event with
  | TransactionStateTransitionEvent id _ _ => queueEventForOriginator (TransactionEvent id OTx.FinalizeEvent)
  | _ => crashM Panic
  end.

Definition action_CalculateCoordinatorPriorities : OAction := fun _ => calculateOriginatorPriorities.

Definition action_UpdateEndorserCandidates : OAction := fun event =>
  match event with
  | EndorserNodesDiscoveredEvent nodes => modify (fun o => o <| o_endorserCandidates := nodes |>)
  | _ => crashM Panic
  end.

(** The candidates that are not known yet are appended, in order. *)
Definition addCandidates (known found : list string) : list string :=
  foldl (fun l node => if bool_decide (node ∈ l) then l else l ++ [node]) known found.

Definition action_UpdateEndorserCandidatesFromHeartbeat : OAction := fun event o =>
  match o_endorserCandidates o with
  | [] => (o, Ok tt)
  | known =>
      match event with
      | HeartbeatReceivedEvent from snapshot =>
          let candidates := match snapshot with
                            | Some s => match cs_EndorserCandidates s with [] => [from] | l => l end
                            | None => [from]
                            end in
          let all := addCandidates known candidates in
          if (length all =? length known)%nat then (o, Ok tt)
          else
            let sorted := merge_sort String.le all in
            (resetFailoverIndex (o <| o_endorserCandidates := sorted |>
               <| o_coordinatorPriorityList := ComputeCoordinatorPriorityList sorted (o_effectiveBlockHeight o) |>), Ok tt)
      | _ => (o, Crash Panic)
      end
  end.

Definition action_UpdateActiveCoordinatorFromHeartbeat : OAction := fun event =>
  match event with
  | HeartbeatReceivedEvent from _ => modify (fun o => resetFailoverIndex (o <| o_currentActiveCoordinator := from |>))
  | _ => crashM Panic
  end.

Definition liveCoordinator (s : CoordinatorState) : bool :=
  match s with
  | CoordinatorState_Elect | CoordinatorState_Prepared | CoordinatorState_Active | CoordinatorState_Active_Flush => true
  | _ => false
  end.

Definition validator_IsHeartbeatSenderLive : OValidator := fun event _ =>
  match event with
  | HeartbeatReceivedEvent _ (Some s) => Ok (liveCoordinator (cs_CoordinatorState s))
  | _ => Crash Panic
  end.

Definition guard_HasTransactions : OGuard := fun o => Some (0 <? size (o_transactionsByID o))%nat.

(** ** originator.go *)

(** [propagateEventToTransaction]: coordinators that ask about a transaction that is gone are told. *)
Definition propagateEventToTransaction (id : uuid) (event : OTx.OriginatorTransactionEvent) : M Originator unit := fun o =>
  match o_transactionsByID o !! id with
  | Some _ => originatorTransactionHandleEvent id event o
  | None =>
      match event with
      | OTx.AssembleRequestReceivedEvent e =>
          sendO (SendAssembleRejection (OTx.arr_Coordinator e) (MkAssembleRejection id (OTx.arr_RequestID e)
            (oc_contractAddress (o_conf o)) RejectionReason_TRANSACTION_UNKNOWN 0 0)) o
      | OTx.PreDispatchRequestReceivedEvent e =>
          sendO (SendPreDispatchRejection (OTx.pdrr_Coordinator e) (MkPreDispatchRejection id (OTx.pdrr_RequestID e)
            (oc_contractAddress (o_conf o)) RejectionReason_TRANSACTION_UNKNOWN)) o
      | _ => (o, Ok tt)
      end
  end.
End Actions.
