(* ===== verification/OrigMachine.v ===== *)
(** * The originator's state machine (originator/state_machine.go, originator.go)

    The table, one definition per state, [NewOriginator] and [Start], the entity, and
    [originatorProcessEvent], what the originator's event loop does with one event. *)

From S2P Require Import Prelude StateMachine Selection TxTypes CoordTypes OrigTypes OrigWorld OrigTxActions OrigTxMachine OrigActions.
Import Orig.
Open Scope list_scope.

Abbreviation OStateDefinition := (StateDefinition OriginatorState OriginatorEventType OriginatorEvent Originator).
Abbreviation OEventHandler := (EventHandler OriginatorState OriginatorEvent Originator).

Section Table.
Context `{OrigEnv}.

(** A transaction reached its end, in every state but [State_Initial]. *)
Definition finalizeHandler : OEventHandler :=
  OnValid (ValidatorOr [validator_OriginatorTransactionStateTransitionToConfirmed;
                        validator_OriginatorTransactionStateTransitionToReverted]) [Act action_FinalizeTransaction] [].

Definition origInitial : OStateDefinition := MkStateDefinition [] [] (fun ty =>
  match ty with
  | Event_OriginatorCreated => First [On [Act action_CalculateCoordinatorPriorities] [To State_Idle []]]
  | _ => None
  end).

Definition origIdle : OStateDefinition := MkStateDefinition [Act action_ResetToTopPriorityCoordinator] [] (fun ty =>
  match ty with
  | Event_HeartbeatReceived => All
      [On [Act action_UpdateEndorserCandidatesFromHeartbeat] [];
       OnValid validator_IsHeartbeatSenderLive
         [Act action_UpdateActiveCoordinatorFromHeartbeat; Act action_ResetHeartbeatIntervalsSinceLastReceive]
         [To State_Observing []]]
  | Event_TransactionCreated => First
      [OnValid validator_TransactionDoesNotExist
         [Act action_TransactionCreated; Act action_RefreshBlockHeight; Act action_ResetToTopPriorityCoordinator]
         [To State_Sending []]]
  | Event_EndorserNodesDiscovered => First
      [On [Act action_UpdateEndorserCandidates; Act action_CalculateCoordinatorPriorities;
           Act action_ResetToTopPriorityCoordinator] []]
  | Event_TransactionStateTransition => First
      [OnValid validator_OriginatorTransactionStateTransitionToFinal [Act action_CleanUpTransaction] []; finalizeHandler]
  | _ => None
  end).

Definition origObserving : OStateDefinition := MkStateDefinition [] [] (fun ty =>
  match ty with
  | Event_HeartbeatReceived => All
      [On [Act action_UpdateEndorserCandidatesFromHeartbeat] [];
       OnValid validator_IsHeartbeatSenderLive
         [Act action_ResetHeartbeatIntervalsSinceLastReceive; Act action_UpdateActiveCoordinatorFromHeartbeat] []]
  | Event_HeartbeatInterval => First
      [On [Act action_IncrementHeartbeatIntervalCounts] [ToIf State_Idle guard_InactiveGracePeriodExceeded []]]
  | Event_TransactionCreated => First
      [OnValid validator_TransactionDoesNotExist [Act action_TransactionCreated] [To State_Sending []]]
  | Event_EndorserNodesDiscovered => First
      [On [Act action_UpdateEndorserCandidates; Act action_CalculateCoordinatorPriorities] []]
  | Event_TransactionStateTransition => First
      [OnValid validator_OriginatorTransactionStateTransitionToFinal [Act action_CleanUpTransaction] []; finalizeHandler]
  | _ => None
  end).

Definition origSending : OStateDefinition :=
  MkStateDefinition [Act action_StartDelegationLoop; Act action_NotifyFullDelegation] [Act action_StopDelegationLoop] (fun ty =>
  match ty with
  | Event_TransactionCreated => First
      [OnValid validator_TransactionDoesNotExist [Act action_TransactionCreated; Act action_NotifyPartialDelegation] []]
  | Event_DelegateSendBatch => First [On [Act action_SendDelegation] []]
  | Event_HeartbeatReceived => All
      [On [Act action_UpdateEndorserCandidatesFromHeartbeat] [];
       On [Act action_ProcessConfirmedTransactions] [];
       OnValid validator_IsFromCurrentCoordinator [Act action_ProcessRevertedTransactions] [];
       OnValid (ValidatorAnd [validator_IsHeartbeatSenderLive; validator_IsSenderHigherPriorityThanCurrentCoordinator])
         [Act action_SwitchActiveCoordinator] [];
       OnValid (ValidatorAnd [validator_IsHeartbeatSenderLive; ValidatorNot validator_IsFromCurrentCoordinator])
         [ActIf guard_InactiveGracePeriodExceeded action_SwitchActiveCoordinator] [];
       OnValid validator_IsFromCurrentCoordinator [Act action_ProcessCurrentCoordinatorHeartbeat] [];
       OnValid (ValidatorAnd [validator_IsFromCurrentCoordinator; validator_HasDroppedTransactions])
         [Act action_NotifyFullDelegation] []]
  | Event_HeartbeatInterval => First
      [On [Act action_IncrementHeartbeatIntervalCounts; ActIf guard_InactiveGracePeriodExceeded action_RefreshBlockHeight;
           ActIf guard_InactiveGracePeriodExceeded action_FailoverToNextCoordinator] []]
  | Event_DelegationRequestRejected => First
      [OnValid validator_IsDelegationBlockHeightRejection [Act action_LogDelegationBlockHeightRejection] [];
       OnValid validator_IsDelegationNotActiveCoordinatorRejection
         [Act action_HandleDelegationRejected; Act action_NotifyFullDelegation] []]
  | Event_TransactionStateTransition => First
      [OnValid validator_OriginatorTransactionStateTransitionToFinal [Act action_CleanUpTransaction]
         [ToIf State_Observing (GuardNot guard_HasTransactions) []];
       finalizeHandler;
       OnValid validator_OriginatorTransactionStateTransitionFromResolving [Act action_NotifyPartialDelegation] []]
  | Event_EndorserNodesDiscovered => First
      [On [Act action_UpdateEndorserCandidates; Act action_CalculateCoordinatorPriorities] []]
  | _ => None
  end).

Definition origStateDefinitionsMap : StateDefinitions OriginatorState OriginatorEventType OriginatorEvent Originator := fun state =>
  Some match state with
  | State_Initial => origInitial
  | State_Idle => origIdle
  | State_Observing => origObserving
  | State_Sending => origSending
  end.
End Table.

(** ** NewOriginator and Start (originator.go) *)

Definition NewOriginator (conf : OrigConfig) (selectionConfig : CoordinatorSelectionConfig) : Originator :=
  MkOriginator (MkMachine State_Initial None 0) false false
    match csc_Mode selectionConfig with
    | COORDINATOR_STATIC => csc_StaticCoordinator selectionConfig
    | COORDINATOR_SENDER => oc_nodeName conf
    | _ => EmptyString
    end
    0 ∅ [] ∅ 0 0
    match csc_Mode selectionConfig with COORDINATOR_ENDORSER => csc_Endorsers selectionConfig | _ => [] end
    [] 0 None [] [] [] ∅ ∅ ∅ ∅ 1 0 0 conf.

(** [Start]; dividing by the block range panics when it is zero. *)
Definition StartOriginator : M Originator unit := fun o =>
  if o_started o then (o, Ok tt)
  else
    match ComputeEffectiveBlockHeight (u64 (o_liveBlockHeight o)) (oc_blockRange (o_conf o)) with
    | Ok effective =>
        (o <| o_effectiveBlockHeight := effective |> <| o_started := true |>
           <| o_events ::= fun q => q ++ [OriginatorCreatedEvent] |>, Ok tt)
    | Err e => (o, Err e)
    | Crash x => (o, Crash x)
    end.

(** ** The machine in memory *)

Definition origEntity : Entity OriginatorState OriginatorEventType OriginatorEvent Originator :=
  MkEntity OriginatorType_of o_machine (fun m o => o <| o_machine := m |>) o_now
    (fun o => if o_locked o then None else Some (o <| o_locked := true |>)) (fun o => o <| o_locked := false |>).

#[export] Instance origEntity_laws : EntityLaws origEntity.
Proof. split; [done| |done]. intros c c'. simpl. destruct (o_locked c); [done|]. by intros [= <-]. Qed.

(** What [GetTxStatus] reports of a transaction: its state, the event that led there and the
    endorsements; [None] is a panic. *)
Record PrivateTxStatus : Type := MkPrivateTxStatus {
  pts_TxID : uuid;
  pts_Status : option OTx.OriginatorTransactionState; (* None: unknown *)
  pts_LatestEvent : option OTx.OriginatorTransactionEventType;
  pts_Endorsements : list (string * bool)
}.

Definition GetStatus (id : uuid) (t : originatorTransaction) : option PrivateTxStatus :=
  MkPrivateTxStatus id (Some (currentState (ot_stateMachine t))) (latestEvent (ot_stateMachine t)) <$> getEndorsementStatus t.

Definition GetTxStatus (txID : uuid) (o : Originator) : option PrivateTxStatus :=
  match o_transactionsByID o !! txID with
  | Some t => GetStatus (pt_ID (ot_pt t)) t
  | None => Some (MkPrivateTxStatus txID None None [])
  end.

Section ProcessEvent.
Context `{OrigEnv}.

Definition origPreProcessEvent (event : OriginatorEvent) : M Originator bool :=
  match event with
  | TransactionEvent id e => propagateEventToTransaction id e ≫= fun _ => mret true
  | _ => mret false
  end.

(** The lock is taken and released around [preProcessEvent], and again by the machine. *)
Definition withOrigLock {A} (m : M Originator A) : M Originator A := fun o =>
  if o_locked o then (o, Crash Deadlock)
  else let '(o, r) := m (o <| o_locked := true |>) in (o <| o_locked := false |>, r).

Definition originatorProcessEvent (event : OriginatorEvent) : M Originator unit :=
  handled ← withOrigLock (origPreProcessEvent event);
  if handled : bool then mret tt
  else ProcessEvent origEntity origStateDefinitionsMap None event.

(** The loop takes the next event of its internal queue. *)
Definition nextOrigInternal (o : Originator) : option (OriginatorEvent * Originator) :=
  match o_internalQueue o with
  | [] => None
  | e :: q => Some (e, o <| o_internalQueue := q |>)
  end.

Fixpoint drainOrigInternal (fuel : nat) (o : Originator) : Originator :=
  match fuel with
  | O => o
  | S fuel =>
      match nextOrigInternal o with
      | None => o
      | Some (e, o) => drainOrigInternal fuel (originatorProcessEvent e o).1
      end
  end.

Lemma origStateDefinitionsMap_no_warnings s d ty hs :
  origStateDefinitionsMap s = Some d -> Events d ty = Some hs -> handlerSetWarnings hs = [].
Proof. intros Hd He. destruct s; injection Hd as <-; destruct ty; try discriminate He; injection He as <-; reflexivity. Qed.
End ProcessEvent.
