(* ===== verification/OrigSample.v ===== *)
(** * A small originator node, to run the originator's machines on

    An environment in which every component answers, and the originator of node1 for a contract whose
    endorsers are node1, node2 and node3. *)

From S2P Require Import Prelude StateMachine Selection TxTypes CoordTypes Sample OrigTypes OrigWorld OrigTxActions OrigTxMachine.
From S2P Require Import OrigActions OrigMachine.
Open Scope list_scope.

#[export] Instance sampleOrigEnv : OrigEnv := {|
  oenv_transport _ _ := None;
  oenv_CheckPendingPrivateStateData _ := Ok true;
  oenv_keccak256 payload := ("keccak256-of-" ++ payload)%string
|}.

Definition sampleOrigConfig : OrigConfig := MkOrigConfig "node1" "0xc0ffee" 50 2 100 10.

Definition sampleOrigSelection : CoordinatorSelectionConfig :=
  MkCoordinatorSelectionConfig COORDINATOR_ENDORSER EmptyString ["node1"; "node2"; "node3"]%string.

(** The event loop handles [e], then what that queued. *)
Definition deliverO (e : Orig.OriginatorEvent) (o : Originator) : Originator := drainOrigInternal 20 (originatorProcessEvent e o).1.

(** The loop takes the event that [Start] queued. *)
Definition startedOrig : Originator := (StartOriginator (NewOriginator sampleOrigConfig sampleOrigSelection)).1 <| o_events := [] |>.
Definition idleOrig : Originator := deliverO Orig.OriginatorCreatedEvent startedOrig.

Definition created (id : uuid) : Orig.OriginatorEvent := Orig.TransactionCreatedEvent (Some (samplePrivateTx id)) None.

(** Transactions were submitted, and the delegation loop ticked. *)
Definition sendingOrig (ids : list uuid) : Originator := foldl (fun o id => deliverO (created id) o) idleOrig ids.
Definition tickO (o : Originator) : Originator := drainOrigInternal 20 (delegationLoop o).
Definition delegatedOrig (ids : list uuid) : Originator := tickO (sendingOrig ids).

(** What the coordinator asks for. *)
Definition assembleRequest (coordinator : string) (id request : uuid) : Orig.OriginatorEvent :=
  Orig.TransactionEvent id (OTx.AssembleRequestReceivedEvent (OTx.MkAssembleRequestReceived request coordinator 0 5 None)).
