(* ===== verification/OrigTxLifecycle.v ===== *)
(** * The lifecycle of an originator's transaction

    The abstract table of the transaction machine, what every one of its actions leaves alone, and
    what handling one event does: the transaction takes at most one edge of the table, and no other
    transaction and none of the originator's own decisions is touched.

    Sources: originator/transaction/state_machine.go and the actions of originator/transaction/*.go. *)

From S2P Require Import Prelude StateMachine Identity Selection TxTypes CoordTypes TxPropagation OrigTypes OrigWorld OrigTxActions OrigTxMachine.
Import OTx.
Open Scope list_scope.

(** ** What the work of one transaction leaves alone *)

(** The index a failover reads is one of the list. *)
Definition failoverOk (o : Originator) : Prop :=
  (1 < length (o_coordinatorPriorityList o))%nat -> (o_failoverIndex o < length (o_coordinatorPriorityList o))%nat.

Definition notOTransition (e : Orig.OriginatorEvent) : Prop :=
  match e with Orig.TransactionStateTransitionEvent _ _ _ => False | _ => True end.

(** The parts of a transaction that are set when it is created. *)
Definition sameOTx (t t' : originatorTransaction) : Prop :=
  pt_ID (ot_pt t') = pt_ID (ot_pt t) /\ pt_Address (ot_pt t') = pt_Address (ot_pt t) /\
  pt_Domain (ot_pt t') = pt_Domain (ot_pt t) /\ pt_Intent (ot_pt t') = pt_Intent (ot_pt t) /\
  pt_PreAssembly (ot_pt t') = pt_PreAssembly (ot_pt t) /\ ot_localTx t' = ot_localTx t.

#[export] Instance sameOTx_preorder : PreOrder sameOTx.
Proof. split; [by intros t|]. intros t1 t2 t3 (?&?&?&?&?&?) (?&?&?&?&?&?). unfold sameOTx. split_and!; by etrans. Qed.

(** From [o] to [o'] only transaction [id], the queues, the jobs and the priorities have changed; its
    machine is where it was unless [moved]. *)
Record frameOTx (moved : bool) (id : uuid) (o o' : Originator) : Prop := MkFrameOTx {
  fr_machine : o_machine o' = o_machine o;
  fr_locked : o_locked o' = o_locked o;
  fr_started : o_started o' = o_started o;
  fr_ordered : o_transactionsOrdered o' = o_transactionsOrdered o;
  fr_held : o_heldLocks o' = o_heldLocks o;
  fr_loop : o_delegationLoop o' = o_delegationLoop o;
  fr_conf : o_conf o' = o_conf o;
  fr_events : o_events o' = o_events o;
  fr_candidates : o_endorserCandidates o' = o_endorserCandidates o;
  fr_now : o_now o' = o_now o;
  fr_live : o_liveBlockHeight o' = o_liveBlockHeight o;
  fr_silence : o_heartbeatIntervalsSinceLastReceive o' = o_heartbeatIntervalsSinceLastReceive o;
  fr_coordinator : o_currentActiveCoordinator o <> EmptyString -> o_currentActiveCoordinator o' = o_currentActiveCoordinator o;
  fr_failover : failoverOk o -> failoverOk o';
  fr_others : forall j, j <> id -> o_transactionsByID o' !! j = o_transactionsByID o !! j;
  fr_self : match o_transactionsByID o !! id, o_transactionsByID o' !! id with
            | Some t, Some t' => sameOTx t t' /\ (moved = false -> ot_stateMachine t' = ot_stateMachine t)
            | None, None => True
            | _, _ => False
            end;
  fr_queue : exists q, o_internalQueue o' = o_internalQueue o ++ q /\ (moved = false -> Forall notOTransition q);
  fr_outbox : exists m, o_outbox o' = o_outbox o ++ m
}.

Lemma frame_self_refl moved id o :
  match o_transactionsByID o !! id, o_transactionsByID o !! id with
  | Some t, Some t' => sameOTx t t' /\ (moved = false -> ot_stateMachine t' = ot_stateMachine t)
  | None, None => True
  | _, _ => False
  end.
Proof. by destruct (_ !! _). Qed.

#[export] Instance frameOTx_preorder moved id : PreOrder (frameOTx moved id).
Proof.
  split.
  - intros o. split; try done; [apply frame_self_refl|exists []; by rewrite app_nil_r..].
  - intros o1 o2 o3 [] []. split; try congruence.
    + intros Hc. specialize (fr_coordinator0 Hc). rewrite fr_coordinator1 by congruence. done.
    + auto.
    + intros j Hj. rewrite fr_others1, fr_others0; done.
    + destruct (o_transactionsByID o1 !! id), (o_transactionsByID o2 !! id), (o_transactionsByID o3 !! id); try done.
      destruct fr_self0 as [? Hm0], fr_self1 as [? Hm1]. split; [by etrans|]. intros Hm. rewrite Hm1, Hm0; done.
    + destruct fr_queue0 as (q & Eq & Hq), fr_queue1 as (q' & Eq' & Hq'). exists (q ++ q').
      rewrite Eq', Eq, app_assoc. split; [done|]. intros Hm. apply Forall_app_2; auto.
    + destruct fr_outbox0 as (m & Em), fr_outbox1 as (m' & Em'). exists (m ++ m'). by rewrite Em', Em, app_assoc.
Qed.

Lemma frameOTx_moved id o o' : frameOTx false id o o' -> frameOTx true id o o'.
Proof.
  intros []. split; try done.
  - destruct (o_transactionsByID o !! id), (o_transactionsByID o' !! id); try done. by destruct fr_self0.
  - destruct fr_queue0 as (q & Eq & _). by exists q.
Qed.

(** Steps that only touch what nobody counts on. *)
Lemma frame_quiet id o o' :
  o_machine o' = o_machine o -> o_locked o' = o_locked o -> o_started o' = o_started o ->
  o_transactionsOrdered o' = o_transactionsOrdered o -> o_heldLocks o' = o_heldLocks o ->
  o_delegationLoop o' = o_delegationLoop o -> o_conf o' = o_conf o -> o_events o' = o_events o ->
  o_endorserCandidates o' = o_endorserCandidates o -> o_now o' = o_now o -> o_liveBlockHeight o' = o_liveBlockHeight o ->
  o_heartbeatIntervalsSinceLastReceive o' = o_heartbeatIntervalsSinceLastReceive o ->
  o_currentActiveCoordinator o' = o_currentActiveCoordinator o ->
  o_coordinatorPriorityList o' = o_coordinatorPriorityList o -> o_failoverIndex o' = o_failoverIndex o ->
  o_transactionsByID o' = o_transactionsByID o ->
  (exists q, o_internalQueue o' = o_internalQueue o ++ q /\ Forall notOTransition q) ->
  (exists m, o_outbox o' = o_outbox o ++ m) -> frameOTx false id o o'.
Proof.
  intros ????????????? Hp Hi Ht Hq Hm. split; try done.
  - unfold failoverOk. by rewrite Hi, Hp.
  - intros j _. by rewrite Ht.
  - rewrite Ht. apply frame_self_refl.
  - destruct Hq as (q & ? & ?). by exists q.
Qed.

Definition keepsOTx (f : originatorTransaction -> originatorTransaction) : Prop :=
  forall t, sameOTx t (f t) /\ ot_stateMachine (f t) = ot_stateMachine t.

Lemma frame_setOTx id f o : keepsOTx f -> frameOTx false id o (setOTx id f o).
Proof.
  intros Hf. split; try done.
  - intros j Hj. unfold setOTx. simpl. by rewrite lookup_alter_ne.
  - unfold setOTx. simpl. rewrite lookup_alter_eq. destruct (o_transactionsByID o !! id) as [t|]; simpl; [|done].
    destruct (Hf t). by split.
  - exists []. by rewrite app_nil_r.
  - exists []. by rewrite app_nil_r.
Qed.

(** *** The priorities *)

Lemma resetFailoverIndex_ok o : failoverOk (resetFailoverIndex o).
Proof.
  unfold resetFailoverIndex, failoverOk. destruct (o_coordinatorPriorityList o) as [|a [|b l]] eqn:E; rewrite ?E; simpl; try lia.
  rewrite E. simpl. case_match; lia.
Qed.

(** A change of the priorities, the index and the coordinator only. *)
Lemma frame_priorities id o o' c :
  (o_currentActiveCoordinator o <> EmptyString -> c = o_currentActiveCoordinator o) ->
  o' = o <| o_currentActiveCoordinator := c |> <| o_coordinatorPriorityList := o_coordinatorPriorityList o' |>
         <| o_failoverIndex := o_failoverIndex o' |> ->
  failoverOk o' -> frameOTx false id o o'.
Proof.
  intros Hc Ho Hf. split; try (by rewrite Ho).
  - rewrite Ho. simpl. apply frame_self_refl.
  - exists []. by rewrite Ho, app_nil_r.
  - exists []. by rewrite Ho, app_nil_r.
Qed.

Lemma resetFailoverIndex_eq o : exists i, resetFailoverIndex o = o <| o_failoverIndex := i |>.
Proof.
  unfold resetFailoverIndex. destruct (o_coordinatorPriorityList o) as [|a [|b l]]; [..|by eauto];
    exists (o_failoverIndex o); by destruct o.
Qed.

Lemma calculateOriginatorPriorities_frame id : respects (frameOTx false id) calculateOriginatorPriorities.
Proof.
  intros o. unfold calculateOriginatorPriorities. destruct (o_endorserCandidates o) as [|n l] eqn:E; [done|].
  set (p := ComputeCoordinatorPriorityList (n :: l) (o_effectiveBlockHeight o)).
  set (o1 := o <| o_coordinatorPriorityList := p |>).
  destruct (String.eqb_spec (o_currentActiveCoordinator o1) EmptyString) as [He|He].
  - change (o_coordinatorPriorityList o1) with p. destruct p as [|first rest] eqn:Ep; simpl.
    + apply (frame_priorities id o _ (o_currentActiveCoordinator o)); [done|by destruct o|]. unfold failoverOk. simpl. lia.
    + set (o2 := o1 <| o_currentActiveCoordinator := first |>).
      destruct (resetFailoverIndex_eq o2) as [i Hi].
      apply (frame_priorities id o _ first); [done|by rewrite Hi; destruct o|apply resetFailoverIndex_ok].
  - simpl. destruct (resetFailoverIndex_eq o1) as [i Hi].
    apply (frame_priorities id o _ (o_currentActiveCoordinator o)); [done|by rewrite Hi; destruct o|apply resetFailoverIndex_ok].
Qed.

(** ** The actions of the table *)

Ltac frame_same :=
  apply frame_quiet; try reflexivity; [exists []; rewrite app_nil_r; by split | exists []; by rewrite app_nil_r].

Lemma respects_getOTx (R : relation Originator) `{!PreOrder R} id : respects R (getOTx id).
Proof. intros o. unfold getOTx. by destruct (_ !! _). Qed.

Lemma respects_newOUUID id : respects (frameOTx false id) newOUUID.
Proof. intros o. unfold newOUUID. cbn [fst]. frame_same. Qed.

Lemma respects_updOTx id f : keepsOTx f -> respects (frameOTx false id) (updOTx id f).
Proof. intros Hf. apply respects_modify. intros o. by apply frame_setOTx. Qed.

Lemma respects_sendO `{OrigEnv} id msg : respects (frameOTx false id) (sendO msg).
Proof.
  intros o. unfold sendO. destruct (oenv_transport _ _); [reflexivity|]. cbn [fst].
  apply frame_quiet; try reflexivity; [exists []; rewrite app_nil_r; by split | by eexists].
Qed.

Lemma respects_queueO id e : notOTransition e -> respects (frameOTx false id) (queueEventForOriginator e).
Proof.
  intros He o. cbn [fst queueEventForOriginator modify].
  apply frame_quiet; try reflexivity; [exists [e]; by rewrite Forall_singleton | exists []; by rewrite app_nil_r].
Qed.

Lemma refreshOriginatorBlockHeight_frame id : respects (frameOTx false id) refreshOriginatorBlockHeight.
Proof.
  unfold refreshOriginatorBlockHeight. apply respects_bind; [apply _|apply respects_gets, _|intros h].
  apply respects_bind; [apply _|apply respects_modify; intros o; frame_same|intros _].
  apply respects_bind; [apply _|apply respects_liftR, _|intros n].
  apply respects_bind; [apply _|apply respects_gets, _|intros e].
  case_match; [apply respects_ret, _|].
  apply respects_bind; [apply _|apply respects_modify; intros o; frame_same|intros _].
  apply calculateOriginatorPriorities_frame.
Qed.

Ltac frame_step :=
  first
  [ apply respects_ret; apply _ | apply respects_gets; apply _ | apply respects_throw; apply _ | apply respects_crash; apply _
  | apply respects_liftR; apply _ | apply respects_getOTx; apply _ | apply respects_newOUUID | apply respects_sendO
  | apply refreshOriginatorBlockHeight_frame
  | apply respects_queueO; exact Logic.I
  | lazymatch goal with
    | |- respects _ (mbind _ _) => apply respects_bind; [apply _| |intros ?]
    | |- respects _ (log_error _) => apply respects_log_error
    | |- respects _ (for_each _ _) => apply respects_for_each; [apply _|intros ? _]
    end
  | apply respects_updOTx; intros ?; (by split) || (split; [split_and!; by repeat case_match|by repeat case_match])
  | apply respects_modify; intros ?; frame_same
  | case_match ].
Ltac frame_go := repeat frame_step.

Section Rules.
Context `{OrigEnv}.
Context (id : uuid).

Definition otxActions : list (Action OriginatorTransactionEvent Originator) :=
  [action_ResolveVerifiers id; action_CancelResolveRetry id; action_VerifiersResolved id; action_ScheduleResolveRetry id;
   action_Delegated id; action_ResetDelegationState id; action_RefreshBlockHeight;
   action_SendAssembleRejectionNotCurrentDelegate id; action_SendAssembleBlockHeightRejection id;
   action_RejectAssemblyPrivateStateDataPending id; action_AssembleRequestReceived id; action_Dispatched id;
   action_Assemble id; action_CancelCurrentAssembly id; action_AssembleSuccess id; action_SendAssembleSuccessResponse id;
   action_AssembleRevert id; action_AssemblePark id; action_AssembleError id; action_SendAssembleError id;
   action_FulfilSignAttestations id; action_CancelCurrentSign id; action_SignSuccess id; action_SendSignResponse id;
   action_SendSignError id; action_PreDispatchRequestReceived id; action_SendPreDispatchResponse id;
   action_SendPreDispatchRejectionNotCurrentDelegate id; action_NonceAssigned id; action_Submitted id;
   action_QueueFinalizeEvent id].

Lemma otxActions_frame action event : action ∈ otxActions -> respects (frameOTx false id) (action event).
Proof.
  intros Hin. unfold otxActions in Hin. split_members;
    unfold action_ResolveVerifiers, action_CancelResolveRetry, action_VerifiersResolved, action_ScheduleResolveRetry,
      scheduleResolveRetry, clearResolveRetrySchedule, scheduleO, action_Delegated, action_ResetDelegationState,
      action_RefreshBlockHeight, action_SendAssembleRejectionNotCurrentDelegate, action_SendAssembleBlockHeightRejection,
      action_RejectAssemblyPrivateStateDataPending, sendAssembleRejection, action_AssembleRequestReceived, action_Dispatched,
      action_Assemble, action_CancelCurrentAssembly, cancelAssembly, action_AssembleSuccess, setFulfilled,
      action_SendAssembleSuccessResponse, sendAssembleResponse, action_AssembleRevert, action_AssemblePark,
      action_AssembleError, action_SendAssembleError, action_FulfilSignAttestations, action_CancelCurrentSign, cancelSign,
      action_SignSuccess, action_SendSignResponse, action_SendSignError, action_PreDispatchRequestReceived,
      action_SendPreDispatchResponse, action_SendPreDispatchRejectionNotCurrentDelegate, action_NonceAssigned,
      action_Submitted, action_QueueFinalizeEvent; frame_go.
Qed.

Lemma otx_defined_rule_in rule : defined_rule (otxStateDefinitionsMap id) rule -> ar_Action rule ∈ otxActions.
Proof.
  intros [[s Hr]|(s & ty & h & (d & hs & Hd & He & Hh) & Hr)].
  - destruct s; destruct Hr as [Hr|Hr]; cbn in Hr; split_members; unfold otxActions; cbn [ar_Action Act ActIf]; list_member.
  - destruct s; injection Hd as <-; destruct ty; try discriminate He; injection He as <-;
      cbn in Hh; split_members; destruct Hr as [Hr|(tr & Htr & Hr)]; cbn in *;
      split_members; cbn in *; split_members; unfold otxActions; cbn [ar_Action Act ActIf]; list_member.
Qed.

Lemma otx_rule_frame rule event : defined_rule (otxStateDefinitionsMap id) rule -> respects (frameOTx false id) (ar_Action rule event).
Proof. intros Hr%otx_defined_rule_in. by apply otxActions_frame. Qed.
End Rules.

(** ** The lifecycle: the abstract table *)

(** The states a transaction may go to from [s] on an event of type [ty]. *)
Definition otxNextStates (s : OriginatorTransactionState) (ty : OriginatorTransactionEventType) : list OriginatorTransactionState :=
  match s, ty with
  | (State_Confirmed | State_Reverted), Event_Finalize => [State_Final]
  | (State_Confirmed | State_Reverted | State_Final), _ => []
  | State_Initial, Event_Created => [State_Resolving; State_Pending]
  | _, Event_ConfirmedSuccess => [State_Confirmed]
  | State_Initial, _ => []
  | (State_Dispatched | State_Sequenced | State_Submitted), Event_ConfirmedReverted => [State_Delegated; State_Confirmed]
  | _, Event_ConfirmedReverted => [State_Confirmed]
  | State_Resolving, Event_VerifiersResolved => [State_Pending]
  | State_Resolving, _ => []
  | State_Pending, Event_Delegated => [State_Delegated]
  | State_Pending, _ => []
  | State_Delegated, Event_AssembleRequestReceived => [State_Assembling]
  | State_Delegated, Event_Dispatched => [State_Dispatched]
  | State_Delegated, _ => []
  | _, Event_Delegated => [State_Delegated]
  | State_Parked, Event_Resumed => [State_Pending]
  | State_Parked, _ => []
  | State_Assembling, Event_AssembleSuccess => [State_Signing; State_Endorsement_Gathering]
  | State_Assembling, Event_AssembleRevert => [State_Reverted]
  | State_Assembling, Event_AssemblePark => [State_Parked]
  | State_Assembling, Event_AssembleError => [State_Delegated]
  | State_Assembling, _ => []
  | _, Event_AssembleRequestReceived => [State_Assembling]
  | State_Signing, Event_SignSuccess => [State_Endorsement_Gathering]
  | State_Signing, Event_SignError => [State_Delegated]
  | State_Endorsement_Gathering, Event_PreDispatchRequestReceived => [State_Prepared]
  | State_Prepared, Event_Dispatched => [State_Dispatched]
  | State_Dispatched, Event_NonceAssigned => [State_Sequenced]
  | (State_Dispatched | State_Sequenced), Event_Submitted => [State_Submitted]
  | _, _ => []
  end.

Definition otxLifecycle (s s' : OriginatorTransactionState) : Prop := exists ty, s' ∈ otxNextStates s ty.

Section Lifecycle.
Context `{OrigEnv} (id : uuid).

Lemma otx_targets s ty : targets (otxStateDefinitionsMap id) s ty = otxNextStates s ty.
Proof. destruct s, ty; reflexivity. Qed.

Lemma otx_edge s ty s' : edge (otxStateDefinitionsMap id) s ty s' <-> s' ∈ otxNextStates s ty.
Proof. by rewrite edge_targets, otx_targets. Qed.
End Lifecycle.

(** ** Handling one event *)

Lemma otx_state_at id o t :
  o_transactionsByID o !! id = Some t -> GetCurrentState (otxEntity id) o = currentState (ot_stateMachine t).
Proof. intros Ht. unfold GetCurrentState, otxEntity, otxMachineOf. simpl. by rewrite Ht. Qed.

Lemma otx_enterState_lookup id s event o j :
  o_transactionsByID (enterState (otxEntity id) s event o) !! j
  = if decide (j = id)
    then (fun t => t <| ot_stateMachine := MkMachine s (Some (OriginatorTransactionType_of event)) (o_now o) |>) <$> o_transactionsByID o !! j
    else o_transactionsByID o !! j.
Proof.
  unfold enterState, SetCurrentState, otxEntity, setOTx, otxMachineOf. simpl. case_decide as Hj.
  - subst j. rewrite !lookup_alter_eq. by destruct (o_transactionsByID o !! id).
  - by rewrite !lookup_alter_ne by done.
Qed.

Lemma frame_enterState id s event o : frameOTx true id o (enterState (otxEntity id) s event o).
Proof.
  split; try done.
  - intros j Hj. by rewrite otx_enterState_lookup, decide_False.
  - rewrite otx_enterState_lookup, decide_True by done. by destruct (o_transactionsByID o !! id).
  - exists []. by rewrite app_nil_r.
  - exists []. by rewrite app_nil_r.
Qed.

(** The callback queues one state transition. *)
Lemma callback_lookup id from to event o j :
  o_transactionsByID (otxTransitionCallback id from to event o) !! j
  = o_transactionsByID (setOTx id (fun t => t <| ot_stateEntryTime := o_now o |>) o) !! j.
Proof. done. Qed.

Lemma frame_callback id from to event o : frameOTx true id o (otxTransitionCallback id from to event o).
Proof.
  etrans; [apply frameOTx_moved, (frame_setOTx id (fun t => t <| ot_stateEntryTime := o_now o |>)); by intros t|].
  split; try done; [rewrite callback_lookup; apply frame_self_refl|by eexists|]. exists []. by rewrite app_nil_r.
Qed.

(** The state of transaction [id] is the same. *)
Definition keepsState (id : uuid) (o o' : Originator) : Prop :=
  match o_transactionsByID o !! id, o_transactionsByID o' !! id with
  | Some t, Some t' => currentState (ot_stateMachine t') = currentState (ot_stateMachine t)
  | None, None => True
  | _, _ => False
  end.

#[export] Instance keepsState_preorder id : PreOrder (keepsState id).
Proof.
  unfold keepsState. split; [intros o; by destruct (_ !! _)|]. intros o1 o2 o3.
  destruct (o_transactionsByID o1 !! id), (o_transactionsByID o2 !! id), (o_transactionsByID o3 !! id); try done. congruence.
Qed.

Lemma frame_keepsState id o o' : frameOTx false id o o' -> keepsState id o o'.
Proof.
  intros []. unfold keepsState. destruct (o_transactionsByID o !! id), (o_transactionsByID o' !! id); try done.
  destruct fr_self0 as [_ Hm]. by rewrite Hm.
Qed.

Lemma callback_keepsState id cb from to event o :
  Some (otxTransitionCallback id) = Some cb -> keepsState id o (cb from to event o).
Proof.
  intros [= <-]. assert (Hf : keepsState id o (setOTx id (fun t => t <| ot_stateEntryTime := o_now o |>) o)).
  { apply frame_keepsState, frame_setOTx. by intros t. }
  unfold keepsState in *. by rewrite callback_lookup.
Qed.

Section Handle.
Context `{OrigEnv}.

Lemma otxHandle_locked id event o :
  id ∈ o_heldLocks o -> originatorTransactionHandleEvent id event o = (o, Crash Deadlock).
Proof. intros Hid. unfold originatorTransactionHandleEvent, ProcessEvent, otxEntity at 1, lockOTx. simpl. by rewrite decide_True. Qed.

Lemma otxHandle_unlocked id event o :
  id ∉ o_heldLocks o ->
  originatorTransactionHandleEvent id event o
  = let '(o2, r) := dispatchEvent (otxEntity id) (otxStateDefinitionsMap id) (Some (otxTransitionCallback id)) event
                      (o <| o_heldLocks ::= union {[id]} |>) in
    (unlockOTx id o2, r).
Proof. intros Hid. unfold originatorTransactionHandleEvent, ProcessEvent, otxEntity at 1, lockOTx. simpl. by rewrite decide_False. Qed.

Lemma otx_dispatch_frame id event :
  respects (frameOTx true id) (dispatchEvent (otxEntity id) (otxStateDefinitionsMap id) (Some (otxTransitionCallback id)) event).
Proof.
  apply keeps_respects; [apply _|]. intros o0. apply dispatchEvent_keeps; [done|..].
  - intros rule Hr o Ho. split; [|done]. etrans; [exact Ho|]. by apply frameOTx_moved, otx_rule_frame.
  - done.
  - intros s o Ho. etrans; [exact Ho|apply frame_enterState].
  - intros cb from to o [= <-] Ho. etrans; [exact Ho|apply frame_callback].
Qed.

(** Relocking gives back the locks held before. *)
Lemma frame_unlock id o o2 :
  frameOTx true id (o <| o_heldLocks ::= union {[id]} |>) o2 -> id ∉ o_heldLocks o -> frameOTx true id o (unlockOTx id o2).
Proof.
  intros [] Hid. split; try done. unfold unlockOTx. simpl in *. rewrite fr_held0. set_solver.
Qed.

Lemma otxHandle_frame id event : respects (frameOTx true id) (originatorTransactionHandleEvent id event).
Proof.
  intros o. destruct (decide (id ∈ o_heldLocks o)) as [Hid|Hid]; [by rewrite otxHandle_locked|].
  rewrite otxHandle_unlocked by done. pose proof (otx_dispatch_frame id event (o <| o_heldLocks ::= union {[id]} |>)) as Hf.
  destruct (dispatchEvent _ _ _ _ _) as [o2 r]. by apply frame_unlock.
Qed.

(** The transaction takes at most one edge, on the event's own type. *)
Lemma otxHandle_own id event t o :
  o_transactionsByID o !! id = Some t ->
  exists t', o_transactionsByID (originatorTransactionHandleEvent id event o).1 !! id = Some t' /\ sameOTx t t' /\
    (currentState (ot_stateMachine t') = currentState (ot_stateMachine t) \/
     currentState (ot_stateMachine t') ∈ otxNextStates (currentState (ot_stateMachine t)) (OriginatorTransactionType_of event)).
Proof.
  intros Ht. pose proof (otxHandle_frame id event o) as []. rewrite Ht in fr_self0.
  destruct (o_transactionsByID (originatorTransactionHandleEvent id event o).1 !! id) as [t'|] eqn:Ht'; [|done].
  exists t'. destruct fr_self0 as [Hsame _]. split_and!; [done..|].
  destruct (decide (id ∈ o_heldLocks o)) as [Hid|Hid].
  { rewrite otxHandle_locked in Ht' by done. simpl in Ht'. rewrite Ht in Ht'. injection Ht' as <-. by left. }
  rewrite otxHandle_unlocked in Ht' by done. set (o1 := o <| o_heldLocks ::= union {[id]} |>) in *.
  assert (Hr : forall rule ev, defined_rule (otxStateDefinitionsMap id) rule -> respects (keepsState id) (ar_Action rule ev)).
  { intros rule ev Hd. eapply respects_weaken; [apply (frame_keepsState id)|by apply otx_rule_frame]. }
  pose proof (dispatch_stepped (otxEntity id) (otxStateDefinitionsMap id) (Some (otxTransitionCallback id)) (keepsState id) Hr event o1) as Hd.
  rewrite (otx_state_at id o1 t Ht) in Hd. cbn [ent_type otxEntity] in Hd.
  destruct (dispatchEvent _ _ _ event o1) as [o2 r]. cbn [fst unlockOTx] in Ht'.
  change (o_transactionsByID (unlockOTx id o2)) with (o_transactionsByID o2) in Ht'.
  destruct Hd as [Hd|Hd].
  - left. unfold keepsState in Hd. simpl in Hd. by rewrite Ht, Ht' in Hd.
  - right. apply took_entered in Hd as (h & tr & o3 & Hh & Htr & Hw3 & Hw2); [|apply _|done|apply callback_keepsState].
    cbn [fst] in Hw2. unfold keepsState in Hw2, Hw3. rewrite otx_enterState_lookup, decide_True, Ht' in Hw2 by done.
    destruct (o_transactionsByID o3 !! id) as [t3|]; [|done]. simpl in Hw2. rewrite Hw2.
    apply (otx_edge id). by exists h, tr.
Qed.
End Handle.
