(* ===== verification/OrigTxGates.v ===== *)
(** * What lets an originator's transaction move on

    An assemble request is taken up only if it comes from the node the transaction is delegated to,
    the two block heights are within tolerance and no private data is missing; the approval to
    dispatch is given only for what this node signed.

    Sources: originator/transaction/state_machine.go, assembling.go, delegated.go, prepared.go. *)

From S2P Require Import Prelude StateMachine Identity Selection TxTypes CoordTypes TxPropagation OrigTypes OrigWorld OrigTxActions OrigTxMachine.
From S2P Require Import OrigTxLifecycle Sample OrigActions OrigMachine OrigSample.
Import OTx.
Open Scope list_scope.

(** ** Assemble requests *)

(** The two memories agree on the transactions, the jobs and the block height. *)
Definition sentOnly (o o' : Originator) : Prop := exists m, o' = o <| o_outbox := o_outbox o ++ m |>.

#[export] Instance sentOnly_preorder : PreOrder sentOnly.
Proof.
  split.
  - intros o. exists []. destruct o. by rewrite app_nil_r.
  - intros o1 o2 o3 (m & ->) (m' & ->). exists (m ++ m'). destruct o1. simpl. by rewrite app_assoc.
Qed.

Definition requestOf (e : AssembleRequestReceived) : assembleRequestFromCoordinator :=
  MkAssembleRequestFromCoordinator (arr_CoordinatorBlockHeight e) (arr_Coordinator e) (arr_RequestID e) (arr_Expiry e).

Section Assemble.
Context `{OrigEnv}.

(** The request is from the current delegate, within tolerance of this node's height [height], and no
    private data is missing up to the coordinator's low watermark. *)
Definition acceptable (height : Z) (t : originatorTransaction) (e : AssembleRequestReceived) : Prop :=
  arr_Coordinator e = ot_currentDelegate t /\
  (heightDistance (u64 height) (u64 (arr_CoordinatorBlockHeight e)) <= u64 (arr_BlockHeightTolerance e))%Z /\
  oenv_CheckPendingPrivateStateData (i64 (arr_CoordinatorBlockHeight e - arr_BlockHeightTolerance e)) = Ok true.

Lemma respects_sentOnly_sendO msg : respects sentOnly (sendO msg).
Proof. intros o. unfold sendO. destruct (oenv_transport _ _); [done|]. exists [msg]. by destruct o. Qed.

Lemma refusals_sentOnly id event h rule :
  h ∈ assembleRefusals id -> rule ∈ eh_Actions h -> respects sentOnly (ar_Action rule event).
Proof.
  intros Hh Hr. unfold assembleRefusals in Hh. split_members; cbn in Hr; split_members; cbn [ar_Action Act];
    unfold action_SendAssembleRejectionNotCurrentDelegate, action_SendAssembleBlockHeightRejection,
      action_RejectAssemblyPrivateStateDataPending, sendAssembleRejection;
    repeat first [apply respects_sentOnly_sendO | apply respects_log_error | apply respects_crash; apply _
      | apply respects_getOTx; apply _ | apply respects_gets; apply _ | apply respects_bind; [apply _| |intros ?] | case_match].
Qed.

(** What a refresh of the block height leaves. *)
Lemma refresh_effect o :
  let o1 := (refreshOriginatorBlockHeight o).1 in
  o_transactionsByID o1 = o_transactionsByID o /\ o_assemblies o1 = o_assemblies o /\ o_nextUUID o1 = o_nextUUID o /\
  o_signs o1 = o_signs o /\ o_currentBlockHeight o1 = o_liveBlockHeight o /\ o_conf o1 = o_conf o /\ o_outbox o1 = o_outbox o.
Proof.
  cbv zeta. unfold refreshOriginatorBlockHeight, mbind, M_bind, gets, modify, liftR.
  destruct (ComputeEffectiveBlockHeight _ _); [|split_and!; done..]. case_match; [split_and!; done|].
  unfold calculateOriginatorPriorities, resetFailoverIndex. repeat case_match; split_and!; done.
Qed.

Lemma distance_tolerated a b c : (u64 c <? heightDistance a b)%Z = false -> (heightDistance a b <= u64 c)%Z.
Proof. intros E. apply Z.ltb_ge in E. exact E. Qed.

(** Passing the validator of the last handler, or declining the three refusals, is the same. *)
Lemma assembleAcceptable_inv id e t o :
  o_transactionsByID o !! id = Some t ->
  assembleAcceptable id (AssembleRequestReceivedEvent e) o = Ok true -> acceptable (o_currentBlockHeight o) t e.
Proof.
  intros Ht. unfold assembleAcceptable, ValidatorAnd, ValidatorNot, validator_AssembleRequestFromCurrentDelegate, validOTx,
    validator_AssembleBlockHeightToleranceExceeded, validator_IsPrivateStateDataPendingForAssembly. rewrite Ht.
  destruct (String.eqb_spec (arr_Coordinator e) (ot_currentDelegate t)) as [Hc|]; [|discriminate].
  destruct (_ <? _)%Z eqn:Ed; [discriminate|]. simpl.
  destruct (oenv_CheckPendingPrivateStateData _) as [[|]| |] eqn:Ep; try discriminate. intros _.
  split_and!; [done|by apply distance_tolerated|done].
Qed.

Lemma refusals_declined_inv id e t o :
  o_transactionsByID o !! id = Some t ->
  (forall h, h ∈ assembleRefusals id -> matchesHandler (AssembleRequestReceivedEvent e) h o = Ok false) ->
  acceptable (o_currentBlockHeight o) t e.
Proof.
  intros Ht Hall. unfold assembleRefusals in Hall.
  assert (H1 := Hall _ (list_elem_of_here _ _)).
  assert (H2 := Hall _ (list_elem_of_further _ _ _ (list_elem_of_here _ _))).
  assert (H3 := Hall _ (list_elem_of_further _ _ _ (list_elem_of_further _ _ _ (list_elem_of_here _ _)))).
  clear Hall. unfold matchesHandler in *. cbn [eh_Validator OnValid] in *.
  unfold ValidatorNot, validator_AssembleRequestFromCurrentDelegate, validOTx in H1. rewrite Ht in H1.
  destruct (String.eqb_spec (arr_Coordinator e) (ot_currentDelegate t)) as [Hc|]; [|discriminate].
  unfold validator_AssembleBlockHeightToleranceExceeded in H2. injection H2 as H2.
  unfold validator_IsPrivateStateDataPendingForAssembly in H3.
  destruct (oenv_CheckPendingPrivateStateData _) as [[|]| |] eqn:Ep; try discriminate.
  split_and!; [done|by apply distance_tolerated|done].
Qed.
End Assemble.

(** ** Running the actions of a transaction *)

Lemma lookup_setOTx id f o : o_transactionsByID (setOTx id f o) !! id = f <$> o_transactionsByID o !! id.
Proof. unfold setOTx. simpl. by rewrite lookup_alter_eq. Qed.

Lemma getOTx_ok id o t : o_transactionsByID o !! id = Some t -> getOTx id o = (o, Ok t).
Proof. intros Ht. unfold getOTx. by rewrite Ht. Qed.

Section Running.
Context `{OrigEnv}.
Context (id : uuid).

(** Recording the request. *)
Definition recorded (e : AssembleRequestReceived) (t : originatorTransaction) : originatorTransaction :=
  t <| ot_currentDelegate := arr_Coordinator e |> <| ot_latestAssembleRequest := Some (requestOf e) |>.

Lemma run_AssembleRequestReceived e o :
  action_AssembleRequestReceived id (AssembleRequestReceivedEvent e) o = (setOTx id (recorded e) o, Ok tt).
Proof. done. Qed.

(** An assembly of [req] runs for the transaction, and is the one it would cancel; there may be others. *)
Definition assemblyRuns (req : assembleRequestFromCoordinator) (t : originatorTransaction) (o : Originator) : Prop :=
  exists job j, ot_cancelCurrentAssembly t = Some job /\ o_assemblies o !! job = Some j /\
    aj_tx j = id /\ aj_req j = req /\ aj_cancelled j = false.

Lemma run_Assemble event o t req :
  o_transactionsByID o !! id = Some t -> ot_latestAssembleRequest t = Some req ->
  exists o' t', action_Assemble id event o = (o', Ok tt) /\ o_transactionsByID o' !! id = Some t' /\
    ot_latestAssembleRequest t' = Some req /\ ot_stateMachine t' = ot_stateMachine t /\ assemblyRuns req t' o'.
Proof.
  intros Ht Hreq. unfold action_Assemble. rewrite (bind_ok _ _ _ _ _ (getOTx_ok id o t Ht)), Hreq.
  set (o1 := match ot_cancelCurrentAssembly t with
             | None => o
             | Some job => o <| o_assemblies ::= alter (fun j => j <| aj_cancelled := true |>) job |>
             end).
  assert (Hc : cancelAssembly (ot_cancelCurrentAssembly t) o = (o1, Ok tt)) by (subst o1; by destruct (ot_cancelCurrentAssembly t)).
  assert (Ht1 : o_transactionsByID o1 !! id = Some t) by (subst o1; by destruct (ot_cancelCurrentAssembly t)).
  rewrite (bind_ok _ _ _ _ _ Hc). clearbody o1.
  set (job := o_nextUUID o1). set (j := MkAssembleJob id req (pt_PreAssembly (ot_pt t)) (pt_ResolvedVerifiers (ot_pt t)) (ot_localTx t) false).
  set (f := fun t : originatorTransaction => t <| ot_cancelCurrentAssembly := Some job |> <| ot_currentAssemblyRequestID := rq_requestID req |>).
  exists ((setOTx id f (o1 <| o_nextUUID ::= N.succ |>)) <| o_assemblies ::= <[job := j]> |>), (f t). split; [done|].
  split; [simpl; by rewrite lookup_alter_eq, Ht1|]. split_and!; [done|done|]. exists job, j. split; [done|].
  split; [apply lookup_insert_eq|done].
Qed.

Lemma run_CancelCurrentSign event o t :
  o_transactionsByID o !! id = Some t ->
  exists o', action_CancelCurrentSign id event o = (o', Ok tt) /\
    o_transactionsByID o' !! id = Some (t <| ot_cancelCurrentSign := None |>) /\ o_assemblies o' = o_assemblies o.
Proof.
  intros Ht. unfold action_CancelCurrentSign. rewrite (bind_ok _ _ _ _ _ (getOTx_ok id o t Ht)).
  set (o1 := match ot_cancelCurrentSign t with
             | None => o
             | Some job => o <| o_signs ::= alter (fun j => j <| sj_cancelled := true |>) job |>
             end).
  assert (Hc : cancelSign (ot_cancelCurrentSign t) o = (o1, Ok tt)) by (subst o1; by destruct (ot_cancelCurrentSign t)).
  rewrite (bind_ok _ _ _ _ _ Hc). eexists. split; [reflexivity|]. rewrite lookup_setOTx.
  subst o1. destruct (ot_cancelCurrentSign t); simpl; by rewrite Ht.
Qed.

(** What was asked for is under way: recorded while parked or reverted, assembled otherwise. *)
Definition underWay (e : AssembleRequestReceived) (s : OriginatorTransactionState) (t' : originatorTransaction) (o' : Originator) : Prop :=
  match s with
  | State_Parked | State_Reverted => currentState (ot_stateMachine t') = s
  | _ => currentState (ot_stateMachine t') = State_Assembling /\ assemblyRuns (requestOf e) t' o'
  end.

Definition accepted (e : AssembleRequestReceived) (s : OriginatorTransactionState) (out : Originator * res unit) : Prop :=
  out.2 = Ok tt /\
  exists t', o_transactionsByID out.1 !! id = Some t' /\ ot_latestAssembleRequest t' = Some (requestOf e) /\ underWay e s t' out.1.

(** Leaving a state runs at most the cancellation of a signature. *)
Lemma run_leaving s event o t :
  o_transactionsByID o !! id = Some t -> s <> State_Assembling -> s <> State_Resolving ->
  exists o' t', executeActionRules event (onTransitionFrom (otxStateDefinitionsMap id) s) o = (o', Ok tt) /\
    o_transactionsByID o' !! id = Some t' /\ ot_latestAssembleRequest t' = ot_latestAssembleRequest t /\
    ot_stateMachine t' = ot_stateMachine t.
Proof.
  intros Ht H1 H2. destruct (decide (s = State_Signing)) as [->|H3].
  - destruct (run_CancelCurrentSign event o t Ht) as (o' & Ho & Ht' & _).
    exists o', (t <| ot_cancelCurrentSign := None |>). split_and!; [|done..].
    cbn [onTransitionFrom otxStateDefinitionsMap otxStateSigning OnTransitionFrom]. by rewrite (exec_act _ _ _ _ _ Ho).
  - exists o, t. split_and!; [by destruct s|done..].
Qed.

(** Taking the transition to [State_Assembling] with the request recorded. *)
Lemma run_toAssembling e o t :
  let event := AssembleRequestReceivedEvent e in let s := currentState (ot_stateMachine t) in
  o_transactionsByID o !! id = Some t -> ot_latestAssembleRequest t = Some (requestOf e) ->
  s <> State_Assembling -> s <> State_Resolving ->
  exists o' t', takeTransition (otxEntity id) (otxStateDefinitionsMap id) (Some (otxTransitionCallback id)) event (To State_Assembling []) o
    = (o', Ok tt) /\ o_transactionsByID o' !! id = Some t' /\ ot_latestAssembleRequest t' = Some (requestOf e) /\
    currentState (ot_stateMachine t') = State_Assembling /\ assemblyRuns (requestOf e) t' o'.
Proof.
  intros event s Ht Hreq Ha Hr. unfold takeTransition, gets, modify. unfold mbind at 1, M_bind at 1. unfold mbind at 1, M_bind at 1.
  rewrite (otx_state_at id o t Ht). fold s. cbn [tr_To To tr_Actions].
  set (o1 := enterState (otxEntity id) State_Assembling event o).
  set (t1 := t <| ot_stateMachine := MkMachine State_Assembling (Some (OriginatorTransactionType_of event)) (o_now o) |>).
  assert (Ht1 : o_transactionsByID o1 !! id = Some t1).
  { subst o1. by rewrite otx_enterState_lookup, decide_True, Ht by done. }
  rewrite (bind_ok _ _ o1 o1 tt eq_refl).
  destruct (run_leaving s event o1 t1 Ht1 Ha Hr) as (o2 & t2 & Ho2 & Ht2 & Hreq2 & Hm2).
  rewrite (bind_ok _ _ _ _ _ Ho2). unfold mbind at 1, M_bind at 1.
  rewrite (otx_state_at id o2 t2 Ht2), Hm2. cbn [currentState ot_stateMachine t1].
  unfold runCallback, modify. unfold mbind, M_bind.
  set (o3 := otxTransitionCallback id s _ event o2).
  assert (Ht3 : o_transactionsByID o3 !! id = Some (t2 <| ot_stateEntryTime := o_now o2 |>)).
  { subst o3. rewrite callback_lookup, lookup_setOTx. by rewrite Ht2. }
  destruct (run_Assemble event o3 _ (requestOf e) Ht3) as (o4 & t4 & Ho4 & Ht4 & Hreq4 & Hm4 & Hruns); [simpl; rewrite Hreq2; done|].
  exists o4, t4. split_and!; [|done|done| |done].
  - change (onTransitionTo (otxStateDefinitionsMap id) (currentState (ot_stateMachine t1))) with [Act (action_Assemble id)].
    by rewrite (exec_act _ _ _ _ _ Ho4).
  - rewrite Hm4. simpl. by rewrite Hm2.
Qed.
End Running.

(** ** Which requests are taken up *)

Section Gate.
Context `{OrigEnv}.
Context (id : uuid).

#[local] Abbreviation matchAll := (processMatchAll (otxEntity id) (otxStateDefinitionsMap id) (Some (otxTransitionCallback id))).

(** A handler that at most sends. *)
Definition sends (event : OriginatorTransactionEvent) (h : OTxEventHandler) : Prop :=
  eh_Transitions h = [] /\ forall rule, rule ∈ eh_Actions h -> respects sentOnly (ar_Action rule event).

Lemma sentOnly_same o o' :
  sentOnly o o' ->
  o_transactionsByID o' = o_transactionsByID o /\ o_currentBlockHeight o' = o_currentBlockHeight o /\
  o_liveBlockHeight o' = o_liveBlockHeight o.
Proof. by intros (m & ->). Qed.

(** What the last handler of a set that refreshes the block height finds. *)
Definition readyFor (o1 o3 : Originator) : Prop :=
  o_transactionsByID o3 = o_transactionsByID o1 /\ o_currentBlockHeight o3 = o_liveBlockHeight o1.

Lemma matchAll_refreshed event rest o :
  matchAll event (refreshed :: rest) o
  = match refreshOriginatorBlockHeight o with
    | (o1, Ok _) => matchAll event rest o1
    | (o1, Err e) => (o1, Err e)
    | (o1, Crash c) => (o1, Crash c)
    end.
Proof.
  cbn [processMatchAll]. unfold mbind at 1, M_bind at 1, liftR.
  change (matchesHandler event refreshed o) with (Ok true : res bool). cbn. unfold OrigTxActions.action_RefreshBlockHeight, mbind, M_bind, mret, M_ret.
  cbn. by destruct (refreshOriginatorBlockHeight o) as [o1 [[]|e|c]].
Qed.

Lemma matchAll_refreshing event pre mid h o1 out :
  Forall (sends event) pre -> Forall (sends event) mid ->
  matchAll event (pre ++ refreshed :: mid ++ [h]) o1 = out ->
  o_transactionsByID out.1 = o_transactionsByID o1 \/
  exists o3, readyFor o1 o3 /\ matchAll event [h] o3 = out /\
    forall h', h' ∈ mid -> eh_Stop h' = true -> exists o0, readyFor o1 o0 /\ matchesHandler event h' o0 = Ok false.
Proof.
  intros Hpre Hmid Hout. apply (matchAll_prefix _ _ _ sentOnly) in Hout; [|done].
  destruct Hout as [Hs%sentOnly_same|(o2 & (Hb2 & _ & Hl2)%sentOnly_same & Hout & _)]; [left; apply Hs|].
  rewrite matchAll_refreshed in Hout. destruct (refresh_effect o2) as (Hb & _ & _ & _ & Hh & _).
  destruct (refreshOriginatorBlockHeight o2) as [o2' [[]|e|c]]; cbn [fst] in *; [|left; subst out; simpl; congruence..].
  apply (matchAll_prefix _ _ _ sentOnly) in Hout; [|done].
  destruct Hout as [(Hs & _)%sentOnly_same|(o3 & (Hb3 & Hh3 & _)%sentOnly_same & Hout & Hst)]; [left; congruence|right].
  exists o3. split; [split; congruence|]. split; [done|]. intros h' Hh' Hs'.
  destruct (Hst h' Hh' Hs') as (o0 & (Hb0 & Hh0 & _)%sentOnly_same & _ & Hm0). exists o0. split; [split; congruence|done].
Qed.

Lemma sends_refusals event : Forall (sends event) (assembleRefusals id).
Proof. apply Forall_forall. intros h Hh. split; [|intros rule; by apply (refusals_sentOnly id)]. unfold assembleRefusals in Hh. by split_members. Qed.

Lemma sends_stop event l : Forall (sends event) l -> Forall (sends event) (ThenStop <$> l).
Proof. intros Hl. apply Forall_fmap. eapply Forall_impl; [exact Hl|]. by intros h. Qed.

Lemma sends_repeated event resend : (forall ev, respects sentOnly (resend ev)) -> Forall (sends event) [assembleRepeated id resend].
Proof. intros Hr. apply Forall_singleton. split; [done|]. cbn. intros rule Hrule. split_members. apply Hr. Qed.

Lemma respects_sendAssembleResponse : respects sentOnly (sendAssembleResponse id).
Proof.
  unfold sendAssembleResponse. apply respects_bind; [apply _|apply respects_getOTx, _|intros t].
  case_match; [apply respects_sentOnly_sendO|apply respects_crash, _].
Qed.

(** The last handler of [State_Delegated], and of the states after it. *)
Lemma run_accepting e (v : option (Validator OriginatorTransactionEvent Originator)) o3 t out :
  let event := AssembleRequestReceivedEvent e in
  o_transactionsByID o3 !! id = Some t ->
  currentState (ot_stateMachine t) <> State_Assembling -> currentState (ot_stateMachine t) <> State_Resolving ->
  currentState (ot_stateMachine t) <> State_Parked -> currentState (ot_stateMachine t) <> State_Reverted ->
  matchAll event [MkEventHandler v [Act (action_AssembleRequestReceived id)] [To State_Assembling []] false] o3 = out ->
  out.1 = o3 \/
  matchesHandler event (MkEventHandler v [Act (action_AssembleRequestReceived id)] [To State_Assembling []] false) o3 = Ok true /\
  accepted id e (currentState (ot_stateMachine t)) out.
Proof.
  intros event Ht H1 H2 H3 H4 Hout.
  set (h := MkEventHandler v _ _ false) in *.
  destruct (matchesHandler event h o3) as [[|]|x|c] eqn:Em.
  2-4: left; cbn [processMatchAll] in Hout; unfold mbind at 1, M_bind at 1, liftR in Hout; rewrite Em in Hout; by subst out.
  right. split; [done|].
  set (o4 := setOTx id (recorded e) o3).
  assert (Ht4 : o_transactionsByID o4 !! id = Some (recorded e t)) by (subst o4; by rewrite lookup_setOTx, Ht).
  destruct (run_toAssembling id e o4 (recorded e t) Ht4 eq_refl H1 H2) as (o5 & t5 & Ho5 & Ht5 & Hr5 & Hs5 & Hj5).
  rewrite (matchAll_takes _ _ _ event h [] o3 o4 (To State_Assembling []) Em) in Hout; [|reflexivity|reflexivity].
  fold event in Ho5. rewrite Ho5 in Hout. subst out. split; [done|]. exists t5. split_and!; [done..|].
  unfold underWay. by destruct (currentState (ot_stateMachine t)).
Qed.

(** The last handler of [State_Assembling]: the request is recorded and a new assembly started. *)
Lemma run_restarting e o3 t out :
  let event := AssembleRequestReceivedEvent e in
  o_transactionsByID o3 !! id = Some t -> currentState (ot_stateMachine t) = State_Assembling ->
  matchAll event [On [Act (action_AssembleRequestReceived id); Act (action_Assemble id)] []] o3 = out ->
  accepted id e State_Assembling out.
Proof.
  intros event Ht Hs Hout. set (o4 := setOTx id (recorded e) o3).
  assert (Ht4 : o_transactionsByID o4 !! id = Some (recorded e t)) by (subst o4; by rewrite lookup_setOTx, Ht).
  destruct (run_Assemble id event o4 _ (requestOf e) Ht4 eq_refl) as (o5 & t5 & Ho5 & Ht5 & Hr5 & Hm5 & Hj5).
  rewrite (matchAll_acts _ _ _ event _ [] o3 o5) in Hout; [|done| |done|done].
  2:{ cbn [eh_Actions On]. rewrite (exec_act _ _ _ _ o4) by done. by rewrite (exec_act _ _ _ _ _ Ho5). }
  subst out. split; [done|]. exists t5. split_and!; [done..|]. split; [|done]. rewrite Hm5. done.
Qed.

(** The last handler of [State_Parked] and [State_Reverted]: the request is only recorded. *)
Lemma run_recording e o3 t out :
  let event := AssembleRequestReceivedEvent e in
  o_transactionsByID o3 !! id = Some t ->
  (currentState (ot_stateMachine t) = State_Parked \/ currentState (ot_stateMachine t) = State_Reverted) ->
  matchAll event [OnValid (assembleAcceptable id) [Act (action_AssembleRequestReceived id)] []] o3 = out ->
  out.1 = o3 \/ assembleAcceptable id event o3 = Ok true /\ accepted id e (currentState (ot_stateMachine t)) out.
Proof.
  intros event Ht Hs Hout. set (h := OnValid (assembleAcceptable id) _ _) in *.
  change (assembleAcceptable id event o3) with (matchesHandler event h o3).
  destruct (matchesHandler event h o3) as [[|]|x|c] eqn:Em.
  2-4: left; cbn [processMatchAll] in Hout; unfold mbind at 1, M_bind at 1, liftR in Hout; rewrite Em in Hout; by subst out.
  right. split; [done|]. set (o4 := setOTx id (recorded e) o3).
  rewrite (matchAll_acts _ _ _ event h [] o3 o4 Em) in Hout; [|done|done|done].
  subst out. split; [done|]. exists (recorded e t). split_and!; [by subst o4; simpl; rewrite lookup_alter_eq, Ht|done|].
  unfold underWay. destruct Hs as [Hs|Hs]; rewrite Hs; exact Hs.
Qed.

(** Handling goes through the set of the state the transaction is in. *)
Lemma otxHandle_matchAll event t o hs :
  o_transactionsByID o !! id = Some t -> id ∉ o_heldLocks o ->
  (match otxStateDefinitionsMap id (currentState (ot_stateMachine t)) with
   | Some d => Events d (OriginatorTransactionType_of event)
   | None => None
   end) = All hs ->
  let out := originatorTransactionHandleEvent id event o in
  exists o2, matchAll event hs (o <| o_heldLocks ::= union {[id]} |>) = (o2, out.2) /\ out.1 = unlockOTx id o2.
Proof.
  intros Ht Hid Hhs. cbv zeta. rewrite otxHandle_unlocked by done. set (o1 := o <| o_heldLocks ::= union {[id]} |>).
  assert (Hd : dispatchEvent (otxEntity id) (otxStateDefinitionsMap id) (Some (otxTransitionCallback id)) event o1 = matchAll event hs o1).
  { unfold dispatchEvent, gets. unfold mbind at 1, M_bind at 1. rewrite (otx_state_at id o1 t Ht).
    destruct (otxStateDefinitionsMap id _) as [d|]; [|done]. cbn [ent_type otxEntity]. by rewrite Hhs. }
  rewrite Hd. destruct (matchAll event hs o1) as [o2 r]. by exists o2.
Qed.

(** Where requests are not expected, nothing happens. *)
Lemma otxHandle_unexpected event t o :
  o_transactionsByID o !! id = Some t ->
  (match otxStateDefinitionsMap id (currentState (ot_stateMachine t)) with
   | Some d => Events d (OriginatorTransactionType_of event)
   | None => None
   end) = None ->
  o_transactionsByID (originatorTransactionHandleEvent id event o).1 = o_transactionsByID o.
Proof.
  intros Ht He. destruct (decide (id ∈ o_heldLocks o)) as [Hid|Hid]; [by rewrite otxHandle_locked|].
  rewrite otxHandle_unlocked by done. set (o1 := o <| o_heldLocks ::= union {[id]} |>).
  unfold dispatchEvent, gets. unfold mbind at 1, M_bind at 1. rewrite (otx_state_at id o1 t Ht).
  destruct (otxStateDefinitionsMap id _) as [d|]; [|done]. cbn [ent_type otxEntity]. by rewrite He.
Qed.

Lemma accepted_unlock e s o2 r : accepted id e s (o2, r) -> accepted id e s (unlockOTx id o2, r).
Proof. intros [Hr (t' & Ht & Hq & Hu)]. split; [done|]. exists t'. split_and!; [done..|]. by destruct s. Qed.

(** The request of the theorem below, at a memory that is ready for it. *)
Lemma acceptable_ready e t o o3 :
  readyFor o o3 -> acceptable (o_currentBlockHeight o3) t e -> acceptable (o_liveBlockHeight o) t e.
Proof. by intros [_ ->]. Qed.

Lemma declined_acceptable e t o :
  o_transactionsByID o !! id = Some t ->
  (forall h', h' ∈ ThenStop <$> assembleRefusals id -> exists o0, readyFor o o0 /\ matchesHandler (AssembleRequestReceivedEvent e) h' o0 = Ok false) ->
  acceptable (o_liveBlockHeight o) t e.
Proof.
  intros Ht Hall.
  set (o3 := o <| o_currentBlockHeight := o_liveBlockHeight o |>).
  apply (refusals_declined_inv id e t o3 Ht). intros h Hh.
  destruct (Hall (ThenStop h)) as (o0 & [Hb Hc] & Hm); [by apply list_elem_of_fmap_2|]. rewrite <- Hm.
  unfold assembleRefusals in Hh. split_members; cbn [matchesHandler ThenStop OnValid eh_Validator];
    unfold matchesHandler; cbn [ThenStop OnValid eh_Validator];
    unfold ValidatorNot, validator_AssembleRequestFromCurrentDelegate, validOTx, validator_AssembleBlockHeightToleranceExceeded,
      validator_IsPrivateStateDataPendingForAssembly; rewrite ?Hb, ?Hc; done.
Qed.

(** What a set of handlers makes of a request. *)
Definition gates (e : AssembleRequestReceived) (hs : list OTxEventHandler) (s : OriginatorTransactionState) : Prop :=
  forall t o1, o_transactionsByID o1 !! id = Some t -> currentState (ot_stateMachine t) = s ->
  let out := matchAll (AssembleRequestReceivedEvent e) hs o1 in
  o_transactionsByID out.1 = o_transactionsByID o1 \/ acceptable (o_liveBlockHeight o1) t e /\ accepted id e s out.

(** A transaction that is not parked, reverted, assembling or resolving. *)
Definition mayAssemble (s : OriginatorTransactionState) : Prop :=
  s <> State_Assembling /\ s <> State_Resolving /\ s <> State_Parked /\ s <> State_Reverted.

Lemma gates_requested e s :
  mayAssemble s ->
  gates e (refreshed :: assembleRefusals id ++
           [OnValid (assembleAcceptable id) [Act (action_AssembleRequestReceived id)] [To State_Assembling []]]) s.
Proof.
  intros (? & ? & ? & ?) t o1 Ht <- out.
  destruct (matchAll_refreshing (AssembleRequestReceivedEvent e) [] (assembleRefusals id) _ o1 out (Forall_nil_2 _)
    (sends_refusals _) eq_refl) as [Hs|(o3 & Hr & Hout & _)]; [by left|].
  assert (Ht3 : o_transactionsByID o3 !! id = Some t) by (by rewrite (proj1 Hr)).
  destruct (run_accepting e _ o3 t out Ht3 ltac:(done) ltac:(done) ltac:(done) ltac:(done) Hout) as [->|[Hm Ha]]; [left; apply Hr|right].
  split; [|done]. apply (acceptable_ready e t o1 o3 Hr). by apply (assembleAcceptable_inv id).
Qed.

Lemma gates_reassemble e s :
  mayAssemble s ->
  gates e (assembleRepeated id (action_ResendAssembleSuccessResponse id) :: refreshed :: (ThenStop <$> assembleRefusals id) ++
           [On [Act (action_AssembleRequestReceived id)] [To State_Assembling []]]) s.
Proof.
  intros (? & ? & ? & ?) t o1 Ht <- out.
  destruct (matchAll_refreshing (AssembleRequestReceivedEvent e) [assembleRepeated id (action_ResendAssembleSuccessResponse id)]
    (ThenStop <$> assembleRefusals id) _ o1 out (sends_repeated _ _ (fun _ => respects_sendAssembleResponse))
    (sends_stop _ _ (sends_refusals _)) eq_refl) as [Hs|(o3 & Hr & Hout & Hd)]; [by left|].
  assert (Ht3 : o_transactionsByID o3 !! id = Some t) by (by rewrite (proj1 Hr)).
  destruct (run_accepting e _ o3 t out Ht3 ltac:(done) ltac:(done) ltac:(done) ltac:(done) Hout) as [->|[Hm Ha]]; [left; apply Hr|right].
  split; [|done]. apply declined_acceptable; [done|]. intros h' Hh'. apply Hd; [done|].
  by apply list_elem_of_fmap in Hh' as (h & -> & _).
Qed.

Lemma gates_assembling e :
  gates e (assembleRepeated id (action_ResendAssembleSuccessResponse id) :: refreshed :: (ThenStop <$> assembleRefusals id) ++
           [ThenStop (OnValid (validator_AssembleRequestMatchesInProgressAssembly id) [] []);
            On [Act (action_AssembleRequestReceived id); Act (action_Assemble id)] []]) State_Assembling.
Proof.
  intros t o1 Ht Hs out.
  assert (Hmid : Forall (sends (AssembleRequestReceivedEvent e)) ((ThenStop <$> assembleRefusals id) ++
            [ThenStop (OnValid (validator_AssembleRequestMatchesInProgressAssembly id) [] [])])).
  { apply Forall_app_2; [apply sends_stop, sends_refusals|]. apply Forall_singleton. split; [done|]. by intros rule ?%not_elem_of_nil. }
  destruct (matchAll_refreshing (AssembleRequestReceivedEvent e) [assembleRepeated id (action_ResendAssembleSuccessResponse id)] _ 
    (On [Act (action_AssembleRequestReceived id); Act (action_Assemble id)] []) o1 out
    (sends_repeated _ _ (fun _ => respects_sendAssembleResponse)) Hmid) as [Hb|(o3 & Hr & Hout & Hd)].
  - subst out. by rewrite <- app_assoc.
  - by left.
  - right. split; [|by apply (run_restarting e o3 t); [rewrite (proj1 Hr)| |]]. apply declined_acceptable; [done|].
    intros h' Hh'. apply Hd; [by apply elem_of_app; left|]. by apply list_elem_of_fmap in Hh' as (h & -> & _).
Qed.

Lemma gates_recorded e s resend :
  (forall ev, respects sentOnly (resend ev)) -> s = State_Parked \/ s = State_Reverted ->
  gates e (assembleRepeated id resend :: refreshed :: assembleRefusals id ++
           [OnValid (assembleAcceptable id) [Act (action_AssembleRequestReceived id)] []]) s.
Proof.
  intros Hres Hs t o1 Ht Es out.
  destruct (matchAll_refreshing (AssembleRequestReceivedEvent e) [assembleRepeated id resend] (assembleRefusals id) _ o1 out
    (sends_repeated _ _ Hres) (sends_refusals _) eq_refl) as [Hb|(o3 & Hr & Hout & _)]; [by left|].
  assert (Ht3 : o_transactionsByID o3 !! id = Some t) by (by rewrite (proj1 Hr)).
  rewrite <- Es in Hs |- *. destruct (run_recording e o3 t out Ht3 Hs Hout) as [->|[Hm Ha]]; [left; apply Hr|right].
  split; [|done]. apply (acceptable_ready e t o1 o3 Hr). by apply (assembleAcceptable_inv id).
Qed.

(** Every state that has handlers for the request gates it. *)
Lemma state_gates e s :
  match Events (default otxStateFinal (otxStateDefinitionsMap id s)) Event_AssembleRequestReceived with
  | Some hs => ehs_Match hs = MatchAll /\ gates e (ehs_Handlers hs) s
  | None => True
  end.
Proof.
  assert (HR : forall ev, respects sentOnly (action_ResendAssembleRevertResponse id ev)) by (intros ev; apply respects_sendAssembleResponse).
  assert (HP : forall ev, respects sentOnly (action_ResendAssembleParkResponse id ev)) by (intros ev; apply respects_sendAssembleResponse).
  destruct s; cbn; try done; split; try done;
    first [apply gates_requested; by split_and! | apply gates_reassemble; by split_and! | apply gates_assembling
      | apply gates_recorded; [done|by auto]].
Qed.
End Gate.

Section Theorems.
Context `{OrigEnv}.

(** (C22) An assemble request either leaves every transaction of the originator as it was, or it came
    from the node the transaction is delegated to, was within the coordinator's block height tolerance
    of the height this node has now, and no private data was missing up to the coordinator's low
    watermark. In that case the request is recorded without error; and unless the transaction is parked
    or reverted, it is then assembling, and an assembly for this request is running, is not cancelled,
    and is the one a later request would cancel. Assemblies of earlier requests may still be running
    beside it. *)
Theorem assemble_request_gated id e t o o' r :
  o_transactionsByID o !! id = Some t -> id ∉ o_heldLocks o ->
  originatorTransactionHandleEvent id (AssembleRequestReceivedEvent e) o = (o', r) ->
  o_transactionsByID o' = o_transactionsByID o \/
  acceptable (o_liveBlockHeight o) t e /\ accepted id e (currentState (ot_stateMachine t)) (o', r).
Proof.
  intros Ht Hid Ho. set (s := currentState (ot_stateMachine t)).
  pose proof (state_gates id e s) as Hg.
  destruct (Events (default otxStateFinal (otxStateDefinitionsMap id s)) Event_AssembleRequestReceived) as [hs|] eqn:Ehs.
  - destruct Hg as [Hm Hg]. destruct (otxHandle_matchAll id (AssembleRequestReceivedEvent e) t o (ehs_Handlers hs) Ht Hid) as (o2 & Hd & Hu).
    { fold s. destruct hs as [m l]. simpl in *. subst m. by destruct s. }
    rewrite Ho in Hd, Hu. cbn [fst snd] in Hd, Hu. subst o'. set (o1 := o <| o_heldLocks ::= union {[id]} |>) in Hd.
    specialize (Hg t o1 Ht eq_refl). cbv zeta in Hg. rewrite Hd in Hg.
    destruct Hg as [Hb|[Ha Hacc]]; [left; exact Hb|right]. split; [exact Ha|]. by apply accepted_unlock.
  - left. pose proof (otxHandle_unexpected id (AssembleRequestReceivedEvent e) t o Ht) as Hu. rewrite Ho in Hu. apply Hu.
    fold s. by destruct s.
Qed.

(** The handlers of a state whose set is [MatchFirst] with one handler. *)
Lemma otxHandle_first id event t o h :
  o_transactionsByID o !! id = Some t -> id ∉ o_heldLocks o ->
  (match otxStateDefinitionsMap id (currentState (ot_stateMachine t)) with
   | Some d => Events d (OriginatorTransactionType_of event)
   | None => None
   end) = First [h] ->
  let o1 := o <| o_heldLocks ::= union {[id]} |> in
  originatorTransactionHandleEvent id event o
  = let '(o2, r) := processMatchFirst (otxEntity id) (otxStateDefinitionsMap id) (Some (otxTransitionCallback id)) event [h] o1 in
    (unlockOTx id o2, r).
Proof.
  intros Ht Hid Hh o1. rewrite otxHandle_unlocked by done. fold o1.
  assert (Hd : dispatchEvent (otxEntity id) (otxStateDefinitionsMap id) (Some (otxTransitionCallback id)) event o1
    = processMatchFirst (otxEntity id) (otxStateDefinitionsMap id) (Some (otxTransitionCallback id)) event [h] o1).
  { unfold dispatchEvent, gets. unfold mbind at 1, M_bind at 1. rewrite (otx_state_at id o1 t Ht).
    destruct (otxStateDefinitionsMap id _) as [d|]; [|done]. cbn [ent_type otxEntity]. by rewrite Hh. }
  by rewrite Hd.
Qed.

Lemma matchFirst_single_inv id event h o o' r :
  processMatchFirst (otxEntity id) (otxStateDefinitionsMap id) (Some (otxTransitionCallback id)) event [h] o = (o', r) ->
  o' = o \/ matchesHandler event h o = Ok true.
Proof.
  cbn [processMatchFirst]. unfold mbind at 1, M_bind at 1, liftR.
  destruct (matchesHandler event h o) as [[|]|x|c]; [by right|by intros [= <-]; left..].
Qed.

(** (C23) A transaction becomes prepared only on a pre-dispatch request of the coordinator it is
    delegated to, while it gathers endorsements, and only if the hash in the request is the digest of
    the signatures in the assembly this node holds. *)
Theorem prepared_gated id event t t' o o' r :
  o_transactionsByID o !! id = Some t -> id ∉ o_heldLocks o ->
  originatorTransactionHandleEvent id event o = (o', r) ->
  o_transactionsByID o' !! id = Some t' -> currentState (ot_stateMachine t) <> State_Prepared ->
  currentState (ot_stateMachine t') = State_Prepared ->
  exists e pa, event = PreDispatchRequestReceivedEvent e /\ currentState (ot_stateMachine t) = State_Endorsement_Gathering /\
    pdrr_Coordinator e = ot_currentDelegate t /\ pt_PostAssembly (ot_pt t) = Some pa /\
    pdrr_PostAssemblyHash e
    = Some (oenv_keccak256 (String.concat EmptyString (at_Payload <$> pp_Signatures (pa_AssembleResponse pa)))).
Proof.
  intros Ht Hid Ho Ht' Hs Hs'. destruct (otxHandle_own id event t o Ht) as (t2 & Ht2 & _ & Hedge).
  rewrite Ho in Ht2. cbn [fst] in Ht2. rewrite Ht' in Ht2. injection Ht2 as <-. rewrite Hs' in Hedge.
  destruct Hedge as [He|He]; [congruence|].
  assert (Hse : currentState (ot_stateMachine t) = State_Endorsement_Gathering /\ exists e, event = PreDispatchRequestReceivedEvent e).
  { destruct (currentState (ot_stateMachine t)), event; cbn in He; repeat (apply elem_of_cons in He as [?|He]; [discriminate|]);
      try (by apply not_elem_of_nil in He); split; eauto. }
  destruct Hse as [Hg [e ->]].
  rewrite (otxHandle_first id (PreDispatchRequestReceivedEvent e) t o
    (OnValid (validator_PreDispatchRequestFromCurrentDelegate id) [Act (action_PreDispatchRequestReceived id)]
       [To State_Prepared [Act (action_SendPreDispatchResponse id)]]) Ht Hid) in Ho by (by rewrite Hg).
  cbv zeta in Ho. set (o1 := o <| o_heldLocks ::= union {[id]} |>) in *.
  destruct (processMatchFirst _ _ _ _ _ o1) as [o2 r2] eqn:E2. injection Ho as <- <-.
  apply matchFirst_single_inv in E2 as [->|Hm].
  { exfalso. simpl in Ht'. rewrite Ht in Ht'. injection Ht' as <-. congruence. }
  unfold matchesHandler, OnValid, eh_Validator, validator_PreDispatchRequestFromCurrentDelegate, validOTx in Hm.
  simpl in Hm. rewrite Ht in Hm. destruct (String.eqb_spec (pdrr_Coordinator e) (ot_currentDelegate t)) as [Hc|]; [|discriminate].
  unfold hashInternal in Hm. destruct (pt_PostAssembly (ot_pt t)) as [pa|]; [|discriminate].
  destruct (pdrr_PostAssemblyHash e) as [h|] eqn:Eh; [|discriminate]. injection Hm as Hm.
  exists e, pa. apply String.eqb_eq in Hm as <-. by split_and!.
Qed.

(** The result of an assembly that is not the one asked for last is dropped. *)
Theorem stale_success_ignored id pa request t o :
  o_transactionsByID o !! id = Some t -> id ∉ o_heldLocks o -> currentState (ot_stateMachine t) = State_Assembling ->
  (forall r, ot_latestAssembleRequest t = Some r -> rq_requestID r <> request) ->
  originatorTransactionHandleEvent id (AssembleSuccessEvent pa request) o = (o, Ok tt).
Proof.
  intros Ht Hid Hs Hr. rewrite otxHandle_unlocked by done. set (o1 := o <| o_heldLocks ::= union {[id]} |>).
  rewrite (dispatch_declined _ _ _ _ _ (otxStateAssembling id)).
  - f_equal. unfold unlockOTx. subst o1. destruct o. unfold field_set. simpl in *. f_equal. set_solver.
  - by rewrite (otx_state_at id o1 t Ht), Hs.
  - cbn [ent_type otxEntity OriginatorTransactionType_of otxStateAssembling Events First ehs_Handlers forallb].
    unfold matchesHandler, OnValid, eh_Validator, validator_AssembleSuccessMatchesCurrentRequest, validOTx.
    subst o1. simpl. rewrite Ht. destruct (ot_latestAssembleRequest t) as [req|]; [|done].
    specialize (Hr req eq_refl). by apply N.eqb_neq in Hr as ->.
Qed.
End Theorems.

(** ** A failed assembly and a request sent again *)

(** The coordinator asked for the assembly of transaction 7 in request 100, the assembly failed, and
    the coordinator, which has not seen the error, sends the request again. *)
Definition askedAgain : Originator :=
  let asked := deliverO (assembleRequest "node1" 7 100) (delegatedOrig [7%N]) in
  let failed := drainOrigInternal 20 (handleAssemble 1 false None asked) in
  deliverO (assembleRequest "node1" 7 100) failed.

(** The same after an earlier assembly, of request 99, had succeeded. *)
Definition askedAgainAfter (earlier : PostAssemblyProto) : Originator :=
  let asked := deliverO (assembleRequest "node1" 7 99) (delegatedOrig [7%N]) in
  let assembled := drainOrigInternal 20 (handleAssemble 1 false (Some earlier) asked) in
  let reasked := deliverO (assembleRequest "node1" 7 100) assembled in
  let failed := drainOrigInternal 20 (handleAssemble 2 false None reasked) in
  deliverO (assembleRequest "node1" 7 100) failed.

(** An assembly error is remembered as a fulfilled request.  When the coordinator repeats the
    request, the originator assembles again; when it repeats it once more while that assembly runs, the
    originator takes it for a request it has answered: with no assembly to send it panics, and after an
    earlier successful assembly it sends that one, under the id of the request it failed. *)
Theorem repeat_after_error_misanswered :
  otxState 7%N askedAgain = State_Assembling /\
  (originatorProcessEvent (assembleRequest "node1" 7 100) askedAgain).2 = Crash Panic /\
  forall reason,
  let earlier := MkPostAssemblyProto AssembleTransactionResponse_OK reason [] [] [] [] [] [] [] None None [] in
  otxState 7%N (askedAgainAfter earlier) = State_Assembling /\
  last (o_outbox (originatorProcessEvent (assembleRequest "node1" 7 100) (askedAgainAfter earlier)).1)
  = Some (SendAssembleResponse "node1" 7%N 100%N "0xc0ffee" earlier).
Proof. split_and!; [vm_compute; reflexivity..|]. intros reason. split; vm_compute; reflexivity. Qed.

(** ** Witnesses *)

Lemma assemble_request_gated_witness :
  acceptable 0 (default (newOriginatorTransaction (samplePrivateTx 7%N) None 0) (o_transactionsByID (delegatedOrig [7%N]) !! 7%N))
    (MkAssembleRequestReceived 100%N "node1" 0 5 None) /\
  otxState 7%N (originatorTransactionHandleEvent 7%N (AssembleRequestReceivedEvent (MkAssembleRequestReceived 100%N "node1" 0 5 None))
                  (delegatedOrig [7%N])).1 = State_Assembling.
Proof.
  split; [|vm_compute; reflexivity].
  destruct (o_transactionsByID (delegatedOrig [7%N]) !! 7%N) as [t|] eqn:Ht; [|vm_compute in Ht; discriminate Ht].
  destruct (originatorTransactionHandleEvent 7%N (AssembleRequestReceivedEvent (MkAssembleRequestReceived 100%N "node1" 0 5 None))
    (delegatedOrig [7%N])) as [o' r] eqn:Ho.
  destruct (assemble_request_gated 7%N (MkAssembleRequestReceived 100%N "node1" 0 5 None) t (delegatedOrig [7%N]) o' r Ht) as [Hb|[Ha _]].
  - vm_compute. intros Hin. exact (not_elem_of_empty (C := gset N) 7%N Hin).
  - exact Ho.
  - exfalso. assert (Hne : otxState 7%N o' = otxState 7%N (delegatedOrig [7%N])).
    { unfold otxState, otxMachineOf. by rewrite Hb. }
    assert (Hne' : otxState 7%N o' = State_Assembling) by (change o' with (o', r).1; rewrite <- Ho; vm_compute; reflexivity).
    rewrite Hne' in Hne. vm_compute in Hne. discriminate Hne.
  - exact Ha.
Defined.

(** A transaction that was assembled and needs no signature. *)
Definition gatheringOrig : Originator :=
  drainOrigInternal 20 (handleAssemble 1 false
    (Some (MkPostAssemblyProto AssembleTransactionResponse_OK EmptyString [] [] [] [] [] [] [] None None []))
    (deliverO (assembleRequest "node1" 7 100) (delegatedOrig [7%N]))).

Definition samplePreDispatch : PreDispatchRequestReceived := MkPreDispatchRequestReceived 200%N "node1" (Some "keccak256-of-").

(** The lock of transaction 7 is free in a memory with no locks held. *)
Lemma unlocked_at o : o_heldLocks o = ∅ -> 7%N ∉ o_heldLocks o.
Proof. intros ->. set_solver. Qed.

Lemma prepared_gated_witness :
  otxState 7%N (originatorTransactionHandleEvent 7%N (PreDispatchRequestReceivedEvent samplePreDispatch) gatheringOrig).1 = State_Prepared /\
  pdrr_Coordinator samplePreDispatch
  = ot_currentDelegate (default (newOriginatorTransaction (samplePrivateTx 7%N) None 0) (o_transactionsByID gatheringOrig !! 7%N)).
Proof.
  split; [vm_compute; reflexivity|].
  destruct (o_transactionsByID gatheringOrig !! 7%N) as [t|] eqn:Ht; [|vm_compute in Ht; discriminate Ht].
  destruct (originatorTransactionHandleEvent 7%N (PreDispatchRequestReceivedEvent samplePreDispatch) gatheringOrig) as [o' r] eqn:Ho.
  destruct (o_transactionsByID o' !! 7%N) as [t'|] eqn:Ht'; [|change o' with (o', r).1 in Ht'; rewrite <- Ho in Ht'; vm_compute in Ht'; discriminate Ht'].
  destruct (prepared_gated 7%N (PreDispatchRequestReceivedEvent samplePreDispatch) t t' gatheringOrig o' r Ht) as (e & pa & He & _ & Hc & _).
  - apply unlocked_at. vm_compute. reflexivity.
  - exact Ho.
  - exact Ht'.
  - vm_compute in Ht. injection Ht as <-. done.
  - change o' with (o', r).1 in Ht'. rewrite <- Ho in Ht'. vm_compute in Ht'. by injection Ht' as <-.
  - injection He as <-. exact Hc.
Defined.

Definition assemblingOrig : Originator := deliverO (assembleRequest "node1" 7 100) (delegatedOrig [7%N]).

Lemma stale_success_ignored_witness :
  otxState 7%N (originatorTransactionHandleEvent 7%N (AssembleSuccessEvent (sampleAssembly []) 99%N) assemblingOrig).1 = State_Assembling.
Proof.
  destruct (o_transactionsByID assemblingOrig !! 7%N) as [t|] eqn:Ht; [|vm_compute in Ht; discriminate Ht].
  rewrite (stale_success_ignored 7%N (sampleAssembly []) 99%N t assemblingOrig Ht).
  - vm_compute. reflexivity.
  - apply unlocked_at. vm_compute. reflexivity.
  - vm_compute in Ht. injection Ht as <-. done.
  - vm_compute in Ht. injection Ht as <-. intros r Hr. vm_compute in Hr. injection Hr as <-. done.
Defined.
