(* ===== verification/OrigInvariants.v ===== *)
(** * What every event of an originator keeps

    The actions of the originator's table by what they may change, and the consistency of the
    originator's data: the two indexes of transactions agree, the failover index is one of the list,
    the originator is sending exactly while it has transactions, and the delegation loop runs exactly
    while it is sending.

    Sources: originator/state_machine.go, originating.go, delegation.go, observing.go. *)

From S2P Require Import Prelude StateMachine Identity Selection TxTypes CoordTypes TxPropagation OrigTypes OrigWorld OrigTxActions OrigTxMachine.
From S2P Require Import OrigActions OrigMachine OrigTxLifecycle.
Import Orig.
Open Scope list_scope.

Definition origState (o : Originator) : OriginatorState := currentState (o_machine o).

(** ** Steps that leave the transactions' ids, the loop and the machine alone *)

Definition keyedById (o : Originator) : Prop := forall id t, o_transactionsByID o !! id = Some t -> pt_ID (ot_pt t) = id.

(** Every transaction is still there, identified as before, and has moved along the lifecycle. *)
Definition transactionsMove (o o' : Originator) : Prop :=
  forall id t, o_transactionsByID o !! id = Some t ->
  exists t', o_transactionsByID o' !! id = Some t' /\ sameOTx t t' /\
    rtc otxLifecycle (currentState (ot_stateMachine t)) (currentState (ot_stateMachine t')).

#[export] Instance transactionsMove_preorder : PreOrder transactionsMove.
Proof.
  split; [intros o id t Ht; by exists t|]. intros o1 o2 o3 H1 H2 id t Ht.
  destruct (H1 id t Ht) as (t2 & Ht2 & ? & ?). destruct (H2 id t2 Ht2) as (t3 & Ht3 & ? & ?).
  exists t3. split_and!; [done|by etrans|by etrans].
Qed.

Record still (o o' : Originator) : Prop := MkStill {
  st_machine : o_machine o' = o_machine o;
  st_locked : o_locked o' = o_locked o;
  st_started : o_started o' = o_started o;
  st_held : o_heldLocks o' = o_heldLocks o;
  st_conf : o_conf o' = o_conf o;
  st_ordered : o_transactionsOrdered o' = o_transactionsOrdered o;
  st_dom : dom (o_transactionsByID o') = dom (o_transactionsByID o);
  st_life : transactionsMove o o';
  st_ids : keyedById o -> keyedById o';
  st_loop : is_Some (o_delegationLoop o') <-> is_Some (o_delegationLoop o);
  st_failover : failoverOk o -> failoverOk o'
}.

#[export] Instance still_preorder : PreOrder still.
Proof.
  split; [by intros o|]. intros o1 o2 o3 [] []. split; try congruence; try tauto; [by etrans|auto..].
Qed.

Lemma frame_dom moved id o o' : frameOTx moved id o o' -> dom (o_transactionsByID o') = dom (o_transactionsByID o).
Proof.
  intros Hf. apply set_eq. intros j. rewrite !elem_of_dom. destruct (decide (j = id)) as [->|Hj].
  - pose proof (fr_self _ _ _ _ Hf) as Hs.
    destruct (o_transactionsByID o !! id), (o_transactionsByID o' !! id); try done; split; intros; eauto.
  - by rewrite (fr_others _ _ _ _ Hf j Hj).
Qed.

Lemma frame_life moved id o o' :
  frameOTx moved id o o' ->
  (forall t t', o_transactionsByID o !! id = Some t -> o_transactionsByID o' !! id = Some t' ->
     rtc otxLifecycle (currentState (ot_stateMachine t)) (currentState (ot_stateMachine t'))) -> transactionsMove o o'.
Proof.
  intros Hf Hl j t Ht. destruct (decide (j = id)) as [->|Hj].
  - pose proof (fr_self _ _ _ _ Hf) as Hs. rewrite Ht in Hs. destruct (o_transactionsByID o' !! id) as [t'|] eqn:E; [|done].
    exists t'. split_and!; [done|apply Hs|by apply Hl].
  - exists t. split_and!; [by rewrite (fr_others _ _ _ _ Hf j Hj)|done..].
Qed.

Lemma frame_still_moved id o o' : frameOTx true id o o' -> transactionsMove o o' -> still o o'.
Proof.
  intros Hf Hl. split; try apply Hf; [by eapply frame_dom|done| |by rewrite (fr_loop _ _ _ _ Hf)].
  intros Hk j t Ht. destruct (decide (j = id)) as [->|Hj].
  - pose proof (fr_self _ _ _ _ Hf) as Hs. rewrite Ht in Hs. destruct (o_transactionsByID o !! id) as [t0|] eqn:E; [|done].
    destruct Hs as [[Hid _] _]. rewrite Hid. by apply Hk.
  - rewrite (fr_others _ _ _ _ Hf j Hj) in Ht. by apply Hk.
Qed.

Lemma frame_still id o o' : frameOTx false id o o' -> still o o'.
Proof.
  intros Hf. apply (frame_still_moved id); [by apply frameOTx_moved|]. eapply frame_life; [exact Hf|].
  intros t t' Ht Ht'. pose proof (fr_self _ _ _ _ Hf) as Hs. rewrite Ht, Ht' in Hs. destruct Hs as [_ Hm]. by rewrite Hm.
Qed.

(** Changes of the originator's own fields only. *)
Lemma still_fields o o' :
  o_machine o' = o_machine o -> o_locked o' = o_locked o -> o_started o' = o_started o -> o_heldLocks o' = o_heldLocks o ->
  o_conf o' = o_conf o -> o_transactionsOrdered o' = o_transactionsOrdered o -> o_transactionsByID o' = o_transactionsByID o ->
  (is_Some (o_delegationLoop o') <-> is_Some (o_delegationLoop o)) -> (failoverOk o -> failoverOk o') -> still o o'.
Proof. intros ?????? Ht ??. split; try done; [by rewrite Ht|intros id t; rewrite Ht; by exists t|]. unfold keyedById. by rewrite Ht. Qed.

Lemma still_reset o : still o (resetFailoverIndex o).
Proof.
  destruct (resetFailoverIndex_eq o) as [i Hi]. pose proof (resetFailoverIndex_ok o) as Hok. rewrite Hi in *.
  by apply still_fields.
Qed.

Section Actions.
Context `{OrigEnv}.

Lemma still_otxHandle id event : respects still (originatorTransactionHandleEvent id event).
Proof.
  intros o. pose proof (otxHandle_frame id event o) as Hf. apply (frame_still_moved id); [done|]. eapply frame_life; [exact Hf|].
  intros t t' Ht Ht'. destruct (otxHandle_own id event t o Ht) as (t2 & Ht2 & _ & Hs). rewrite Ht' in Ht2. injection Ht2 as <-.
  destruct Hs as [->|Hs]; [done|]. apply rtc_once. by exists (OTx.OriginatorTransactionType_of event).
Qed.

Lemma respects_internalError (R : relation Originator) detail m : respects R m -> respects R (internalError detail m).
Proof. intros Hm o. specialize (Hm o). unfold internalError. by destruct (m o) as [o' []]. Qed.

Lemma still_notifyIfKnown id detail event : respects still (notifyIfKnown id detail event).
Proof.
  intros o. unfold notifyIfKnown. destruct (_ !! _); [|done]. apply respects_internalError, still_otxHandle.
Qed.

Lemma still_delegateOrdered full c l : respects still (delegateOrdered full c l).
Proof.
  induction l as [|id l IH]; simpl; [apply respects_ret, _|].
  apply respects_bind; [apply _|apply respects_gets, _|intros s]. case_match; [apply respects_ret, _|].
  case_match; [done|]. apply respects_bind; [apply _|apply respects_internalError, still_otxHandle|intros _].
  apply respects_bind; [apply _|done|intros ?; apply respects_ret, _].
Qed.

Lemma still_refresh : respects still refreshOriginatorBlockHeight.
Proof. intros o. eapply (frame_still 0%N), refreshOriginatorBlockHeight_frame. Qed.

Lemma still_sendO msg : respects still (sendO msg).
Proof. intros o. eapply (frame_still 0%N), respects_sendO. Qed.

Lemma still_calculate : respects still calculateOriginatorPriorities.
Proof. intros o. eapply (frame_still 0%N), calculateOriginatorPriorities_frame. Qed.

Lemma still_queue e : respects still (queueEventForOriginator e).
Proof. intros o. by apply still_fields. Qed.

Lemma still_requestPartial : respects still requestPartialDelegation.
Proof. apply respects_modify. intros o. apply still_fields; try done. simpl. by rewrite fmap_is_Some. Qed.

Lemma still_requestFull : respects still requestFullDelegation.
Proof. apply respects_modify. intros o. apply still_fields; try done. simpl. by rewrite fmap_is_Some. Qed.

Lemma still_sendDelegationRequest full : respects still (sendDelegationRequest full).
Proof.
  unfold sendDelegationRequest. apply respects_bind; [apply _|apply respects_gets, _|intros c].
  apply respects_bind; [apply _|apply respects_gets, _|intros l].
  apply respects_bind; [apply _|apply still_delegateOrdered|intros ids]. case_match; [apply respects_ret, _|].
  do 3 (apply respects_bind; [apply _|apply respects_gets, _|intros ?]). apply still_sendO.
Qed.

(** A new list and the index reset for it. *)
Lemma still_switch c o : still o (resetFailoverIndex (o <| o_currentActiveCoordinator := c |>)).
Proof. etrans; [|apply still_reset]. by apply still_fields. Qed.

Lemma still_failover : respects still (action_FailoverToNextCoordinator (HeartbeatIntervalEvent)).
Proof.
  intros o. unfold action_FailoverToNextCoordinator, gets. unfold mbind at 1, M_bind at 1.
  unfold mbind at 1, M_bind at 1. destruct (1 <? length (o_coordinatorPriorityList o))%nat eqn:El.
  - unfold mbind at 1, M_bind at 1. destruct (o_coordinatorPriorityList o !! o_failoverIndex o) as [next|] eqn:En; [|done].
    cbn. apply still_fields; try done; [simpl; by rewrite fmap_is_Some|].
    intros _. unfold failoverOk. simpl. intros _. apply Nat.mod_upper_bound. apply Nat.ltb_lt in El. lia.
  - cbn. apply (still_requestFull o).
Qed.

(** Every action of the table but four. *)
Definition mildOActions : list OAction :=
  [action_CalculateCoordinatorPriorities; action_ResetToTopPriorityCoordinator; action_UpdateEndorserCandidatesFromHeartbeat;
   action_UpdateActiveCoordinatorFromHeartbeat; action_ResetHeartbeatIntervalsSinceLastReceive; action_RefreshBlockHeight;
   action_UpdateEndorserCandidates; action_FinalizeTransaction; action_IncrementHeartbeatIntervalCounts;
   action_NotifyFullDelegation; action_NotifyPartialDelegation; action_SendDelegation; action_ProcessConfirmedTransactions;
   action_ProcessRevertedTransactions; action_SwitchActiveCoordinator; action_ProcessCurrentCoordinatorHeartbeat;
   action_FailoverToNextCoordinator; action_LogDelegationBlockHeightRejection; action_HandleDelegationRejected].

Lemma still_withSnapshot (f : string -> CoordinatorSnapshot -> M Originator unit) event :
  (forall from s, respects still (f from s)) -> respects still (withSnapshot f event).
Proof. intros Hf. unfold withSnapshot. repeat case_match; try (apply respects_crash; apply _). apply Hf. Qed.

(** The index is reset for whatever list there is. *)
Lemma still_reindexed o o1 :
  o_machine o1 = o_machine o -> o_locked o1 = o_locked o -> o_started o1 = o_started o -> o_heldLocks o1 = o_heldLocks o ->
  o_conf o1 = o_conf o -> o_transactionsOrdered o1 = o_transactionsOrdered o -> o_transactionsByID o1 = o_transactionsByID o ->
  o_delegationLoop o1 = o_delegationLoop o -> still o (resetFailoverIndex o1).
Proof.
  intros ??????? Hl. destruct (resetFailoverIndex_eq o1) as [i Hi]. pose proof (resetFailoverIndex_ok o1) as Hok. rewrite Hi in *.
  apply still_fields; try done. simpl. by rewrite Hl.
Qed.

Lemma still_updateCandidates event : respects still (action_UpdateEndorserCandidatesFromHeartbeat event).
Proof.
  intros o. unfold action_UpdateEndorserCandidatesFromHeartbeat. destruct (o_endorserCandidates o) as [|n l]; [done|].
  destruct event; try done. case_match; [done|]. by apply still_reindexed.
Qed.

Lemma still_top : forall o, still o (action_ResetToTopPriorityCoordinator HeartbeatIntervalEvent o).1.
Proof.
  intros o. cbn. destruct (o_coordinatorPriorityList o) as [|a [|b l]] eqn:E; [done..|].
  apply still_fields; try done. intros _. unfold failoverOk. simpl. rewrite E. simpl. lia.
Qed.

Lemma mildOActions_still action event : action ∈ mildOActions -> respects still (action event).
Proof.
  intros Hin. unfold mildOActions in Hin. split_members.
  - apply still_calculate.
  - exact still_top.
  - apply still_updateCandidates.
  - unfold action_UpdateActiveCoordinatorFromHeartbeat. case_match; try (apply respects_crash; apply _).
    apply respects_modify. intros o. by apply still_reindexed.
  - apply respects_modify. intros o. by apply still_fields.
  - apply still_refresh.
  - unfold action_UpdateEndorserCandidates. case_match; try (apply respects_crash; apply _).
    apply respects_modify. intros o. by apply still_fields.
  - unfold action_FinalizeTransaction. case_match; try (apply respects_crash; apply _). apply still_queue.
  - apply respects_modify. intros o. by apply still_fields.
  - apply still_requestFull.
  - apply still_requestPartial.
  - unfold action_SendDelegation. case_match; try (apply respects_crash; apply _).
    apply respects_bind; [apply _|apply still_refresh|intros _; apply still_sendDelegationRequest].
  - apply still_withSnapshot. intros _ s. apply respects_for_each; [apply _|]. intros x _. apply still_notifyIfKnown.
  - apply still_withSnapshot. intros _ s. apply respects_for_each; [apply _|]. intros x _. apply still_notifyIfKnown.
  - unfold action_SwitchActiveCoordinator. case_match; try (apply respects_crash; apply _).
    apply respects_bind; [apply _|apply respects_modify; intros o; by apply still_reindexed|intros _].
    apply respects_bind; [apply _|apply respects_modify; intros o; by apply still_fields|intros _; apply still_requestFull].
  - unfold action_ProcessCurrentCoordinatorHeartbeat. apply respects_bind; [apply _|apply respects_modify; intros o; by apply still_fields|intros _].
    apply still_withSnapshot. intros from s. apply respects_for_each; [apply _|]. intros x _.
    repeat case_match; try (apply respects_ret; apply _); apply still_notifyIfKnown.
  - exact still_failover.
  - unfold action_LogDelegationBlockHeightRejection. case_match; try (apply respects_crash; apply _). apply respects_ret, _.
  - unfold action_HandleDelegationRejected. case_match; try (apply respects_crash; apply _). case_match; [apply respects_ret, _|].
    apply respects_modify. intros o. case_match; [by apply still_reindexed|done].
Qed.
End Actions.

(** ** The originator's lifecycle *)

Definition origNextStates (s : OriginatorState) (ty : OriginatorEventType) : list OriginatorState :=
  match s, ty with
  | State_Initial, Event_OriginatorCreated => [State_Idle]
  | State_Idle, Event_HeartbeatReceived => [State_Observing]
  | (State_Idle | State_Observing), Event_TransactionCreated => [State_Sending]
  | State_Observing, Event_HeartbeatInterval => [State_Idle]
  | State_Sending, Event_TransactionStateTransition => [State_Observing]
  | _, _ => []
  end.

Lemma orig_targets `{OrigEnv} s ty : targets origStateDefinitionsMap s ty = origNextStates s ty.
Proof. destruct s, ty; reflexivity. Qed.
