(* ===== verification/OrigRuns.v ===== *)
(** * Runs of an originator

    The steps an originator takes, as a relation: its event loop, the delegation loop, timers, the
    goroutines it started, and the world around it.  What holds of the memory between any two steps is
    proved by induction on runs.

    Sources: originator/originator.go, originator/state_machine.go, originator/originating.go. *)

From S2P Require Import Prelude StateMachine Identity Selection TxTypes CoordTypes TxPropagation Sample OrigTypes OrigWorld OrigTxActions.
From S2P Require Import OrigTxMachine OrigActions OrigMachine OrigSample OrigTxLifecycle OrigTxGates OrigInvariants.
Import Orig.
Open Scope list_scope.

(** The data of an originator between events. *)
Record orig_wf (o : Originator) : Prop := MkOrigWf {
  ow_nodup : NoDup (o_transactionsOrdered o);
  ow_dom : forall id, id ∈ o_transactionsOrdered o <-> id ∈ dom (o_transactionsByID o);
  ow_ids : keyedById o;
  ow_failover : failoverOk o;
  ow_held : o_heldLocks o = ∅;
  ow_sending : origState o = State_Sending <-> o_transactionsOrdered o <> [];
  ow_loop : is_Some (o_delegationLoop o) <-> origState o = State_Sending
}.

Lemma still_wf o o' : still o o' -> orig_wf o -> orig_wf o'.
Proof.
  intros Hs []. split.
  - by rewrite (st_ordered _ _ Hs).
  - intros id. by rewrite (st_ordered _ _ Hs), (st_dom _ _ Hs).
  - by apply Hs.
  - by apply Hs.
  - by rewrite (st_held _ _ Hs).
  - unfold origState. by rewrite (st_machine _ _ Hs), (st_ordered _ _ Hs).
  - unfold origState. by rewrite (st_loop _ _ Hs), (st_machine _ _ Hs).
Qed.

(** Only the machine has moved. *)
Lemma wf_moved o s event :
  orig_wf o -> origState o <> State_Sending -> s <> State_Sending -> orig_wf (enterState origEntity s event o).
Proof.
  intros [] Ho Hs. split; try done.
  - change (origState (enterState origEntity s event o)) with s.
    change (o_transactionsOrdered (enterState origEntity s event o)) with (o_transactionsOrdered o). split; [done|]. tauto.
  - change (origState (enterState origEntity s event o)) with s.
    change (o_delegationLoop (enterState origEntity s event o)) with (o_delegationLoop o). split; [|done]. tauto.
Qed.

Section Steps.
Context `{OrigEnv}.

#[local] Abbreviation matchFirst := (processMatchFirst origEntity origStateDefinitionsMap None).
#[local] Abbreviation dispatch := (dispatchEvent origEntity origStateDefinitionsMap None).
#[local] Abbreviation take := (takeTransition origEntity origStateDefinitionsMap None).

Lemma orig_rule_mild s ty h rule :
  ty <> Event_TransactionCreated -> ty <> Event_TransactionStateTransition ->
  handles origStateDefinitionsMap s ty h -> rule ∈ eh_Actions h -> ar_Action rule ∈ mildOActions.
Proof.
  intros H1 H2 (d & hs & Hd & He & Hh) Hr.
  destruct s; injection Hd as <-; destruct ty; try discriminate He; try done; injection He as <-;
    cbn in Hh; split_members; cbn in Hr; split_members; unfold mildOActions; cbn [ar_Action Act ActIf]; list_member.
Qed.

Lemma orig_mild_transition s ty h tr :
  ty <> Event_TransactionCreated -> ty <> Event_TransactionStateTransition ->
  handles origStateDefinitionsMap s ty h -> tr ∈ eh_Transitions h ->
  tr_Actions tr = [] /\ s <> State_Sending /\ onTransitionFrom origStateDefinitionsMap s = [] /\
  (tr_To tr = State_Idle \/ tr_To tr = State_Observing).
Proof.
  intros H1 H2 (d & hs & Hd & He & Hh) Htr.
  destruct s; injection Hd as <-; destruct ty; try discriminate He; try done; injection He as <-;
    cbn in Hh; split_members; cbn in Htr; split_members; auto.
Qed.

Lemma run_entering s event o :
  s = State_Idle \/ s = State_Observing -> still o (executeActionRules event (onTransitionTo origStateDefinitionsMap s) o).1.
Proof.
  intros Hs. apply executeActionRules_respects; [apply _|]. intros rule Hr. apply mildOActions_still.
  destruct Hs as [-> | ->]; cbn in Hr; split_members. unfold mildOActions. cbn [ar_Action Act]. list_member.
Qed.

(** Events other than the two that change which transactions there are. *)
Lemma wf_mild_event event o :
  OriginatorType_of event <> Event_TransactionCreated -> OriginatorType_of event <> Event_TransactionStateTransition ->
  orig_wf o -> orig_wf (dispatch event o).1 /\ transactionsMove o (dispatch event o).1.
Proof.
  intros H1 H2 Hwf.
  assert (Hst : stepped origEntity origStateDefinitionsMap None still (GetCurrentState origEntity o) (OriginatorType_of event) event o (dispatch event o)).
  { apply (dispatch_stepped_at origEntity origStateDefinitionsMap None still event o). intros h rule Hh Hr.
    apply mildOActions_still. by eapply orig_rule_mild. }
  destruct Hst as [Hs|(h & tr & o1 & Hh & Htr & _ & Ho1 & Hout)]; [split; [by eapply still_wf|by apply Hs]|].
  destruct (orig_mild_transition _ _ h tr H1 H2 Hh Htr) as (Ha & Hne & Hx & Hto).
  change (GetCurrentState origEntity o) with (origState o) in *.
  assert (Hs1 : GetCurrentState origEntity o1 = origState o) by (unfold GetCurrentState; simpl; by rewrite (st_machine _ _ Ho1)).
  rewrite takeTransition_plain in Hout by (rewrite ?Hs1; done). cbv zeta in Hout. rewrite <- Hout.
  set (o2 := enterState origEntity (tr_To tr) event o1).
  change ((runCallback None (GetCurrentState origEntity o1) (GetCurrentState origEntity o2) event ≫= fun _ =>
           executeActionRules event (onTransitionTo origStateDefinitionsMap (GetCurrentState origEntity o2))) o2)
    with (executeActionRules event (onTransitionTo origStateDefinitionsMap (tr_To tr)) o2).
  pose proof (run_entering (tr_To tr) event o2 Hto) as Hen. split.
  - eapply still_wf; [exact Hen|]. apply wf_moved; [by eapply still_wf| |by destruct Hto as [-> | ->]].
    unfold origState. by rewrite (st_machine _ _ Ho1).
  - etrans; [apply Ho1|]. change (transactionsMove o1) with (transactionsMove o2). apply Hen.
Qed.

(** *** Transactions that are gone *)

Lemma elem_of_removeFromOrdered id l x : NoDup l -> x ∈ removeFromOrdered id l <-> x ∈ l /\ x <> id.
Proof.
  induction l as [|y l IH]; intros Hn; simpl; [set_solver|]. apply NoDup_cons in Hn as [Hy Hn].
  destruct (N.eqb_spec y id) as [->|Hne]; [set_solver|]. rewrite elem_of_cons, IH by done. set_solver.
Qed.

Lemma NoDup_removeFromOrdered id l : NoDup l -> NoDup (removeFromOrdered id l).
Proof.
  induction l as [|y l IH]; intros Hn; simpl; [done|]. pose proof Hn as [Hy Hl]%NoDup_cons.
  destruct (N.eqb_spec y id); [done|]. apply NoDup_cons. split; [|by apply IH].
  rewrite elem_of_removeFromOrdered by done. tauto.
Qed.

(** The memory after [removeTransaction]. *)
Definition without (id : uuid) (o : Originator) : Originator :=
  o <| o_transactionsByID ::= delete id |> <| o_transactionsOrdered ::= removeFromOrdered id |>.

(** The parts of [orig_wf] that do not speak of the machine. *)
Record data_ok (o : Originator) : Prop := MkDataOk {
  do_nodup : NoDup (o_transactionsOrdered o);
  do_dom : forall id, id ∈ o_transactionsOrdered o <-> id ∈ dom (o_transactionsByID o);
  do_ids : keyedById o;
  do_failover : failoverOk o;
  do_held : o_heldLocks o = ∅
}.

Lemma wf_data o : orig_wf o -> data_ok o.
Proof. by intros []. Qed.

Lemma still_data o o' : still o o' -> data_ok o -> data_ok o'.
Proof.
  intros Hs []. split; [by rewrite (st_ordered _ _ Hs)| |by apply Hs|by apply Hs|by rewrite (st_held _ _ Hs)].
  intros id. by rewrite (st_ordered _ _ Hs), (st_dom _ _ Hs).
Qed.

Lemma data_without id o : data_ok o -> data_ok (without id o).
Proof.
  intros []. split; simpl; [by apply NoDup_removeFromOrdered| | |done|done].
  - intros x. rewrite elem_of_removeFromOrdered, do_dom0, dom_delete_L by done. set_solver.
  - intros x t. simpl. intros [_ Ht]%lookup_delete_Some. by apply do_ids0.
Qed.

Lemma wf_without_idle id o : orig_wf o -> origState o <> State_Sending -> orig_wf (without id o).
Proof.
  intros Hwf Hs. pose proof (data_without id o (wf_data o Hwf)) as []. destruct Hwf.
  assert (He : o_transactionsOrdered o = []) by (destruct (o_transactionsOrdered o); [done|]; exfalso; apply Hs, ow_sending0; done).
  split; try done. simpl. rewrite He. simpl. rewrite He in ow_sending0. exact ow_sending0.
Qed.

Lemma hasTransactions_ordered o : data_ok o -> guard_HasTransactions o = Some (bool_decide (o_transactionsOrdered o <> [])).
Proof.
  intros []. unfold guard_HasTransactions. f_equal. apply Bool.eq_iff_eq_true. rewrite Nat.ltb_lt, bool_decide_eq_true.
  split.
  - intros Hs He. assert (Hm : o_transactionsByID o = ∅).
    { apply map_eq. intros i. rewrite lookup_empty. apply not_elem_of_dom. rewrite <- do_dom0, He. set_solver. }
    rewrite Hm, map_size_empty in Hs. lia.
  - intros Hne. destruct (o_transactionsOrdered o) as [|x l]; [done|].
    assert (Hx : x ∈ dom (o_transactionsByID o)) by (apply do_dom0; set_solver).
    apply elem_of_dom in Hx. assert (size (o_transactionsByID o) <> 0%nat); [|lia].
    intros Hz%map_size_empty_inv. rewrite Hz in Hx. by destruct Hx.
Qed.

Lemma middle_elem {A} (l pre post : list A) x : l = pre ++ x :: post -> x ∈ l.
Proof. intros ->. apply elem_of_app. right. left. Qed.

(** Every transaction but the one that is [gone] moved along the lifecycle. *)
Definition onlyRemoves (gone : option uuid) (o o' : Originator) : Prop :=
  forall id t, o_transactionsByID o !! id = Some t ->
  (Some id = gone /\ o_transactionsByID o' !! id = None) \/
  exists t', o_transactionsByID o' !! id = Some t' /\ sameOTx t t' /\
    rtc otxLifecycle (currentState (ot_stateMachine t)) (currentState (ot_stateMachine t')).

Lemma moves_onlyRemoves gone o o' : transactionsMove o o' -> onlyRemoves gone o o'.
Proof. intros Hm id t Ht. right. by apply Hm. Qed.

Lemma onlyRemoves_without id o : onlyRemoves (Some id) o (without id o).
Proof.
  intros j t Ht. destruct (decide (j = id)) as [->|Hj].
  - left. split; [done|]. simpl. by rewrite lookup_delete_eq.
  - right. exists t. split; [|done]. simpl. by rewrite lookup_delete_ne.
Qed.

(** Handlers that run actions and stay. *)
Lemma wf_run_mild event h o o' r :
  (forall rule, rule ∈ eh_Actions h -> ar_Action rule ∈ mildOActions) -> eh_Transitions h = [] ->
  unitM (runHandler origEntity origStateDefinitionsMap None event h) o = (o', r) -> orig_wf o -> orig_wf o' /\ transactionsMove o o'.
Proof.
  intros Ha Ht Hr Hwf. assert (Hs : still o o'); [|split; [by eapply still_wf|apply Hs]]. change o' with (o', r).1. rewrite <- Hr.
  unfold unitM, runHandler. rewrite Ht. apply respects_bind; [apply _| |intros ?; apply respects_ret, _].
  apply respects_bind; [apply _| |intros _; apply respects_ret, _].
  apply executeActionRules_respects; [apply _|]. intros rule Hrule. by apply mildOActions_still, Ha.
Qed.

Lemma wf_run_cleanup id from to v o o' r :
  unitM (runHandler origEntity origStateDefinitionsMap None (TransactionStateTransitionEvent id from to)
    (MkEventHandler v [Act action_CleanUpTransaction] [] false)) o = (o', r) ->
  orig_wf o -> origState o <> State_Sending -> orig_wf o' /\ onlyRemoves (Some id) o o'.
Proof. intros Hr Hwf Hs. injection Hr as <- <-. exact (conj (wf_without_idle id o Hwf Hs) (onlyRemoves_without id o)). Qed.

(** Leaving [State_Sending] stops the loop. *)
Lemma wf_run_lastCleanup id from to v o o' r :
  unitM (runHandler origEntity origStateDefinitionsMap None (TransactionStateTransitionEvent id from to)
    (MkEventHandler v [Act action_CleanUpTransaction] [ToIf State_Observing (GuardNot guard_HasTransactions) []] false)) o = (o', r) ->
  orig_wf o -> origState o = State_Sending -> orig_wf o' /\ onlyRemoves (Some id) o o'.
Proof.
  intros Hr Hwf Hs. pose proof (onlyRemoves_without id o) as Hrm. set (event := TransactionStateTransitionEvent id from to) in *.
  pose proof (data_without id o (wf_data o Hwf)) as Hd. pose proof (hasTransactions_ordered _ Hd) as Hg.
  unfold unitM, runHandler in Hr. unfold mbind at 1, M_bind at 1 in Hr. unfold mbind at 1, M_bind at 1 in Hr.
  cbn [eh_Actions eh_Transitions] in Hr.
  change (executeActionRules event [Act action_CleanUpTransaction] o) with (without id o, Ok tt : res unit) in Hr. cbn beta iota in Hr.
  set (o1 := without id o) in *. destruct (decide (o_transactionsOrdered o1 = [])) as [He|He].
  - rewrite bool_decide_eq_false_2 in Hg by (by intros ?).
    rewrite evaluate_takes in Hr by (unfold GuardNot; by rewrite Hg).
    set (o2 := (enterState origEntity State_Observing event o1) <| o_delegationLoop := None |>).
    assert (Ht : take event (ToIf State_Observing (GuardNot guard_HasTransactions) []) o1 = (o2, Ok tt)).
    { unfold takeTransition, gets. unfold mbind at 1, M_bind at 1.
      change (GetCurrentState origEntity o1) with (origState o). by rewrite Hs. }
    unfold mbind, M_bind in Hr. rewrite Ht in Hr. injection Hr as <- <-. split; [|exact Hrm].
    destruct Hd. split; [exact do_nodup0|exact do_dom0|exact do_ids0|exact do_failover0|exact do_held0| |].
    + change (o_transactionsOrdered o2) with (o_transactionsOrdered o1). rewrite He. by split.
    + split; [by intros [? ?]|done].
  - rewrite bool_decide_eq_true_2 in Hg by done.
    rewrite evaluate_skips in Hr by (unfold GuardNot; by rewrite Hg). cbn in Hr. injection Hr as <- <-. split; [|exact Hrm].
    destruct Hd, Hwf. by split.
Qed.

(** Where a transaction's own machine went. *)
Lemma wf_transition_event id from to o o' r :
  orig_wf o -> dispatch (TransactionStateTransitionEvent id from to) o = (o', r) ->
  orig_wf o' /\ onlyRemoves (if decide (to = OTx.State_Final) then Some id else None) o o'.
Proof.
  intros Hwf Hd. set (event := TransactionStateTransitionEvent id from to) in *. set (gone := if decide _ then _ else _).
  assert (Hsame : o' = o -> orig_wf o' /\ onlyRemoves gone o o') by (intros ->; split; [done|by apply moves_onlyRemoves]).
  assert (Hmild : orig_wf o' /\ transactionsMove o o' -> orig_wf o' /\ onlyRemoves gone o o') by (intros [? ?]; split; [done|by apply moves_onlyRemoves]).
  assert (Hclean : matchesHandler event (OnValid (S := OriginatorState) validator_OriginatorTransactionStateTransitionToFinal [] []) o = Ok true ->
    gone = Some id).
  { intros Hm. unfold gone. rewrite decide_True; [done|]. cbn in Hm. injection Hm as Hm. by apply bool_decide_eq_true in Hm. }
  unfold dispatchEvent, gets in Hd. unfold mbind at 1, M_bind at 1 in Hd.
  change (GetCurrentState origEntity o) with (origState o) in Hd. unfold origStateDefinitionsMap at 1 in Hd.
  destruct (origState o) eqn:Es; cbn [ent_type origEntity OriginatorType_of event origInitial origIdle origObserving origSending Events First ehs_Match ehs_Handlers] in Hd;
    [apply Hsame; by injection Hd as <- _|..].
  all: apply matchFirst_inv in Hd as [[E _]|(pre & h & post & Hl & Hm & Hrun)]; [by apply Hsame|].
  all: apply middle_elem in Hl; unfold finalizeHandler in Hl; split_members;
    first [ apply Hmild; eapply wf_run_mild; [| |exact Hrun|exact Hwf]; [cbn; intros rule Hrule; split_members; unfold mildOActions; cbn [ar_Action Act]; list_member|reflexivity]
          | rewrite (Hclean Hm); eapply wf_run_lastCleanup; [exact Hrun|exact Hwf|exact Es]
          | rewrite (Hclean Hm); eapply wf_run_cleanup; [exact Hrun|exact Hwf|by rewrite Es] ].
Qed.

(** *** Transactions that are new *)

Lemma otx_plain_entry id event t tr o :
  o_transactionsByID o !! id = Some t -> tr_Actions tr = [] ->
  onTransitionFrom (otxStateDefinitionsMap id) (currentState (ot_stateMachine t)) = [] ->
  exists o1 t1, o_transactionsByID o1 !! id = Some t1 /\
    takeTransition (otxEntity id) (otxStateDefinitionsMap id) (Some (otxTransitionCallback id)) event tr o
    = executeActionRules event (onTransitionTo (otxStateDefinitionsMap id) (tr_To tr)) o1.
Proof.
  intros Ht Ha Hx. rewrite takeTransition_plain by (rewrite ?(otx_state_at id o t Ht); done). cbv zeta.
  set (o0 := enterState (otxEntity id) (tr_To tr) event o).
  set (t0 := t <| ot_stateMachine := MkMachine (tr_To tr) (Some (OTx.OriginatorTransactionType_of event)) (o_now o) |>).
  assert (Ht0 : o_transactionsByID o0 !! id = Some t0) by (subst o0; by rewrite otx_enterState_lookup, decide_True, Ht by done).
  rewrite (otx_state_at id o0 t0 Ht0). cbn [t0 ot_stateMachine currentState].
  exists (otxTransitionCallback id (GetCurrentState (otxEntity id) o) (tr_To tr) event o0), (t0 <| ot_stateEntryTime := o_now o0 |>).
  split; [|done]. rewrite callback_lookup, lookup_setOTx. by rewrite Ht0.
Qed.

Lemma matchFirst_plain {S EvType Ev W} (entity : Entity S EvType Ev W) definitions cb event trs w :
  processMatchFirst entity definitions cb event [On [] trs] w = unitM (evaluateTransitions entity definitions cb event trs) w.
Proof. done. Qed.

Lemma evaluate_plain {S EvType Ev W} (entity : Entity S EvType Ev W) definitions cb event s acts rest w :
  evaluateTransitions entity definitions cb event (To s acts :: rest) w
  = (takeTransition entity definitions cb event (To s acts) ≫= fun _ => mret true) w.
Proof. done. Qed.

(** A transaction that was just made handles its creation without error. *)
Lemma created_ok id t o :
  o_transactionsByID o !! id = Some t -> id ∉ o_heldLocks o -> currentState (ot_stateMachine t) = OTx.State_Initial ->
  (originatorTransactionHandleEvent id OTx.CreatedEvent o).2 = Ok tt.
Proof.
  intros Ht Hid Hs.
  rewrite (otxHandle_first id OTx.CreatedEvent t o
    (On [] [ToIf OTx.State_Resolving (guard_HasRequiredVerifiers id) []; To OTx.State_Pending []]) Ht Hid) by (by rewrite Hs).
  cbv zeta. set (o1 := o <| o_heldLocks ::= union {[id]} |>). change (o_transactionsByID o1 !! id = Some t) in Ht.
  rewrite matchFirst_plain. unfold unitM. unfold mbind at 1, M_bind at 1.
  assert (Hg : exists b, guard_HasRequiredVerifiers id o1 = Some b) by (unfold guard_HasRequiredVerifiers, onOTx; rewrite Ht; by eexists).
  destruct Hg as [[|] Hg]; [rewrite evaluate_takes by done|rewrite evaluate_skips by done].
  - destruct (otx_plain_entry id OTx.CreatedEvent t (ToIf OTx.State_Resolving (guard_HasRequiredVerifiers id) []) o1 Ht eq_refl) as (o2 & t2 & Ht2 & He); [by rewrite Hs|].
    assert (Hr : exists o3, action_ResolveVerifiers id OTx.CreatedEvent o2 = (o3, Ok tt)).
    { unfold action_ResolveVerifiers. rewrite (bind_ok _ _ _ _ _ (getOTx_ok id o2 t2 Ht2)). by eexists. }
    destruct Hr as [o3 Hr]. unfold mbind, M_bind. rewrite He.
    change (onTransitionTo _ _) with [Act (action_ResolveVerifiers id)]. by rewrite (exec_act _ _ _ _ _ Hr).
  - rewrite evaluate_plain.
    destruct (otx_plain_entry id OTx.CreatedEvent t (To OTx.State_Pending []) o1 Ht eq_refl) as (o2 & t2 & Ht2 & He); [by rewrite Hs|].
    unfold mbind, M_bind. by rewrite He.
Qed.

(** The memory with a new transaction [p] in it. *)
Record grown (id : uuid) (o o' : Originator) : Prop := MkGrown {
  gr_data : data_ok o';
  gr_ordered : o_transactionsOrdered o' = o_transactionsOrdered o ++ [id];
  gr_machine : o_machine o' = o_machine o;
  gr_started : o_started o' = o_started o;
  gr_life : transactionsMove o o';
  gr_loop : is_Some (o_delegationLoop o') <-> is_Some (o_delegationLoop o)
}.

Lemma grown_still id o o1 o' : grown id o o1 -> still o1 o' -> grown id o o'.
Proof.
  intros [] Hs. split; [by eapply still_data|by rewrite (st_ordered _ _ Hs)|by rewrite (st_machine _ _ Hs)|by rewrite (st_started _ _ Hs)|etrans; [done|by apply Hs]|].
  by rewrite (st_loop _ _ Hs).
Qed.

Lemma run_addToTransactions p localTx o :
  data_ok o -> o_transactionsByID o !! pt_ID p = None ->
  exists o', addToTransactions (Some p) localTx o = (o', Ok tt) /\ grown (pt_ID p) o o'.
Proof.
  intros [] Hnone. set (id := pt_ID p) in *. unfold addToTransactions, gets, modify. unfold mbind, M_bind. cbn beta iota.
  set (t := newOriginatorTransaction p localTx (o_now o)).
  set (o1 := o <| o_transactionsByID ::= <[id := t]> |>). set (o2 := o1 <| o_transactionsOrdered ::= fun l => l ++ [id] |>).
  assert (Hnot : id ∉ o_transactionsOrdered o) by (rewrite do_dom0; by apply not_elem_of_dom).
  assert (Hg : grown id o o2).
  { split; try done.
    2:{ intros j tj Hj. exists tj. split; [|done]. simpl. rewrite lookup_insert_ne; [done|]. intros <-. congruence. }
    split; simpl; [|..|done|done].
    - apply NoDup_app. split_and!; [done|set_solver|apply NoDup_singleton].
    - intros j. rewrite elem_of_app, dom_insert_L, do_dom0. set_solver.
    - intros j tj. simpl. intros [[<- <-]|[_ Hj]]%lookup_insert_Some; [done|by apply do_ids0]. }
  assert (Ht : o_transactionsByID o2 !! id = Some t) by apply lookup_insert_eq.
  pose proof (created_ok id t o2 Ht) as Hok. pose proof (still_otxHandle id OTx.CreatedEvent o2) as Hs.
  exists (originatorTransactionHandleEvent id OTx.CreatedEvent o2).1. split; [|by eapply grown_still].
  rewrite <- Hok; [apply surjective_pairing|simpl; rewrite do_held0; set_solver|done].
Qed.

(** Entering [State_Sending] starts the loop. *)
Lemma wf_entering id event o o1 :
  grown id o o1 -> orig_wf o -> o_started o = true -> origState o <> State_Sending ->
  exists o2, take event (To State_Sending []) o1 = (o2, Ok tt) /\ orig_wf o2 /\ transactionsMove o o2.
Proof.
  intros Hg Hwf Hst Hs.
  set (o2 := (enterState origEntity State_Sending event o1) <| o_delegationLoop := Some (MkDelegationLoop true false) |>).
  assert (Hl : o_delegationLoop o1 = None).
  { destruct Hg, Hwf. destruct (o_delegationLoop o1) as [l|] eqn:E; [|done]. exfalso. apply Hs, ow_loop0, gr_loop0. eauto. }
  exists o2. split.
  - assert (Hs1 : origState o1 = origState o) by (unfold origState; by rewrite (gr_machine _ _ _ Hg)).
    rewrite takeTransition_plain; [|done|change (GetCurrentState origEntity o1) with (origState o1); rewrite Hs1; by destruct (origState o)].
    cbv zeta. set (o0 := enterState origEntity (tr_To (To State_Sending [])) event o1).
    change (GetCurrentState origEntity o0) with State_Sending. cbn. unfold mbind, M_bind, mret, M_ret. cbn.
    unfold action_StartDelegationLoop, startDelegationLoop, modify. change (o_started o0) with (o_started o1). rewrite (gr_started _ _ _ Hg), Hst.
    change (o_delegationLoop o0) with (o_delegationLoop o1). rewrite Hl. done.
  - destruct Hg as [[] Ho _ _ Hlf _]. split; [|exact Hlf].
    split; [exact do_nodup0|exact do_dom0|exact do_ids0|exact do_failover0|exact do_held0| |].
    + change (o_transactionsOrdered o2) with (o_transactionsOrdered o1). rewrite Ho. split; [|done]. intros _ [? ?]%app_eq_nil. done.
    + split; [done|]. by eexists.
Qed.

Lemma refresh_no_err o e : (refreshOriginatorBlockHeight o).2 <> Err e.
Proof.
  unfold refreshOriginatorBlockHeight, mbind, M_bind, gets, modify, liftR, ComputeEffectiveBlockHeight.
  destruct (oc_blockRange _ =? 0)%Z; [done|]. cbn beta iota. destruct (_ =? _)%Z; [done|].
  unfold calculateOriginatorPriorities. repeat case_match; done.
Qed.

Definition survivedO {A} (r : res A) : Prop := forall x, r <> Crash x.

(** What follows the creation when the originator was not sending: actions that change nothing the
    data depends on, and the transition. *)
Lemma wf_run_created id event rules o o1 o' r :
  grown id o o1 -> orig_wf o -> o_started o = true -> origState o <> State_Sending ->
  (forall rule, rule ∈ rules -> ar_If rule = None /\ ar_Action rule ∈ mildOActions /\ forall o e, (ar_Action rule event o).2 <> Err e) ->
  unitM (executeActionRules event rules ≫= fun _ => evaluateTransitions origEntity origStateDefinitionsMap None event [To State_Sending []]) o1 = (o', r) ->
  survivedO r -> orig_wf o' /\ transactionsMove o o'.
Proof.
  intros Hg Hwf Hst Hs. revert o1 Hg. induction rules as [|rule rules IH]; intros o1 Hg Hr Hrun Hsv.
  - destruct (wf_entering id event o o1 Hg Hwf Hst Hs) as (o2 & Ht & Hwf2).
    change (unitM (evaluateTransitions origEntity origStateDefinitionsMap None event [To State_Sending []]) o1 = (o', r)) in Hrun.
    unfold unitM in Hrun. unfold mbind at 1, M_bind at 1 in Hrun. rewrite evaluate_plain in Hrun.
    unfold mbind, M_bind in Hrun. rewrite Ht in Hrun. by injection Hrun as <- <-.
  - destruct (Hr rule) as (Hif & Hm & Hne); [left|]. destruct rule as [action cond]. simpl in Hif, Hm, Hne. subst cond.
    pose proof (mildOActions_still action event Hm o1) as Hst1. specialize (Hne o1).
    destruct (action event o1) as [o2 [[]|e|x]] eqn:Ea; [|by destruct (Hne e)|].
    + apply (IH o2); [by eapply grown_still|intros rl Hrl; apply Hr; by right| |done].
      rewrite <- Hrun. change (MkActionRule action None) with (Act action). unfold unitM, mbind, M_bind. by rewrite (exec_act event action rules o1 o2 Ea).
    + exfalso. apply (Hsv x). unfold unitM, mbind, M_bind in Hrun. cbn [executeActionRules guardPasses] in Hrun.
      unfold mbind, M_bind in Hrun. cbn in Hrun. rewrite Ea in Hrun. by injection Hrun as _ <-.
Qed.

Lemma validated_new txn localTx p o :
  validator_TransactionDoesNotExist (TransactionCreatedEvent txn localTx) o = Ok true -> txn = Some p -> o_transactionsByID o !! pt_ID p = None.
Proof. intros Hv ->. unfold validator_TransactionDoesNotExist in Hv. by destruct (_ !! _). Qed.

Lemma wf_created_event txn localTx o o' r :
  orig_wf o -> o_started o = true -> dispatch (TransactionCreatedEvent txn localTx) o = (o', r) -> survivedO r ->
  orig_wf o' /\ transactionsMove o o'.
Proof.
  intros Hwf Hst Hd Hsv. set (event := TransactionCreatedEvent txn localTx) in *.
  unfold dispatchEvent, gets in Hd. unfold mbind at 1, M_bind at 1 in Hd.
  change (GetCurrentState origEntity o) with (origState o) in Hd. unfold origStateDefinitionsMap at 1 in Hd.
  assert (Hnext : forall rest trs, unitM (runHandler origEntity origStateDefinitionsMap None event
       (OnValid validator_TransactionDoesNotExist (Act action_TransactionCreated :: rest) trs)) o = (o', r) ->
     validator_TransactionDoesNotExist event o = Ok true ->
     o' = o \/ exists id o1, grown id o o1 /\
       unitM (executeActionRules event rest ≫= fun _ => evaluateTransitions origEntity origStateDefinitionsMap None event trs) o1 = (o', r)).
  { intros rest trs Hrun Hv. unfold unitM, runHandler in Hrun. cbn [eh_Actions eh_Transitions OnValid] in Hrun.
    destruct txn as [p|]; [right|left; by injection Hrun as <- _].
    destruct (run_addToTransactions p localTx o (wf_data o Hwf)) as (o1 & Ha & Hg); [by eapply validated_new|].
    exists (pt_ID p), o1. split; [done|]. rewrite <- Hrun. unfold unitM, mbind, M_bind. by rewrite (exec_act event _ rest o o1 Ha). }
  destruct (origState o) eqn:Es; cbn [ent_type origEntity OriginatorType_of event origInitial origIdle origObserving origSending Events First ehs_Match ehs_Handlers] in Hd;
    [by injection Hd as <- _|..].
  all: apply matchFirst_inv in Hd as [[Eo _]|(pre & h & post & Hl & Hm & Hrun)]; [cbn [fst] in Eo; by subst o'|].
  all: apply middle_elem in Hl; split_members; destruct (Hnext _ _ Hrun Hm) as [->|(id & o1 & Hg & Hr)]; [done|]; clear Hnext Hrun.
  - eapply (wf_run_created id event _ o o1); [done|done|done|by rewrite Es| |exact Hr|done].
    intros rule Hin. split_members; (split; [done|]); (split; [unfold mildOActions; cbn [ar_Action Act]; list_member|]); [apply refresh_no_err|done].
  - eapply (wf_run_created id event [] o o1); [done|done|done|by rewrite Es| |exact Hr|done]. by intros rule ?%not_elem_of_nil.
  - pose proof (still_requestPartial o1) as Hsp.
    assert (Eo : (requestPartialDelegation o1).1 = o') by (by injection Hr as <- _). rewrite Eo in Hsp. assert (Hg' := grown_still id o o1 _ Hg Hsp).
    destruct Hg' as [[] Ho Hm' _ Hlf Hlp]. split; [|exact Hlf]. split; try done.
    + unfold origState. rewrite Hm', Ho. split; [|intros _; exact Es]. intros _ [? ?]%app_eq_nil. done.
    + destruct Hwf. rewrite Hlp, ow_loop0. unfold origState. by rewrite Hm'.
Qed.

(** *** One event *)

Lemma still_propagate id event : respects still (propagateEventToTransaction id event).
Proof.
  intros o. unfold propagateEventToTransaction. destruct (_ !! _); [apply still_otxHandle|].
  destruct event; try done; apply still_sendO.
Qed.

Lemma still_preProcess event : respects still (origPreProcessEvent event).
Proof.
  unfold origPreProcessEvent. destruct event; try (apply respects_ret; apply _).
  apply respects_bind; [apply _|apply still_propagate|intros _; apply respects_ret, _].
Qed.

(** The lock is not part of the data. *)
Lemma wf_lock o b : orig_wf o -> orig_wf (o <| o_locked := b |>).
Proof. by intros []. Qed.

(** The transaction that an event may remove. *)
Definition removedBy (event : OriginatorEvent) : option uuid :=
  match event with
  | TransactionStateTransitionEvent id _ OTx.State_Final => Some id
  | _ => None
  end.

Lemma wf_dispatch event o o' r :
  orig_wf o -> o_started o = true -> dispatch event o = (o', r) -> survivedO r -> orig_wf o' /\ onlyRemoves (removedBy event) o o'.
Proof.
  intros Hwf Hst Hd Hsv. destruct event as [id e| |txn l|rj|full|from sn| |id from to|nodes].
  3: by edestruct wf_created_event as [? ?%(moves_onlyRemoves None)].
  7: edestruct wf_transition_event as [? Hr]; [exact Hwf|exact Hd|]; split; [done|]; by destruct to.
  all: change o' with (o', r).1; rewrite <- Hd; edestruct wf_mild_event as [? ?%(moves_onlyRemoves None)]; [| |exact Hwf|split; [done|eassumption]]; discriminate.
Qed.

(** An event with the lock free: the transaction's machine runs, or the originator's own. *)
Lemma originatorProcessEvent_cases event o :
  o_locked o = false ->
  let '(o1, r1) := origPreProcessEvent event (o <| o_locked := true |>) in
  let out := originatorProcessEvent event o in
  o_locked o1 = true /\
  match r1 with
  | Ok true => out = (o1 <| o_locked := false |>, Ok tt)
  | Ok false => o1 = o <| o_locked := true |> /\
      exists o2 r2, dispatch event (o <| o_locked := true |>) = (o2, r2) /\ out = (o2 <| o_locked := false |>, r2)
  | Err e => out = (o1 <| o_locked := false |>, Err e)
  | Crash x => out = (o1 <| o_locked := false |>, Crash x)
  end.
Proof.
  intros Hl. pose proof (still_preProcess event (o <| o_locked := true |>)) as Hs.
  destruct (origPreProcessEvent event (o <| o_locked := true |>)) as [o1 r1] eqn:E1. cbn [fst] in Hs. split; [apply Hs|].
  unfold originatorProcessEvent, withOrigLock. unfold mbind, M_bind. rewrite Hl, E1.
  destruct r1 as [[|]| |]; [done| |done..].
  assert (Hc : o1 = o <| o_locked := true |>).
  { destruct event; simpl in E1; unfold mbind, M_bind, mret, M_ret in E1; try (by injection E1 as <-).
    destruct (propagateEventToTransaction _ _ _) as [? [[]| |]]; discriminate. }
  split; [done|]. subst o1. unfold ProcessEvent. cbn [ent_lock origEntity].
  replace (o <| o_locked := true |> <| o_locked := false |> <| o_locked := true |>) with (o <| o_locked := true |>) by done.
  replace (o_locked (o <| o_locked := true |> <| o_locked := false |>)) with false by done.
  destruct (dispatchEvent _ _ _ _ _) as [o2 r2]. by exists o2, r2.
Qed.

(** What holds of an originator between any two steps. *)
Definition orig_ok (o : Originator) : Prop := orig_wf o /\ o_locked o = false.

Lemma orig_process_ok event o o' r :
  orig_ok o -> o_started o = true -> originatorProcessEvent event o = (o', r) -> survivedO r -> orig_ok o'.
Proof.
  intros [Hwf Hl] Hst Ho Hsv. pose proof (originatorProcessEvent_cases event o Hl) as Hp.
  pose proof (still_preProcess event (o <| o_locked := true |>)) as Hs.
  destruct (origPreProcessEvent event (o <| o_locked := true |>)) as [o1 r1]. cbn [fst] in Hs. destruct Hp as [_ Hp].
  assert (Hwf1 : orig_wf o1) by (eapply still_wf; [exact Hs|by apply wf_lock]). rewrite Ho in Hp.
  destruct r1 as [[|]| |]; [injection Hp as -> _| |injection Hp as -> _..]; try (split; [by apply wf_lock|done]).
  destruct Hp as (_ & o2 & r2 & Hd & Hp). injection Hp as -> ->. split; [|done]. apply wf_lock.
  eapply (wf_dispatch event _ _ _ (wf_lock o true Hwf)); [exact Hst|exact Hd|done].
Qed.

(** ** Runs *)

(** Other goroutines, other nodes, the clock and the chain move between events. *)
Inductive orig_background : Originator -> Originator -> Prop :=
| ostep_start o o' : StartOriginator o = (o', Ok tt) -> orig_background o o'
| ostep_arrives e o : orig_background o (o <| o_events ::= fun q => q ++ [e] |>)
| ostep_tick o : orig_background o (delegationLoop o)
| ostep_timer timer o : orig_background o (fireOrigTimer timer o)
| ostep_resolved job result o : orig_background o (handleResolveVerifiers job result o)
| ostep_assembled job drop result o : orig_background o (handleAssemble job drop result o)
| ostep_signed sign job drop o o' : handleSign sign job drop o = Some o' -> orig_background o o'
| ostep_environment now height o : orig_background o (o <| o_now := now |> <| o_liveBlockHeight := height |>).

(** Once started, the loop takes the head of either queue. *)
Inductive orig_step : Originator -> Originator -> Prop :=
| ostep_event e q o o' r :
    o_started o = true -> o_events o = e :: q -> originatorProcessEvent e (o <| o_events := q |>) = (o', r) -> survivedO r -> orig_step o o'
| ostep_internal e o1 o o' r :
    o_started o = true -> nextOrigInternal o = Some (e, o1) -> originatorProcessEvent e o1 = (o', r) -> survivedO r -> orig_step o o'
| ostep_background o o' : orig_background o o' -> orig_step o o'.

Definition orig_reachable (conf : OrigConfig) (selection : CoordinatorSelectionConfig) : Originator -> Prop :=
  rtc orig_step (NewOriginator conf selection).

(** The background does not touch what the data depends on. *)
Lemma wf_background_fields o o' :
  o_machine o' = o_machine o -> o_locked o' = o_locked o -> o_heldLocks o' = o_heldLocks o ->
  o_transactionsOrdered o' = o_transactionsOrdered o -> o_transactionsByID o' = o_transactionsByID o ->
  o_coordinatorPriorityList o' = o_coordinatorPriorityList o -> o_failoverIndex o' = o_failoverIndex o ->
  (is_Some (o_delegationLoop o') <-> is_Some (o_delegationLoop o)) -> orig_ok o -> orig_ok o'.
Proof.
  intros Hm Hl Hh Ho Ht Hp Hi Hd [[] Hl0]. split; [|congruence]. split.
  - by rewrite Ho.
  - intros id. by rewrite Ho, Ht.
  - unfold keyedById. by rewrite Ht.
  - unfold failoverOk. by rewrite Hp, Hi.
  - congruence.
  - unfold origState. by rewrite Hm, Ho.
  - unfold origState. by rewrite Hd, Hm.
Qed.

Lemma orig_background_ok o o' : orig_background o o' -> orig_ok o -> orig_ok o'.
Proof.
  intros Hb Hok. eapply wf_background_fields; [..|exact Hok]; destruct Hb as [? ? Hs|?|?|?|?|?|? ? ? ? ? Hs|?];
    try (unfold StartOriginator in Hs; repeat case_match; simplify_eq/=; done);
    try (unfold handleSign in Hs; repeat case_match; simplify_eq/=; done);
    try (unfold delegationLoop, fireOrigTimer, handleResolveVerifiers, handleAssemble; repeat case_match; simplify_eq/=; done).
  unfold delegationLoop. destruct (o_delegationLoop o) eqn:E; [|by rewrite E]. case_match; simpl; by split; eauto.
Qed.

Lemma orig_step_ok o o' : orig_step o o' -> orig_ok o -> orig_ok o'.
Proof.
  intros Hs Hok. destruct Hs as [e q o o' r Hst He Ho Hsv|e o1 o o' r Hst Hn Ho Hsv|o o' Hb]; [..|by eapply orig_background_ok].
  - eapply (orig_process_ok e (o <| o_events := q |>)); [|done|exact Ho|done]. by eapply wf_background_fields; [..|exact Hok].
  - unfold nextOrigInternal in Hn. destruct (o_internalQueue o) as [|e' l]; [done|]. injection Hn as -> <-.
    eapply (orig_process_ok e (o <| o_internalQueue := l |>)); [|done|exact Ho|done]. by eapply wf_background_fields; [..|exact Hok].
Qed.

Lemma orig_new_ok conf selection : orig_ok (NewOriginator conf selection).
Proof.
  split; [|done]. split; [apply NoDup_nil_2| |by intros id t|unfold failoverOk; simpl; lia|done|by split|].
  - intros id. simpl. rewrite dom_empty_L. set_solver.
  - split; [by intros [? ?]|done].
Qed.

Lemma orig_reachable_ok conf selection o : orig_reachable conf selection o -> orig_ok o.
Proof.
  intros Hr. assert (H0 := orig_new_ok conf selection). unfold orig_reachable in Hr.
  induction Hr as [|o1 o2 o3 Hs _ IH]; [done|]. apply IH. by eapply orig_step_ok.
Qed.

(** Between any two steps of an originator, whatever events arrive, goroutines end and timers
    fire: the list in creation order holds every transaction of the map exactly once, each under its own
    id; no transaction's lock is held; the originator is in [State_Sending] exactly while it has
    transactions, and the delegation loop runs exactly while it is in [State_Sending]; and the index
    from which the next failover reads is an index of the priority list. *)
Theorem originator_data_consistent conf selection o :
  orig_reachable conf selection o ->
  NoDup (o_transactionsOrdered o) /\
  (forall id, id ∈ o_transactionsOrdered o <-> exists t, o_transactionsByID o !! id = Some t /\ pt_ID (ot_pt t) = id) /\
  o_heldLocks o = ∅ /\
  (origState o = State_Sending <-> o_transactionsOrdered o <> []) /\
  (is_Some (o_delegationLoop o) <-> origState o = State_Sending) /\
  ((1 < length (o_coordinatorPriorityList o))%nat -> is_Some (o_coordinatorPriorityList o !! o_failoverIndex o)).
Proof.
  intros [[] _]%orig_reachable_ok. split_and!; try done.
  - intros id. rewrite ow_dom0, elem_of_dom. split; [|by intros (t & ? & _); eauto]. intros [t Ht]. exists t. eauto.
  - intros Hl. apply lookup_lt_is_Some. auto.
Qed.

(** ** The states of an originator and of its transactions *)

Definition specialOActions : list OAction :=
  [action_TransactionCreated; action_CleanUpTransaction; action_StartDelegationLoop; action_StopDelegationLoop].

Lemma orig_defined_rule_in rule :
  defined_rule origStateDefinitionsMap rule -> ar_Action rule ∈ mildOActions \/ ar_Action rule ∈ specialOActions.
Proof.
  intros [[s Hr]|(s & ty & h & (d & hs & Hd & He & Hh) & Hr)].
  - destruct s; destruct Hr as [Hr|Hr]; cbn in Hr; split_members; unfold mildOActions, specialOActions; cbn [ar_Action Act ActIf];
      first [left; list_member | right; list_member].
  - destruct s; injection Hd as <-; destruct ty; try discriminate He; injection He as <-;
      cbn in Hh; unfold finalizeHandler in Hh; split_members; destruct Hr as [Hr|(tr & Htr & Hr)]; cbn in *;
      split_members; cbn in *; split_members; unfold mildOActions, specialOActions; cbn [ar_Action Act ActIf];
      first [left; list_member | right; list_member].
Qed.

Lemma orig_actionsKeepState : actionsKeepState origEntity origStateDefinitionsMap None.
Proof.
  split; [|done]. intros rule event Hr. apply orig_defined_rule_in in Hr as [Hm|Hm].
  - eapply respects_weaken; [|by apply mildOActions_still]. intros o o' Hs. unfold sameState, GetCurrentState. simpl. by rewrite (st_machine _ _ Hs).
  - unfold specialOActions in Hm. split_members; [..|by intros o].
    + unfold action_TransactionCreated, addToTransactions. repeat case_match; try (by intros o). intros o.
      unfold gets, modify, mbind, M_bind. cbn beta iota.
      set (o1 := (o <| o_transactionsByID ::= _ |>) <| o_transactionsOrdered ::= _ |>).
      pose proof (still_otxHandle (pt_ID p) OTx.CreatedEvent o1) as Hs.
      change (currentState (o_machine (originatorTransactionHandleEvent (pt_ID p) OTx.CreatedEvent o1).1) = currentState (o_machine o1)).
      by rewrite (st_machine _ _ Hs).
    + unfold action_CleanUpTransaction. case_match; by intros o.
    + intros o. unfold action_StartDelegationLoop, startDelegationLoop, modify. cbn. repeat case_match; done.
Qed.

Lemma orig_step_state event o :
  o_locked o = false ->
  let o' := (originatorProcessEvent event o).1 in
  origState o' = origState o \/ origState o' ∈ origNextStates (origState o) (OriginatorType_of event).
Proof.
  intros Hl. pose proof (originatorProcessEvent_cases event o Hl) as Hp.
  pose proof (still_preProcess event (o <| o_locked := true |>)) as Hs0.
  destruct (origPreProcessEvent event _) as [o1 r1]. destruct Hp as [_ Hp]. pose proof (st_machine _ _ Hs0) as Hm. simpl in Hm.
  destruct r1 as [[|]| |]; try (left; rewrite Hp; unfold origState; simpl; by rewrite Hm).
  destruct Hp as (_ & o2 & r2 & Hd & Hp). rewrite Hp. simpl.
  pose proof (processEvent_edge origEntity origStateDefinitionsMap None event o orig_actionsKeepState) as Hs. cbv zeta in Hs.
  unfold ProcessEvent in Hs. cbn [ent_lock origEntity] in Hs. rewrite Hl in Hs.
  change (dispatchEvent (MkEntity _ _ _ _ _ _)) with (dispatchEvent origEntity) in Hs.
  rewrite Hd in Hs. unfold GetCurrentState in Hs. simpl in Hs.
  destruct Hs as [Hs|Hs]; [by left|right]. apply edge_targets in Hs. by rewrite orig_targets in Hs.
Qed.

(** (C24) Whatever event an originator handles without a panic, its own state stays or follows
    [origNextStates], and every transaction it had is still there, the same one, having moved along its
    lifecycle [otxNextStates] or not at all; only the announcement that a transaction has reached
    [State_Final] removes one, and only that one. In particular a transaction that was confirmed or
    reverted stays in that state or becomes final. *)
Theorem originator_follows_lifecycle event o o' r :
  orig_ok o -> o_started o = true -> originatorProcessEvent event o = (o', r) -> survivedO r ->
  (origState o' = origState o \/ origState o' ∈ origNextStates (origState o) (OriginatorType_of event)) /\
  onlyRemoves (removedBy event) o o' /\
  (forall id t t', o_transactionsByID o !! id = Some t -> o_transactionsByID o' !! id = Some t' ->
     currentState (ot_stateMachine t) = OTx.State_Confirmed \/ currentState (ot_stateMachine t) = OTx.State_Reverted ->
     currentState (ot_stateMachine t') = currentState (ot_stateMachine t) \/ currentState (ot_stateMachine t') = OTx.State_Final).
Proof.
  intros [Hwf Hl] Hst Ho Hsv.
  assert (Hrm : onlyRemoves (removedBy event) o o').
  { pose proof (originatorProcessEvent_cases event o Hl) as Hp. pose proof (still_preProcess event (o <| o_locked := true |>)) as Hs.
    destruct (origPreProcessEvent event (o <| o_locked := true |>)) as [o1 r1]. cbn [fst] in Hs. destruct Hp as [_ Hp]. rewrite Ho in Hp.
    destruct r1 as [[|]| |]; [injection Hp as -> _| |injection Hp as -> _..]; try (apply moves_onlyRemoves; exact (st_life _ _ Hs)).
    destruct Hp as (_ & o2 & r2 & Hd & Hp). injection Hp as -> ->.
    by destruct (wf_dispatch event _ _ _ (wf_lock o true Hwf) Hst Hd Hsv). }
  split_and!; [|done|].
  - pose proof (orig_step_state event o Hl) as Hs. by rewrite Ho in Hs.
  - intros id t t' Ht Ht' Hs. destruct (Hrm id t Ht) as [[_ Hn]|(t2 & Ht2 & _ & Hlc)]; [congruence|].
    rewrite Ht' in Ht2. injection Ht2 as <-. destruct Hlc as [|s1 s2 s3 [ty Hty] Hrest]; [by left|right].
    assert (s2 = OTx.State_Final) as ->. { destruct Hs as [-> | ->]; destruct ty; cbn in Hty; split_members; done. }
    clear -Hrest. remember OTx.State_Final as s. induction Hrest as [|s1 s2 s3 [ty Hty] _ IH]; [done|]. subst s1. by destruct ty; inversion Hty.
Qed.
End Steps.

(** ** Runs of the sample node *)

Definition survivesO {A} (r : res A) : bool := match r with Crash _ => false | _ => true end.

Lemma survivesO_spec {A} (r : res A) : survivesO r = true -> survivedO r.
Proof. by destruct r. Qed.

(** What the sample runs check as they go: the originator is started and no handler crashes. *)
Fixpoint runsO (fuel : nat) (o : Originator) : bool :=
  match fuel with
  | O => true
  | S fuel =>
      match nextOrigInternal o with
      | None => true
      | Some (e, o1) => o_started o && survivesO (originatorProcessEvent e o1).2 && runsO fuel (originatorProcessEvent e o1).1
      end
  end.

Lemma orig_drain_run fuel o : runsO fuel o = true -> rtc orig_step o (drainOrigInternal fuel o).
Proof.
  revert o. induction fuel as [|fuel IH]; intros o Hr; simpl in *; [done|].
  destruct (nextOrigInternal o) as [[e o1]|] eqn:En; [|done]. apply andb_prop in Hr as [[Hst Hs]%andb_prop Hr].
  destruct (originatorProcessEvent e o1) as [o2 r] eqn:Eo. eapply rtc_l; [|by apply IH].
  eapply ostep_internal; [done|exact En|exact Eo|by apply survivesO_spec].
Qed.

Definition deliversO (e : OriginatorEvent) (o : Originator) : bool :=
  o_started o && match o_events o with [] => true | _ => false end &&
  survivesO (originatorProcessEvent e o).2 && runsO 20 (originatorProcessEvent e o).1.

Lemma deliver_runO e o : deliversO e o = true -> rtc orig_step o (deliverO e o).
Proof.
  unfold deliversO, deliverO. intros [[[Hst Hev]%andb_prop Hs]%andb_prop Hr]%andb_prop.
  destruct (o_events o) as [|] eqn:Ee; [|done].
  eapply rtc_l; [apply ostep_background, (ostep_arrives e o)|].
  set (o1 := o <| o_events ::= fun q => q ++ [e] |>).
  assert (E1 : o1 <| o_events := [] |> = o) by (subst o1; destruct o; simpl in *; by subst).
  destruct (originatorProcessEvent e o) as [o2 r] eqn:Eo. eapply rtc_l; [|by apply orig_drain_run].
  apply (ostep_event e [] o1 o2 r); [done|subst o1; simpl; by rewrite Ee|by rewrite E1|by apply survivesO_spec].
Qed.

(** From the start to the first idle state. *)
Lemma idle_runO :
  is_Ok (StartOriginator (NewOriginator sampleOrigConfig sampleOrigSelection)).2 && deliversO OriginatorCreatedEvent startedOrig = true ->
  orig_reachable sampleOrigConfig sampleOrigSelection idleOrig.
Proof.
  unfold orig_reachable, idleOrig. set (o0 := NewOriginator sampleOrigConfig sampleOrigSelection). intros [Hs Hd]%andb_prop.
  unfold deliversO, deliverO in *. apply andb_prop in Hd as [[[Hst Hev]%andb_prop Hsv]%andb_prop Hr].
  destruct (StartOriginator o0) as [o1 r1] eqn:E1. destruct r1 as [[]| |]; [|done..].
  eapply rtc_l; [apply ostep_background, (ostep_start o0 o1 E1)|].
  assert (E2 : startedOrig = o1 <| o_events := [] |>) by (unfold startedOrig; fold o0; by rewrite E1).
  assert (E3 : o_events o1 = [OriginatorCreatedEvent]).
  { unfold StartOriginator in E1. repeat case_match; try done. by injection E1 as <-. }
  rewrite E2 in *. destruct (originatorProcessEvent OriginatorCreatedEvent (o1 <| o_events := [] |>)) as [o2 r] eqn:Eo.
  eapply rtc_l; [|by apply orig_drain_run].
  apply (ostep_event OriginatorCreatedEvent [] o1 o2 r); [done|done|done|by apply survivesO_spec].
Qed.

Lemma idleOrig_reachable : orig_reachable sampleOrigConfig sampleOrigSelection idleOrig.
Proof. apply idle_runO. vm_compute. reflexivity. Qed.

Lemma deliverO_reachable e o :
  orig_reachable sampleOrigConfig sampleOrigSelection o -> deliversO e o = true -> orig_reachable sampleOrigConfig sampleOrigSelection (deliverO e o).
Proof. intros Hr Hd. unfold orig_reachable in *. etrans; [exact Hr|by apply deliver_runO]. Qed.

Lemma tickO_reachable o :
  orig_reachable sampleOrigConfig sampleOrigSelection o -> runsO 20 (delegationLoop o) = true ->
  orig_reachable sampleOrigConfig sampleOrigSelection (tickO o).
Proof. intros Hr Hd. unfold orig_reachable in *. etrans; [exact Hr|]. eapply rtc_l; [apply ostep_background, ostep_tick|by apply orig_drain_run]. Qed.

Lemma delegatedOrig_reachable : orig_reachable sampleOrigConfig sampleOrigSelection (delegatedOrig [7%N]).
Proof.
  apply tickO_reachable; [|vm_compute; reflexivity].
  apply deliverO_reachable; [exact idleOrig_reachable|vm_compute; reflexivity].
Qed.

Lemma originator_data_consistent_witness :
  origState (delegatedOrig [7%N]) = State_Sending /\ is_Some (o_delegationLoop (delegatedOrig [7%N])).
Proof.
  assert (Hs : origState (delegatedOrig [7%N]) = State_Sending) by (vm_compute; reflexivity). split; [exact Hs|].
  apply (originator_data_consistent _ _ _ delegatedOrig_reachable). exact Hs.
Defined.

Lemma originator_follows_lifecycle_witness :
  let o := delegatedOrig [7%N] in
  onlyRemoves None o (originatorProcessEvent (assembleRequest "node1" 7 100) o).1 /\
  otxState 7%N (originatorProcessEvent (assembleRequest "node1" 7 100) o).1 = OTx.State_Assembling.
Proof.
  cbv zeta. split; [|vm_compute; reflexivity].
  destruct (originatorProcessEvent (assembleRequest "node1" 7 100) (delegatedOrig [7%N])) as [o' r] eqn:Eo.
  apply (originator_follows_lifecycle (assembleRequest "node1" 7 100) (delegatedOrig [7%N]) o' r).
  - exact (orig_reachable_ok _ _ _ delegatedOrig_reachable).
  - vm_compute. reflexivity.
  - exact Eo.
  - apply survivesO_spec. change r with (o', r).2. rewrite <- Eo. vm_compute. reflexivity.
Defined.
