(* ===== verification/OrigDelegation.v ===== *)
(** * What an originator sends, and to whom

    A delegation request carries the transactions in the order they were created, and none behind one
    whose verifiers are not resolved; when the coordinator is silent, every candidate is tried in turn;
    and a transaction that is confirmed leaves the originator.

    Sources: originator/delegation.go, originator/originating.go, originator/observing.go. *)

From S2P Require Import Prelude StateMachine Identity Selection TxTypes CoordTypes TxPropagation Sample OrigTypes OrigWorld OrigTxActions.
From S2P Require Import OrigTxMachine OrigActions OrigMachine OrigSample OrigTxLifecycle OrigTxGates OrigInvariants OrigRuns.
Import Orig.
Open Scope list_scope.

(** ** Delegating one transaction *)

(** Nothing is sent, and of the transactions only the delegation of [id] changes. *)
Record delegating (id : uuid) (o o' : Originator) : Prop := MkDelegating {
  dg_outbox : o_outbox o' = o_outbox o;
  dg_height : o_currentBlockHeight o' = o_currentBlockHeight o;
  dg_conf : o_conf o' = o_conf o;
  dg_pts : forall j, ot_pt <$> o_transactionsByID o' !! j = ot_pt <$> o_transactionsByID o !! j;
  dg_others : forall j, j <> id -> o_transactionsByID o' !! j = o_transactionsByID o !! j
}.

#[export] Instance delegating_preorder id : PreOrder (delegating id).
Proof.
  split; [by intros o|]. intros o1 o2 o3 [] []. split; try congruence.
  intros j Hj. rewrite dg_others1, dg_others0; done.
Qed.

Lemma delegating_upd id f : (forall t, ot_pt (f t) = ot_pt t) -> respects (delegating id) (updOTx id f).
Proof.
  intros Hf. apply respects_modify. intros o. split; try done; intros j; unfold setOTx; simpl.
  - destruct (decide (j = id)) as [->|Hj]; [|by rewrite lookup_alter_ne]. rewrite lookup_alter_eq.
    destruct (o_transactionsByID o !! id); simpl; [|done]. by rewrite Hf.
  - intros Hj. by rewrite lookup_alter_ne.
Qed.

Section Delegating.
Context `{OrigEnv}.

Lemma delegating_actions id action event :
  action ∈ [action_Delegated id; action_ResetDelegationState id; action_CancelResolveRetry id; action_CancelCurrentAssembly id;
            action_CancelCurrentSign id; action_ResolveVerifiers id; action_Assemble id; action_FulfilSignAttestations id;
            action_QueueFinalizeEvent id] -> respects (delegating id) (action event).
Proof.
  intros Hin. split_members;
    unfold action_Delegated, action_ResetDelegationState, action_CancelResolveRetry, clearResolveRetrySchedule,
      action_CancelCurrentAssembly, action_CancelCurrentSign, action_ResolveVerifiers, action_Assemble, action_FulfilSignAttestations,
      action_QueueFinalizeEvent, cancelAssembly, cancelSign;
    repeat first [ apply respects_ret; apply _ | apply respects_gets; apply _ | apply respects_throw; apply _
      | apply respects_crash; apply _ | apply respects_getOTx; apply _ | apply respects_modify; intros ?; done
      | lazymatch goal with |- respects _ (mbind _ _) => apply respects_bind; [apply _| |intros ?] end
      | apply delegating_upd; intros ?; repeat case_match; done | by intros ? | case_match ].
Qed.

Lemma delegating_callback id from to event o : delegating id o (otxTransitionCallback id from to event o).
Proof.
  pose proof (delegating_upd id (fun t => t <| ot_stateEntryTime := o_now o |>) ltac:(by intros t) o) as []. by split.
Qed.

Lemma delegating_enterState id s event o : delegating id o (enterState (otxEntity id) s event o).
Proof.
  split; try done.
  - intros j. rewrite otx_enterState_lookup. case_decide; [|done]. by destruct (o_transactionsByID o !! j).
  - intros j Hj. by rewrite otx_enterState_lookup, decide_False.
Qed.

(** The handlers of [Event_Delegated], and the exits of the states that have them. *)
Lemma delegated_rules id s h :
  handles (otxStateDefinitionsMap id) s OTx.Event_Delegated h ->
  (forall rule, rule ∈ eh_Actions h -> ar_Action rule ∈ [action_Delegated id; action_ResetDelegationState id]) /\
  (forall tr, tr ∈ eh_Transitions h -> tr = To OTx.State_Delegated []).
Proof.
  intros (d & hs & Hd & He & Hh). destruct s; injection Hd as <-; try discriminate He; injection He as <-;
    cbn in Hh; split_members; (split; [intros rule Hr|intros tr Htr]); cbn in *; split_members; cbn [ar_Action Act]; try list_member; done.
Qed.

Lemma leaving_rules id s rule :
  rule ∈ onTransitionFrom (otxStateDefinitionsMap id) s ->
  ar_Action rule ∈ [action_CancelResolveRetry id; action_CancelCurrentAssembly id; action_CancelCurrentSign id].
Proof. intros Hr. destruct s; cbn in Hr; split_members; cbn [ar_Action Act]; list_member. Qed.

Lemma entering_rules id s rule :
  rule ∈ onTransitionTo (otxStateDefinitionsMap id) s ->
  ar_Action rule ∈ [action_ResolveVerifiers id; action_Assemble id; action_FulfilSignAttestations id; action_QueueFinalizeEvent id].
Proof. intros Hr. destruct s; cbn in Hr; split_members; cbn [ar_Action Act]; list_member. Qed.

Lemma handle_delegated id c : respects (delegating id) (originatorTransactionHandleEvent id (OTx.DelegatedEvent c)).
Proof.
  intros o. destruct (decide (id ∈ o_heldLocks o)) as [Hid|Hid]; [by rewrite otxHandle_locked|].
  rewrite otxHandle_unlocked by done. set (o1 := o <| o_heldLocks ::= union {[id]} |>). set (event := OTx.DelegatedEvent c).
  assert (H1 : delegating id o o1) by done.
  pose proof (dispatch_stepped_at (otxEntity id) (otxStateDefinitionsMap id) (Some (otxTransitionCallback id)) (delegating id) event o1) as Hst.
  destruct (dispatchEvent _ _ _ event o1) as [o2 r]. cbn [fst].
  assert (H2 : delegating id o1 o2); [|destruct H1, H2; split; simpl; try congruence; intros j Hj; rewrite dg_others1; done].
  destruct Hst as [Hs|(h & tr & o3 & Hh & Htr & _ & Ho3 & Ht)]; [|exact Hs|].
  { intros h rule Hh Hr. apply delegating_actions. destruct (delegated_rules id _ h Hh) as [Ha _]. specialize (Ha rule Hr). set_solver. }
  destruct (delegated_rules id _ h Hh) as [_ Htrs]. rewrite (Htrs tr Htr) in Ht.
  assert (Hx : respects (delegating id) (executeActionRules event (onTransitionFrom (otxStateDefinitionsMap id) (GetCurrentState (otxEntity id) o3)))).
  { apply executeActionRules_respects; [apply _|]. intros rule Hr%leaving_rules. apply delegating_actions. set_solver. }
  pose proof (takeTransition_run (otxEntity id) (otxStateDefinitionsMap id) (Some (otxTransitionCallback id)) (delegating id)
    event (To OTx.State_Delegated []) o3 (respects_ret _ _) Hx) as Hrun. rewrite Ht in Hrun.
  destruct Hrun as (o4 & Ho4 & Hend). etrans; [exact Ho3|]. etrans; [apply (delegating_enterState id OTx.State_Delegated event)|].
  etrans; [exact Ho4|]. destruct Hend as [[-> _]|(o5 & Hcb & He)]; [done|].
  injection Hcb as <-. etrans; [apply (delegating_callback id (GetCurrentState (otxEntity id) o3) (GetCurrentState (otxEntity id) o4) event)|].
  change o2 with (o2, r).1. rewrite <- He. apply (executeActionRules_respects (delegating id)).
  intros rule Hr%entering_rules. apply delegating_actions. set_solver.
Qed.

(** ** The whole request *)

(** The transactions before the first whose verifiers are not resolved. *)
Fixpoint takeResolved (o : Originator) (l : list uuid) : list uuid :=
  match l with
  | [] => []
  | id :: rest => if unresolved (otxState id o) then [] else id :: takeResolved o rest
  end.

(** Of those, the ones a full or a partial delegation is about. *)
Definition toDelegate (full : bool) (o : Originator) (l : list uuid) : list uuid :=
  List.filter (fun id => full || awaitsAssembly (otxState id o)) (takeResolved o l).

(** Other transactions' states do not change while one is delegated. *)
Lemma toDelegate_delegating full id o o' l : delegating id o o' -> id ∉ l -> toDelegate full o' l = toDelegate full o l.
Proof.
  intros Hd. unfold toDelegate. induction l as [|x l IH]; intros Hn; simpl; [done|].
  assert (Hx : otxState x o' = otxState x o).
  { unfold otxState, otxMachineOf. rewrite (dg_others _ _ _ Hd); [done|]. set_solver. }
  rewrite Hx. case_match; [done|]. simpl. rewrite Hx, IH by set_solver. done.
Qed.

(** The same of several transactions. *)
Record sameDelegations (o o' : Originator) : Prop := MkSameDelegations {
  sdl_outbox : o_outbox o' = o_outbox o;
  sdl_height : o_currentBlockHeight o' = o_currentBlockHeight o;
  sdl_conf : o_conf o' = o_conf o;
  sdl_pts : forall j, ot_pt <$> o_transactionsByID o' !! j = ot_pt <$> o_transactionsByID o !! j
}.

Lemma delegationOf_same o o' id : sameDelegations o o' -> delegationOf o' id = delegationOf o id.
Proof.
  intros []. unfold delegationOf. specialize (sdl_pts0 id).
  destruct (o_transactionsByID o' !! id), (o_transactionsByID o !! id); try done. injection sdl_pts0 as ->. done.
Qed.

Lemma delegateOrdered_spec full c l o o' ids :
  NoDup l -> delegateOrdered full c l o = (o', Ok ids) -> ids = toDelegate full o l /\ sameDelegations o o'.
Proof.
  revert o ids. induction l as [|id l IH]; intros o ids Hnd Hrun; simpl in Hrun.
  { injection Hrun as <- <-. by split. }
  apply NoDup_cons in Hnd as [Hid Hnd]. unfold mbind, M_bind, gets in Hrun. unfold toDelegate. simpl.
  destruct (unresolved (otxState id o)); [injection Hrun as <- <-; by split|]. simpl.
  destruct (negb full && negb (awaitsAssembly (otxState id o))) eqn:Eb.
  - destruct (IH o ids Hnd Hrun) as [-> Hs]. destruct full, (awaitsAssembly _); try discriminate. by split.
  - assert (Hf : (full || awaitsAssembly (otxState id o)) = true) by (by destruct full, (awaitsAssembly _)). rewrite Hf.
    pose proof (handle_delegated id c o) as Hd. unfold internalError in Hrun.
    destruct (originatorTransactionHandleEvent id (OTx.DelegatedEvent c) o) as [o1 [[]|e|x]]; [|done..]. cbn [fst] in Hd.
    destruct (delegateOrdered full c l o1) as [o2 [later|e|x]] eqn:El; [|done..]. injection Hrun as <- <-.
    destruct (IH o1 later Hnd El) as [-> Hs]. rewrite (toDelegate_delegating full id o o1 l Hd Hid). split; [done|].
    destruct Hd, Hs. split; try congruence.
Qed.

(** A delegation request that is sent goes to the active coordinator and holds, in the order they
    were created, exactly the transactions that precede every transaction whose verifiers are still
    being resolved: all of them if the delegation is full, those that wait for their first assembly if
    it is partial.  Nothing else is sent, and with no such transaction nothing is. *)
Theorem delegation_in_creation_order full o o' :
  NoDup (o_transactionsOrdered o) -> sendDelegationRequest full o = (o', Ok tt) ->
  o_outbox o' = o_outbox o ++
    match toDelegate full o (o_transactionsOrdered o) with
    | [] => []
    | ids => [SendDelegationRequest (o_currentActiveCoordinator o)
                (MkDelegationRequest (o_currentActiveCoordinator o) (o_currentBlockHeight o) (oc_contractAddress (o_conf o))
                   (mjoin (delegationOf o <$> ids)))]
    end.
Proof.
  intros Hnd Hrun. unfold sendDelegationRequest, gets in Hrun. unfold mbind at 1, M_bind at 1 in Hrun. unfold mbind at 1, M_bind at 1 in Hrun.
  unfold mbind at 1, M_bind at 1 in Hrun.
  destruct (delegateOrdered full (o_currentActiveCoordinator o) (o_transactionsOrdered o) o) as [o1 [ids|e|x]] eqn:Ed; [|done..].
  apply delegateOrdered_spec in Ed as [-> Hs]; [|done]. destruct (toDelegate full o (o_transactionsOrdered o)) as [|id ids].
  - injection Hrun as <-. by rewrite (sdl_outbox _ _ Hs), app_nil_r.
  - unfold mbind, M_bind in Hrun. cbn beta iota in Hrun.
    assert (Hm : mjoin (delegationOf o1 <$> id :: ids) = mjoin (delegationOf o <$> id :: ids)).
    { f_equal. apply list_fmap_ext. intros i x _. by apply delegationOf_same. }
    rewrite Hm, (sdl_height _ _ Hs), (sdl_conf _ _ Hs) in Hrun. unfold sendO in Hrun.
    destruct (oenv_transport _ _); [done|]. injection Hrun as <-. simpl. by rewrite (sdl_outbox _ _ Hs).
Qed.
End Delegating.

Lemma delegation_in_creation_order_witness :
  toDelegate true (sendingOrig [7%N; 8%N]) (o_transactionsOrdered (sendingOrig [7%N; 8%N])) = [7%N; 8%N] /\
  length (o_outbox (sendDelegationRequest true (sendingOrig [7%N; 8%N])).1) = 1%nat.
Proof.
  split; [vm_compute; reflexivity|].
  rewrite (delegation_in_creation_order true (sendingOrig [7%N; 8%N]) (sendDelegationRequest true (sendingOrig [7%N; 8%N])).1).
  - vm_compute. reflexivity.
  - apply (bool_decide_unpack _). vm_compute. exact I.
  - vm_compute. reflexivity.
Defined.

(** ** A silent coordinator *)

Section Failover.
Context `{OrigEnv}.

(** One heartbeat interval passes. *)
Definition intervalPasses (o : Originator) : Originator := (originatorProcessEvent HeartbeatIntervalEvent o).1.

(** Silence is noticed once more than the grace period has passed. *)
Definition silent (o : Originator) : bool := (oc_inactiveGracePeriod (o_conf o) <? Z.succ (o_heartbeatIntervalsSinceLastReceive o))%Z.

Definition counted (o : Originator) : Originator := o <| o_heartbeatIntervalsSinceLastReceive ::= Z.succ |>.

Definition failedOver (next : string) (o : Originator) : Originator :=
  o <| o_currentBlockHeight := o_liveBlockHeight o |> <| o_currentActiveCoordinator := next |>
    <| o_failoverIndex := (o_failoverIndex o + 1) mod length (o_coordinatorPriorityList o) |>
    <| o_heartbeatIntervalsSinceLastReceive := 0%Z |>
    <| o_delegationLoop ::= fmap (fun l => l <| dlp_notifyFull := true |>) |>.

(** The originator is sending, has several candidates, and the epoch does not change. *)
Record awaiting (o : Originator) : Prop := MkAwaiting {
  aw_sending : origState o = State_Sending;
  aw_locked : o_locked o = false;
  aw_several : (1 < length (o_coordinatorPriorityList o))%nat;
  aw_failover : (o_failoverIndex o < length (o_coordinatorPriorityList o))%nat;
  aw_loop : is_Some (o_delegationLoop o);
  aw_epoch : ComputeEffectiveBlockHeight (u64 (o_liveBlockHeight o)) (oc_blockRange (o_conf o)) = Ok (o_effectiveBlockHeight o);
  aw_grace : (0 <= oc_inactiveGracePeriod (o_conf o))%Z;
  aw_counter : (0 <= o_heartbeatIntervalsSinceLastReceive o)%Z
}.

Lemma refresh_same_epoch o :
  ComputeEffectiveBlockHeight (u64 (o_liveBlockHeight o)) (oc_blockRange (o_conf o)) = Ok (o_effectiveBlockHeight o) ->
  refreshOriginatorBlockHeight o = (o <| o_currentBlockHeight := o_liveBlockHeight o |>, Ok tt).
Proof.
  intros He. unfold refreshOriginatorBlockHeight, mbind, M_bind, gets, modify, liftR. cbn. rewrite He. by rewrite Z.eqb_refl.
Qed.

Lemma intervalPasses_spec o next :
  awaiting o -> o_coordinatorPriorityList o !! o_failoverIndex o = Some next ->
  intervalPasses o = if silent o then failedOver next o else counted o.
Proof.
  intros [] Hn. unfold intervalPasses, originatorProcessEvent, withOrigLock. unfold mbind at 1, M_bind at 1. rewrite aw_locked0.
  cbn [origPreProcessEvent]. unfold mret, M_ret. unfold ProcessEvent. cbn [ent_lock origEntity].
  change (o_locked (o <| o_locked := true |> <| o_locked := false |>)) with false. cbn iota.
  set (o1 := o <| o_locked := true |> <| o_locked := false |> <| o_locked := true |>).
  unfold dispatchEvent, gets. unfold mbind at 1, M_bind at 1.
  change (GetCurrentState _ o1) with (origState o). rewrite aw_sending0.
  cbn [origStateDefinitionsMap origSending Events ent_type origEntity OriginatorType_of First ehs_Match ehs_Handlers].
  set (rules := [Act action_IncrementHeartbeatIntervalCounts; ActIf guard_InactiveGracePeriodExceeded action_RefreshBlockHeight;
                 ActIf guard_InactiveGracePeriodExceeded action_FailoverToNextCoordinator]).
  assert (Hx : executeActionRules HeartbeatIntervalEvent rules o1
    = ((if silent o then failedOver next o else counted o) <| o_locked := true |>, Ok tt)).
  { subst rules. set (o2 := counted o1). rewrite (exec_act _ _ _ o1 o2) by done.
    assert (Hg : guard_InactiveGracePeriodExceeded o2 = Some (silent o)) by done.
    destruct (silent o) eqn:Es.
    - set (o3 := o2 <| o_currentBlockHeight := o_liveBlockHeight o2 |>).
      rewrite (exec_actIf _ _ _ _ o2 o3) by (done || by apply refresh_same_epoch).
      set (o4 := (failedOver next o) <| o_locked := true |>). rewrite (exec_actIf _ _ _ _ o3 o4); [done|done|].
      unfold action_FailoverToNextCoordinator, gets. unfold mbind at 1, M_bind at 1. unfold mbind at 1, M_bind at 1.
      change (o_coordinatorPriorityList o3) with (o_coordinatorPriorityList o). rewrite (proj2 (Nat.ltb_lt _ _) aw_several0).
      unfold mbind at 1, M_bind at 1. change (o_failoverIndex o3) with (o_failoverIndex o). rewrite Hn. by destruct o.
    - rewrite !exec_skipIf by done. by destruct o. }
  match goal with |- context [processMatchFirst ?en ?de ?cb ?ev [?h] o1] =>
    rewrite (matchFirst_stays en de cb ev h [] o1 _ eq_refl Hx eq_refl) end.
  cbn [fst ent_unlock]. destruct (silent o); destruct o; simpl in *; by subst.
Qed.

(** What one interval keeps. *)
Definition sameCandidates (o o' : Originator) : Prop :=
  o_coordinatorPriorityList o' = o_coordinatorPriorityList o /\ o_conf o' = o_conf o.

Lemma awaiting_counted o : awaiting o -> awaiting (counted o).
Proof. intros []. split; try done. simpl. lia. Qed.

Lemma awaiting_failedOver next o : awaiting o -> awaiting (failedOver next o).
Proof.
  intros []. split; try done; simpl.
  - apply Nat.mod_upper_bound. lia.
  - by apply fmap_is_Some.
Qed.

(** Within one grace period and one interval there is a failover. *)
Lemma failover_within o next n :
  awaiting o -> o_coordinatorPriorityList o !! o_failoverIndex o = Some next ->
  (Z.to_nat (oc_inactiveGracePeriod (o_conf o) - o_heartbeatIntervalsSinceLastReceive o) <= n)%nat ->
  exists k o', (k <= S n)%nat /\ Nat.iter k intervalPasses o = o' /\ awaiting o' /\ sameCandidates o o' /\
    o_currentActiveCoordinator o' = next /\ o_failoverIndex o' = ((o_failoverIndex o + 1) mod length (o_coordinatorPriorityList o))%nat /\
    o_heartbeatIntervalsSinceLastReceive o' = 0%Z /\ (dlp_notifyFull <$> o_delegationLoop o') = Some true.
Proof.
  revert o. induction n as [|n IH]; intros o Ha Hn Hle.
  - exists 1%nat, (failedOver next o). split_and!; [done| |by apply awaiting_failedOver|done|done|done|done|].
    + cbn. rewrite (intervalPasses_spec o next Ha Hn). destruct (silent o) eqn:Es; [done|]. unfold silent in Es. apply Z.ltb_ge in Es. lia.
    + destruct (aw_loop o Ha) as [l Hl]. simpl. by rewrite Hl.
  - pose proof (intervalPasses_spec o next Ha Hn) as Hi. destruct (silent o) eqn:Es.
    + exists 1%nat, (failedOver next o). split_and!; [lia|done|by apply awaiting_failedOver|done|done|done|done|].
      destruct (aw_loop o Ha) as [l Hl]. simpl. by rewrite Hl.
    + destruct (IH (counted o)) as (k & o' & Hk & Ho' & Hrest); [by apply awaiting_counted|done| |].
      { unfold silent in Es. apply Z.ltb_ge in Es. simpl. lia. }
      exists (S k), o'. split; [lia|]. split; [|exact Hrest]. rewrite Nat.iter_succ_r, Hi. exact Ho'.
Qed.

Lemma failover_rounds r o :
  awaiting o -> exists k o', (k <= r * S (Z.to_nat (oc_inactiveGracePeriod (o_conf o))))%nat /\
    Nat.iter k intervalPasses o = o' /\ awaiting o' /\ sameCandidates o o' /\
    o_failoverIndex o' = ((o_failoverIndex o + r) mod length (o_coordinatorPriorityList o))%nat /\
    (r <> 0%nat -> o_coordinatorPriorityList o !! ((o_failoverIndex o + (r - 1)) mod length (o_coordinatorPriorityList o))%nat
                   = Some (o_currentActiveCoordinator o') /\ (dlp_notifyFull <$> o_delegationLoop o') = Some true).
Proof.
  induction r as [|r IH]; intros Ha.
  { exists 0%nat, o. split_and!; [lia|done|done|done| |done]. rewrite Nat.add_0_r, Nat.mod_small; [done|apply Ha]. }
  destruct (IH Ha) as (k & o1 & Hk & Ho1 & Ha1 & [Hp1 Hc1] & Hi1 & _). pose proof Ha1 as [].
  destruct (o_coordinatorPriorityList o1 !! o_failoverIndex o1) as [next|] eqn:Hn; [|by apply lookup_ge_None in Hn; lia].
  destruct (failover_within o1 next (Z.to_nat (oc_inactiveGracePeriod (o_conf o1))) Ha1 Hn) as (k' & o2 & Hk' & Ho2 & Ha2 & [Hp2 Hc2] & Hcur & Hi2 & _ & Hf); [lia|].
  exists (k' + k)%nat, o2. split_and!; [rewrite Hc1 in Hk'; lia|by rewrite Nat.iter_add, Ho1|done|split; congruence| |].
  - rewrite Hi2, Hi1, Hp1. rewrite Hp1 in aw_several0. rewrite Nat.Div0.add_mod_idemp_l. f_equal. lia.
  - intros _. split; [|done]. rewrite Hi1, Hp1 in Hn. rewrite Hcur, <- Hn. do 2 f_equal. lia.
Qed.

(** (C25) While the coordinator stays silent and the epoch does not change, an originator that is
    sending makes every candidate its coordinator in turn: each is reached within as many rounds as
    there are candidates, a round being the grace period and one more heartbeat interval, and a full
    delegation to it has then been asked for. *)
Theorem failover_reaches_every_candidate o node :
  awaiting o -> node ∈ o_coordinatorPriorityList o ->
  exists k, (k <= length (o_coordinatorPriorityList o) * S (Z.to_nat (oc_inactiveGracePeriod (o_conf o))))%nat /\
    o_currentActiveCoordinator (Nat.iter k intervalPasses o) = node /\
    (dlp_notifyFull <$> o_delegationLoop (Nat.iter k intervalPasses o)) = Some true.
Proof.
  intros Ha (i & Hi)%list_elem_of_lookup. pose proof Ha as []. set (n := length (o_coordinatorPriorityList o)) in *.
  assert (Hin : (i < n)%nat) by (by eapply lookup_lt_Some).
  set (r := S ((i + (n - o_failoverIndex o)) mod n)).
  assert (Hr : (r <= n)%nat) by (unfold r; pose proof (Nat.mod_upper_bound (i + (n - o_failoverIndex o)) n); lia).
  destruct (failover_rounds r o Ha) as (k & o' & Hk & <- & _ & _ & _ & Hlast). destruct Hlast as [Hcur Hf]; [done|].
  exists k. split_and!; [nia| |done]. fold n in Hcur. unfold r in Hcur. cbn [Nat.sub] in Hcur. rewrite Nat.sub_0_r in Hcur.
  assert (Hidx : ((o_failoverIndex o + (i + (n - o_failoverIndex o)) mod n) mod n = i)%nat).
  { rewrite Nat.Div0.add_mod_idemp_r. replace (o_failoverIndex o + (i + (n - o_failoverIndex o)))%nat with (i + 1 * n)%nat by lia.
    rewrite Nat.Div0.mod_add. by apply Nat.mod_small. }
  rewrite Hidx, Hi in Hcur. by injection Hcur as ->.
Qed.
End Failover.

Lemma failover_reaches_every_candidate_witness :
  exists k, (k <= 9)%nat /\ o_currentActiveCoordinator (Nat.iter k intervalPasses (sendingOrig [7%N])) = "node3"%string.
Proof.
  destruct (failover_reaches_every_candidate (sendingOrig [7%N]) "node3") as (k & Hk & Hc & _).
  - split; vm_compute; try reflexivity; try (by eexists); try (repeat constructor); discriminate.
  - vm_compute. apply list_elem_of_further, list_elem_of_further, list_elem_of_here.
  - exists k. split; [|exact Hc]. vm_compute in Hk. exact Hk.
Defined.
