(* ===== verification/OrigFinal.v ===== *)
(** * How a transaction leaves its originator

    The confirmation of a transaction, in whatever state it is, sets off events that end with the
    transaction removed and the originator observing again if it was the last.

    Sources: originator/transaction/finalizing.go, originator/originating.go. *)

From S2P Require Import Prelude StateMachine Identity Selection TxTypes CoordTypes TxPropagation Sample OrigTypes OrigWorld OrigTxActions.
From S2P Require Import OrigTxMachine OrigActions OrigMachine OrigSample OrigTxLifecycle OrigTxGates OrigInvariants OrigRuns OrigDelegation.
Import Orig.
Open Scope list_scope.

Section Leaving.
Context `{OrigEnv}.

(** An action of this transaction that succeeds and queues [q]. *)
Definition queues (id : uuid) (q : list OriginatorEvent) (m : M Originator unit) : Prop :=
  forall o t, o_transactionsByID o !! id = Some t ->
  exists o', m o = (o', Ok tt) /\ o_internalQueue o' = o_internalQueue o ++ q.

Lemma queues_leaving id event action :
  action ∈ [action_CancelResolveRetry id; action_CancelCurrentAssembly id; action_CancelCurrentSign id] -> queues id [] (action event).
Proof.
  intros Hin o t Ht. split_members;
    unfold action_CancelResolveRetry, clearResolveRetrySchedule, action_CancelCurrentAssembly, action_CancelCurrentSign, cancelAssembly, cancelSign;
    rewrite (bind_ok _ _ _ _ _ (getOTx_ok id o t Ht)); case_match; eexists; (split; [reflexivity|]); simpl; by rewrite app_nil_r.
Qed.

Lemma run_exits id event o t s :
  o_transactionsByID o !! id = Some t ->
  exists o' t', executeActionRules event (onTransitionFrom (otxStateDefinitionsMap id) s) o = (o', Ok tt) /\
    o_transactionsByID o' !! id = Some t' /\ ot_stateMachine t' = ot_stateMachine t /\ o_internalQueue o' = o_internalQueue o /\
    (forall j, j <> id -> o_transactionsByID o' !! j = o_transactionsByID o !! j).
Proof.
  intros Ht. destruct (onTransitionFrom (otxStateDefinitionsMap id) s) as [|rule rules] eqn:Ex.
  { exists o, t. by split_and!. }
  assert (Hr : rules = [] /\ ar_If rule = None) by (destruct s; cbn in Ex; by simplify_eq). destruct Hr as [-> Hif].
  assert (Hin : ar_Action rule ∈ [action_CancelResolveRetry id; action_CancelCurrentAssembly id; action_CancelCurrentSign id]).
  { apply (leaving_rules id s). rewrite Ex. left. }
  destruct rule as [action cond]. simpl in Hif, Hin. subst cond.
  destruct (queues_leaving id event action Hin o t Ht) as (o' & Ha & Hq).
  assert (Hf : frameOTx false id o o').
  { change o' with (o', Ok tt : res unit).1. rewrite <- Ha. apply otxActions_frame. unfold otxActions. split_members; list_member. }
  pose proof (fr_self _ _ _ _ Hf) as Hs. rewrite Ht in Hs. destruct (o_transactionsByID o' !! id) as [t'|] eqn:Ht'; [|done].
  exists o', t'. split_and!; [|done|by apply Hs|by rewrite Hq, app_nil_r|by apply Hf].
  change (MkActionRule action None) with (Act action). by rewrite (exec_act _ _ _ _ _ Ha).
Qed.

(** The events queued by entering a state that ends a transaction. *)
Definition entryQueue (id : uuid) (s : OTx.OriginatorTransactionState) : list OriginatorEvent :=
  match s with
  | OTx.State_Confirmed | OTx.State_Reverted => [TransactionEvent id OTx.FinalizeEvent]
  | _ => []
  end.

Lemma otx_goto id event t s' o :
  o_transactionsByID o !! id = Some t -> id ∉ o_heldLocks o -> s' = OTx.State_Confirmed \/ s' = OTx.State_Final ->
  Events (default (otxStateFinal) (otxStateDefinitionsMap id (currentState (ot_stateMachine t)))) (OTx.OriginatorTransactionType_of event)
    = First [On [] [To s' []]] ->
  exists o' t', originatorTransactionHandleEvent id event o = (o', Ok tt) /\ o_transactionsByID o' !! id = Some t' /\
    currentState (ot_stateMachine t') = s' /\
    o_internalQueue o' = o_internalQueue o ++ TransactionStateTransitionEvent id (currentState (ot_stateMachine t)) s' :: entryQueue id s' /\
    (forall j, j <> id -> o_transactionsByID o' !! j = o_transactionsByID o !! j).
Proof.
  intros Ht Hid Hs' Hev. set (s := currentState (ot_stateMachine t)) in *.
  rewrite (otxHandle_first id event t o (On [] [To s' []]) Ht Hid) by exact Hev. cbv zeta.
  set (o1 := o <| o_heldLocks ::= union {[id]} |>). change (o_transactionsByID o1 !! id = Some t) in Ht.
  rewrite matchFirst_plain. unfold unitM. unfold mbind at 1, M_bind at 1. rewrite evaluate_plain. unfold mbind at 1, M_bind at 1.
  unfold takeTransition, gets, modify. unfold mbind at 1, M_bind at 1. unfold mbind at 1, M_bind at 1.
  rewrite (otx_state_at id o1 t Ht). fold s. cbn [tr_To To tr_Actions].
  set (o2 := enterState (otxEntity id) s' event o1).
  set (t2 := t <| ot_stateMachine := MkMachine s' (Some (OTx.OriginatorTransactionType_of event)) (o_now o1) |>).
  assert (Ht2 : o_transactionsByID o2 !! id = Some t2) by (subst o2; by rewrite otx_enterState_lookup, decide_True, Ht by done).
  rewrite (bind_ok _ _ o2 o2 tt eq_refl).
  destruct (run_exits id event o2 t2 s Ht2) as (o3 & t3 & Hx & Ht3 & Hm3 & Hq3 & Ho3). rewrite (bind_ok _ _ _ _ _ Hx).
  unfold mbind at 1, M_bind at 1. rewrite (otx_state_at id o3 t3 Ht3), Hm3. cbn [currentState ot_stateMachine t2].
  unfold runCallback, modify. unfold mbind at 1, M_bind at 1.
  set (o4 := otxTransitionCallback id s s' event o3).
  assert (Hj : forall j, j <> id -> o_transactionsByID o4 !! j = o_transactionsByID o !! j).
  { intros j Hj. subst o4. rewrite callback_lookup. unfold setOTx. simpl. rewrite lookup_alter_ne, Ho3 by done.
    subst o2. by rewrite otx_enterState_lookup, decide_False. }
  assert (Ht4 : o_transactionsByID o4 !! id = Some (t3 <| ot_stateEntryTime := o_now o3 |>)).
  { subst o4. rewrite callback_lookup, lookup_setOTx. by rewrite Ht3. }
  assert (Hq4 : o_internalQueue o4 = o_internalQueue o ++ [TransactionStateTransitionEvent id s s']) by (subst o4; simpl; by rewrite Hq3).
  destruct Hs' as [-> | ->]; cbn [onTransitionTo otxStateDefinitionsMap otxStateConfirmed otxStateFinal OnTransitionTo].
  - eexists _, _. split; [reflexivity|]. split; [exact Ht4|]. split_and!; [simpl; by rewrite Hm3| |exact Hj].
    change (o_internalQueue o4 ++ [TransactionEvent id OTx.FinalizeEvent] = o_internalQueue o ++ TransactionStateTransitionEvent id s OTx.State_Confirmed :: entryQueue id OTx.State_Confirmed).
    by rewrite Hq4, <- app_assoc.
  - eexists _, _. split; [reflexivity|]. split; [exact Ht4|]. split_and!; [simpl; by rewrite Hm3|exact Hq4|exact Hj].
Qed.

(** ** The events that follow a confirmation *)

(** The originator is between events with [q] queued, and has the transaction in state [s]. *)
Record stage (id : uuid) (q : list OriginatorEvent) (s : OTx.OriginatorTransactionState) (o0 o : Originator) : Prop := MkStage {
  sg_ok : orig_ok o;
  sg_started : o_started o = true;
  sg_queue : o_internalQueue o = q;
  sg_state : exists t, o_transactionsByID o !! id = Some t /\ currentState (ot_stateMachine t) = s;
  sg_others : forall j, j <> id -> o_transactionsByID o !! j = o_transactionsByID o0 !! j;
  sg_dom : forall j, j ∈ o_transactionsOrdered o <-> j ∈ o_transactionsOrdered o0
}.

Lemma process_transactionEvent id e o t o' :
  o_locked o = false -> o_transactionsByID o !! id = Some t ->
  originatorTransactionHandleEvent id e (o <| o_locked := true |>) = (o', Ok tt) ->
  originatorProcessEvent (TransactionEvent id e) o = (o' <| o_locked := false |>, Ok tt).
Proof.
  intros Hl Ht Ho'. unfold originatorProcessEvent, withOrigLock, origPreProcessEvent. unfold mbind at 1, M_bind at 1. rewrite Hl.
  unfold mbind at 1, M_bind at 1. unfold propagateEventToTransaction. simpl. rewrite Ht. by rewrite Ho'.
Qed.

Lemma stage_goto id e q s s' o0 o :
  stage id q s o0 o -> s' = OTx.State_Confirmed \/ s' = OTx.State_Final ->
  Events (default otxStateFinal (otxStateDefinitionsMap id s)) (OTx.OriginatorTransactionType_of e) = First [On [] [To s' []]] ->
  exists o', originatorProcessEvent (TransactionEvent id e) o = (o', Ok tt) /\
    stage id (q ++ TransactionStateTransitionEvent id s s' :: entryQueue id s') s' o0 o'.
Proof.
  intros [Hok Hst Hq (t & Ht & <-) Hj Hd] Hs' Hev. set (o1 := o <| o_locked := true |>).
  destruct (otx_goto id e t s' o1 Ht) as (o2 & t2 & Ho2 & Ht2 & Hs2 & Hq2 & Hj2); [simpl; rewrite (ow_held _ (proj1 Hok)); set_solver|done|done|].
  pose proof (otxHandle_frame id e o1) as Hf. rewrite Ho2 in Hf. cbn [fst] in Hf.
  assert (Hp : originatorProcessEvent (TransactionEvent id e) o = (o2 <| o_locked := false |>, Ok tt)).
  { exact (process_transactionEvent id e o t o2 (proj2 Hok) Ht Ho2). }
  exists (o2 <| o_locked := false |>). split; [exact Hp|]. split.
  - by eapply orig_process_ok.
  - simpl. by rewrite (fr_started _ _ _ _ Hf).
  - simpl. rewrite Hq2. simpl. by rewrite Hq.
  - by exists t2.
  - intros j Hne. simpl. rewrite Hj2 by done. by apply Hj.
  - intros j. simpl. rewrite (fr_ordered _ _ _ _ Hf). apply Hd.
Qed.

(** The originator that is sending handles an event of its own with its lock free. *)
Lemma process_sending event o :
  o_locked o = false -> origState o = State_Sending -> OriginatorType_of event = Event_TransactionStateTransition ->
  let o1 := o <| o_locked := true |> in
  originatorProcessEvent event o
  = let '(o2, r) := processMatchFirst origEntity origStateDefinitionsMap None event
        [OnValid validator_OriginatorTransactionStateTransitionToFinal [Act action_CleanUpTransaction]
           [ToIf State_Observing (GuardNot guard_HasTransactions) []];
         finalizeHandler;
         OnValid validator_OriginatorTransactionStateTransitionFromResolving [Act action_NotifyPartialDelegation] []] o1 in
    (o2 <| o_locked := false |>, r).
Proof.
  intros Hl Hs Hty o1. pose proof (originatorProcessEvent_cases event o Hl) as Hp. destruct event; try discriminate Hty.
  cbn [origPreProcessEvent] in Hp. destruct Hp as [_ (_ & o2 & r2 & Hd & ->)]. fold o1 in Hd.
  unfold dispatchEvent, gets in Hd. unfold mbind at 1, M_bind at 1 in Hd.
  change (GetCurrentState origEntity o1) with (origState o) in Hd. rewrite Hs in Hd.
  cbn [origStateDefinitionsMap origSending Events ent_type origEntity OriginatorType_of First ehs_Match ehs_Handlers] in Hd. by rewrite Hd.
Qed.

Lemma stage_sending id q s o0 o : stage id q s o0 o -> origState o = State_Sending.
Proof.
  intros [[Hwf _] _ _ (t & Ht & _) _ _]. apply (ow_sending o Hwf). intros He.
  assert (Hin : id ∈ o_transactionsOrdered o) by (apply (ow_dom o Hwf), elem_of_dom; eauto). rewrite He in Hin. set_solver.
Qed.

(** A confirmed transaction is told to finalize. *)
Lemma stage_announce id q s from o0 o :
  stage id q s o0 o ->
  exists o', originatorProcessEvent (TransactionStateTransitionEvent id from OTx.State_Confirmed) o = (o', Ok tt) /\
    stage id (q ++ [TransactionEvent id OTx.FinalizeEvent]) s o0 o'.
Proof.
  intros Hsg. pose proof (stage_sending _ _ _ _ _ Hsg) as Hs. destruct Hsg as [Hok Hst Hq Hx Hj Hd].
  set (event := TransactionStateTransitionEvent id from OTx.State_Confirmed).
  set (o' := o <| o_internalQueue ::= fun l => l ++ [TransactionEvent id OTx.FinalizeEvent] |>).
  assert (Hp : originatorProcessEvent event o = (o', Ok tt)).
  { rewrite (process_sending event o (proj2 Hok) Hs eq_refl). cbv zeta. subst o'. pose proof (proj2 Hok) as Hl. destruct o. simpl in Hl. by subst. }
  exists o'. split; [done|]. split; try done; [by eapply orig_process_ok|]. simpl. by rewrite Hq.
Qed.

(** A final transaction that is told to finalize stays. *)
Lemma stage_ignored id q o0 o :
  stage id q OTx.State_Final o0 o ->
  exists o', originatorProcessEvent (TransactionEvent id OTx.FinalizeEvent) o = (o', Ok tt) /\ stage id q OTx.State_Final o0 o'.
Proof.
  intros Hsg. pose proof Hsg as [Hok Hst Hq (t & Ht & Hs) Hj Hd].
  set (o1 := o <| o_locked := true |>). exists o. split; [|done].
  assert (Ho : o = o1 <| o_locked := false |>) by (pose proof (proj2 Hok) as Hl; subst o1; destruct o; simpl in Hl; by subst).
  rewrite Ho at 2. apply (process_transactionEvent id _ o t o1 (proj2 Hok) Ht). fold o1.
  assert (Hid : id ∉ o_heldLocks o1) by (simpl; rewrite (ow_held _ (proj1 Hok)); set_solver).
  rewrite otxHandle_unlocked by done. set (o2 := o1 <| o_heldLocks ::= union {[id]} |>).
  rewrite (dispatch_declined _ _ _ _ o2 otxStateFinal); [|by rewrite (otx_state_at id o2 t Ht), Hs|done].
  f_equal. unfold unlockOTx. pose proof (ow_held _ (proj1 Hok)) as Hh. subst o2 o1. destruct o. unfold field_set. simpl in *. subst. f_equal. set_solver.
Qed.

(** The announcement of the end removes it. *)
Lemma stage_removed id q from o0 o :
  stage id q OTx.State_Final o0 o ->
  exists o', originatorProcessEvent (TransactionStateTransitionEvent id from OTx.State_Final) o = (o', Ok tt) /\
    orig_ok o' /\ o_internalQueue o' = q /\ o_transactionsByID o' !! id = None /\
    (forall j, j <> id -> o_transactionsByID o' !! j = o_transactionsByID o0 !! j) /\
    (forall j, j ∈ o_transactionsOrdered o' <-> j ∈ o_transactionsOrdered o0 /\ j <> id).
Proof.
  intros Hsg. pose proof (stage_sending _ _ _ _ _ Hsg) as Hs. destruct Hsg as [Hok Hst Hq _ Hj Hd].
  set (event := TransactionStateTransitionEvent id from OTx.State_Final).
  assert (Hp : exists o', originatorProcessEvent event o = (o', Ok tt) /\ o_internalQueue o' = o_internalQueue o /\
    o_transactionsByID o' = delete id (o_transactionsByID o) /\ o_transactionsOrdered o' = removeFromOrdered id (o_transactionsOrdered o)).
  { rewrite (process_sending event o (proj2 Hok) Hs eq_refl). cbv zeta. set (o1 := o <| o_locked := true |>). set (o2 := without id o1).
    cbn [processMatchFirst]. unfold mbind at 1, M_bind at 1, liftR. cbn [matchesHandler OnValid eh_Validator].
    change (validator_OriginatorTransactionStateTransitionToFinal event o1) with (Ok true : res bool). cbn iota. cbn [OnValid eh_Actions eh_Transitions].
    unfold mbind at 1, M_bind at 1. change (executeActionRules event [Act action_CleanUpTransaction] o1) with (o2, Ok tt : res unit). cbn iota.
    unfold mbind at 1, M_bind at 1.
    destruct (guard_HasTransactions o2) as [[|]|] eqn:Eg; [..|discriminate Eg].
    - rewrite evaluate_skips by (unfold GuardNot; by rewrite Eg). eexists. split; [reflexivity|]. by split_and!.
    - rewrite evaluate_takes by (unfold GuardNot; by rewrite Eg). unfold mbind at 1, M_bind at 1.
      set (o3 := (enterState origEntity State_Observing event o2) <| o_delegationLoop := None |>).
      assert (Ht : takeTransition origEntity origStateDefinitionsMap None event (ToIf State_Observing (GuardNot guard_HasTransactions) []) o2 = (o3, Ok tt)).
      { unfold takeTransition, gets. unfold mbind at 1, M_bind at 1. change (GetCurrentState origEntity o2) with (origState o). by rewrite Hs. }
      rewrite Ht. eexists. split; [reflexivity|]. by split_and!. }
  destruct Hp as (o' & Hp & Hq' & Hb' & Ho'). exists o'. split_and!; [done|by eapply orig_process_ok|congruence| | |].
  - by rewrite Hb', lookup_delete_eq.
  - intros j Hne. rewrite Hb', lookup_delete_ne by done. by apply Hj.
  - intros j. rewrite Ho', elem_of_removeFromOrdered by apply Hok. by rewrite Hd.
Qed.

(** The loop takes the head of the queue. *)
Lemma stage_pop id e q s o0 o :
  stage id (e :: q) s o0 o -> exists o1, nextOrigInternal o = Some (e, o1) /\ stage id q s o0 o1.
Proof.
  intros [Hok Hst Hq Hx Hj Hd]. exists (o <| o_internalQueue := q |>). unfold nextOrigInternal. rewrite Hq. split; [done|].
  split; try done. by eapply wf_background_fields; [..|exact Hok].
Qed.

Lemma drain_step fuel e o o1 o2 :
  nextOrigInternal o = Some (e, o1) -> originatorProcessEvent e o1 = (o2, Ok tt) -> drainOrigInternal (S fuel) o = drainOrigInternal fuel o2.
Proof. intros Hn Hp. cbn [drainOrigInternal]. by rewrite Hn, Hp. Qed.

(** (C26) A transaction that is reported confirmed, in whatever state it is before its end, leaves the
    originator: the events this sets off, four of them, end with the transaction removed, every other transaction
    untouched and nothing more queued, and with the originator still sending exactly if it has other
    transactions. *)
Theorem confirmed_transaction_leaves conf selection o id t :
  orig_reachable conf selection o -> o_started o = true -> o_internalQueue o = [] -> o_transactionsByID o !! id = Some t ->
  currentState (ot_stateMachine t) ∉ [OTx.State_Confirmed; OTx.State_Reverted; OTx.State_Final] ->
  let o' := drainOrigInternal 5 (originatorProcessEvent (TransactionEvent id OTx.ConfirmedSuccessEvent) o).1 in
  o_transactionsByID o' !! id = None /\ o_internalQueue o' = [] /\
  (forall j, j <> id -> o_transactionsByID o' !! j = o_transactionsByID o !! j) /\
  (origState o' = State_Sending <-> exists j, j <> id /\ j ∈ o_transactionsOrdered o).
Proof.
  intros Hr Hst Hq Ht Hs o'. set (s := currentState (ot_stateMachine t)) in *.
  assert (H0 : stage id [] s o o) by (split; [by eapply orig_reachable_ok|done|done|by exists t|done|done]).
  destruct (stage_goto id OTx.ConfirmedSuccessEvent [] s OTx.State_Confirmed o o H0) as (o1 & P1 & S1); [by left|destruct s; try done; set_solver|].
  apply stage_pop in S1 as (o1' & N1 & S1). destruct (stage_announce _ _ _ s _ _ S1) as (o2 & P2 & S2).
  apply stage_pop in S2 as (o2' & N2 & S2).
  destruct (stage_goto id OTx.FinalizeEvent _ _ OTx.State_Final _ _ S2) as (o3 & P3 & S3); [by right|done|]. cbn [app entryQueue] in S3.
  apply stage_pop in S3 as (o3' & N3 & S3). destruct (stage_ignored _ _ _ _ S3) as (o4 & P4 & S4).
  apply stage_pop in S4 as (o4' & N4 & S4). destruct (stage_removed _ _ OTx.State_Confirmed _ _ S4) as (o5 & P5 & Hok & Hq5 & Hn & Hj & Hd).
  assert (Eo : o' = o5).
  { unfold o'. rewrite P1. cbn [fst]. rewrite (drain_step _ _ _ _ _ N1 P2), (drain_step _ _ _ _ _ N2 P3), (drain_step _ _ _ _ _ N3 P4), (drain_step _ _ _ _ _ N4 P5).
    cbn [drainOrigInternal]. unfold nextOrigInternal. by rewrite Hq5. }
  rewrite Eo. split_and!; try done. rewrite (ow_sending o5 (proj1 Hok)). split.
  - intros Hne. destruct (o_transactionsOrdered o5) as [|j l]; [done|]. exists j. apply and_comm, Hd. left.
  - intros (j & Hj1 & Hj2) He. assert (Hin : j ∈ o_transactionsOrdered o5) by (by apply Hd). rewrite He in Hin. set_solver.
Qed.
End Leaving.

Lemma confirmed_transaction_leaves_witness :
  let o' := drainOrigInternal 5 (originatorProcessEvent (TransactionEvent 7%N OTx.ConfirmedSuccessEvent) (delegatedOrig [7%N])).1 in
  o_transactionsByID o' !! 7%N = None /\ origState o' = State_Observing.
Proof.
  split; [|vm_compute; reflexivity].
  destruct (o_transactionsByID (delegatedOrig [7%N]) !! 7%N) as [t|] eqn:Ht; [|vm_compute in Ht; discriminate Ht].
  destruct (confirmed_transaction_leaves _ _ (delegatedOrig [7%N]) 7%N t delegatedOrig_reachable) as [Hn _].
  - vm_compute. reflexivity.
  - vm_compute. reflexivity.
  - exact Ht.
  - vm_compute in Ht. injection Ht as <-. cbn. set_solver.
  - exact Hn.
Defined.
