(* ===== verification/NotoTypes.v ===== *)
(** * The Noto token: data and decoding (domains/noto)

    Noto is the token domain of the repository: coins are private states, a notary endorses every
    transaction that consumes and creates them.  This file holds its data: coins, locked coins and
    locks, the parameters of its functions, the categories of its errors, and the decoding of all of
    them from JSON.

    A JSON text is represented by the value it parses to, [None] for a text that is not JSON; what Go
    does with the members of an object when it fills a struct is in the decoders.  Member names are
    compared exactly.  What the domain gets from libraries that are not part of the repository (the
    parsing of addresses, EIP-712 and ABI encodings, Keccak, the recovery of a signer) and from the
    node that hosts it (its callbacks) is the class [NotoEnv].

    Sources: domains/noto/pkg/types, domains/noto/internal/noto/errors.go,
    domains/noto/internal/noto/states.go, sdk/go/pkg/pldtypes/hex_uint256.go. *)

From S2P Require Import Prelude HexBytes Identity.
From Stdlib Require Import Ascii.
Open Scope string_scope.

(** ** Errors (errors.go) *)

(** The categories of failure; the category decides whether a failure is final. *)
Inductive Category : Type :=
| callbackFailedError | encodeFailedError | invalidStoredStateError | invalidAssembledStateError
| invalidParamsError | unknownFunctionError | invalidAmountsError | invalidVerifierError
| invalidTransactionSpecError | invalidTransactionDataError | operationNotAllowedError
| invalidStateListError | invalidSignatureError | wrongOwnerError | invalidLockTransitionError
| lockNotFoundError | insufficientFundsError.

#[export] Instance Category_eq_dec : EqDecision Category.
Proof. solve_decision. Defined.

(** The predicates of a category, [None] where the category does not have it. *)
Definition IsAssembleRevert (c : Category) : option bool :=
  match c with
  | callbackFailedError | encodeFailedError | invalidStoredStateError | invalidAssembledStateError
  | invalidVerifierError | invalidTransactionSpecError | invalidTransactionDataError => Some false
  | invalidParamsError | unknownFunctionError | invalidAmountsError | lockNotFoundError | insufficientFundsError => Some true
  | operationNotAllowedError | invalidStateListError | invalidSignatureError | wrongOwnerError | invalidLockTransitionError => None
  end.

Definition IsEndorseRevert (c : Category) : option bool :=
  match c with
  | callbackFailedError | encodeFailedError => Some false
  | invalidParamsError | unknownFunctionError | invalidAmountsError | invalidVerifierError | invalidTransactionSpecError
  | invalidTransactionDataError | operationNotAllowedError | invalidStateListError | invalidSignatureError | wrongOwnerError
  | invalidLockTransitionError => Some true
  | invalidStoredStateError | invalidAssembledStateError | lockNotFoundError | insufficientFundsError => None
  end.

(** The result of a function of the domain: a value, an error with the key of its message, a panic (a
    nil pointer), or a loop that the fuel of the model does not see the end of. *)
Inductive outcome (A : Type) : Type :=
| Done (a : A)
| Fail (c : Category) (message : string)
| Panicked
| Running.
Arguments Done {A} a.
Arguments Fail {A} c message.
Arguments Panicked {A}.
Arguments Running {A}.

#[export] Instance outcome_ret : MRet outcome := fun A a => Done a.
#[export] Instance outcome_bind : MBind outcome := fun A B f m =>
  match m with Done a => f a | Fail c e => Fail c e | Panicked => Panicked | Running => Running end.

(** The dereference of a pointer. *)
Definition deref {A} (p : option A) : outcome A := match p with Some a => Done a | None => Panicked end.

(** [if err != nil] on a value that could not be had. *)
Definition orFail {A} (c : Category) (message : string) (p : option A) : outcome A :=
  match p with Some a => Done a | None => Fail c message end.

Definition require (b : bool) (c : Category) (message : string) : outcome unit := if b then Done tt else Fail c message.

(** ** JSON *)

Inductive json : Type :=
| JNull
| JBool (b : bool)
| JNumber (text : string)
| JString (s : string)
| JArray (l : list json)
| JObject (members : list (string * json)).

(** The member that fills a struct field: the last of the name that is not null, since null leaves the
    field empty. *)
Fixpoint member (name : string) (o : list (string * json)) : option json :=
  match o with
  | [] => None
  | (k, v) :: rest =>
      match member name rest with
      | Some x => Some x
      | None => if String.eqb k name then match v with JNull => None | _ => Some v end else None
      end
  end.

(** [json.Unmarshal] into a struct: null leaves it empty. *)
Definition decodeStruct (text : option json) : option (list (string * json)) :=
  match text with
  | Some JNull => Some []
  | Some (JObject o) => Some o
  | _ => None
  end.

(** [big.Int.SetString(s, 0)] (standard library): an optional sign, a base given by a prefix, digits
    with single underscores between them or after the prefix. *)
Definition digitIn (base : Z) (c : ascii) : option Z :=
  let n := Z.of_N (N_of_ascii c) in
  let d := (if (48 <=? n) && (n <=? 57) then n - 48
            else if (97 <=? n) && (n <=? 122) then n - 87
            else if (65 <=? n) && (n <=? 90) then n - 55 else 36)%Z in
  if (d <? base)%Z then Some d else None.

(** [sep]: an underscore may come next; [value]: what was read, [None] before the first digit. *)
Fixpoint scanDigits (base : Z) (sep : bool) (value : option Z) (s : string) : option Z :=
  match s with
  | EmptyString => if sep then value else None
  | String c s' =>
      if ascii_dec c "_" then (if sep then scanDigits base false value s' else None)
      else match digitIn base c with
           | Some d => scanDigits base true (Some (default 0 value * base + d)%Z) s'
           | None => None
           end
  end.

Definition scanNat (s : string) : option Z :=
  match s with
  | String "0" (String c s') =>
      if (bool_decide (c = "x"%char) || bool_decide (c = "X"%char))%bool then scanDigits 16 true None s'
      else if (bool_decide (c = "b"%char) || bool_decide (c = "B"%char))%bool then scanDigits 2 true None s'
      else if (bool_decide (c = "o"%char) || bool_decide (c = "O"%char))%bool then scanDigits 8 true None s'
      else scanDigits 8 true (Some 0%Z) (String c s')
  | _ => scanDigits 10 false None s
  end.

Definition SetString (s : string) : option Z :=
  match s with
  | String "-" s' => Z.opp <$> scanNat s'
  | String "+" s' => scanNat s'
  | _ => scanNat s
  end.

(** [ParseHexUint256] *)
Definition ParseHexUint256 (s : string) : option Z := SetString s.

(** [Text(16)] of a number that is not negative. *)
Fixpoint hexText (fuel : nat) (n : N) (acc : string) : string :=
  match fuel with
  | O => acc
  | S fuel => let acc' := String (hexDigit (n mod 16)) acc in if (n <? 16)%N then acc' else hexText fuel (n / 16)%N acc'
  end.

Definition TextHex (n : N) : string := hexText (S (N.to_nat (N.log2 n))) n "".

(** [HexUint256.String], [HexString0xPrefix]: the sign is dropped. *)
Definition HexUint256_String (z : Z) : string :=
  let str := TextHex (Z.abs_N z) in
  if Nat.even (String.length str) then "0x" ++ str else "0x0" ++ str.

(** ** Coins and locks (pkg/types/states.go) *)

(** 20 and 32 bytes. *)
Abbreviation EthAddress := string (only parsing).
Abbreviation Bytes32 := string (only parsing).

Fixpoint zeros (n : nat) : string := match n with O => "" | S n => String "000"%char (zeros n) end.

Definition Bytes32_IsZero (b : Bytes32) : bool := String.eqb b (zeros 32).
Definition Bytes32_String (b : Bytes32) : string := "0x" ++ hexEncode b.
Definition EthAddress_String (a : EthAddress) : string := "0x" ++ hexEncode a.
Definition EthAddress_IsZero (a : option EthAddress) : bool :=
  match a with None => true | Some a => String.eqb a (zeros 20) end.

Record NotoCoin : Type := MkNotoCoin { nc_Salt : Bytes32; nc_Owner : option EthAddress; nc_Amount : option Z }.

Record NotoLockedCoin : Type := MkNotoLockedCoin {
  nl_Salt : Bytes32; nl_LockID : Bytes32; nl_Owner : option EthAddress; nl_Amount : option Z }.

Record NotoLockInfo_V1 : Type := MkNotoLockInfo_V1 {
  li_Salt : Bytes32; li_LockID : Bytes32; li_Owner : option EthAddress; li_Spender : option EthAddress;
  li_Replaces : Bytes32; li_SpendTxId : Bytes32; li_SpendOutputs : list Bytes32; li_SpendData : string;
  li_CancelOutputs : list Bytes32; li_CancelData : string }.

Definition emptyLockInfo : NotoLockInfo_V1 :=
  MkNotoLockInfo_V1 (zeros 32) (zeros 32) None None (zeros 32) (zeros 32) [] "" [] "".

(** ** Configuration, transactions and requests *)

Inductive NotaryMode : Type := NotaryModeBasic | NotaryModeHooks.

#[export] Instance NotaryMode_eq_dec : EqDecision NotaryMode.
Proof. solve_decision. Defined.

(** [NotoBasicOptions]: pointers. *)
Record NotoBasicOptions : Type := MkNotoBasicOptions {
  bo_RestrictMint : option bool; bo_AllowBurn : option bool; bo_AllowLock : option bool }.

Record PentePrivateGroup : Type := MkPentePrivateGroup { pg_Salt : Bytes32; pg_Members : list string }.

Record NotoHooksOptions : Type := MkNotoHooksOptions {
  ho_PublicAddress : option EthAddress; ho_PrivateGroup : option PentePrivateGroup; ho_PrivateAddress : option EthAddress; ho_DevUsePublicHooks : bool }.

(** The fields of [NotoParsedConfig] that transactions and events use. *)
Record NotoParsedConfig : Type := MkNotoParsedConfig {
  cf_NotaryLookup : string; cf_NotaryMode : NotaryMode; cf_Variant : Z; cf_IsNotary : bool;
  cf_Basic : option NotoBasicOptions; cf_Hooks : option NotoHooksOptions }.

(** The public address of the hooks, if there are hook options and they have one. *)
Definition cf_HooksPublicAddress (c : NotoParsedConfig) : option EthAddress := cf_Hooks c ≫= ho_PublicAddress.

Definition IsV0 (c : NotoParsedConfig) : bool := (cf_Variant c =? 0)%Z.
Definition IsV1 (c : NotoParsedConfig) : bool := (cf_Variant c =? 1)%Z.
Definition IsV2 (c : NotoParsedConfig) : bool := ((cf_Variant c =? 2) || (cf_Variant c =? 258))%Z.
Definition IsNullifierVariant (c : NotoParsedConfig) : bool := (cf_Variant c =? 258)%Z.

(** [StateDataJson] of a state. *)
Abbreviation StateDataJson := (option json) (only parsing).

Record NotoState : Type := MkNotoState { ns_Id : string; ns_SchemaId : string; ns_StateDataJson : StateDataJson }.
Record StateRef : Type := MkStateRef { sr_SchemaId : string; sr_Id : string }.

Record NotoVerifier : Type := MkNotoVerifier { nv_Lookup : string; nv_Algorithm : string; nv_VerifierType : string; nv_Verifier : string }.
Record NotoAttestation : Type := MkNotoAttestation { na_Name : string; na_Verifier : option NotoVerifier; na_Payload : string }.

(** [TransactionSpecification]: the configuration is given decoded. *)
Record NotoTransaction : Type := MkNotoTransaction {
  nt_TransactionId : string; nt_From : string; nt_FunctionAbiJson : option json; nt_FunctionSignature : string;
  nt_FunctionParamsJson : option json; nt_ContractAddress : string; nt_ContractConfig : option NotoParsedConfig }.

Record EndorseTransactionRequest : Type := MkEndorseTransactionRequest {
  er_Transaction : NotoTransaction; er_ResolvedVerifiers : list NotoVerifier;
  er_Inputs : list NotoState; er_Reads : list NotoState; er_Outputs : list NotoState; er_Info : list NotoState;
  er_Signatures : list NotoAttestation }.

(** The typed data that a sender signs; [CoinData] is how a coin is encoded. *)
Record CoinData : Type := MkCoinData { cd_salt : Bytes32; cd_owner : option EthAddress; cd_amount : string }.
Record LockedCoinData : Type := MkLockedCoinData { ld_salt : Bytes32; ld_lockId : Bytes32; ld_owner : option EthAddress; ld_amount : string }.

Inductive TypedData : Type :=
| Typed_Transfer (contract : EthAddress) (inputs outputs : list CoinData)
| Typed_Lock (contract : EthAddress) (inputs outputs : list CoinData) (lockedOutputs : list LockedCoinData)
| Typed_Unlock (contract : EthAddress) (lockedInputs lockedOutputs : list LockedCoinData) (outputs : list CoinData)
| Typed_DelegateLock (contract : EthAddress) (lockId : Bytes32) (delegate : option EthAddress) (data : string).

(** What a query for states asks for: members that are equal, the states created after a time, and how
    they are sorted and how many are wanted. *)
Record StateQuery : Type := MkStateQuery {
  q_Limit : nat; q_NewestFirst : bool; q_Equal : list (string * string); q_CreatedAfter : option Z }.

Record StoredState : Type := MkStoredState { ss_Id : string; ss_SchemaId : string; ss_CreatedAt : Z; ss_DataJson : StateDataJson }.

(** What Noto is given by the libraries and the node. *)
Class NotoEnv : Type := {
  (** [ethtypes.NewAddress] *)
  nenv_NewAddress : string -> option EthAddress;
  (** [eip712.EncodeTypedDataV4] *)
  nenv_EncodeTypedDataV4 : TypedData -> option string;
  (** [secp256k1.DecodeCompactRSV] and [RecoverDirect] *)
  nenv_RecoverDirect : string -> string -> option EthAddress;
  (** [EncodeABIDataJSONCtx] of contract, notary and transaction id, hashed with Keccak *)
  nenv_lockIdHash : EthAddress -> EthAddress -> string -> option Bytes32;
  (** the same for tag, contract, salt, owner and amount *)
  nenv_nullifierHash : EthAddress -> Bytes32 -> EthAddress -> Z -> option Bytes32;
  (** the callback [LocalNodeName] *)
  nenv_LocalNodeName : option string;
  (** the callback [FindAvailableStates], for a schema and with or without nullifiers *)
  nenv_FindAvailableStates : string -> StateQuery -> bool -> option (list StoredState);
  (** the callback [ValidateStates], which gives the ids of new states *)
  nenv_ValidateStates : list (string * StateDataJson) -> option (list string);
  (** [EncodeABIDataJSONCtx] of the transaction data: the transaction id (in V0) and the info states *)
  nenv_EncodeTransactionData : option Bytes32 -> list Bytes32 -> option string;
  (** [RandBytes32] and [uuid.New], by the number of the draw *)
  nenv_RandBytes32 : nat -> Bytes32;
  nenv_NewUUID : nat -> string;
  (** [NotoABIFunctionsBySolSignature] and [NotoABI.Functions()] *)
  nenv_knownSignature : string -> bool;
  nenv_knownFunction : string -> bool
}.

(** The schemas of the domain, whose ids are set when it is initialised. *)
Record Noto : Type := MkNoto {
  n_coinSchema : string; n_lockedCoinSchema : string; n_lockInfoSchemaV0 : string; n_lockInfoSchemaV1 : string;
  n_dataSchemaV0 : string; n_dataSchemaV1 : string; n_dataSchemaV2 : string; n_manifestSchema : string }.

(** ** Parameters (pkg/types/abi.go) *)

Record UnlockRecipient : Type := MkUnlockRecipient { ur_To : string; ur_Amount : option Z }.

(** A slice of pointers: an entry may be nil. *)
Abbreviation Recipients := (list (option UnlockRecipient)) (only parsing).

(** The parameters of a V0 unlock, which its delegation has to repeat. *)
Record UnlockPublicParams : Type := MkUnlockPublicParams {
  uu_TxId : string; uu_LockedInputs : list string; uu_LockedOutputs : list string; uu_Outputs : list string; uu_Signature : string; uu_Data : string }.

Record UnlockParams : Type := MkUnlockParams { up_LockID : Bytes32; up_From : string; up_Recipients : Recipients; up_Data : string }.

Inductive NotoParams : Type :=
| MintParams (To : string) (Amount : option Z) (Data : string)
| TransferParams (To : string) (Amount : option Z) (Data : string)
| TransferFromParams (From To : string) (Amount : option Z) (Data : string)
| BurnParams (Amount : option Z) (Data : string)
| BurnFromParams (From : string) (Amount : option Z) (Data : string)
| LockParams (Amount : option Z) (Data : string)
| UnlockParams_ (p : UnlockParams)
| CreateTransferLockParams (From : string) (Recipients_ : Recipients) (UnlockData Data : string)
| CreateMintLockParams (Recipients_ : Recipients) (UnlockData Data : string)
| CreateBurnLockParams (From : string) (Amount : option Z) (UnlockData Data : string)
| PrepareUnlockParams (p : UnlockParams) (UnlockData Data : string)
| PrepareMintUnlockParams (LockID : Bytes32) (Recipients_ : Recipients) (UnlockData Data : string)
| PrepareBurnUnlockParams (LockID : Bytes32) (From : string) (Amount : option Z) (UnlockData Data : string)
| DelegateLockParams (LockID : Bytes32) (Unlock : option UnlockPublicParams) (Delegate : option EthAddress) (Data : string).

Record ParsedTransaction : Type := MkParsedTransaction {
  pt_Transaction : NotoTransaction; pt_ContractAddress_ : EthAddress; pt_DomainConfig : NotoParsedConfig; pt_Params : NotoParams }.

(** ** Decoding *)

Section Decoding.
Context `{NotoEnv}.

(** [Bytes32.UnmarshalText] *)
Definition textBytes32 (v : json) : option Bytes32 :=
  match v with
  | JString s => match ParseBytes32Ctx s with Ok b => Some b | _ => None end
  | _ => None
  end.

Definition fieldBytes32 (name : string) (o : list (string * json)) : option Bytes32 :=
  match member name o with None => Some (zeros 32) | Some v => textBytes32 v end.

Definition fieldString (name : string) (o : list (string * json)) : option string :=
  match member name o with None => Some "" | Some (JString s) => Some s | Some _ => None end.

(** [HexBytes.UnmarshalText] *)
Definition fieldHexBytes (name : string) (o : list (string * json)) : option string :=
  match member name o with
  | None => Some ""
  | Some (JString s) => match ParseHexBytes s with Ok b => Some (default "" b) | _ => None end
  | Some _ => None
  end.

(** [EthAddress.UnmarshalJSON], of a pointer *)
Definition fieldAddress (name : string) (o : list (string * json)) : option (option EthAddress) :=
  match member name o with
  | None => Some None
  | Some (JString s) => Some <$> nenv_NewAddress s
  | Some _ => None
  end.

(** [HexUint256.UnmarshalJSON], of a pointer: a string or a number *)
Definition fieldUint256 (name : string) (o : list (string * json)) : option (option Z) :=
  match member name o with
  | None => Some None
  | Some (JString s) | Some (JNumber s) => Some <$> ParseHexUint256 s
  | Some _ => None
  end.

Definition fieldBytes32s (name : string) (o : list (string * json)) : option (list Bytes32) :=
  match member name o with
  | None => Some []
  | Some (JArray l) => mapM (fun v => match v with JNull => Some (zeros 32) | _ => textBytes32 v end) l
  | Some _ => None
  end.

Definition fieldStrings (name : string) (o : list (string * json)) : option (list string) :=
  match member name o with
  | None => Some []
  | Some (JArray l) => mapM (fun v => match v with JNull => Some "" | JString s => Some s | _ => None end) l
  | Some _ => None
  end.

(** A pointer to an [UnlockPublicParams]. *)
Definition fieldUnlock (name : string) (o : list (string * json)) : option (option UnlockPublicParams) :=
  match member name o with
  | None => Some None
  | Some (JObject u) =>
      txId ← fieldString "txId" u; lockedInputs ← fieldStrings "lockedInputs" u; lockedOutputs ← fieldStrings "lockedOutputs" u;
      outputs ← fieldStrings "outputs" u; signature ← fieldHexBytes "signature" u; data ← fieldHexBytes "data" u;
      Some (Some (MkUnlockPublicParams txId lockedInputs lockedOutputs outputs signature data))
  | Some _ => None
  end.

Definition fieldRecipients (name : string) (o : list (string * json)) : option Recipients :=
  match member name o with
  | None => Some []
  | Some (JArray l) =>
      mapM (fun v =>
        match v with
        | JNull => Some None
        | JObject r => to ← fieldString "to" r; amount ← fieldUint256 "amount" r; Some (Some (MkUnlockRecipient to amount))
        | _ => None
        end) l
  | Some _ => None
  end.

(** [unmarshalCoin], [unmarshalLockedCoin] and [json.Unmarshal] into [NotoLockInfo_V1] *)
Definition unmarshalCoin (text : StateDataJson) : option NotoCoin :=
  o ← decodeStruct text;
  salt ← fieldBytes32 "salt" o; owner ← fieldAddress "owner" o; amount ← fieldUint256 "amount" o;
  Some (MkNotoCoin salt owner amount).

Definition unmarshalLockedCoin (text : StateDataJson) : option NotoLockedCoin :=
  o ← decodeStruct text;
  salt ← fieldBytes32 "salt" o; lockId ← fieldBytes32 "lockId" o; owner ← fieldAddress "owner" o; amount ← fieldUint256 "amount" o;
  Some (MkNotoLockedCoin salt lockId owner amount).

Definition unmarshalLockV1 (text : StateDataJson) : option NotoLockInfo_V1 :=
  o ← decodeStruct text;
  salt ← fieldBytes32 "salt" o; lockId ← fieldBytes32 "lockId" o; owner ← fieldAddress "owner" o; spender ← fieldAddress "spender" o;
  replaces ← fieldBytes32 "replaces" o; spendTxId ← fieldBytes32 "spendTxId" o;
  spendOutputs ← fieldBytes32s "spendOutputs" o; spendData ← fieldHexBytes "spendData" o;
  cancelOutputs ← fieldBytes32s "cancelOutputs" o; cancelData ← fieldHexBytes "cancelData" o;
  Some (MkNotoLockInfo_V1 salt lockId owner spender replaces spendTxId spendOutputs spendData cancelOutputs cancelData).

(** [unmarshalCoinStrict]: [DisallowUnknownFields]. *)
Definition unmarshalCoinStrict (text : StateDataJson) : option NotoCoin :=
  o ← decodeStruct text;
  if forallb (fun kv => existsb (String.eqb kv.1) ["salt"; "owner"; "amount"]) o then unmarshalCoin text else None.

Definition marshalCoin (c : NotoCoin) : StateDataJson :=
  Some (JObject [("salt", JString (Bytes32_String (nc_Salt c)));
                 ("owner", match nc_Owner c with Some a => JString (EthAddress_String a) | None => JNull end);
                 ("amount", match nc_Amount c with Some z => JString (HexUint256_String z) | None => JNull end)]).

Definition marshalLockedCoin (c : NotoLockedCoin) : StateDataJson :=
  Some (JObject [("salt", JString (Bytes32_String (nl_Salt c))); ("lockId", JString (Bytes32_String (nl_LockID c)));
                 ("owner", match nl_Owner c with Some a => JString (EthAddress_String a) | None => JNull end);
                 ("amount", match nl_Amount c with Some z => JString (HexUint256_String z) | None => JNull end)]).
End Decoding.
