(* ===== verification/NotoChecks.v ===== *)
(** * The Noto token: the checks of the notary

    What the endorsement of every Noto function is made of: coin lists, amounts, owners, the sender's
    signature, and the transitions of locks.

    Sources: domains/noto/internal/noto/noto.go, handlers.go, locks.go, states.go,
    toolkit/go/pkg/domain/util.go. *)

From S2P Require Import Prelude HexBytes Identity NotoTypes.
Open Scope string_scope.

Section Checks.
Context `{NotoEnv} (n : Noto).

(** ** Parties *)

Record identityPair : Type := MkIdentityPair { ip_identifier : string; ip_address : EthAddress }.

Definition FindVerifier (lookup algorithm verifierType : string) (l : list NotoVerifier) : option NotoVerifier :=
  List.find (fun v => String.eqb (nv_Lookup v) lookup && String.eqb (nv_Algorithm v) algorithm && String.eqb (nv_VerifierType v) verifierType)%bool l.

Definition FindAttestation (name : string) (l : list NotoAttestation) : option NotoAttestation :=
  List.find (fun a => String.eqb (na_Name a) name) l.

Definition ECDSA_SECP256K1 : string := "ecdsa:secp256k1".
Definition ETH_ADDRESS : string := "eth_address".

Definition findEthAddressVerifier (lookup : string) (verifierList : list NotoVerifier) : outcome identityPair :=
  verifier ← orFail invalidVerifierError "MsgErrorVerifyingAddress" (FindVerifier lookup ECDSA_SECP256K1 ETH_ADDRESS verifierList);
  address ← orFail invalidVerifierError "ParseEthAddress" (nenv_NewAddress (nv_Verifier verifier));
  mret (MkIdentityPair lookup address).

(** ** Coin lists *)

Record parsedCoins : Type := MkParsedCoins {
  pc_coins : list NotoCoin; pc_states : list StateRef; pc_total : Z;
  pc_lockedCoins : list NotoLockedCoin; pc_lockedStates : list StateRef; pc_lockedTotal : Z }.

Definition noCoins : parsedCoins := MkParsedCoins [] [] 0 [] [] 0.

(** The loop of [parseCoinList]; [used] are the ids seen before. *)
Fixpoint parseStates (used : list string) (result : parsedCoins) (states : list NotoState) : outcome parsedCoins :=
  match states with
  | [] => mret result
  | state :: rest =>
      if existsb (String.eqb (ns_Id state)) used then Fail invalidStateListError "MsgDuplicateStateInList"
      else
        let used := ns_Id state :: used in
        let ref := MkStateRef (ns_SchemaId state) (ns_Id state) in
        if String.eqb (ns_SchemaId state) (n_coinSchema n) then
          coin ← orFail invalidStateListError "MsgInvalidListInput" (unmarshalCoin (ns_StateDataJson state));
          amount ← deref (nc_Amount coin);
          parseStates used (MkParsedCoins (pc_coins result ++ [coin]) (pc_states result ++ [ref]) (pc_total result + amount)
                              (pc_lockedCoins result) (pc_lockedStates result) (pc_lockedTotal result)) rest
        else if String.eqb (ns_SchemaId state) (n_lockedCoinSchema n) then
          coin ← orFail invalidStateListError "MsgInvalidListInput" (unmarshalLockedCoin (ns_StateDataJson state));
          amount ← deref (nl_Amount coin);
          parseStates used (MkParsedCoins (pc_coins result) (pc_states result) (pc_total result)
                              (pc_lockedCoins result ++ [coin]) (pc_lockedStates result ++ [ref]) (pc_lockedTotal result + amount)) rest
        else if String.eqb (ns_SchemaId state) (n_lockInfoSchemaV1 n) then parseStates used result rest
        else Fail invalidStateListError "MsgUnexpectedSchema"
  end.

Definition parseCoinList (states : list NotoState) : outcome parsedCoins := parseStates [] noCoins states.

Definition filterSchema (states : list NotoState) (schemas : list string) : list NotoState :=
  List.filter (fun state => existsb (String.eqb (ns_SchemaId state)) schemas) states.

(** ** Amounts *)

Definition noneOf {A} (l : list A) : bool := match l with [] => true | _ => false end.

(** A parameter of type [*HexUint256] that is compared: a nil pointer panics. *)
Definition validateMintAmounts (Amount : option Z) (inputs outputs : parsedCoins) : outcome unit :=
  require (noneOf (pc_coins inputs)) invalidAmountsError "MsgInvalidInputs" ≫= fun _ =>
  amount ← deref Amount;
  require (pc_total outputs =? amount)%Z invalidAmountsError "MsgInvalidAmount".

Definition validateTransferAmounts (inputs outputs : parsedCoins) : outcome unit :=
  require (negb (noneOf (pc_coins inputs))) invalidAmountsError "MsgInvalidInputs" ≫= fun _ =>
  require (pc_total inputs =? pc_total outputs)%Z invalidAmountsError "MsgInvalidAmount".

Definition validateBurnAmounts (Amount : option Z) (inputs outputs : parsedCoins) : outcome unit :=
  require (negb (noneOf (pc_coins inputs))) invalidAmountsError "MsgInvalidInputs" ≫= fun _ =>
  let amount := (pc_total inputs - pc_total outputs)%Z in
  expected ← deref Amount;
  require (amount =? expected)%Z invalidAmountsError "MsgInvalidAmount".

Definition validateLockAmounts (cfg : NotoParsedConfig) (inputs outputs : parsedCoins) : outcome unit :=
  require (negb (IsV0 cfg && noneOf (pc_coins inputs))) invalidAmountsError "MsgInvalidInputs" ≫= fun _ =>
  let amount := (pc_total inputs - pc_total outputs)%Z in
  require (amount =? pc_lockedTotal outputs)%Z invalidAmountsError "MsgInvalidAmount".

Definition validateUnlockAmounts (cfg : NotoParsedConfig) (inputs outputs : parsedCoins) : outcome unit :=
  require (negb (IsV0 cfg && noneOf (pc_lockedCoins inputs))) invalidAmountsError "MsgInvalidInputs" ≫= fun _ =>
  let amount := (pc_lockedTotal inputs - pc_lockedTotal outputs)%Z in
  require (amount =? pc_total outputs)%Z invalidAmountsError "MsgInvalidAmount".

(** ** Owners *)

(** [EthAddress.Equals] of two pointers. *)
Definition addressEquals (a b : option EthAddress) : bool := bool_decide (a = b).

Definition validateOwners (owner : string) (verifiers : list NotoVerifier) (coins : list NotoCoin) : outcome unit :=
  fromAddress ← findEthAddressVerifier owner verifiers;
  require (forallb (fun coin => addressEquals (nc_Owner coin) (Some (ip_address fromAddress))) coins) wrongOwnerError "MsgStateWrongOwner".

Definition validateLockOwners (owner : string) (verifiers : list NotoVerifier) (coins : list NotoLockedCoin) : outcome unit :=
  fromAddress ← findEthAddressVerifier owner verifiers;
  require (forallb (fun coin => addressEquals (nl_Owner coin) (Some (ip_address fromAddress))) coins) wrongOwnerError "MsgStateWrongOwner".

(** ** Signatures *)

(** [encodeNotoCoins], [encodeNotoLockedCoins]; a nil amount panics in [String]. *)
Definition encodeNotoCoins (coins : list NotoCoin) : outcome (list CoinData) :=
  foldr (fun c acc => a ← deref (nc_Amount c); l ← acc; mret (MkCoinData (nc_Salt c) (nc_Owner c) (HexUint256_String a) :: l)) (mret []) coins.

Definition encodeNotoLockedCoins (coins : list NotoLockedCoin) : outcome (list LockedCoinData) :=
  foldr (fun c acc => a ← deref (nl_Amount c); l ← acc;
           mret (MkLockedCoinData (nl_Salt c) (nl_LockID c) (nl_Owner c) (HexUint256_String a) :: l)) (mret []) coins.

Definition encodeTransferUnmasked (contract : EthAddress) (inputs outputs : list NotoCoin) : outcome string :=
  i ← encodeNotoCoins inputs; o ← encodeNotoCoins outputs;
  orFail encodeFailedError "EncodeTypedDataV4" (nenv_EncodeTypedDataV4 (Typed_Transfer contract i o)).

Definition encodeLock (contract : EthAddress) (inputs outputs : list NotoCoin) (lockedOutputs : list NotoLockedCoin) : outcome string :=
  i ← encodeNotoCoins inputs; o ← encodeNotoCoins outputs; l ← encodeNotoLockedCoins lockedOutputs;
  orFail encodeFailedError "EncodeTypedDataV4" (nenv_EncodeTypedDataV4 (Typed_Lock contract i o l)).

Definition encodeUnlock (contract : EthAddress) (lockedInputs lockedOutputs : list NotoLockedCoin) (outputs : list NotoCoin) : outcome string :=
  li ← encodeNotoLockedCoins lockedInputs; lo ← encodeNotoLockedCoins lockedOutputs; o ← encodeNotoCoins outputs;
  orFail encodeFailedError "EncodeTypedDataV4" (nenv_EncodeTypedDataV4 (Typed_Unlock contract li lo o)).

Definition encodeDelegateLock (contract : EthAddress) (lockID : Bytes32) (delegate : option EthAddress) (data : string) : outcome string :=
  orFail encodeFailedError "EncodeTypedDataV4" (nenv_EncodeTypedDataV4 (Typed_DelegateLock contract lockID delegate data)).

Definition validateSignature (name : string) (attestations : list NotoAttestation) (encodedMessage : string) : outcome unit :=
  signature ← orFail invalidSignatureError "MsgAttestationNotFound" (FindAttestation name attestations);
  recovered ← orFail invalidSignatureError "recoverSignature" (nenv_RecoverDirect encodedMessage (na_Payload signature));
  verifier ← deref (na_Verifier signature);
  require (String.eqb (EthAddress_String recovered) (nv_Verifier verifier)) invalidSignatureError "MsgSignatureDoesNotMatch".

(** ** Locks *)

Definition computeLockIDForLockTX (tx : ParsedTransaction) (notaryID : identityPair) : outcome Bytes32 :=
  let cfg := pt_DomainConfig tx in
  let senderAddress :=
    match cf_NotaryMode cfg, cf_HooksPublicAddress cfg with
    | NotaryModeHooks, Some public => public
    | _, _ => ip_address notaryID
    end in
  orFail invalidTransactionDataError "EncodeABIDataJSONCtx"
    (nenv_lockIdHash (pt_ContractAddress_ tx) senderAddress (nt_TransactionId (pt_Transaction tx))).

Inductive lockTransitionType : Type := LOCK_DECODE_ANY | LOCK_CREATE | LOCK_UPDATE | LOCK_SPEND.

(** A lock state with what it decodes to and its parsed id. *)
Record lockVersion : Type := MkLockVersion { lv_state : NotoState; lv_id : Bytes32; lv_info : NotoLockInfo_V1 }.

Record lockTransition : Type := MkLockTransition { lt_prev : option lockVersion; lt_new : option lockVersion }.

Definition lt_newLockInfo (lt : lockTransition) : NotoLockInfo_V1 := from_option lv_info emptyLockInfo (lt_new lt).

(** The counts of lock states that a transition of the type has. *)
Definition transitionShape (transitionType : lockTransitionType) (inputs outputs : list NotoState) : bool :=
  match transitionType, inputs, outputs with
  | LOCK_DECODE_ANY, _, _ | LOCK_CREATE, [], [_] | LOCK_SPEND, [_], [] | LOCK_UPDATE, [_], [_] => true
  | _, _, _ => false
  end.

Definition decodeLock (state : NotoState) : outcome lockVersion :=
  match unmarshalLockV1 (ns_StateDataJson state), ParseBytes32Ctx (ns_Id state) with
  | Some info, Ok id => mret (MkLockVersion state id info)
  | _, _ => Fail invalidLockTransitionError "MsgInvalidLockState"
  end.

(** The lock that a transition consumes, if exactly one is there. *)
Definition prevLock (senderID : option identityPair) (inputs : list NotoState) : outcome (option lockVersion) :=
  match inputs with
  | [state] =>
      prev ← decodeLock state;
      match senderID with
      | Some sender =>
          require (addressEquals (li_Owner (lv_info prev)) (Some (ip_address sender))) wrongOwnerError "MsgStateWrongOwner" ≫= fun _ => mret (Some prev)
      | None => mret (Some prev)
      end
  | _ => mret None
  end.

Definition validNewLock (info : NotoLockInfo_V1) : bool :=
  negb (Bytes32_IsZero (li_Salt info)
        || match li_Owner info with None => true | Some _ => false end
        || match li_Spender info with None => true | Some _ => false end
        || (negb (noneOf (li_SpendOutputs info)) && Bytes32_IsZero (li_SpendTxId info)))%bool.

Definition validSuccessor (prev : lockVersion) (info : NotoLockInfo_V1) : bool :=
  (addressEquals (li_Owner info) (li_Owner (lv_info prev))
   && String.eqb (li_LockID info) (li_LockID (lv_info prev))
   && String.eqb (Bytes32_String (li_Replaces info)) (ns_Id (lv_state prev))
   && negb (String.eqb (li_Salt info) (li_Salt (lv_info prev))))%bool.

(** The lock that a transition creates, if exactly one is there. *)
Definition newLock (lockID : option Bytes32) (prev : option lockVersion) (outputs : list NotoState) : outcome (option lockVersion) :=
  match outputs with
  | [state] =>
      next ← decodeLock state;
      require (validNewLock (lv_info next)) invalidLockTransitionError "MsgInvalidLockState" ≫= fun _ =>
      require (match lockID with Some id => String.eqb (li_LockID (lv_info next)) id | None => true end)
        invalidLockTransitionError "MsgInvalidLockStateLockID" ≫= fun _ =>
      require (match prev with Some p => validSuccessor p (lv_info next) | None => true end)
        invalidLockTransitionError "MsgInvalidLockTransition" ≫= fun _ =>
      mret (Some next)
  | _ => mret None
  end.

Definition validateV1LockTransition (transitionType : lockTransitionType) (senderID : option identityPair) (lockID : option Bytes32)
    (inputs outputs : list NotoState) : outcome lockTransition :=
  let inputLockInfoStates := filterSchema inputs [n_lockInfoSchemaV1 n] in
  let outputLockInfoStates := filterSchema outputs [n_lockInfoSchemaV1 n] in
  require (transitionShape transitionType inputLockInfoStates outputLockInfoStates) invalidLockTransitionError "MsgInvalidLockTransition" ≫= fun _ =>
  prev ← prevLock senderID inputLockInfoStates;
  next ← newLock lockID prev outputLockInfoStates;
  mret (MkLockTransition prev next).

(** The coins among [infoStates] that are listed, once for each time their id is listed. *)
Definition listedOutputs (expected : list Bytes32) (output : NotoState) : list NotoState :=
  (fun _ => output) <$> List.filter (fun e => String.eqb (ns_Id output) (Bytes32_String e)) expected.

Definition splitOutputs (lt : lockTransition) (infoStates : list NotoState) : outcome (list NotoState * list NotoState) :=
  let coins := filterSchema infoStates [n_coinSchema n] in
  let info := lt_newLockInfo lt in
  let spendOutputs := mjoin (listedOutputs (li_SpendOutputs info) <$> coins) in
  let cancelOutputs := mjoin (listedOutputs (li_CancelOutputs info) <$> coins) in
  require ((length spendOutputs =? length (li_SpendOutputs info)) && (length cancelOutputs =? length (li_CancelOutputs info)))%nat
    invalidLockTransitionError "MsgInvalidLockTransition" ≫= fun _ =>
  mret (spendOutputs, cancelOutputs).

Definition decodeV1LockTransitionWithOutputs (transitionType : lockTransitionType) (senderID : option identityPair) (lockID : option Bytes32)
    (inputs outputs infoStates : list NotoState) : outcome (lockTransition * list NotoState * list NotoState) :=
  lt ← validateV1LockTransition transitionType senderID lockID inputs outputs;
  split ← splitOutputs lt infoStates;
  mret (lt, split.1, split.2).

(** ** Nullifiers *)

(** [stateNullifier]: [None] for a state that is not an unlocked coin. *)
Definition stateNullifier (contract : EthAddress) (state : NotoState) : outcome (option string) :=
  if negb (String.eqb (ns_SchemaId state) (n_coinSchema n)) then mret None
  else
    match unmarshalCoinStrict (ns_StateDataJson state) with
    | None => Fail invalidStateListError "MsgInvalidStateData"
    | Some coin =>
        match nc_Owner coin, nc_Amount coin with
        | Some owner, Some amount =>
            hash ← orFail invalidStateListError "nullifierHash" (nenv_nullifierHash contract (nc_Salt coin) owner amount);
            mret (Some ("0x" ++ hexEncode hash))
        | _, _ => Fail invalidStateListError "MsgIncompleteCoinForNullifier"
        end
    end.

(** The loop of [validateDistinctNullifiers]: states seen by id, and the nullifiers they derived. *)
Fixpoint distinctNullifiers (contract : EthAddress) (seen nullifiers : list string) (states : list NotoState) : outcome unit :=
  match states with
  | [] => mret tt
  | state :: rest =>
      if existsb (String.eqb (ns_Id state)) seen then distinctNullifiers contract seen nullifiers rest
      else
        nullifier ← stateNullifier contract state;
        match nullifier with
        | None => distinctNullifiers contract (ns_Id state :: seen) nullifiers rest
        | Some x =>
            if existsb (String.eqb x) nullifiers then Fail invalidStateListError "MsgDuplicateNullifierInList"
            else distinctNullifiers contract (ns_Id state :: seen) (x :: nullifiers) rest
        end
  end.

Definition validateDistinctNullifiers (contract : EthAddress) (stateLists : list (list NotoState)) : outcome unit :=
  distinctNullifiers contract [] [] (mjoin stateLists).
End Checks.
