(* ===== verification/NotoEndorse.v ===== *)
(** * The Noto token: parameters and endorsement

    The fourteen functions of Noto: how their parameters are validated, who may call them, and what
    the notary checks before it endorses.  [EndorseTransaction] dispatches on the function as the
    domain does and turns a failure into a revert or an error by its category.

    Sources: domains/noto/internal/noto/noto.go, handlers.go and the handler_*.go files. *)

From S2P Require Import Prelude HexBytes Identity NotoTypes NotoChecks.
Open Scope string_scope.

Section Endorse.
Context `{NotoEnv} (n : Noto).

(** ** Parameters *)

(** A required amount: present and positive. *)
Definition positiveAmount (amount : option Z) (what : string) : outcome unit :=
  require (match amount with Some a => (0 <? a)%Z | None => false end) invalidParamsError ("MsgParameterGreaterThanZero " ++ what).

Definition requiredParam (s what : string) : outcome unit :=
  require (negb (String.eqb s "")) invalidParamsError ("MsgParameterRequired " ++ what).

(** The entries of a slice of pointers: a nil entry panics. *)
Definition validateRecipients (recipients : Recipients) : outcome unit :=
  require (negb (noneOf recipients)) invalidParamsError "MsgParameterRequired recipients" ≫= fun _ =>
  foldl (fun acc entry => acc ≫= fun _ => r ← deref entry; positiveAmount (ur_Amount r) "recipient amount") (mret tt) recipients.

Definition validateTransferParams (To : string) (Amount : option Z) : outcome unit :=
  requiredParam To "to" ≫= fun _ => positiveAmount Amount "amount".

Definition validateUnlockParams (p : UnlockParams) : outcome unit :=
  require (negb (Bytes32_IsZero (up_LockID p))) invalidParamsError "MsgParameterRequired lockId" ≫= fun _ =>
  requiredParam (up_From p) "from" ≫= fun _ =>
  validateRecipients (up_Recipients p).

Definition notInV0 (cfg : NotoParsedConfig) : outcome unit := require (negb (IsV0 cfg)) invalidParamsError "MsgUnknownDomainVariant".

(** The functions of [GetHandler]. *)
Inductive NotoFunction : Type :=
| Fn_mint | Fn_transfer | Fn_transferFrom | Fn_burn | Fn_burnFrom | Fn_lock | Fn_unlock | Fn_createTransferLock | Fn_createMintLock
| Fn_createBurnLock | Fn_prepareUnlock | Fn_prepareMintUnlock | Fn_prepareBurnUnlock | Fn_delegateLock.

Definition GetHandler (method : string) : option NotoFunction :=
  if String.eqb method "mint" then Some Fn_mint
  else if String.eqb method "transfer" then Some Fn_transfer
  else if String.eqb method "transferFrom" then Some Fn_transferFrom
  else if String.eqb method "burn" then Some Fn_burn
  else if String.eqb method "burnFrom" then Some Fn_burnFrom
  else if (String.eqb method "lock" || String.eqb method "createLock")%bool then Some Fn_lock
  else if String.eqb method "unlock" then Some Fn_unlock
  else if String.eqb method "createTransferLock" then Some Fn_createTransferLock
  else if String.eqb method "createMintLock" then Some Fn_createMintLock
  else if String.eqb method "createBurnLock" then Some Fn_createBurnLock
  else if String.eqb method "prepareUnlock" then Some Fn_prepareUnlock
  else if String.eqb method "prepareMintUnlock" then Some Fn_prepareMintUnlock
  else if String.eqb method "prepareBurnUnlock" then Some Fn_prepareBurnUnlock
  else if String.eqb method "delegateLock" then Some Fn_delegateLock
  else None.

Definition decodeUnlockParams (o : list (string * json)) : option UnlockParams :=
  lockId ← fieldBytes32 "lockId" o; from ← fieldString "from" o; recipients ← fieldRecipients "recipients" o; data ← fieldHexBytes "data" o;
  Some (MkUnlockParams lockId from recipients data).

(** [json.Unmarshal] of the parameters of a function. *)
Definition decodeParams (fn : NotoFunction) (text : option json) : option NotoParams :=
  o ← decodeStruct text;
  match fn with
  | Fn_mint => to ← fieldString "to" o; amount ← fieldUint256 "amount" o; data ← fieldHexBytes "data" o; Some (MintParams to amount data)
  | Fn_transfer => to ← fieldString "to" o; amount ← fieldUint256 "amount" o; data ← fieldHexBytes "data" o; Some (TransferParams to amount data)
  | Fn_transferFrom =>
      from ← fieldString "from" o; to ← fieldString "to" o; amount ← fieldUint256 "amount" o; data ← fieldHexBytes "data" o;
      Some (TransferFromParams from to amount data)
  | Fn_burn => amount ← fieldUint256 "amount" o; data ← fieldHexBytes "data" o; Some (BurnParams amount data)
  | Fn_burnFrom =>
      from ← fieldString "from" o; amount ← fieldUint256 "amount" o; data ← fieldHexBytes "data" o; Some (BurnFromParams from amount data)
  | Fn_lock => amount ← fieldUint256 "amount" o; data ← fieldHexBytes "data" o; Some (LockParams amount data)
  | Fn_unlock => p ← decodeUnlockParams o; Some (UnlockParams_ p)
  | Fn_createTransferLock =>
      from ← fieldString "from" o; recipients ← fieldRecipients "recipients" o; unlockData ← fieldHexBytes "unlockData" o; data ← fieldHexBytes "data" o;
      Some (CreateTransferLockParams from recipients unlockData data)
  | Fn_createMintLock =>
      recipients ← fieldRecipients "recipients" o; unlockData ← fieldHexBytes "unlockData" o; data ← fieldHexBytes "data" o;
      Some (CreateMintLockParams recipients unlockData data)
  | Fn_createBurnLock =>
      from ← fieldString "from" o; amount ← fieldUint256 "amount" o; unlockData ← fieldHexBytes "unlockData" o; data ← fieldHexBytes "data" o;
      Some (CreateBurnLockParams from amount unlockData data)
  | Fn_prepareUnlock =>
      p ← decodeUnlockParams o; unlockData ← fieldHexBytes "unlockData" o; data ← fieldHexBytes "data" o;
      (* the outer Data hides the one of the embedded struct, which stays empty *)
      Some (PrepareUnlockParams (MkUnlockParams (up_LockID p) (up_From p) (up_Recipients p) "") unlockData data)
  | Fn_prepareMintUnlock =>
      lockId ← fieldBytes32 "lockId" o; recipients ← fieldRecipients "recipients" o; unlockData ← fieldHexBytes "unlockData" o; data ← fieldHexBytes "data" o;
      Some (PrepareMintUnlockParams lockId recipients unlockData data)
  | Fn_prepareBurnUnlock =>
      lockId ← fieldBytes32 "lockId" o; from ← fieldString "from" o; amount ← fieldUint256 "amount" o;
      unlockData ← fieldHexBytes "unlockData" o; data ← fieldHexBytes "data" o;
      Some (PrepareBurnUnlockParams lockId from amount unlockData data)
  | Fn_delegateLock =>
      lockId ← fieldBytes32 "lockId" o; unlock ← fieldUnlock "unlock" o; delegate ← fieldAddress "delegate" o; data ← fieldHexBytes "data" o;
      Some (DelegateLockParams lockId unlock delegate data)
  end.

(** The rules of each handler's [ValidateParams] after the parameters have been decoded; those of mint
    and transfer are [validateTransferParams]. *)
Definition validateTransferFromParams (From To : string) (Amount : option Z) : outcome unit :=
  validateTransferParams To Amount ≫= fun _ => requiredParam From "from".

Definition validateBurnParams (Amount : option Z) : outcome unit := positiveAmount Amount "amount".

Definition validateBurnFromParams (From : string) (Amount : option Z) : outcome unit :=
  validateBurnParams Amount ≫= fun _ => requiredParam From "from".

Definition validateLockParams (cfg : NotoParsedConfig) (Amount : option Z) : outcome unit :=
  if IsV0 cfg then positiveAmount Amount "amount" else mret tt.

Definition validateCreateTransferLockParams (From : string) (recipients : Recipients) : outcome unit :=
  requiredParam From "from" ≫= fun _ => validateRecipients recipients.

Definition validateCreateMintLockParams (recipients : Recipients) : outcome unit := validateRecipients recipients.

Definition validateCreateBurnLockParams (Amount : option Z) : outcome unit := positiveAmount Amount "amount".

Definition validatePrepareMintUnlockParams (recipients : Recipients) : outcome unit := validateRecipients recipients.

Definition validatePrepareBurnUnlockParams (LockID : Bytes32) (From : string) (Amount : option Z) : outcome unit :=
  require (negb (Bytes32_IsZero LockID)) invalidParamsError "MsgParameterRequired lockId" ≫= fun _ =>
  requiredParam From "from" ≫= fun _ => positiveAmount Amount "amount".

Definition validateDelegateLockParams (cfg : NotoParsedConfig) (LockID : Bytes32) (Unlock : option UnlockPublicParams) (Delegate : option EthAddress) : outcome unit :=
  require (negb (Bytes32_IsZero LockID)) invalidParamsError "MsgParameterRequired lockId" ≫= fun _ =>
  require (negb (IsV0 cfg && match Unlock with None => true | Some _ => false end)) invalidParamsError "MsgParameterRequired unlock" ≫= fun _ =>
  require (negb (EthAddress_IsZero Delegate)) invalidParamsError "MsgInvalidDelegate".

Definition validateDecoded (cfg : NotoParsedConfig) (params : NotoParams) : outcome unit :=
  match params with
  | MintParams To Amount _ | TransferParams To Amount _ => validateTransferParams To Amount
  | TransferFromParams From To Amount _ => validateTransferFromParams From To Amount
  | BurnParams Amount _ => validateBurnParams Amount
  | BurnFromParams From Amount _ => validateBurnFromParams From Amount
  | LockParams Amount _ => validateLockParams cfg Amount
  | UnlockParams_ p | PrepareUnlockParams p _ _ => validateUnlockParams p
  | CreateTransferLockParams From recipients _ _ => validateCreateTransferLockParams From recipients
  | CreateMintLockParams recipients _ _ => validateCreateMintLockParams recipients
  | CreateBurnLockParams _ Amount _ _ => validateCreateBurnLockParams Amount
  | PrepareMintUnlockParams _ recipients _ _ => validatePrepareMintUnlockParams recipients
  | PrepareBurnUnlockParams LockID From Amount _ _ => validatePrepareBurnUnlockParams LockID From Amount
  | DelegateLockParams LockID Unlock Delegate _ => validateDelegateLockParams cfg LockID Unlock Delegate
  end.

(** The functions that Noto V0 does not have, which their handlers refuse before anything else. *)
Definition newerFunction (fn : NotoFunction) : bool :=
  match fn with Fn_createTransferLock | Fn_createMintLock | Fn_createBurnLock | Fn_prepareMintUnlock | Fn_prepareBurnUnlock => true | _ => false end.

Definition ValidateParams (fn : NotoFunction) (cfg : NotoParsedConfig) (text : option json) : outcome NotoParams :=
  (if newerFunction fn then notInV0 cfg else mret tt) ≫= fun _ =>
  params ← orFail invalidParamsError "json.Unmarshal" (decodeParams fn text);
  validateDecoded cfg params ≫= fun _ => mret params.

(** [validateTransactionCommon] *)
Definition validateTransaction (tx : NotoTransaction) : outcome ParsedTransaction :=
  abi ← orFail invalidTransactionSpecError "json.Unmarshal" (decodeStruct (nt_FunctionAbiJson tx));
  name ← orFail invalidTransactionSpecError "json.Unmarshal" (fieldString "name" abi);
  cfg ← orFail invalidTransactionSpecError "json.Unmarshal" (nt_ContractConfig tx);
  let exactSignatureMatch := nenv_knownSignature (nt_FunctionSignature tx) in
  require (exactSignatureMatch || nenv_knownFunction name) unknownFunctionError "MsgUnknownFunction" ≫= fun _ =>
  fn ← orFail unknownFunctionError "MsgUnknownFunction" (GetHandler name);
  params ← ValidateParams fn cfg (nt_FunctionParamsJson tx);
  require exactSignatureMatch unknownFunctionError "MsgUnexpectedFunctionSignature" ≫= fun _ =>
  contract ← orFail invalidTransactionSpecError "NewAddress" (nenv_NewAddress (nt_ContractAddress tx));
  mret (MkParsedTransaction tx contract cfg params).

(** ** Permissions *)

Definition basicOption (cfg : NotoParsedConfig) (field : NotoBasicOptions -> option bool) : outcome bool :=
  basic ← deref (cf_Basic cfg); deref (field basic).

Definition isBasic (cfg : NotoParsedConfig) : bool := bool_decide (cf_NotaryMode cfg = NotaryModeBasic).

(** [checkBurnAllowed], and [checkAllowed] of the functions that prepare a burn. *)
Definition checkBurnAllowed (cfg : NotoParsedConfig) : outcome unit :=
  if negb (isBasic cfg) then mret tt
  else allow ← basicOption cfg bo_AllowBurn; require allow operationNotAllowedError "MsgBurnNotAllowed".

(** [checkAllowed] of mint and createMintLock. *)
Definition checkMintAllowed (cfg : NotoParsedConfig) (from : string) : outcome unit :=
  if negb (isBasic cfg) then mret tt
  else
    restrict ← basicOption cfg bo_RestrictMint;
    require (negb restrict || String.eqb from (cf_NotaryLookup cfg)) operationNotAllowedError "MsgMintOnlyNotary".

Definition checkLockAllowed (cfg : NotoParsedConfig) : outcome unit :=
  if negb (isBasic cfg) then mret tt
  else allow ← basicOption cfg bo_AllowLock; require allow operationNotAllowedError "MsgLockNotAllowed".

Definition checkPrepareMintAllowed (cfg : NotoParsedConfig) (from : string) : outcome unit :=
  if negb (isBasic cfg) then mret tt
  else
    restrict ← basicOption cfg bo_RestrictMint;
    require (negb (restrict && negb (String.eqb from (cf_NotaryLookup cfg)))) operationNotAllowedError "MsgMintOnlyNotary" ≫= fun _ =>
    allow ← basicOption cfg bo_AllowLock; require allow operationNotAllowedError "MsgLockNotAllowed".

(** [lockCommon.checkAllowed] and [checkAllowedForFrom]: the sender is the party named. *)
Definition checkSenderIs (tx : ParsedTransaction) (from : string) : outcome unit :=
  if negb (isBasic (pt_DomainConfig tx)) then mret tt
  else
    node ← orFail callbackFailedError "LocalNodeName" nenv_LocalNodeName;
    match FullyQualified from node with
    | Ok q => require (String.eqb (nt_From (pt_Transaction tx)) q) operationNotAllowedError "MsgUnlockOnlyCreator"
    | _ => Fail invalidParamsError "FullyQualified"
    end.

(** ** Init: the verifiers a transaction needs *)

Record VerifierRequest : Type := MkVerifierRequest { vr_Lookup : string; vr_Algorithm : string; vr_VerifierType : string }.

(** [ethAddressVerifiers]: one request for each lookup, in the order of the first mention. *)
Fixpoint distinctLookups (seen lookups : list string) : list string :=
  match lookups with
  | [] => []
  | l :: rest => if existsb (String.eqb l) seen then distinctLookups seen rest else l :: distinctLookups (l :: seen) rest
  end.

Definition ethAddressVerifiers (lookups : list string) : list VerifierRequest :=
  (fun l => MkVerifierRequest l ECDSA_SECP256K1 ETH_ADDRESS) <$> distinctLookups [] lookups.

Definition recipientLookups (recipients : Recipients) : outcome (list string) :=
  foldr (fun entry acc => r ← deref entry; l ← acc; mret (ur_To r :: l)) (mret []) recipients.

(** The functions that act for another party are for the hooks mode. *)
Definition notInBasic (cfg : NotoParsedConfig) (message : string) : outcome unit :=
  require (negb (isBasic cfg)) operationNotAllowedError message.

Definition notaryOf (tx : ParsedTransaction) : string := cf_NotaryLookup (pt_DomainConfig tx).
Definition senderOf (tx : ParsedTransaction) : string := nt_From (pt_Transaction tx).

Definition initMint (tx : ParsedTransaction) (To : string) : outcome (list VerifierRequest) :=
  checkMintAllowed (pt_DomainConfig tx) (senderOf tx) ≫= fun _ => mret (ethAddressVerifiers [notaryOf tx; senderOf tx; To]).

Definition initTransfer (tx : ParsedTransaction) (from to : string) : outcome (list VerifierRequest) :=
  mret (ethAddressVerifiers [notaryOf tx; senderOf tx; from; to]).

Definition initTransferFrom (tx : ParsedTransaction) (From To : string) : outcome (list VerifierRequest) :=
  notInBasic (pt_DomainConfig tx) "MsgTransferFromNotAllowed" ≫= fun _ => initTransfer tx From To.

Definition initBurn (tx : ParsedTransaction) (from : string) : outcome (list VerifierRequest) :=
  checkBurnAllowed (pt_DomainConfig tx) ≫= fun _ => mret (ethAddressVerifiers [notaryOf tx; senderOf tx; from]).

Definition initBurnFrom (tx : ParsedTransaction) (From : string) : outcome (list VerifierRequest) :=
  notInBasic (pt_DomainConfig tx) "MsgBurnFromNotAllowed" ≫= fun _ => initBurn tx From.

(** [domainAlgorithm] and [nullifierType] are the identifiers of nullifier keys. *)
Definition initLock (domainAlgorithm nullifierType : string) (tx : ParsedTransaction) : outcome (list VerifierRequest) :=
  checkLockAllowed (pt_DomainConfig tx) ≫= fun _ =>
  mret (ethAddressVerifiers [notaryOf tx; senderOf tx] ++
        if IsNullifierVariant (pt_DomainConfig tx)
        then [MkVerifierRequest (senderOf tx) domainAlgorithm nullifierType; MkVerifierRequest (notaryOf tx) domainAlgorithm nullifierType]
        else [])%list.

(** [unlockCommon.init] *)
Definition initUnlock (tx : ParsedTransaction) (p : UnlockParams) : outcome (list VerifierRequest) :=
  checkSenderIs tx (up_From p) ≫= fun _ => to ← recipientLookups (up_Recipients p);
  mret (ethAddressVerifiers (notaryOf tx :: senderOf tx :: up_From p :: to)).

Definition initCreateTransferLock (tx : ParsedTransaction) (From : string) (recipients : Recipients) : outcome (list VerifierRequest) :=
  checkSenderIs tx From ≫= fun _ => to ← recipientLookups recipients; mret (ethAddressVerifiers (notaryOf tx :: senderOf tx :: From :: to)).

Definition initCreateMintLock (tx : ParsedTransaction) (recipients : Recipients) : outcome (list VerifierRequest) :=
  checkMintAllowed (pt_DomainConfig tx) (senderOf tx) ≫= fun _ => to ← recipientLookups recipients;
  mret (ethAddressVerifiers (notaryOf tx :: senderOf tx :: to)).

Definition initCreateBurnLock (tx : ParsedTransaction) (From : string) : outcome (list VerifierRequest) :=
  checkBurnAllowed (pt_DomainConfig tx) ≫= fun _ => mret (ethAddressVerifiers [notaryOf tx; senderOf tx; From]).

Definition initPrepareMintUnlock (tx : ParsedTransaction) (recipients : Recipients) : outcome (list VerifierRequest) :=
  checkPrepareMintAllowed (pt_DomainConfig tx) (senderOf tx) ≫= fun _ => to ← recipientLookups recipients;
  mret (ethAddressVerifiers (notaryOf tx :: senderOf tx :: to)).

Definition initPrepareBurnUnlock (tx : ParsedTransaction) (From : string) : outcome (list VerifierRequest) :=
  checkBurnAllowed (pt_DomainConfig tx) ≫= fun _ => checkSenderIs tx From ≫= fun _ =>
  mret (ethAddressVerifiers [notaryOf tx; senderOf tx; From]).

Definition initDelegateLock (tx : ParsedTransaction) : outcome (list VerifierRequest) :=
  mret (ethAddressVerifiers [notaryOf tx; senderOf tx]).

(** [handler.Init] *)
Definition initHandler (domainAlgorithm nullifierType : string) (tx : ParsedTransaction) : outcome (list VerifierRequest) :=
  match pt_Params tx with
  | MintParams To _ _ => initMint tx To
  | TransferParams To _ _ => initTransfer tx (senderOf tx) To
  | TransferFromParams From To _ _ => initTransferFrom tx From To
  | BurnParams _ _ => initBurn tx (senderOf tx)
  | BurnFromParams From _ _ => initBurnFrom tx From
  | LockParams _ _ => initLock domainAlgorithm nullifierType tx
  | UnlockParams_ p | PrepareUnlockParams p _ _ => initUnlock tx p
  | CreateTransferLockParams From recipients _ _ => initCreateTransferLock tx From recipients
  | CreateMintLockParams recipients _ _ => initCreateMintLock tx recipients
  | CreateBurnLockParams From _ _ _ => initCreateBurnLock tx From
  | PrepareMintUnlockParams _ recipients _ _ => initPrepareMintUnlock tx recipients
  | PrepareBurnUnlockParams _ From _ _ _ => initPrepareBurnUnlock tx From
  | DelegateLockParams _ _ _ _ => initDelegateLock tx
  end.

Definition InitTransaction (domainAlgorithm nullifierType : string) (tx : NotoTransaction) : outcome (list VerifierRequest) :=
  parsed ← validateTransaction tx; initHandler domainAlgorithm nullifierType parsed.

(** ** Endorsement, function by function *)

Definition endorseMint (tx : ParsedTransaction) (Amount : option Z) (req : EndorseTransactionRequest) : outcome unit :=
  checkMintAllowed (pt_DomainConfig tx) (nt_From (er_Transaction req)) ≫= fun _ =>
  inputs ← parseCoinList n (er_Inputs req);
  outputs ← parseCoinList n (er_Outputs req);
  validateMintAmounts Amount inputs outputs ≫= fun _ =>
  encodedTransfer ← encodeTransferUnmasked (pt_ContractAddress_ tx) [] (pc_coins outputs);
  validateSignature "sender" (er_Signatures req) encodedTransfer.

Definition endorseTransfer (tx : ParsedTransaction) (req : EndorseTransactionRequest) (from : string) : outcome unit :=
  inputs ← parseCoinList n (er_Inputs req);
  outputs ← parseCoinList n (er_Outputs req);
  validateTransferAmounts inputs outputs ≫= fun _ =>
  validateOwners from (er_ResolvedVerifiers req) (pc_coins inputs) ≫= fun _ =>
  encodedTransfer ← encodeTransferUnmasked (pt_ContractAddress_ tx) (pc_coins inputs) (pc_coins outputs);
  validateSignature "sender" (er_Signatures req) encodedTransfer.

Definition endorseBurn (tx : ParsedTransaction) (req : EndorseTransactionRequest) (from : string) (Amount : option Z) : outcome unit :=
  checkBurnAllowed (pt_DomainConfig tx) ≫= fun _ =>
  inputs ← parseCoinList n (er_Inputs req);
  outputs ← parseCoinList n (er_Outputs req);
  validateBurnAmounts Amount inputs outputs ≫= fun _ =>
  validateOwners from (er_ResolvedVerifiers req) (pc_coins inputs) ≫= fun _ =>
  encodedTransfer ← encodeTransferUnmasked (pt_ContractAddress_ tx) (pc_coins inputs) (pc_coins outputs);
  validateSignature "sender" (er_Signatures req) encodedTransfer.

Definition endorseLock (tx : ParsedTransaction) (req : EndorseTransactionRequest) : outcome unit :=
  checkLockAllowed (pt_DomainConfig tx) ≫= fun _ =>
  notaryID ← findEthAddressVerifier (cf_NotaryLookup (pt_DomainConfig tx)) (er_ResolvedVerifiers req);
  senderID ← findEthAddressVerifier (senderOf tx) (er_ResolvedVerifiers req);
  inputs ← parseCoinList n (er_Inputs req);
  outputs ← parseCoinList n (er_Outputs req);
  (if IsV0 (pt_DomainConfig tx) then mret tt
   else
     lockID ← computeLockIDForLockTX tx notaryID;
     decodeV1LockTransitionWithOutputs n LOCK_CREATE (Some senderID) (Some lockID) (er_Inputs req) (er_Outputs req) (er_Info req) ≫= fun _ => mret tt) ≫= fun _ =>
  validateLockAmounts (pt_DomainConfig tx) inputs outputs ≫= fun _ =>
  validateOwners (senderOf tx) (er_ResolvedVerifiers req) (pc_coins inputs) ≫= fun _ =>
  validateLockOwners (senderOf tx) (er_ResolvedVerifiers req) (pc_lockedCoins outputs) ≫= fun _ =>
  encodedLock ← encodeLock (pt_ContractAddress_ tx) (pc_coins inputs) (pc_coins outputs) (pc_lockedCoins outputs);
  validateSignature "sender" (er_Signatures req) encodedLock.

(** [unlockCommon.endorse] *)
Definition endorseUnlockOf (tx : ParsedTransaction) (From : string) (req : EndorseTransactionRequest)
    (inputs spendOutputs : parsedCoins) (cancelOutputs : option parsedCoins) : outcome unit :=
  checkSenderIs tx From ≫= fun _ =>
  validateUnlockAmounts (pt_DomainConfig tx) inputs spendOutputs ≫= fun _ =>
  validateLockOwners From (er_ResolvedVerifiers req) (pc_lockedCoins inputs) ≫= fun _ =>
  validateLockOwners From (er_ResolvedVerifiers req) (pc_lockedCoins spendOutputs) ≫= fun _ =>
  match cancelOutputs with
  | None => mret tt
  | Some cancel =>
      validateUnlockAmounts (pt_DomainConfig tx) inputs cancel ≫= fun _ =>
      validateLockOwners From (er_ResolvedVerifiers req) (pc_lockedCoins cancel) ≫= fun _ =>
      validateOwners From (er_ResolvedVerifiers req) (pc_coins cancel)
  end ≫= fun _ =>
  encodedUnlock ← encodeUnlock (pt_ContractAddress_ tx) (pc_lockedCoins inputs) (pc_lockedCoins spendOutputs) (pc_coins spendOutputs);
  validateSignature "sender" (er_Signatures req) encodedUnlock.

Definition endorseUnlock (tx : ParsedTransaction) (p : UnlockParams) (req : EndorseTransactionRequest) : outcome unit :=
  inputs ← parseCoinList n (er_Inputs req);
  outputs ← parseCoinList n (er_Outputs req);
  (if IsV0 (pt_DomainConfig tx) then mret tt
   else
     senderID ← findEthAddressVerifier (senderOf tx) (er_ResolvedVerifiers req);
     validateV1LockTransition n LOCK_SPEND (Some senderID) (Some (up_LockID p)) (er_Inputs req) (er_Outputs req) ≫= fun _ => mret tt) ≫= fun _ =>
  endorseUnlockOf tx (up_From p) req inputs outputs None.

Definition endorsePrepareUnlock (tx : ParsedTransaction) (p : UnlockParams) (req : EndorseTransactionRequest) : outcome unit :=
  if IsV0 (pt_DomainConfig tx) then
    inputs ← parseCoinList n (er_Reads req);
    outputs ← parseCoinList n (filterSchema (er_Info req) [n_coinSchema n; n_lockedCoinSchema n]);
    endorseUnlockOf tx (up_From p) req inputs outputs None
  else
    senderID ← findEthAddressVerifier (senderOf tx) (er_ResolvedVerifiers req);
    decoded ← decodeV1LockTransitionWithOutputs n LOCK_UPDATE (Some senderID) (Some (up_LockID p)) (er_Inputs req) (er_Outputs req) (er_Info req);
    inputs ← parseCoinList n (er_Reads req);
    spendOutputs ← parseCoinList n decoded.1.2;
    cancelOutputs ← parseCoinList n decoded.2;
    endorseUnlockOf tx (up_From p) req inputs spendOutputs (Some cancelOutputs).

Definition endorseCreateTransferLock (tx : ParsedTransaction) (From : string) (req : EndorseTransactionRequest) : outcome unit :=
  checkSenderIs tx From ≫= fun _ =>
  fromID ← findEthAddressVerifier From (er_ResolvedVerifiers req);
  decoded ← decodeV1LockTransitionWithOutputs n LOCK_CREATE (Some fromID) None (er_Inputs req) (er_Outputs req) (er_Info req);
  inputs ← parseCoinList n (er_Inputs req);
  outputs ← parseCoinList n (er_Outputs req);
  spendOutputs ← parseCoinList n decoded.1.2;
  cancelOutputs ← parseCoinList n decoded.2;
  require (pc_total inputs =? pc_lockedTotal outputs + pc_total outputs)%Z invalidAmountsError "MsgInvalidAmount" ≫= fun _ =>
  require (pc_lockedTotal outputs =? pc_total spendOutputs)%Z invalidAmountsError "MsgInvalidAmount" ≫= fun _ =>
  require (pc_lockedTotal outputs =? pc_total cancelOutputs)%Z invalidAmountsError "MsgInvalidAmount" ≫= fun _ =>
  validateOwners (ip_identifier fromID) (er_ResolvedVerifiers req) (pc_coins inputs) ≫= fun _ =>
  encodedTransfer ← encodeUnlock (pt_ContractAddress_ tx) (pc_lockedCoins outputs) [] (pc_coins spendOutputs);
  validateSignature "sender" (er_Signatures req) encodedTransfer.

Definition endorseCreateBurnLock (tx : ParsedTransaction) (req : EndorseTransactionRequest) : outcome unit :=
  checkBurnAllowed (pt_DomainConfig tx) ≫= fun _ =>
  senderID ← findEthAddressVerifier (senderOf tx) (er_ResolvedVerifiers req);
  decoded ← decodeV1LockTransitionWithOutputs n LOCK_CREATE (Some senderID) None (er_Inputs req) (er_Outputs req) (er_Info req);
  inputs ← parseCoinList n (er_Inputs req);
  outputs ← parseCoinList n (er_Outputs req);
  spendOutputs ← parseCoinList n decoded.1.2;
  cancelOutputs ← parseCoinList n decoded.2;
  require (pc_total inputs =? pc_lockedTotal outputs + pc_total outputs)%Z invalidAmountsError "MsgInvalidAmount" ≫= fun _ =>
  require (pc_total spendOutputs =? 0)%Z invalidAmountsError "MsgInvalidAmount" ≫= fun _ =>
  require (pc_lockedTotal outputs =? pc_total cancelOutputs)%Z invalidAmountsError "MsgInvalidAmount" ≫= fun _ =>
  validateOwners (ip_identifier senderID) (er_ResolvedVerifiers req) (pc_coins inputs) ≫= fun _ =>
  encodedTransfer ← encodeUnlock (pt_ContractAddress_ tx) (pc_lockedCoins outputs) [] (pc_coins spendOutputs);
  validateSignature "sender" (er_Signatures req) encodedTransfer.

(** [requiredTotal]: the sum of the recipients' amounts. *)
Definition requiredTotal (recipients : Recipients) : outcome Z :=
  foldl (fun acc entry => total ← acc; r ← deref entry; amount ← deref (ur_Amount r); mret (total + amount)%Z) (mret 0%Z) recipients.

Definition endorseCreateMintLock (tx : ParsedTransaction) (recipients : Recipients) (req : EndorseTransactionRequest) : outcome unit :=
  checkMintAllowed (pt_DomainConfig tx) (nt_From (er_Transaction req)) ≫= fun _ =>
  decoded ← decodeV1LockTransitionWithOutputs n LOCK_CREATE None None (er_Inputs req) (er_Outputs req) (er_Info req);
  inputs ← parseCoinList n (er_Inputs req);
  outputs ← parseCoinList n (er_Outputs req);
  spendOutputs ← parseCoinList n decoded.1.2;
  cancelOutputs ← parseCoinList n decoded.2;
  required ← requiredTotal recipients;
  require (noneOf (pc_coins inputs) && noneOf (pc_lockedCoins outputs) && noneOf (pc_coins outputs) && noneOf (pc_coins cancelOutputs))
    invalidAmountsError "MsgInvalidInputs" ≫= fun _ =>
  require (required =? pc_total spendOutputs)%Z invalidAmountsError "MsgInvalidAmount" ≫= fun _ =>
  encodedTransfer ← encodeUnlock (pt_ContractAddress_ tx) [] [] (pc_coins spendOutputs);
  validateSignature "sender" (er_Signatures req) encodedTransfer.

Definition endorsePrepareMintUnlock (tx : ParsedTransaction) (LockID : Bytes32) (req : EndorseTransactionRequest) : outcome unit :=
  senderID ← findEthAddressVerifier (senderOf tx) (er_ResolvedVerifiers req);
  checkPrepareMintAllowed (pt_DomainConfig tx) (nt_From (er_Transaction req)) ≫= fun _ =>
  decoded ← decodeV1LockTransitionWithOutputs n LOCK_UPDATE (Some senderID) (Some LockID) (er_Inputs req) (er_Outputs req) (er_Info req);
  spendOutputs ← parseCoinList n decoded.1.2;
  encodedUnlock ← encodeUnlock (pt_ContractAddress_ tx) [] [] (pc_coins spendOutputs);
  validateSignature "sender" (er_Signatures req) encodedUnlock.

Definition endorsePrepareBurnUnlock (tx : ParsedTransaction) (LockID : Bytes32) (From : string) (Amount : option Z) (req : EndorseTransactionRequest) : outcome unit :=
  checkBurnAllowed (pt_DomainConfig tx) ≫= fun _ =>
  checkSenderIs tx From ≫= fun _ =>
  inputs ← parseCoinList n (er_Reads req);
  amount ← deref Amount;
  require (pc_lockedTotal inputs =? amount)%Z invalidAmountsError "MsgInvalidAmount" ≫= fun _ =>
  (if IsV0 (pt_DomainConfig tx) then validateLockOwners From (er_ResolvedVerifiers req) (pc_lockedCoins inputs)
   else
     senderID ← findEthAddressVerifier (senderOf tx) (er_ResolvedVerifiers req);
     decodeV1LockTransitionWithOutputs n LOCK_UPDATE (Some senderID) (Some LockID) (er_Inputs req) (er_Outputs req) (er_Info req) ≫= fun _ => mret tt) ≫= fun _ =>
  encodedUnlock ← encodeUnlock (pt_ContractAddress_ tx) (pc_lockedCoins inputs) [] [];
  validateSignature "sender" (er_Signatures req) encodedUnlock.

Definition endorseDelegateLock (tx : ParsedTransaction) (LockID : Bytes32) (Delegate : option EthAddress) (Data : string) (req : EndorseTransactionRequest) : outcome unit :=
  inputs ← parseCoinList n (er_Reads req);
  (if IsV0 (pt_DomainConfig tx) then require (negb (noneOf (pc_lockedCoins inputs))) invalidStateListError "MsgNoStatesSpecified"
   else
     senderID ← findEthAddressVerifier (senderOf tx) (er_ResolvedVerifiers req);
     validateV1LockTransition n LOCK_UPDATE (Some senderID) (Some LockID) (er_Inputs req) (er_Outputs req) ≫= fun _ => mret tt) ≫= fun _ =>
  validateLockOwners (senderOf tx) (er_ResolvedVerifiers req) (pc_lockedCoins inputs) ≫= fun _ =>
  encodedApproval ← encodeDelegateLock (pt_ContractAddress_ tx) LockID Delegate Data;
  validateSignature "sender" (er_Signatures req) encodedApproval.

(** ** EndorseTransaction *)

(** [handler.Endorse]: success is always [ENDORSER_SUBMIT]. *)
Definition endorseHandler (tx : ParsedTransaction) (req : EndorseTransactionRequest) : outcome unit :=
  match pt_Params tx with
  | MintParams _ Amount _ => endorseMint tx Amount req
  | TransferParams _ _ _ => endorseTransfer tx req (senderOf tx)
  | TransferFromParams From _ _ _ => endorseTransfer tx req From
  | BurnParams Amount _ => endorseBurn tx req (senderOf tx) Amount
  | BurnFromParams From Amount _ => endorseBurn tx req From Amount
  | LockParams _ _ => endorseLock tx req
  | UnlockParams_ p => endorseUnlock tx p req
  | CreateTransferLockParams From _ _ _ => endorseCreateTransferLock tx From req
  | CreateMintLockParams recipients _ _ => endorseCreateMintLock tx recipients req
  | CreateBurnLockParams _ _ _ _ => endorseCreateBurnLock tx req
  | PrepareUnlockParams p _ _ => endorsePrepareUnlock tx p req
  | PrepareMintUnlockParams LockID _ _ _ => endorsePrepareMintUnlock tx LockID req
  | PrepareBurnUnlockParams LockID From Amount _ _ => endorsePrepareBurnUnlock tx LockID From Amount req
  | DelegateLockParams LockID _ Delegate Data => endorseDelegateLock tx LockID Delegate Data req
  end.

Inductive EndorseResult_ : Type :=
| ENDORSER_SUBMIT
| ENDORSE_REVERT (reason : string).

(** [endorseRevertOrError] *)
Definition endorseRevertOrError {A} (r : outcome A) (k : A -> outcome EndorseResult_) : outcome EndorseResult_ :=
  match r with
  | Done a => k a
  | Fail c message => if default false (IsEndorseRevert c) then Done (ENDORSE_REVERT message) else Fail c message
  | Panicked => Panicked
  | Running => Running
  end.

Definition EndorseTransaction (req : EndorseTransactionRequest) : outcome EndorseResult_ :=
  endorseRevertOrError (validateTransaction (er_Transaction req)) (fun tx =>
  endorseRevertOrError
    (if IsNullifierVariant (pt_DomainConfig tx)
     then validateDistinctNullifiers n (pt_ContractAddress_ tx) [er_Inputs req; er_Outputs req] else mret tt) (fun _ =>
  endorseRevertOrError (endorseHandler tx req) (fun _ => Done ENDORSER_SUBMIT))).
End Endorse.
