(* ===== verification/NotoBalance.v ===== *)
(** * The Noto token: endorsed transactions balance

    What the notary's endorsement guarantees about the states of a transaction, stated over the
    decoded states themselves: their values, the coins a lock promises, the owners of what is
    consumed, and the signature.

    Sources: domains/noto/internal/noto (see [NotoEndorse]). *)

From S2P Require Import Prelude HexBytes Identity NotoTypes NotoChecks NotoEndorse.
Open Scope string_scope.
Open Scope list_scope.

(** ** Outcomes *)

Lemma bind_Done {A B} (m : outcome A) (f : A -> outcome B) b : (m ≫= f) = Done b <-> exists a, m = Done a /\ f a = Done b.
Proof. split; [destruct m; try done; intros Hf; eauto|by intros (a & -> & Hf)]. Qed.

Lemma require_Done b c message u : require b c message = Done u <-> b = true.
Proof. destruct b, u; simpl; split; done. Qed.

Lemma orFail_Done {A} c message (p : option A) a : orFail c message p = Done a <-> p = Some a.
Proof. destruct p; simpl; split; congruence. Qed.

Lemma deref_Done {A} (p : option A) a : deref p = Done a <-> p = Some a.
Proof. destruct p; simpl; split; congruence. Qed.

(** Takes a run that succeeded apart into the runs of its steps. *)
Ltac ran :=
  repeat match goal with
  | H : (_ ≫= _) = Done _ |- _ => apply bind_Done in H as (? & ? & H)
  | H : require _ _ _ = Done _ |- _ => apply require_Done in H
  | H : orFail _ _ _ = Done _ |- _ => apply orFail_Done in H
  | H : deref _ = Done _ |- _ => apply deref_Done in H
  | H : mret _ = Done _ |- _ => injection H as H
  | H : Done _ = Done _ |- _ => injection H as H
  end.

Section Balance.
Context `{NotoEnv} (n : Noto).

(** ** The value of states *)

Definition coinOf (state : NotoState) : option NotoCoin :=
  if String.eqb (ns_SchemaId state) (n_coinSchema n) then unmarshalCoin (ns_StateDataJson state) else None.

Definition lockedCoinOf (state : NotoState) : option NotoLockedCoin :=
  if String.eqb (ns_SchemaId state) (n_coinSchema n) then None
  else if String.eqb (ns_SchemaId state) (n_lockedCoinSchema n) then unmarshalLockedCoin (ns_StateDataJson state) else None.

Definition coinsIn (states : list NotoState) : list NotoCoin := omap coinOf states.
Definition lockedIn (states : list NotoState) : list NotoLockedCoin := omap lockedCoinOf states.

Definition sumOf {A} (amount : A -> option Z) (l : list A) : Z := foldr (fun c acc => default 0 (amount c) + acc)%Z 0%Z l.

(** The value of the unlocked and of the locked coins among the states. *)
Definition value (states : list NotoState) : Z := sumOf nc_Amount (coinsIn states).
Definition lockedValue (states : list NotoState) : Z := sumOf nl_Amount (lockedIn states).

Lemma sumOf_cons {A} (amount : A -> option Z) c l : sumOf amount (c :: l) = (default 0 (amount c) + sumOf amount l)%Z.
Proof. done. Qed.

Lemma sumOf_app {A} (amount : A -> option Z) l l' : sumOf amount (l ++ l') = (sumOf amount l + sumOf amount l')%Z.
Proof. induction l as [|c l IH]; simpl; [done|]. rewrite IH. lia. Qed.

(** A coin list that parses holds each state once, and its parts and totals are those of the states. *)
Record parsedAs (states : list NotoState) (r : parsedCoins) : Prop := MkParsedAs {
  pa_coins : pc_coins r = coinsIn states;
  pa_total : pc_total r = value states;
  pa_locked : pc_lockedCoins r = lockedIn states;
  pa_lockedTotal : pc_lockedTotal r = lockedValue states;
  pa_distinct : NoDup (ns_Id <$> states)
}.

Lemma not_used used id : existsb (String.eqb id) used = false -> id ∉ used.
Proof.
  intros He Hin. assert (Ht : existsb (String.eqb id) used = true); [|congruence].
  apply existsb_exists. exists id. split; [by apply list_elem_of_In|apply String.eqb_refl].
Qed.

Lemma parseStates_parsed states : forall used acc r,
  parseStates n used acc states = Done r ->
  pc_coins r = pc_coins acc ++ coinsIn states /\ pc_total r = (pc_total acc + value states)%Z /\
  pc_lockedCoins r = pc_lockedCoins acc ++ lockedIn states /\ pc_lockedTotal r = (pc_lockedTotal acc + lockedValue states)%Z /\
  NoDup (ns_Id <$> states) /\ (forall id, id ∈ ns_Id <$> states -> id ∉ used).
Proof.
  induction states as [|state states IH]; intros used acc r Hr.
  { cbn in Hr. injection Hr as <-. unfold value, lockedValue. cbn. rewrite !app_nil_r, !Z.add_0_r. split_and!; try done; [constructor|set_solver]. }
  cbn [parseStates] in Hr. destruct (existsb (String.eqb (ns_Id state)) used) eqn:Eu; [discriminate|]. apply not_used in Eu.
  unfold value, lockedValue, coinsIn, lockedIn. cbn [omap list_omap]. fold (coinsIn states) (lockedIn states).
  rewrite fmap_cons.
  assert (Hids : forall acc', parseStates n (ns_Id state :: used) acc' states = Done r ->
    NoDup (ns_Id state :: (ns_Id <$> states)) /\ (forall id, id ∈ ns_Id state :: (ns_Id <$> states) -> id ∉ used)).
  { intros acc' Ha. apply IH in Ha as (_ & _ & _ & _ & Hnd & Hused). split; [constructor; [|done]|].
    - intros Hin. apply (Hused _ Hin). left.
    - intros id [->|Hin]%elem_of_cons; [done|]. specialize (Hused _ Hin). set_solver. }
  destruct (String.eqb (ns_SchemaId state) (n_coinSchema n)) eqn:Es.
  - ran. rename x into coin, x0 into amount, H0 into Hc, H1 into Ha.
    assert (coinOf state = Some coin) as -> by (unfold coinOf; by rewrite Es).
    assert (lockedCoinOf state = None) as -> by (unfold lockedCoinOf; by rewrite Es).
    destruct (Hids _ Hr) as [Hnd Hus]. apply IH in Hr as (E1 & E2 & E3 & E4 & _ & _).
    split_and!; try done; [rewrite E1; cbn [pc_coins]; by rewrite <- app_assoc|]. rewrite E2, sumOf_cons, Ha. unfold value. cbn. lia.
  - assert (coinOf state = None) as -> by (unfold coinOf; by rewrite Es).
    destruct (String.eqb (ns_SchemaId state) (n_lockedCoinSchema n)) eqn:El.
    + ran. rename x into coin, x0 into amount, H0 into Hc, H1 into Ha.
      assert (lockedCoinOf state = Some coin) as -> by (unfold lockedCoinOf; by rewrite Es, El).
      destruct (Hids _ Hr) as [Hnd Hus]. apply IH in Hr as (E1 & E2 & E3 & E4 & _ & _).
      split_and!; try done; [rewrite E3; cbn [pc_lockedCoins]; by rewrite <- app_assoc|]. rewrite E4, sumOf_cons, Ha. unfold lockedValue. cbn. lia.
    + assert (lockedCoinOf state = None) as -> by (unfold lockedCoinOf; by rewrite Es, El).
      destruct (String.eqb (ns_SchemaId state) (n_lockInfoSchemaV1 n)); [|discriminate].
      destruct (Hids _ Hr) as [Hnd Hus]. apply IH in Hr as (E1 & E2 & E3 & E4 & _ & _). by split_and!.
Qed.

Lemma parsed_as states r : parseCoinList n states = Done r -> parsedAs states r.
Proof. intros (H1 & H2 & H3 & H4 & H5 & _)%parseStates_parsed. by split. Qed.

(** ** The coins that a lock promises *)

(** The lock that a transaction creates. *)
Definition createdLock (outputs : list NotoState) : NotoLockInfo_V1 :=
  match filterSchema outputs [n_lockInfoSchemaV1 n] with
  | [state] => default emptyLockInfo (unmarshalLockV1 (ns_StateDataJson state))
  | _ => emptyLockInfo
  end.

(** The coins among the info states that it lists for the case that it is spent, and cancelled. *)
Definition promised (listed : NotoLockInfo_V1 -> list Bytes32) (req : EndorseTransactionRequest) : list NotoState :=
  mjoin (listedOutputs (listed (createdLock (er_Outputs req))) <$> filterSchema (er_Info req) [n_coinSchema n]).

Lemma decodeLock_info state v : decodeLock state = Done v -> unmarshalLockV1 (ns_StateDataJson state) = Some (lv_info v).
Proof.
  unfold decodeLock. destruct (unmarshalLockV1 (ns_StateDataJson state)), (ParseBytes32Ctx (ns_Id state)); try done. by intros [= <-].
Qed.

Lemma newLock_info lockID prev outputs next :
  newLock lockID prev (filterSchema outputs [n_lockInfoSchemaV1 n]) = Done next ->
  from_option lv_info emptyLockInfo next = createdLock outputs.
Proof.
  unfold newLock, createdLock. intros Hn. destruct (filterSchema outputs [n_lockInfoSchemaV1 n]) as [|state [|]]; ran; subst; try done.
  simpl. by rewrite (decodeLock_info _ _ H0).
Qed.

(** The outputs that a decoded transition comes with are the promised ones, all of them. *)
Lemma decoded_promised ty senderID lockID req lt spend cancel :
  decodeV1LockTransitionWithOutputs n ty senderID lockID (er_Inputs req) (er_Outputs req) (er_Info req) = Done (lt, spend, cancel) ->
  spend = promised li_SpendOutputs req /\ cancel = promised li_CancelOutputs req /\
  length spend = length (li_SpendOutputs (createdLock (er_Outputs req))) /\
  length cancel = length (li_CancelOutputs (createdLock (er_Outputs req))).
Proof.
  unfold decodeV1LockTransitionWithOutputs, validateV1LockTransition, splitOutputs. intros Hd. ran. subst.
  match goal with Hl : newLock _ _ _ = Done _ |- _ => apply newLock_info in Hl; rename Hl into Hnew end.
  match goal with Hb : (_ && _)%bool = true |- _ => apply andb_true_iff in Hb as [Hs Hc]; apply Nat.eqb_eq in Hs, Hc end. unfold lt_newLockInfo in *. cbn [lt_new] in *. rewrite Hnew in *.
  simplify_eq/=. by split_and!.
Qed.

(** ** Balance *)

(** The functions whose endorsement compares amounts; delegating a lock and preparing it for a mint do not. *)
Definition comparesAmounts (params : NotoParams) : bool :=
  match params with PrepareMintUnlockParams _ _ _ _ | DelegateLockParams _ _ _ _ => false | _ => true end.

(** What an endorsed transaction of these satisfies, function by function. *)
Definition balanced (tx : ParsedTransaction) (req : EndorseTransactionRequest) : Prop :=
  let inputs := er_Inputs req in
  let outputs := er_Outputs req in
  let spend := promised li_SpendOutputs req in
  let cancel := promised li_CancelOutputs req in
  match pt_Params tx with
  | MintParams _ Amount _ => coinsIn inputs = [] /\ Amount = Some (value outputs)
  | TransferParams _ _ _ | TransferFromParams _ _ _ _ => coinsIn inputs <> [] /\ value inputs = value outputs
  | BurnParams Amount _ | BurnFromParams _ Amount _ => coinsIn inputs <> [] /\ Amount = Some (value inputs - value outputs)%Z
  | LockParams _ _ => value inputs = (value outputs + lockedValue outputs)%Z
  | UnlockParams_ _ => lockedValue inputs = (lockedValue outputs + value outputs)%Z
  | CreateTransferLockParams _ _ _ _ =>
      value inputs = (value outputs + lockedValue outputs)%Z /\ value spend = lockedValue outputs /\ value cancel = lockedValue outputs
  | CreateBurnLockParams _ _ _ _ =>
      value inputs = (value outputs + lockedValue outputs)%Z /\ value spend = 0%Z /\ value cancel = lockedValue outputs
  | CreateMintLockParams recipients _ _ =>
      coinsIn inputs = [] /\ coinsIn outputs = [] /\ lockedIn outputs = [] /\ coinsIn cancel = [] /\ requiredTotal recipients = Done (value spend)
  | PrepareUnlockParams _ _ _ =>
      if IsV0 (pt_DomainConfig tx)
      then let promisedV0 := filterSchema (er_Info req) [n_coinSchema n; n_lockedCoinSchema n] in
           lockedValue (er_Reads req) = (lockedValue promisedV0 + value promisedV0)%Z
      else lockedValue (er_Reads req) = (lockedValue spend + value spend)%Z /\ lockedValue (er_Reads req) = (lockedValue cancel + value cancel)%Z
  | PrepareBurnUnlockParams _ _ Amount _ _ => Amount = Some (lockedValue (er_Reads req))
  | PrepareMintUnlockParams _ _ _ _ | DelegateLockParams _ _ _ _ => comparesAmounts (pt_Params tx) = true
  end.

Lemma noneOf_true {A} (l : list A) : noneOf l = true <-> l = [].
Proof. by destruct l. Qed.

Lemma noneOf_false {A} (l : list A) : negb (noneOf l) = true <-> l <> [].
Proof. by destruct l. Qed.

(** Brings the checks that were passed to the values of the states. *)
Ltac balances :=
  ran;
  repeat match goal with
  | Hp : parseCoinList _ _ = Done _ |- _ =>
      let E1 := fresh in let E2 := fresh in let E3 := fresh in let E4 := fresh in
      apply parsed_as in Hp as [E1 E2 E3 E4 _]; rewrite ?E1, ?E2, ?E3, ?E4 in *; clear E1 E2 E3 E4
  end;
  repeat match goal with Hb : (_ && _)%bool = true |- _ => apply andb_true_iff in Hb as [? ?] end;
  repeat match goal with Hb : (_ =? _)%Z = true |- _ => apply Z.eqb_eq in Hb end;
  rewrite ?noneOf_true, ?noneOf_false in *.

Lemma endorseMint_balanced tx Amount req u :
  endorseMint n tx Amount req = Done u -> coinsIn (er_Inputs req) = [] /\ Amount = Some (value (er_Outputs req)).
Proof. unfold endorseMint, validateMintAmounts. intros He. balances. subst. by split. Qed.

Lemma endorseTransfer_balanced tx req from u :
  endorseTransfer n tx req from = Done u -> coinsIn (er_Inputs req) <> [] /\ value (er_Inputs req) = value (er_Outputs req).
Proof. unfold endorseTransfer, validateTransferAmounts. intros He. balances. by split. Qed.

Lemma endorseBurn_balanced tx req from Amount u :
  endorseBurn n tx req from Amount = Done u -> coinsIn (er_Inputs req) <> [] /\ Amount = Some (value (er_Inputs req) - value (er_Outputs req))%Z.
Proof. unfold endorseBurn, validateBurnAmounts. intros He. balances. subst. by split. Qed.

Lemma endorseLock_balanced tx req u :
  endorseLock n tx req = Done u -> value (er_Inputs req) = (value (er_Outputs req) + lockedValue (er_Outputs req))%Z.
Proof. unfold endorseLock, validateLockAmounts. intros He. balances. lia. Qed.

(** The amounts that [unlockCommon.endorse] compares. *)
Lemma endorseUnlockOf_balanced tx From req inputs spend cancel u :
  endorseUnlockOf tx From req inputs spend cancel = Done u ->
  pc_lockedTotal inputs = (pc_lockedTotal spend + pc_total spend)%Z /\
  (forall c, cancel = Some c -> pc_lockedTotal inputs = (pc_lockedTotal c + pc_total c)%Z).
Proof.
  unfold endorseUnlockOf, validateUnlockAmounts. intros He. ran.
  split; [balances; lia|]. intros c ->. ran. balances. lia.
Qed.

Lemma endorseUnlock_balanced tx p req u :
  endorseUnlock n tx p req = Done u -> lockedValue (er_Inputs req) = (lockedValue (er_Outputs req) + value (er_Outputs req))%Z.
Proof. unfold endorseUnlock. intros He. ran. apply endorseUnlockOf_balanced in He as [He _]. balances. done. Qed.

Lemma endorsePrepareUnlock_balanced tx p uData data req u :
  pt_Params tx = PrepareUnlockParams p uData data -> endorsePrepareUnlock n tx p req = Done u -> balanced tx req.
Proof.
  unfold endorsePrepareUnlock, balanced. intros -> He. destruct (IsV0 (pt_DomainConfig tx)).
  - ran. apply endorseUnlockOf_balanced in He as [He _]. balances. done.
  - ran. match goal with d : (_ * _ * _)%type |- _ => destruct d as [[lt spend] cancel] end. cbn [fst snd] in *.
    match goal with Hd : decodeV1LockTransitionWithOutputs _ _ _ _ _ _ _ = Done _ |- _ => apply decoded_promised in Hd as (-> & -> & _) end.
    apply endorseUnlockOf_balanced in He as [He Hc]. specialize (Hc _ eq_refl). balances. by split.
Qed.

Ltac promises :=
  ran; match goal with d : (_ * _ * _)%type |- _ => destruct d as [[lt spend] cancel] end; cbn [fst snd] in *;
  match goal with Hd : decodeV1LockTransitionWithOutputs _ _ _ _ _ _ _ = Done _ |- _ => apply decoded_promised in Hd as (-> & -> & _) end.

Lemma endorseCreateTransferLock_balanced tx From req u :
  endorseCreateTransferLock n tx From req = Done u ->
  value (er_Inputs req) = (value (er_Outputs req) + lockedValue (er_Outputs req))%Z /\
  value (promised li_SpendOutputs req) = lockedValue (er_Outputs req) /\ value (promised li_CancelOutputs req) = lockedValue (er_Outputs req).
Proof. unfold endorseCreateTransferLock. intros He. promises. balances. split_and!; lia. Qed.

Lemma endorseCreateBurnLock_balanced tx req u :
  endorseCreateBurnLock n tx req = Done u ->
  value (er_Inputs req) = (value (er_Outputs req) + lockedValue (er_Outputs req))%Z /\
  value (promised li_SpendOutputs req) = 0%Z /\ value (promised li_CancelOutputs req) = lockedValue (er_Outputs req).
Proof. unfold endorseCreateBurnLock. intros He. promises. balances. split_and!; lia. Qed.

Lemma endorseCreateMintLock_balanced tx recipients req u :
  endorseCreateMintLock n tx recipients req = Done u ->
  coinsIn (er_Inputs req) = [] /\ coinsIn (er_Outputs req) = [] /\ lockedIn (er_Outputs req) = [] /\
  coinsIn (promised li_CancelOutputs req) = [] /\ requiredTotal recipients = Done (value (promised li_SpendOutputs req)).
Proof. unfold endorseCreateMintLock. intros He. promises. balances. subst. by split_and!. Qed.

Lemma endorsePrepareBurnUnlock_balanced tx LockID From Amount req u :
  endorsePrepareBurnUnlock n tx LockID From Amount req = Done u -> Amount = Some (lockedValue (er_Reads req)).
Proof. unfold endorsePrepareBurnUnlock. intros He. balances. by subst. Qed.

Lemma endorsed_handler req :
  EndorseTransaction n req = Done ENDORSER_SUBMIT ->
  exists tx, validateTransaction (er_Transaction req) = Done tx /\ endorseHandler n tx req = Done tt.
Proof.
  unfold EndorseTransaction, endorseRevertOrError. intros He. destruct (validateTransaction (er_Transaction req)) as [tx|c ?| |]; [|by destruct (default _ _)|done..].
  exists tx. split; [done|]. destruct (if IsNullifierVariant _ then _ else _) as [|c ?| |]; [|by destruct (default _ _)|done..].
  destruct (endorseHandler n tx req) as [[]|c ?| |]; [done|by destruct (default _ _)|done..].
Qed.

(** (C3) The amounts of a transaction that the notary endorses, for every function but delegating a lock
    and preparing a lock for a mint, whose endorsement compares no amounts.  Coins are the unlocked coins
    among the states, locked coins the locked ones.  A mint consumes no coin and creates coins of the
    amount; a transfer consumes coins and creates coins of the same value; a burn leaves coins of exactly
    the amount less.  The coins that a lock or a new transfer or burn lock consumes are worth the coins
    and locked coins it creates; the locked coins that an unlock consumes are worth the locked coins and
    coins it creates.  A new transfer lock promises what it locks, on spending as on cancelling; a new
    burn lock nothing on spending and what it locks on cancelling; a new mint lock has no coins, promises
    none on cancelling, and on spending the sum for the recipients; what preparing an unlock promises, on
    spending and on cancelling (in variant 0 with its info states), is worth the locked coins it reads; and the locked coins read for a burn
    are worth the amount.  Nothing more is claimed: the promises of a plain lock and of a lock that is
    prepared for a burn, and locked coins among the states of a transfer, mint or burn, are not compared
    with anything. *)
Theorem endorsed_transaction_balances req :
  EndorseTransaction n req = Done ENDORSER_SUBMIT ->
  exists tx, validateTransaction (er_Transaction req) = Done tx /\ (comparesAmounts (pt_Params tx) = true -> balanced tx req).
Proof.
  intros (tx & Htx & He)%endorsed_handler. exists tx. split; [done|]. intros Hc. unfold endorseHandler in He.
  destruct (pt_Params tx) eqn:Ep; try discriminate Hc; try (by eapply endorsePrepareUnlock_balanced); unfold balanced; rewrite Ep.
  - by eapply endorseMint_balanced.
  - by eapply endorseTransfer_balanced.
  - by eapply endorseTransfer_balanced.
  - by eapply endorseBurn_balanced.
  - by eapply endorseBurn_balanced.
  - by eapply endorseLock_balanced.
  - by eapply endorseUnlock_balanced.
  - by eapply endorseCreateTransferLock_balanced.
  - by eapply endorseCreateMintLock_balanced.
  - by eapply endorseCreateBurnLock_balanced.
  - by eapply endorsePrepareBurnUnlock_balanced.
Qed.

(** ** Owners *)

Definition coinOwnedBy (owner : EthAddress) (c : NotoCoin) : Prop := nc_Owner c = Some owner.
Definition lockedOwnedBy (owner : EthAddress) (c : NotoLockedCoin) : Prop := nl_Owner c = Some owner.

(** The party whose unlocked coins a transaction pays with, if its endorsement looks at them. *)
Definition payer (tx : ParsedTransaction) : option string :=
  match pt_Params tx with
  | TransferParams _ _ _ | BurnParams _ _ | LockParams _ _ | CreateBurnLockParams _ _ _ _ => Some (senderOf tx)
  | TransferFromParams From _ _ _ | BurnFromParams From _ _ | CreateTransferLockParams From _ _ _ => Some From
  | _ => None
  end.

(** The party whose locked coins it only reads. *)
Definition lockHolder (tx : ParsedTransaction) : option string :=
  match pt_Params tx with PrepareUnlockParams p _ _ => Some (up_From p) | DelegateLockParams _ _ _ _ => Some (senderOf tx) | _ => None end.

(** Those that create value. *)
Definition creates (tx : ParsedTransaction) : bool :=
  match pt_Params tx with MintParams _ _ _ | CreateMintLockParams _ _ _ => true | _ => false end.

(** The party whose locked coins it consumes. *)
Definition unlocker (tx : ParsedTransaction) : option string :=
  match pt_Params tx with UnlockParams_ p => Some (up_From p) | _ => None end.

Lemma validateOwners_spec party verifiers coins u :
  validateOwners party verifiers coins = Done u ->
  exists id, findEthAddressVerifier party verifiers = Done id /\ Forall (coinOwnedBy (ip_address id)) coins.
Proof.
  unfold validateOwners. intros Ho. ran. eexists. split; [done|]. apply Forall_forall. intros c Hc%list_elem_of_In.
  rewrite forallb_forall in Ho. apply Ho in Hc. by apply bool_decide_eq_true in Hc.
Qed.

Lemma validateLockOwners_spec party verifiers coins u :
  validateLockOwners party verifiers coins = Done u ->
  exists id, findEthAddressVerifier party verifiers = Done id /\ Forall (lockedOwnedBy (ip_address id)) coins.
Proof.
  unfold validateLockOwners. intros Ho. ran. eexists. split; [done|]. apply Forall_forall. intros c Hc%list_elem_of_In.
  rewrite forallb_forall in Ho. apply Ho in Hc. by apply bool_decide_eq_true in Hc.
Qed.

Lemma findEthAddressVerifier_identifier party verifiers id : findEthAddressVerifier party verifiers = Done id -> ip_identifier id = party.
Proof. unfold findEthAddressVerifier. intros Hf. ran. by subst. Qed.

(** Turns the owner checks that were passed into facts about the coins of the inputs. *)
Ltac owners :=
  balances;
  repeat match goal with
  | Ho : validateOwners _ _ _ = Done _ |- _ => apply validateOwners_spec in Ho
  | Ho : validateLockOwners _ _ _ = Done _ |- _ => apply validateLockOwners_spec in Ho
  | Hf : findEthAddressVerifier _ _ = Done ?id, Ho : context [ip_identifier ?id] |- _ =>
      rewrite (findEthAddressVerifier_identifier _ _ _ Hf) in Ho
  end.

Lemma creates_nothing_consumed tx req : endorseHandler n tx req = Done tt -> creates tx = true -> coinsIn (er_Inputs req) = [].
Proof.
  unfold endorseHandler, creates. destruct (pt_Params tx); try discriminate; intros He _; [by eapply endorseMint_balanced|by eapply endorseCreateMintLock_balanced].
Qed.

Lemma lockHolder_owns tx req party : endorseHandler n tx req = Done tt -> lockHolder tx = Some party ->
  exists id, findEthAddressVerifier party (er_ResolvedVerifiers req) = Done id /\ Forall (lockedOwnedBy (ip_address id)) (lockedIn (er_Reads req)).
Proof.
  unfold endorseHandler, lockHolder. destruct (pt_Params tx); try discriminate; intros He [= <-].
  - unfold endorsePrepareUnlock, endorseUnlockOf in He. destruct (IsV0 (pt_DomainConfig tx)); ran; owners; eauto.
  - unfold endorseDelegateLock in He. ran. owners. eauto.
Qed.

(** (C14) Whose coins an endorsed transaction takes, for the states that endorsement looks at.  Every
    unlocked coin among the inputs of a transfer, burn, lock, or new transfer or burn lock belongs to the
    party that pays: the party named in the parameters of transferFrom, burnFrom and a transfer lock, the
    sender otherwise.  A mint and a new mint lock have no unlocked coin among their inputs.  Every locked
    coin among the inputs of an unlock belongs to the party it names, which in basic mode is the sender.
    Every locked coin that preparing an unlock reads belongs to the party it names, and every one that
    delegating a lock reads to the sender.  Nothing is claimed of other coins among the inputs: of the
    unlocked ones of an unlock, the locked ones of the first group, and any of a function that prepares or
    delegates a lock; the notary endorses those of anyone. *)
Theorem endorsed_consumes_own_coins req tx :
  EndorseTransaction n req = Done ENDORSER_SUBMIT -> validateTransaction (er_Transaction req) = Done tx ->
  (forall party, payer tx = Some party ->
     exists id, findEthAddressVerifier party (er_ResolvedVerifiers req) = Done id /\ Forall (coinOwnedBy (ip_address id)) (coinsIn (er_Inputs req))) /\
  (forall party, unlocker tx = Some party ->
     (exists id, findEthAddressVerifier party (er_ResolvedVerifiers req) = Done id /\ Forall (lockedOwnedBy (ip_address id)) (lockedIn (er_Inputs req))) /\
     (isBasic (pt_DomainConfig tx) = true -> exists node, nenv_LocalNodeName = Some node /\ FullyQualified party node = Ok (senderOf tx))) /\
  (creates tx = true -> coinsIn (er_Inputs req) = []) /\
  (forall party, lockHolder tx = Some party ->
     exists id, findEthAddressVerifier party (er_ResolvedVerifiers req) = Done id /\ Forall (lockedOwnedBy (ip_address id)) (lockedIn (er_Reads req))).
Proof.
  intros (tx' & Htx & He)%endorsed_handler Htx'. rewrite Htx in Htx'. injection Htx' as ->.
  split; [|split; [|split; [by apply creates_nothing_consumed|intros party; by apply lockHolder_owns]]].
  all: unfold payer, unlocker, endorseHandler in *; destruct (pt_Params tx); intros party; try discriminate; intros [= <-].
  all: unfold endorseTransfer, endorseBurn, endorseLock, endorseCreateTransferLock, endorseCreateBurnLock, endorseUnlock, endorseUnlockOf in He.
  all: ran.
  all: try by (owners; eauto).
  split; [owners; eauto|]. intros Hb.
  match goal with Hc : checkSenderIs _ _ = Done _ |- _ => unfold checkSenderIs in Hc; rewrite Hb in Hc; cbn in Hc end. ran.
  match goal with Hc : context [FullyQualified (up_From _) ?node] |- _ => exists node; split; [done|]; destruct (FullyQualified (up_From _) node) eqn:Eq; ran; try discriminate end.
  match goal with Hc : String.eqb _ _ = true |- _ => apply String.eqb_eq in Hc; unfold senderOf; by rewrite Hc end.
Qed.

(** ** Signatures *)

Definition coinData (c : NotoCoin) : CoinData := MkCoinData (nc_Salt c) (nc_Owner c) (HexUint256_String (default 0%Z (nc_Amount c))).
Definition lockedCoinData (c : NotoLockedCoin) : LockedCoinData :=
  MkLockedCoinData (nl_Salt c) (nl_LockID c) (nl_Owner c) (HexUint256_String (default 0%Z (nl_Amount c))).

Lemma encodeNotoCoins_spec coins l : encodeNotoCoins coins = Done l -> l = coinData <$> coins.
Proof.
  revert l. induction coins as [|c coins IH]; intros l He; simpl in He; ran; [by subst|]. subst. simpl. unfold coinData at 1.
  match goal with Ha : nc_Amount c = Some _ |- _ => rewrite Ha end. f_equal. by apply IH.
Qed.

Lemma encodeNotoLockedCoins_spec coins l : encodeNotoLockedCoins coins = Done l -> l = lockedCoinData <$> coins.
Proof.
  revert l. induction coins as [|c coins IH]; intros l He; simpl in He; ran; [by subst|]. subst. simpl. unfold lockedCoinData at 1.
  match goal with Ha : nl_Amount c = Some _ |- _ => rewrite Ha end. f_equal. by apply IH.
Qed.

(** What the sender signs. *)
Definition signedData (tx : ParsedTransaction) (req : EndorseTransactionRequest) : TypedData :=
  let coins states := coinData <$> coinsIn states in
  let locked states := lockedCoinData <$> lockedIn states in
  let contract := pt_ContractAddress_ tx in
  let spend := promised li_SpendOutputs req in
  match pt_Params tx with
  | MintParams _ _ _ => Typed_Transfer contract [] (coins (er_Outputs req))
  | TransferParams _ _ _ | TransferFromParams _ _ _ _ | BurnParams _ _ | BurnFromParams _ _ _ =>
      Typed_Transfer contract (coins (er_Inputs req)) (coins (er_Outputs req))
  | LockParams _ _ => Typed_Lock contract (coins (er_Inputs req)) (coins (er_Outputs req)) (locked (er_Outputs req))
  | UnlockParams_ _ => Typed_Unlock contract (locked (er_Inputs req)) (locked (er_Outputs req)) (coins (er_Outputs req))
  | CreateTransferLockParams _ _ _ _ | CreateBurnLockParams _ _ _ _ => Typed_Unlock contract (locked (er_Outputs req)) [] (coins spend)
  | CreateMintLockParams _ _ _ | PrepareMintUnlockParams _ _ _ _ => Typed_Unlock contract [] [] (coins spend)
  | PrepareUnlockParams _ _ _ =>
      let outputs := if IsV0 (pt_DomainConfig tx) then filterSchema (er_Info req) [n_coinSchema n; n_lockedCoinSchema n] else spend in
      Typed_Unlock contract (locked (er_Reads req)) (locked outputs) (coins outputs)
  | PrepareBurnUnlockParams _ _ _ _ _ => Typed_Unlock contract (locked (er_Reads req)) [] []
  | DelegateLockParams LockID _ Delegate Data => Typed_DelegateLock contract LockID Delegate Data
  end.

(** The attestation named sender, whose own verifier is the signer of the data. *)
Definition signedBySomeone (req : EndorseTransactionRequest) (data : TypedData) : Prop :=
  exists attestation verifier message signer,
    FindAttestation "sender" (er_Signatures req) = Some attestation /\ na_Verifier attestation = Some verifier /\
    nenv_EncodeTypedDataV4 data = Some message /\ nenv_RecoverDirect message (na_Payload attestation) = Some signer /\
    nv_Verifier verifier = EthAddress_String signer.

Lemma validateSignature_spec req data message u :
  nenv_EncodeTypedDataV4 data = Some message -> validateSignature "sender" (er_Signatures req) message = Done u -> signedBySomeone req data.
Proof.
  unfold validateSignature. intros Hm Hv. ran. apply String.eqb_eq in Hv. do 4 eexists. by split_and!.
Qed.

Ltac signs :=
  balances;
  repeat match goal with
  | Hp : encodeNotoCoins _ = Done _ |- _ => apply encodeNotoCoins_spec in Hp
  | Hp : encodeNotoLockedCoins _ = Done _ |- _ => apply encodeNotoLockedCoins_spec in Hp
  end; subst; eapply validateSignature_spec; [|eassumption]; done.

(** (C15) Every endorsed transaction carries an attestation named sender that is a signature, by the
    verifier that comes with it, over the data that goes with its function, [signedData]: for a mint the
    coins created; for a transfer or burn the unlocked coins consumed and created; for a lock those and
    the locked coins created; for an unlock the locked coins consumed and the locked and unlocked coins
    created; for a new transfer or burn lock the locked coins created and the coins promised on spending;
    for a new mint lock, or one prepared for a mint, the coins promised on spending; for preparing an
    unlock the locked coins read and what it promises on spending (in variant 0 its info states); for preparing a burn the locked coins
    read; and for delegating a lock the lock, the delegate and the data, with no coins.  States that are
    not listed here, as the coins promised on cancelling, are not signed, and the verifier is not compared
    with the sender's. *)
Theorem endorsed_is_signed req tx :
  EndorseTransaction n req = Done ENDORSER_SUBMIT -> validateTransaction (er_Transaction req) = Done tx ->
  signedBySomeone req (signedData tx req).
Proof.
  intros (tx' & Htx & He)%endorsed_handler Htx'. rewrite Htx in Htx'. injection Htx' as ->.
  unfold signedData, endorseHandler in *. destruct (pt_Params tx);
    unfold endorseMint, endorseTransfer, endorseBurn, endorseLock, endorseUnlock, endorseCreateMintLock, endorseCreateTransferLock, endorseCreateBurnLock,
      endorsePrepareUnlock, endorsePrepareMintUnlock, endorsePrepareBurnUnlock, endorseDelegateLock, endorseUnlockOf,
      encodeTransferUnmasked, encodeLock, encodeUnlock, encodeDelegateLock in He;
    try (destruct (IsV0 (pt_DomainConfig tx)));
    first [ran; signs | promises; signs].
Qed.
End Balance.
