(* ===== verification/NotoCodec.v ===== *)
(** * The Noto token: coins written and read back

    The text forms of numbers, byte strings and addresses, and the JSON of coins and locked coins, are
    inverse to each other; the sign of a number is the exception.

    Sources: sdk/go/pkg/pldtypes/hex_uint256.go, bytes32.go, domains/noto/internal/noto/states.go. *)

From S2P Require Import Prelude HexBytes Identity NotoTypes.
From Stdlib Require Import Ascii.
Open Scope string_scope.

Lemma sixteen_cases (P : N -> Prop) :
  Forall P (N.of_nat <$> seq 0 16) -> forall d, (d < 16)%N -> P d.
Proof.
  intros Hf d Hd. rewrite Forall_forall in Hf. apply Hf, list_elem_of_fmap. exists (N.to_nat d). rewrite elem_of_seq. lia.
Qed.

Lemma digitIn_hexDigit d : (d < 16)%N -> digitIn 16 (hexDigit d) = Some (Z.of_N d) /\ hexDigit d <> "_"%char.
Proof. revert d. apply sixteen_cases. repeat constructor; done. Qed.

Lemma scanDigits_digit v d s :
  (d < 16)%N -> scanDigits 16 true v (String (hexDigit d) s) = scanDigits 16 true (Some (default 0 v * 16 + Z.of_N d)%Z) s.
Proof.
  intros Hd. destruct (digitIn_hexDigit d Hd) as [He Hne]. cbn [scanDigits]. rewrite He. by destruct (ascii_dec (hexDigit d) "_").
Qed.

(** Reading the digits of a number adds the number, shifted by its length, to what was read before. *)
Lemma scanDigits_hexText fuel : forall n acc, (n < 16 ^ N.of_nat (S fuel))%N ->
  exists k, forall v, scanDigits 16 true v (hexText (S fuel) n acc) = scanDigits 16 true (Some (default 0 v * k + Z.of_N n)%Z) acc.
Proof.
  induction fuel as [|fuel IH]; intros n acc Hn.
  - exists 16%Z. intros v. cbn [hexText]. destruct (N.ltb_spec n 16) as [Hlt|]; [|change (16 ^ N.of_nat 1)%N with 16%N in Hn; lia].
    rewrite N.mod_small by done. by apply scanDigits_digit.
  - change (hexText (S (S fuel)) n acc) with
      (let acc' := String (hexDigit (n mod 16)) acc in if (n <? 16)%N then acc' else hexText (S fuel) (n / 16)%N acc').
    cbv zeta. destruct (N.ltb_spec n 16) as [Hlt|Hge].
    + exists 16%Z. intros v. rewrite N.mod_small by done. by apply scanDigits_digit.
    + destruct (IH (n / 16)%N (String (hexDigit (n mod 16)) acc)) as (k & Hk).
      { apply N.Div0.div_lt_upper_bound. rewrite <- N.pow_succ_r'. by rewrite <- Nnat.Nat2N.inj_succ. }
      exists (k * 16)%Z. intros v. rewrite Hk, scanDigits_digit by (apply N.mod_lt; done). cbn [default from_option id].
      assert (Hdm : Z.of_N n = (16 * Z.of_N (n / 16) + Z.of_N (n mod 16))%Z) by (pose proof (N.div_mod n 16 ltac:(done)); lia).
      match goal with |- scanDigits _ _ (Some ?x) _ = scanDigits _ _ (Some ?y) _ => replace x with y; [done|] end. rewrite Hdm. ring.
Qed.

Lemma scanDigits_TextHex n : exists k, forall v, scanDigits 16 true v (TextHex n) = Some (default 0 v * k + Z.of_N n)%Z.
Proof.
  unfold TextHex. destruct (scanDigits_hexText (N.to_nat (N.log2 n)) n "") as (k & Hk); [|by exists k].
  rewrite Nnat.Nat2N.inj_succ, Nnat.N2Nat.id. destruct (N.eq_dec n 0) as [->|Hn]; [done|].
  pose proof (N.log2_spec n ltac:(lia)) as [_ Hl]. eapply N.lt_le_trans; [exact Hl|]. apply N.pow_le_mono_l. lia.
Qed.

(** A number is read back from its text form without its sign. *)
Lemma parse_HexUint256_String z : ParseHexUint256 (HexUint256_String z) = Some (Z.abs z).
Proof.
  unfold ParseHexUint256, HexUint256_String. destruct (scanDigits_TextHex (Z.abs_N z)) as (k & Hk).
  assert (Hz : Z.of_N (Z.abs_N z) = Z.abs z) by lia. destruct (Nat.even _); cbn [String.append SetString scanNat].
  - change (scanDigits 16 true None (TextHex (Z.abs_N z)) = Some (Z.abs z)). rewrite Hk. cbn. by rewrite Hz.
  - change (scanDigits 16 true (Some 0%Z) (TextHex (Z.abs_N z)) = Some (Z.abs z)). rewrite Hk. cbn. by rewrite Hz.
Qed.

Lemma parse_Bytes32_String b : String.length b = 32%nat -> ParseBytes32Ctx (Bytes32_String b) = Ok b.
Proof.
  intros Hl. unfold ParseBytes32Ctx, Bytes32_String. change (TrimPrefix0x ("0x" ++ hexEncode b)) with (hexEncode b).
  by rewrite hexDecode_hexEncode, Hl.
Qed.

Section Codec.
Context `{NotoEnv}.

(** An address is parsed from its own text form: what [ethtypes.NewAddress] is for. *)
Definition addressParses (a : EthAddress) : Prop := nenv_NewAddress (EthAddress_String a) = Some a.

(** A coin as this code makes them: all of its fields set, the amount not negative. *)
Definition wholeCoin (c : NotoCoin) : Prop :=
  String.length (nc_Salt c) = 32%nat /\ (exists a, nc_Owner c = Some a /\ addressParses a) /\ (exists z, nc_Amount c = Some z /\ 0 <= z)%Z.

Definition wholeLockedCoin (c : NotoLockedCoin) : Prop :=
  String.length (nl_Salt c) = 32%nat /\ String.length (nl_LockID c) = 32%nat /\
  (exists a, nl_Owner c = Some a /\ addressParses a) /\ (exists z, nl_Amount c = Some z /\ 0 <= z)%Z.

Lemma unmarshal_marshalCoin c : wholeCoin c -> unmarshalCoin (marshalCoin c) = Some c.
Proof.
  intros (Hs & (a & Ho & Ha) & (z & Hz & Hpos)). destruct c as [salt owner amount]. cbn in *. subst owner amount.
  unfold unmarshalCoin, marshalCoin, fieldBytes32, fieldAddress, fieldUint256. cbn. rewrite parse_Bytes32_String by done. cbn.
  rewrite Ha. cbn. rewrite parse_HexUint256_String. cbn. by rewrite Z.abs_eq.
Qed.

Lemma unmarshal_marshalLockedCoin c : wholeLockedCoin c -> unmarshalLockedCoin (marshalLockedCoin c) = Some c.
Proof.
  intros (Hs & Hl & (a & Ho & Ha) & (z & Hz & Hpos)). destruct c as [salt lockId owner amount]. cbn in *. subst owner amount.
  unfold unmarshalLockedCoin, marshalLockedCoin, fieldBytes32, fieldAddress, fieldUint256. cbn. rewrite !parse_Bytes32_String by done. cbn.
  rewrite Ha. cbn. rewrite parse_HexUint256_String. cbn. by rewrite Z.abs_eq.
Qed.

(** (C40) Coins and locked coins are read back as they were written; a locked coin is also read as the
    unlocked coin it would be without its lock, and only the strict reader refuses that; and a negative
    amount is read back as its absolute value. *)
Theorem coins_read_back :
  (forall c, wholeCoin c -> unmarshalCoin (marshalCoin c) = Some c /\ unmarshalCoinStrict (marshalCoin c) = Some c) /\
  (forall c, wholeLockedCoin c -> unmarshalLockedCoin (marshalLockedCoin c) = Some c /\
     unmarshalCoin (marshalLockedCoin c) = Some (MkNotoCoin (nl_Salt c) (nl_Owner c) (nl_Amount c)) /\
     unmarshalCoinStrict (marshalLockedCoin c) = None) /\
  (forall salt a z, String.length salt = 32%nat -> addressParses a -> (z < 0)%Z ->
     unmarshalCoin (marshalCoin (MkNotoCoin salt (Some a) (Some z))) = Some (MkNotoCoin salt (Some a) (Some (- z)%Z))).
Proof.
  split_and!.
  - intros c Hc. split; [by apply unmarshal_marshalCoin|]. by apply unmarshal_marshalCoin.
  - intros c Hc. split_and!; [by apply unmarshal_marshalLockedCoin| |done].
    destruct Hc as (Hs & _ & (a & Ho & Ha) & (z & Hz & Hp)). destruct c as [salt lockId owner amount]. cbn in *. subst owner amount.
    apply (unmarshal_marshalCoin (MkNotoCoin salt (Some a) (Some z))). unfold wholeCoin. cbn. by split_and!; eauto.
  - intros salt a z Hs Ha Hz. unfold unmarshalCoin, marshalCoin, fieldBytes32, fieldAddress, fieldUint256. cbn.
    rewrite parse_Bytes32_String by done. cbn. rewrite Ha. cbn. rewrite parse_HexUint256_String. cbn. by rewrite Z.abs_neq by lia.
Qed.
End Codec.
