(* ===== verification/NotoSample.v ===== *)
(** * The Noto token: requests, and what the endorsement lets through

    A concrete environment and requests on which the definitions run, the instances of the theorems
    on balance at them, and theorems on what the endorsement does not check.

    Sources: domains/noto/internal/noto (see [NotoEndorse]). *)

From S2P Require Import Prelude HexBytes Identity NotoTypes NotoChecks NotoEndorse NotoBalance NotoCodec.
Open Scope string_scope.
Open Scope list_scope.

(** ** Samples *)

Definition addr (c : string) : EthAddress := (zeros 19 ++ c)%string.
Definition bytes32 (c : string) : Bytes32 := (zeros 31 ++ c)%string.

(** Addresses are parsed as the library does; the signature of a message by an address is the address. *)
#[export] Instance sampleNotoEnv : NotoEnv := {|
  nenv_NewAddress s := match hexDecode (TrimPrefix0x s) with Some a => if (String.length a =? 20)%nat then Some a else None | None => None end;
  nenv_EncodeTypedDataV4 _ := Some "message";
  nenv_RecoverDirect _ signature := if (String.length signature =? 20)%nat then Some signature else None;
  nenv_lockIdHash contract _ _ := Some (contract ++ zeros 11 ++ "L")%string;
  nenv_nullifierHash _ salt _ _ := Some salt;
  nenv_LocalNodeName := Some "node1";
  nenv_FindAvailableStates _ _ _ := Some [];
  nenv_ValidateStates states := Some ((fun i => Bytes32_String (bytes32 (String (Ascii.ascii_of_nat (48 + i)) ""))) <$> seq 0 (length states));
  nenv_EncodeTransactionData _ _ := Some "";
  nenv_RandBytes32 i := bytes32 (String (Ascii.ascii_of_nat i) "");
  nenv_NewUUID i := zeros 16;
  nenv_knownSignature _ := true;
  nenv_knownFunction _ := true
|}.

Definition sampleNoto : Noto := MkNoto "coin" "lockedCoin" "lockV0" "lock" "dataV0" "dataV1" "data" "manifest".

Definition alice : EthAddress := addr "a".
Definition bob : EthAddress := addr "b".
Definition mallory : EthAddress := addr "m".

Definition verifierOf (lookup : string) (a : EthAddress) : NotoVerifier :=
  MkNotoVerifier lookup ECDSA_SECP256K1 ETH_ADDRESS (EthAddress_String a).

Definition sampleVerifiers : list NotoVerifier :=
  [verifierOf "notary@node1" (addr "n"); verifierOf "alice@node1" alice; verifierOf "bob@node1" bob; verifierOf "mallory@node1" mallory].

Definition coinState (id : string) (owner : EthAddress) (amount : Z) : NotoState :=
  MkNotoState (Bytes32_String (bytes32 id)) "coin" (marshalCoin (MkNotoCoin (bytes32 id) (Some owner) (Some amount))).

Definition lockedState (id : string) (lockID : Bytes32) (owner : EthAddress) (amount : Z) : NotoState :=
  MkNotoState (Bytes32_String (bytes32 id)) "lockedCoin" (marshalLockedCoin (MkNotoLockedCoin (bytes32 id) lockID (Some owner) (Some amount))).

Definition lockState (id : string) (lockID : Bytes32) (owner : EthAddress) (replaces : Bytes32) (spend cancel : list string) : NotoState :=
  let ids l := JArray ((fun x => JString (Bytes32_String (bytes32 x))) <$> l) in
  MkNotoState (Bytes32_String (bytes32 id)) "lock"
    (Some (JObject [("salt", JString (Bytes32_String (bytes32 id))); ("lockId", JString (Bytes32_String lockID));
                    ("owner", JString (EthAddress_String owner)); ("spender", JString (EthAddress_String owner));
                    ("replaces", JString (Bytes32_String replaces)); ("spendTxId", JString (Bytes32_String (bytes32 "t")));
                    ("spendOutputs", ids spend); ("cancelOutputs", ids cancel)])).

(** A token in basic mode where everyone may burn and lock, and only the notary mints. *)
Definition sampleConfigNoto (variant : Z) : NotoParsedConfig :=
  MkNotoParsedConfig "notary@node1" NotaryModeBasic variant false (Some (MkNotoBasicOptions (Some true) (Some true) (Some true))) None.

Definition sampleTransaction (from function : string) (params : list (string * json)) : NotoTransaction :=
  MkNotoTransaction "0x01" from (Some (JObject [("name", JString function)])) "" (Some (JObject params)) (EthAddress_String (addr "c")) (Some (sampleConfigNoto 2)).

Definition signedBy (a : EthAddress) : list NotoAttestation := [MkNotoAttestation "sender" (Some (verifierOf "" a)) a].

Definition transferRequest (from : string) (signer : EthAddress) (inputs outputs : list NotoState) : EndorseTransactionRequest :=
  MkEndorseTransactionRequest
    (sampleTransaction from "transfer" [("to", JString "bob@node1"); ("amount", JNumber "7")])
    sampleVerifiers inputs [] outputs [] (signedBy signer).

(** Alice pays seven of ten to Bob. *)
Definition honestTransfer : EndorseTransactionRequest :=
  transferRequest "alice@node1" alice [coinState "1" alice 10] [coinState "2" bob 7; coinState "3" alice 3].

Definition transferFromRequest : EndorseTransactionRequest :=
  MkEndorseTransactionRequest
    (sampleTransaction "mallory@node1" "transferFrom" [("from", JString "alice@node1"); ("to", JString "mallory@node1"); ("amount", JNumber "10")])
    sampleVerifiers [coinState "1" alice 10] [] [coinState "2" mallory 10] [] (signedBy mallory).

(** A lock of ten prepared for a burn, with [cancelled] to be paid if it is cancelled. *)
Definition burnUnlockRequest (cancelled : Z) : EndorseTransactionRequest :=
  MkEndorseTransactionRequest
    (sampleTransaction "alice@node1" "prepareBurnUnlock"
       [("lockId", JString (Bytes32_String (bytes32 "L"))); ("from", JString "alice@node1"); ("amount", JNumber "10")])
    sampleVerifiers
    [lockState "4" (bytes32 "L") alice (zeros 32) [] []]
    [lockedState "5" (bytes32 "L") alice 10]
    [lockState "6" (bytes32 "L") alice (bytes32 "4") [] ["7"]]
    [coinState "7" alice cancelled] (signedBy alice).

(** ** What is not checked *)

(** Preparing a lock for a burn is endorsed whatever the lock promises: the lock of ten below may
    promise any amount to its owner for the case that it is cancelled. *)
Theorem burn_unlock_promises_anything (cancelled : Z) :
  (0 <= cancelled)%Z ->
  EndorseTransaction sampleNoto (burnUnlockRequest cancelled) = Done ENDORSER_SUBMIT /\
  lockedValue sampleNoto (er_Reads (burnUnlockRequest cancelled)) = 10%Z /\
  value sampleNoto (promised sampleNoto li_CancelOutputs (burnUnlockRequest cancelled)) = cancelled.
Proof.
  intros Hc. split_and!; [vm_compute; reflexivity|vm_compute; reflexivity|].
  assert (Hp : promised sampleNoto li_CancelOutputs (burnUnlockRequest cancelled) = [coinState "7" alice cancelled]) by (vm_compute; reflexivity).
  rewrite Hp. unfold value, coinsIn. cbn [omap list_omap]. unfold coinOf, coinState. cbn [ns_SchemaId n_coinSchema sampleNoto ns_StateDataJson].
  change (String.eqb "coin" "coin") with true. cbn iota. rewrite unmarshal_marshalCoin; [cbn; lia|].
  split_and!; [done|by exists alice|by exists cancelled].
Qed.

(** In basic mode [transferFrom] is refused when a transaction is initialised, which the sender's
    own node does, but not when it is endorsed: the notary endorses that Mallory, on her own signature,
    moves Alice's coins to herself. *)
Theorem transferFrom_endorsed_in_basic_mode :
  isBasic (sampleConfigNoto 2) = true /\
  (exists message, InitTransaction "" "" (er_Transaction transferFromRequest) = Fail operationNotAllowedError message) /\
  EndorseTransaction sampleNoto transferFromRequest = Done ENDORSER_SUBMIT /\
  Forall (coinOwnedBy alice) (coinsIn sampleNoto (er_Inputs transferFromRequest)) /\
  Forall (coinOwnedBy mallory) (coinsIn sampleNoto (er_Outputs transferFromRequest)).
Proof.
  split_and!; [reflexivity|eexists; vm_compute; reflexivity|vm_compute; reflexivity|vm_compute; repeat constructor..].
Qed.

(** The signature of the sender is compared with the verifier that comes with it and not with the
    verifier resolved for the sender: a transfer of Alice's coins in her name, signed by Mallory, is
    endorsed. *)
Theorem signature_not_bound_to_sender :
  let req := transferRequest "alice@node1" mallory [coinState "1" alice 10] [coinState "2" mallory 10] in
  EndorseTransaction sampleNoto req = Done ENDORSER_SUBMIT /\
  nt_From (er_Transaction req) = "alice@node1" /\
  findEthAddressVerifier "alice@node1" (er_ResolvedVerifiers req) = Done (MkIdentityPair "alice@node1" alice) /\
  (forall attestation, FindAttestation "sender" (er_Signatures req) = Some attestation ->
     nv_Verifier <$> na_Verifier attestation = Some (EthAddress_String mallory) /\ na_Payload attestation = mallory).
Proof.
  split_and!; [vm_compute; reflexivity..|]. intros attestation Ha. vm_compute in Ha. injection Ha as <-. by vm_compute.
Qed.

(** Locked coins among the inputs and outputs of a transfer are not looked at. *)
Theorem transfer_ignores_locked_coins :
  let req := transferRequest "alice@node1" alice [coinState "1" alice 10] [coinState "2" bob 10; lockedState "3" (bytes32 "L") alice 1000] in
  EndorseTransaction sampleNoto req = Done ENDORSER_SUBMIT /\ lockedValue sampleNoto (er_Inputs req) = 0%Z /\ lockedValue sampleNoto (er_Outputs req) = 1000%Z.
Proof. split_and!; vm_compute; reflexivity. Qed.

(** A plain lock may promise any amount: this one locks ten and promises a thousand to Bob. *)
Definition generousLock : EndorseTransactionRequest :=
  let lockID := (addr "c" ++ zeros 11 ++ "L")%string in
  MkEndorseTransactionRequest (sampleTransaction "alice@node1" "lock" [("amount", JNumber "10")]) sampleVerifiers [coinState "1" alice 10] []
    [lockedState "5" lockID alice 10; lockState "6" lockID alice (zeros 32) ["7"] []] [coinState "7" bob 1000] (signedBy alice).

Theorem lock_promises_anything :
  EndorseTransaction sampleNoto generousLock = Done ENDORSER_SUBMIT /\ lockedValue sampleNoto (er_Outputs generousLock) = 10%Z /\
  value sampleNoto (promised sampleNoto li_SpendOutputs generousLock) = 1000%Z.
Proof. split_and!; vm_compute; reflexivity. Qed.

(** Unlocked coins among the inputs of an unlock, and any coins among those of the delegation of a lock,
    are not looked at: here they are Bob's. *)
Definition greedyUnlock : EndorseTransactionRequest :=
  MkEndorseTransactionRequest
    (sampleTransaction "alice@node1" "unlock"
       [("lockId", JString (Bytes32_String (bytes32 "L"))); ("from", JString "alice@node1");
        ("recipients", JArray [JObject [("to", JString "alice@node1"); ("amount", JNumber "10")]])])
    sampleVerifiers [lockState "4" (bytes32 "L") alice (zeros 32) [] []; lockedState "5" (bytes32 "L") alice 10; coinState "1" bob 5] []
    [coinState "2" alice 10] [] (signedBy alice).

Definition greedyDelegation : EndorseTransactionRequest :=
  MkEndorseTransactionRequest
    (sampleTransaction "alice@node1" "delegateLock" [("lockId", JString (Bytes32_String (bytes32 "L"))); ("delegate", JString (EthAddress_String mallory))])
    sampleVerifiers [lockState "4" (bytes32 "L") alice (zeros 32) [] []; coinState "1" bob 5] [lockedState "5" (bytes32 "L") alice 10]
    [lockState "6" (bytes32 "L") alice (bytes32 "4") [] []] [] (signedBy alice).

Theorem others_coins_endorsed :
  (EndorseTransaction sampleNoto greedyUnlock = Done ENDORSER_SUBMIT /\ Forall (coinOwnedBy bob) (coinsIn sampleNoto (er_Inputs greedyUnlock)) /\
   value sampleNoto (er_Inputs greedyUnlock) = 5%Z) /\
  (EndorseTransaction sampleNoto greedyDelegation = Done ENDORSER_SUBMIT /\ Forall (coinOwnedBy bob) (coinsIn sampleNoto (er_Inputs greedyDelegation)) /\
   value sampleNoto (er_Inputs greedyDelegation) = 5%Z).
Proof. split_and!; [vm_compute; reflexivity|vm_compute; repeat constructor|vm_compute; reflexivity|vm_compute; reflexivity|vm_compute; repeat constructor|vm_compute; reflexivity]. Qed.

(** The lock id that a new transfer lock names is not compared with the one the contract will give it. *)
Definition misnamedLock (lockID : Bytes32) : EndorseTransactionRequest :=
  MkEndorseTransactionRequest
    (sampleTransaction "alice@node1" "createTransferLock"
       [("from", JString "alice@node1"); ("recipients", JArray [JObject [("to", JString "bob@node1"); ("amount", JNumber "10")]])])
    sampleVerifiers [coinState "1" alice 10] [] [lockedState "5" lockID alice 10; lockState "6" lockID alice (zeros 32) ["7"] ["8"]]
    [coinState "7" bob 10; coinState "8" alice 10] (signedBy alice).

Theorem lock_id_not_checked :
  EndorseTransaction sampleNoto (misnamedLock (bytes32 "X")) = Done ENDORSER_SUBMIT /\ EndorseTransaction sampleNoto (misnamedLock (bytes32 "Y")) = Done ENDORSER_SUBMIT.
Proof. split; vm_compute; reflexivity. Qed.

(** ** Witnesses *)

Lemma endorsed_transaction_balances_witness :
  exists tx, validateTransaction (er_Transaction honestTransfer) = Done tx /\ balanced sampleNoto tx honestTransfer /\
    value sampleNoto (er_Inputs honestTransfer) = 10%Z.
Proof.
  destruct (endorsed_transaction_balances sampleNoto honestTransfer) as (tx & Htx & Hb); [vm_compute; reflexivity|].
  exists tx. split; [exact Htx|]. split; [|vm_compute; reflexivity]. apply Hb. vm_compute in Htx. injection Htx as <-. reflexivity.
Defined.

Lemma endorsed_consumes_own_coins_witness :
  exists id, findEthAddressVerifier "alice@node1" (er_ResolvedVerifiers honestTransfer) = Done id /\
    Forall (coinOwnedBy (ip_address id)) (coinsIn sampleNoto (er_Inputs honestTransfer)).
Proof.
  destruct (validateTransaction (er_Transaction honestTransfer)) as [tx|c m| |] eqn:Htx; [|vm_compute in Htx; discriminate Htx..].
  destruct (endorsed_consumes_own_coins sampleNoto honestTransfer tx) as [Hp _]; [vm_compute; reflexivity|exact Htx|].
  apply (Hp "alice@node1"). vm_compute in Htx. injection Htx as <-. reflexivity.
Defined.

Lemma endorsed_is_signed_witness :
  exists tx, validateTransaction (er_Transaction honestTransfer) = Done tx /\ signedBySomeone honestTransfer (signedData sampleNoto tx honestTransfer).
Proof.
  destruct (validateTransaction (er_Transaction honestTransfer)) as [tx|c m| |] eqn:Htx; [|vm_compute in Htx; discriminate Htx..].
  exists tx. split; [reflexivity|]. apply (endorsed_is_signed sampleNoto honestTransfer tx); [vm_compute; reflexivity|exact Htx].
Defined.

Lemma burn_unlock_promises_anything_witness :
  EndorseTransaction sampleNoto (burnUnlockRequest 1000000) = Done ENDORSER_SUBMIT /\
  value sampleNoto (promised sampleNoto li_CancelOutputs (burnUnlockRequest 1000000)) = 1000000%Z.
Proof. destruct (burn_unlock_promises_anything 1000000) as (He & _ & Hv); [lia|]. split; [exact He|exact Hv]. Defined.
