(* ===== verification/NotoStates.v ===== *)
(** * The Noto token: choosing and building states

    What the assembly of every Noto function is made of: the selection of coins, new coins, locks and
    info states with the parties they are distributed to, nullifier specs, and manifests.

    A new state is shared by pointer between the lists it is put in, and the node gives it its id
    later: a new state has a number, and the state of an assembly, [Assembly], holds the ids given so
    far by number and how many random values were drawn.

    Sources: domains/noto/internal/noto/states.go, locks.go, manifest.go, handlers.go. *)

From S2P Require Import Prelude HexBytes Identity NotoTypes NotoChecks.
Open Scope string_scope.
Open Scope list_scope.

(** ** The state of an assembly *)

Record Assembly : Type := MkAssembly { as_draws : nat; as_states : nat; as_ids : gmap nat string }.

#[export] Instance Assembly_rebuild : Rebuild Assembly := fun a => MkAssembly (as_draws a) (as_states a) (as_ids a).

Definition AM (A : Type) : Type := Assembly -> Assembly * outcome A.

#[export] Instance AM_ret : MRet AM := fun A a s => (s, Done a).
#[export] Instance AM_bind : MBind AM := fun A B f m s =>
  match m s with
  | (s', Done a) => f a s'
  | (s', Fail c e) => (s', Fail c e)
  | (s', Panicked) => (s', Panicked)
  | (s', Running) => (s', Running)
  end.

Definition liftA {A} (r : outcome A) : AM A := fun s => (s, r).

Record NullifierSpec : Type := MkNullifierSpec { np_Party : string; np_Algorithm : string; np_VerifierType : string; np_PayloadType : string }.

Record NewState : Type := MkNewState {
  nw_ref : nat; nw_SchemaId : string; nw_StateDataJson : StateDataJson; nw_DistributionList : list string; nw_NullifierSpecs : list NullifierSpec }.

Section States.
Context `{NotoEnv} (n : Noto).

(** [RandBytes32] *)
Definition randBytes32 : AM Bytes32 := fun s => (s <| as_draws ::= S |>, Done (nenv_RandBytes32 (as_draws s))).

(** [Bytes32UUIDFirst16(uuid.New())] *)
Definition newSpendTxId : AM Bytes32 := fun s => (s <| as_draws ::= S |>, Done (nenv_NewUUID (as_draws s) ++ zeros 16)%string).

Definition newState (schema : string) (data : StateDataJson) (distribution : list string) : AM NewState := fun s =>
  (s <| as_states ::= S |>, Done (MkNewState (as_states s) schema data distribution [])).

(** ** Distribution lists *)

(** A list of pointers. *)
Abbreviation identityList := (list (option identityPair)) (only parsing).

Fixpoint dedupe (seen l : list string) : list string :=
  match l with
  | [] => []
  | x :: rest => if existsb (String.eqb x) seen then dedupe seen rest else x :: dedupe (x :: seen) rest
  end.

Definition derefAll {A} (l : list (option A)) : outcome (list A) := foldr (fun p acc => a ← deref p; r ← acc; mret (a :: r)) (mret []) l.

Definition identities (idl : identityList) : outcome (list string) := l ← derefAll idl; mret (dedupe [] (ip_identifier <$> l)).

Definition addresses (idl : identityList) : outcome (list EthAddress) := l ← derefAll idl; mret (dedupe [] (ip_address <$> l)).

(** ** Selecting coins *)

Record preparedInputs : Type := MkPreparedInputs { pi_coins : list NotoCoin; pi_states : list StateRef; pi_total : Z }.
Record preparedLockedInputs : Type := MkPreparedLockedInputs { pl_coins : list NotoLockedCoin; pl_states : list StateRef; pl_total : Z }.

Definition createdAfter (lastStateTimestamp : Z) : option Z := if (0 <? lastStateTimestamp)%Z then Some lastStateTimestamp else None.

(** The inner loop of [prepareInputs]: every state of the page is taken. *)
Fixpoint takePage (lastStateTimestamp : Z) (selected : preparedInputs) (states : list StoredState) : outcome (Z * preparedInputs) :=
  match states with
  | [] => mret (lastStateTimestamp, selected)
  | state :: rest =>
      coin ← orFail invalidStoredStateError "MsgInvalidStateData" (unmarshalCoin (ss_DataJson state));
      amount ← deref (nc_Amount coin);
      takePage (ss_CreatedAt state)
        (MkPreparedInputs (pi_coins selected ++ [coin]) (pi_states selected ++ [MkStateRef (ss_SchemaId state) (ss_Id state)]) (pi_total selected + amount)) rest
  end.

Fixpoint selectCoins (fuel : nat) (owner : EthAddress) (amount : Z) (useNullifiers : bool) (lastStateTimestamp : Z) (selected : preparedInputs) : outcome preparedInputs :=
  if (amount <=? pi_total selected)%Z then mret selected
  else
    match fuel with
    | O => Running
    | S fuel =>
        states ← orFail callbackFailedError "FindAvailableStates"
          (nenv_FindAvailableStates (n_coinSchema n)
             (MkStateQuery 10 false [("owner", EthAddress_String owner)] (createdAfter lastStateTimestamp)) useNullifiers);
        require (negb (noneOf states)) insufficientFundsError "MsgInsufficientFunds" ≫= fun _ =>
        page ← takePage lastStateTimestamp selected states;
        selectCoins fuel owner amount useNullifiers page.1 page.2
    end.

(** [prepareInputs]; the fuel bounds the number of pages. *)
Definition prepareInputs (fuel : nat) (owner : option identityPair) (amount : option Z) (useNullifiers : bool) : outcome preparedInputs :=
  a ← deref amount;
  if (a <=? 0)%Z then mret (MkPreparedInputs [] [] 0)
  else o ← deref owner; selectCoins fuel (ip_address o) a useNullifiers 0 (MkPreparedInputs [] [] 0).

(** The inner loop of [prepareLockedInputs]: it stops once the amount is reached, unless all are wanted. *)
Fixpoint takeLockedPage (amount : Z) (selectAll : bool) (lastStateTimestamp : Z) (selected : preparedLockedInputs) (states : list StoredState)
    : outcome (Z * preparedLockedInputs) :=
  match states with
  | [] => mret (lastStateTimestamp, selected)
  | state :: rest =>
      coin ← orFail invalidStoredStateError "MsgInvalidStateData" (unmarshalLockedCoin (ss_DataJson state));
      a ← deref (nl_Amount coin);
      let selected :=
        MkPreparedLockedInputs (pl_coins selected ++ [coin]) (pl_states selected ++ [MkStateRef (ss_SchemaId state) (ss_Id state)]) (pl_total selected + a) in
      if ((amount <=? pl_total selected)%Z && negb selectAll)%bool then mret (ss_CreatedAt state, selected)
      else takeLockedPage amount selectAll (ss_CreatedAt state) selected rest
  end.

Fixpoint selectLockedCoins (fuel : nat) (lockID : Bytes32) (owner : EthAddress) (amount : Z) (selectAll : bool) (lastStateTimestamp : Z)
    (selected : preparedLockedInputs) : outcome preparedLockedInputs :=
  match fuel with
  | O => Running
  | S fuel =>
      states ← orFail callbackFailedError "FindAvailableStates"
        (nenv_FindAvailableStates (n_lockedCoinSchema n)
           (MkStateQuery 10 false [("lockId", Bytes32_String lockID); ("owner", EthAddress_String owner)] (createdAfter lastStateTimestamp)) false);
      page ← takeLockedPage amount selectAll lastStateTimestamp selected states;
      if (length states <? 10)%nat then
        require (amount <=? pl_total page.2)%Z insufficientFundsError "MsgInsufficientFunds" ≫= fun _ => mret page.2
      else selectLockedCoins fuel lockID owner amount selectAll page.1 page.2
  end.

Definition prepareLockedInputs (fuel : nat) (lockID : Bytes32) (owner : EthAddress) (amount : Z) (selectAll : bool) : outcome preparedLockedInputs :=
  selectLockedCoins fuel lockID owner amount selectAll 0 (MkPreparedLockedInputs [] [] 0).

(** ** New coins *)

Record preparedOutputs : Type := MkPreparedOutputs { po_distributions : list identityList; po_coins : list NotoCoin; po_states : list NewState }.
Record preparedLockedOutputs : Type := MkPreparedLockedOutputs { pk_distributions : list identityList; pk_coins : list NotoLockedCoin; pk_states : list NewState }.

Definition noOutputs : preparedOutputs := MkPreparedOutputs [] [] [].
Definition noLockedOutputs : preparedLockedOutputs := MkPreparedLockedOutputs [] [] [].

Definition appendOutputs (a b : preparedOutputs) : preparedOutputs :=
  MkPreparedOutputs (po_distributions a ++ po_distributions b) (po_coins a ++ po_coins b) (po_states a ++ po_states b).

Definition prepareOutputs (owner : option identityPair) (amount : option Z) (distributionList : identityList) : AM preparedOutputs :=
  salt ← randBytes32;
  o ← liftA (deref owner);
  let newCoin := MkNotoCoin salt (Some (ip_address o)) amount in
  ids ← liftA (identities distributionList);
  state ← newState (n_coinSchema n) (marshalCoin newCoin) ids;
  mret (MkPreparedOutputs [distributionList] [newCoin] [state]).

Definition prepareLockedOutputs (id : Bytes32) (owner : option identityPair) (amount : option Z) (distributionList : identityList) : AM preparedLockedOutputs :=
  a ← liftA (deref amount);
  if (a <=? 0)%Z then mret noLockedOutputs
  else
    salt ← randBytes32;
    o ← liftA (deref owner);
    let newCoin := MkNotoLockedCoin salt id (Some (ip_address o)) (Some a) in
    ids ← liftA (identities distributionList);
    state ← newState (n_lockedCoinSchema n) (marshalLockedCoin newCoin) ids;
    mret (MkPreparedLockedOutputs [distributionList] [newCoin] [state]).

(** [nullifierSpec]; [name] is the name the domain is registered under. *)
Definition nullifierSpec (name party : string) (contract : EthAddress) : NullifierSpec :=
  MkNullifierSpec party ("domain:" ++ name ++ ":nullifier")%string "domain:noto:nullifier:verifier"
    ("domain:noto:nullifier:" ++ EthAddress_String contract)%string.

(** [addNullifierSpecs], on outputs that were just made. *)
Definition addNullifierSpecs (specs : list NullifierSpec) (outputs : preparedOutputs) : preparedOutputs :=
  MkPreparedOutputs (po_distributions outputs) (po_coins outputs)
    ((fun s => MkNewState (nw_ref s) (nw_SchemaId s) (nw_StateDataJson s) (nw_DistributionList s) specs) <$> po_states outputs).

(** ** Info states and locks *)

Definition jsonBytes32 (b : Bytes32) : json := JString (Bytes32_String b).
Definition jsonAddress (a : option EthAddress) : json := match a with Some a => JString (EthAddress_String a) | None => JNull end.
Definition jsonHex (b : string) : json := JString ("0x" ++ hexEncode b)%string.

(** [HexUint64] in JSON. *)
Definition jsonUint64 (z : Z) : json := JString ("0x" ++ TextHex (Z.to_N z))%string.

Definition prepareDataInfo (data : string) (variant : Z) (distributionList : list string) (transaction : NotoTransaction) (verifiers : list NotoVerifier)
    : AM (list NewState) :=
  salt ← randBytes32;
  fromAddr ← liftA (findEthAddressVerifier (nt_From transaction) verifiers);
  state ← newState (if (variant =? 0)%Z then n_dataSchemaV0 n else n_dataSchemaV2 n)
    (Some (JObject [("salt", jsonBytes32 salt); ("data", jsonHex data); ("variant", jsonUint64 variant); ("from", jsonAddress (Some (ip_address fromAddr)))]))
    distributionList;
  mret [state].

Definition marshalLockV1 (l : NotoLockInfo_V1) : StateDataJson :=
  Some (JObject [("salt", jsonBytes32 (li_Salt l)); ("lockId", jsonBytes32 (li_LockID l)); ("owner", jsonAddress (li_Owner l));
                 ("spender", jsonAddress (li_Spender l)); ("replaces", jsonBytes32 (li_Replaces l)); ("spendTxId", jsonBytes32 (li_SpendTxId l));
                 ("spendOutputs", JArray (jsonBytes32 <$> li_SpendOutputs l)); ("spendData", jsonHex (li_SpendData l));
                 ("cancelOutputs", JArray (jsonBytes32 <$> li_CancelOutputs l)); ("cancelData", jsonHex (li_CancelData l))]).

Record preparedLockInfo : Type := MkPreparedLockInfo { pf_distribution : identityList; pf_state : NewState }.

Definition prepareLockInfo_V0 (lockID : Bytes32) (owner delegate : option EthAddress) (distributionList : identityList) : AM preparedLockInfo :=
  salt ← randBytes32;
  ids ← liftA (identities distributionList);
  state ← newState (n_lockInfoSchemaV0 n)
    (Some (JObject [("salt", jsonBytes32 salt); ("lockId", jsonBytes32 lockID); ("owner", jsonAddress owner);
                    ("delegate", jsonAddress (Some (default (zeros 20) delegate)))])) ids;
  mret (MkPreparedLockInfo distributionList state).

Definition prepareLockInfo_V1 (newLockInfo : NotoLockInfo_V1) (distributionList : identityList) : AM preparedLockInfo :=
  ids ← liftA (identities distributionList);
  state ← newState (n_lockInfoSchemaV1 n) (marshalLockV1 newLockInfo) ids;
  mret (MkPreparedLockInfo distributionList state).

Record loadedLockInfo : Type := MkLoadedLockInfo { ll_id : Bytes32; ll_stateRef : StateRef; ll_lockInfo : NotoLockInfo_V1 }.

Definition loadLockInfoV1 (lockID : Bytes32) : outcome loadedLockInfo :=
  states ← orFail callbackFailedError "FindAvailableStates"
    (nenv_FindAvailableStates (n_lockInfoSchemaV1 n) (MkStateQuery 1 true [("lockId", Bytes32_String lockID)] None) false);
  match states with
  | [] => Fail lockNotFoundError "MsgLockIDNotFound"
  | lockState :: _ =>
      match ParseBytes32Ctx (ss_Id lockState), unmarshalLockV1 (ss_DataJson lockState) with
      | Ok id, Some info => mret (MkLoadedLockInfo id (MkStateRef (ss_SchemaId lockState) (ss_Id lockState)) info)
      | _, _ => Fail invalidStoredStateError "MsgInvalidLockState"
      end
  end.

(** ** Ids and manifests *)

(** The ids that the node gives are stored by position; one more than asked for is out of range. *)
Fixpoint storeIDs (states : list NewState) (ids : list string) (s : Assembly) : Assembly * outcome unit :=
  match ids, states with
  | [], _ => (s, Done tt)
  | _ :: _, [] => (s, Panicked)
  | id :: ids, state :: states => storeIDs states ids (s <| as_ids ::= <[nw_ref state := id]> |>)
  end.

Definition allocateStateIDs (states : list NewState) : AM unit :=
  ids ← liftA (orFail callbackFailedError "ValidateStates" (nenv_ValidateStates ((fun s => (nw_SchemaId s, nw_StateDataJson s)) <$> states)));
  storeIDs states ids.

(** [*state.Id] *)
Definition allocatedID (state : NewState) : AM string := fun s => (s, deref (as_ids s !! nw_ref state)).

Fixpoint forStates {A B} (f : A -> AM B) (l : list A) : AM (list B) :=
  match l with
  | [] => mret []
  | x :: rest => y ← f x; ys ← forStates f rest; mret (y :: ys)
  end.

(** [MustParseBytes32] panics. *)
Definition newStateAllocatedIDs (states : list NewState) : AM (list Bytes32) :=
  forStates (fun state => id ← allocatedID state; liftA (match ParseBytes32Ctx id with Ok b => Done b | _ => Panicked end)) states.

(** [encodeTransactionData] of info states with their ids. *)
Definition encodeTransactionData (cfg : NotoParsedConfig) (transaction : NotoTransaction) (ids : list string) : outcome string :=
  let parse s := match ParseBytes32Ctx s with Ok b => Done b | _ => Fail invalidTransactionDataError "ParseBytes32Ctx" end in
  stateIDs ← foldr (fun id acc => b ← parse id; r ← acc; mret (b :: r)) (mret []) ids;
  transactionID ← (if IsV0 cfg then b ← parse (nt_TransactionId transaction); mret (Some b) else mret None);
  orFail encodeFailedError "EncodeABIDataJSONCtx" (nenv_EncodeTransactionData transactionID stateIDs).

(** The states of a manifest with their distributions, in the order of the manifest. *)
Record manifestBuilder : Type := MkManifestBuilder {
  mb_info : list (NewState * identityList); mb_outputs : list (NewState * identityList);
  mb_lockedOutputs : list (NewState * identityList); mb_lockInfo : option (NewState * identityList) }.

Definition newManifestBuilder : manifestBuilder := MkManifestBuilder [] [] [] None.

Definition addOutputs (po : preparedOutputs) (mb : manifestBuilder) : manifestBuilder :=
  MkManifestBuilder (mb_info mb) (mb_outputs mb ++ zip (po_states po) (po_distributions po)) (mb_lockedOutputs mb) (mb_lockInfo mb).

Definition addLockedOutputs (po : preparedLockedOutputs) (mb : manifestBuilder) : manifestBuilder :=
  MkManifestBuilder (mb_info mb) (mb_outputs mb) (mb_lockedOutputs mb ++ zip (pk_states po) (pk_distributions po)) (mb_lockInfo mb).

Definition addInfoStates (infoDistribution : identityList) (infoStates : list NewState) (mb : manifestBuilder) : manifestBuilder :=
  MkManifestBuilder (mb_info mb ++ ((fun s => (s, infoDistribution)) <$> infoStates)) (mb_outputs mb) (mb_lockedOutputs mb) (mb_lockInfo mb).

Definition addLockInfo (lock : preparedLockInfo) (mb : manifestBuilder) : manifestBuilder :=
  MkManifestBuilder (mb_info mb) (mb_outputs mb) (mb_lockedOutputs mb) (Some (pf_state lock, pf_distribution lock)).

Definition manifestEntries (mb : manifestBuilder) : list (NewState * identityList) :=
  mb_info mb ++ mb_outputs mb ++ mb_lockedOutputs mb ++ option_list (mb_lockInfo mb).

(** [finalizeNewState]: the entry of a state. *)
Definition manifestEntry (e : NewState * identityList) : AM json :=
  id ← allocatedID e.1;
  b ← liftA (match ParseBytes32Ctx id with Ok b => Done b | _ => Fail invalidAssembledStateError "ParseBytes32" end);
  participants ← liftA (addresses e.2);
  mret (JObject [("state", jsonBytes32 b); ("participants", JArray (jsonAddress ∘ Some <$> participants))]).

Definition withoutID (s : Assembly) (state : NewState) : bool := match as_ids s !! nw_ref state with None => true | Some _ => false end.

Definition buildManifest (mb : manifestBuilder) : AM NewState := fun s =>
  (allocateStateIDs (List.filter (withoutID s) (fst <$> manifestEntries mb)) ≫= fun _ =>
   salt ← randBytes32;
   entries ← forStates manifestEntry (manifestEntries mb);
   ids ← liftA (identities (mjoin (snd <$> manifestEntries mb)));
   newState (n_manifestSchema n) (Some (JObject [("salt", jsonBytes32 salt); ("states", JArray entries)])) ids) s.

(** ** Parties of an assembly *)

Record resolvedIdentities : Type := MkResolvedIdentities {
  ri_notary : option identityPair; ri_sender : option identityPair; ri_from : option identityPair; ri_to : option identityPair }.

Definition resolveIdentities (tx : ParsedTransaction) (verifiers : list NotoVerifier) (fromLookup toLookup : string) : outcome resolvedIdentities :=
  notaryID ← findEthAddressVerifier (cf_NotaryLookup (pt_DomainConfig tx)) verifiers;
  senderID ← findEthAddressVerifier (nt_From (pt_Transaction tx)) verifiers;
  fromID ← (if String.eqb fromLookup "" then mret None else id ← findEthAddressVerifier fromLookup verifiers; mret (Some id));
  toID ← (if String.eqb toLookup "" then mret None else id ← findEthAddressVerifier toLookup verifiers; mret (Some id));
  mret (MkResolvedIdentities (Some notaryID) (Some senderID) fromID toID).
End States.
