(* ===== verification/NotoAssemble.v ===== *)
(** * The Noto token: assembly

    How the sender's node turns each of the fourteen functions of Noto into the states it consumes,
    reads and creates, and what it has signed and endorsed.

    Sources: domains/noto/internal/noto/noto.go and the handler_*.go files. *)

From S2P Require Import Prelude HexBytes Identity NotoTypes NotoChecks NotoEndorse NotoStates.
Open Scope string_scope.
Open Scope list_scope.

(** An [AssembleTransactionResponse] that is OK; the plan is that the sender signs the payload and the
    notary endorses ([buildEndorsePlan]). *)
Record Assembled : Type := MkAssembled {
  ap_InputStates : list StateRef; ap_ReadStates : list StateRef; ap_OutputStates : list NewState; ap_InfoStates : list NewState;
  ap_signPayload : string; ap_signParty : string; ap_endorseParty : string }.

Section Assemble.
(** The name the domain is registered under, and a bound on the pages of a query. *)
Context `{NotoEnv} (n : Noto) (name : string) (fuel : nat).

Definition assembledAs (tx : ParsedTransaction) (inputs reads : list StateRef) (outputs info : list NewState) (payload : string) : Assembled :=
  MkAssembled inputs reads outputs info payload (nt_From (pt_Transaction tx)) (cf_NotaryLookup (pt_DomainConfig tx)).

(** In the nullifier variants a new coin says who derives its nullifier. *)
Definition nullified (tx : ParsedTransaction) (party : string) (outputs : preparedOutputs) : preparedOutputs :=
  if IsNullifierVariant (pt_DomainConfig tx) then addNullifierSpecs [nullifierSpec name party (pt_ContractAddress_ tx)] outputs else outputs.

(** The manifest comes first among the info states, except in V0, which has none. *)
Definition withManifest (tx : ParsedTransaction) (mb : manifestBuilder) (infoStates : list NewState) : AM (list NewState) :=
  if IsV0 (pt_DomainConfig tx) then mret infoStates
  else manifestState ← buildManifest n mb; mret (manifestState :: infoStates).

Definition dataInfo (tx : ParsedTransaction) (verifiers : list NotoVerifier) (data : string) (distribution : list (option identityPair)) : AM (list NewState) :=
  ids ← liftA (identities distribution);
  prepareDataInfo n data (cf_Variant (pt_DomainConfig tx)) ids (pt_Transaction tx) verifiers.

(** ** Mint, transfer and burn *)

Definition assembleMint (tx : ParsedTransaction) (verifiers : list NotoVerifier) (To : string) (Amount : option Z) (Data : string) : AM Assembled :=
  ids ← liftA (resolveIdentities tx verifiers "" To);
  let notaryID := ri_notary ids in let senderID := ri_sender ids in let toID := ri_to ids in
  outputs ← prepareOutputs n toID Amount [notaryID; toID];
  outputStates ←
    (if IsNullifierVariant (pt_DomainConfig tx) then
       notary ← liftA (deref notaryID); to ← liftA (deref toID);
       let spec party := nullifierSpec name party (pt_ContractAddress_ tx) in
       mret (addNullifierSpecs (spec (ip_identifier notary) :: (if String.eqb (ip_identifier to) (ip_identifier notary) then [] else [spec (ip_identifier to)])) outputs)
     else mret outputs);
  let infoDistribution := [notaryID; senderID; toID] in
  infoStates ← dataInfo tx verifiers Data infoDistribution;
  encodedTransfer ← liftA (encodeTransferUnmasked (pt_ContractAddress_ tx) [] (po_coins outputStates));
  allInfo ← withManifest tx (addInfoStates infoDistribution infoStates (addOutputs outputStates newManifestBuilder)) infoStates;
  mret (assembledAs tx [] [] (po_states outputStates) allInfo encodedTransfer).

Definition assembleTransfer (tx : ParsedTransaction) (verifiers : list NotoVerifier) (from to : string) (amount : option Z) (data : string) : AM Assembled :=
  ids ← liftA (resolveIdentities tx verifiers from to);
  let notaryID := ri_notary ids in let senderID := ri_sender ids in let fromID := ri_from ids in let toID := ri_to ids in
  inputStates ← liftA (prepareInputs n fuel fromID amount (IsNullifierVariant (pt_DomainConfig tx)));
  paid ← prepareOutputs n toID amount [notaryID; senderID; fromID; toID];
  let paid := nullified tx to paid in
  let infoDistribution := [notaryID; senderID; fromID; toID] in
  infoStates ← dataInfo tx verifiers data infoDistribution;
  a ← liftA (deref amount);
  outputStates ←
    (if (a <? pi_total inputStates)%Z then
       returned ← prepareOutputs n fromID (Some (pi_total inputStates - a)%Z) [notaryID; senderID; fromID];
       mret (appendOutputs paid (nullified tx from returned))
     else mret paid);
  encodedTransfer ← liftA (encodeTransferUnmasked (pt_ContractAddress_ tx) (pi_coins inputStates) (po_coins outputStates));
  allInfo ← withManifest tx (addInfoStates infoDistribution infoStates (addOutputs outputStates newManifestBuilder)) infoStates;
  mret (assembledAs tx (pi_states inputStates) [] (po_states outputStates) allInfo encodedTransfer).

Definition assembleBurn (tx : ParsedTransaction) (verifiers : list NotoVerifier) (from : string) (amount : option Z) (data : string) : AM Assembled :=
  ids ← liftA (resolveIdentities tx verifiers from "");
  let notaryID := ri_notary ids in let senderID := ri_sender ids in let fromID := ri_from ids in
  inputStates ← liftA (prepareInputs n fuel fromID amount (IsNullifierVariant (pt_DomainConfig tx)));
  let infoDistribution := [notaryID; senderID; fromID] in
  infoStates ← dataInfo tx verifiers data infoDistribution;
  a ← liftA (deref amount);
  outputs ←
    (if (a <? pi_total inputStates)%Z then
       returned ← prepareOutputs n fromID (Some (pi_total inputStates - a)%Z) [notaryID; senderID; fromID];
       mret (nullified tx from returned)
     else mret noOutputs);
  encodedTransfer ← liftA (encodeTransferUnmasked (pt_ContractAddress_ tx) (pi_coins inputStates) (po_coins outputs));
  allInfo ← withManifest tx (addInfoStates infoDistribution infoStates (addOutputs outputs newManifestBuilder)) infoStates;
  mret (assembledAs tx (pi_states inputStates) [] (po_states outputs) allInfo encodedTransfer).

(** ** Locks *)

Definition assembleLock (tx : ParsedTransaction) (verifiers : list NotoVerifier) (Amount : option Z) (Data : string) : AM Assembled :=
  ids ← liftA (resolveIdentities tx verifiers "" "");
  let notaryID := ri_notary ids in let senderID := ri_sender ids in
  inputStates ← liftA (prepareInputs n fuel senderID Amount (IsNullifierVariant (pt_DomainConfig tx)));
  notary ← liftA (deref notaryID); sender ← liftA (deref senderID);
  lockID ← liftA (computeLockIDForLockTX tx notary);
  lockedOutputStates ← prepareLockedOutputs n lockID senderID Amount [notaryID; senderID];
  a ← liftA (deref Amount);
  returned ←
    (if (a <? pi_total inputStates)%Z then prepareOutputs n senderID (Some (pi_total inputStates - a)%Z) [notaryID; senderID]
     else mret noOutputs);
  let unlockedOutputStates := nullified tx (nt_From (pt_Transaction tx)) returned in
  let infoDistribution := [notaryID; senderID] in
  infoStates ← dataInfo tx verifiers Data infoDistribution;
  let outputStates := pk_states lockedOutputStates ++ po_states unlockedOutputStates in
  if IsV0 (pt_DomainConfig tx) then
    lock ← prepareLockInfo_V0 n lockID (Some (ip_address sender)) None infoDistribution;
    encodedLock ← liftA (encodeLock (pt_ContractAddress_ tx) (pi_coins inputStates) (po_coins unlockedOutputStates) (pk_coins lockedOutputStates));
    mret (assembledAs tx (pi_states inputStates) [] outputStates (infoStates ++ [pf_state lock]) encodedLock)
  else
    salt ← randBytes32;
    lock ← prepareLockInfo_V1 n (MkNotoLockInfo_V1 salt lockID (Some (ip_address sender)) (Some (ip_address sender)) (zeros 32) (zeros 32) [] "" [] "")
             [notaryID; senderID];
    encodedLock ← liftA (encodeLock (pt_ContractAddress_ tx) (pi_coins inputStates) (po_coins unlockedOutputStates) (pk_coins lockedOutputStates));
    manifestState ← buildManifest n
      (addLockInfo lock (addInfoStates infoDistribution infoStates (addOutputs unlockedOutputStates (addLockedOutputs lockedOutputStates newManifestBuilder))));
    mret (assembledAs tx (pi_states inputStates) [] (outputStates ++ [pf_state lock]) (manifestState :: infoStates) encodedLock).

(** [getAllRecipientsDistribution] *)
Definition getAllRecipientsDistribution (ids : resolvedIdentities) (recipients : Recipients) (verifiers : list NotoVerifier) : outcome (list (option identityPair)) :=
  to ← foldr (fun entry acc => r ← deref entry; id ← findEthAddressVerifier (ur_To r) verifiers; l ← acc; mret (Some id :: l)) (mret []) recipients;
  mret (ri_notary ids :: ri_sender ids :: match ri_from ids with Some f => [Some f] | None => [] end ++ to).

(** The coins of the recipients, in order. *)
Fixpoint recipientOutputs (tx : ParsedTransaction) (distribution : option identityPair -> list (option identityPair)) (recipients : Recipients)
    (verifiers : list NotoVerifier) : AM preparedOutputs :=
  match recipients with
  | [] => mret noOutputs
  | entry :: rest =>
      r ← liftA (deref entry);
      toID ← liftA (findEthAddressVerifier (ur_To r) verifiers);
      outputs ← prepareOutputs n (Some toID) (ur_Amount r) (distribution (Some toID));
      later ← recipientOutputs tx distribution rest verifiers;
      mret (appendOutputs (nullified tx (ip_identifier toID) outputs) later)
  end.

Definition assembleUnlockOutputs_V1 (tx : ParsedTransaction) (notaryID fromID : option identityPair) (recipients : Recipients) (verifiers : list NotoVerifier)
    (remainder : Z) : AM preparedOutputs :=
  unlocked ← recipientOutputs tx (fun toID => match fromID with Some _ => [notaryID; fromID; toID] | None => [notaryID; toID] end) recipients verifiers;
  if (0 <? remainder)%Z then
    returned ← prepareOutputs n fromID (Some remainder) [notaryID; fromID];
    from ← liftA (deref fromID);
    mret (appendOutputs unlocked (nullified tx (ip_identifier from) returned))
  else mret unlocked.

(** In V0 the remainder stays locked, and there are no nullifiers. *)
Definition assembleUnlockOutputs_V0 (tx : ParsedTransaction) (p : UnlockParams) (verifiers : list NotoVerifier) (remainder : Z)
    : AM (preparedOutputs * preparedLockedOutputs) :=
  notaryID ← liftA (findEthAddressVerifier (cf_NotaryLookup (pt_DomainConfig tx)) verifiers);
  fromID ← liftA (findEthAddressVerifier (up_From p) verifiers);
  unlocked ← recipientOutputs tx (fun toID => [Some notaryID; Some fromID; toID]) (up_Recipients p) verifiers;
  locked ← (if (0 <? remainder)%Z then prepareLockedOutputs n (up_LockID p) (Some fromID) (Some remainder) [Some notaryID; Some fromID] else mret noLockedOutputs);
  mret (unlocked, locked).

(** [buildUnlockOperationData]: the encoded data of one operation, and its manifest. *)
Definition buildUnlockOperationData (tx : ParsedTransaction) (outputs : preparedOutputs) (infoDistribution : list (option identityPair)) (infoStates : list NewState)
    : AM (string * list NewState) :=
  manifest ←
    (if IsV0 (pt_DomainConfig tx) then mret []
     else
       manifestState ← buildManifest n (addInfoStates infoDistribution infoStates (addOutputs outputs newManifestBuilder));
       allocateStateIDs [manifestState] ≫= fun _ => mret [manifestState]);
  ids ← forStates allocatedID (manifest ++ infoStates);
  encodedData ← liftA (encodeTransactionData (pt_DomainConfig tx) (pt_Transaction tx) ids);
  mret (encodedData, manifest).

Record unlockInfo : Type := MkUnlockInfo { ui_spendData : string; ui_cancelData : string; ui_infoStates : list NewState; ui_infoDistribution : list (option identityPair) }.

(** [buildUnlockInfo]; outputs that are not given are nil, which a manifest takes for none. *)
Definition buildUnlockInfo (tx : ParsedTransaction) (verifiers : list NotoVerifier) (ids : resolvedIdentities) (recipients : Recipients) (unlockData : string)
    (spendOutputs cancelOutputs : preparedOutputs) (omitCancelManifest : bool) : AM unlockInfo :=
  infoDistribution ← liftA (getAllRecipientsDistribution ids recipients verifiers);
  infoStates ← dataInfo tx verifiers unlockData infoDistribution;
  allocateStateIDs infoStates ≫= fun _ =>
  spend ← buildUnlockOperationData tx spendOutputs infoDistribution infoStates;
  cancel ← (if omitCancelManifest then mret ("", []) else buildUnlockOperationData tx cancelOutputs infoDistribution infoStates);
  mret (MkUnlockInfo spend.1 cancel.1 (spend.2 ++ cancel.2 ++ infoStates) infoDistribution).

Definition lockedTotalOf (p : UnlockParams) (fromID : option identityPair) (required : Z) : AM preparedLockedInputs :=
  from ← liftA (deref fromID);
  liftA (prepareLockedInputs n fuel (up_LockID p) (ip_address from) required true).

Definition assembleUnlock (tx : ParsedTransaction) (verifiers : list NotoVerifier) (p : UnlockParams) : AM Assembled :=
  ids ← liftA (resolveIdentities tx verifiers (up_From p) "");
  let notaryID := ri_notary ids in let fromID := ri_from ids in
  existingLock ← (if IsV0 (pt_DomainConfig tx) then mret None else l ← liftA (loadLockInfoV1 n (up_LockID p)); mret (Some l));
  required ← liftA (requiredTotal (up_Recipients p));
  lockedInputs ← lockedTotalOf p fromID required;
  let remainder := (pl_total lockedInputs - required)%Z in
  outs ← (if IsV0 (pt_DomainConfig tx) then assembleUnlockOutputs_V0 tx p verifiers remainder
          else o ← assembleUnlockOutputs_V1 tx notaryID fromID (up_Recipients p) verifiers remainder; mret (o, noLockedOutputs));
  let outputs := outs.1 in
  ui ← buildUnlockInfo tx verifiers ids (up_Recipients p) (up_Data p) outputs noOutputs true;
  if IsV0 (pt_DomainConfig tx) then
    from ← liftA (deref fromID);
    lock ← prepareLockInfo_V0 n (up_LockID p) (Some (ip_address from)) None (ui_infoDistribution ui);
    encodedUnlock ← liftA (encodeUnlock (pt_ContractAddress_ tx) (pl_coins lockedInputs) (pk_coins outs.2) (po_coins outputs));
    mret (assembledAs tx (pl_states lockedInputs) [] (po_states outputs ++ pk_states outs.2) (ui_infoStates ui ++ [pf_state lock]) encodedUnlock)
  else
    manifestState ← buildManifest n (addInfoStates (ui_infoDistribution ui) (ui_infoStates ui) (addOutputs outputs newManifestBuilder));
    existing ← liftA (deref existingLock);
    encodedUnlock ← liftA (encodeUnlock (pt_ContractAddress_ tx) (pl_coins lockedInputs) [] (po_coins outputs));
    mret (assembledAs tx (pl_states lockedInputs ++ [ll_stateRef existing]) [] (po_states outputs) (manifestState :: ui_infoStates ui) encodedUnlock).

(** A lock that replaces the one that was loaded. *)
Definition replacedLock (existing : loadedLockInfo) (salt spendTxId : Bytes32) (spendIDs : list Bytes32) (spendData : string) (cancelIDs : list Bytes32)
    (cancelData : string) : NotoLockInfo_V1 :=
  let old := ll_lockInfo existing in
  MkNotoLockInfo_V1 salt (li_LockID old) (li_Owner old) (li_Spender old) (ll_id existing) spendTxId spendIDs spendData cancelIDs cancelData.

Definition assemblePrepareUnlock (tx : ParsedTransaction) (verifiers : list NotoVerifier) (p : UnlockParams) (UnlockData Data : string) : AM Assembled :=
  spendTxId ← newSpendTxId;
  let unlockData := if IsV0 (pt_DomainConfig tx) then Data else UnlockData in
  ids ← liftA (resolveIdentities tx verifiers (up_From p) "");
  let notaryID := ri_notary ids in let senderID := ri_sender ids in let fromID := ri_from ids in
  existingLock ← (if IsV0 (pt_DomainConfig tx) then mret None else l ← liftA (loadLockInfoV1 n (up_LockID p)); mret (Some l));
  required ← liftA (requiredTotal (up_Recipients p));
  lockedInputs ← lockedTotalOf p fromID required;
  let remainder := (pl_total lockedInputs - required)%Z in
  outs ← (if IsV0 (pt_DomainConfig tx) then assembleUnlockOutputs_V0 tx p verifiers remainder
          else o ← assembleUnlockOutputs_V1 tx notaryID fromID (up_Recipients p) verifiers remainder; mret (o, noLockedOutputs));
  let outputs := outs.1 in
  from ← liftA (deref fromID);
  cancelOutputs ← (if IsV0 (pt_DomainConfig tx) then mret noOutputs
                   else c ← prepareOutputs n fromID (Some (pl_total lockedInputs)) [notaryID; fromID]; mret (nullified tx (ip_identifier from) c));
  ui ← buildUnlockInfo tx verifiers ids (up_Recipients p) unlockData outputs cancelOutputs false;
  if IsV0 (pt_DomainConfig tx) then
    lock ← prepareLockInfo_V0 n (up_LockID p) (Some (ip_address from)) None (ui_infoDistribution ui);
    encodedUnlock ← liftA (encodeUnlock (pt_ContractAddress_ tx) (pl_coins lockedInputs) (pk_coins outs.2) (po_coins outputs));
    mret (assembledAs tx [] (pl_states lockedInputs) [] (ui_infoStates ui ++ [pf_state lock] ++ po_states outputs ++ pk_states outs.2) encodedUnlock)
  else
    prepareInfoStates ← dataInfo tx verifiers Data (ui_infoDistribution ui);
    let infoStates := ui_infoStates ui ++ prepareInfoStates in
    existing ← liftA (deref existingLock);
    salt ← randBytes32;
    spendIDs ← newStateAllocatedIDs (po_states outputs);
    cancelIDs ← newStateAllocatedIDs (po_states cancelOutputs);
    lock ← prepareLockInfo_V1 n (replacedLock existing salt spendTxId spendIDs (ui_spendData ui) cancelIDs (ui_cancelData ui)) [notaryID; senderID; fromID];
    manifestState ← buildManifest n
      (addInfoStates (ui_infoDistribution ui) prepareInfoStates
        (addLockInfo lock (addOutputs cancelOutputs (addInfoStates (ui_infoDistribution ui) infoStates (addOutputs outputs newManifestBuilder)))));
    encodedUnlock ← liftA (encodeUnlock (pt_ContractAddress_ tx) (pl_coins lockedInputs) [] (po_coins outputs));
    mret (assembledAs tx [ll_stateRef existing] (pl_states lockedInputs) [pf_state lock]
            (manifestState :: infoStates ++ po_states outputs ++ po_states cancelOutputs) encodedUnlock).

Definition assembleCreateTransferLock (tx : ParsedTransaction) (verifiers : list NotoVerifier) (From : string) (recipients : Recipients) (UnlockData Data : string)
    : AM Assembled :=
  spendTxId ← newSpendTxId;
  ids ← liftA (resolveIdentities tx verifiers From "");
  let notaryID := ri_notary ids in let senderID := ri_sender ids in let fromID := ri_from ids in
  required ← liftA (requiredTotal recipients);
  inputStates ← liftA (prepareInputs n fuel senderID (Some required) (IsNullifierVariant (pt_DomainConfig tx)));
  let remainder := (pi_total inputStates - required)%Z in
  notary ← liftA (deref notaryID); sender ← liftA (deref senderID); from ← liftA (deref fromID);
  lockID ← liftA (computeLockIDForLockTX tx notary);
  lockedOutputStates ← prepareLockedOutputs n lockID senderID (Some required) [notaryID; senderID; fromID];
  allSpend ← assembleUnlockOutputs_V1 tx notaryID fromID recipients verifiers remainder;
  (* the remainder is the last output, and is unlocked at once *)
  let k := if (0 <? remainder)%Z then (length (po_states allSpend) - 1)%nat else length (po_states allSpend) in
  let spendOutputs := MkPreparedOutputs (take k (po_distributions allSpend)) (take k (po_coins allSpend)) (take k (po_states allSpend)) in
  let remainderOutputs := MkPreparedOutputs (drop k (po_distributions allSpend)) (drop k (po_coins allSpend)) (drop k (po_states allSpend)) in
  cancel ← prepareOutputs n fromID (Some required) [notaryID; senderID; fromID];
  let cancelOutputs := nullified tx (ip_identifier from) cancel in
  ui ← buildUnlockInfo tx verifiers ids recipients UnlockData spendOutputs cancelOutputs false;
  createDataInfo ← dataInfo tx verifiers Data (ui_infoDistribution ui);
  let infoStates := ui_infoStates ui ++ createDataInfo in
  salt ← randBytes32;
  spendIDs ← newStateAllocatedIDs (po_states spendOutputs);
  cancelIDs ← newStateAllocatedIDs (po_states cancelOutputs);
  lock ← prepareLockInfo_V1 n (MkNotoLockInfo_V1 salt lockID (Some (ip_address sender)) (Some (ip_address sender)) (zeros 32) spendTxId
           spendIDs (ui_spendData ui) cancelIDs (ui_cancelData ui)) [notaryID; senderID; fromID];
  manifestState ← buildManifest n
    (addInfoStates (ui_infoDistribution ui) infoStates
      (addLockInfo lock (addOutputs remainderOutputs (addOutputs cancelOutputs (addOutputs spendOutputs (addLockedOutputs lockedOutputStates newManifestBuilder))))));
  encodedUnlock ← liftA (encodeUnlock (pt_ContractAddress_ tx) (pk_coins lockedOutputStates) [] (po_coins spendOutputs));
  mret (assembledAs tx (pi_states inputStates) [] (pf_state lock :: pk_states lockedOutputStates ++ po_states remainderOutputs)
          (manifestState :: infoStates ++ po_states spendOutputs ++ po_states cancelOutputs) encodedUnlock).

Definition assembleCreateBurnLock (tx : ParsedTransaction) (verifiers : list NotoVerifier) (From : string) (Amount : option Z) (UnlockData Data : string) : AM Assembled :=
  spendTxId ← newSpendTxId;
  ids ← liftA (resolveIdentities tx verifiers From "");
  let notaryID := ri_notary ids in let senderID := ri_sender ids in let fromID := ri_from ids in
  inputStates ← liftA (prepareInputs n fuel senderID Amount (IsNullifierVariant (pt_DomainConfig tx)));
  a ← liftA (deref Amount);
  let remainder := (pi_total inputStates - a)%Z in
  notary ← liftA (deref notaryID); sender ← liftA (deref senderID);
  lockID ← liftA (computeLockIDForLockTX tx notary);
  lockedOutputStates ← prepareLockedOutputs n lockID senderID Amount [notaryID; senderID; fromID];
  from ← liftA (deref fromID);
  remainderOutputs ←
    (if (0 <? remainder)%Z then r ← prepareOutputs n fromID (Some remainder) [notaryID; fromID]; mret (nullified tx (ip_identifier from) r) else mret noOutputs);
  cancel ← prepareOutputs n fromID Amount [notaryID; senderID; fromID];
  let cancelOutputs := nullified tx (ip_identifier from) cancel in
  ui ← buildUnlockInfo tx verifiers ids [] UnlockData noOutputs cancelOutputs false;
  createDataInfo ← dataInfo tx verifiers Data (ui_infoDistribution ui);
  let infoStates := ui_infoStates ui ++ createDataInfo in
  salt ← randBytes32;
  cancelIDs ← newStateAllocatedIDs (po_states cancelOutputs);
  lock ← prepareLockInfo_V1 n (MkNotoLockInfo_V1 salt lockID (Some (ip_address sender)) (Some (ip_address sender)) (zeros 32) spendTxId
           [] (ui_spendData ui) cancelIDs (ui_cancelData ui)) [notaryID; senderID; fromID];
  manifestState ← buildManifest n
    (addInfoStates (ui_infoDistribution ui) infoStates
      (addLockInfo lock (addOutputs remainderOutputs (addOutputs cancelOutputs (addLockedOutputs lockedOutputStates newManifestBuilder)))));
  encodedUnlock ← liftA (encodeUnlock (pt_ContractAddress_ tx) (pk_coins lockedOutputStates) [] []);
  mret (assembledAs tx (pi_states inputStates) [] (pf_state lock :: pk_states lockedOutputStates ++ po_states remainderOutputs)
          (manifestState :: infoStates ++ po_states cancelOutputs) encodedUnlock).

Definition assembleCreateMintLock (tx : ParsedTransaction) (verifiers : list NotoVerifier) (recipients : Recipients) (UnlockData Data : string) : AM Assembled :=
  spendTxId ← newSpendTxId;
  ids ← liftA (resolveIdentities tx verifiers "" "");
  let notaryID := ri_notary ids in let senderID := ri_sender ids in
  notary ← liftA (deref notaryID); sender ← liftA (deref senderID);
  lockID ← liftA (computeLockIDForLockTX tx notary);
  spendOutputs ← assembleUnlockOutputs_V1 tx notaryID None recipients verifiers 0;
  ui ← buildUnlockInfo tx verifiers ids recipients UnlockData spendOutputs noOutputs false;
  createDataInfo ← dataInfo tx verifiers Data (ui_infoDistribution ui);
  let infoStates := ui_infoStates ui ++ createDataInfo in
  allocateStateIDs (po_states spendOutputs) ≫= fun _ =>
  salt ← randBytes32;
  spendIDs ← newStateAllocatedIDs (po_states spendOutputs);
  lock ← prepareLockInfo_V1 n (MkNotoLockInfo_V1 salt lockID (Some (ip_address sender)) (Some (ip_address sender)) (zeros 32) spendTxId
           spendIDs (ui_spendData ui) [] (ui_cancelData ui)) [notaryID; senderID];
  manifestState ← buildManifest n (addInfoStates (ui_infoDistribution ui) infoStates (addLockInfo lock (addOutputs spendOutputs newManifestBuilder)));
  encodedUnlock ← liftA (encodeUnlock (pt_ContractAddress_ tx) [] [] (po_coins spendOutputs));
  mret (assembledAs tx [] [] [pf_state lock] (manifestState :: infoStates ++ po_states spendOutputs) encodedUnlock).

(** An error that is not looked at before the result is used, which is then nil. *)
Definition unchecked {A} (m : AM A) : AM A := fun s =>
  match m s with
  | (s', Fail _ _) => (s', Panicked)
  | r => r
  end.

Definition assemblePrepareMintUnlock (tx : ParsedTransaction) (verifiers : list NotoVerifier) (LockID : Bytes32) (recipients : Recipients) (UnlockData Data : string)
    : AM Assembled :=
  spendTxId ← newSpendTxId;
  ids ← liftA (resolveIdentities tx verifiers "" "");
  let notaryID := ri_notary ids in let senderID := ri_sender ids in
  existing ← liftA (loadLockInfoV1 n LockID);
  outputs ← recipientOutputs tx (fun toID => [notaryID; toID]) recipients verifiers;
  ui ← unchecked (buildUnlockInfo tx verifiers ids recipients UnlockData outputs noOutputs false);
  prepareDataInfo_ ← dataInfo tx verifiers Data (ui_infoDistribution ui);
  let infoStates := ui_infoStates ui ++ prepareDataInfo_ in
  salt ← randBytes32;
  spendIDs ← newStateAllocatedIDs (po_states outputs);
  lock ← prepareLockInfo_V1 n (replacedLock existing salt spendTxId spendIDs (ui_spendData ui) [] (ui_cancelData ui)) [notaryID; senderID];
  encodedUnlock ← liftA (encodeUnlock (pt_ContractAddress_ tx) [] [] (po_coins outputs));
  manifestState ← buildManifest n (addLockInfo lock (addInfoStates (ui_infoDistribution ui) infoStates (addOutputs outputs newManifestBuilder)));
  mret (assembledAs tx [ll_stateRef existing] [] [pf_state lock] (manifestState :: infoStates ++ po_states outputs) encodedUnlock).

Definition assemblePrepareBurnUnlock (tx : ParsedTransaction) (verifiers : list NotoVerifier) (LockID : Bytes32) (From : string) (Amount : option Z)
    (UnlockData Data : string) : AM Assembled :=
  spendTxId ← newSpendTxId;
  ids ← liftA (resolveIdentities tx verifiers From "");
  let notaryID := ri_notary ids in let senderID := ri_sender ids in let fromID := ri_from ids in
  existing ← liftA (loadLockInfoV1 n LockID);
  from ← liftA (deref fromID);
  a ← liftA (deref Amount);
  lockedInputs ← liftA (prepareLockedInputs n fuel LockID (ip_address from) a true);
  liftA (require (pl_total lockedInputs =? a)%Z invalidAmountsError "MsgInvalidAmount") ≫= fun _ =>
  cancel ← prepareOutputs n fromID (Some (pl_total lockedInputs)) [notaryID; fromID];
  let cancelOutputs := nullified tx (ip_identifier from) cancel in
  ui ← buildUnlockInfo tx verifiers ids [] UnlockData noOutputs cancelOutputs false;
  prepareDataInfo_ ← dataInfo tx verifiers Data (ui_infoDistribution ui);
  let infoStates := ui_infoStates ui ++ prepareDataInfo_ in
  salt ← randBytes32;
  cancelIDs ← newStateAllocatedIDs (po_states cancelOutputs);
  lock ← prepareLockInfo_V1 n (replacedLock existing salt spendTxId [] (ui_spendData ui) cancelIDs (ui_cancelData ui)) [notaryID; senderID; fromID];
  encodedUnlock ← liftA (encodeUnlock (pt_ContractAddress_ tx) (pl_coins lockedInputs) [] []);
  manifestState ← buildManifest n (addLockInfo lock (addInfoStates (ui_infoDistribution ui) infoStates (addOutputs cancelOutputs newManifestBuilder)));
  mret (assembledAs tx [ll_stateRef existing] (pl_states lockedInputs) [pf_state lock] (manifestState :: infoStates ++ po_states cancelOutputs) encodedUnlock).

Definition assembleDelegateLock (tx : ParsedTransaction) (verifiers : list NotoVerifier) (LockID : Bytes32) (Delegate : option EthAddress) (Data : string) : AM Assembled :=
  ids ← liftA (resolveIdentities tx verifiers "" "");
  let notaryID := ri_notary ids in let senderID := ri_sender ids in
  sender ← liftA (deref senderID);
  reads ← (if IsV0 (pt_DomainConfig tx) then l ← liftA (prepareLockedInputs n fuel LockID (ip_address sender) 1 false); mret (pl_states l) else mret []);
  existingLock ← (if IsV0 (pt_DomainConfig tx) then mret None else l ← liftA (loadLockInfoV1 n LockID); mret (Some l));
  let infoDistribution := [notaryID; senderID] in
  infoStates ← dataInfo tx verifiers Data infoDistribution;
  if IsV0 (pt_DomainConfig tx) then
    lock ← prepareLockInfo_V0 n LockID (Some (ip_address sender)) Delegate infoDistribution;
    encodedApproval ← liftA (encodeDelegateLock (pt_ContractAddress_ tx) LockID Delegate Data);
    mret (assembledAs tx [] reads [] (infoStates ++ [pf_state lock]) encodedApproval)
  else
    existing ← liftA (deref existingLock);
    salt ← randBytes32;
    let old := ll_lockInfo existing in
    lock ← prepareLockInfo_V1 n (MkNotoLockInfo_V1 salt (li_LockID old) (li_Owner old) Delegate (ll_id existing) (li_SpendTxId old)
             (li_SpendOutputs old) (li_SpendData old) (li_CancelOutputs old) (li_CancelData old)) [notaryID; senderID];
    encodedApproval ← liftA (encodeDelegateLock (pt_ContractAddress_ tx) LockID Delegate Data);
    manifestState ← buildManifest n (addLockInfo lock (addInfoStates infoDistribution infoStates newManifestBuilder));
    mret (assembledAs tx [ll_stateRef existing] reads [pf_state lock] (manifestState :: infoStates) encodedApproval).

(** ** AssembleTransaction *)

(** [handler.Assemble] *)
Definition assembleHandler (tx : ParsedTransaction) (verifiers : list NotoVerifier) : AM Assembled :=
  match pt_Params tx with
  | MintParams To Amount Data => assembleMint tx verifiers To Amount Data
  | TransferParams To Amount Data => assembleTransfer tx verifiers (nt_From (pt_Transaction tx)) To Amount Data
  | TransferFromParams From To Amount Data => assembleTransfer tx verifiers From To Amount Data
  | BurnParams Amount Data => assembleBurn tx verifiers (nt_From (pt_Transaction tx)) Amount Data
  | BurnFromParams From Amount Data => assembleBurn tx verifiers From Amount Data
  | LockParams Amount Data => assembleLock tx verifiers Amount Data
  | UnlockParams_ p => assembleUnlock tx verifiers p
  | CreateTransferLockParams From recipients UnlockData Data => assembleCreateTransferLock tx verifiers From recipients UnlockData Data
  | CreateMintLockParams recipients UnlockData Data => assembleCreateMintLock tx verifiers recipients UnlockData Data
  | CreateBurnLockParams From Amount UnlockData Data => assembleCreateBurnLock tx verifiers From Amount UnlockData Data
  | PrepareUnlockParams p UnlockData Data => assemblePrepareUnlock tx verifiers p UnlockData Data
  | PrepareMintUnlockParams LockID recipients UnlockData Data => assemblePrepareMintUnlock tx verifiers LockID recipients UnlockData Data
  | PrepareBurnUnlockParams LockID From Amount UnlockData Data => assemblePrepareBurnUnlock tx verifiers LockID From Amount UnlockData Data
  | DelegateLockParams LockID _ Delegate Data => assembleDelegateLock tx verifiers LockID Delegate Data
  end.

(** [validateNullifierSpecs]: every new coin has a spec, and all of them name this contract. *)
Definition validateNullifierSpecs (contract : EthAddress) (a : Assembled) : outcome unit :=
  let expected := ("domain:noto:nullifier:" ++ EthAddress_String contract)%string in
  foldl (fun acc state => acc ≫= fun _ =>
      if negb (String.eqb (nw_SchemaId state) (n_coinSchema n)) then mret tt
      else require (negb (noneOf (nw_NullifierSpecs state))) invalidAssembledStateError "MsgMissingNullifierSpec" ≫= fun _ =>
           require (forallb (fun spec => String.eqb (np_PayloadType spec) expected) (nw_NullifierSpecs state)) invalidAssembledStateError "MsgNullifierWrongContract")
    (mret tt) (ap_OutputStates a ++ ap_InfoStates a).

Inductive AssembleResult : Type :=
| ASSEMBLE_OK (a : Assembled)
| ASSEMBLE_REVERT (reason : string).

(** [assembleRevertOrError] *)
Definition assembleRevertOrError {A} (m : AM A) (k : A -> AM AssembleResult) : AM AssembleResult := fun s =>
  match m s with
  | (s', Done a) => k a s'
  | (s', Fail c message) => (s', if default false (IsAssembleRevert c) then Done (ASSEMBLE_REVERT message) else Fail c message)
  | (s', Panicked) => (s', Panicked)
  | (s', Running) => (s', Running)
  end.

Definition AssembleTransaction (transaction : NotoTransaction) (verifiers : list NotoVerifier) : AM AssembleResult :=
  assembleRevertOrError (liftA (validateTransaction transaction)) (fun tx =>
  assembleRevertOrError (assembleHandler tx verifiers) (fun a =>
  assembleRevertOrError
    (liftA (if IsNullifierVariant (pt_DomainConfig tx) then validateNullifierSpecs (pt_ContractAddress_ tx) a else mret tt)) (fun _ => mret (ASSEMBLE_OK a)))).
End Assemble.
