(* ===== verification/NotoSelection.v ===== *)
(** * The Noto token: which coins are spent

    The coins that an assembly selects, over a store that answers queries as the node does: those of
    the owner, oldest first, ten at a time, from after the last one seen.

    Sources: domains/noto/internal/noto/states.go (prepareInputs, prepareLockedInputs). *)

From Stdlib Require Import Sorted.
From S2P Require Import Prelude HexBytes Identity NotoTypes NotoChecks NotoBalance NotoSample NotoStates.
Open Scope string_scope.
Open Scope list_scope.

Section Selection.
Context `{NotoEnv} (n : Noto).

Definition storedCoin (s : StoredState) : option NotoCoin := unmarshalCoin (ss_DataJson s).
Definition storedRef (s : StoredState) : StateRef := MkStateRef (ss_SchemaId s) (ss_Id s).
Definition storedCoins (l : list StoredState) : list NotoCoin := omap storedCoin l.
Definition storedValue (l : list StoredState) : Z := sumOf nc_Amount (storedCoins l).

(** A stored coin decodes and has an amount that is not negative. *)
Definition wellStored (s : StoredState) : Prop := exists c a, storedCoin s = Some c /\ nc_Amount c = Some a /\ (0 <= a)%Z.

Definition laterThan (after : option Z) (s : StoredState) : bool := match after with None => true | Some t => (t <? ss_CreatedAt s)%Z end.

(** The coins of [owner] are [l]: oldest first, no two created at the same time, each stored once, and
    queries over them are answered. *)
Record holds (owner : EthAddress) (useNullifiers : bool) (l : list StoredState) : Prop := MkHolds {
  hd_answers : forall after,
    nenv_FindAvailableStates (n_coinSchema n) (MkStateQuery 10 false [("owner", EthAddress_String owner)] after) useNullifiers
    = Some (take 10 (List.filter (laterThan after) l));
  hd_stored : Forall wellStored l;
  hd_created : StronglySorted (fun a b => ss_CreatedAt a < ss_CreatedAt b)%Z l;
  hd_positive : Forall (fun s => 0 < ss_CreatedAt s)%Z l;
  hd_schema : Forall (fun s => ss_SchemaId s = n_coinSchema n) l;
  hd_owner : Forall (fun c => nc_Owner c = Some owner) (storedCoins l);
  hd_distinct : NoDup (ss_Id <$> l)
}.

Definition taken (l : list StoredState) : preparedInputs := MkPreparedInputs (storedCoins l) (storedRef <$> l) (storedValue l).

Definition lastCreated (l : list StoredState) : Z := from_option ss_CreatedAt 0%Z (last l).

Lemma storedCoins_app l l' : storedCoins (l ++ l') = storedCoins l ++ storedCoins l'.
Proof. apply omap_app. Qed.

Lemma storedValue_app l l' : storedValue (l ++ l') = (storedValue l + storedValue l')%Z.
Proof. unfold storedValue. by rewrite storedCoins_app, sumOf_app. Qed.

Lemma storedValue_nonneg l : Forall wellStored l -> (0 <= storedValue l)%Z.
Proof.
  induction 1 as [|s l (c & a & Hc & Ha & Hpos) _ IH]; [done|]. change (s :: l) with ([s] ++ l). rewrite storedValue_app.
  unfold storedValue at 1, storedCoins. simpl. rewrite Hc. simpl. rewrite Ha. simpl. lia.
Qed.

Lemma taken_snoc l s c a :
  storedCoin s = Some c -> nc_Amount c = Some a ->
  MkPreparedInputs (pi_coins (taken l) ++ [c]) (pi_states (taken l) ++ [MkStateRef (ss_SchemaId s) (ss_Id s)]) (pi_total (taken l) + a) = taken (l ++ [s]).
Proof.
  intros Hc Ha. unfold taken. cbn [pi_coins pi_states pi_total]. rewrite storedCoins_app, storedValue_app, fmap_app.
  unfold storedValue at 3, storedCoins at 3 4. simpl. rewrite Hc. simpl. rewrite Ha. simpl. by rewrite Z.add_0_r.
Qed.

Lemma takePage_spec states : forall t l, Forall wellStored states ->
  takePage t (taken l) states = Done (from_option ss_CreatedAt t (last states), taken (l ++ states)).
Proof.
  induction states as [|s states IH]; intros t l Hw; [by rewrite app_nil_r|].
  apply Forall_cons in Hw as [(c & a & Hc & Ha & _) Hw]. cbn [takePage]. unfold storedCoin in Hc. rewrite Hc. cbn.
  rewrite Ha. cbn. pose proof (taken_snoc l s c a Hc Ha) as Ht. cbn in Ht. rewrite Ht.
  rewrite IH by done. rewrite <- app_assoc. cbn [app]. f_equal. f_equal. rewrite last_cons. by destruct (last states).
Qed.

Lemma sorted_app_lt P R a b :
  StronglySorted (fun a b => ss_CreatedAt a < ss_CreatedAt b)%Z (P ++ R) -> a ∈ P -> b ∈ R -> (ss_CreatedAt a < ss_CreatedAt b)%Z.
Proof.
  induction P as [|p P IH]; intros Hs Ha Hb; [set_solver|]. cbn in Hs. inversion Hs as [|x l Hs' Hf]; subst.
  apply elem_of_cons in Ha as [->|Ha]; [|by apply IH]. rewrite Forall_forall in Hf. apply Hf. set_solver.
Qed.

Lemma filter_none {A} (f : A -> bool) l : (forall x, x ∈ l -> f x = false) -> List.filter f l = [].
Proof. induction l as [|x l IH]; intros Hf; [done|]. cbn. rewrite Hf by set_solver. apply IH. set_solver. Qed.

Lemma filter_all {A} (f : A -> bool) l : (forall x, x ∈ l -> f x = true) -> List.filter f l = l.
Proof. induction l as [|x l IH]; intros Hf; [done|]. cbn. rewrite Hf by set_solver. f_equal. apply IH. set_solver. Qed.

(** After the first coins of the list the query goes on with the others. *)
Lemma remaining_after owner u P R :
  holds owner u (P ++ R) -> List.filter (laterThan (createdAfter (lastCreated P))) (P ++ R) = R.
Proof.
  intros [_ _ Hs Hp _ _ _]. unfold createdAfter, lastCreated. destruct (last P) as [p|] eqn:El; cbn.
  - assert (Hin : p ∈ P) by (by apply last_Some_elem_of). rewrite Forall_forall in Hp.
    assert (Hpos : (0 < ss_CreatedAt p)%Z) by (apply Hp; set_solver). destruct (Z.ltb_spec 0 (ss_CreatedAt p)); [|lia].
    rewrite List.filter_app, filter_none, filter_all; [done| |].
    + intros x Hx. cbn. apply Z.ltb_lt. by eapply sorted_app_lt.
    + intros x Hx. cbn. apply Z.ltb_ge. apply last_Some in El as [l' ->]. apply elem_of_app in Hx as [Hx|Hx%list_elem_of_singleton]; [|subst; lia].
      rewrite <- app_assoc in Hs. apply (sorted_app_lt l' ([p] ++ R) x p) in Hs; [lia|done|set_solver].
  - apply last_None in El as ->. by apply filter_all.
Qed.

Lemma selectCoins_spec owner u amount : forall fuel P R,
  holds owner u (P ++ R) -> (length R < fuel)%nat -> (P = [] \/ storedValue (take (length P - 10) (P ++ R)) < amount)%Z ->
  if (amount <=? storedValue (P ++ R))%Z then
    exists k, selectCoins n fuel owner amount u (lastCreated P) (taken P) = Done (taken (take k (P ++ R))) /\
      (amount <= storedValue (take k (P ++ R)))%Z /\ (k = 0%nat \/ storedValue (take (k - 10) (P ++ R)) < amount)%Z
  else selectCoins n fuel owner amount u (lastCreated P) (taken P) = Fail insufficientFundsError "MsgInsufficientFunds".
Proof.
  intros fuel. induction fuel as [|fuel IH]; intros P R Hh Hf Hmin; [lia|].
  cbn [selectCoins]. cbn [pi_total taken].
  assert (Hmono : (storedValue P <= storedValue (P ++ R))%Z).
  { rewrite storedValue_app. pose proof (hd_stored _ _ _ Hh) as Hw. apply Forall_app in Hw as [_ Hw]. pose proof (storedValue_nonneg R Hw). lia. }
  destruct (Z.leb_spec amount (storedValue P)) as [Hle|Hgt].
  { destruct (Z.leb_spec amount (storedValue (P ++ R))); [|lia]. exists (length P). rewrite take_app_length. split_and!; [done|done|].
    destruct Hmin as [->|]; [by left|by right]. }
  rewrite (hd_answers _ _ _ Hh). rewrite (remaining_after owner u P R Hh). cbn [orFail].
  destruct R as [|r R].
  { rewrite app_nil_r in *. destruct (Z.leb_spec amount (storedValue P)); [lia|]. done. }
  set (page := take 10 (r :: R)). assert (Hpage : noneOf page = false) by done.
  assert (Hsplit : P ++ r :: R = (P ++ page) ++ drop 10 (r :: R)) by (rewrite <- app_assoc; unfold page; by rewrite (take_drop 10 (r :: R))).
  change (Done page ≫= ?f) with (f page). cbv beta. rewrite Hpage. cbn [negb require]. change (Done () ≫= ?f) with (f tt). cbv beta.
  pose proof (hd_stored _ _ _ Hh) as Hw. rewrite Hsplit in Hw. apply Forall_app in Hw as [Hw _]. apply Forall_app in Hw as [_ Hw].
  rewrite takePage_spec by done. change (Done ?p ≫= ?f) with (f p). cbv beta. cbn [fst snd].
  assert (Hlast : from_option ss_CreatedAt (lastCreated P) (last page) = lastCreated (P ++ page)).
  { unfold lastCreated. rewrite last_app. by destruct (last page). }
  rewrite Hlast, Hsplit. apply IH; [by rewrite <- Hsplit| |].
  - rewrite length_drop. simpl in Hf |- *. lia.
  - right. rewrite <- Hsplit. eapply Z.le_lt_trans; [|exact Hgt].
    assert (Hlen : (length (P ++ page) - 10 <= length P)%nat) by (rewrite length_app; unfold page; rewrite length_take; lia).
    rewrite take_app_le by done. pose proof (storedValue_app (take (length (P ++ page) - 10) P) (drop (length (P ++ page) - 10) P)) as Hsum. rewrite take_drop in Hsum.
    assert (Hw' : Forall wellStored P) by (pose proof (hd_stored _ _ _ Hh) as H'; by apply Forall_app in H' as [? _]).
    pose proof (storedValue_nonneg (drop (length (P ++ page) - 10) P) ltac:(by apply Forall_drop)). lia.
Qed.

Lemma prepareInputs_spec owner u l fuel amount :
  holds (ip_address owner) u l -> (length l < fuel)%nat -> (0 < amount)%Z ->
  if (amount <=? storedValue l)%Z then
    exists k, prepareInputs n fuel (Some owner) (Some amount) u = Done (taken (take k l)) /\
      (amount <= storedValue (take k l))%Z /\ (storedValue (take (k - 10) l) < amount)%Z
  else prepareInputs n fuel (Some owner) (Some amount) u = Fail insufficientFundsError "MsgInsufficientFunds".
Proof.
  intros Hh Hf Ha. pose proof (selectCoins_spec (ip_address owner) u amount fuel [] l Hh Hf (or_introl eq_refl)) as Hs.
  unfold prepareInputs. change (deref (Some ?x) ≫= ?f) with (f x). cbv beta. destruct (Z.leb_spec amount 0); [lia|].
  change (deref (Some ?x) ≫= ?f) with (f x). cbv beta. cbn [app] in Hs. destruct (Z.leb_spec amount (storedValue l)); [|done].
  destruct Hs as (k & Hk & Hle & Hmin). exists k. split_and!; [done|done|]. destruct Hmin as [->|]; [|done]. change (storedValue (take 0 l)) with 0%Z in Hle. lia.
Qed.

(** (C28) When no two coins of the owner were created at the same time, selecting coins ends, after at
    most one query more than there are coins, and finds what there is: with enough value it takes the
    oldest coins, as many as make up the amount and at most one page of ten more than needed; without,
    it reports insufficient funds. Coins are well formed, with amounts that are not negative and
    creation times after zero, and the store answers its queries. *)
Theorem prepareInputs_selects_oldest owner u l fuel amount :
  holds (ip_address owner) u l -> (length l < fuel)%nat -> (0 < amount)%Z ->
  ((amount <= storedValue l)%Z ->
   exists k, prepareInputs n fuel (Some owner) (Some amount) u = Done (taken (take k l)) /\
     (amount <= storedValue (take k l))%Z /\ (storedValue (take (k - 10) l) < amount)%Z) /\
  ((storedValue l < amount)%Z -> prepareInputs n fuel (Some owner) (Some amount) u = Fail insufficientFundsError "MsgInsufficientFunds").
Proof.
  intros Hh Hf Ha. pose proof (prepareInputs_spec owner u l fuel amount Hh Hf Ha) as Hs.
  by split; intros Hv; destruct (Z.leb_spec amount (storedValue l)); try lia.
Qed.
End Selection.

(** ** Samples *)

(** The environment of [NotoSample] with a store: [coins] are Alice's, and [locked] are locked. *)
Definition storeEnv (coins locked : list StoredState) : NotoEnv := {|
  nenv_NewAddress := nenv_NewAddress;
  nenv_EncodeTypedDataV4 := nenv_EncodeTypedDataV4;
  nenv_RecoverDirect := nenv_RecoverDirect;
  nenv_lockIdHash := nenv_lockIdHash;
  nenv_nullifierHash := nenv_nullifierHash;
  nenv_LocalNodeName := nenv_LocalNodeName;
  nenv_FindAvailableStates schema query _ :=
    Some (if existsb (fun e => String.eqb e.1 "owner" && String.eqb e.2 (EthAddress_String alice))%bool (q_Equal query) then
            take (q_Limit query) (List.filter (laterThan (q_CreatedAfter query)) (if String.eqb schema "coin" then coins else locked))
          else []);
  nenv_ValidateStates := nenv_ValidateStates;
  nenv_EncodeTransactionData := nenv_EncodeTransactionData;
  nenv_RandBytes32 := nenv_RandBytes32;
  nenv_NewUUID := nenv_NewUUID;
  nenv_knownSignature := nenv_knownSignature;
  nenv_knownFunction := nenv_knownFunction
|}.

Definition letter (i : nat) : string := String (Ascii.ascii_of_nat (97 + i)) "".

(** The [i]th of Alice's coins, with the time it was created. *)
Definition storedCoinAt (i : nat) (created amount : Z) : StoredState :=
  MkStoredState (Bytes32_String (bytes32 (letter i))) "coin" created (marshalCoin (MkNotoCoin (bytes32 (letter i)) (Some alice) (Some amount))).

Definition storedLockedAt (i : nat) (created amount : Z) : StoredState :=
  MkStoredState (Bytes32_String (bytes32 (letter i))) "lockedCoin" created
    (marshalLockedCoin (MkNotoLockedCoin (bytes32 (letter i)) (bytes32 "L") (Some alice) (Some amount))).

(** Twelve coins of five. *)
Definition twelveCoins : list StoredState := (fun i => storedCoinAt i (Z.of_nat (S i)) 5) <$> seq 0 12.

Definition aliceID : identityPair := MkIdentityPair "alice@node1" alice.

Lemma twelveCoins_held : @holds (storeEnv twelveCoins []) sampleNoto alice false twelveCoins.
Proof.
  split.
  - intros after. reflexivity.
  - repeat (apply Forall_cons_2; [eexists _, _; split_and!; [vm_compute; reflexivity|reflexivity|lia]|]); constructor.
  - repeat (apply SSorted_cons; [|repeat (apply Forall_cons_2; [cbn; lia|]); constructor]); constructor.
  - repeat (apply Forall_cons_2; [cbn; lia|]); constructor.
  - repeat (apply Forall_cons_2; [reflexivity|]); constructor.
  - vm_compute. repeat constructor.
  - apply (bool_decide_unpack _). vm_compute. exact I.
Qed.

Lemma prepareInputs_selects_oldest_witness :
  (exists k, @prepareInputs (storeEnv twelveCoins []) sampleNoto 13 (Some aliceID) (Some 11%Z) false = Done (@taken (storeEnv twelveCoins []) (take k twelveCoins))) /\
  @prepareInputs (storeEnv twelveCoins []) sampleNoto 13 (Some aliceID) (Some 61%Z) false = Fail insufficientFundsError "MsgInsufficientFunds".
Proof.
  split.
  - destruct (@prepareInputs_selects_oldest (storeEnv twelveCoins []) sampleNoto aliceID false twelveCoins 13 11 twelveCoins_held) as [Hs _]; [cbn; lia|lia|].
    destruct Hs as (k & Hk & _); [vm_compute; discriminate|]. exists k. exact Hk.
  - destruct (@prepareInputs_selects_oldest (storeEnv twelveCoins []) sampleNoto aliceID false twelveCoins 13 61 twelveCoins_held) as [_ Hs]; [cbn; lia|lia|].
    apply Hs. vm_compute. reflexivity.
Defined.

(** Coins created at the same time are told apart by nothing: with eleven of them, the eleventh is not
    on the first page and the second query is for later coins, so that the funds are insufficient. *)
Theorem same_time_coins_skipped :
  let l := (fun i => storedCoinAt i 1 5) <$> seq 0 11 in
  @storedValue (storeEnv l []) l = 55%Z /\
  @prepareInputs (storeEnv l []) sampleNoto 12 (Some aliceID) (Some 51%Z) false = Fail insufficientFundsError "MsgInsufficientFunds".
Proof. split; vm_compute; reflexivity. Qed.

(** Selecting locked coins for an amount goes on after the amount is reached, with one more coin for
    each full page: of twelve coins of five, four are selected for an amount of five. *)
Theorem locked_selection_overshoots :
  let l := (fun i => storedLockedAt i (Z.of_nat (S i)) 5) <$> seq 0 12 in
  match @prepareLockedInputs (storeEnv [] l) sampleNoto 12 (bytes32 "L") alice 5 false with
  | Done selected => pl_total selected = 20%Z
  | _ => False
  end.
Proof. vm_compute. reflexivity. Qed.
