(* ===== verification/NotoAgreement.v ===== *)
(** * The Noto token: what is assembled is endorsed

    Assembly runs on the sender's node and endorsement on the notary's: a payment that was initialised
    and assembled passes the checks of the notary, when the notary is shown the states that were
    assembled and the sender's signature of the payload.

    Sources: domains/noto/internal/noto (see [NotoEndorse] and [NotoAssemble]). *)

From S2P Require Import Prelude HexBytes Identity NotoTypes NotoChecks NotoEndorse NotoBalance NotoCodec NotoSample NotoStates NotoAssemble NotoSelection.
Open Scope string_scope.
Open Scope list_scope.

(** ** Assemblies that succeed *)

Lemma bind_AM {A B} (m : AM A) (f : A -> AM B) s s' b :
  (m ≫= f) s = (s', Done b) <-> exists s1 a, m s = (s1, Done a) /\ f a s1 = (s', Done b).
Proof.
  unfold mbind, AM_bind. split.
  - destruct (m s) as [s1 [a|c e| |]] eqn:Em; [eauto|done..].
  - by intros (s1 & a & -> & Hf).
Qed.

Lemma liftA_Done {A} (r : outcome A) s s' a : liftA r s = (s', Done a) <-> r = Done a /\ s' = s.
Proof. unfold liftA. split; [by intros [= -> ->]|by intros [-> ->]]. Qed.

Lemma mret_AM {A} (a b : A) s s' : @mret AM _ A a s = (s', Done b) <-> a = b /\ s' = s.
Proof. unfold mret, AM_ret. split; [by intros [= -> ->]|by intros [-> ->]]. Qed.

(** Takes an assembly that succeeded apart into its steps. *)
Ltac assembled :=
  repeat match goal with
  | H : (_ ≫= _) _ = (_, Done _) |- _ => apply bind_AM in H as (? & ? & ? & H)
  | H : liftA _ _ = (_, Done _) |- _ => apply liftA_Done in H as [H ->]
  | H : @mret AM _ _ _ _ = (_, Done _) |- _ => apply mret_AM in H as [H ->]
  end.

Section Agreement.
Context `{NotoEnv} (n : Noto) (name : string) (fuel : nat).

(** What the libraries are for: salts have 32 bytes, and an address that was parsed is parsed from its
    own text form. *)
Record lawfulLibraries : Prop := MkLawfulLibraries {
  ll_salts : forall i, String.length (nenv_RandBytes32 i) = 32%nat;
  ll_addresses : forall text a, nenv_NewAddress text = Some a -> addressParses a
}.

Lemma findEthAddressVerifier_parses lookup verifiers id :
  lawfulLibraries -> findEthAddressVerifier lookup verifiers = Done id -> addressParses (ip_address id).
Proof. intros Hl Hf. unfold findEthAddressVerifier in Hf. ran. subst. by eapply ll_addresses. Qed.

(** ** Coin lists that are accepted *)

(** The state holds the coin. *)
Definition holdsCoin (state : NotoState) (c : NotoCoin) : Prop := coinOf n state = Some c /\ is_Some (nc_Amount c).

Lemma used_not used id : id ∉ used -> existsb (String.eqb id) used = false.
Proof.
  intros Hn. destruct (existsb _ _) eqn:He; [|done]. apply existsb_exists in He as (x & Hx & E%String.eqb_eq). subst x.
  by apply list_elem_of_In in Hx.
Qed.

Lemma parseStates_coins states coins : Forall2 holdsCoin states coins -> forall used acc,
  NoDup (ns_Id <$> states) -> (forall id, id ∈ ns_Id <$> states -> id ∉ used) ->
  exists r, parseStates n used acc states = Done r.
Proof.
  induction 1 as [|state c states coins (Hc & amount & Ha) _ IH]; intros used acc Hnd Hused; [by eexists|].
  rewrite fmap_cons in Hnd, Hused. apply NoDup_cons in Hnd as [Hni Hnd]. cbn [parseStates]. rewrite used_not by (apply Hused; left).
  unfold coinOf in Hc. destruct (String.eqb (ns_SchemaId state) (n_coinSchema n)); [|discriminate]. rewrite Hc. cbn [orFail].
  change (Done c ≫= ?f) with (f c). cbv beta. rewrite Ha. change (deref (Some amount) ≫= ?f) with (f amount). cbv beta.
  apply IH; [done|]. intros id Hid [->|Hin]%elem_of_cons; [done|]. apply (Hused id); [by right|done].
Qed.

Lemma holdsCoins_in states coins : Forall2 holdsCoin states coins -> coinsIn n states = coins /\ lockedIn n states = [].
Proof.
  induction 1 as [|state c states coins (Hc & _) _ [IHc IHl]]; [done|]. unfold coinsIn, lockedIn in *. cbn. rewrite Hc, IHc.
  unfold lockedCoinOf, coinOf in *. by destruct (String.eqb (ns_SchemaId state) (n_coinSchema n)).
Qed.

Lemma parseCoinList_coins states coins :
  Forall2 holdsCoin states coins -> NoDup (ns_Id <$> states) ->
  exists r, parseCoinList n states = Done r /\ pc_coins r = coins /\ pc_total r = sumOf nc_Amount coins.
Proof.
  intros Hf Hnd. destruct (parseStates_coins _ _ Hf [] noCoins Hnd) as (r & Hr); [set_solver|].
  exists r. split; [done|]. destruct (parsed_as n _ _ Hr) as [Hc Ht _ _ _]. unfold value in Ht. destruct (holdsCoins_in _ _ Hf) as [Hi _].
  by rewrite Hi in Hc, Ht.
Qed.

(** ** The states of an assembly as the notary sees them *)

Definition storedState (s : StoredState) : NotoState := MkNotoState (ss_Id s) (ss_SchemaId s) (ss_DataJson s).
Definition createdState (id : string) (s : NewState) : NotoState := MkNotoState id (nw_SchemaId s) (nw_StateDataJson s).

(** The request shows the notary the stored states that the assembly refers to, the new states under
    the distinct ids they were given, and a signature of the payload by the verifier that comes with it. *)
Record presents (l : list StoredState) (a : Assembled) (req : EndorseTransactionRequest) : Prop := MkPresents {
  pr_inputs : forall k, ap_InputStates a = storedRef <$> take k l -> er_Inputs req = storedState <$> take k l;
  pr_outputs : exists ids, length ids = length (ap_OutputStates a) /\ NoDup ids /\ er_Outputs req = zip_with createdState ids (ap_OutputStates a);
  pr_signature : exists attestation verifier signer,
    FindAttestation "sender" (er_Signatures req) = Some attestation /\ na_Verifier attestation = Some verifier /\
    nenv_RecoverDirect (ap_signPayload a) (na_Payload attestation) = Some signer /\ nv_Verifier verifier = EthAddress_String signer
}.

Lemma signature_accepted l a req : presents l a req -> validateSignature "sender" (er_Signatures req) (ap_signPayload a) = Done tt.
Proof.
  intros [_ _ (att & v & signer & Hf & Hv & Hr & He)]. unfold validateSignature. rewrite Hf. cbn [orFail]. change (Done att ≫= ?f) with (f att).
  cbv beta. rewrite Hr. cbn. rewrite Hv. cbn. by rewrite He, String.eqb_refl.
Qed.

(** A new state that holds the coin it was made for. *)
Definition made (s : NewState) (c : NotoCoin) : Prop := nw_SchemaId s = n_coinSchema n /\ nw_StateDataJson s = marshalCoin c /\ wholeCoin c.

Lemma created_holds ids states coins :
  length ids = length states -> Forall2 made states coins -> Forall2 holdsCoin (zip_with createdState ids states) coins.
Proof.
  revert states coins. induction ids as [|id ids IH]; intros [|s states] coins Hl Hf; inversion Hf as [|? c ? coins' (Hs & Hd & Hw)]; subst; try done;
    cbn; constructor; [|by apply IH; [injection Hl|]].
  split; [|by destruct Hw as (_ & _ & z & -> & _)]. unfold coinOf, createdState. cbn. rewrite Hs, String.eqb_refl, Hd. by apply unmarshal_marshalCoin.
Qed.

Lemma created_ids ids states : length ids = length states -> ns_Id <$> zip_with createdState ids states = ids.
Proof. revert states. induction ids as [|id ids IH]; intros [|s states] Hl; try done. cbn. f_equal. apply IH. by injection Hl. Qed.

(** The new coins of an assembly, read by the notary. *)
Lemma outputs_accepted l a req coins :
  presents l a req -> Forall2 made (ap_OutputStates a) coins ->
  exists r, parseCoinList n (er_Outputs req) = Done r /\ pc_coins r = coins /\ pc_total r = sumOf nc_Amount coins.
Proof.
  intros [_ (ids & Hl & Hnd & ->) _] Hm. apply parseCoinList_coins; [by apply created_holds|]. by rewrite created_ids.
Qed.

Lemma stored_holds l :
  Forall wellStored l -> Forall (fun s => ss_SchemaId s = n_coinSchema n) l -> Forall2 holdsCoin (storedState <$> l) (storedCoins l).
Proof.
  induction 1 as [|s l (c & z & Hc & Hz & _) _ IH]; intros Hs; [constructor|]. apply Forall_cons in Hs as [Hs Hsl].
  unfold storedCoins. cbn. rewrite Hc. constructor; [|by apply IH]. split; [|by rewrite Hz].
  unfold coinOf, storedState. cbn. by rewrite Hs, String.eqb_refl.
Qed.

(** The selected coins of an assembly, read by the notary. *)
Lemma inputs_accepted owner u l k a req :
  holds n owner u l -> presents l a req -> ap_InputStates a = storedRef <$> take k l ->
  exists r, parseCoinList n (er_Inputs req) = Done r /\ pc_coins r = storedCoins (take k l) /\ pc_total r = storedValue (take k l).
Proof.
  intros Hh Hp Hi. rewrite (pr_inputs _ _ _ Hp k Hi). apply parseCoinList_coins.
  - apply stored_holds; apply Forall_take; apply Hh.
  - rewrite <- list_fmap_compose. change (ns_Id ∘ storedState) with ss_Id. rewrite fmap_take.
    pose proof (hd_distinct _ _ _ _ Hh) as Hd. rewrite <- (take_drop k (ss_Id <$> l)) in Hd. by apply NoDup_app in Hd as [? _].
Qed.

(** ** What the steps of an assembly make *)

Lemma prepareOutputs_made owner amount distribution s s' r :
  lawfulLibraries -> prepareOutputs n owner amount distribution s = (s', Done r) ->
  (forall o, owner = Some o -> addressParses (ip_address o)) -> (exists z, amount = Some z /\ 0 <= z)%Z ->
  exists c, po_coins r = [c] /\ nc_Amount c = amount /\ Forall2 made (po_states r) [c].
Proof.
  intros Hl Hr Ho Ha. unfold prepareOutputs in Hr. assembled. apply deref_Done in H1. rename x0 into salt, x2 into o, H1 into Howner. subst.
  unfold randBytes32 in H0. injection H0 as <- <-. unfold newState in H3. injection H3 as <- <-.
  eexists. cbn. split_and!; [done|done|]. constructor; [|constructor]. unfold made. cbn. split_and!; [done|done|].
  split_and!; [apply Hl|exists (ip_address o); split; [done|by apply Ho]|done].
Qed.

Lemma resolved_from tx verifiers from to ids o :
  resolveIdentities tx verifiers from to = Done ids -> ri_from ids = Some o -> findEthAddressVerifier from verifiers = Done o.
Proof. intros Hr Ho. unfold resolveIdentities in Hr. ran. subst. cbn in Ho. destruct (String.eqb from ""); ran; congruence. Qed.

Lemma resolved_to tx verifiers from to ids o :
  resolveIdentities tx verifiers from to = Done ids -> ri_to ids = Some o -> findEthAddressVerifier to verifiers = Done o.
Proof. intros Hr Ho. unfold resolveIdentities in Hr. ran. subst. cbn in Ho. destruct (String.eqb to ""); ran; congruence. Qed.

(** The coins of [from], whoever that is. *)
Definition holdings (verifiers : list NotoVerifier) (from : string) (l : list StoredState) : Prop :=
  forall id, findEthAddressVerifier from verifiers = Done id -> holds n (ip_address id) false l.

(** What an assembly selects: some of the coins of the owner, enough for the amount. *)
Lemma selected verifiers tx from to ids amount l inputs :
  holdings verifiers from l -> (length l < fuel)%nat -> (0 < amount)%Z ->
  resolveIdentities tx verifiers from to = Done ids -> prepareInputs n fuel (ri_from ids) (Some amount) false = Done inputs ->
  exists o k, ri_from ids = Some o /\ findEthAddressVerifier from verifiers = Done o /\ holds n (ip_address o) false l /\
    inputs = taken (take k l) /\ (amount <= storedValue (take k l))%Z.
Proof.
  intros Hh Hf Ha Hr Hp. destruct (ri_from ids) as [o|] eqn:Eo.
  - pose proof (resolved_from _ _ _ _ _ _ Hr Eo) as Hfind. exists o. specialize (Hh _ Hfind).
    pose proof (prepareInputs_spec n o false l fuel amount Hh Hf Ha) as Hs. rewrite Hp in Hs. destruct (amount <=? storedValue l)%Z; [|done].
    destruct Hs as (k & [= ->] & Hle & _). by exists k.
  - exfalso. unfold prepareInputs in Hp. cbn in Hp. destruct (Z.leb_spec amount 0); [lia|discriminate].
Qed.

(** The owners of selected coins pass. *)
Lemma owners_accepted verifiers from o l k :
  findEthAddressVerifier from verifiers = Done o -> holds n (ip_address o) false l ->
  validateOwners from verifiers (storedCoins (take k l)) = Done tt.
Proof.
  intros Hf Hh. unfold validateOwners. rewrite Hf. change (Done o ≫= ?f) with (f o). cbv beta. apply require_Done. apply forallb_forall.
  intros c Hc%list_elem_of_In. apply bool_decide_eq_true. pose proof (hd_owner _ _ _ _ Hh) as Ho. rewrite Forall_forall in Ho. apply Ho.
  rewrite <- (take_drop k l). unfold storedCoins. rewrite omap_app. set_solver.
Qed.

(** ** Payments *)

(** What goes back to the payer: the value selected beyond the amount. *)
Lemma returned_made (o : identityPair) distribution amount total s s' r :
  lawfulLibraries -> addressParses (ip_address o) -> (amount <= total)%Z ->
  (if (amount <? total)%Z then prepareOutputs n (Some o) (Some (total - amount)%Z) distribution else mret noOutputs) s = (s', Done r) ->
  Forall2 made (po_states r) (po_coins r) /\ sumOf nc_Amount (po_coins r) = (total - amount)%Z.
Proof.
  intros Hl Ho Hle Hr. destruct (Z.ltb_spec amount total).
  - apply prepareOutputs_made in Hr as (c & -> & Hz & Hm); [|done|by intros t [= <-]|by eexists; split; [done|lia]].
    split; [done|]. cbn. rewrite Hz. cbn. lia.
  - apply mret_AM in Hr as [<- _]. split; [constructor|cbn; lia].
Qed.

Lemma some_selected amount l k : (0 < amount)%Z -> (amount <= storedValue (take k l))%Z -> noneOf (storedCoins (take k l)) = false.
Proof. intros Ha Hle. unfold storedValue in Hle. destruct (storedCoins (take k l)); [cbn in Hle; lia|done]. Qed.

(** Goes on where a step is done. *)
Ltac goOn := repeat match goal with |- context [Done ?x ≫= ?f] => change (Done x ≫= f) with (f x); cbv beta end.

Lemma assembleTransfer_endorsed tx req from to amount data l s s' a :
  lawfulLibraries -> IsNullifierVariant (pt_DomainConfig tx) = false -> holdings (er_ResolvedVerifiers req) from l -> (length l < fuel)%nat -> (0 < amount)%Z ->
  assembleTransfer n name fuel tx (er_ResolvedVerifiers req) from to (Some amount) data s = (s', Done a) -> presents l a req ->
  endorseTransfer n tx req from = Done tt.
Proof.
  intros Hl Hv Hh Hf Ha Hr Hp. unfold assembleTransfer, nullified in Hr. rewrite Hv in Hr.
  apply bind_AM in Hr as (? & ids & Hids & Hr). apply liftA_Done in Hids as [Hids ->].
  apply bind_AM in Hr as (? & inputs & Hin & Hr). apply liftA_Done in Hin as [Hin ->].
  destruct (selected _ _ _ _ _ _ _ _ Hh Hf Ha Hids Hin) as (o & k & Eo & Hfrom & Hheld & -> & Hle). rewrite Eo in Hr.
  apply bind_AM in Hr as (? & paid & Hpaid & Hr).
  apply prepareOutputs_made in Hpaid as (c & Hpc & Hcz & Hpm); [|done|intros t Et; eapply findEthAddressVerifier_parses; [done|by eapply resolved_to]|by exists amount; split; [done|lia]].
  apply bind_AM in Hr as (? & info & _ & Hr). apply bind_AM in Hr as (? & z & Hz & Hr). apply liftA_Done in Hz as [[= <-] ->].
  apply bind_AM in Hr as (? & outputs & Hout & Hr).
  assert (Hmade : Forall2 made (po_states outputs) (po_coins outputs) /\ sumOf nc_Amount (po_coins outputs) = storedValue (take k l)).
  { cbn [pi_total taken] in Hout. destruct (Z.ltb_spec amount (storedValue (take k l))) as [Hlt|].
    - apply bind_AM in Hout as (? & returned & Hret & Hout). apply mret_AM in Hout as [<- ->].
      epose proof (returned_made o _ amount (storedValue (take k l)) _ _ returned Hl (findEthAddressVerifier_parses _ _ _ Hl Hfrom) Hle) as Hm.
      rewrite (proj2 (Z.ltb_lt _ _) Hlt) in Hm. apply Hm in Hret as [Hrm Hrz].
      cbn [po_states po_coins appendOutputs]. rewrite Hpc. split; [by apply Forall2_app|]. rewrite sumOf_app, Hrz. cbn. rewrite Hcz. cbn. lia.
    - apply mret_AM in Hout as [<- ->]. rewrite Hpc. split; [done|]. cbn. rewrite Hcz. cbn. lia. }
  destruct Hmade as [Hmade Hsum]. apply bind_AM in Hr as (? & payload & Henc & Hr). apply liftA_Done in Henc as [Henc ->].
  apply bind_AM in Hr as (? & allInfo & _ & Hr). apply mret_AM in Hr as [<- ->]. cbn [pi_coins taken] in Henc.
  destruct (inputs_accepted _ _ _ k _ _ Hheld Hp eq_refl) as (ri & Hri & Hrc & Hrt).
  destruct (outputs_accepted _ _ _ _ Hp Hmade) as (ro & Hro & Hroc & Hrot).
  unfold endorseTransfer, validateTransferAmounts. rewrite Hri. goOn. rewrite Hro. goOn.
  rewrite Hrt, Hrot, Hsum, Z.eqb_refl, Hrc, Hroc, (some_selected amount) by done. cbn [negb require]. goOn.
  rewrite (owners_accepted _ _ _ _ _ Hfrom Hheld). goOn. rewrite Henc. goOn. exact (signature_accepted _ _ _ Hp).
Qed.

Lemma assembleBurn_endorsed tx req from amount data l s s' a :
  lawfulLibraries -> IsNullifierVariant (pt_DomainConfig tx) = false -> holdings (er_ResolvedVerifiers req) from l -> (length l < fuel)%nat -> (0 < amount)%Z ->
  checkBurnAllowed (pt_DomainConfig tx) = Done tt ->
  assembleBurn n name fuel tx (er_ResolvedVerifiers req) from (Some amount) data s = (s', Done a) -> presents l a req ->
  endorseBurn n tx req from (Some amount) = Done tt.
Proof.
  intros Hl Hv Hh Hf Ha Hallow Hr Hp. unfold assembleBurn, nullified in Hr. rewrite Hv in Hr.
  apply bind_AM in Hr as (? & ids & Hids & Hr). apply liftA_Done in Hids as [Hids ->].
  apply bind_AM in Hr as (? & inputs & Hin & Hr). apply liftA_Done in Hin as [Hin ->].
  destruct (selected _ _ _ _ _ _ _ _ Hh Hf Ha Hids Hin) as (o & k & Eo & Hfrom & Hheld & -> & Hle). rewrite Eo in Hr.
  apply bind_AM in Hr as (? & info & _ & Hr). apply bind_AM in Hr as (? & z & Hz & Hr). apply liftA_Done in Hz as [[= <-] ->].
  apply bind_AM in Hr as (s1 & outputs & Hout & Hr).
  assert (Hmade : Forall2 made (po_states outputs) (po_coins outputs) /\ sumOf nc_Amount (po_coins outputs) = (storedValue (take k l) - amount)%Z).
  { eapply (returned_made o); [done|by eapply findEthAddressVerifier_parses|done|]. cbn [pi_total taken] in Hout.
    destruct (amount <? storedValue (take k l))%Z; [|exact Hout]. apply bind_AM in Hout as (s2 & r & Hout & Hm). apply mret_AM in Hm as [<- ->]. exact Hout. }
  destruct Hmade as [Hmade Hsum]. apply bind_AM in Hr as (? & payload & Henc & Hr). apply liftA_Done in Henc as [Henc ->].
  apply bind_AM in Hr as (? & allInfo & _ & Hr). apply mret_AM in Hr as [<- ->]. cbn [pi_coins taken] in Henc.
  destruct (inputs_accepted _ _ _ k _ _ Hheld Hp eq_refl) as (ri & Hri & Hrc & Hrt).
  destruct (outputs_accepted _ _ _ _ Hp Hmade) as (ro & Hro & Hroc & Hrot).
  unfold endorseBurn, validateBurnAmounts. rewrite Hallow. goOn. rewrite Hri. goOn. rewrite Hro. goOn. cbn [deref].
  rewrite Hrt, Hrot, Hsum, Hrc, Hroc, (some_selected amount) by done. cbn [negb require]. goOn.
  replace (storedValue (take k l) - (storedValue (take k l) - amount))%Z with amount by lia. rewrite Z.eqb_refl. cbn [require]. goOn.
  rewrite (owners_accepted _ _ _ _ _ Hfrom Hheld). goOn. rewrite Henc. goOn. exact (signature_accepted _ _ _ Hp).
Qed.

Lemma assembleMint_endorsed tx req to amount data l s s' a :
  lawfulLibraries -> IsNullifierVariant (pt_DomainConfig tx) = false -> (0 < amount)%Z ->
  checkMintAllowed (pt_DomainConfig tx) (nt_From (er_Transaction req)) = Done tt ->
  assembleMint n name tx (er_ResolvedVerifiers req) to (Some amount) data s = (s', Done a) -> presents l a req ->
  endorseMint n tx (Some amount) req = Done tt.
Proof.
  intros Hl Hv Ha Hallow Hr Hp. unfold assembleMint in Hr. rewrite Hv in Hr.
  apply bind_AM in Hr as (? & ids & Hids & Hr). apply liftA_Done in Hids as [Hids ->].
  apply bind_AM in Hr as (? & minted & Hmint & Hr).
  apply prepareOutputs_made in Hmint as (c & Hpc & Hcz & Hpm); [|done|intros t Et; eapply findEthAddressVerifier_parses; [done|by eapply resolved_to]|by exists amount; split; [done|lia]].
  apply bind_AM in Hr as (? & outputs & Hout & Hr). apply mret_AM in Hout as [<- ->].
  apply bind_AM in Hr as (? & info & _ & Hr). apply bind_AM in Hr as (? & payload & Henc & Hr). apply liftA_Done in Henc as [Henc ->].
  apply bind_AM in Hr as (? & allInfo & _ & Hr). apply mret_AM in Hr as [<- ->].
  destruct (outputs_accepted _ _ _ _ Hp Hpm) as (ro & Hro & Hroc & Hrot).
  pose proof (pr_inputs _ _ _ Hp 0 eq_refl) as Hin. change (storedState <$> take 0 l) with (@nil NotoState) in Hin.
  unfold endorseMint, validateMintAmounts. rewrite Hallow. goOn. rewrite Hin. change (parseCoinList n []) with (Done noCoins). goOn. rewrite Hro. goOn.
  cbn [noneOf pc_coins noCoins require deref]. goOn. rewrite Hrot, sumOf_cons, Hcz. change (sumOf nc_Amount []) with 0%Z. cbn [default from_option id]. rewrite Z.add_0_r, Z.eqb_refl. cbn [require]. goOn.
  rewrite Hpc in Henc. rewrite Hroc, Henc. goOn. exact (signature_accepted _ _ _ Hp).
Qed.

(** ** The parties agree *)

(** The functions that only pay: who pays, if anyone does. *)
Definition payment (tx : ParsedTransaction) : option (option string) :=
  match pt_Params tx with
  | MintParams _ _ _ => Some None
  | TransferParams _ _ _ | BurnParams _ _ => Some (Some (senderOf tx))
  | TransferFromParams From _ _ _ | BurnFromParams From _ _ => Some (Some From)
  | _ => None
  end.

Definition paidAmount (params : NotoParams) : option Z :=
  match params with
  | MintParams _ Amount _ | TransferParams _ Amount _ | TransferFromParams _ _ Amount _ | BurnParams Amount _ | BurnFromParams _ Amount _ => Amount
  | _ => None
  end.

Lemma positiveAmount_Done amount what : positiveAmount amount what = Done tt -> exists z, amount = Some z /\ (0 < z)%Z.
Proof. unfold positiveAmount. intros Hr%require_Done. destruct amount as [z|]; [|discriminate]. exists z. split; [done|]. by apply Z.ltb_lt. Qed.

Lemma validated_amount transaction tx :
  validateTransaction transaction = Done tx -> is_Some (payment tx) -> exists z, paidAmount (pt_Params tx) = Some z /\ (0 < z)%Z.
Proof.
  intros Hv Hp. unfold validateTransaction, ValidateParams in Hv. ran. subst. unfold payment in Hp. cbn in Hp |- *.
  match goal with H : validateDecoded _ ?p = Done _ |- _ => destruct p; cbn in H; try by destruct Hp end; unfold validateTransferFromParams, validateBurnFromParams, validateBurnParams, validateTransferParams in *; ran;
    repeat match goal with u : unit |- _ => destruct u end; by eapply positiveAmount_Done.
Qed.

Lemma validated_from transaction tx : validateTransaction transaction = Done tx -> pt_Transaction tx = transaction.
Proof. intros Hv. unfold validateTransaction in Hv. ran. by subst. Qed.

(** An assembly that is OK is the one its handler made. *)
Lemma assembled_by_handler transaction verifiers tx s s' a :
  validateTransaction transaction = Done tx -> AssembleTransaction n name fuel transaction verifiers s = (s', Done (ASSEMBLE_OK a)) ->
  exists s1, assembleHandler n name fuel tx verifiers s = (s1, Done a).
Proof.
  intros Hv Hr. unfold AssembleTransaction, assembleRevertOrError, liftA in Hr. rewrite Hv in Hr.
  destruct (assembleHandler n name fuel tx verifiers s) as [s1 [b|c e| |]]; try done; [|by destruct (default false _)].
  exists s1. destruct (if IsNullifierVariant _ then _ else _) as [u|c e| |]; try done; [|by destruct (default false _)]. by injection Hr as _ ->.
Qed.

(** (C21) A mint, transfer or burn that was initialised and assembled is endorsed: the notary, shown the
    selected coins, the new ones and the sender's signature of the payload, accepts the amounts, the
    owners and the signature (where coins have no nullifiers, for any number of coins, no two of them
    created at the same time). *)
Theorem assembled_payment_endorsed req tx payer l alg nullifierType verifiersNeeded s s' a :
  lawfulLibraries -> validateTransaction (er_Transaction req) = Done tx -> IsNullifierVariant (pt_DomainConfig tx) = false ->
  payment tx = Some payer -> (forall from, payer = Some from -> holdings (er_ResolvedVerifiers req) from l) -> (length l < fuel)%nat ->
  InitTransaction alg nullifierType (er_Transaction req) = Done verifiersNeeded ->
  AssembleTransaction n name fuel (er_Transaction req) (er_ResolvedVerifiers req) s = (s', Done (ASSEMBLE_OK a)) -> presents l a req ->
  EndorseTransaction n req = Done ENDORSER_SUBMIT.
Proof.
  intros Hl Hv Hn Hpay Hh Hf Hi Hr Hp. destruct (validated_amount _ _ Hv (ex_intro _ _ Hpay)) as (z & Hz & Hpos).
  destruct (assembled_by_handler _ _ _ _ _ _ Hv Hr) as (s1 & Ha). pose proof (validated_from _ _ Hv) as Hfrom.
  unfold InitTransaction in Hi. rewrite Hv in Hi. change (Done tx ≫= ?f) with (f tx) in Hi. cbv beta in Hi.
  unfold EndorseTransaction. rewrite Hv. cbn [endorseRevertOrError]. rewrite Hn. cbn [endorseRevertOrError mret outcome_ret].
  assert (endorseHandler n tx req = Done tt) as ->; [|done].
  unfold endorseHandler, assembleHandler, initHandler, initMint, initTransferFrom, initBurnFrom, initBurn, payment, senderOf in *.
  destruct (pt_Params tx); try discriminate; cbn in Hz; subst; injection Hpay as <-; ran; repeat match goal with u : unit |- _ => destruct u end.
  - rewrite Hfrom in *. by eapply assembleMint_endorsed.
  - eapply assembleTransfer_endorsed; eauto.
  - eapply assembleTransfer_endorsed; eauto.
  - eapply assembleBurn_endorsed; eauto.
  - eapply assembleBurn_endorsed; eauto.
Qed.
End Agreement.

(** ** An instance *)

(** Alice pays seven of her twelve coins of five to Bob. *)
Definition transferOfSeven : NotoTransaction :=
  sampleTransaction "alice@node1" "transfer" [("to", JString "bob@node1"); ("amount", JNumber "7")].

Definition assembledSeven : outcome AssembleResult :=
  (@AssembleTransaction (storeEnv twelveCoins []) sampleNoto "noto" 13 transferOfSeven sampleVerifiers (MkAssembly 0 0 ∅)).2.

(** The request that shows the notary the ten coins of the first page and the two new coins. *)
Definition requestForSeven : EndorseTransactionRequest :=
  MkEndorseTransactionRequest transferOfSeven sampleVerifiers (storedState <$> take 10 twelveCoins) []
    (match assembledSeven with
     | Done (ASSEMBLE_OK a) => zip_with createdState [Bytes32_String (bytes32 "X"); Bytes32_String (bytes32 "Y")] (ap_OutputStates a)
     | _ => []
     end) [] (signedBy alice).

Lemma sampleNotoEnv_lawful : @lawfulLibraries sampleNotoEnv.
Proof.
  split; [intros i; reflexivity|]. intros text a Ha. unfold addressParses. cbn in *. destruct (hexDecode (TrimPrefix0x text)) as [b|]; [|discriminate].
  destruct (Nat.eqb_spec (String.length b) 20) as [Hl|]; [|discriminate]. injection Ha as <-. unfold EthAddress_String.
  change (TrimPrefix0x ("0x" ++ hexEncode b)) with (hexEncode b). rewrite hexDecode_hexEncode. by rewrite (proj2 (Nat.eqb_eq _ _) Hl).
Qed.

Lemma storeEnv_lawful l locked : @lawfulLibraries (storeEnv l locked).
Proof. destruct sampleNotoEnv_lawful as [Hs Ha]. split; [exact Hs|exact Ha]. Qed.

Lemma assembled_payment_endorsed_witness :
  exists a, assembledSeven = Done (ASSEMBLE_OK a) /\ @EndorseTransaction (storeEnv twelveCoins []) sampleNoto requestForSeven = Done ENDORSER_SUBMIT.
Proof.
  destruct (@AssembleTransaction (storeEnv twelveCoins []) sampleNoto "noto" 13 transferOfSeven sampleVerifiers (MkAssembly 0 0 ∅)) as [s' r] eqn:Er.
  destruct (@validateTransaction (storeEnv twelveCoins []) transferOfSeven) as [tx|c m| |] eqn:Htx; [|vm_compute in Htx; discriminate Htx..].
  destruct r as [[a|reason]|c m| |]; [|vm_compute in Er; discriminate Er..].
  exists a. split; [unfold assembledSeven; rewrite Er; reflexivity|].
  eapply (@assembled_payment_endorsed (storeEnv twelveCoins []) sampleNoto "noto" 13 requestForSeven tx (Some "alice@node1") twelveCoins "" "").
  - apply storeEnv_lawful.
  - exact Htx.
  - vm_compute in Htx. injection Htx as <-. reflexivity.
  - vm_compute in Htx. injection Htx as <-. reflexivity.
  - intros from [= <-] id Hid. vm_compute in Hid. injection Hid as <-. exact twelveCoins_held.
  - cbn. lia.
  - vm_compute. reflexivity.
  - exact Er.
  - assert (Ha : assembledSeven = Done (ASSEMBLE_OK a)) by (unfold assembledSeven; rewrite Er; reflexivity).
    split.
    + intros k Hk. assert (Hten : length (ap_InputStates a) = 10%nat) by (vm_compute in Ha; injection Ha as <-; reflexivity).
      rewrite Hk, length_fmap, length_take in Hten. change (length twelveCoins) with 12%nat in Hten. replace k with 10%nat by lia. reflexivity.
    + exists [Bytes32_String (bytes32 "X"); Bytes32_String (bytes32 "Y")]. split_and!.
      * vm_compute in Ha. injection Ha as <-. reflexivity.
      * apply (bool_decide_unpack _). vm_compute. exact I.
      * unfold requestForSeven. cbn [er_Outputs]. rewrite Ha. reflexivity.
    + eexists _, _, _. split_and!; vm_compute; reflexivity.
Defined.
