(* ===== verification/NotoCompletion.v ===== *)
(** * The Noto token: manifests and state completion

    The manifest that an assembly makes names every new state of a transaction with the addresses it
    is distributed to; a node that indexes the transaction reads from it which states it has to wait
    for.  Theorems: a manifest that is read back is the one that was built, and a node waits exactly
    for the states that are distributed to a key of its own.

    Sources: domains/noto/internal/noto/noto.go (CheckStateCompletion, findManifest,
    requiredStateIDs), manifest.go, receipts.go (hasRequiredStates). *)

From S2P Require Import Prelude HexBytes Identity NotoTypes NotoChecks NotoCodec NotoStates NotoSelection NotoAgreement NotoSample.
Open Scope string_scope.
Open Scope list_scope.

(** ** Plain errors

    Paths that do not revert return an error without a category. *)

#[export] Instance res_ret : MRet res := fun A a => Ok a.
#[export] Instance res_bind : MBind res := fun A B f m =>
  match m with Ok a => f a | Err e => Err e | Crash c => Crash c end.

Definition derefR {A} (p : option A) : res A := match p with Some a => Ok a | None => Crash Panic end.
Definition orErr {A} (e : error) (p : option A) : res A := match p with Some a => Ok a | None => Err e end.

Lemma bind_Ok {A B} (m : res A) (f : A -> res B) b : (m ≫= f) = Ok b <-> exists a, m = Ok a /\ f a = Ok b.
Proof. split; [destruct m; try done; intros Hf; eauto|by intros (a & -> & Hf)]. Qed.

(** ** Manifests (pkg/types/states.go) *)

(** Slices of pointers. *)
Record NotoManifestStateEntry : Type := MkNotoManifestStateEntry { me_ID : Bytes32; me_Participants : list (option EthAddress) }.
Record NotoManifest : Type := MkNotoManifest { mf_Salt : Bytes32; mf_States : list (option NotoManifestStateEntry) }.

(** What the node is told about a state that is not there. *)
Record UnavailableStates : Type := MkUnavailableStates {
  us_FirstUnavailableId : option string; us_InputStateIds : list string; us_ReadStateIds : list string;
  us_OutputStateIds : list string; us_InfoStateIds : list string }.

Record CheckStateCompletionRequest : Type := MkCheckStateCompletionRequest {
  cr_InfoStates : list NotoState; cr_UnavailableStates : option UnavailableStates }.

Record ReverseKeyLookupResult : Type := MkReverseKeyLookupResult { kl_Verifier : string; kl_Found : bool; kl_KeyIdentifier : option string }.

Section Completion.
Context `{NotoEnv} (n : Noto).
(** The callback [ReverseKeyLookup], given the addresses, and the order in which a map of them is
    ranged over. *)
Context (ReverseKeyLookup : list string -> res (list ReverseKeyLookupResult)) (range : list string -> list string).

Definition fieldAddresses (name : string) (o : list (string * json)) : option (list (option EthAddress)) :=
  match member name o with
  | None => Some []
  | Some (JArray l) =>
      mapM (fun v => match v with JNull => Some None | JString s => Some <$> nenv_NewAddress s | _ => None end) l
  | Some _ => None
  end.

Definition unmarshalEntry (v : json) : option (option NotoManifestStateEntry) :=
  match v with
  | JNull => Some None
  | JObject e => id ← fieldBytes32 "state" e; participants ← fieldAddresses "participants" e; Some (Some (MkNotoManifestStateEntry id participants))
  | _ => None
  end.

(** [json.Unmarshal] into a [NotoManifest] *)
Definition unmarshalManifest (text : StateDataJson) : option NotoManifest :=
  o ← decodeStruct text;
  salt ← fieldBytes32 "salt" o;
  states ← match member "states" o with None => Some [] | Some (JArray l) => mapM unmarshalEntry l | Some _ => None end;
  Some (MkNotoManifest salt states).

Definition findManifest (infoStates : list NotoState) : option NotoState :=
  List.find (fun s => String.eqb (ns_SchemaId s) (n_manifestSchema n)) infoStates.

Definition joined {A} (l : list (list A)) : list A := mjoin l.

Fixpoint mapR {A B} (f : A -> res B) (l : list A) : res (list B) :=
  match l with
  | [] => mret []
  | x :: rest => y ← f x; ys ← mapR f rest; mret (y :: ys)
  end.

(** The text forms of an entry's participants: [target.String()] on a nil pointer panics. *)
Definition entryTargets (e : option NotoManifestStateEntry) : res (Bytes32 * list string) :=
  entry ← derefR e; targets ← mapR (fun p => a ← derefR p; mret (EthAddress_String a)) (me_Participants entry); mret (me_ID entry, targets).

(** The ids that one participant asks for: one for each key that is found, whose identifier is logged. *)
Definition requiredBy (id : Bytes32) (target : string) (keyLookup : ReverseKeyLookupResult) : res (list string) :=
  if (String.eqb target (kl_Verifier keyLookup) && kl_Found keyLookup)%bool then
    derefR (kl_KeyIdentifier keyLookup) ≫= fun _ => mret [Bytes32_String id]
  else mret [].

Definition requiredFor (results : list ReverseKeyLookupResult) (id : Bytes32) (target : string) : res (list string) :=
  ids ← mapR (requiredBy id target) results; mret (joined ids).

Definition requiredStateIDs (manifestState : NotoState) : res (list string) :=
  manifest ← orErr (ErrExternal "MsgInvalidManifestState") (unmarshalManifest (ns_StateDataJson manifestState));
  entries ← mapR entryTargets (mf_States manifest);
  lookupRes ← ReverseKeyLookup (range (dedupe [] (joined (snd <$> entries))));
  required ← mapR (fun e => ids ← mapR (requiredFor lookupRes e.1) e.2; mret (joined ids)) entries;
  mret (joined required).

Definition isUnavailable (u : UnavailableStates) (id : string) : bool :=
  (existsb (String.eqb id) (us_InfoStateIds u) || existsb (String.eqb id) (us_InputStateIds u)
   || existsb (String.eqb id) (us_OutputStateIds u) || existsb (String.eqb id) (us_ReadStateIds u))%bool.

(** [CheckStateCompletion]: the state to wait for. *)
Definition CheckStateCompletion (req : CheckStateCompletionRequest) : res (option string) :=
  match cr_UnavailableStates req with
  | None => mret None
  | Some u =>
      match us_FirstUnavailableId u, findManifest (cr_InfoStates req) with
      | None, _ => mret None
      | Some first, None => mret (Some first)
      | Some _, Some manifestState => required ← requiredStateIDs manifestState; mret (List.find (isUnavailable u) required)
      end
  end.

(** ** What a node waits for *)

(** The node knows which keys are its own: it answers each lookup, and a key that is found has an
    identifier. *)
Definition knowsKeys (own : string -> bool) : Prop :=
  forall addresses, exists results, ReverseKeyLookup addresses = Ok results /\
    Forall2 (fun a r => kl_Verifier r = a /\ kl_Found r = own a /\ (own a = true -> is_Some (kl_KeyIdentifier r))) addresses results.

Lemma mapR_spec {A B} (f : A -> res B) (g : A -> B) l : (forall x, x ∈ l -> f x = Ok (g x)) -> mapR f l = Ok (g <$> l).
Proof. induction l as [|x l IH]; intros Hf; [done|]. cbn. rewrite Hf by left. cbn. rewrite IH; [done|]. intros y Hy. apply Hf. by right. Qed.

Lemma dedupe_elem l : forall seen x, x ∈ dedupe seen l <-> x ∈ l /\ x ∉ seen.
Proof.
  induction l as [|y l IH]; intros seen x; cbn; [set_solver|]. destruct (existsb (String.eqb y) seen) eqn:E.
  - apply existsb_exists in E as (z & Hz & <-%String.eqb_eq). apply list_elem_of_In in Hz. rewrite IH. set_solver.
  - rewrite elem_of_cons, IH. assert (y ∉ seen).
    { intros Hy. assert (existsb (String.eqb y) seen = true); [|congruence]. apply existsb_exists. exists y. rewrite String.eqb_refl. by rewrite <- list_elem_of_In. }
    rewrite !elem_of_cons. split; [intros [->|[? ?]]; set_solver|]. intros [[->|Hx] Hs]; [by left|]. destruct (String.eq_dec x y); [by left|right; set_solver].
Qed.

(** A participant whose key is the node's own, and no other, asks for the state. *)
Lemma requiredFor_spec own addresses results id target :
  Forall2 (fun a r => kl_Verifier r = a /\ kl_Found r = own a /\ (own a = true -> is_Some (kl_KeyIdentifier r))) addresses results ->
  target ∈ addresses -> exists ids, requiredFor results id target = Ok ids /\ (forall x, x ∈ ids <-> x = Bytes32_String id /\ own target = true).
Proof.
  intros Hf Hin.
  assert (Hm : exists ids, mapR (requiredBy id target) results = Ok ids /\
      (forall x, x ∈ joined ids <-> x = Bytes32_String id /\ own target = true /\ target ∈ addresses)).
  { clear Hin. induction Hf as [|a r addresses results (Hv & Hk & Hi) _ IH]; [exists []; split; [done|set_solver]|].
    destruct IH as (ids & IH & Hx). cbn [mapR]. rewrite IH. unfold requiredBy. rewrite Hv, Hk. destruct (String.eqb_spec target a) as [->|Hne]; cbn [andb].
    - destruct (own a) eqn:Eo; cbn.
      + destruct Hi as [k ->]; [done|]. cbn. eexists. split; [done|]. intros x. cbn. rewrite elem_of_cons. set_solver.
      + eexists. split; [done|]. intros x. cbn. rewrite Hx. split; [intros (? & [=] & _)|intros (_ & [=] & _)].
    - eexists. split; [done|]. intros x. cbn. rewrite Hx. set_solver. }
  destruct Hm as (ids & Hm & Hx). unfold requiredFor. rewrite Hm. cbn. eexists. split; [done|]. intros x. rewrite Hx. tauto.
Qed.

Lemma mapR_Ok {A B} (f : A -> res B) (P : A -> B -> Prop) l : (forall x, x ∈ l -> exists y, f x = Ok y /\ P x y) -> exists ys, mapR f l = Ok ys /\ Forall2 P l ys.
Proof.
  induction l as [|x l IH]; intros Hf; [by exists []|]. destruct (Hf x) as (y & Hy & Hp); [left|]. destruct IH as (ys & Hys & Hps); [intros; apply Hf; by right|].
  exists (y :: ys). cbn. rewrite Hy. cbn. rewrite Hys. by split; [|constructor].
Qed.

Lemma joined_elem {A B} (P : A -> list B -> Prop) (Q : A -> B -> Prop) l ys x :
  Forall2 P l ys -> (forall a b, P a b -> x ∈ b <-> Q a x) -> x ∈ joined ys <-> exists a, a ∈ l /\ Q a x.
Proof.
  intros Hf HP. induction Hf as [|a b l ys Hab _ IH]; cbn; [set_solver|]. rewrite elem_of_app, (HP a b Hab), IH. split.
  - intros [HQ|(a' & Hin & HQ)]; [exists a|exists a']; split; [left|done|by right|done].
  - intros (a' & [->|Hin]%elem_of_cons & HQ); [by left|right; by exists a'].
Qed.

(** An entry that the node's keys take part in. *)
Definition ownEntry (own : string -> bool) (e : Bytes32 * list EthAddress) : Prop := exists a, a ∈ e.2 /\ own (EthAddress_String a) = true.

(** A manifest that has the entries. *)
Definition lists (text : StateDataJson) (entries : list (Bytes32 * list EthAddress)) : Prop :=
  exists salt, unmarshalManifest text = Some (MkNotoManifest salt ((fun e => Some (MkNotoManifestStateEntry e.1 (Some <$> e.2))) <$> entries)).

Lemma requiredStateIDs_spec own manifestState entries :
  knowsKeys own -> (forall l, range l ≡ₚ l) -> lists (ns_StateDataJson manifestState) entries ->
  exists ids, requiredStateIDs manifestState = Ok ids /\ (forall x, x ∈ ids <-> exists e, e ∈ entries /\ x = Bytes32_String e.1 /\ ownEntry own e).
Proof.
  intros Hk Hr (salt & Hm). unfold requiredStateIDs. rewrite Hm. cbn [orErr]. change (Ok ?m ≫= ?f) with (f m). cbv beta. cbn [mf_States].
  set (targets := fun e : Bytes32 * list EthAddress => (e.1, EthAddress_String <$> e.2)).
  assert (He : mapR entryTargets ((fun e => Some (MkNotoManifestStateEntry e.1 (Some <$> e.2))) <$> entries) = Ok (targets <$> entries)).
  { clear. induction entries as [|e entries IH]; [done|]. cbn. rewrite (mapR_spec _ (fun p => EthAddress_String (default "" p))).
    - cbn. rewrite IH. cbn. unfold targets at 2. do 3 f_equal. rewrite <- list_fmap_compose. by apply list_fmap_ext.
    - intros p (a & -> & _)%list_elem_of_fmap. done. }
  rewrite He. change (Ok ?m ≫= ?f) with (f m). cbv beta. set (addrs := range (dedupe [] (joined (snd <$> (targets <$> entries))))).
  destruct (Hk addrs) as (results & -> & Hres). change (Ok ?m ≫= ?f) with (f m). cbv beta.
  destruct (mapR_Ok (fun e => ids ← mapR (requiredFor results e.1) e.2; mret (joined ids))
              (fun e ids => forall x, x ∈ ids <-> x = Bytes32_String e.1 /\ exists t, t ∈ e.2 /\ own t = true) (targets <$> entries)) as (ys & Hys & Hf).
  { intros e He'. destruct (mapR_Ok (requiredFor results e.1) (fun t ids => forall x, x ∈ ids <-> x = Bytes32_String e.1 /\ own t = true) e.2) as (zs & Hzs & Hf).
    - intros t Ht. apply (requiredFor_spec own addrs); [done|]. unfold addrs. rewrite Hr, dedupe_elem. split; [|set_solver].
      apply list_elem_of_join. exists e.2. split; [done|]. by apply list_elem_of_fmap_2.
    - rewrite Hzs. eexists. split; [done|]. intros x. rewrite (joined_elem _ (fun t x => x = Bytes32_String e.1 /\ own t = true) _ _ _ Hf); [|auto].
      split; [intros (t & ? & ? & ?); eauto|intros (? & t & ? & ?); eauto]. }
  rewrite Hys. eexists. split; [done|]. intros x.
  rewrite (joined_elem _ (fun e x => x = Bytes32_String e.1 /\ exists t, t ∈ e.2 /\ own t = true) _ _ _ Hf); [|auto]. split.
  - intros (e' & (e & -> & Hin)%list_elem_of_fmap & Hx & t & (a & -> & Ha)%list_elem_of_fmap & Ho). exists e. split_and!; [done|done|]. by exists a.
  - intros (e & Hin & Hx & a & Ha & Ho). exists (targets e). split_and!; [by apply list_elem_of_fmap_2|done|]. exists (EthAddress_String a).
    split; [by apply list_elem_of_fmap_2|done].
Qed.

(** ** Manifests that are read back *)

(** The id that a new state was given. *)
Definition stateID (s : Assembly) (state : NewState) (id : Bytes32) : Prop :=
  exists text, as_ids s !! nw_ref state = Some text /\ ParseBytes32Ctx text = Ok id.

Definition partiesParse (mb : manifestBuilder) : Prop :=
  forall e p, e ∈ manifestEntries mb -> Some p ∈ e.2 -> addressParses (ip_address p).

Lemma parsed_length text id : ParseBytes32Ctx text = Ok id -> String.length id = 32%nat.
Proof.
  unfold ParseBytes32Ctx. destruct (hexDecode _) as [h|]; [|discriminate]. destruct (Nat.eqb_spec (String.length h) 32); [|discriminate]. by intros [= <-].
Qed.

Lemma derefAll_spec {A} (l : list (option A)) r : derefAll l = Done r -> l = Some <$> r.
Proof.
  revert r. induction l as [|x l IH]; intros r Hr; cbn in Hr; [by injection Hr as <-|]. apply NotoBalance.bind_Done in Hr as (a & Ha & Hr).
  apply NotoBalance.bind_Done in Hr as (r' & Hr' & Hr). injection Hr as <-. apply NotoBalance.deref_Done in Ha as ->. cbn. f_equal. by apply IH.
Qed.

Lemma addresses_elem dist ps a : addresses dist = Done ps -> a ∈ ps <-> exists p, Some p ∈ dist /\ ip_address p = a.
Proof.
  unfold addresses. intros (l & Hl & Hp)%NotoBalance.bind_Done. injection Hp as <-. apply derefAll_spec in Hl as ->. rewrite dedupe_elem, list_elem_of_fmap. split.
  - intros [(p & -> & Hp) _]. exists p. split; [by apply list_elem_of_fmap_2|done].
  - intros (p & (q & [= ->] & Hq)%list_elem_of_fmap & <-). split; [eauto|set_solver].
Qed.

(** An entry of the manifest as it is written. *)
Lemma manifestEntry_spec e s s' v :
  manifestEntry e s = (s', Done v) -> s' = s /\ exists id ps, stateID s e.1 id /\ addresses e.2 = Done ps /\
    v = JObject [("state", jsonBytes32 id); ("participants", JArray (jsonAddress ∘ Some <$> ps))].
Proof.
  intros Hr. unfold manifestEntry in Hr. apply bind_AM in Hr as (s1 & text & Ht & Hr). unfold allocatedID in Ht. injection Ht as <- Ht.
  apply NotoBalance.deref_Done in Ht. apply bind_AM in Hr as (s2 & id & Hid & Hr). apply liftA_Done in Hid as [Hid ->].
  apply bind_AM in Hr as (s3 & ps & Hps & Hr). apply liftA_Done in Hps as [Hps ->]. apply mret_AM in Hr as [<- ->]. split; [done|].
  exists id, ps. split_and!; [|done|done]. exists text. split; [done|]. by destruct (ParseBytes32Ctx text); [injection Hid as ->|..].
Qed.

Lemma entry_read_back id ps :
  String.length id = 32%nat -> Forall addressParses ps ->
  unmarshalEntry (JObject [("state", jsonBytes32 id); ("participants", JArray (jsonAddress ∘ Some <$> ps))]) = Some (Some (MkNotoManifestStateEntry id (Some <$> ps))).
Proof.
  intros Hl Hp. unfold unmarshalEntry, fieldBytes32, fieldAddresses. cbn. rewrite parse_Bytes32_String by done. cbn.
  assert (Hm : mapM (fun v => match v with JNull => Some None | JString s => Some <$> nenv_NewAddress s | _ => None end) (jsonAddress ∘ Some <$> ps) = Some (Some <$> ps)).
  { clear Hl. induction Hp as [|a ps Ha _ IH]; [done|]. cbn. rewrite Ha. cbn. rewrite IH. done. }
  rewrite Hm. done.
Qed.

(** The entries of a manifest, for the states they are about. *)
Definition entriesFor (s : Assembly) (states : list (NewState * list (option identityPair))) (entries : list (Bytes32 * list EthAddress)) : Prop :=
  Forall2 (fun e x => stateID s e.1 x.1 /\ addresses e.2 = Done x.2) states entries.

Lemma forStates_entries states : forall s s' vs,
  (forall e p, e ∈ states -> Some p ∈ e.2 -> addressParses (ip_address p)) -> forStates manifestEntry states s = (s', Done vs) ->
  s' = s /\ exists entries, entriesFor s states entries /\ mapM unmarshalEntry vs = Some ((fun e => Some (MkNotoManifestStateEntry e.1 (Some <$> e.2))) <$> entries).
Proof.
  induction states as [|e states IH]; intros s s' vs Hp Hr; cbn [forStates] in Hr.
  { apply mret_AM in Hr as [<- ->]. split; [done|]. exists []. by split; [constructor|]. }
  apply bind_AM in Hr as (s1 & v & Hv & Hr). apply manifestEntry_spec in Hv as (-> & id & ps & Hid & Hps & ->).
  apply bind_AM in Hr as (s2 & vs' & Hvs & Hr). apply mret_AM in Hr as [<- ->]. apply IH in Hvs as (-> & entries & He & Hm); [|intros e' p He'; apply Hp; by right].
  split; [done|]. exists ((id, ps) :: entries). split; [by constructor|]. cbn [mapM]. rewrite entry_read_back, Hm; [done|by destruct Hid as (t & _ & ?%parsed_length)|].
  apply Forall_forall. intros a Ha. apply (addresses_elem _ _ _ Hps) in Ha as (p & Hin & <-). apply (Hp e); [left|done].
Qed.

Lemma manifest_read_back mb s s' m :
  lawfulLibraries -> partiesParse mb -> buildManifest n mb s = (s', Done m) ->
  exists entries, lists (nw_StateDataJson m) entries /\ entriesFor s' (manifestEntries mb) entries.
Proof.
  intros Hl Hp Hr. unfold buildManifest in Hr. apply bind_AM in Hr as (s1 & [] & _ & Hr). apply bind_AM in Hr as (s2 & salt & Hsalt & Hr).
  unfold randBytes32 in Hsalt. injection Hsalt as <- Hsalt. apply bind_AM in Hr as (s3 & vs & Hvs & Hr). apply forStates_entries in Hvs as (-> & entries & He & Hm); [|exact Hp].
  apply bind_AM in Hr as (s4 & ids & Hids & Hr). apply liftA_Done in Hids as [_ ->]. unfold newState in Hr. injection Hr as <- <-.
  exists entries. split; [|exact He]. exists salt. unfold unmarshalManifest, fieldBytes32. cbn. rewrite parse_Bytes32_String by (subst; apply Hl). cbn. by rewrite Hm.
Qed.

(** Some key of the node is among the parties. *)
Definition ownParty (own : string -> bool) (dist : list (option identityPair)) : Prop := exists p, Some p ∈ dist /\ own (EthAddress_String (ip_address p)) = true.

Lemma ownEntry_party own s states entries :
  entriesFor s states entries ->
  forall x, (exists e, e ∈ entries /\ x = Bytes32_String e.1 /\ ownEntry own e) <->
            (exists e id, e ∈ states /\ stateID s e.1 id /\ x = Bytes32_String id /\ ownParty own e.2).
Proof.
  intros Hf x. assert (Hiff : forall e x', addresses e = Done x' -> (exists a, a ∈ x' /\ own (EthAddress_String a) = true) <-> ownParty own e).
  { intros e x' Hx. split.
    - intros (a & (p & Hp & <-)%(addresses_elem _ _ _ Hx) & Ho). by exists p.
    - intros (p & Hp & Ho). exists (ip_address p). split; [apply (addresses_elem _ _ _ Hx); eauto|done]. }
  split.
  - intros (e & Hin & Hx & Ho). apply list_elem_of_lookup in Hin as (i & Hi). destruct (Forall2_lookup_r _ _ _ _ _ Hf Hi) as (st & Hst & Hid & Ha).
    exists st, e.1. split_and!; [by eapply list_elem_of_lookup_2|done|done|]. by apply (Hiff st.2 e.2 Ha).
  - intros (st & id & Hin & Hid & Hx & Ho). apply list_elem_of_lookup in Hin as (i & Hi). destruct (Forall2_lookup_l _ _ _ _ _ Hf Hi) as (e & He & (t & Ht & Hp) & Ha).
    exists e. split_and!; [by eapply list_elem_of_lookup_2| |by apply (Hiff st.2 e.2 Ha)]. destruct Hid as (t' & Ht' & Hp'). rewrite Ht in Ht'. injection Ht' as <-.
    rewrite Hp in Hp'. injection Hp' as <-. done.
Qed.

(** A node that has the manifest of a transaction waits exactly for the states that were
    distributed to a key of its own: it waits for none of them when and only when all of them are
    there, and a state it waits for is one of them that is not. *)
Theorem node_waits_for_its_states own mb s s' m manifestState u req :
  lawfulLibraries -> partiesParse mb -> knowsKeys own -> (forall l, range l ≡ₚ l) ->
  buildManifest n mb s = (s', Done m) -> ns_StateDataJson manifestState = nw_StateDataJson m ->
  findManifest (cr_InfoStates req) = Some manifestState -> cr_UnavailableStates req = Some u -> is_Some (us_FirstUnavailableId u) ->
  exists r, CheckStateCompletion req = Ok r /\
    (r = None <-> forall e id, e ∈ manifestEntries mb -> ownParty own e.2 -> stateID s' e.1 id -> isUnavailable u (Bytes32_String id) = false) /\
    (forall x, r = Some x -> isUnavailable u x = true /\ exists e id, e ∈ manifestEntries mb /\ ownParty own e.2 /\ stateID s' e.1 id /\ x = Bytes32_String id).
Proof.
  intros Hl Hp Hk Hr Hb Hm Hf Hu [first Hfirst]. destruct (manifest_read_back _ _ _ _ Hl Hp Hb) as (entries & Hlist & He). rewrite <- Hm in Hlist.
  destruct (requiredStateIDs_spec _ _ _ Hk Hr Hlist) as (ids & Hids & Hx). unfold CheckStateCompletion. rewrite Hu, Hfirst, Hf, Hids.
  eexists. split; [done|]. setoid_rewrite (ownEntry_party _ _ _ _ He) in Hx. split; [split|].
  - intros Hnone e id Hin Ho Hid. destruct (isUnavailable u (Bytes32_String id)) eqn:E; [|done].
    eapply find_none in Hnone; [|apply list_elem_of_In, Hx; by exists e, id]. congruence.
  - intros Hall. destruct (List.find (isUnavailable u) ids) as [x|] eqn:E; [|done]. apply find_some in E as [(e & id & Hin & Hid & -> & Ho)%list_elem_of_In%Hx Ht].
    by rewrite (Hall e id) in Ht.
  - intros x E. apply find_some in E as [(e & id & Hin & Hid & -> & Ho)%list_elem_of_In%Hx Ht]. split; [done|]. by exists e, id.
Qed.
End Completion.

(** ** An instance *)

(** A coin for Bob that Alice made, and the manifest of it. *)
Definition bobCoin : NewState := MkNewState 0 "coin" (marshalCoin (MkNotoCoin (bytes32 "s") (Some bob) (Some 5%Z))) ["alice@node1"; "bob@node1"] [].
Definition bobManifest : manifestBuilder :=
  addOutputs (MkPreparedOutputs [[Some aliceID; Some (MkIdentityPair "bob@node1" bob)]] [] [bobCoin]) newManifestBuilder.

Definition bobsKey (address : string) : bool := String.eqb address (EthAddress_String bob).
Definition bobsKeys (addresses : list string) : res (list ReverseKeyLookupResult) :=
  Ok ((fun a => MkReverseKeyLookupResult a (bobsKey a) (Some "bob")) <$> addresses).

(** Bob's node has the manifest and not the coin, which has the id "0". *)
Definition missingCoin : UnavailableStates := MkUnavailableStates (Some (Bytes32_String (bytes32 "0"))) [] [] [Bytes32_String (bytes32 "0")] [].
Definition bobsRequest (manifest : StateDataJson) : CheckStateCompletionRequest :=
  MkCheckStateCompletionRequest [MkNotoState (Bytes32_String (bytes32 "M")) "manifest" manifest] (Some missingCoin).

Lemma node_waits_for_its_states_witness :
  exists s' m, buildManifest sampleNoto bobManifest (MkAssembly 0 1 ∅) = (s', Done m) /\
    CheckStateCompletion sampleNoto bobsKeys id (bobsRequest (nw_StateDataJson m)) = Ok (Some (Bytes32_String (bytes32 "0"))) /\
    exists e, e ∈ manifestEntries bobManifest /\ ownParty bobsKey e.2.
Proof.
  destruct (buildManifest sampleNoto bobManifest (MkAssembly 0 1 ∅)) as [s' [m|c e| |]] eqn:Eb; [|vm_compute in Eb; discriminate Eb..].
  exists s', m. split; [reflexivity|].
  destruct (node_waits_for_its_states sampleNoto bobsKeys id bobsKey bobManifest (MkAssembly 0 1 ∅) s' m
              (MkNotoState (Bytes32_String (bytes32 "M")) "manifest" (nw_StateDataJson m)) missingCoin (bobsRequest (nw_StateDataJson m))) as (r & Hr & _ & Hs).
  - exact sampleNotoEnv_lawful.
  - intros e p [->|Hn]%elem_of_cons Hp; [|inversion Hn]. cbn in Hp. apply elem_of_cons in Hp as [[= ->]|[[= ->]|Hn]%elem_of_cons]; [reflexivity..|inversion Hn].
  - intros l. eexists. split; [reflexivity|]. induction l as [|a l IH]; [constructor|]. cbn. constructor; [|exact IH]. cbn. split_and!; [done|done|]. by eexists.
  - intros l. reflexivity.
  - exact Eb.
  - reflexivity.
  - reflexivity.
  - reflexivity.
  - by eexists.
  - assert (Hc : CheckStateCompletion sampleNoto bobsKeys id (bobsRequest (nw_StateDataJson m)) = Ok (Some (Bytes32_String (bytes32 "0")))).
    { vm_compute in Eb. injection Eb as <- <-. vm_compute. reflexivity. }
    split; [exact Hc|]. rewrite Hc in Hr. injection Hr as <-. destruct (Hs _ eq_refl) as (_ & e & id & Hin & Ho & _). by exists e.
Defined.
