(* ===== verification/NotoReceipts.v ===== *)
(** * The Noto token: receipts

    The receipt of a Noto transaction, built from the states of it that the node has: the states by
    kind, the transfers they amount to, the data, and for a lock the calls that spend or cancel it.

    Sources: domains/noto/internal/noto/receipts.go, noto.go (extractLockInfoV0), states.go
    (endorsableStateIDs), pkg/types/states.go. *)

From S2P Require Import Prelude HexBytes Identity NotoTypes NotoChecks NotoBalance NotoSample NotoStates NotoCompletion.
Open Scope string_scope.
Open Scope list_scope.

(** ** Data (pkg/types/states.go) *)

Record ReceiptTransfer : Type := MkReceiptTransfer { rt_From : option EthAddress; rt_To : option EthAddress; rt_Amount : Z }.

Record ReceiptState : Type := MkReceiptState { rs_ID : string; rs_Schema : Bytes32; rs_Data : StateDataJson }.

Record ReceiptStates : Type := MkReceiptStates {
  rs_Inputs : list ReceiptState; rs_LockedInputs : list ReceiptState; rs_Outputs : list ReceiptState; rs_LockedOutputs : list ReceiptState;
  rs_ReadInputs : list ReceiptState; rs_ReadLockedInputs : list ReceiptState; rs_PreparedOutputs : list ReceiptState;
  rs_PreparedLockedOutputs : list ReceiptState; rs_UpdatedLockInfo : list ReceiptState }.

(** The calls that the receipt of a prepared lock has, with their parameters. *)
Inductive UnlockCallParams : Type :=
| UnlockParams_V0 (txId : Bytes32) (lockedInputs lockedOutputs outputs : list string) (data : string)
| SpendLockParams (lockId : Bytes32) (spendArgs : string) (data : string)
| CancelLockParams (lockId : Bytes32) (cancelArgs : string) (data : string).

Record ReceiptLockInfo : Type := MkReceiptLockInfo {
  rl_LockID : Bytes32; rl_Delegate : option EthAddress; rl_SpendTxId : option Bytes32;
  rl_Unlock : option (UnlockCallParams * string); rl_Cancel : option (UnlockCallParams * string) }.

Record NotoDomainReceipt : Type := MkNotoDomainReceipt {
  nr_States : ReceiptStates; nr_Transfers : list ReceiptTransfer; nr_LockInfo : option ReceiptLockInfo;
  nr_Data : string; nr_Sender : option EthAddress }.

Record BuildReceiptRequest : Type := MkBuildReceiptRequest {
  br_InputStates : list NotoState; br_ReadStates : list NotoState; br_OutputStates : list NotoState; br_InfoStates : list NotoState;
  br_UnavailableStates : bool }.

(** An error without its category. *)
Definition plainly {A} (r : outcome A) : res A :=
  match r with Done a => Ok a | Fail _ message => Err (ErrExternal message) | Panicked => Crash Panic | Running => Crash OutOfFuel end.

(** ** Transfers *)

(** What the coins come to: who pays, what is left of the inputs, who is paid, and whether the inputs
    are of one owner. *)
Record flow : Type := MkFlow { fl_from : option EthAddress; fl_fromAmount : Z; fl_to : gmap string Z; fl_ok : bool }.

(** [parsedOK && parseInput(coin.Owner, coin.Amount.Int())] *)
Definition parseInput (f : flow) (coin : option EthAddress * Z) : flow :=
  if negb (fl_ok f) then f
  else
    match fl_from f with
    | None => MkFlow coin.1 (fl_fromAmount f + coin.2) (fl_to f) true
    | Some from =>
        if addressEquals coin.1 (Some from) then MkFlow (fl_from f) (fl_fromAmount f + coin.2) (fl_to f) true
        else MkFlow (fl_from f) (fl_fromAmount f) (fl_to f) false
    end.

(** [parsedOK && parseOutput( *coin.Owner, coin.Amount.Int())] *)
Definition parseOutput (f : flow) (coin : option EthAddress * Z) : res flow :=
  if negb (fl_ok f) then mret f
  else
    owner ← derefR coin.1;
    if addressEquals (Some owner) (fl_from f) then mret (MkFlow (fl_from f) (fl_fromAmount f - coin.2) (fl_to f) true)
    else mret (MkFlow (fl_from f) (fl_fromAmount f) (<[owner := (default 0 (fl_to f !! owner) + coin.2)%Z]> (fl_to f)) true).

Fixpoint parseOutputs (f : flow) (coins : list (option EthAddress * Z)) : res flow :=
  match coins with
  | [] => mret f
  | coin :: rest => f' ← parseOutput f coin; parseOutputs f' rest
  end.

(** The coins of a list, then its locked coins, with owner and amount. *)
Definition coinFlow (l : parsedCoins) : list (option EthAddress * Z) :=
  ((fun c => (nc_Owner c, default 0%Z (nc_Amount c))) <$> pc_coins l) ++ ((fun c => (nl_Owner c, default 0%Z (nl_Amount c))) <$> pc_lockedCoins l).

Section Receipts.
Context `{NotoEnv} (n : Noto).
(** The order in which the map of recipients is ranged over. *)
Context (rangeTo : list (string * Z) -> list (string * Z)).

Definition transfersOf (f : flow) : list ReceiptTransfer :=
  match fl_from f with
  | Some from =>
      if (bool_decide (fl_to f = ∅) && negb (fl_fromAmount f =? 0)%Z)%bool then [MkReceiptTransfer (Some from) None (fl_fromAmount f)]
      else (fun e => MkReceiptTransfer (Some from) (Some e.1) e.2) <$> List.filter (fun e => negb (e.2 =? 0)%Z) (rangeTo (map_to_list (fl_to f)))
  | None => (fun e => MkReceiptTransfer None (Some e.1) e.2) <$> List.filter (fun e => negb (e.2 =? 0)%Z) (rangeTo (map_to_list (fl_to f)))
  end.

Definition coinSchemas : list string := [n_coinSchema n; n_lockedCoinSchema n].

Definition receiptTransfers (inputs outputs : list NotoState) : res (list ReceiptTransfer) :=
  inputCoins ← plainly (parseCoinList n (filterSchema inputs coinSchemas));
  outputCoins ← plainly (parseCoinList n (filterSchema outputs coinSchemas));
  let f := foldl parseInput (MkFlow None 0 ∅ true) (coinFlow inputCoins) in
  f' ← parseOutputs f (coinFlow outputCoins);
  mret (if fl_ok f' then transfersOf f' else []).

(** *** What the transfers come to *)

Definition totalOf (coins : list (option EthAddress * Z)) : Z := foldr (fun c acc => c.2 + acc)%Z 0%Z coins.

(** What the coins of one owner come to. *)
Definition paidTo (a : EthAddress) (coins : list (option EthAddress * Z)) : Z :=
  foldr (fun c acc => (if addressEquals c.1 (Some a) then c.2 else 0) + acc)%Z 0%Z coins.

(** The payer: the owner of every input, nobody if there are none. *)
Definition paidBy (from : option EthAddress) (inputs : list (option EthAddress * Z)) : Prop :=
  match inputs with [] => from = None | _ => is_Some from /\ Forall (fun c => c.1 = from) inputs end.

Lemma parseInputs_spec from inputs : paidBy from inputs -> foldl parseInput (MkFlow None 0 ∅ true) inputs = MkFlow from (totalOf inputs) ∅ true.
Proof.
  destruct inputs as [|[o z] inputs]; [by intros ->|]. intros [[a ->] Hf]. apply Forall_cons in Hf as [Ho Hf]. cbn in Ho. subst o. cbn.
  assert (Hgen : forall t, foldl parseInput (MkFlow (Some a) t ∅ true) inputs = MkFlow (Some a) (t + totalOf inputs) ∅ true).
  { induction Hf as [|[o w] inputs Ho _ IH]; intros t; cbn; [by rewrite Z.add_0_r|]. cbn in Ho. subst o.
    unfold addressEquals. rewrite bool_decide_eq_true_2 by done. rewrite IH. fold (totalOf inputs). f_equal. lia. }
  rewrite Hgen. f_equal.
Qed.

Lemma paidTo_own a z l : paidTo a ((Some a, z) :: l) = (z + paidTo a l)%Z.
Proof. cbn. unfold addressEquals. by rewrite bool_decide_eq_true_2. Qed.

Lemma paidTo_other a b z l : a <> b -> paidTo a ((Some b, z) :: l) = paidTo a l.
Proof. intros Hab. cbn. unfold addressEquals. rewrite bool_decide_eq_false_2 by congruence. done. Qed.

(** The outputs: the payer's reduce what is left, the others are added up by owner. *)
Lemma parseOutputs_spec outputs : Forall (fun c => is_Some c.1) outputs -> forall from amount to, (forall a, from = Some a -> to !! a = None) ->
  exists to', parseOutputs (MkFlow from amount to true) outputs = Ok (MkFlow from (amount - from_option (fun a => paidTo a outputs) 0%Z from)%Z to' true) /\
    (forall a, from = Some a -> to' !! a = None) /\
    (forall a, Some a <> from -> default 0%Z (to' !! a) = (default 0 (to !! a) + paidTo a outputs)%Z) /\
    (to' = ∅ <-> to = ∅ /\ Forall (fun c => c.1 = from) outputs).
Proof.
  induction 1 as [|[o z] outputs [b Hb] _ IH]; intros from amount to Hnone.
  { exists to. cbn. split_and!; [do 2 f_equal; destruct from; cbn; lia|done|intros; lia|by split; [|intros [? _]]]. }
  cbn in Hb. subst o. cbn [parseOutputs]. unfold parseOutput. cbn [fl_ok negb derefR fst snd]. change (Ok b ≫= ?f) with (f b). cbv beta. cbn [fl_from fl_fromAmount fl_to].
  unfold addressEquals at 1. case_bool_decide as Heq.
  - subst from. change (mret ?x ≫= ?f) with (f x). cbv beta. destruct (IH (Some b) (amount - z)%Z to Hnone) as (to' & -> & Hn & Ha & He). exists to'. split_and!.
    + cbn [from_option]. rewrite paidTo_own. do 2 f_equal. lia.
    + done.
    + intros a Hne. rewrite Ha by done. by rewrite paidTo_other by congruence.
    + rewrite He, Forall_cons. cbn. tauto.
  - change (mret ?x ≫= ?f) with (f x). cbv beta.
    destruct (IH from amount (<[b:=(default 0 (to !! b) + z)%Z]> to)) as (to' & -> & Hn & Ha & He).
    { intros a ->. rewrite lookup_insert_ne by congruence. by apply Hnone. }
    exists to'. split_and!.
    + do 2 f_equal. destruct from as [a|]; cbn [from_option]; [|done]. by rewrite paidTo_other by congruence.
    + done.
    + intros a Hne. rewrite Ha by done. destruct (decide (a = b)) as [->|Hab].
      * rewrite lookup_insert_eq, paidTo_own. cbn [default from_option id]. lia.
      * by rewrite lookup_insert_ne, paidTo_other by done.
    + rewrite He, Forall_cons. cbn. split; [intros [Hemp _]; exfalso; by apply insert_non_empty in Hemp|]. intros (_ & Hbf & _). congruence.
Qed.

Lemma filter_elem {A} (f : A -> bool) l x : x ∈ List.filter f l <-> x ∈ l /\ f x = true.
Proof. rewrite !list_elem_of_In. apply filter_In. Qed.

(** The recipients that are listed. *)
Definition payments (from : option EthAddress) (to : gmap string Z) : list ReceiptTransfer :=
  (fun e => MkReceiptTransfer from (Some e.1) e.2) <$> List.filter (fun e => negb (e.2 =? 0)%Z) (rangeTo (map_to_list to)).

Lemma payments_spec from to : (forall l, rangeTo l ≡ₚ l) ->
  NoDup (payments from to) /\ (forall t, t ∈ payments from to <-> exists a z, t = MkReceiptTransfer from (Some a) z /\ to !! a = Some z /\ z <> 0%Z).
Proof.
  intros Hr. split.
  - apply NoDup_fmap_2; [intros [a z] [b w] [= -> ->]; done|]. apply NoDup_ListNoDup, List.NoDup_filter, NoDup_ListNoDup. rewrite Hr. apply NoDup_map_to_list.
  - intros t. unfold payments. rewrite list_elem_of_fmap. setoid_rewrite filter_elem. setoid_rewrite Hr. split.
    + intros ([a z] & -> & Hin & Hz). apply elem_of_map_to_list in Hin. exists a, z. split_and!; [done|done|]. cbn in Hz. by destruct (Z.eqb_spec z 0).
    + intros (a & z & -> & Hin & Hz). exists (a, z). split_and!; [done|by apply elem_of_map_to_list|]. cbn. by destruct (Z.eqb_spec z 0).
Qed.

(** The transfers of a receipt say what the coins come to: with inputs of one owner, there is a
    transfer to every other owner of outputs, of all that they get if that is not zero, and nothing
    else, except that when all outputs go back to the payer (a burn) there is one transfer to nobody,
    of what is missing. *)
Theorem receipt_transfers_net inputs outputs ic oc from :
  (forall l, rangeTo l ≡ₚ l) ->
  parseCoinList n (filterSchema inputs coinSchemas) = Done ic -> parseCoinList n (filterSchema outputs coinSchemas) = Done oc ->
  paidBy from (coinFlow ic) -> Forall (fun c => is_Some c.1) (coinFlow oc) ->
  exists ts, receiptTransfers inputs outputs = Ok ts /\ NoDup ts /\
    (forall t, t ∈ ts <->
       (exists a, t = MkReceiptTransfer from (Some a) (paidTo a (coinFlow oc)) /\ Some a <> from /\ paidTo a (coinFlow oc) <> 0%Z) \/
       (is_Some from /\ Forall (fun c => c.1 = from) (coinFlow oc) /\ t = MkReceiptTransfer from None (totalOf (coinFlow ic) - totalOf (coinFlow oc)) /\
        totalOf (coinFlow ic) <> totalOf (coinFlow oc))).
Proof.
  intros Hr Hic Hoc Hp Ho. unfold receiptTransfers. rewrite Hic, Hoc. cbn [plainly]. change (Ok ?x ≫= ?f) with (f x). cbv beta zeta.
  change (Ok ?x ≫= ?f) with (f x). cbv beta zeta. rewrite (parseInputs_spec _ _ Hp).
  destruct (parseOutputs_spec _ Ho from (totalOf (coinFlow ic)) ∅) as (to & -> & Hn & Ha & He); [intros; apply lookup_empty|].
  change (Ok ?x ≫= ?f) with (f x). cbv beta. cbn [fl_ok]. eexists. split; [reflexivity|].
  assert (Hpay : NoDup (payments from to) /\ (forall t, t ∈ payments from to <->
    exists a, t = MkReceiptTransfer from (Some a) (paidTo a (coinFlow oc)) /\ Some a <> from /\ paidTo a (coinFlow oc) <> 0%Z)).
  { destruct (payments_spec from to Hr) as [Hnd Hpay]. split; [done|]. intros t. rewrite Hpay. split.
    - intros (a & z & -> & Hz & Hne). assert (Hna : Some a <> from) by (intros E; rewrite Hn in Hz by done; discriminate).
      specialize (Ha a Hna). rewrite Hz, lookup_empty in Ha. cbn [default from_option id] in Ha. rewrite Z.add_0_l in Ha. exists a. rewrite <- Ha. done.
    - intros (a & -> & Hna & Hne). specialize (Ha a Hna). rewrite lookup_empty in Ha. cbn [default from_option id] in Ha. rewrite Z.add_0_l in Ha. exists a, (paidTo a (coinFlow oc)). split_and!; [done| |done].
      destruct (to !! a) as [z|]; cbn [default from_option id] in Ha; [by rewrite Ha|congruence]. }
  destruct Hpay as [Hnd Hpay]. unfold transfersOf. cbn [fl_from fl_to fl_fromAmount]. destruct from as [p|].
  2: { fold (payments None to). split; [done|]. intros t. rewrite Hpay. split; [by left|]. intros [?|([? [=]] & _)]. done. }
  cbn [from_option].
  assert (Hsum : Forall (fun c => c.1 = Some p) (coinFlow oc) -> paidTo p (coinFlow oc) = totalOf (coinFlow oc)).
  { clear. induction 1 as [|[o z] l Hx _ IH]; [done|]. cbn in Hx. subst o. rewrite paidTo_own, IH. done. }
  case_bool_decide as Hemp.
  - assert (Hall : Forall (fun c => c.1 = Some p) (coinFlow oc)) by (by apply He). rewrite (Hsum Hall).
    assert (Hnone : forall a, Some a <> Some p -> paidTo a (coinFlow oc) = 0%Z).
    { intros a Hna. specialize (Ha a Hna). rewrite Hemp, !lookup_empty in Ha. cbn in Ha. lia. }
    destruct (Z.eqb_spec (totalOf (coinFlow ic) - totalOf (coinFlow oc)) 0) as [Hz|Hz]; cbn [negb andb].
    + fold (payments (Some p) to). split; [done|]. intros t. rewrite Hpay. split; [by left|]. intros [?|(_ & _ & _ & Hne)]; [done|lia].
    + split; [apply NoDup_singleton|]. intros t. rewrite list_elem_of_singleton. split; [intros ->; right; split_and!; [done|done|done|lia]|].
      intros [(a & _ & Hna & Hne)|(_ & _ & -> & _)]; [by rewrite Hnone in Hne|done].
  - cbn [andb]. fold (payments (Some p) to). split; [done|]. intros t. rewrite Hpay. split; [by left|]. intros [?|(_ & Hall & _)]; [done|]. exfalso. apply Hemp. by apply He.
Qed.
End Receipts.

(** ** Data and lock states *)

(** The last member of the name, null included: null reaches [UnmarshalJSON] where the field is no pointer. *)
Definition memberRaw (name : string) (o : list (string * json)) : option json := snd <$> last (List.filter (fun kv => String.eqb kv.1 name) o).

(** [HexUint64.UnmarshalJSON]: the number has to fit. *)
Definition fieldUint64 (name : string) (o : list (string * json)) : option Z :=
  match memberRaw name o with
  | None => Some 0%Z
  | Some (JString s) | Some (JNumber s) => z ← SetString s; if ((0 <=? z) && (z <? u64_modulus))%Z then Some z else None
  | Some _ => None
  end.

Record TransactionData : Type := MkTransactionData { td_Salt : Bytes32; td_Data : string; td_Variant : Z; td_From : option EthAddress }.
Record NotoLockInfo_V0 : Type := MkNotoLockInfo_V0 { l0_Salt : Bytes32; l0_LockID : Bytes32; l0_Owner : option EthAddress; l0_Delegate : option EthAddress }.

Section BuildReceipt.
Context `{NotoEnv} (n : Noto) (rangeTo : list (string * Z) -> list (string * Z)).
Context (ReverseKeyLookup : list string -> res (list ReverseKeyLookupResult)) (range : list string -> list string).
(** [encodeNotoSpendLockArgs] of transaction id, inputs, outputs and data, the encoding of a call in
    the ABI of a variant, and a new transaction id. *)
Context (encodeNotoSpendLockArgs : Bytes32 -> list string -> list string -> string -> res string)
        (EncodeCallData : Z -> UnlockCallParams -> res string) (newTxId : Bytes32).

Definition unmarshalInfo (text : StateDataJson) : res TransactionData :=
  orErr (ErrExternal "json.Unmarshal")
    (o ← decodeStruct text; salt ← fieldBytes32 "salt" o; data ← fieldHexBytes "data" o; variant ← fieldUint64 "variant" o; from ← fieldAddress "from" o;
     Some (MkTransactionData salt data variant from)).

Definition unmarshalLockV0 (text : StateDataJson) : res NotoLockInfo_V0 :=
  orErr (ErrExternal "json.Unmarshal")
    (o ← decodeStruct text; salt ← fieldBytes32 "salt" o; lockId ← fieldBytes32 "lockId" o; owner ← fieldAddress "owner" o; delegate ← fieldAddress "delegate" o;
     Some (MkNotoLockInfo_V0 salt lockId owner delegate)).

Definition hasRequiredStates (req : BuildReceiptRequest) : res bool :=
  match findManifest n (br_InfoStates req) with
  | None => mret false
  | Some manifestState =>
      required ← requiredStateIDs ReverseKeyLookup range manifestState;
      let available := ns_Id <$> (br_InputStates req ++ br_ReadStates req ++ br_OutputStates req ++ br_InfoStates req) in
      mret (forallb (fun id => existsb (String.eqb id) available) required)
  end.

Definition receiptState (state : NotoState) : res ReceiptState :=
  id ← ParseHexBytes (ns_Id state); schemaID ← ParseBytes32Ctx (ns_SchemaId state);
  mret (MkReceiptState (default "" id) schemaID (ns_StateDataJson state)).

Definition receiptStates (states : list NotoState) : res (list ReceiptState) := mapR receiptState states.

Definition ofSchema (states : list NotoState) (schema : string) : list NotoState := filterSchema states [schema].

(** [endorsableStateIDs] without nullifiers *)
Definition stateIDs (states : list NotoState) : list string := ns_Id <$> states.

Definition receiptLockInfoV0 (req : BuildReceiptRequest) (states : ReceiptStates) (receiptData : string) : res (option ReceiptLockInfo) :=
  match ofSchema (br_InfoStates req) (n_lockInfoSchemaV0 n) with
  | [lockState] =>
      lock ← unmarshalLockV0 (ns_StateDataJson lockState);
      if negb (noneOf (rs_ReadLockedInputs states)) && negb (noneOf (rs_PreparedOutputs states)) then
        let params := UnlockParams_V0 newTxId (stateIDs (ofSchema (br_ReadStates req) (n_lockedCoinSchema n)))
                        (stateIDs (ofSchema (br_InfoStates req) (n_lockedCoinSchema n))) (stateIDs (ofSchema (br_InfoStates req) (n_coinSchema n))) receiptData in
        call ← EncodeCallData 0 params;
        mret (Some (MkReceiptLockInfo (l0_LockID lock) (l0_Delegate lock) None (Some (params, call)) None))
      else mret (Some (MkReceiptLockInfo (l0_LockID lock) (if EthAddress_IsZero (l0_Delegate lock) then None else l0_Delegate lock) None None None))
  | _ => mret None
  end.

(** [Spender != Owner] compares two pointers that decoding has just allocated: the delegate is set
    whenever there is a spender. *)
Definition receiptLockInfoV1V2 (req : BuildReceiptRequest) (variant : Z) : res (option ReceiptLockInfo) :=
  lt ← plainly (validateV1LockTransition n LOCK_DECODE_ANY None None (br_InputStates req) (br_OutputStates req));
  let info := lt_newLockInfo lt in
  match lt_new lt with
  | None => mret None
  | Some _ =>
      if Bytes32_IsZero (li_SpendTxId info) then mret (Some (MkReceiptLockInfo (li_LockID info) None None None None))
      else
        let lockedInputIDs :=
          stateIDs (ofSchema (match lt_prev lt with None => br_OutputStates req | Some _ => br_ReadStates req end) (n_lockedCoinSchema n)) in
        spendArgs ← encodeNotoSpendLockArgs (li_SpendTxId info) lockedInputIDs (Bytes32_String <$> li_SpendOutputs info) (li_SpendData info);
        let unlockParams := SpendLockParams (li_LockID info) spendArgs (li_SpendData info) in
        unlockCall ← EncodeCallData variant unlockParams;
        cancelArgs ← encodeNotoSpendLockArgs (li_SpendTxId info) lockedInputIDs (Bytes32_String <$> li_CancelOutputs info) (li_CancelData info);
        let cancelParams := CancelLockParams (li_LockID info) cancelArgs (li_CancelData info) in
        cancelCall ← EncodeCallData variant cancelParams;
        mret (Some (MkReceiptLockInfo (li_LockID info) (li_Spender info) (Some (li_SpendTxId info)) (Some (unlockParams, unlockCall)) (Some (cancelParams, cancelCall))))
  end.

(** The variant, the data and the sender that the last data state gives. *)
Definition receiptInfo (req : BuildReceiptRequest) : res (Z * string * option EthAddress) :=
  match last (filterSchema (br_InfoStates req) [n_dataSchemaV0 n; n_dataSchemaV1 n; n_dataSchemaV2 n]) with
  | None => mret (0%Z, "", None)
  | Some state =>
      info ← unmarshalInfo (ns_StateDataJson state);
      haveRequiredStates ← (if br_UnavailableStates req && negb (td_Variant info =? 0)%Z then hasRequiredStates req else mret true : res bool);
      mret (td_Variant info, (if (haveRequiredStates : bool) then td_Data info else ""), td_From info)
  end.

Definition BuildReceipt (req : BuildReceiptRequest) : res NotoDomainReceipt :=
  info ← receiptInfo req;
  inputs ← receiptStates (ofSchema (br_InputStates req) (n_coinSchema n));
  lockedInputs ← receiptStates (ofSchema (br_InputStates req) (n_lockedCoinSchema n));
  outputs ← receiptStates (ofSchema (br_OutputStates req) (n_coinSchema n));
  updatedLockInfo ← receiptStates (ofSchema (br_OutputStates req) (n_lockInfoSchemaV1 n));
  lockedOutputs ← receiptStates (ofSchema (br_OutputStates req) (n_lockedCoinSchema n));
  readInputs ← receiptStates (ofSchema (br_ReadStates req) (n_coinSchema n));
  readLockedInputs ← receiptStates (ofSchema (br_ReadStates req) (n_lockedCoinSchema n));
  preparedOutputs ← receiptStates (ofSchema (br_InfoStates req) (n_coinSchema n));
  preparedLockedOutputs ← receiptStates (ofSchema (br_InfoStates req) (n_lockedCoinSchema n));
  let states := MkReceiptStates inputs lockedInputs outputs lockedOutputs readInputs readLockedInputs preparedOutputs preparedLockedOutputs updatedLockInfo in
  lockInfo ← (if (info.1.1 =? 0)%Z then receiptLockInfoV0 req states info.1.2
              else if noneOf updatedLockInfo then mret None else receiptLockInfoV1V2 req info.1.1);
  transfers ← receiptTransfers n rangeTo (br_InputStates req) (br_OutputStates req);
  mret (MkNotoDomainReceipt states transfers lockInfo info.1.2 info.2).

(** A lock that was prepared for spending is reported with a delegate, its spender, even when that is
    the owner and nothing was delegated. *)
Theorem receipt_delegate_is_spender req variant info txId :
  receiptLockInfoV1V2 req variant = Ok (Some info) -> rl_SpendTxId info = Some txId ->
  rl_Delegate info = li_Spender (createdLock n (br_OutputStates req)).
Proof.
  unfold receiptLockInfoV1V2. intros (lt & Hlt & Hr)%bind_Ok Hid. assert (Hv : validateV1LockTransition n LOCK_DECODE_ANY None None (br_InputStates req) (br_OutputStates req) = Done lt).
  { by destruct (validateV1LockTransition _ _ _ _ _ _); [injection Hlt as ->|..]. }
  destruct (lt_new lt) as [v|] eqn:Ev; [|discriminate]. destruct (Bytes32_IsZero _); [injection Hr as <-; discriminate|].
  apply bind_Ok in Hr as (a1 & _ & Hr). apply bind_Ok in Hr as (a2 & _ & Hr). apply bind_Ok in Hr as (a3 & _ & Hr). apply bind_Ok in Hr as (a4 & _ & Hr).
  injection Hr as <-. cbn [rl_Delegate]. unfold validateV1LockTransition in Hv. ran. subst lt. cbn in Ev. subst. cbn [lt_newLockInfo lt_new from_option].
  unfold createdLock. match goal with H : newLock _ _ ?l = Done _ |- _ => destruct l as [|st [|]]; cbn [newLock] in H; try discriminate end.
  ran. subst.
  match goal with H : decodeLock _ = Done _ |- _ => apply decodeLock_info in H; rewrite H end. done.
Qed.
End BuildReceipt.

(** ** Instances *)

(** Seven of ten to Bob. *)
Lemma receipt_transfers_net_witness :
  exists ts, receiptTransfers sampleNoto id (er_Inputs honestTransfer) (er_Outputs honestTransfer) = Ok ts /\ MkReceiptTransfer (Some alice) (Some bob) 7 ∈ ts.
Proof.
  destruct (parseCoinList sampleNoto (filterSchema (er_Inputs honestTransfer) (coinSchemas sampleNoto))) as [ic|c e| |] eqn:Hic; [|vm_compute in Hic; discriminate Hic..].
  destruct (parseCoinList sampleNoto (filterSchema (er_Outputs honestTransfer) (coinSchemas sampleNoto))) as [oc|c e| |] eqn:Hoc; [|vm_compute in Hoc; discriminate Hoc..].
  destruct (receipt_transfers_net sampleNoto id (er_Inputs honestTransfer) (er_Outputs honestTransfer) ic oc (Some alice)) as (ts & Hts & _ & Ht).
  - intros l. reflexivity.
  - exact Hic.
  - exact Hoc.
  - vm_compute in Hic. injection Hic as <-. split; [by eexists|]. repeat constructor.
  - vm_compute in Hoc. injection Hoc as <-. repeat (constructor; [by eexists|]). constructor.
  - exists ts. split; [exact Hts|]. apply Ht. left. exists bob. assert (Hp : paidTo bob (coinFlow oc) = 7%Z) by (vm_compute in Hoc; injection Hoc as <-; vm_compute; reflexivity).
    rewrite Hp. split_and!; [reflexivity|vm_compute; discriminate|discriminate].
Defined.
