(* ===== verification/NotoEvents.v ===== *)
(** * The Noto token: base ledger events

    How the events of a Noto contract become completed transactions and spent, read, confirmed and
    info states, for contracts of variant 0 and later ones; the leaves that the nullifier variants add
    to their commitment tree; and the notary's call of its hooks when a lock is spent by someone else.

    The batch is the memory of the handlers: the response under construction, the transactions sent to
    hooks and the random values drawn.  The names that event signatures stand for, the decoding of ABI
    data, the callbacks and the tree are parameters.

    Sources: domains/noto/internal/noto/events.go, events_v0.go, noto.go (decodeTransactionDataV0,
    decodeTransactionDataV1, wrapHookTransaction). *)

From S2P Require Import Prelude HexBytes Identity NotoTypes NotoChecks NotoSample NotoStates NotoCompletion NotoReceipts.
From Stdlib Require Import Ascii.
Open Scope string_scope.
Open Scope list_scope.

(** ** Data *)

Inductive NotoEventName : Type :=
| EventTransfer | EventNotoLockCreated | EventNotoLockUpdated | EventNotoLockSpent | EventNotoLockCancelled | EventNotoLockDelegated.

Inductive NotoEventNameV0 : Type :=
| EventNotoTransfer | EventNotoLock | EventNotoUnlock | EventNotoUnlockPrepared | EventNotoLockDelegated_V0.

Record OnChainEvent : Type := MkOnChainEvent { oe_Location : string; oe_SoliditySignature : string; oe_DataJson : option json }.

Record StateUpdate : Type := MkStateUpdate { su_Id : string; su_TransactionId : string }.
Record CompletedTransaction : Type := MkCompletedTransaction { ct_TransactionId : string; ct_Location : string }.

Record HandleEventBatchResponse : Type := MkHandleEventBatchResponse {
  hr_TransactionsComplete : list CompletedTransaction; hr_SpentStates : list StateUpdate; hr_ReadStates : list StateUpdate;
  hr_ConfirmedStates : list StateUpdate; hr_InfoStates : list StateUpdate; hr_NewStates : list string }.

#[export] Instance HandleEventBatchResponse_rebuild : Rebuild HandleEventBatchResponse := fun r =>
  MkHandleEventBatchResponse (hr_TransactionsComplete r) (hr_SpentStates r) (hr_ReadStates r) (hr_ConfirmedStates r) (hr_InfoStates r) (hr_NewStates r).

(** The configuration is [None] if it does not decode and [Some None] if it is null. *)
Record ContractInfo : Type := MkContractInfo { ci_ContractAddress : string; ci_ContractConfig : option (option NotoParsedConfig) }.

Record HandleEventBatchRequest : Type := MkHandleEventBatchRequest { hb_ContractInfo : option ContractInfo; hb_Events : list OnChainEvent }.

(** A call of the hooks, [handleDelegateUnlock]; a private one goes to the group and the private address. *)
Record ResolvedUnlockRecipient : Type := MkResolvedUnlockRecipient { ru_To : option EthAddress; ru_Amount : option Z }.
Record DelegateUnlockHookParams : Type := MkDelegateUnlockHookParams {
  dh_Sender : option EthAddress; dh_LockID : Bytes32; dh_Recipients : list ResolvedUnlockRecipient; dh_Data : string }.

(** [wrapHookTransaction]: the group and private address of the hooks, unless public hooks are used. *)
Definition wrapHookTransaction (config : NotoParsedConfig) : res (option (option PentePrivateGroup * option EthAddress)) :=
  hooks ← derefR (cf_Hooks config);
  mret (if ho_DevUsePublicHooks hooks then None else Some (ho_PrivateGroup hooks, ho_PrivateAddress hooks)).

Record HookTransaction : Type := MkHookTransaction {
  ht_Private : option (option PentePrivateGroup * option EthAddress); ht_From : string; ht_ContractAddress : string; ht_Params : DelegateUnlockHookParams }.

Record Batch : Type := MkBatch { bt_res : HandleEventBatchResponse; bt_sent : list HookTransaction; bt_draws : nat }.

#[export] Instance Batch_rebuild : Rebuild Batch := fun b => MkBatch (bt_res b) (bt_sent b) (bt_draws b).

(** The commitment tree with its storage. *)
Class CommitmentTree (Tree : Type) : Type := {
  (** [NewMerkleTreeSpec]: the tree as it is stored *)
  mt_load : res Tree;
  mt_SetTransactionId : Tree -> string -> Tree;
  (** [addOutputToMerkleTree] *)
  mt_addOutput : Tree -> Bytes32 -> res Tree;
  (** [GetNewStates]: the states to store for what was added *)
  mt_GetNewStates : Tree -> res (list string)
}.

Section Events.
Context `{NotoEnv} (n : Noto) {Tree : Type} `{CommitmentTree Tree}.
Context (eventSignatures : string -> option NotoEventName) (eventSignaturesV0 : string -> option NotoEventNameV0).
(** [DecodeABIDataCtx] of transaction data, after its id. *)
Context (decodeDataV0 : string -> res (Bytes32 * list Bytes32)) (decodeDataV1 : string -> res (list Bytes32)).
(** The callbacks [GetStatesByID] and [SendTransaction]. *)
Context (GetStatesByID : string -> list string -> res (list StoredState)) (SendTransaction : HookTransaction -> res unit).

(** ** Event structures (noto.go) *)

Record NotoTransfer_Event : Type := MkNotoTransfer_Event { te_TxId : Bytes32; te_Inputs : list Bytes32; te_Outputs : list Bytes32; te_Data : string }.

Record NotoLockCreated_Event : Type := MkNotoLockCreated_Event {
  lc_TxId : Bytes32; lc_Inputs : list Bytes32; lc_Outputs : list Bytes32; lc_Contents : list Bytes32; lc_NewLockState : Bytes32; lc_Data : string }.

Record NotoLockUpdated_Event : Type := MkNotoLockUpdated_Event {
  le_TxId : Bytes32; le_Contents : list Bytes32; le_OldLockState : Bytes32; le_NewLockState : Bytes32; le_Data : string }.

Record NotoLockSpentOrCancelled_Event : Type := MkNotoLockSpentOrCancelled_Event {
  ls_TxId : Bytes32; ls_LockID : Bytes32; ls_Spender : option EthAddress; ls_Inputs : list Bytes32; ls_Outputs : list Bytes32; ls_TxData : string;
  ls_OldLockState : Bytes32 }.

Record NotoLockDelegated_Event : Type := MkNotoLockDelegated_Event { ld_TxId : Bytes32; ld_OldLockState : Bytes32; ld_NewLockState : Bytes32; ld_Data : string }.

Record NotoLock_V0_Event : Type := MkNotoLock_V0_Event {
  v0_TxId : Bytes32; v0_Inputs : list Bytes32; v0_Outputs : list Bytes32; v0_LockedOutputs : list Bytes32; v0_Data : string }.

Record NotoUnlock_V0_Event : Type := MkNotoUnlock_V0_Event {
  u0_TxId : Bytes32; u0_Sender : EthAddress; u0_LockedInputs : list Bytes32; u0_LockedOutputs : list Bytes32; u0_Outputs : list Bytes32; u0_Data : string }.

Record NotoUnlockPrepared_V0_Event : Type := MkNotoUnlockPrepared_V0_Event { p0_LockedInputs : list Bytes32; p0_Data : string }.

(** The members that are not used still have to decode. *)
Definition unmarshalTransfer (text : option json) : option NotoTransfer_Event :=
  o ← decodeStruct text; txId ← fieldBytes32 "txId" o; _ ← fieldAddress "operator" o; inputs ← fieldBytes32s "inputs" o; outputs ← fieldBytes32s "outputs" o;
  _ ← fieldHexBytes "proof" o; data ← fieldHexBytes "data" o; Some (MkNotoTransfer_Event txId inputs outputs data).

Definition unmarshalLockCreated (text : option json) : option NotoLockCreated_Event :=
  o ← decodeStruct text; txId ← fieldBytes32 "txId" o; _ ← fieldBytes32 "lockId" o; _ ← fieldAddress "owner" o;
  inputs ← fieldBytes32s "inputs" o; outputs ← fieldBytes32s "outputs" o; contents ← fieldBytes32s "contents" o; newLockState ← fieldBytes32 "newLockState" o;
  _ ← fieldHexBytes "proof" o; data ← fieldHexBytes "data" o; Some (MkNotoLockCreated_Event txId inputs outputs contents newLockState data).

Definition unmarshalLockUpdated (text : option json) : option NotoLockUpdated_Event :=
  o ← decodeStruct text; txId ← fieldBytes32 "txId" o; _ ← fieldBytes32 "lockId" o; _ ← fieldAddress "owner" o; contents ← fieldBytes32s "contents" o;
  oldLockState ← fieldBytes32 "oldLockState" o; newLockState ← fieldBytes32 "newLockState" o; _ ← fieldHexBytes "proof" o; data ← fieldHexBytes "data" o;
  Some (MkNotoLockUpdated_Event txId contents oldLockState newLockState data).

Definition unmarshalLockSpent (text : option json) : option NotoLockSpentOrCancelled_Event :=
  o ← decodeStruct text; txId ← fieldBytes32 "txId" o; lockId ← fieldBytes32 "lockId" o; spender ← fieldAddress "spender" o;
  inputs ← fieldBytes32s "inputs" o; outputs ← fieldBytes32s "outputs" o; txData ← fieldHexBytes "txData" o; oldLockState ← fieldBytes32 "oldLockState" o;
  _ ← fieldHexBytes "proof" o; _ ← fieldHexBytes "data" o; Some (MkNotoLockSpentOrCancelled_Event txId lockId spender inputs outputs txData oldLockState).

Definition unmarshalLockDelegated (text : option json) : option NotoLockDelegated_Event :=
  o ← decodeStruct text; txId ← fieldBytes32 "txId" o; _ ← fieldBytes32 "lockId" o; _ ← fieldAddress "previousSpender" o; _ ← fieldAddress "newSpender" o;
  oldLockState ← fieldBytes32 "oldLockState" o; newLockState ← fieldBytes32 "newLockState" o; _ ← fieldHexBytes "proof" o; data ← fieldHexBytes "data" o;
  Some (MkNotoLockDelegated_Event txId oldLockState newLockState data).

Definition unmarshalLockEvent_V0 (text : option json) : option NotoLock_V0_Event :=
  o ← decodeStruct text; txId ← fieldBytes32 "txId" o; inputs ← fieldBytes32s "inputs" o; outputs ← fieldBytes32s "outputs" o;
  lockedOutputs ← fieldBytes32s "lockedOutputs" o; _ ← fieldHexBytes "signature" o; data ← fieldHexBytes "data" o;
  Some (MkNotoLock_V0_Event txId inputs outputs lockedOutputs data).

(** [EthAddress.UnmarshalJSON] of a field that is no pointer *)
Definition fieldAddressValue (name : string) (o : list (string * json)) : option EthAddress :=
  match memberRaw name o with None => Some (zeros 20) | Some (JString s) => nenv_NewAddress s | Some _ => None end.

Definition unmarshalUnlock_V0 (text : option json) : option NotoUnlock_V0_Event :=
  o ← decodeStruct text; txId ← fieldBytes32 "txId" o; sender ← fieldAddressValue "sender" o; lockedInputs ← fieldBytes32s "lockedInputs" o;
  lockedOutputs ← fieldBytes32s "lockedOutputs" o; outputs ← fieldBytes32s "outputs" o; _ ← fieldHexBytes "signature" o; data ← fieldHexBytes "data" o;
  Some (MkNotoUnlock_V0_Event txId sender lockedInputs lockedOutputs outputs data).

Definition unmarshalUnlockPrepared_V0 (text : option json) : option NotoUnlockPrepared_V0_Event :=
  o ← decodeStruct text; lockedInputs ← fieldBytes32s "lockedInputs" o; _ ← fieldBytes32 "unlockHash" o; _ ← fieldHexBytes "signature" o; data ← fieldHexBytes "data" o;
  Some (MkNotoUnlockPrepared_V0_Event lockedInputs data).

Definition unmarshalLockDelegated_V0 (text : option json) : option string :=
  o ← decodeStruct text; _ ← fieldBytes32 "txId" o; _ ← fieldBytes32 "unlockHash" o; _ ← fieldAddressValue "delegate" o; _ ← fieldHexBytes "signature" o;
  data ← fieldHexBytes "data" o; Some data.

(** ** Transaction data *)

Definition fromRes {A} (r : res A) : M Batch A := fun b => (b, r).

Definition startsWith (prefix data : string) : bool := String.eqb (String.substring 0 (String.length prefix) data) prefix.
Definition NotoTransactionDataID_V0 : string := String "000"%char (String "001"%char (String "000"%char (String "000"%char ""))).
Definition NotoTransactionDataID_V1 : string := String "000"%char (String "002"%char (String "000"%char (String "000"%char ""))).

Definition decodeTransactionDataV1 (data : string) : M Batch (list Bytes32) :=
  fromRes (if ((4 <=? String.length data)%nat && startsWith NotoTransactionDataID_V1 data)%bool then decodeDataV1 data else mret []).

Definition drawBytes32 : M Batch Bytes32 := fun b => (b <| bt_draws ::= S |>, Ok (nenv_RandBytes32 (bt_draws b))).

(** A transaction id that cannot be decoded is random. *)
Definition decodeTransactionDataV0 (data : string) : M Batch (Bytes32 * list Bytes32) :=
  values ← fromRes (if ((4 <=? String.length data)%nat && startsWith NotoTransactionDataID_V0 data)%bool then decodeDataV0 data else mret (zeros 32, []));
  if Bytes32_IsZero values.1 then id ← drawBytes32; mret (id, values.2) else mret values.

(** ** The response *)

Definition parseStatesFromEvent (txID : Bytes32) (states : list Bytes32) : list StateUpdate :=
  (fun state => MkStateUpdate (Bytes32_String state) (Bytes32_String txID)) <$> states.

Definition onResponse (f : HandleEventBatchResponse -> HandleEventBatchResponse) : M Batch unit := modify (fun b => b <| bt_res ::= f |>).
Definition spends (txID : Bytes32) (states : list Bytes32) : M Batch unit := onResponse (fun r => r <| hr_SpentStates ::= fun l => l ++ parseStatesFromEvent txID states |>).
Definition reads (txID : Bytes32) (states : list Bytes32) : M Batch unit := onResponse (fun r => r <| hr_ReadStates ::= fun l => l ++ parseStatesFromEvent txID states |>).
Definition confirms (txID : Bytes32) (states : list Bytes32) : M Batch unit := onResponse (fun r => r <| hr_ConfirmedStates ::= fun l => l ++ parseStatesFromEvent txID states |>).

Definition recordTransactionInfo (ev : OnChainEvent) (txID : Bytes32) (infoStates : list Bytes32) : M Batch unit :=
  onResponse (fun r => r <| hr_TransactionsComplete ::= fun l => l ++ [MkCompletedTransaction (Bytes32_String txID) (oe_Location ev)] |>
                         <| hr_InfoStates ::= fun l => l ++ parseStatesFromEvent txID infoStates |>).

(** ** The commitment tree *)

Fixpoint addOutputs_ (tree : Tree) (outputs : list Bytes32) : res Tree :=
  match outputs with
  | [] => mret tree
  | out :: rest => if Bytes32_IsZero out then addOutputs_ tree rest else tree' ← mt_addOutput tree out; addOutputs_ tree' rest
  end.

(** [updateMerkleTree], if there is a tree *)
Definition updateMerkleTree (tree : option Tree) (txID : Bytes32) (outputs : list Bytes32) : M Batch (option Tree) :=
  match tree with
  | None => mret None
  | Some t => t' ← fromRes (addOutputs_ (mt_SetTransactionId t (Bytes32_String txID)) outputs); mret (Some t')
  end.

(** The states of the tree for what an event added; an error is logged and dropped. *)
Definition recordTree (tree : option Tree) : M Batch unit := fun b =>
  match tree with
  | None => (b, Ok tt)
  | Some t =>
      match mt_GetNewStates t with
      | Ok states => onResponse (fun r => r <| hr_NewStates ::= fun l => l ++ states |>) b
      | Err _ => (b, Ok tt)
      | Crash c => (b, Crash c)
      end
  end.

(** ** Hooks of the notary *)

(** A call of the hooks, which [wrapHookTransaction] wraps for the privacy group, and the public address
    it is sent to. *)
Definition hookTransaction (config : NotoParsedConfig) (params : DelegateUnlockHookParams) : res HookTransaction :=
  target ← wrapHookTransaction config;
  public ← derefR (cf_HooksPublicAddress config);
  mret (MkHookTransaction target (cf_NotaryLookup config) (EthAddress_String public) params).

Definition recipientOf (state : StoredState) : res ResolvedUnlockRecipient :=
  coin ← orErr (ErrExternal "unmarshalCoin") (unmarshalCoin (ss_DataJson state)); mret (MkResolvedUnlockRecipient (nc_Owner coin) (nc_Amount coin)).

Definition sendHook (tx : HookTransaction) : M Batch unit := fun b => (b <| bt_sent ::= fun l => l ++ [tx] |>, SendTransaction tx).

Definition handleNotaryPrivateUnlock (config : NotoParsedConfig) (lockedInputs outputs : list Bytes32) (spender : option EthAddress) (data : string)
    (lockID : Bytes32) : M Batch unit :=
  let lockedInputsStr := Bytes32_String <$> lockedInputs in
  lockStates ← fromRes (GetStatesByID (n_lockInfoSchemaV1 n) lockedInputsStr);
  inputStates ← fromRes (GetStatesByID (n_lockedCoinSchema n) lockedInputsStr);
  if negb (length inputStates + length lockStates =? length lockedInputsStr)%nat then throw (ErrExternal "MsgMissingStateData")
  else
    outputStates ← fromRes (GetStatesByID (n_coinSchema n) (Bytes32_String <$> outputs));
    if negb (length outputStates =? length outputs)%nat then throw (ErrExternal "MsgMissingStateData")
    else
      recipients ← fromRes (mapR recipientOf outputStates);
      tx ← fromRes (hookTransaction config (MkDelegateUnlockHookParams spender lockID recipients data));
      sendHook tx.

(** The notary's hooks are told of a spend unless they made it: [Hooks.PublicAddress.Equals(spender)]. *)
Definition tellsHooks (config : NotoParsedConfig) (spender : option EthAddress) : res bool :=
  if cf_IsNotary config && bool_decide (cf_NotaryMode config = NotaryModeHooks) then
    hooks ← derefR (cf_Hooks config); mret (negb (addressEquals (ho_PublicAddress hooks) spender))
  else mret false.

(** The configuration decoded again, into a pointer: null leaves it nil. *)
Definition configOf (info : ContractInfo) : res NotoParsedConfig :=
  match ci_ContractConfig info with None => Err (ErrExternal "json.Unmarshal") | Some c => derefR c end.

Definition hookUnlock (info : ContractInfo) (spender : option EthAddress) (unlock : NotoParsedConfig -> M Batch unit) : M Batch unit :=
  config ← fromRes (configOf info);
  tell ← fromRes (tellsHooks config spender);
  if (tell : bool) then unlock config else mret tt.

(** ** Events of variant 1 and later *)

(** Each branch returns the tree with what the event adds; a malformed event is ignored. *)
Definition handleTransfer (ev : OnChainEvent) (tree : option Tree) : M Batch (option Tree) :=
  match unmarshalTransfer (oe_DataJson ev) with
  | None => mret tree
  | Some e =>
      infoStates ← decodeTransactionDataV1 (te_Data e);
      recordTransactionInfo ev (te_TxId e) infoStates ≫= fun _ =>
      spends (te_TxId e) (te_Inputs e) ≫= fun _ =>
      confirms (te_TxId e) (te_Outputs e) ≫= fun _ =>
      updateMerkleTree tree (te_TxId e) (te_Outputs e)
  end.

Definition handleLockCreated (ev : OnChainEvent) (tree : option Tree) : M Batch (option Tree) :=
  match unmarshalLockCreated (oe_DataJson ev) with
  | None => mret tree
  | Some e =>
      infoStates ← decodeTransactionDataV1 (lc_Data e);
      recordTransactionInfo ev (lc_TxId e) infoStates ≫= fun _ =>
      spends (lc_TxId e) (lc_Inputs e) ≫= fun _ =>
      confirms (lc_TxId e) (lc_Outputs e) ≫= fun _ =>
      confirms (lc_TxId e) (lc_Contents e) ≫= fun _ =>
      confirms (lc_TxId e) [lc_NewLockState e] ≫= fun _ =>
      updateMerkleTree tree (lc_TxId e) (lc_Outputs e)
  end.

Definition handleLockUpdated (ev : OnChainEvent) (tree : option Tree) : M Batch (option Tree) :=
  match unmarshalLockUpdated (oe_DataJson ev) with
  | None => mret tree
  | Some e =>
      infoStates ← decodeTransactionDataV1 (le_Data e);
      recordTransactionInfo ev (le_TxId e) infoStates ≫= fun _ =>
      reads (le_TxId e) (le_Contents e) ≫= fun _ =>
      spends (le_TxId e) [le_OldLockState e] ≫= fun _ =>
      confirms (le_TxId e) [le_NewLockState e] ≫= fun _ =>
      mret tree
  end.

Definition handleLockSpent (info : option ContractInfo) (ev : OnChainEvent) (tree : option Tree) : M Batch (option Tree) :=
  match unmarshalLockSpent (oe_DataJson ev) with
  | None => mret tree
  | Some e =>
      infoStates ← decodeTransactionDataV1 (ls_TxData e);
      recordTransactionInfo ev (ls_TxId e) infoStates ≫= fun _ =>
      spends (ls_TxId e) (ls_Inputs e) ≫= fun _ =>
      spends (ls_TxId e) [ls_OldLockState e] ≫= fun _ =>
      confirms (ls_TxId e) (ls_Outputs e) ≫= fun _ =>
      tree' ← updateMerkleTree tree (ls_TxId e) (ls_Outputs e);
      match info with
      | None => mret tree'
      | Some i =>
          hookUnlock i (ls_Spender e)
            (fun config => handleNotaryPrivateUnlock config (ls_Inputs e) (ls_Outputs e) (ls_Spender e) (ls_TxData e) (ls_LockID e)) ≫= fun _ =>
          mret tree'
      end
  end.

Definition handleLockDelegated (ev : OnChainEvent) (tree : option Tree) : M Batch (option Tree) :=
  match unmarshalLockDelegated (oe_DataJson ev) with
  | None => mret tree
  | Some e =>
      infoStates ← decodeTransactionDataV1 (ld_Data e);
      recordTransactionInfo ev (ld_TxId e) infoStates ≫= fun _ =>
      spends (ld_TxId e) [ld_OldLockState e] ≫= fun _ =>
      confirms (ld_TxId e) [ld_NewLockState e] ≫= fun _ =>
      mret tree
  end.

Definition handleV1Event (info : option ContractInfo) (useNullifier : bool) (ev : OnChainEvent) : M Batch unit :=
  tree ← (if useNullifier then t ← fromRes mt_load; mret (Some t) else mret None);
  tree' ←
    match eventSignatures (oe_SoliditySignature ev) with
    | Some EventTransfer => handleTransfer ev tree
    | Some EventNotoLockCreated => handleLockCreated ev tree
    | Some EventNotoLockUpdated => handleLockUpdated ev tree
    | Some EventNotoLockSpent | Some EventNotoLockCancelled => handleLockSpent info ev tree
    | Some EventNotoLockDelegated => handleLockDelegated ev tree
    | None => mret tree
    end;
  recordTree tree'.

(** ** Events of variant 0 *)

Definition handleTransfer_V0 (ev : OnChainEvent) : M Batch unit :=
  match unmarshalTransfer (oe_DataJson ev) with
  | None => mret tt
  | Some e =>
      txData ← decodeTransactionDataV0 (te_Data e);
      recordTransactionInfo ev txData.1 txData.2 ≫= fun _ =>
      spends txData.1 (te_Inputs e) ≫= fun _ =>
      confirms txData.1 (te_Outputs e)
  end.

(** The transaction that completes is the one of the data; its states are those of the one of the event. *)
Definition handleLock_V0 (ev : OnChainEvent) : M Batch unit :=
  match unmarshalLockEvent_V0 (oe_DataJson ev) with
  | None => mret tt
  | Some e =>
      txData ← decodeTransactionDataV0 (v0_Data e);
      recordTransactionInfo ev txData.1 txData.2 ≫= fun _ =>
      spends (v0_TxId e) (v0_Inputs e) ≫= fun _ =>
      confirms (v0_TxId e) (v0_Outputs e) ≫= fun _ =>
      confirms (v0_TxId e) (v0_LockedOutputs e)
  end.

Definition handleNotaryPrivateUnlockV0 (unlock : NotoUnlock_V0_Event) (config : NotoParsedConfig) : M Batch unit :=
  inputStates ← fromRes (GetStatesByID (n_lockedCoinSchema n) (Bytes32_String <$> u0_LockedInputs unlock));
  lockID ← fromRes (match inputStates with
                    | [] => mret (zeros 32)
                    | state :: _ => coin ← orErr (ErrExternal "unmarshalLockedCoin") (unmarshalLockedCoin (ss_DataJson state)); mret (nl_LockID coin)
                    end);
  handleNotaryPrivateUnlock config (u0_LockedInputs unlock) (u0_Outputs unlock) (Some (u0_Sender unlock)) (u0_Data unlock) lockID.

Definition handleUnlock_V0 (info : option ContractInfo) (ev : OnChainEvent) : M Batch unit :=
  match unmarshalUnlock_V0 (oe_DataJson ev) with
  | None => mret tt
  | Some e =>
      txData ← decodeTransactionDataV0 (u0_Data e);
      let txID := if Bytes32_IsZero (u0_TxId e) then txData.1 else u0_TxId e in
      recordTransactionInfo ev txID txData.2 ≫= fun _ =>
      spends txID (u0_LockedInputs e) ≫= fun _ =>
      confirms txID (u0_LockedOutputs e) ≫= fun _ =>
      confirms txID (u0_Outputs e) ≫= fun _ =>
      i ← fromRes (derefR info);
      hookUnlock i (Some (u0_Sender e)) (handleNotaryPrivateUnlockV0 e)
  end.

Definition handleUnlockPrepared_V0 (ev : OnChainEvent) : M Batch unit :=
  match unmarshalUnlockPrepared_V0 (oe_DataJson ev) with
  | None => mret tt
  | Some e =>
      txData ← decodeTransactionDataV0 (p0_Data e);
      recordTransactionInfo ev txData.1 txData.2 ≫= fun _ =>
      reads txData.1 (p0_LockedInputs e)
  end.

Definition handleLockDelegated_V0 (ev : OnChainEvent) : M Batch unit :=
  match unmarshalLockDelegated_V0 (oe_DataJson ev) with
  | None => mret tt
  | Some data => txData ← decodeTransactionDataV0 data; recordTransactionInfo ev txData.1 txData.2
  end.

Definition handleV0Event (info : option ContractInfo) (ev : OnChainEvent) : M Batch unit :=
  match eventSignaturesV0 (oe_SoliditySignature ev) with
  | Some EventNotoTransfer => handleTransfer_V0 ev
  | Some EventNotoLock => handleLock_V0 ev
  | Some EventNotoUnlock => handleUnlock_V0 info ev
  | Some EventNotoUnlockPrepared => handleUnlockPrepared_V0 ev
  | Some EventNotoLockDelegated_V0 => handleLockDelegated_V0 ev
  | None => mret tt
  end.

(** ** Batches *)

(** The variant of the contract; one that does not decode counts as variant 0. *)
Definition batchVariant (info : option ContractInfo) : Z :=
  match info with
  | Some i => match ci_ContractConfig i with Some (Some config) => cf_Variant config | _ => 0%Z end
  | None => 0%Z
  end.

Definition handleEvent (info : option ContractInfo) (ev : OnChainEvent) : M Batch unit :=
  if (batchVariant info =? 0)%Z then handleV0Event info ev else handleV1Event info (batchVariant info =? 258)%Z ev.

Fixpoint handleEvents (info : option ContractInfo) (events : list OnChainEvent) : M Batch unit :=
  match events with
  | [] => mret tt
  | ev :: rest => handleEvent info ev ≫= fun _ => handleEvents info rest
  end.

Definition noUpdates : HandleEventBatchResponse := MkHandleEventBatchResponse [] [] [] [] [] [].

Definition HandleEventBatch (req : HandleEventBatchRequest) (draws : nat) : Batch * res HandleEventBatchResponse :=
  (handleEvents (hb_ContractInfo req) (hb_Events req) ≫= fun _ => gets bt_res) (MkBatch noUpdates [] draws).

(** ** What a batch reports *)

(** What an event says: the transaction, its data, the states it spends, reads and confirms, and the
    leaves it adds to the commitment tree. *)
Record Effect : Type := MkEffect {
  ef_TxId : Bytes32; ef_Location : string; ef_Data : string; ef_Spent : list Bytes32; ef_Read : list Bytes32; ef_Confirmed : list Bytes32;
  ef_Leaves : option (list Bytes32) }.

Definition effectOf (ev : OnChainEvent) : option Effect :=
  match eventSignatures (oe_SoliditySignature ev) with
  | Some EventTransfer =>
      e ← unmarshalTransfer (oe_DataJson ev); Some (MkEffect (te_TxId e) (oe_Location ev) (te_Data e) (te_Inputs e) [] (te_Outputs e) (Some (te_Outputs e)))
  | Some EventNotoLockCreated =>
      e ← unmarshalLockCreated (oe_DataJson ev);
      Some (MkEffect (lc_TxId e) (oe_Location ev) (lc_Data e) (lc_Inputs e) [] (lc_Outputs e ++ lc_Contents e ++ [lc_NewLockState e]) (Some (lc_Outputs e)))
  | Some EventNotoLockUpdated =>
      e ← unmarshalLockUpdated (oe_DataJson ev);
      Some (MkEffect (le_TxId e) (oe_Location ev) (le_Data e) [le_OldLockState e] (le_Contents e) [le_NewLockState e] None)
  | Some EventNotoLockSpent | Some EventNotoLockCancelled =>
      e ← unmarshalLockSpent (oe_DataJson ev);
      Some (MkEffect (ls_TxId e) (oe_Location ev) (ls_TxData e) (ls_Inputs e ++ [ls_OldLockState e]) [] (ls_Outputs e) (Some (ls_Outputs e)))
  | Some EventNotoLockDelegated =>
      e ← unmarshalLockDelegated (oe_DataJson ev);
      Some (MkEffect (ld_TxId e) (oe_Location ev) (ld_Data e) [ld_OldLockState e] [] [ld_NewLockState e] None)
  | None => None
  end.

(** The info states that transaction data names. *)
Definition infoStatesOf (data : string) : list Bytes32 := match (decodeTransactionDataV1 data (MkBatch noUpdates [] 0)).2 with Ok l => l | _ => [] end.

Definition updates (part : Effect -> list Bytes32) (e : Effect) : list StateUpdate := parseStatesFromEvent (ef_TxId e) (part e).

(** The response after the effects, with the states of trees. *)
Definition reported (effects : list Effect) (trees : list string) : HandleEventBatchResponse :=
  MkHandleEventBatchResponse ((fun e => MkCompletedTransaction (Bytes32_String (ef_TxId e)) (ef_Location e)) <$> effects)
    (effects ≫= updates ef_Spent) (effects ≫= updates ef_Read) (effects ≫= updates ef_Confirmed) (effects ≫= updates (fun e => infoStatesOf (ef_Data e))) trees.

(** The stored tree with the leaves of one event, and the states to store for them. *)
Definition treeWith (ev : OnChainEvent) : res Tree :=
  t ← mt_load;
  match effectOf ev with
  | Some e => from_option (addOutputs_ (mt_SetTransactionId t (Bytes32_String (ef_TxId e)))) (Ok t) (ef_Leaves e)
  | None => Ok t
  end.

Definition treeStatesOf (ev : OnChainEvent) : list string :=
  match treeWith ev with Ok t => match mt_GetNewStates t with Ok l => l | _ => [] end | _ => [] end.

Lemma bindM_Ok {W A B} (m : M W A) (f : A -> M W B) w w' b :
  (m ≫= f) w = (w', Ok b) -> exists w1 a, m w = (w1, Ok a) /\ f a w1 = (w', Ok b).
Proof. unfold mbind, M_bind. destruct (m w) as [w1 [a|e|c]] eqn:Em; [eauto|done..]. Qed.

Lemma fromRes_Ok {A} (r : res A) b b' a : fromRes r b = (b', Ok a) -> b' = b /\ r = Ok a.
Proof. unfold fromRes. by intros [= -> ->]. Qed.

(** Takes the handling of an event that succeeded apart into its steps. *)
Ltac handled Hr :=
  repeat match type of Hr with
  | (_ ≫= _) _ = (_, Ok _) => apply bindM_Ok in Hr as (? & ? & ? & Hr)
  end;
  repeat match goal with
  | H : fromRes _ _ = (_, Ok _) |- _ => apply fromRes_Ok in H as [? H]; subst
  | H : onResponse _ _ = (_, Ok _) |- _ => unfold onResponse, modify in H; injection H as <-
  | H : mret _ _ = (_, Ok _) |- _ => injection H as <- ?; subst
  | u : unit |- _ => destruct u
  end.

Lemma hookUnlock_silent info spender unlock b b' u :
  (forall config b b' u, unlock config b = (b', Ok u) -> bt_res b' = bt_res b) -> hookUnlock info spender unlock b = (b', Ok u) -> bt_res b' = bt_res b.
Proof.
  intros Hu Hr. unfold hookUnlock in Hr. apply bindM_Ok in Hr as (b1 & config & Hc & Hr). apply fromRes_Ok in Hc as [-> _].
  apply bindM_Ok in Hr as (b2 & tell & Ht & Hr). apply fromRes_Ok in Ht as [-> _]. destruct tell; [by eapply Hu|by injection Hr as <- _].
Qed.

Lemma privateUnlock_silent config ins outs spender data lockID b b' u :
  handleNotaryPrivateUnlock config ins outs spender data lockID b = (b', Ok u) -> bt_res b' = bt_res b.
Proof.
  intros Hr. unfold handleNotaryPrivateUnlock in Hr. cbv zeta in Hr. apply bindM_Ok in Hr as (b1 & ls & H1 & Hr). apply fromRes_Ok in H1 as [-> _].
  apply bindM_Ok in Hr as (b2 & ins' & H2 & Hr). apply fromRes_Ok in H2 as [-> _]. destruct (negb _); [discriminate|].
  apply bindM_Ok in Hr as (b3 & os & H3 & Hr). apply fromRes_Ok in H3 as [-> _]. destruct (negb _); [discriminate|].
  apply bindM_Ok in Hr as (b4 & rs & H4 & Hr). apply fromRes_Ok in H4 as [-> _]. apply bindM_Ok in Hr as (b5 & tx & H5 & Hr). apply fromRes_Ok in H5 as [-> _].
  unfold sendHook in Hr. by injection Hr as <- _.
Qed.

(** Responses one after the other. *)
Definition andThen (a b : HandleEventBatchResponse) : HandleEventBatchResponse :=
  MkHandleEventBatchResponse (hr_TransactionsComplete a ++ hr_TransactionsComplete b) (hr_SpentStates a ++ hr_SpentStates b) (hr_ReadStates a ++ hr_ReadStates b)
    (hr_ConfirmedStates a ++ hr_ConfirmedStates b) (hr_InfoStates a ++ hr_InfoStates b) (hr_NewStates a ++ hr_NewStates b).

Lemma reported_app es es' ts ts' : andThen (reported es ts) (reported es' ts') = reported (es ++ es') (ts ++ ts').
Proof. unfold andThen, reported. cbn. by rewrite fmap_app, !bind_app. Qed.

Lemma andThen_assoc a b c : andThen (andThen a b) c = andThen a (andThen b c).
Proof. unfold andThen. cbn. by rewrite <- !app_assoc. Qed.

Lemma parse_app txID l l' : parseStatesFromEvent txID (l ++ l') = parseStatesFromEvent txID l ++ parseStatesFromEvent txID l'.
Proof. apply fmap_app. Qed.

Lemma infoStates_decoded data b b' l : decodeTransactionDataV1 data b = (b', Ok l) -> b' = b /\ infoStatesOf data = l.
Proof. unfold infoStatesOf, decodeTransactionDataV1. intros [-> Hr]%fromRes_Ok. rewrite Hr. done. Qed.

Lemma updateTree_kept tree txID outputs b b' tree' :
  updateMerkleTree tree txID outputs b = (b', Ok tree') -> b' = b /\
  match tree with None => tree' = None | Some t => exists t', addOutputs_ (mt_SetTransactionId t (Bytes32_String txID)) outputs = Ok t' /\ tree' = Some t' end.
Proof.
  unfold updateMerkleTree. destruct tree as [t|]; intros Hr; [|by injection Hr as <- <-]. apply bindM_Ok in Hr as (b1 & t' & H1 & Hr).
  apply fromRes_Ok in H1 as [-> H1]. injection Hr as <- <-. split; [done|]. by exists t'.
Qed.

(** The branch of an event: the response grows by its effect, and the tree is the one with its leaves. *)
Definition handlesAs (handle : option Tree -> M Batch (option Tree)) (effect : option Effect) : Prop :=
  forall tree b b' tree', handle tree b = (b', Ok tree') ->
    bt_res b' = andThen (bt_res b) (reported (option_list effect) []) /\
    match tree with
    | None => tree' = None
    | Some t => exists t', match effect with
        | Some e => from_option (addOutputs_ (mt_SetTransactionId t (Bytes32_String (ef_TxId e)))) (Ok t) (ef_Leaves e)
        | None => Ok t end = Ok t' /\ tree' = Some t'
    end.

Lemma ignored tree b b' tree' : @mret (M Batch) _ _ tree b = (b', Ok tree') ->
  bt_res b' = andThen (bt_res b) (reported [] []) /\ match tree with None => tree' = None | Some t => exists t', Ok (A:=Tree) t = Ok t' /\ tree' = Some t' end.
Proof.
  intros Hr. injection Hr as <- <-. split; [|destruct tree; eauto]. unfold andThen, reported. cbn. rewrite !app_nil_r. by destruct (bt_res b).
Qed.

Lemma handleTransfer_effect ev : handlesAs (handleTransfer ev) (e ← unmarshalTransfer (oe_DataJson ev);
  Some (MkEffect (te_TxId e) (oe_Location ev) (te_Data e) (te_Inputs e) [] (te_Outputs e) (Some (te_Outputs e)))).
Proof.
  intros tree b b' tree' Hr. unfold handleTransfer in Hr. destruct (unmarshalTransfer (oe_DataJson ev)) as [e|]; [|by apply ignored].
  apply bindM_Ok in Hr as (b1 & info & Hi & Hr). apply infoStates_decoded in Hi as [-> <-]. unfold recordTransactionInfo, spends, confirms in Hr. handled Hr.
  apply updateTree_kept in Hr as [-> Ht]. split; [|destruct tree; exact Ht]. unfold andThen, reported. cbn. by rewrite !app_nil_r.
Qed.

Lemma handleLockCreated_effect ev : handlesAs (handleLockCreated ev) (e ← unmarshalLockCreated (oe_DataJson ev);
  Some (MkEffect (lc_TxId e) (oe_Location ev) (lc_Data e) (lc_Inputs e) [] (lc_Outputs e ++ lc_Contents e ++ [lc_NewLockState e]) (Some (lc_Outputs e)))).
Proof.
  intros tree b b' tree' Hr. unfold handleLockCreated in Hr. destruct (unmarshalLockCreated (oe_DataJson ev)) as [e|]; [|by apply ignored].
  apply bindM_Ok in Hr as (b1 & info & Hi & Hr). apply infoStates_decoded in Hi as [-> <-]. unfold recordTransactionInfo, spends, confirms in Hr. handled Hr.
  apply updateTree_kept in Hr as [-> Ht]. split; [|destruct tree; exact Ht]. unfold andThen, reported, updates. cbn -[parseStatesFromEvent]. rewrite !parse_app, !app_nil_r. by rewrite !app_assoc.
Qed.

Lemma handleLockUpdated_effect ev : handlesAs (handleLockUpdated ev) (e ← unmarshalLockUpdated (oe_DataJson ev);
  Some (MkEffect (le_TxId e) (oe_Location ev) (le_Data e) [le_OldLockState e] (le_Contents e) [le_NewLockState e] None)).
Proof.
  intros tree b b' tree' Hr. unfold handleLockUpdated in Hr. destruct (unmarshalLockUpdated (oe_DataJson ev)) as [e|]; [|by apply ignored].
  apply bindM_Ok in Hr as (b1 & info & Hi & Hr). apply infoStates_decoded in Hi as [-> <-]. unfold recordTransactionInfo, reads, spends, confirms in Hr. handled Hr.
  split; [|destruct tree'; by eauto]. unfold andThen, reported, updates. cbn. by rewrite !app_nil_r.
Qed.

Lemma handleLockSpent_effect info ev : handlesAs (handleLockSpent info ev) (e ← unmarshalLockSpent (oe_DataJson ev);
  Some (MkEffect (ls_TxId e) (oe_Location ev) (ls_TxData e) (ls_Inputs e ++ [ls_OldLockState e]) [] (ls_Outputs e) (Some (ls_Outputs e)))).
Proof.
  intros tree b b' tree' Hr. unfold handleLockSpent in Hr. destruct (unmarshalLockSpent (oe_DataJson ev)) as [e|]; [|by apply ignored].
  apply bindM_Ok in Hr as (b1 & is_ & Hi & Hr). apply infoStates_decoded in Hi as [-> <-]. unfold recordTransactionInfo, spends, confirms in Hr.
  do 4 (apply bindM_Ok in Hr as (? & ? & ? & Hr)). apply bindM_Ok in Hr as (b2 & tree2 & Hu & Hr). handled Hr. apply updateTree_kept in Hu as [-> Ht].
  match goal with _ : ?f ?c = (b', Ok tree') |- _ => assert (Hend : bt_res b' = bt_res c /\ tree' = tree2) end.
  { destruct info as [i|]; [|by injection Hr as <- <-]. apply bindM_Ok in Hr as (b3 & u & Hh & Hr). injection Hr as <- <-. split; [|done].
    eapply hookUnlock_silent in Hh; [done|]. intros config c c' u' Hp. by eapply privateUnlock_silent. }
  destruct Hend as [-> ->]. split; [|destruct tree; exact Ht]. unfold andThen, reported, updates. cbn -[parseStatesFromEvent]. rewrite !parse_app, !app_nil_r. by rewrite !app_assoc.
Qed.

Lemma handleLockDelegated_effect ev : handlesAs (handleLockDelegated ev) (e ← unmarshalLockDelegated (oe_DataJson ev);
  Some (MkEffect (ld_TxId e) (oe_Location ev) (ld_Data e) [ld_OldLockState e] [] [ld_NewLockState e] None)).
Proof.
  intros tree b b' tree' Hr. unfold handleLockDelegated in Hr. destruct (unmarshalLockDelegated (oe_DataJson ev)) as [e|]; [|by apply ignored].
  apply bindM_Ok in Hr as (b1 & info & Hi & Hr). apply infoStates_decoded in Hi as [-> <-]. unfold recordTransactionInfo, spends, confirms in Hr. handled Hr.
  split; [|destruct tree'; by eauto]. unfold andThen, reported, updates. cbn. by rewrite !app_nil_r.
Qed.

Lemma handleV1Event_effect info useNullifier ev b b' u :
  handleV1Event info useNullifier ev b = (b', Ok u) ->
  bt_res b' = andThen (bt_res b) (reported (option_list (effectOf ev)) (if useNullifier then treeStatesOf ev else [])).
Proof.
  intros Hr. unfold handleV1Event in Hr. apply bindM_Ok in Hr as (b1 & tree & Hload & Hr). apply bindM_Ok in Hr as (b2 & tree' & Hh & Hr).
  assert (Hl : b1 = b /\ match tree with None => useNullifier = false | Some t => useNullifier = true /\ mt_load = Ok t end).
  { destruct useNullifier; [|by injection Hload as <- <-]. apply bindM_Ok in Hload as (b3 & t & Ht & Hm). apply fromRes_Ok in Ht as [-> Ht]. by injection Hm as <- <-. }
  destruct Hl as [-> Hl].
  assert (He : bt_res b2 = andThen (bt_res b) (reported (option_list (effectOf ev)) []) /\
    match tree with None => tree' = None | Some t => exists t', treeWith ev = Ok t' /\ tree' = Some t' end).
  { unfold effectOf, treeWith, effectOf. destruct (eventSignatures _) as [[]|];
      [apply handleTransfer_effect in Hh|apply handleLockCreated_effect in Hh|apply handleLockUpdated_effect in Hh|apply handleLockSpent_effect in Hh|
       apply handleLockSpent_effect in Hh|apply handleLockDelegated_effect in Hh|apply ignored in Hh];
      (destruct tree as [t|]; [destruct Hl as [_ ->]|]; exact Hh). }
  destruct He as [He Ht]. unfold recordTree in Hr. destruct tree as [t|].
  - destruct Hl as [-> Hl], Ht as (t' & Ht & ->). unfold treeStatesOf. rewrite Ht. destruct (mt_GetNewStates t') as [l|e|c]; [|injection Hr as <- _|discriminate].
    + unfold onResponse, modify in Hr. injection Hr as <- _. cbn. rewrite He. unfold andThen, reported. cbn. by rewrite !app_nil_r.
    + done.
  - subst. by injection Hr as <- _.
Qed.

(** (C27) What a batch of events of a contract of variant 1 or later reports (one whose configuration
    does not decode counts as variant 0) is, event by event and in order, what the events say: one
    completed transaction for each event that is understood, and its states under the id of that
    transaction. For the commitment tree of the nullifier variant, what is stored for an event is made
    from the stored tree and the leaves of this event alone: what earlier events of the same batch added
    is not in it. *)
Theorem batch_reports_events req draws b r :
  HandleEventBatch req draws = (b, Ok r) -> batchVariant (hb_ContractInfo req) <> 0%Z ->
  r = reported (omap effectOf (hb_Events req))
        (if (batchVariant (hb_ContractInfo req) =? 258)%Z then hb_Events req ≫= treeStatesOf else []).
Proof.
  intros Hr Hv. unfold HandleEventBatch in Hr. apply bindM_Ok in Hr as (b1 & u & Hr & Hg). injection Hg as <- <-. destruct u.
  set (u := (batchVariant (hb_ContractInfo req) =? 258)%Z).
  assert (Hgen : forall events b b', handleEvents (hb_ContractInfo req) events b = (b', Ok tt) ->
    bt_res b' = andThen (bt_res b) (reported (omap effectOf events) (if u then events ≫= treeStatesOf else []))).
  { induction events as [|ev events IH]; intros b0 b' He; cbn [handleEvents] in He.
    - injection He as <-. unfold andThen, reported. cbn. destruct u; cbn; rewrite !app_nil_r; by destruct (bt_res b0).
    - apply bindM_Ok in He as (b2 & [] & He1 & He2). unfold handleEvent in He1. destruct (Z.eqb_spec (batchVariant (hb_ContractInfo req)) 0) as [|_]; [done|].
      apply handleV1Event_effect in He1. apply IH in He2. rewrite He2, He1, andThen_assoc, reported_app. unfold u. f_equal. f_equal; [cbn; by destruct (effectOf ev)|]. by destruct (batchVariant (hb_ContractInfo req) =? 258)%Z. }
  rewrite (Hgen _ _ _ Hr). unfold andThen, reported. cbn. done.
Qed.

(** In variant 0 the states of a lock are reported under the id that the event has, which a contract may
    leave zero, and not under that of the transaction that is reported complete. *)
Theorem v0_lock_states_elsewhere info ev e b b' :
  eventSignaturesV0 (oe_SoliditySignature ev) = Some EventNotoLock -> unmarshalLockEvent_V0 (oe_DataJson ev) = Some e ->
  handleV0Event info ev b = (b', Ok tt) ->
  exists txID infoStates, bt_res b' = andThen (bt_res b)
    (MkHandleEventBatchResponse [MkCompletedTransaction (Bytes32_String txID) (oe_Location ev)] (parseStatesFromEvent (v0_TxId e) (v0_Inputs e)) []
       (parseStatesFromEvent (v0_TxId e) (v0_Outputs e ++ v0_LockedOutputs e)) (parseStatesFromEvent txID infoStates) []).
Proof.
  intros Hs He Hr. unfold handleV0Event in Hr. rewrite Hs in Hr. unfold handleLock_V0 in Hr. rewrite He in Hr.
  apply bindM_Ok in Hr as (b1 & txData & Hd & Hr). unfold recordTransactionInfo, spends, confirms in Hr. handled Hr.
  assert (Hb : bt_res b1 = bt_res b).
  { unfold decodeTransactionDataV0 in Hd. apply bindM_Ok in Hd as (b2 & values & Hv & Hd). apply fromRes_Ok in Hv as [-> _].
    destruct (Bytes32_IsZero values.1); [|by injection Hd as <- _]. apply bindM_Ok in Hd as (b3 & id & Hi & Hd). injection Hd as <- _. unfold drawBytes32 in Hi. by injection Hi as <- _. }
  exists txData.1, txData.2. unfold andThen. cbn -[parseStatesFromEvent]. rewrite Hb, !parse_app, !app_nil_r. by rewrite !app_assoc.
Qed.
End Events.

(** ** Instances *)

(** A tree that is the list of its leaves, stored empty, whose states are its leaves. *)
#[export] Instance leafTree : CommitmentTree (list Bytes32) := {|
  mt_load := Ok [];
  mt_SetTransactionId t _ := t;
  mt_addOutput t out := Ok (t ++ [out]);
  mt_GetNewStates t := Ok (Bytes32_String <$> t)
|}.

Definition transferEvent (txId input output : string) : OnChainEvent :=
  let ids l := JArray ((fun x => JString (Bytes32_String (bytes32 x))) <$> l) in
  MkOnChainEvent "block 1" "Transfer"
    (Some (JObject [("txId", JString (Bytes32_String (bytes32 txId))); ("inputs", ids [input]); ("outputs", ids [output]); ("proof", JString "0x"); ("data", JString "0x")])).

Definition onlyTransfers (signature : string) : option NotoEventName := if String.eqb signature "Transfer" then Some EventTransfer else None.

(** Two transfers in one batch of a contract of the nullifier variant. *)
Definition twoTransfers : HandleEventBatchRequest :=
  MkHandleEventBatchRequest (Some (MkContractInfo (EthAddress_String (addr "c")) (Some (Some (sampleConfigNoto 258))))) [transferEvent "t" "1" "2"; transferEvent "u" "3" "4"].

Definition handleTwo : Batch * res HandleEventBatchResponse :=
  HandleEventBatch sampleNoto onlyTransfers (fun _ => None) (fun _ => Ok (zeros 32, [])) (fun _ => Ok []) (fun _ _ => Ok []) (fun _ => Ok tt) twoTransfers 0.

(** The tree that is stored last has the leaf of the second transfer and not that of the first. *)
Lemma batch_reports_events_witness :
  exists b r, handleTwo = (b, Ok r) /\ hr_SpentStates r = [MkStateUpdate (Bytes32_String (bytes32 "1")) (Bytes32_String (bytes32 "t")); MkStateUpdate (Bytes32_String (bytes32 "3")) (Bytes32_String (bytes32 "u"))] /\
    hr_NewStates r = [Bytes32_String (bytes32 "2"); Bytes32_String (bytes32 "4")].
Proof.
  destruct handleTwo as [b [r|e|c]] eqn:Er; [|vm_compute in Er; discriminate Er..]. exists b, r. split; [reflexivity|]. unfold handleTwo in Er.
  pose proof (batch_reports_events sampleNoto onlyTransfers (fun _ => None) (fun _ => Ok (zeros 32, [])) (fun _ => Ok []) (fun _ _ => Ok []) (fun _ => Ok tt) twoTransfers 0 b r Er) as Hr.
  rewrite Hr; [split; vm_compute; reflexivity|vm_compute; discriminate].
Defined.
