(* ===== verification/NotoPrepare.v ===== *)
(** * The Noto token: preparing the base ledger call

    What becomes of an endorsed Noto transaction on the base ledger: every function's [Prepare], with
    the call of the contract in each variant, the proofs and commitments in it, and, where the notary
    has hooks, the call of the hooks that carries it.

    A call is given by its parameters before they are encoded as JSON.  The ABI and EIP-712 encodings
    and the root of the commitment tree are the class [LedgerEncoding].

    Sources: domains/noto/internal/noto/handler_*.go (Prepare, baseLedgerInvoke, hookInvoke),
    handler_unlock_common.go, handlers.go, hooks.go, noto.go, states.go. *)

From S2P Require Import Prelude HexBytes Identity NotoTypes NotoChecks NotoEndorse NotoStates NotoCompletion NotoReceipts NotoEvents.
Open Scope string_scope.
Open Scope list_scope.

(** ** Data *)

Record PrepareTransactionRequest : Type := MkPrepareTransactionRequest {
  pq_Transaction : NotoTransaction; pq_InputStates : list NotoState; pq_ReadStates : list NotoState;
  pq_OutputStates : list NotoState; pq_InfoStates : list NotoState;
  pq_AttestationResult : list NotoAttestation; pq_ResolvedVerifiers : list NotoVerifier }.

(** A list of state ids in a call; [None] is a nil slice, which becomes null. *)
Abbreviation StateIDs := (option (list string)) (only parsing).

(** The arguments that are ABI encoded within a call (pkg/types/abi.go). *)
Inductive LockArgs : Type :=
| NotoCreateLockArgs_V1 (TxId : string) (Inputs Outputs Contents : StateIDs) (NewLockState : Bytes32) (Proof : string)
| NotoCreateLockArgs (TxId : string) (Inputs Outputs Contents : StateIDs) (NewLockState SpendTxId : Bytes32) (Proof : string)
| NotoUpdateLockArgs_V1 (TxId : string) (OldLockState NewLockState : Bytes32) (Proof : string)
| NotoUpdateLockArgs (TxId : string) (Contents : StateIDs) (OldLockState NewLockState SpendTxId : Bytes32) (Proof : string)
| NotoSpendLockArgs (TxId : string) (Inputs Outputs : StateIDs) (Data Proof : string)
| NotoDelegateLockArgs (TxId : string) (OldLockState NewLockState : Bytes32) (Proof : string)
| NotoLockOptions (SpendTxId : Bytes32).

(** The parameters of the functions of the contracts (noto.go). *)
Inductive LedgerParams : Type :=
| NotoMint_V0_Params (TxId : string) (Outputs : StateIDs) (Signature Data : string)
| NotoMintParams (TxId : string) (Outputs : StateIDs) (Proof Data : string)
| NotoTransfer_V0_Params (TxId : string) (Inputs Outputs : StateIDs) (Signature Data : string)
| NotoTransferParams (TxId : string) (Inputs Outputs : StateIDs) (Proof Data : string)
| NotoLock_V0_Params (TxId : string) (Inputs Outputs LockedOutputs : StateIDs) (Signature Data : string)
| CreateLockParams_V1 (CreateArgs : string) (SpendHash CancelHash : Bytes32) (Options Data : string)
| CreateLockParams (CreateArgs : string) (SpendCommitment CancelCommitment : Bytes32) (Data : string)
| NotoUnlock_V0_Params (TxId : string) (LockedInputs LockedOutputs Outputs : StateIDs) (Signature Data : string)
| SpendLockCall (LockID : Bytes32) (SpendArgs Data : string)
| NotoPrepareUnlock_V0_Params (LockedInputs : StateIDs) (UnlockHash Signature Data : string)
| UpdateLockParams_V1 (LockID : Bytes32) (UpdateArgs : string) (SpendHash CancelHash : Bytes32) (Options Data : string)
| UpdateLockParams (LockID : Bytes32) (UpdateArgs : string) (SpendCommitment CancelCommitment : Bytes32) (Data : string)
| NotoDelegateLock_V0_Params (TxId : string) (UnlockHash : Bytes32) (Delegate : option EthAddress) (Signature Data : string)
| DelegateLockCall (LockID : Bytes32) (DelegateArgs : string) (NewSpender : option EthAddress) (Data : string).

Record PreparedTransaction : Type := MkPreparedTransaction { pp_ContractAddress : EthAddress; pp_EncodedCall : string }.

(** The parameters of the hooks (hooks.go). *)
Inductive HookParams : Type :=
| MintHookParams (Sender To : EthAddress) (Amount : option Z) (Data : string) (Prepared : PreparedTransaction)
| TransferHookParams (Sender From To : EthAddress) (Amount : option Z) (Data : string) (Prepared : PreparedTransaction)
| BurnHookParams (Sender From : EthAddress) (Amount : option Z) (Data : string) (Prepared : PreparedTransaction)
| LockHookParams (Sender : EthAddress) (LockID : Bytes32) (From : EthAddress) (Amount : option Z) (Data : string) (Prepared : PreparedTransaction)
| UnlockHookParams (Sender : EthAddress) (LockID : Bytes32) (Recipients_ : list ResolvedUnlockRecipient) (Data : string) (Prepared : PreparedTransaction)
| CreateTransferLockHookParams (Sender : EthAddress) (LockID : Bytes32) (From : EthAddress) (Amount : Z)
    (Recipients_ : list ResolvedUnlockRecipient) (Data : string) (Prepared : PreparedTransaction)
| CreateMintLockHookParams (Sender : EthAddress) (LockID : Bytes32) (Recipients_ : list ResolvedUnlockRecipient) (Data : string) (Prepared : PreparedTransaction)
| CreateBurnLockHookParams (Sender : EthAddress) (LockID : Bytes32) (From : EthAddress) (Amount : option Z) (Data : string) (Prepared : PreparedTransaction)
| ApproveUnlockHookParams (Sender : EthAddress) (LockID : Bytes32) (Delegate : option EthAddress) (Data : string) (Prepared : PreparedTransaction)
| PrepareBurnUnlockHookParams (Sender : EthAddress) (LockID : Bytes32) (From : EthAddress) (Amount : option Z) (Data : string) (Prepared : PreparedTransaction)
| PrepareMintUnlockHookParams (Sender : EthAddress) (LockID : Bytes32) (Recipients_ : list ResolvedUnlockRecipient) (Data : string) (Prepared : PreparedTransaction).

(** The interface of a variant, a hook, or a hook wrapped for a privacy group, with the function. *)
Inductive InterfaceVersion : Type := InterfaceV0 | InterfaceV1 | InterfaceV2.
Inductive FunctionABI : Type :=
| InterfaceFunction (interface : InterfaceVersion) (name : string)
| HookFunction (name : string)
| PenteFunction (name : string).

Inductive CallParams : Type :=
| LedgerCall (params : LedgerParams)
| HookCall (params : HookParams)
| PenteInvokeParams (Group : option PentePrivateGroup) (To : option EthAddress) (Inputs : HookParams).

Record TransactionWrapper : Type := MkTransactionWrapper {
  tw_private : bool; tw_functionABI : FunctionABI; tw_params : CallParams; tw_contractAddress : option EthAddress }.

Record PrepareTransactionResponse : Type := MkPrepareTransactionResponse {
  pr_Private : bool; pr_FunctionABI : FunctionABI; pr_Params : CallParams; pr_ContractAddress : option string }.

(** The typed data that an unlock commits to, with the states masked by their ids. *)
Inductive MaskedUnlock : Type :=
| UnlockMasked_V0 (contract : EthAddress) (lockedInputs lockedOutputs outputs : list string) (data : string)
| UnlockMasked_V1 (contract : EthAddress) (txId : string) (lockedInputs outputs : list string) (data : string).

Class LedgerEncoding : Type := {
  (** [EncodeABIDataJSONCtx] of arguments *)
  le_EncodeArgs : LockArgs -> res string;
  (** [EncodeCallDataJSONCtx] of a call *)
  le_EncodeCallData : FunctionABI -> CallParams -> res string;
  (** [EncodeTypedDataV4] of an unlock *)
  le_EncodeUnlock : MaskedUnlock -> res string;
  (** the root of the contract's commitment tree, and the ABI encoding of a root and a signature *)
  le_TreeRoot : EthAddress -> res string;
  le_EncodeRootAndSignature : string -> string -> res string
}.

Section Prepare.
Context `{NotoEnv} (n : Noto) `{LedgerEncoding}.

(** ** Parts of calls *)

Definition getInterfaceABI (variant : Z) : InterfaceVersion :=
  if (variant =? 0)%Z then InterfaceV0 else if (variant =? 1)%Z then InterfaceV1 else InterfaceV2.

Definition endorsableStateID (contract : EthAddress) (state : NotoState) (useNullifier : bool) : outcome string :=
  if negb useNullifier then mret (ns_Id state)
  else nullifier ← stateNullifier n contract state; mret (default (ns_Id state) nullifier).

(** [endorsableStateIDs]: an error is logged and leaves no list. *)
Definition endorsableStateIDs (contract : EthAddress) (states : list NotoState) (useNullifier : bool) : StateIDs :=
  mapM (fun state => match endorsableStateID contract state useNullifier with Done id => Some id | _ => None end) states.

Definition splitStates (states : list NotoState) : list NotoState * list NotoState :=
  (filterSchema states [n_coinSchema n], filterSchema states [n_lockedCoinSchema n]).

(** [stringToAny] makes an empty list of a nil slice. *)
Definition unlockHashFromIDs_V0 (contract : EthAddress) (lockedInputs lockedOutputs outputs : StateIDs) (data : string) : res string :=
  le_EncodeUnlock (UnlockMasked_V0 contract (default [] lockedInputs) (default [] lockedOutputs) (default [] outputs) data).

Definition unlockHashFromIDs_V1 (contract : EthAddress) (txId : string) (lockedInputs outputs : StateIDs) (data : string) : res Bytes32 :=
  b ← le_EncodeUnlock (UnlockMasked_V1 contract txId (default [] lockedInputs) (default [] outputs) data); mret (String.substring 0 32 b).

Definition encodeRootAndSignature (contract : EthAddress) (payload : string) : res string :=
  root ← le_TreeRoot contract; le_EncodeRootAndSignature root payload.

Definition lockProof (tx : ParsedTransaction) (signature : string) : res string :=
  if IsNullifierVariant (pt_DomainConfig tx) then encodeRootAndSignature (pt_ContractAddress_ tx) signature else mret signature.

Definition extractLockInfoV0 (infoStates : list NotoState) (required : bool) : res (option (Bytes32 * option EthAddress)) :=
  match filterSchema infoStates [n_lockInfoSchemaV0 n] with
  | [state] => lock ← unmarshalLockV0 (ns_StateDataJson state); mret (Some (l0_LockID lock, l0_Delegate lock))
  | _ => if required then Err (ErrExternal "MsgLockIDNotFound") else mret None
  end.

(** The signature of the sender, which every call carries. *)
Definition senderPayload (req : PrepareTransactionRequest) : res string :=
  match FindAttestation "sender" (pq_AttestationResult req) with
  | Some sender => mret (na_Payload sender)
  | None => Err (ErrExternal "MsgAttestationNotFound sender")
  end.

(** That the notary has endorsed. *)
Definition notaryAttested (cfg : NotoParsedConfig) (req : PrepareTransactionRequest) : res unit :=
  match FindAttestation "notary" (pq_AttestationResult req) with
  | Some endorsement =>
      verifier ← derefR (na_Verifier endorsement);
      if String.eqb (nv_Lookup verifier) (cf_NotaryLookup cfg) then mret tt else Err (ErrExternal "MsgAttestationNotFound notary")
  | None => Err (ErrExternal "MsgAttestationNotFound notary")
  end.

Definition transactionData (tx : ParsedTransaction) (req : PrepareTransactionRequest) : res string :=
  plainly (encodeTransactionData (pt_DomainConfig tx) (pq_Transaction req) (ns_Id <$> pq_InfoStates req)).

Definition unknownVariant {A} : res A := Err (ErrExternal "MsgUnknownDomainVariant").

(** A public call of the contract in the interface of its variant. *)
Definition baseCall (tx : ParsedTransaction) (functionName : string) (params : LedgerParams) : TransactionWrapper :=
  MkTransactionWrapper false (InterfaceFunction (getInterfaceABI (cf_Variant (pt_DomainConfig tx))) functionName) (LedgerCall params) None.

(** The ids of a list of states of the transaction's contract. *)
Definition idsOf (tx : ParsedTransaction) (states : list NotoState) (useNullifier : bool) : StateIDs :=
  endorsableStateIDs (pt_ContractAddress_ tx) states useNullifier.

Definition isV1orV2 (cfg : NotoParsedConfig) : bool := IsV1 cfg || IsV2 cfg.

Definition lt_prevLockInfo (lt : lockTransition) : NotoLockInfo_V1 := from_option lv_info emptyLockInfo (lt_prev lt).
Definition lt_prevLockStateID (lt : lockTransition) : Bytes32 := from_option lv_id (zeros 32) (lt_prev lt).
Definition lt_newLockStateID (lt : lockTransition) : Bytes32 := from_option lv_id (zeros 32) (lt_new lt).

(** ** Hooks *)

(** [TransactionWrapper.encode], as part of a hook's parameters. *)
Definition preparedCall (tx : ParsedTransaction) (base : TransactionWrapper) : res PreparedTransaction :=
  encodedCall ← le_EncodeCallData (tw_functionABI base) (tw_params base);
  mret (MkPreparedTransaction (pt_ContractAddress_ tx) encodedCall).

(** The last steps of every [hookInvoke]: [wrapHookTransaction] and the wrapper. *)
Definition hookWrapper (tx : ParsedTransaction) (name : string) (params : HookParams) : res TransactionWrapper :=
  target ← wrapHookTransaction (pt_DomainConfig tx);
  mret match target with
       | None => MkTransactionWrapper false (HookFunction name) (HookCall params) (cf_HooksPublicAddress (pt_DomainConfig tx))
       | Some (group, to) =>
           MkTransactionWrapper true (PenteFunction name) (PenteInvokeParams group to params) (cf_HooksPublicAddress (pt_DomainConfig tx))
       end.

Definition hookAddress (req : PrepareTransactionRequest) (lookup : string) : res EthAddress :=
  id ← plainly (findEthAddressVerifier lookup (pq_ResolvedVerifiers req)); mret (ip_address id).

Definition resolvedRecipient (req : PrepareTransactionRequest) (entry : option UnlockRecipient) : res ResolvedUnlockRecipient :=
  r ← derefR entry; to ← hookAddress req (ur_To r); mret (MkResolvedUnlockRecipient (Some to) (ur_Amount r)).

Definition prepare (tw : TransactionWrapper) : PrepareTransactionResponse :=
  MkPrepareTransactionResponse (tw_private tw) (tw_functionABI tw) (tw_params tw) (EthAddress_String <$> tw_contractAddress tw).

(** The end of every [Prepare]: the call itself, or the hook that carries it. *)
Definition prepareWith (tx : ParsedTransaction) (base : res TransactionWrapper) (hookInvoke : TransactionWrapper -> res TransactionWrapper)
    : res PrepareTransactionResponse :=
  baseTransaction ← base;
  if bool_decide (cf_NotaryMode (pt_DomainConfig tx) = NotaryModeHooks) then hook ← hookInvoke baseTransaction; mret (prepare hook)
  else mret (prepare baseTransaction).

(** ** Mint, transfer and burn *)

Definition baseLedgerInvokeMint (tx : ParsedTransaction) (req : PrepareTransactionRequest) : res TransactionWrapper :=
  let cfg := pt_DomainConfig tx in
  signature ← senderPayload req;
  data ← transactionData tx req;
  payload ← (if IsNullifierVariant cfg then encodeRootAndSignature (pt_ContractAddress_ tx) signature else mret signature);
  let TxId := nt_TransactionId (pq_Transaction req) in
  if IsV0 cfg then mret (baseCall tx "mint" (NotoMint_V0_Params TxId (idsOf tx (pq_OutputStates req) false) signature data))
  else if isV1orV2 cfg then mret (baseCall tx "mint" (NotoMintParams TxId (idsOf tx (pq_OutputStates req) false) payload data))
  else unknownVariant.

Definition hookInvokeMint (tx : ParsedTransaction) (req : PrepareTransactionRequest) (To : string) (Amount : option Z) (Data : string)
    (base : TransactionWrapper) : res TransactionWrapper :=
  sender ← hookAddress req (senderOf tx); to ← hookAddress req To;
  prepared ← preparedCall tx base;
  hookWrapper tx "onMint" (MintHookParams sender to Amount Data prepared).

Definition prepareMint (tx : ParsedTransaction) (req : PrepareTransactionRequest) (To : string) (Amount : option Z) (Data : string) : res PrepareTransactionResponse :=
  notaryAttested (pt_DomainConfig tx) req ≫= fun _ =>
  prepareWith tx (baseLedgerInvokeMint tx req) (hookInvokeMint tx req To Amount Data).

Definition baseLedgerInvokeBurn (tx : ParsedTransaction) (req : PrepareTransactionRequest) (useNullifiers : bool) : res TransactionWrapper :=
  let cfg := pt_DomainConfig tx in
  signature ← senderPayload req;
  data ← transactionData tx req;
  proof ← (if useNullifiers then encodeRootAndSignature (pt_ContractAddress_ tx) signature else mret signature);
  let TxId := nt_TransactionId (pq_Transaction req) in
  if IsV0 cfg then
    mret (baseCall tx "transfer" (NotoTransfer_V0_Params TxId (idsOf tx (pq_InputStates req) false) (idsOf tx (pq_OutputStates req) false) signature data))
  else if isV1orV2 cfg then
    mret (baseCall tx "transfer" (NotoTransferParams TxId (idsOf tx (pq_InputStates req) useNullifiers) (idsOf tx (pq_OutputStates req) false) proof data))
  else unknownVariant.

(** The code of a transfer is that of a burn, for the configured kind of variant. *)
Definition baseLedgerInvokeTransfer (tx : ParsedTransaction) (req : PrepareTransactionRequest) : res TransactionWrapper :=
  baseLedgerInvokeBurn tx req (IsNullifierVariant (pt_DomainConfig tx)).

Definition hookInvokeTransfer (tx : ParsedTransaction) (req : PrepareTransactionRequest) (From To : string) (Amount : option Z) (Data : string)
    (base : TransactionWrapper) : res TransactionWrapper :=
  sender ← hookAddress req (nt_From (pq_Transaction req)); from ← hookAddress req From; to ← hookAddress req To;
  prepared ← preparedCall tx base;
  hookWrapper tx "onTransfer" (TransferHookParams sender from to Amount Data prepared).

Definition prepareTransfer (tx : ParsedTransaction) (req : PrepareTransactionRequest) (From To : string) (Amount : option Z) (Data : string)
    : res PrepareTransactionResponse :=
  notaryAttested (pt_DomainConfig tx) req ≫= fun _ =>
  prepareWith tx (baseLedgerInvokeTransfer tx req) (hookInvokeTransfer tx req From To Amount Data).

Definition hookInvokeBurn (tx : ParsedTransaction) (req : PrepareTransactionRequest) (From : string) (Amount : option Z) (Data : string)
    (base : TransactionWrapper) : res TransactionWrapper :=
  sender ← hookAddress req (senderOf tx); from ← hookAddress req From;
  prepared ← preparedCall tx base;
  hookWrapper tx "onBurn" (BurnHookParams sender from Amount Data prepared).

Definition prepareBurn (tx : ParsedTransaction) (req : PrepareTransactionRequest) (From : string) (Amount : option Z) (Data : string) : res PrepareTransactionResponse :=
  notaryAttested (pt_DomainConfig tx) req ≫= fun _ =>
  prepareWith tx (baseLedgerInvokeBurn tx req (IsNullifierVariant (pt_DomainConfig tx))) (hookInvokeBurn tx req From Amount Data).

(** ** Lock and unlock *)

Definition baseLedgerInvokeLock (tx : ParsedTransaction) (req : PrepareTransactionRequest) : res TransactionWrapper :=
  let cfg := pt_DomainConfig tx in
  let outputs := (splitStates (pq_OutputStates req)).1 in
  let lockedOutputs := (splitStates (pq_OutputStates req)).2 in
  signature ← senderPayload req;
  data ← transactionData tx req;
  let TxId := nt_TransactionId (pq_Transaction req) in
  if IsV0 cfg then
    mret (baseCall tx "lock" (NotoLock_V0_Params TxId (idsOf tx (pq_InputStates req) false) (idsOf tx outputs false) (idsOf tx lockedOutputs false) signature data))
  else
    senderID ← plainly (findEthAddressVerifier (senderOf tx) (pq_ResolvedVerifiers req));
    lt ← plainly (validateV1LockTransition n LOCK_CREATE (Some senderID) None (pq_InputStates req) (pq_OutputStates req));
    let SpendTxId := li_SpendTxId (lt_newLockInfo lt) in
    if IsV1 cfg then
      createLockArgs ← le_EncodeArgs (NotoCreateLockArgs_V1 TxId (idsOf tx (pq_InputStates req) false) (idsOf tx outputs false) (idsOf tx lockedOutputs false)
                                        (lt_newLockStateID lt) signature);
      options ← le_EncodeArgs (NotoLockOptions SpendTxId);
      mret (baseCall tx "createLock" (CreateLockParams_V1 createLockArgs (zeros 32) (zeros 32) options data))
    else if IsV2 cfg then
      proof ← lockProof tx signature;
      createLockArgs ← le_EncodeArgs (NotoCreateLockArgs TxId (idsOf tx (pq_InputStates req) (IsNullifierVariant cfg)) (idsOf tx outputs false)
                                        (idsOf tx lockedOutputs false) (lt_newLockStateID lt) SpendTxId proof);
      mret (baseCall tx "createLock" (CreateLockParams createLockArgs (zeros 32) (zeros 32) data))
    else unknownVariant.

Definition hookInvokeLock (tx : ParsedTransaction) (req : PrepareTransactionRequest) (lockID : Bytes32) (Amount : option Z) (Data : string)
    (base : TransactionWrapper) : res TransactionWrapper :=
  sender ← hookAddress req (senderOf tx);
  prepared ← preparedCall tx base;
  hookWrapper tx "onLock" (LockHookParams sender lockID sender Amount Data prepared).

Definition prepareLock (tx : ParsedTransaction) (req : PrepareTransactionRequest) (Amount : option Z) (Data : string) : res PrepareTransactionResponse :=
  lockID ← (if IsV0 (pt_DomainConfig tx) then found ← extractLockInfoV0 (pq_InfoStates req) true; derefR (fst <$> found)
            else
              lt ← plainly (validateV1LockTransition n LOCK_CREATE None None (pq_InputStates req) (pq_OutputStates req));
              mret (li_LockID (lt_newLockInfo lt)));
  notaryAttested (pt_DomainConfig tx) req ≫= fun _ =>
  prepareWith tx (baseLedgerInvokeLock tx req) (hookInvokeLock tx req lockID Amount Data).

(** All input states are inputs of the call, the lock state of variants 1 and 2 too. *)
Definition baseLedgerInvokeUnlock (tx : ParsedTransaction) (req : PrepareTransactionRequest) (LockID : Bytes32) : res TransactionWrapper :=
  let cfg := pt_DomainConfig tx in
  let lockedInputs := pq_InputStates req in
  let outputs := (splitStates (pq_OutputStates req)).1 in
  let lockedOutputs := (splitStates (pq_OutputStates req)).2 in
  signature ← senderPayload req;
  txData ← transactionData tx req;
  let TxId := nt_TransactionId (pq_Transaction req) in
  if IsV0 cfg then
    mret (baseCall tx "unlock" (NotoUnlock_V0_Params TxId (idsOf tx lockedInputs false) (idsOf tx lockedOutputs false) (idsOf tx outputs false) signature txData))
  else if isV1orV2 cfg then
    spendLockArgs ← le_EncodeArgs (NotoSpendLockArgs TxId (idsOf tx lockedInputs false) (idsOf tx outputs false) txData signature);
    mret (baseCall tx "spendLock" (SpendLockCall LockID spendLockArgs ""))
  else unknownVariant.

(** The hook of unlock and prepareUnlock. *)
Definition hookInvokeUnlock (name : string) (tx : ParsedTransaction) (req : PrepareTransactionRequest) (p : UnlockParams) (Data : string)
    (base : TransactionWrapper) : res TransactionWrapper :=
  sender ← hookAddress req (senderOf tx);
  recipients ← mapR (resolvedRecipient req) (up_Recipients p);
  prepared ← preparedCall tx base;
  hookWrapper tx name (UnlockHookParams sender (up_LockID p) recipients Data prepared).

Definition prepareUnlock (tx : ParsedTransaction) (req : PrepareTransactionRequest) (p : UnlockParams) : res PrepareTransactionResponse :=
  notaryAttested (pt_DomainConfig tx) req ≫= fun _ =>
  prepareWith tx (baseLedgerInvokeUnlock tx req (up_LockID p)) (hookInvokeUnlock "onUnlock" tx req p (up_Data p)).

(** ** Calls that commit to an unlock *)

(** The data of a lock that the commitments are made of, and the two commitments. *)
Definition commitments (tx : ParsedTransaction) (info : NotoLockInfo_V1) (contents spendOutputs cancelOutputs : list NotoState) : res (Bytes32 * Bytes32) :=
  let txId := Bytes32_String (li_SpendTxId info) in
  spend ← unlockHashFromIDs_V1 (pt_ContractAddress_ tx) txId (idsOf tx contents false) (idsOf tx spendOutputs false) (li_SpendData info);
  cancel ← unlockHashFromIDs_V1 (pt_ContractAddress_ tx) txId (idsOf tx contents false) (idsOf tx cancelOutputs false) (li_CancelData info);
  mret (spend, cancel).

Definition buildPrepareUnlockParams (tx : ParsedTransaction) (lt : lockTransition) (signature : string)
    (lockedInputs spendOutputs cancelOutputs infoStates : list NotoState) : res LedgerParams :=
  let cfg := pt_DomainConfig tx in
  proof ← lockProof tx signature;
  let lockID := li_LockID (lt_prevLockInfo lt) in
  let spendTxId := li_SpendTxId (lt_newLockInfo lt) in
  hashes ← commitments tx (lt_newLockInfo lt) lockedInputs spendOutputs cancelOutputs;
  let TxId := nt_TransactionId (pt_Transaction tx) in
  updateLockArgs ←
    (if IsV1 cfg then le_EncodeArgs (NotoUpdateLockArgs_V1 TxId (lt_prevLockStateID lt) (lt_newLockStateID lt) proof)
     else if IsV2 cfg then
       le_EncodeArgs (NotoUpdateLockArgs TxId (idsOf tx lockedInputs false) (lt_prevLockStateID lt) (lt_newLockStateID lt) spendTxId proof)
     else unknownVariant);
  txData ← plainly (encodeTransactionData cfg (pt_Transaction tx) (ns_Id <$> infoStates));
  if IsV1 cfg then options ← le_EncodeArgs (NotoLockOptions spendTxId); mret (UpdateLockParams_V1 lockID updateLockArgs hashes.1 hashes.2 options txData)
  else mret (UpdateLockParams lockID updateLockArgs hashes.1 hashes.2 txData).

Definition buildCreateLockParams (tx : ParsedTransaction) (lt : lockTransition) (signature : string)
    (inputs lockedOutputs additionalOutputs spendOutputs cancelOutputs infoStates : list NotoState) : res LedgerParams :=
  let cfg := pt_DomainConfig tx in
  proof ← lockProof tx signature;
  let spendTxId := li_SpendTxId (lt_newLockInfo lt) in
  hashes ← commitments tx (lt_newLockInfo lt) lockedOutputs spendOutputs cancelOutputs;
  let TxId := nt_TransactionId (pt_Transaction tx) in
  createLockArgs ←
    (if IsV1 cfg then
       le_EncodeArgs (NotoCreateLockArgs_V1 TxId (idsOf tx inputs false) (idsOf tx additionalOutputs false) (idsOf tx lockedOutputs false) (lt_newLockStateID lt) proof)
     else if IsV2 cfg then
       le_EncodeArgs (NotoCreateLockArgs TxId (idsOf tx inputs (IsNullifierVariant cfg)) (idsOf tx additionalOutputs false) (idsOf tx lockedOutputs false)
                        (lt_newLockStateID lt) spendTxId proof)
     else unknownVariant);
  txData ← plainly (encodeTransactionData cfg (pt_Transaction tx) (ns_Id <$> infoStates));
  if IsV1 cfg then options ← le_EncodeArgs (NotoLockOptions spendTxId); mret (CreateLockParams_V1 createLockArgs hashes.1 hashes.2 options txData)
  else mret (CreateLockParams createLockArgs hashes.1 hashes.2 txData).

Definition baseLedgerInvokePrepareUnlock (tx : ParsedTransaction) (req : PrepareTransactionRequest) (LockID : Bytes32) (Data : string) : res TransactionWrapper :=
  let cfg := pt_DomainConfig tx in
  let lockedInputs := filterSchema (pq_ReadStates req) [n_lockedCoinSchema n] in
  if IsV0 cfg then
    signature ← senderPayload req;
    unlockHash ← unlockHashFromIDs_V0 (pt_ContractAddress_ tx) (idsOf tx lockedInputs false) (idsOf tx (splitStates (pq_InfoStates req)).2 false)
                   (idsOf tx (splitStates (pq_InfoStates req)).1 false) Data;
    txData ← plainly (encodeTransactionData cfg (pt_Transaction tx) (ns_Id <$> pq_InfoStates req));
    mret (baseCall tx "prepareUnlock" (NotoPrepareUnlock_V0_Params (idsOf tx lockedInputs false) ("0x" ++ hexEncode unlockHash) signature txData))
  else
    senderID ← plainly (findEthAddressVerifier (senderOf tx) (pq_ResolvedVerifiers req));
    decoded ← plainly (decodeV1LockTransitionWithOutputs n LOCK_UPDATE (Some senderID) (Some LockID) (pq_InputStates req) (pq_OutputStates req) (pq_InfoStates req));
    signature ← senderPayload req;
    if isV1orV2 cfg then
      params ← buildPrepareUnlockParams tx decoded.1.1 signature lockedInputs decoded.1.2 decoded.2 (pq_InfoStates req);
      mret (baseCall tx "updateLock" params)
    else unknownVariant.

Definition preparePrepareUnlock (tx : ParsedTransaction) (req : PrepareTransactionRequest) (p : UnlockParams) (Data : string) : res PrepareTransactionResponse :=
  prepareWith tx (baseLedgerInvokePrepareUnlock tx req (up_LockID p) Data) (hookInvokeUnlock "onPrepareUnlock" tx req p Data).

(** ** Locks created with their unlock *)

Definition baseLedgerInvokeCreateTransferLock (tx : ParsedTransaction) (req : PrepareTransactionRequest) (From : string) : res TransactionWrapper :=
  fromID ← plainly (findEthAddressVerifier From (pq_ResolvedVerifiers req));
  decoded ← plainly (decodeV1LockTransitionWithOutputs n LOCK_CREATE (Some fromID) None (pq_InputStates req) (pq_OutputStates req) (pq_InfoStates req));
  signature ← senderPayload req;
  params ← buildCreateLockParams tx decoded.1.1 signature (filterSchema (pq_InputStates req) [n_coinSchema n])
             (filterSchema (pq_OutputStates req) [n_lockedCoinSchema n]) (filterSchema (pq_OutputStates req) [n_coinSchema n])
             decoded.1.2 decoded.2 (pq_InfoStates req);
  mret (baseCall tx "createLock" params).

(** The lock that [hookInvoke] reads again from the states. *)
Definition createdLockID (req : PrepareTransactionRequest) (senderID : identityPair) : res Bytes32 :=
  lt ← plainly (validateV1LockTransition n LOCK_CREATE (Some senderID) None (pq_InputStates req) (pq_OutputStates req));
  mret (li_LockID (lt_newLockInfo lt)).

(** A recipient with its amount, which is added up. *)
Definition recipientAmount (req : PrepareTransactionRequest) (entry : option UnlockRecipient) : res (ResolvedUnlockRecipient * Z) :=
  r ← derefR entry; recipient ← resolvedRecipient req entry; amount ← derefR (ur_Amount r); mret (recipient, amount).

Definition hookInvokeCreateTransferLock (tx : ParsedTransaction) (req : PrepareTransactionRequest) (recipients : Recipients) (Data : string)
    (base : TransactionWrapper) : res TransactionWrapper :=
  senderID ← plainly (findEthAddressVerifier (senderOf tx) (pq_ResolvedVerifiers req));
  lockID ← createdLockID req senderID;
  resolved ← mapR (recipientAmount req) recipients;
  prepared ← preparedCall tx base;
  hookWrapper tx "onCreateTransferLock"
    (CreateTransferLockHookParams (ip_address senderID) lockID (ip_address senderID) (foldr Z.add 0%Z resolved.*2) resolved.*1 Data prepared).

Definition prepareCreateTransferLock (tx : ParsedTransaction) (req : PrepareTransactionRequest) (From : string) (recipients : Recipients) (Data : string)
    : res PrepareTransactionResponse :=
  prepareWith tx (baseLedgerInvokeCreateTransferLock tx req From) (hookInvokeCreateTransferLock tx req recipients Data).

Definition baseLedgerInvokeCreateBurnLock (tx : ParsedTransaction) (req : PrepareTransactionRequest) : res TransactionWrapper :=
  senderID ← plainly (findEthAddressVerifier (senderOf tx) (pq_ResolvedVerifiers req));
  decoded ← plainly (decodeV1LockTransitionWithOutputs n LOCK_CREATE (Some senderID) None (pq_InputStates req) (pq_OutputStates req) (pq_InfoStates req));
  signature ← senderPayload req;
  params ← buildCreateLockParams tx decoded.1.1 signature (filterSchema (pq_InputStates req) [n_coinSchema n])
             (filterSchema (pq_OutputStates req) [n_lockedCoinSchema n]) (filterSchema (pq_OutputStates req) [n_coinSchema n])
             [] decoded.2 (pq_InfoStates req);
  mret (baseCall tx "createLock" params).

Definition hookInvokeCreateBurnLock (tx : ParsedTransaction) (req : PrepareTransactionRequest) (Amount : option Z) (Data : string)
    (base : TransactionWrapper) : res TransactionWrapper :=
  senderID ← plainly (findEthAddressVerifier (senderOf tx) (pq_ResolvedVerifiers req));
  lockID ← createdLockID req senderID;
  prepared ← preparedCall tx base;
  hookWrapper tx "onCreateBurnLock" (CreateBurnLockHookParams (ip_address senderID) lockID (ip_address senderID) Amount Data prepared).

Definition prepareCreateBurnLock (tx : ParsedTransaction) (req : PrepareTransactionRequest) (Amount : option Z) (Data : string) : res PrepareTransactionResponse :=
  prepareWith tx (baseLedgerInvokeCreateBurnLock tx req) (hookInvokeCreateBurnLock tx req Amount Data).

Definition baseLedgerInvokeCreateMintLock (tx : ParsedTransaction) (req : PrepareTransactionRequest) : res TransactionWrapper :=
  decoded ← plainly (decodeV1LockTransitionWithOutputs n LOCK_CREATE None None (pq_InputStates req) (pq_OutputStates req) (pq_InfoStates req));
  signature ← senderPayload req;
  params ← buildCreateLockParams tx decoded.1.1 signature [] [] [] decoded.1.2 [] (pq_InfoStates req);
  mret (baseCall tx "createLock" params).

Definition hookInvokeCreateMintLock (tx : ParsedTransaction) (req : PrepareTransactionRequest) (recipients : Recipients) (Data : string)
    (base : TransactionWrapper) : res TransactionWrapper :=
  senderID ← plainly (findEthAddressVerifier (senderOf tx) (pq_ResolvedVerifiers req));
  lockID ← createdLockID req senderID;
  resolved ← mapR (resolvedRecipient req) recipients;
  prepared ← preparedCall tx base;
  hookWrapper tx "onCreateMintLock" (CreateMintLockHookParams (ip_address senderID) lockID resolved Data prepared).

Definition prepareCreateMintLock (tx : ParsedTransaction) (req : PrepareTransactionRequest) (recipients : Recipients) (Data : string) : res PrepareTransactionResponse :=
  prepareWith tx (baseLedgerInvokeCreateMintLock tx req) (hookInvokeCreateMintLock tx req recipients Data).

(** ** Unlocks prepared for minting and burning *)

Definition baseLedgerInvokePrepareMintUnlock (tx : ParsedTransaction) (req : PrepareTransactionRequest) (LockID : Bytes32) : res TransactionWrapper :=
  senderID ← plainly (findEthAddressVerifier (senderOf tx) (pq_ResolvedVerifiers req));
  decoded ← plainly (decodeV1LockTransitionWithOutputs n LOCK_UPDATE (Some senderID) (Some LockID) (pq_InputStates req) (pq_OutputStates req) (pq_InfoStates req));
  signature ← senderPayload req;
  params ← buildPrepareUnlockParams tx decoded.1.1 signature [] decoded.1.2 [] (pq_InfoStates req);
  mret (baseCall tx "updateLock" params).

Definition hookInvokePrepareMintUnlock (tx : ParsedTransaction) (req : PrepareTransactionRequest) (LockID : Bytes32) (recipients : Recipients) (Data : string)
    (base : TransactionWrapper) : res TransactionWrapper :=
  from ← hookAddress req (senderOf tx);
  resolved ← mapR (resolvedRecipient req) recipients;
  prepared ← preparedCall tx base;
  hookWrapper tx "onPrepareMintUnlock" (PrepareMintUnlockHookParams from LockID resolved Data prepared).

Definition preparePrepareMintUnlock (tx : ParsedTransaction) (req : PrepareTransactionRequest) (LockID : Bytes32) (recipients : Recipients) (Data : string)
    : res PrepareTransactionResponse :=
  prepareWith tx (baseLedgerInvokePrepareMintUnlock tx req LockID) (hookInvokePrepareMintUnlock tx req LockID recipients Data).

Definition baseLedgerInvokePrepareBurnUnlock (tx : ParsedTransaction) (req : PrepareTransactionRequest) (LockID : Bytes32) (From : string) : res TransactionWrapper :=
  let lockedInputs := filterSchema (pq_ReadStates req) [n_lockedCoinSchema n] in
  fromID ← plainly (findEthAddressVerifier From (pq_ResolvedVerifiers req));
  decoded ← plainly (decodeV1LockTransitionWithOutputs n LOCK_UPDATE (Some fromID) (Some LockID) (pq_InputStates req) (pq_OutputStates req) (pq_InfoStates req));
  signature ← senderPayload req;
  params ← buildPrepareUnlockParams tx decoded.1.1 signature lockedInputs decoded.1.2 decoded.2 (pq_InfoStates req);
  mret (baseCall tx "updateLock" params).

Definition hookInvokePrepareBurnUnlock (tx : ParsedTransaction) (req : PrepareTransactionRequest) (LockID : Bytes32) (From : string) (Amount : option Z)
    (Data : string) (base : TransactionWrapper) : res TransactionWrapper :=
  from ← hookAddress req From;
  prepared ← preparedCall tx base;
  hookWrapper tx "onPrepareBurnUnlock" (PrepareBurnUnlockHookParams from LockID from Amount Data prepared).

Definition preparePrepareBurnUnlock (tx : ParsedTransaction) (req : PrepareTransactionRequest) (LockID : Bytes32) (From : string) (Amount : option Z)
    (Data : string) : res PrepareTransactionResponse :=
  prepareWith tx (baseLedgerInvokePrepareBurnUnlock tx req LockID From) (hookInvokePrepareBurnUnlock tx req LockID From Amount Data).

(** ** Delegation *)

Definition baseLedgerInvokeDelegateLock (tx : ParsedTransaction) (req : PrepareTransactionRequest) (LockID : Bytes32) (Unlock : option UnlockPublicParams)
    (Delegate : option EthAddress) : res TransactionWrapper :=
  let cfg := pt_DomainConfig tx in
  signature ← senderPayload req;
  txData ← transactionData tx req;
  let TxId := nt_TransactionId (pq_Transaction req) in
  if IsV0 cfg then
    unlock ← derefR Unlock;
    unlockHash ← unlockHashFromIDs_V0 (pt_ContractAddress_ tx) (Some (uu_LockedInputs unlock)) (Some (uu_LockedOutputs unlock)) (Some (uu_Outputs unlock)) (uu_Data unlock);
    mret (baseCall tx "delegateLock" (NotoDelegateLock_V0_Params TxId (String.substring 0 32 unlockHash) Delegate signature txData))
  else
    senderID ← plainly (findEthAddressVerifier (senderOf tx) (pq_ResolvedVerifiers req));
    lt ← plainly (validateV1LockTransition n LOCK_UPDATE (Some senderID) (Some LockID) (pq_InputStates req) (pq_OutputStates req));
    if isV1orV2 cfg then
      delegateArgs ← le_EncodeArgs (NotoDelegateLockArgs TxId (lt_prevLockStateID lt) (lt_newLockStateID lt) signature);
      mret (baseCall tx "delegateLock" (DelegateLockCall LockID delegateArgs Delegate txData))
    else unknownVariant.

Definition hookInvokeDelegateLock (tx : ParsedTransaction) (req : PrepareTransactionRequest) (LockID : Bytes32) (Delegate : option EthAddress) (Data : string)
    (base : TransactionWrapper) : res TransactionWrapper :=
  sender ← hookAddress req (senderOf tx);
  prepared ← preparedCall tx base;
  hookWrapper tx "onDelegateLock" (ApproveUnlockHookParams sender LockID Delegate Data prepared).

Definition prepareDelegateLock (tx : ParsedTransaction) (req : PrepareTransactionRequest) (LockID : Bytes32) (Unlock : option UnlockPublicParams)
    (Delegate : option EthAddress) (Data : string) : res PrepareTransactionResponse :=
  prepareWith tx (baseLedgerInvokeDelegateLock tx req LockID Unlock Delegate) (hookInvokeDelegateLock tx req LockID Delegate Data).

(** ** PrepareTransaction *)

Definition prepareHandler (tx : ParsedTransaction) (req : PrepareTransactionRequest) : res PrepareTransactionResponse :=
  match pt_Params tx with
  | MintParams To Amount Data => prepareMint tx req To Amount Data
  | TransferParams To Amount Data => prepareTransfer tx req (senderOf tx) To Amount Data
  | TransferFromParams From To Amount Data => prepareTransfer tx req From To Amount Data
  | BurnParams Amount Data => prepareBurn tx req (senderOf tx) Amount Data
  | BurnFromParams From Amount Data => prepareBurn tx req From Amount Data
  | LockParams Amount Data => prepareLock tx req Amount Data
  | UnlockParams_ p => prepareUnlock tx req p
  | CreateTransferLockParams From recipients _ Data => prepareCreateTransferLock tx req From recipients Data
  | CreateMintLockParams recipients _ Data => prepareCreateMintLock tx req recipients Data
  | CreateBurnLockParams _ Amount _ Data => prepareCreateBurnLock tx req Amount Data
  | PrepareUnlockParams p _ Data => preparePrepareUnlock tx req p Data
  | PrepareMintUnlockParams LockID recipients _ Data => preparePrepareMintUnlock tx req LockID recipients Data
  | PrepareBurnUnlockParams LockID From Amount _ Data => preparePrepareBurnUnlock tx req LockID From Amount Data
  | DelegateLockParams LockID Unlock Delegate Data => prepareDelegateLock tx req LockID Unlock Delegate Data
  end.

Definition PrepareTransaction (req : PrepareTransactionRequest) : res PrepareTransactionResponse :=
  tx ← plainly (validateTransaction (pq_Transaction req));
  prepareHandler tx req.
End Prepare.
