(* ===== verification/NotoLedger.v ===== *)
(** * The Noto token: the contract on the base ledger

    The contract of variant 2 that the prepared calls are made to: unspent states, locked states, locks
    with their commitments and lock states, used transaction ids.  A function of the contract takes the
    memory to the next one, or reverts.

    Theorems: the bookkeeping of locked states is consistent in every run, and a locked state leaves its
    lock only by a call of the lock's spender that is the one the lock commits to.

    The hash of an unlock and the id of a lock are parameters (Keccak over ABI encodings).  A mapping of
    the contract is a finite map whose missing entries are zero.

    Sources: solidity/contracts/domains/noto/Noto.sol. *)

From S2P Require Import Prelude NotoTypes NotoCompletion.
Open Scope string_scope.
Open Scope list_scope.

(** ** State *)

(** [NotoLockInfo]; a zero owner is [None]. *)
Record LedgerLock : Type := MkLedgerLock {
  lk_owner : option EthAddress; lk_spender : option EthAddress; lk_spendCommitment : Bytes32; lk_cancelCommitment : Bytes32;
  lk_lockedStateCount : nat; lk_spendTxId : Bytes32 }.

Definition noLock : LedgerLock := MkLedgerLock None None (zeros 32) (zeros 32) 0 (zeros 32).

Record Ledger : Type := MkLedger {
  lg_notary : EthAddress;
  lg_unspent : gset Bytes32;
  lg_locked : gmap Bytes32 Bytes32;
  lg_locks : gmap Bytes32 LedgerLock;
  lg_txIds : gset Bytes32;
  lg_lockStates : gmap Bytes32 Bytes32;
  lg_lockTxIds : gmap Bytes32 Bytes32 }.

#[export] Instance LedgerLock_rebuild : Rebuild LedgerLock := fun l =>
  MkLedgerLock (lk_owner l) (lk_spender l) (lk_spendCommitment l) (lk_cancelCommitment l) (lk_lockedStateCount l) (lk_spendTxId l).
#[export] Instance Ledger_rebuild : Rebuild Ledger := fun l =>
  MkLedger (lg_notary l) (lg_unspent l) (lg_locked l) (lg_locks l) (lg_txIds l) (lg_lockStates l) (lg_lockTxIds l).

(** What the contract decodes its arguments to. *)
Record CreateArgs : Type := MkCreateArgs {
  ca_txId : Bytes32; ca_inputs : list Bytes32; ca_outputs : list Bytes32; ca_contents : list Bytes32; ca_newLockState : Bytes32; ca_spendTxId : Bytes32 }.
Record UpdateArgs : Type := MkUpdateArgs {
  ua_txId : Bytes32; ua_contents : list Bytes32; ua_oldLockState : Bytes32; ua_newLockState : Bytes32; ua_spendTxId : Bytes32 }.
Record SpendArgs : Type := MkSpendArgs { sa_txId : Bytes32; sa_inputs : list Bytes32; sa_outputs : list Bytes32; sa_data : string }.
Record DelegateArgs : Type := MkDelegateArgs { da_txId : Bytes32; da_oldLockState : Bytes32; da_newLockState : Bytes32 }.

(** The transactions of the contract. *)
Inductive LedgerOp : Type :=
| Op_transfer (txId : Bytes32) (inputs outputs : list Bytes32)
| Op_mint (txId : Bytes32) (outputs : list Bytes32)
| Op_createLock (args : CreateArgs) (spendCommitment cancelCommitment : Bytes32)
| Op_updateLock (lockId : Bytes32) (args : UpdateArgs) (spendCommitment cancelCommitment : Bytes32)
| Op_spendLock (lockId : Bytes32) (args : SpendArgs)
| Op_cancelLock (lockId : Bytes32) (args : SpendArgs)
| Op_delegateLock (lockId : Bytes32) (args : DelegateArgs) (newSpender : EthAddress).

(** ** Parts *)

Definition zero32 : Bytes32 := zeros 32.
#[local] Arguments zero32 : simpl never.

Definition lockOf (l : Ledger) (lockId : Bytes32) : LedgerLock := default noLock (lg_locks l !! lockId).
Definition getLockId (l : Ledger) (id : Bytes32) : Bytes32 := default zero32 (lg_locked l !! id).
Definition lockStateOf (l : Ledger) (lockId : Bytes32) : Bytes32 := default zero32 (lg_lockStates l !! lockId).
Definition isUnspent (l : Ledger) (id : Bytes32) : bool := bool_decide (id ∈ lg_unspent l).
Definition isZero (b : Bytes32) : bool := String.eqb b zero32.

Definition revert {A} (name : string) : res A := Err (ErrExternal name).

Definition requireNotary (sender : EthAddress) (l : Ledger) : res unit :=
  if String.eqb sender (lg_notary l) then mret tt else revert "NotoNotNotary".

Definition requireSpender (sender : EthAddress) (lockId : Bytes32) (l : Ledger) : res unit :=
  if bool_decide (lk_spender (lockOf l lockId) = Some sender) then mret tt else revert "LockUnauthorized".

Definition lockActive (lockId : Bytes32) (l : Ledger) : res unit :=
  match lk_owner (lockOf l lockId) with Some _ => mret tt | None => revert "LockNotActive" end.

Definition useTxId (txId : Bytes32) (l : Ledger) : res Ledger :=
  if bool_decide (txId ∈ lg_txIds l) then revert "NotoDuplicateTransaction" else mret (l <| lg_txIds ::= union {[txId]} |>).

Definition _processInput (input : Bytes32) (l : Ledger) : res Ledger :=
  if isUnspent l input then mret (l <| lg_unspent ::= fun u => u ∖ {[input]} |>) else revert "NotoInvalidInput".

Definition newState_ (l : Ledger) (output : Bytes32) : bool := negb (isUnspent l output || negb (isZero (getLockId l output))).

Definition _processOutput (output : Bytes32) (l : Ledger) : res Ledger :=
  if newState_ l output then mret (l <| lg_unspent ::= union {[output]} |>) else revert "NotoInvalidOutput".

(** A loop over ids. *)
Fixpoint forEach (f : Bytes32 -> Ledger -> res Ledger) (ids : list Bytes32) (l : Ledger) : res Ledger :=
  match ids with [] => mret l | id :: rest => l ← f id l; forEach f rest l end.

Definition _processInputs := forEach _processInput.
Definition _processOutputs := forEach _processOutput.

Definition _processLockedInput (lockId input : Bytes32) (l : Ledger) : res Ledger :=
  if String.eqb (getLockId l input) lockId then mret (l <| lg_locked ::= delete input |>) else revert "NotoInvalidInput".

Definition _processLockedInputs (lockId : Bytes32) := forEach (_processLockedInput lockId).

Definition _checkLockedInputs (lockId : Bytes32) (inputs : list Bytes32) (l : Ledger) : res unit :=
  if forallb (fun input => String.eqb (getLockId l input) lockId) inputs then mret tt else revert "NotoInvalidInput".

Definition _processLockContent (lockId output : Bytes32) (l : Ledger) : res Ledger :=
  if newState_ l output then mret (l <| lg_locked ::= <[output := lockId]> |>) else revert "NotoInvalidOutput".

Definition _processLockContents (lockId : Bytes32) := forEach (_processLockContent lockId).

Definition _transitionLockState (lockId oldLockState newLockState : Bytes32) (l : Ledger) : res Ledger :=
  if negb (String.eqb (lockStateOf l lockId) oldLockState) then revert "NotoInvalidLockState"
  else
    l ← _processInput oldLockState l; l ← _processOutput newLockState l;
    mret (l <| lg_lockStates ::= <[lockId := newLockState]> |>).

Definition setLock (lockId : Bytes32) (f : LedgerLock -> LedgerLock) (l : Ledger) : Ledger :=
  l <| lg_locks ::= fun m => <[lockId := f (lockOf l lockId)]> m |>.

(** [_setLockOptions], called with a spend transaction that is not zero. *)
Definition _setLockOptions (lockId spendTxId : Bytes32) (l : Ledger) : res Ledger :=
  let old := lk_spendTxId (lockOf l lockId) in
  let store l := setLock lockId (fun k => k <| lk_spendTxId := spendTxId |>) l in
  if String.eqb old spendTxId then mret (store l)
  else if bool_decide (spendTxId ∈ lg_txIds l) then revert "NotoDuplicateTransaction"
  else
    let holder := default zero32 (lg_lockTxIds l !! spendTxId) in
    if negb (isZero holder) && negb (String.eqb holder lockId) then revert "NotoDuplicateSpendTransaction"
    else
      let l := if isZero old then l else l <| lg_lockTxIds ::= delete old |> in
      mret (store (l <| lg_lockTxIds ::= <[spendTxId := lockId]> |>)).

(** ** Running the parts *)

(** Inverts a call that did not revert. *)
Ltac executed :=
  repeat match goal with
  | H : (_ ≫= _) = Ok _ |- _ => apply bind_Ok in H as (? & ? & H)
  | H : mret _ = Ok _ |- _ => injection H as H
  | H : revert _ = Ok _ |- _ => discriminate H
  | H : Ok _ = Ok _ |- _ => injection H as H
  | u : unit |- _ => destruct u
  | H : (if ?b then _ else _) = Ok _ |- _ => let E := fresh "E" in destruct b eqn:E; try discriminate H
  end.

Lemma isZero_spec b : isZero b = true <-> b = zero32.
Proof. apply String.eqb_eq. Qed.

Lemma isUnspent_spec l x : isUnspent l x = true <-> x ∈ lg_unspent l.
Proof. apply bool_decide_eq_true. Qed.

Lemma newState_spec l x : newState_ l x = true <-> x ∉ lg_unspent l /\ getLockId l x = zero32.
Proof.
  unfold newState_. rewrite negb_true_iff, orb_false_iff, negb_false_iff, isZero_spec.
  unfold isUnspent. by rewrite bool_decide_eq_false.
Qed.

Lemma getLockId_Some l x lockId : lockId <> zero32 -> getLockId l x = lockId <-> lg_locked l !! x = Some lockId.
Proof. intros Hz. unfold getLockId. destruct (lg_locked l !! x); cbn; naive_solver. Qed.

Lemma getLockId_zero l x lockId : lockId <> zero32 -> getLockId l x = zero32 -> lg_locked l !! x <> Some lockId.
Proof. intros Hz Hg Hl. apply Hz. rewrite <- Hg. symmetry. by apply getLockId_Some. Qed.

Lemma processInput_Ok x l l' : _processInput x l = Ok l' <-> x ∈ lg_unspent l /\ l' = l <| lg_unspent := lg_unspent l ∖ {[x]} |>.
Proof.
  unfold _processInput. destruct (isUnspent l x) eqn:E; [apply isUnspent_spec in E|].
  - split; [by intros [= <-]|by intros [_ ->]].
  - split; [done|]. intros [Hx _]. apply isUnspent_spec in Hx. congruence.
Qed.

Lemma processOutput_Ok x l l' :
  _processOutput x l = Ok l' <-> x ∉ lg_unspent l /\ getLockId l x = zero32 /\ l' = l <| lg_unspent := {[x]} ∪ lg_unspent l |>.
Proof.
  unfold _processOutput. destruct (newState_ l x) eqn:E.
  - apply newState_spec in E as [??]. split; [by intros [= <-]|by intros (_ & _ & ->)].
  - split; [done|]. intros (Hx & Hg & _). by rewrite (proj2 (newState_spec l x)) in E.
Qed.

Lemma processLockedInput_Ok lockId x l l' :
  lockId <> zero32 ->
  _processLockedInput lockId x l = Ok l' <-> lg_locked l !! x = Some lockId /\ l' = l <| lg_locked := delete x (lg_locked l) |>.
Proof.
  intros Hz. unfold _processLockedInput. rewrite <- getLockId_Some by done. destruct (String.eqb_spec (getLockId l x) lockId) as [->|Hn].
  - split; [by intros [= <-]|by intros [_ ->]].
  - split; [done|by intros [? _]].
Qed.

Lemma processLockContent_Ok lockId x l l' :
  _processLockContent lockId x l = Ok l' <->
  x ∉ lg_unspent l /\ getLockId l x = zero32 /\ l' = l <| lg_locked := <[x := lockId]> (lg_locked l) |>.
Proof.
  unfold _processLockContent. destruct (newState_ l x) eqn:E.
  - apply newState_spec in E as [??]. split; [by intros [= <-]|by intros (_ & _ & ->)].
  - split; [done|]. intros (Hx & Hg & _). by rewrite (proj2 (newState_spec l x)) in E.
Qed.

Lemma forEach_cons f x ids l l' : forEach f (x :: ids) l = Ok l' <-> exists m, f x l = Ok m /\ forEach f ids m = Ok l'.
Proof. apply bind_Ok. Qed.

Lemma unspent_twice l a u v : u = v -> l <| lg_unspent := a |> <| lg_unspent := u |> = l <| lg_unspent := v |>.
Proof. by intros ->. Qed.

Lemma locked_twice l a u v : u = v -> l <| lg_locked := a |> <| lg_locked := u |> = l <| lg_locked := v |>.
Proof. by intros ->. Qed.

Lemma unspent_same l u : u = lg_unspent l -> l <| lg_unspent := u |> = l.
Proof. intros ->. by destruct l. Qed.

(** The loops succeed exactly when the ids are distinct and each is as it has to be. *)
Lemma processInputs_Ok ids l l' :
  _processInputs ids l = Ok l' <->
  NoDup ids /\ (forall x, x ∈ ids -> x ∈ lg_unspent l) /\ l' = l <| lg_unspent := lg_unspent l ∖ list_to_set ids |>.
Proof.
  unfold _processInputs. revert l. induction ids as [|x ids IH]; intros l.
  - cbn. split; [intros [= <-]|intros (_ & _ & ->)].
    + split; [constructor|split; [set_solver|]]. by rewrite unspent_same by set_solver.
    + by rewrite unspent_same by set_solver.
  - rewrite forEach_cons. split.
    + intros (m & Hp & Hr). apply processInput_Ok in Hp as [Hx ->]. apply IH in Hr as (Hnd & Hin & ->). cbn in Hin.
      split; [constructor; [|done]; intros Hc; apply Hin in Hc; set_solver|]. split; [set_solver|].
      apply unspent_twice. cbn. set_solver.
    + intros (Hnd & Hin & ->). apply NoDup_cons in Hnd as [Hx Hnd]. eexists. split; [apply processInput_Ok; split; [set_solver|done]|].
      apply IH. split; [done|]. split; [cbn; set_solver|]. symmetry. apply unspent_twice. cbn. set_solver.
Qed.

Lemma processOutputs_Ok ids l l' :
  _processOutputs ids l = Ok l' <->
  NoDup ids /\ (forall x, x ∈ ids -> x ∉ lg_unspent l /\ getLockId l x = zero32) /\ l' = l <| lg_unspent := list_to_set ids ∪ lg_unspent l |>.
Proof.
  unfold _processOutputs. revert l. induction ids as [|x ids IH]; intros l.
  - cbn. split; [intros [= <-]|intros (_ & _ & ->)].
    + split; [constructor|split; [set_solver|]]. by rewrite unspent_same by set_solver.
    + by rewrite unspent_same by set_solver.
  - rewrite forEach_cons. split.
    + intros (m & Hp & Hr). apply processOutput_Ok in Hp as (Hx & Hg & ->). apply IH in Hr as (Hnd & Hin & ->). unfold getLockId in Hin. cbn in Hin.
      split; [constructor; [|done]; intros Hc; apply Hin in Hc; set_solver|]. split.
      * intros y [->|Hy]%elem_of_cons; [done|]. destruct (Hin y Hy) as [Hu Hl]. split; [set_solver|done].
      * apply unspent_twice. cbn. set_solver.
    + intros (Hnd & Hin & ->). apply NoDup_cons in Hnd as [Hx Hnd]. eexists. split.
      * apply processOutput_Ok. split; [|split; [|done]]; apply Hin; set_solver.
      * apply IH. split; [done|]. split; [|symmetry; apply unspent_twice; cbn; set_solver].
        intros y Hy. destruct (Hin y) as [Hu Hl]; [set_solver|]. split; [cbn; set_solver|done].
Qed.

(** What is left locked without a list of states. *)
Definition unlockAll (ids : list Bytes32) (m : gmap Bytes32 Bytes32) : gmap Bytes32 Bytes32 := filter (fun kv => kv.1 ∉ ids) m.

Lemma unlockAll_lookup ids m x : unlockAll ids m !! x = if decide (x ∈ ids) then None else m !! x.
Proof.
  unfold unlockAll. case_decide as Hx.
  - apply map_lookup_filter_None. right. intros y _ Hc. by apply Hc.
  - destruct (m !! x) as [y|] eqn:Ey; [by apply map_lookup_filter_Some|apply map_lookup_filter_None; by left].
Qed.

Lemma unlockAll_cons x ids m : unlockAll ids (delete x m) = unlockAll (x :: ids) m.
Proof.
  apply map_eq. intros y. rewrite !unlockAll_lookup, lookup_delete. destruct (decide (y ∈ ids)), (decide (x = y)), (decide (y ∈ x :: ids)); set_solver.
Qed.

Lemma processLockedInputs_Ok lockId ids l l' :
  lockId <> zero32 ->
  _processLockedInputs lockId ids l = Ok l' <->
  NoDup ids /\ (forall x, x ∈ ids -> lg_locked l !! x = Some lockId) /\ l' = l <| lg_locked := unlockAll ids (lg_locked l) |>.
Proof.
  intros Hz. unfold _processLockedInputs. revert l. induction ids as [|x ids IH]; intros l.
  - cbn. assert (He : unlockAll [] (lg_locked l) = lg_locked l) by (apply map_eq; intros y; rewrite unlockAll_lookup; by case_decide; [set_solver|]).
    rewrite He. split; [intros [= <-]|intros (_ & _ & ->); by destruct l]. split; [constructor|split; [set_solver|by destruct l]].
  - rewrite forEach_cons. split.
    + intros (m & Hp & Hr). apply processLockedInput_Ok in Hp as [Hx ->]; [|done]. apply IH in Hr as (Hnd & Hin & ->). cbn in Hin.
      assert (Hni : x ∉ ids) by (intros Hc; apply Hin in Hc; by rewrite lookup_delete_eq in Hc).
      split; [by constructor|]. split.
      * intros y [->|Hy]%elem_of_cons; [done|]. specialize (Hin y Hy). by apply lookup_delete_Some in Hin as [_ ?].
      * apply locked_twice. apply unlockAll_cons.
    + intros (Hnd & Hin & ->). apply NoDup_cons in Hnd as [Hx Hnd]. eexists. split; [apply processLockedInput_Ok; [done|split; [apply Hin; set_solver|done]]|].
      apply IH. split; [done|]. split; [|symmetry; apply locked_twice; apply unlockAll_cons].
      intros y Hy. cbn. rewrite lookup_delete_ne by set_solver. apply Hin. set_solver.
Qed.

(** What a list of states is locked as. *)
Definition lockAll (lockId : Bytes32) (ids : list Bytes32) (m : gmap Bytes32 Bytes32) : gmap Bytes32 Bytes32 :=
  list_to_map ((fun x => (x, lockId)) <$> ids) ∪ m.

Lemma lockAll_lookup lockId ids m x : lockAll lockId ids m !! x = if decide (x ∈ ids) then Some lockId else m !! x.
Proof.
  unfold lockAll. induction ids as [|y ids IH]; cbn [fmap list_fmap list_to_map foldr uncurry]; [rewrite map_empty_union; by rewrite decide_False by apply not_elem_of_nil|].
  rewrite <- insert_union_l, lookup_insert. rewrite IH. repeat case_decide; set_solver.
Qed.

Lemma lockAll_cons lockId x ids m : lockAll lockId ids (<[x := lockId]> m) = lockAll lockId (x :: ids) m.
Proof.
  apply map_eq. intros y. rewrite !lockAll_lookup, lookup_insert. destruct (decide (y ∈ ids)), (decide (x = y)), (decide (y ∈ x :: ids)); set_solver.
Qed.

Lemma processLockContents_Ok lockId ids l l' :
  lockId <> zero32 ->
  _processLockContents lockId ids l = Ok l' <->
  NoDup ids /\ (forall x, x ∈ ids -> x ∉ lg_unspent l /\ getLockId l x = zero32) /\ l' = l <| lg_locked := lockAll lockId ids (lg_locked l) |>.
Proof.
  intros Hz. unfold _processLockContents. revert l. induction ids as [|x ids IH]; intros l.
  - cbn [forEach]. assert (He : lockAll lockId [] (lg_locked l) = lg_locked l) by (apply map_eq; intros y; rewrite lockAll_lookup; by case_decide; [set_solver|]).
    rewrite He. split; [intros [= <-]|intros (_ & _ & ->); by destruct l].
    split; [constructor|split; [set_solver|by destruct l]].
  - rewrite forEach_cons. split.
    + intros (m & Hp & Hr). apply processLockContent_Ok in Hp as (Hx & Hg & ->). apply IH in Hr as (Hnd & Hin & ->). unfold getLockId in Hin. cbn in Hin.
      assert (Hni : x ∉ ids) by (intros Hc; apply Hin in Hc as [_ Hc]; rewrite lookup_insert_eq in Hc; by cbn in Hc).
      split; [by constructor|]. split.
      * intros y [->|Hy]%elem_of_cons; [done|]. destruct (Hin y Hy) as [Hu Hl]. split; [done|].
        rewrite lookup_insert_ne in Hl by set_solver. done.
      * apply locked_twice. apply lockAll_cons.
    + intros (Hnd & Hin & ->). apply NoDup_cons in Hnd as [Hx Hnd]. eexists. split.
      * apply processLockContent_Ok. split; [|split; [|done]]; apply Hin; set_solver.
      * apply IH. split; [done|]. split.
        { intros y Hy. destruct (Hin y) as [Hu Hl]; [set_solver|]. split; [done|]. unfold getLockId in *. cbn. rewrite lookup_insert_ne by set_solver. done. }
        { symmetry. apply locked_twice. apply lockAll_cons. }
Qed.

(** ** The bookkeeping of locked states *)

(** The states locked under a lock. *)
Definition heldBy (m : gmap Bytes32 Bytes32) (lockId : Bytes32) : gset Bytes32 := dom (filter (fun kv => kv.2 = lockId) m).

Lemma elem_of_heldBy m lockId x : x ∈ heldBy m lockId <-> m !! x = Some lockId.
Proof.
  unfold heldBy. rewrite elem_of_dom. split.
  - intros [y [Hy E]%map_lookup_filter_Some]. cbn in E. by subst.
  - intros Hx. exists lockId. by apply map_lookup_filter_Some.
Qed.

(** No state is both unspent and locked; the count of a lock is the number of states locked under it,
    but for those still to be locked under [lockId]; zero is no lock and locks nothing; what is not active is empty. *)
Record sound (lockId : Bytes32) (pending : nat) (l : Ledger) : Prop := {
  so_disjoint x : x ∈ lg_unspent l -> getLockId l x = zero32;
  so_counts id : id <> zero32 ->
    lk_lockedStateCount (lockOf l id) = size (heldBy (lg_locked l) id) + (if decide (id = lockId) then pending else 0);
  so_zero : lk_owner (lockOf l zero32) = None;
  so_inactive id : lk_owner (lockOf l id) = None -> lockOf l id = noLock;
  so_locked x : lg_locked l !! x <> Some zero32 }.

Definition consistent (l : Ledger) : Prop := sound zero32 0 l.

Lemma sound_any a b l : sound a 0 l -> sound b 0 l.
Proof.
  intros [H1 H2 H3 H4 H5]. split; try done. intros id Hid. rewrite (H2 id Hid). by do 2 case_decide.
Qed.

Lemma sound_ext lockId pending l l' :
  lg_locked l' = lg_locked l -> lg_locks l' = lg_locks l ->
  (forall x, x ∈ lg_unspent l' -> x ∈ lg_unspent l \/ getLockId l x = zero32) -> sound lockId pending l -> sound lockId pending l'.
Proof.
  intros E1 E2 Hu [H1 H2 H3 H4 H5].
  split; unfold getLockId, lockOf in *; rewrite ?E1, ?E2; try done. intros x [Hx|Hx]%Hu; auto.
Qed.

Lemma sound_useTxId lockId pending txId l l' : useTxId txId l = Ok l' -> sound lockId pending l -> sound lockId pending l'.
Proof. unfold useTxId. intros Hu. executed. subst. apply sound_ext; auto. Qed.

Lemma sound_inputs lockId pending ids l l' : _processInputs ids l = Ok l' -> sound lockId pending l -> sound lockId pending l'.
Proof. intros (_ & _ & ->)%processInputs_Ok. apply sound_ext; [done..|]. cbn. set_solver. Qed.

Lemma sound_outputs lockId pending ids l l' : _processOutputs ids l = Ok l' -> sound lockId pending l -> sound lockId pending l'.
Proof. intros (_ & Ho & ->)%processOutputs_Ok. apply sound_ext; [done..|]. cbn. intros y [Hy%elem_of_list_to_set|?]%elem_of_union; [right; by apply Ho|auto]. Qed.

Lemma sound_input lockId pending x l l' : _processInput x l = Ok l' -> sound lockId pending l -> sound lockId pending l'.
Proof. intros [_ ->]%processInput_Ok. apply sound_ext; [done..|]. cbn. set_solver. Qed.

Lemma sound_output lockId pending x l l' : _processOutput x l = Ok l' -> sound lockId pending l -> sound lockId pending l'.
Proof. intros (_ & Ho & ->)%processOutput_Ok. apply sound_ext; [done..|]. cbn. intros y [->%elem_of_singleton|?]%elem_of_union; auto. Qed.

Lemma sound_transitionLockState lockId pending id a b l l' : _transitionLockState id a b l = Ok l' -> sound lockId pending l -> sound lockId pending l'.
Proof.
  unfold _transitionLockState. intros Ht. executed. subst. intros Hs.
  match goal with Ho : _processOutput _ _ = Ok ?m |- _ => apply (sound_ext _ _ m); [done|done|by left|]; eapply sound_output; [exact Ho|] end.
  by eapply sound_input.
Qed.

Lemma lockOf_setLock l lockId f id : lockOf (setLock lockId f l) id = if decide (lockId = id) then f (lockOf l lockId) else lockOf l id.
Proof. unfold setLock, lockOf. cbn. rewrite lookup_insert. by case_decide. Qed.

Lemma sound_setLock lockId pending id f l :
  (forall k, lk_owner (f k) = lk_owner k /\ lk_lockedStateCount (f k) = lk_lockedStateCount k) -> lk_owner (lockOf l id) <> None ->
  sound lockId pending l -> sound lockId pending (setLock id f l).
Proof.
  intros Hf Ha [H1 H2 H3 H4 H5]. split; try done.
  - intros id' Hid. rewrite lockOf_setLock. cbn [setLock lg_locked field_set]. rewrite <- H2 by done. case_decide; [subst; apply Hf|done].
  - rewrite lockOf_setLock. case_decide; [|done]. subst. congruence.
  - intros id'. rewrite lockOf_setLock. case_decide; [|apply H4]. subst. rewrite (proj1 (Hf _)). congruence.
Qed.

Lemma sound_setLockOptions lockId pending id spendTxId l l' :
  _setLockOptions id spendTxId l = Ok l' -> lk_owner (lockOf l id) <> None -> sound lockId pending l -> sound lockId pending l'.
Proof.
  unfold _setLockOptions. intros Ho Ha Hs. executed; subst; (apply sound_setLock; [done| |]); try done.
  - by destruct (isZero (lk_spendTxId (lockOf l id))).
  - by destruct (isZero (lk_spendTxId (lockOf l id))); (apply (sound_ext _ _ l); [done|done|by left|]).
Qed.

Lemma sound_contents lockId pending ids l l' :
  lockId <> zero32 -> _processLockContents lockId ids l = Ok l' -> sound lockId (length ids + pending) l -> sound lockId pending l'.
Proof.
  intros Hz (Hnd & Hn & ->)%processLockContents_Ok [H1 H2 H3 H4 H5]; [|done].
  assert (Hd : forall x id, id <> zero32 -> x ∈ ids -> x ∉ heldBy (lg_locked l) id).
  { intros x id Hid Hx Hc%elem_of_heldBy. apply (getLockId_zero l x id); [done|by apply Hn|done]. }
  split; try done.
  - intros x Hx. unfold getLockId. cbn. rewrite lockAll_lookup. case_decide as Hi; [by apply Hn in Hi as [? _]|by apply H1].
  - intros id Hid. change (lockOf _ id) with (lockOf l id). rewrite (H2 id Hid). cbn [lg_locked field_set].
    case_decide as E; [subst id|].
    + assert (heldBy (lockAll lockId ids (lg_locked l)) lockId = list_to_set ids ∪ heldBy (lg_locked l) lockId) as ->.
      { apply set_eq. intros x. rewrite elem_of_union, elem_of_list_to_set, !elem_of_heldBy, lockAll_lookup. case_decide; naive_solver. }
      rewrite size_union, size_list_to_set by set_solver. lia.
    + assert (heldBy (lockAll lockId ids (lg_locked l)) id = heldBy (lg_locked l) id) as ->; [|done].
      apply set_eq. intros x. rewrite !elem_of_heldBy, lockAll_lookup. case_decide as Hi; [|done].
      split; [congruence|]. intros Hc%elem_of_heldBy. by apply Hd in Hc.
  - intros x. cbn. rewrite lockAll_lookup. case_decide; [congruence|apply H5].
Qed.

Lemma sound_lockedInputs lockId ids l l' :
  lockId <> zero32 -> _processLockedInputs lockId ids l = Ok l' -> sound lockId 0 l -> sound lockId (length ids) l'.
Proof.
  intros Hz (Hnd & Hn & ->)%processLockedInputs_Ok [H1 H2 H3 H4 H5]; [|done]. split; try done.
  - intros x Hx. unfold getLockId. cbn. rewrite unlockAll_lookup. case_decide as Hi; [done|by apply H1].
  - intros id Hid. change (lockOf _ id) with (lockOf l id). rewrite (H2 id Hid). cbn [lg_locked field_set].
    case_decide as E; [subst id|].
    + assert (heldBy (unlockAll ids (lg_locked l)) lockId = heldBy (lg_locked l) lockId ∖ list_to_set ids) as ->.
      { apply set_eq. intros x. rewrite elem_of_difference, elem_of_list_to_set, !elem_of_heldBy, unlockAll_lookup. case_decide; naive_solver. }
      assert (Hsub : list_to_set ids ⊆ heldBy (lg_locked l) lockId) by (intros x Hx%elem_of_list_to_set; by apply elem_of_heldBy, Hn).
      rewrite size_difference by done. apply subseteq_size in Hsub. pose proof (size_list_to_set (C := gset Bytes32) ids Hnd). lia.
    + assert (heldBy (unlockAll ids (lg_locked l)) id = heldBy (lg_locked l) id) as ->; [|done].
      apply set_eq. intros x. rewrite !elem_of_heldBy, unlockAll_lookup. case_decide as Hi; [|done]. split; [done|]. intros Hc. apply Hn in Hi. congruence.
  - intros x. cbn. rewrite unlockAll_lookup. case_decide; [done|apply H5].
Qed.

Lemma lockOf_delete l lockId id :
  lockOf (l <| lg_locks ::= delete lockId |> <| lg_lockStates ::= delete lockId |>) id = if decide (lockId = id) then noLock else lockOf l id.
Proof. unfold lockOf. cbn. rewrite lookup_delete. by case_decide. Qed.

Lemma sound_delete lockId l :
  sound lockId (lk_lockedStateCount (lockOf l lockId)) l -> sound lockId 0 (l <| lg_locks ::= delete lockId |> <| lg_lockStates ::= delete lockId |>).
Proof.
  intros [H1 H2 H3 H4 H5]. split; try done.
  - intros id Hid. specialize (H2 id Hid). rewrite lockOf_delete. cbn [lg_locked field_set].
    destruct (decide (lockId = id)) as [<-|Hne]; [|rewrite H2; repeat case_decide; congruence].
    rewrite decide_True in H2 by done. case_decide; [|done]. cbn. lia.
  - rewrite lockOf_delete. by case_decide.
  - intros id. rewrite lockOf_delete. case_decide; [done|apply H4].
Qed.

Section Contract.
(** [_computeLockId] of the caller and a transaction id, and [_unlockHash]. *)
Context (computeLockId : EthAddress -> Bytes32 -> Bytes32) (unlockHash : SpendArgs -> Bytes32).

(** ** Functions *)

Definition transfer (sender : EthAddress) (txId : Bytes32) (inputs outputs : list Bytes32) (l : Ledger) : res Ledger :=
  requireNotary sender l ≫= fun _ =>
  l ← useTxId txId l; l ← _processInputs inputs l; _processOutputs outputs l.

Definition mint (sender : EthAddress) (txId : Bytes32) (outputs : list Bytes32) (l : Ledger) : res Ledger := transfer sender txId [] outputs l.

Definition createLock (sender : EthAddress) (args : CreateArgs) (spendCommitment cancelCommitment : Bytes32) (l : Ledger) : res Ledger :=
  requireNotary sender l ≫= fun _ =>
  let lockId := computeLockId sender (ca_txId args) in
  match lk_owner (lockOf l lockId) with
  | Some _ => revert "NotoDuplicateLock"
  | None =>
      let l := setLock lockId (fun k => k <| lk_owner := Some sender |> <| lk_spender := Some sender |> <| lk_lockedStateCount := length (ca_contents args) |>) l in
      l ← useTxId (ca_txId args) l;
      l ← _processInputs (ca_inputs args) l;
      l ← _processOutputs (ca_outputs args) l;
      l ← _processLockContents lockId (ca_contents args) l;
      l ← _processOutput (ca_newLockState args) l;
      let l := l <| lg_lockStates ::= <[lockId := ca_newLockState args]> |> in
      let l := setLock lockId (fun k => k <| lk_spendCommitment := spendCommitment |> <| lk_cancelCommitment := cancelCommitment |>) l in
      if isZero (ca_spendTxId args) then mret l else _setLockOptions lockId (ca_spendTxId args) l
  end.

Definition updateLock (sender : EthAddress) (lockId : Bytes32) (args : UpdateArgs) (spendCommitment cancelCommitment : Bytes32) (l : Ledger) : res Ledger :=
  lockActive lockId l ≫= fun _ =>
  requireNotary sender l ≫= fun _ =>
  let lock := lockOf l lockId in
  if negb (bool_decide (lk_owner lock = lk_spender lock)) then revert "LockImmutable"
  else
    l ← useTxId (ua_txId args) l;
    if negb (lk_lockedStateCount lock =? length (ua_contents args))%nat then revert "NotoInvalidUnlockInputs"
    else
      _checkLockedInputs lockId (ua_contents args) l ≫= fun _ =>
      l ← _transitionLockState lockId (ua_oldLockState args) (ua_newLockState args) l;
      let l := setLock lockId (fun k => k <| lk_spendCommitment := spendCommitment |> <| lk_cancelCommitment := cancelCommitment |>) l in
      if isZero (ua_spendTxId args) then mret l else _setLockOptions lockId (ua_spendTxId args) l.

Definition _spendLock (lockId expectedHash : Bytes32) (unlockOp : SpendArgs) (l : Ledger) : res Ledger :=
  let lock := lockOf l lockId in
  let oldLockState := lockStateOf l lockId in
  if negb (isZero (lk_spendTxId lock)) && negb (String.eqb (lk_spendTxId lock) (sa_txId unlockOp)) then revert "NotoInvalidTransaction"
  else
    l ← useTxId (sa_txId unlockOp) l;
    if negb (isZero expectedHash) && negb (String.eqb (unlockHash unlockOp) expectedHash) then revert "NotoInvalidUnlockHash"
    else if negb (lk_lockedStateCount lock =? length (sa_inputs unlockOp))%nat then revert "NotoInvalidUnlockInputs"
    else
      l ← _processInput oldLockState l;
      l ← _processLockedInputs lockId (sa_inputs unlockOp) l;
      l ← _processOutputs (sa_outputs unlockOp) l;
      mret (l <| lg_locks ::= delete lockId |> <| lg_lockStates ::= delete lockId |>).

Definition spendLock (sender : EthAddress) (lockId : Bytes32) (args : SpendArgs) (l : Ledger) : res Ledger :=
  lockActive lockId l ≫= fun _ =>
  requireSpender sender lockId l ≫= fun _ =>
  _spendLock lockId (lk_spendCommitment (lockOf l lockId)) args l.

Definition cancelLock (sender : EthAddress) (lockId : Bytes32) (args : SpendArgs) (l : Ledger) : res Ledger :=
  lockActive lockId l ≫= fun _ =>
  requireSpender sender lockId l ≫= fun _ =>
  _spendLock lockId (lk_cancelCommitment (lockOf l lockId)) args l.

(** Delegation to the zero address leaves a lock that nobody can spend: no call has that sender. *)
Definition delegateLock (sender : EthAddress) (lockId : Bytes32) (args : DelegateArgs) (newSpender : EthAddress) (l : Ledger) : res Ledger :=
  lockActive lockId l ≫= fun _ =>
  requireSpender sender lockId l ≫= fun _ =>
  let lock := lockOf l lockId in
  if isZero (lk_spendCommitment lock) || isZero (lk_cancelCommitment lock) then revert "NotoDelegationConditionsNotSet"
  else
    l ← useTxId (da_txId args) l;
    let l := setLock lockId (fun k => k <| lk_spender := Some newSpender |>) l in
    _transitionLockState lockId (da_oldLockState args) (da_newLockState args) l.

Definition execute (sender : EthAddress) (op : LedgerOp) (l : Ledger) : res Ledger :=
  match op with
  | Op_transfer txId inputs outputs => transfer sender txId inputs outputs l
  | Op_mint txId outputs => mint sender txId outputs l
  | Op_createLock args sc cc => createLock sender args sc cc l
  | Op_updateLock lockId args sc cc => updateLock sender lockId args sc cc l
  | Op_spendLock lockId args => spendLock sender lockId args l
  | Op_cancelLock lockId args => cancelLock sender lockId args l
  | Op_delegateLock lockId args newSpender => delegateLock sender lockId args newSpender l
  end.

(** A contract that was just initialised, and the memories it can come to. *)
Definition initialize (notary : EthAddress) : Ledger := MkLedger notary ∅ ∅ ∅ ∅ ∅ ∅.

Inductive reachable (notary : EthAddress) : Ledger -> Prop :=
| reachable_initialize : reachable notary (initialize notary)
| reachable_execute l sender op l' : reachable notary l -> execute sender op l = Ok l' -> reachable notary l'.

(** ** Every call keeps the books *)

Section Books.
(** No lock has the id zero: Keccak of an encoding is not zero. *)
Context (lockId_nonzero : forall sender txId, computeLockId sender txId <> zero32).

Lemma consistent_nonzero l lockId a : consistent l -> lk_owner (lockOf l lockId) = Some a -> lockId <> zero32.
Proof. intros [_ _ Hz _ _] Ha ->. congruence. Qed.

Lemma lockActive_Ok lockId l u : lockActive lockId l = Ok u -> exists a, lk_owner (lockOf l lockId) = Some a.
Proof. unfold lockActive. destruct (lk_owner _); [eauto|discriminate]. Qed.

Lemma transfer_sound sender txId inputs outputs l l' : transfer sender txId inputs outputs l = Ok l' -> consistent l -> consistent l'.
Proof.
  unfold transfer. intros Ht Hs. executed. eapply sound_outputs; [eassumption|]. eapply sound_inputs; [eassumption|]. by eapply sound_useTxId.
Qed.

(** The parts that leave the locks alone. *)
Lemma parts_keep_locks l l' :
  (exists txId, useTxId txId l = Ok l') \/ (exists ids, _processInputs ids l = Ok l') \/ (exists ids, _processOutputs ids l = Ok l') \/
  (exists lockId ids, lockId <> zero32 /\ _processLockContents lockId ids l = Ok l') \/
  (exists lockId ids, lockId <> zero32 /\ _processLockedInputs lockId ids l = Ok l') \/
  (exists x, _processInput x l = Ok l') \/ (exists x, _processOutput x l = Ok l') -> lg_locks l' = lg_locks l.
Proof.
  intros [(txId & Hu)|[(ids & Hi)|[(ids & Ho)|[(lockId & ids & Hz & Hc)|[(lockId & ids & Hz & Hc)|[(x & Hi)|(x & Ho)]]]]]].
  - unfold useTxId in Hu. executed. by subst.
  - by apply processInputs_Ok in Hi as (_ & _ & ->).
  - by apply processOutputs_Ok in Ho as (_ & _ & ->).
  - by apply processLockContents_Ok in Hc as (_ & _ & ->).
  - by apply processLockedInputs_Ok in Hc as (_ & _ & ->).
  - by apply processInput_Ok in Hi as (_ & ->).
  - by apply processOutput_Ok in Ho as (_ & _ & ->).
Qed.

Lemma lockOf_same l l' lockId : lg_locks l' = lg_locks l -> lockOf l' lockId = lockOf l lockId.
Proof. unfold lockOf. by intros ->. Qed.

(** A lock is created with what it is to hold still pending. *)
Lemma sound_created sender lockId count l :
  lockId <> zero32 -> lk_owner (lockOf l lockId) = None -> consistent l ->
  sound lockId count (setLock lockId (fun k => k <| lk_owner := Some sender |> <| lk_spender := Some sender |> <| lk_lockedStateCount := count |>) l).
Proof.
  intros Hz Eo [H1 H2 H3 H4 H5]. split; try done.
  - intros id Hid. rewrite lockOf_setLock. cbn [setLock lg_locked field_set]. specialize (H2 id Hid).
    destruct (decide (lockId = id)) as [<-|Hne]; [|rewrite H2; repeat case_decide; congruence].
    rewrite decide_False in H2 by done. rewrite (H4 _ Eo) in H2. rewrite decide_True by done. cbn in *. lia.
  - rewrite lockOf_setLock. by case_decide.
  - intros id. rewrite lockOf_setLock. case_decide; [done|apply H4].
Qed.

Lemma sound_committed lockId id sc cc spendTxId l l' :
  (if isZero spendTxId then mret (setLock id (fun k => k <| lk_spendCommitment := sc |> <| lk_cancelCommitment := cc |>) l)
   else _setLockOptions id spendTxId (setLock id (fun k => k <| lk_spendCommitment := sc |> <| lk_cancelCommitment := cc |>) l)) = Ok l' ->
  lk_owner (lockOf l id) <> None -> sound lockId 0 l -> sound lockId 0 l'.
Proof.
  intros Ho Ha Hs. executed; subst; [by apply sound_setLock|].
  eapply sound_setLockOptions; [eassumption| |by apply sound_setLock]. by rewrite lockOf_setLock, decide_True.
Qed.

Lemma createLock_sound sender args sc cc l l' : createLock sender args sc cc l = Ok l' -> consistent l -> consistent l'.
Proof.
  unfold createLock. intros ([] & _ & Hc)%bind_Ok Hs. set (lockId := computeLockId sender (ca_txId args)) in *.
  destruct (lk_owner (lockOf l lockId)) eqn:Eo; [discriminate|].
  assert (Hz : lockId <> zero32) by apply lockId_nonzero.
  apply bind_Ok in Hc as (l1 & Hu & Hc). apply bind_Ok in Hc as (l2 & Hi & Hc). apply bind_Ok in Hc as (l3 & Ho & Hc).
  apply bind_Ok in Hc as (l4 & Hl & Hc). apply bind_Ok in Hc as (l5 & Hn & Hc).
  apply (sound_any lockId). eapply (sound_committed _ _ _ _ _ (l5 <| lg_lockStates ::= <[lockId := ca_newLockState args]> |>)); [exact Hc| |].
  - rewrite (lockOf_same l5) by done. rewrite (lockOf_same l4) by (apply parts_keep_locks; naive_solver).
    rewrite (lockOf_same l3) by (apply parts_keep_locks; naive_solver). rewrite (lockOf_same l2) by (apply parts_keep_locks; naive_solver).
    rewrite (lockOf_same l1) by (apply parts_keep_locks; naive_solver). rewrite (lockOf_same _ l1) by (apply parts_keep_locks; naive_solver).
    by rewrite lockOf_setLock, decide_True.
  - apply (sound_ext _ _ l5); [done|done|by left|]. eapply sound_output; [exact Hn|]. eapply sound_contents; [done|exact Hl|].
    rewrite Nat.add_0_r. eapply sound_outputs; [exact Ho|]. eapply sound_inputs; [exact Hi|]. eapply sound_useTxId; [exact Hu|]. by apply sound_created.
Qed.

Lemma transition_keeps_locks lockId a b l l' : _transitionLockState lockId a b l = Ok l' -> lg_locks l' = lg_locks l.
Proof.
  unfold _transitionLockState. intros Ht. executed. subst. cbn. transitivity (lg_locks x); apply parts_keep_locks; naive_solver.
Qed.

Lemma updateLock_sound sender lockId args sc cc l l' : updateLock sender lockId args sc cc l = Ok l' -> consistent l -> consistent l'.
Proof.
  unfold updateLock. intros (u & [a Ha]%lockActive_Ok & Hc)%bind_Ok Hs. apply bind_Ok in Hc as ([] & _ & Hc).
  destruct (negb _); [discriminate|]. apply bind_Ok in Hc as (l1 & Hu & Hc). destruct (negb _); [discriminate|].
  apply bind_Ok in Hc as ([] & _ & Hc). apply bind_Ok in Hc as (l2 & Ht & Hc).
  eapply sound_committed; [exact Hc| |eapply sound_transitionLockState; [exact Ht|]; by eapply sound_useTxId].
  rewrite (lockOf_same l1) by by eapply transition_keeps_locks. rewrite (lockOf_same l) by (apply parts_keep_locks; naive_solver). congruence.
Qed.

Lemma spendLock_sound_ lockId hash args l l' a :
  lk_owner (lockOf l lockId) = Some a -> _spendLock lockId hash args l = Ok l' -> consistent l -> consistent l'.
Proof.
  unfold _spendLock. intros Ha Hc Hs. assert (Hz : lockId <> zero32) by by eapply consistent_nonzero.
  destruct (negb _ && _)%bool; [discriminate|]. apply bind_Ok in Hc as (l1 & Hu & Hc). destruct (negb _ && _)%bool; [discriminate|].
  destruct (lk_lockedStateCount (lockOf l lockId) =? length (sa_inputs args))%nat eqn:En; [|discriminate]. apply Nat.eqb_eq in En. cbn in Hc.
  apply bind_Ok in Hc as (l2 & Hi & Hc). apply bind_Ok in Hc as (l3 & Hl & Hc). apply bind_Ok in Hc as (l4 & Ho & Hc).
  injection Hc as <-. apply (sound_any lockId), sound_delete.
  assert (lockOf l4 lockId = lockOf l lockId) as ->.
  { rewrite (lockOf_same l3) by (apply parts_keep_locks; naive_solver). rewrite (lockOf_same l2) by (apply parts_keep_locks; naive_solver).
    rewrite (lockOf_same l1) by (apply parts_keep_locks; naive_solver). by rewrite (lockOf_same l) by (apply parts_keep_locks; naive_solver). }
  rewrite En. eapply sound_outputs; [exact Ho|]. eapply sound_lockedInputs; [done|exact Hl|]. eapply sound_input; [exact Hi|].
  eapply sound_useTxId; [exact Hu|]. by eapply sound_any.
Qed.

Lemma delegateLock_sound sender lockId args newSpender l l' : delegateLock sender lockId args newSpender l = Ok l' -> consistent l -> consistent l'.
Proof.
  unfold delegateLock. intros (u & [a Ha]%lockActive_Ok & Hc)%bind_Ok Hs. apply bind_Ok in Hc as ([] & _ & Hc).
  destruct (_ || _)%bool; [discriminate|]. apply bind_Ok in Hc as (l1 & Hu & Hc). eapply sound_transitionLockState; [exact Hc|].
  apply sound_setLock; [done| |by eapply sound_useTxId]. rewrite (lockOf_same l) by (apply parts_keep_locks; naive_solver). congruence.
Qed.

Lemma execute_sound sender op l l' : execute sender op l = Ok l' -> consistent l -> consistent l'.
Proof.
  destruct op; cbn [execute].
  - apply transfer_sound.
  - apply transfer_sound.
  - apply createLock_sound.
  - apply updateLock_sound.
  - intros (u & [a Ha]%lockActive_Ok & Hc)%bind_Ok. apply bind_Ok in Hc as ([] & _ & Hc). by eapply spendLock_sound_.
  - intros (u & [a Ha]%lockActive_Ok & Hc)%bind_Ok. apply bind_Ok in Hc as ([] & _ & Hc). by eapply spendLock_sound_.
  - apply delegateLock_sound.
Qed.

Lemma reachable_consistent notary l : reachable notary l -> consistent l.
Proof.
  induction 1 as [|l sender op l' _ IH He]; [|by eapply execute_sound].
  split; cbn; [set_solver| |done|done|done]. intros id _. unfold lockOf, heldBy. cbn. rewrite lookup_empty. cbn.
  rewrite map_filter_empty, dom_empty_L, size_empty. by case_decide.
Qed.

(** ** What locks promise *)

(** The parts that leave the locked states alone. *)
Lemma parts_keep_locked l l' :
  (exists txId, useTxId txId l = Ok l') \/ (exists ids, _processInputs ids l = Ok l') \/ (exists ids, _processOutputs ids l = Ok l') \/
  (exists x, _processInput x l = Ok l') \/ (exists x, _processOutput x l = Ok l') \/
  (exists lockId a b, _transitionLockState lockId a b l = Ok l') \/ (exists lockId txId, _setLockOptions lockId txId l = Ok l') -> lg_locked l' = lg_locked l.
Proof.
  intros [(txId & Hu)|[(ids & Hi)|[(ids & Ho)|[(x & Hi)|[(x & Ho)|[(lockId & a & b & Ht)|(lockId & txId & Hs)]]]]]].
  - unfold useTxId in Hu. executed. by subst.
  - by apply processInputs_Ok in Hi as (_ & _ & ->).
  - by apply processOutputs_Ok in Ho as (_ & _ & ->).
  - by apply processInput_Ok in Hi as (_ & ->).
  - by apply processOutput_Ok in Ho as (_ & _ & ->).
  - unfold _transitionLockState in Ht. executed. subst. cbn.
    match goal with Hi : _processInput _ _ = _, Ho : _processOutput _ _ = _ |- _ => apply processInput_Ok in Hi as (_ & ->); by apply processOutput_Ok in Ho as (_ & _ & ->) end.
  - unfold _setLockOptions in Hs. executed; subst; [done|]. by destruct (isZero (lk_spendTxId (lockOf l lockId))).
Qed.

Lemma transfer_keeps_locked sender txId inputs outputs l l' : transfer sender txId inputs outputs l = Ok l' -> lg_locked l' = lg_locked l /\ lg_locks l' = lg_locks l.
Proof.
  unfold transfer. intros Ht. executed. split.
  - transitivity (lg_locked x1); [|transitivity (lg_locked x0)]; apply parts_keep_locked; naive_solver.
  - transitivity (lg_locks x1); [|transitivity (lg_locks x0)]; apply parts_keep_locks; naive_solver.
Qed.

(** What a lock is created from: nothing else is unlocked, and other locks stay as they are. *)
Lemma createLock_locked sender args sc cc l l' :
  createLock sender args sc cc l = Ok l' ->
  let lockId := computeLockId sender (ca_txId args) in
  lk_owner (lockOf l lockId) = None /\ NoDup (ca_contents args) /\
  (forall x, x ∈ ca_contents args -> getLockId l x = zero32) /\ lg_locked l' = lockAll lockId (ca_contents args) (lg_locked l).
Proof.
  unfold createLock. intros ([] & _ & Hc)%bind_Ok. cbv zeta. set (lockId := computeLockId sender (ca_txId args)) in *.
  destruct (lk_owner (lockOf l lockId)) eqn:Eo; [discriminate|].
  assert (Hz : lockId <> zero32) by apply lockId_nonzero.
  apply bind_Ok in Hc as (l1 & Hu & Hc). apply bind_Ok in Hc as (l2 & Hi & Hc). apply bind_Ok in Hc as (l3 & Ho & Hc).
  apply bind_Ok in Hc as (l4 & Hl & Hc). apply bind_Ok in Hc as (l5 & Hn & Hc).
  assert (E3 : lg_locked l3 = lg_locked l).
  { transitivity (lg_locked l2); [apply parts_keep_locked; naive_solver|]. transitivity (lg_locked l1); [apply parts_keep_locked; naive_solver|].
    etransitivity; [apply parts_keep_locked; left; eexists; exact Hu|done]. }
  assert (E5 : lg_locked l' = lg_locked l4).
  { transitivity (lg_locked l5); [|apply parts_keep_locked; naive_solver]. executed; [by subst|].
    etransitivity; [apply parts_keep_locked; do 6 right; do 2 eexists; exact Hc|done]. }
  apply processLockContents_Ok in Hl as (Hnd & Hx & ->); [|done]. rewrite E5. cbn. rewrite E3. split_and!; [done|done| |done].
  intros x Hin. apply Hx in Hin as [_ Hg]. unfold getLockId in *. by rewrite E3 in Hg.
Qed.

Lemma updateLock_keeps_locked sender lockId args sc cc l l' : updateLock sender lockId args sc cc l = Ok l' -> lg_locked l' = lg_locked l.
Proof.
  unfold updateLock. intros (u & _ & Hc)%bind_Ok. apply bind_Ok in Hc as ([] & _ & Hc).
  destruct (negb _); [discriminate|]. apply bind_Ok in Hc as (l1 & Hu & Hc). destruct (negb _); [discriminate|].
  apply bind_Ok in Hc as ([] & _ & Hc). apply bind_Ok in Hc as (l2 & Ht & Hc).
  transitivity (lg_locked l2); [|transitivity (lg_locked l1); apply parts_keep_locked; [do 5 right; left; do 3 eexists; eassumption|naive_solver]].
  executed; [by subst|]. etransitivity; [apply parts_keep_locked; do 6 right; do 2 eexists; exact Hc|done].
Qed.

Lemma delegateLock_keeps_locked sender lockId args newSpender l l' : delegateLock sender lockId args newSpender l = Ok l' -> lg_locked l' = lg_locked l.
Proof.
  unfold delegateLock. intros (u & _ & Hc)%bind_Ok. apply bind_Ok in Hc as ([] & _ & Hc).
  destruct (_ || _)%bool; [discriminate|]. apply bind_Ok in Hc as (l1 & Hu & Hc).
  etransitivity; [apply parts_keep_locked; do 5 right; left; do 3 eexists; eassumption|]. cbn. apply parts_keep_locked. naive_solver.
Qed.

(** A spend that succeeds: the whole of the lock, as committed. *)
Lemma _spendLock_inv lockId hash args l l' a :
  lk_owner (lockOf l lockId) = Some a -> consistent l -> _spendLock lockId hash args l = Ok l' ->
  (hash <> zero32 -> unlockHash args = hash) /\ heldBy (lg_locked l) lockId = list_to_set (sa_inputs args) /\
  lg_locked l' = unlockAll (sa_inputs args) (lg_locked l) /\ lg_locks l' = delete lockId (lg_locks l).
Proof.
  unfold _spendLock. intros Ha Hs Hc. assert (Hz : lockId <> zero32) by by eapply consistent_nonzero.
  destruct (negb _ && _)%bool; [discriminate|]. apply bind_Ok in Hc as (l1 & Hu & Hc).
  destruct (negb (isZero hash) && negb (unlockHash args =? hash)%string)%bool eqn:Eh; [discriminate|].
  destruct (lk_lockedStateCount (lockOf l lockId) =? length (sa_inputs args))%nat eqn:En; [|discriminate]. apply Nat.eqb_eq in En. cbn in Hc.
  apply bind_Ok in Hc as (l2 & Hi & Hc). apply bind_Ok in Hc as (l3 & Hl & Hc). apply bind_Ok in Hc as (l4 & Ho & Hc). injection Hc as <-.
  assert (E2 : lg_locked l2 = lg_locked l) by (transitivity (lg_locked l1); apply parts_keep_locked; naive_solver).
  assert (L2 : lg_locks l4 = lg_locks l).
  { transitivity (lg_locks l3); [|transitivity (lg_locks l2); [|transitivity (lg_locks l1)]]; apply parts_keep_locks; naive_solver. }
  assert (E4 : lg_locked l4 = lg_locked l3) by (apply parts_keep_locked; naive_solver).
  apply processLockedInputs_Ok in Hl as (Hnd & Hx & ->); [|done]. cbn in E4. rewrite E2 in *. split_and!.
  - intros Hh. apply andb_false_iff in Eh as [Eh%negb_false_iff%isZero_spec|Eh%negb_false_iff%String.eqb_eq]; done.
  - symmetry. apply set_eq. apply set_equiv. apply set_subseteq_size_equiv.
    + intros x Hin%elem_of_list_to_set. by apply elem_of_heldBy, Hx.
    + destruct Hs as [_ Hcount _ _ _]. specialize (Hcount _ Hz). rewrite decide_False in Hcount by done.
      pose proof (size_list_to_set (C := gset Bytes32) (sa_inputs args) Hnd). lia.
  - done.
  - cbn. by rewrite L2.
Qed.

(** A successful spend or cancel empties its lock. *)
Lemma spent_lock_empty l l' lockId args :
  heldBy (lg_locked l) lockId = list_to_set (sa_inputs args) -> lg_locked l' = unlockAll (sa_inputs args) (lg_locked l) ->
  heldBy (lg_locked l') lockId = ∅.
Proof.
  intros Hh ->. apply set_eq. intros x. rewrite elem_of_heldBy, unlockAll_lookup. case_decide as Hx; [set_solver|].
  split; [|set_solver]. intros Hc%elem_of_heldBy. rewrite Hh in Hc. by apply elem_of_list_to_set in Hc.
Qed.

(** What a successful spend or cancel does to a locked state. *)
Lemma spend_case lockId id hash args l l' x a :
  lk_owner (lockOf l id) = Some a -> consistent l -> _spendLock id hash args l = Ok l' -> lg_locked l !! x = Some lockId ->
  lg_locked l' !! x = Some lockId \/
  (id = lockId /\ (hash <> zero32 -> unlockHash args = hash) /\ x ∈ sa_inputs args /\ heldBy (lg_locked l') lockId = ∅).
Proof.
  intros Ha Hs Hc Hx. destruct (_spendLock_inv _ _ _ _ _ _ Ha Hs Hc) as (Hh & Hb & Hl & _).
  destruct (decide (x ∈ sa_inputs args)) as [Hin|Hin]; [right|left; by rewrite Hl, unlockAll_lookup, decide_False].
  assert (E : lg_locked l !! x = Some id) by (apply elem_of_heldBy; rewrite Hb; by apply elem_of_list_to_set).
  assert (id = lockId) as -> by congruence. split_and!; [done..|]. by eapply spent_lock_empty.
Qed.

Lemma requireSpender_Ok sender lockId l u : requireSpender sender lockId l = Ok u -> lk_spender (lockOf l lockId) = Some sender.
Proof. unfold requireSpender. case_bool_decide; [done|discriminate]. Qed.

(** (C6) A state that is locked stays locked under its lock, whoever calls what, until the spender of
    the lock spends or cancels it with arguments that hash to the commitment the lock has for it, if it
    has one; and then everything that is locked under the lock leaves with it. *)
Theorem locked_state_leaves_by_commitment notary l sender op l' x lockId :
  reachable notary l -> execute sender op l = Ok l' -> lg_locked l !! x = Some lockId ->
  lg_locked l' !! x = Some lockId \/
  exists args commitment,
    (op = Op_spendLock lockId args /\ commitment = lk_spendCommitment (lockOf l lockId) \/
     op = Op_cancelLock lockId args /\ commitment = lk_cancelCommitment (lockOf l lockId)) /\
    lk_spender (lockOf l lockId) = Some sender /\ (commitment <> zero32 -> unlockHash args = commitment) /\
    x ∈ sa_inputs args /\ heldBy (lg_locked l') lockId = ∅.
Proof.
  intros Hr%reachable_consistent He Hx. destruct op; cbn [execute] in He.
  - left. by rewrite (proj1 (transfer_keeps_locked _ _ _ _ _ _ He)).
  - left. by rewrite (proj1 (transfer_keeps_locked _ _ _ _ _ _ He)).
  - left. apply createLock_locked in He as (_ & _ & Hn & ->). rewrite lockAll_lookup. case_decide as Hin; [|done].
    apply Hn in Hin. exfalso. apply (getLockId_zero l x lockId); [|done|done]. intros ->. exact (so_locked _ _ _ Hr x Hx).
  - left. by rewrite (updateLock_keeps_locked _ _ _ _ _ _ _ He).
  - apply bind_Ok in He as (u & [a Ha]%lockActive_Ok & Hc). apply bind_Ok in Hc as (v & Hv%requireSpender_Ok & Hc).
    destruct (spend_case lockId _ _ _ _ _ x a Ha Hr Hc Hx) as [?|(-> & ? & ? & ?)]; [by left|right]. by do 2 eexists; split_and!; [left| | | |].
  - apply bind_Ok in He as (u & [a Ha]%lockActive_Ok & Hc). apply bind_Ok in Hc as (v & Hv%requireSpender_Ok & Hc).
    destruct (spend_case lockId _ _ _ _ _ x a Ha Hr Hc Hx) as [?|(-> & ? & ? & ?)]; [by left|right]. by do 2 eexists; split_and!; [right| | | |].
  - left. by rewrite (delegateLock_keeps_locked _ _ _ _ _ _ He).
Qed.

(** ** The life of a lock *)

(** What a call can do to the lock of an id. *)
Inductive lockStep (sender : EthAddress) : LedgerOp -> Bytes32 -> LedgerLock -> LedgerLock -> Prop :=
| lockStep_other op id k : lockStep sender op id k k
| lockStep_create args sc cc id k k' :
    lk_owner k = None -> lk_owner k' = Some sender -> lk_spender k' = Some sender -> lockStep sender (Op_createLock args sc cc) id k k'
| lockStep_update args sc cc id k k' :
    lk_owner k = lk_spender k -> lk_owner k' = lk_owner k -> lk_spender k' = lk_spender k -> lockStep sender (Op_updateLock id args sc cc) id k k'
| lockStep_spend args id k : lockStep sender (Op_spendLock id args) id k noLock
| lockStep_cancel args id k : lockStep sender (Op_cancelLock id args) id k noLock
| lockStep_delegate args newSpender id k :
    lk_spendCommitment k <> zero32 -> lk_cancelCommitment k <> zero32 ->
    lockStep sender (Op_delegateLock id args newSpender) id k (k <| lk_spender := Some newSpender |>).

Lemma setLockOptions_lockOf lockId spendTxId l l' id :
  _setLockOptions lockId spendTxId l = Ok l' ->
  lockOf l' id = if decide (lockId = id) then (lockOf l lockId) <| lk_spendTxId := spendTxId |> else lockOf l id.
Proof.
  unfold _setLockOptions. intros Hs. executed; subst; rewrite lockOf_setLock; case_decide; try done;
    by destruct (isZero (lk_spendTxId (lockOf l lockId))).
Qed.

(** The commitments and options of the lock that is created or updated. *)
Lemma committed_lockOf lockId sc cc spendTxId l l' id :
  (if isZero spendTxId then mret (setLock lockId (fun k => k <| lk_spendCommitment := sc |> <| lk_cancelCommitment := cc |>) l)
   else _setLockOptions lockId spendTxId (setLock lockId (fun k => k <| lk_spendCommitment := sc |> <| lk_cancelCommitment := cc |>) l)) = Ok l' ->
  lockOf l' id =
    if decide (lockId = id) then
      (lockOf l lockId) <| lk_spendCommitment := sc |> <| lk_cancelCommitment := cc |>
                      <| lk_spendTxId := if isZero spendTxId then lk_spendTxId (lockOf l lockId) else spendTxId |>
    else lockOf l id.
Proof.
  destruct (isZero spendTxId) eqn:Ez.
  - intros [= <-]. rewrite lockOf_setLock. case_decide; [|done]. by destruct (lockOf l lockId).
  - intros ->%(setLockOptions_lockOf _ _ _ _ id). rewrite !lockOf_setLock. case_decide; [|done]. by rewrite decide_True.
Qed.

Lemma createLock_lockOf sender args sc cc l l' id :
  createLock sender args sc cc l = Ok l' ->
  let lockId := computeLockId sender (ca_txId args) in
  lockOf l' id =
    if decide (lockId = id) then
      MkLedgerLock (Some sender) (Some sender) sc cc (length (ca_contents args))
        (if isZero (ca_spendTxId args) then lk_spendTxId (lockOf l lockId) else ca_spendTxId args)
    else lockOf l id.
Proof.
  unfold createLock. intros ([] & _ & Hc)%bind_Ok. cbv zeta. set (lockId := computeLockId sender (ca_txId args)) in *.
  destruct (lk_owner (lockOf l lockId)) eqn:Eo; [discriminate|]. assert (Hz : lockId <> zero32) by apply lockId_nonzero.
  apply bind_Ok in Hc as (l1 & Hu & Hc). apply bind_Ok in Hc as (l2 & Hi & Hc). apply bind_Ok in Hc as (l3 & Ho & Hc).
  apply bind_Ok in Hc as (l4 & Hl & Hc). apply bind_Ok in Hc as (l5 & Hn & Hc).
  apply (committed_lockOf _ _ _ _ _ _ id) in Hc as ->.
  assert (E : forall i, lockOf (l5 <| lg_lockStates ::= <[lockId := ca_newLockState args]> |>) i =
    lockOf (setLock lockId (fun k => k <| lk_owner := Some sender |> <| lk_spender := Some sender |> <| lk_lockedStateCount := length (ca_contents args) |>) l) i).
  { intros i. rewrite (lockOf_same l5) by done. rewrite (lockOf_same l4) by (apply parts_keep_locks; naive_solver).
    rewrite (lockOf_same l3) by (apply parts_keep_locks; naive_solver). rewrite (lockOf_same l2) by (apply parts_keep_locks; naive_solver).
    rewrite (lockOf_same l1) by (apply parts_keep_locks; naive_solver). by rewrite (lockOf_same _ l1) by (apply parts_keep_locks; naive_solver). }
  rewrite !E, !lockOf_setLock. rewrite (decide_True _ _ (eq_refl lockId)). destruct (decide (lockId = id)); [by destruct (lockOf l lockId)|done].
Qed.

Lemma updateLock_lockOf sender lockId args sc cc l l' id :
  updateLock sender lockId args sc cc l = Ok l' ->
  lk_owner (lockOf l lockId) = lk_spender (lockOf l lockId) /\
  lockOf l' id =
    if decide (lockId = id) then
      (lockOf l lockId) <| lk_spendCommitment := sc |> <| lk_cancelCommitment := cc |>
                      <| lk_spendTxId := if isZero (ua_spendTxId args) then lk_spendTxId (lockOf l lockId) else ua_spendTxId args |>
    else lockOf l id.
Proof.
  unfold updateLock. intros (u & _ & Hc)%bind_Ok. apply bind_Ok in Hc as ([] & _ & Hc).
  destruct (negb _) eqn:Eo; [discriminate|]. apply negb_false_iff, bool_decide_eq_true in Eo. split; [done|].
  apply bind_Ok in Hc as (l1 & Hu & Hc). destruct (negb _); [discriminate|].
  apply bind_Ok in Hc as ([] & _ & Hc). apply bind_Ok in Hc as (l2 & Ht & Hc).
  apply (committed_lockOf _ _ _ _ _ _ id) in Hc as ->.
  assert (E : forall i, lockOf l2 i = lockOf l i).
  { intros i. rewrite (lockOf_same l1) by by eapply transition_keeps_locks. by rewrite (lockOf_same l) by (apply parts_keep_locks; naive_solver). }
  by rewrite !E.
Qed.

Lemma delegateLock_lockOf sender lockId args newSpender l l' id :
  delegateLock sender lockId args newSpender l = Ok l' ->
  lk_spendCommitment (lockOf l lockId) <> zero32 /\ lk_cancelCommitment (lockOf l lockId) <> zero32 /\
  lockOf l' id = if decide (lockId = id) then (lockOf l lockId) <| lk_spender := Some newSpender |> else lockOf l id.
Proof.
  unfold delegateLock. intros (u & _ & Hc)%bind_Ok. apply bind_Ok in Hc as ([] & _ & Hc).
  destruct (_ || _)%bool eqn:Ez; [discriminate|]. apply orb_false_iff in Ez as [E1 E2].
  apply bind_Ok in Hc as (l1 & Hu & Hc). split_and!.
  - intros Hz%isZero_spec. congruence.
  - intros Hz%isZero_spec. congruence.
  - rewrite (lockOf_same (setLock lockId (fun k => k <| lk_spender := Some newSpender |>) l1)) by by eapply transition_keeps_locks.
    rewrite lockOf_setLock. by rewrite !(lockOf_same l l1) by (apply parts_keep_locks; naive_solver).
Qed.

Lemma execute_lockStep sender op l l' id : consistent l -> execute sender op l = Ok l' -> lockStep sender op id (lockOf l id) (lockOf l' id).
Proof.
  intros Hs He. destruct op as [| |args sc cc|lockId args sc cc|lockId args|lockId args|lockId args newSpender]; cbn [execute] in He.
  - rewrite (lockOf_same l l') by apply (transfer_keeps_locked _ _ _ _ _ _ He). constructor.
  - rewrite (lockOf_same l l') by apply (transfer_keeps_locked _ _ _ _ _ _ He). constructor.
  - rewrite (createLock_lockOf _ _ _ _ _ _ id He). case_decide as E; [subst id|constructor].
    by constructor; [apply createLock_locked in He as [? _]|..].
  - apply (updateLock_lockOf _ _ _ _ _ _ _ id) in He as [Ho ->]. case_decide as E; [subst id|constructor]. by constructor.
  - apply bind_Ok in He as (u & [a Ha]%lockActive_Ok & Hc). apply bind_Ok in Hc as (v & _ & Hc).
    apply _spendLock_inv with (a := a) in Hc as (_ & _ & _ & El); [|done..]. unfold lockOf. rewrite El, lookup_delete.
    case_decide; [subst; apply lockStep_spend|constructor].
  - apply bind_Ok in He as (u & [a Ha]%lockActive_Ok & Hc). apply bind_Ok in Hc as (v & _ & Hc).
    apply _spendLock_inv with (a := a) in Hc as (_ & _ & _ & El); [|done..]. unfold lockOf. rewrite El, lookup_delete.
    case_decide; [subst; apply lockStep_cancel|constructor].
  - apply (delegateLock_lockOf _ _ _ _ _ _ id) in He as (H1 & H2 & ->). case_decide as E; [subst id|constructor]. by constructor.
Qed.

(** A sequence of calls. *)
Fixpoint executeAll (calls : list (EthAddress * LedgerOp)) (l : Ledger) : res Ledger :=
  match calls with
  | [] => mret l
  | (sender, op) :: rest => l ← execute sender op l; executeAll rest l
  end.

(** Only delegation takes the right to spend from the owner, and it needs both commitments. *)
Lemma reachable_delegated notary l lockId :
  reachable notary l -> lk_owner (lockOf l lockId) <> lk_spender (lockOf l lockId) ->
  lk_spendCommitment (lockOf l lockId) <> zero32 /\ lk_cancelCommitment (lockOf l lockId) <> zero32.
Proof.
  induction 1 as [|l sender op l' Hr IH He]; [done|]. intros Hne.
  apply (execute_lockStep _ _ _ _ lockId) in He; [|by eapply reachable_consistent].
  revert IH Hne. destruct He; cbn; try congruence; auto.
Qed.

(** The lock still stands as it was, whoever may spend it now. *)
Definition standsAs (l l' : Ledger) (lockId : Bytes32) : Prop :=
  lk_owner (lockOf l' lockId) = lk_owner (lockOf l lockId) /\
  lk_spendCommitment (lockOf l' lockId) = lk_spendCommitment (lockOf l lockId) /\
  lk_cancelCommitment (lockOf l' lockId) = lk_cancelCommitment (lockOf l lockId) /\
  heldBy (lg_locked l') lockId = heldBy (lg_locked l) lockId.

(** A call that exercises the lock as it commits to. *)
Definition exercises (l : Ledger) (lockId : Bytes32) (op : LedgerOp) : Prop :=
  exists args, op = Op_spendLock lockId args /\ unlockHash args = lk_spendCommitment (lockOf l lockId) \/
               op = Op_cancelLock lockId args /\ unlockHash args = lk_cancelCommitment (lockOf l lockId).

(** While a lock that is active stays in place, what it holds does not change. *)
Lemma heldBy_active notary l sender op l' lockId a :
  reachable notary l -> execute sender op l = Ok l' -> lk_owner (lockOf l lockId) = Some a ->
  (forall args, op <> Op_spendLock lockId args /\ op <> Op_cancelLock lockId args) -> heldBy (lg_locked l') lockId = heldBy (lg_locked l) lockId.
Proof.
  intros Hr He Ha Hn. pose proof (reachable_consistent _ _ Hr) as Hs. assert (Hz : lockId <> zero32) by by eapply consistent_nonzero.
  apply set_eq. intros x. rewrite !elem_of_heldBy. split.
  - intros Hx. destruct op as [| |args sc cc|id args sc cc|id args|id args|id args newSpender]; cbn [execute] in He.
    + by rewrite <- (proj1 (transfer_keeps_locked _ _ _ _ _ _ He)).
    + by rewrite <- (proj1 (transfer_keeps_locked _ _ _ _ _ _ He)).
    + apply createLock_locked in He as (Ho & _ & _ & El). rewrite El, lockAll_lookup in Hx. case_decide; [|done]. congruence.
    + by rewrite <- (updateLock_keeps_locked _ _ _ _ _ _ _ He).
    + apply bind_Ok in He as (u & [b Hb]%lockActive_Ok & Hc). apply bind_Ok in Hc as (v & _ & Hc).
      apply _spendLock_inv with (a := b) in Hc as (_ & _ & El & _); [|done..]. rewrite El, unlockAll_lookup in Hx. by case_decide.
    + apply bind_Ok in He as (u & [b Hb]%lockActive_Ok & Hc). apply bind_Ok in Hc as (v & _ & Hc).
      apply _spendLock_inv with (a := b) in Hc as (_ & _ & El & _); [|done..]. rewrite El, unlockAll_lookup in Hx. by case_decide.
    + by rewrite <- (delegateLock_keeps_locked _ _ _ _ _ _ He).
  - intros Hx. destruct op as [| |args sc cc|id args sc cc|id args|id args|id args newSpender]; cbn [execute] in He.
    + by rewrite (proj1 (transfer_keeps_locked _ _ _ _ _ _ He)).
    + by rewrite (proj1 (transfer_keeps_locked _ _ _ _ _ _ He)).
    + apply createLock_locked in He as (_ & _ & Hg & ->). rewrite lockAll_lookup. case_decide as Hin; [|done].
      apply Hg in Hin. by apply (getLockId_zero l x lockId) in Hx.
    + by rewrite (updateLock_keeps_locked _ _ _ _ _ _ _ He).
    + apply bind_Ok in He as (u & [b Hb]%lockActive_Ok & Hc). apply bind_Ok in Hc as (v & _ & Hc).
      destruct (spend_case lockId _ _ _ _ _ x b Hb Hs Hc Hx) as [?|(-> & _)]; [done|]. by destruct (Hn args).
    + apply bind_Ok in He as (u & [b Hb]%lockActive_Ok & Hc). apply bind_Ok in Hc as (v & _ & Hc).
      destruct (spend_case lockId _ _ _ _ _ x b Hb Hs Hc Hx) as [?|(-> & _)]; [done|]. by destruct (Hn args).
    + by rewrite (delegateLock_keeps_locked _ _ _ _ _ _ He).
Qed.

(** One call on a delegated lock. *)
Lemma delegated_step notary l sender op l' lockId a :
  reachable notary l -> lk_owner (lockOf l lockId) = Some a -> lk_spender (lockOf l lockId) <> Some a -> execute sender op l = Ok l' ->
  exercises l lockId op \/
  (standsAs l l' lockId /\ (lk_spender (lockOf l' lockId) = lk_spender (lockOf l lockId) \/
     exists args newSpender, op = Op_delegateLock lockId args newSpender /\ lk_spender (lockOf l' lockId) = Some newSpender)).
Proof.
  intros Hr Ha Hd He. pose proof (reachable_consistent _ _ Hr) as Hs.
  pose proof (heldBy_active _ _ _ _ _ lockId _ Hr He Ha) as Hheld.
  assert (Hne : lk_owner (lockOf l lockId) <> lk_spender (lockOf l lockId)) by congruence.
  destruct (reachable_delegated _ _ _ Hr Hne) as [Hsc Hcc].
  assert ((forall args, op <> Op_spendLock lockId args /\ op <> Op_cancelLock lockId args) \/ exercises l lockId op) as [Hn|]; [|right|by left].
  { destruct op as [| | | |id args|id args|]; try (left; intros; split; discriminate); cbn [execute] in He;
      (destruct (decide (id = lockId)) as [->|]; [right|left; intros; split; congruence]).
    - apply bind_Ok in He as (u & _ & Hc). apply bind_Ok in Hc as (v & _ & Hc).
      apply _spendLock_inv with (a := a) in Hc as (Hh & _); [|done..]. exists args. left. auto.
    - apply bind_Ok in He as (u & _ & Hc). apply bind_Ok in Hc as (v & _ & Hc).
      apply _spendLock_inv with (a := a) in Hc as (Hh & _); [|done..]. exists args. right. auto. }
  pose proof (execute_lockStep _ _ _ _ lockId Hs He) as Hstep. unfold standsAs. rewrite (Hheld Hn). clear Hne Hheld He Hsc Hcc.
  revert Ha Hd Hn. destruct Hstep as [| | |args id k|args id k|args newSpender id k]; cbn; intros Ha Hd Hn; try congruence; try (by destruct (Hn args)).
  - by split; [|left].
  - split; [done|right]. by do 2 eexists.
Qed.

(** (C17) Delegation is binding: once the right to spend a lock is delegated, then whatever calls follow,
    by whomever, the lock keeps its owner, its commitments and the states it holds, until it is spent
    or cancelled exactly as it commits to, or is delegated back to its owner. *)
Theorem delegated_lock_is_binding notary l calls l' lockId a :
  reachable notary l -> lk_owner (lockOf l lockId) = Some a -> lk_spender (lockOf l lockId) <> Some a -> executeAll calls l = Ok l' ->
  standsAs l l' lockId \/
  (exists sender op, (sender, op) ∈ calls /\ exercises l lockId op) \/
  (exists sender args, (sender, Op_delegateLock lockId args a) ∈ calls).
Proof.
  revert l. induction calls as [|[sender op] calls IH]; cbn [executeAll]; intros l Hr Ha Hd He; [injection He as <-; by left|].
  apply bind_Ok in He as (m & Hm & He).
  destruct (delegated_step _ _ _ _ _ _ _ Hr Ha Hd Hm) as [Hx|[Hst Hsp]]; [right; left; exists sender, op; split; [left|done]|].
  destruct (decide (lk_spender (lockOf m lockId) = Some a)) as [Eb|Hd'].
  { destruct Hsp as [E|(args & newSpender & -> & E)]; [congruence|]. right; right. exists sender, args. replace newSpender with a by congruence. left. }
  assert (Hr' : reachable notary m) by by econstructor.
  destruct Hst as (E1 & E2 & E3 & E4).
  destruct (IH m Hr' ltac:(congruence) Hd' He) as [(F1 & F2 & F3 & F4)|[(s & o & Hin & Hx)|(s & args & Hin)]].
  - left. split_and!; congruence.
  - right; left. exists s, o. split; [by right|]. unfold exercises in *. by rewrite E2, E3 in Hx.
  - right; right. exists s, args. by right.
Qed.
End Books.
End Contract.
