(* ===== verification/NotoCommit.v ===== *)
(** * The Noto token: what is prepared and what the contract does with it

    Domain and contract put together: the calls that [Prepare] makes are decoded by the contract, and
    the calls that receipts offer are run against the lock that was prepared.  Theorems: the spend and
    cancel calls in the receipt of a prepared transfer lock are accepted by the contract that ran the
    prepared call, and the direct unlock of variant 2 is a call that the contract always refuses.

    What the ABI decodes and that both sides hash an unlock alike (EIP-712) are the classes [LedgerABI]
    and [LawfulABI].

    Sources: domains/noto/internal/noto/handler_unlock_common.go, handler_create_transfer_lock.go,
    handler_prepare_unlock.go, handler_unlock.go, receipts.go, solidity/contracts/domains/noto/Noto.sol. *)

From S2P Require Import Prelude HexBytes Identity NotoTypes NotoChecks NotoEndorse NotoBalance NotoCodec NotoStates NotoCompletion NotoReceipts NotoEvents NotoPrepare NotoLedger.
Open Scope string_scope.
Open Scope list_scope.

(** ** Calls as the contract sees them *)

Definition parseID (s : string) : option Bytes32 := match ParseBytes32Ctx s with Ok b => Some b | _ => None end.
Definition parseIDs (ids : list string) : option (list Bytes32) := mapM parseID ids.

(** [abi.decode] of the arguments that calls carry. *)
Class LedgerABI : Type := {
  la_decodeCreate : string -> option CreateArgs;
  la_decodeUpdate : string -> option UpdateArgs;
  la_decodeSpend : string -> option SpendArgs;
  la_decodeDelegate : string -> option DelegateArgs
}.

(** The transaction of the contract that a call of variant 2 is. *)
Definition callOp `{LedgerABI} (params : LedgerParams) : option LedgerOp :=
  match params with
  | NotoMintParams TxId (Some Outputs) _ _ => txId ← parseID TxId; outputs ← parseIDs Outputs; Some (Op_mint txId outputs)
  | NotoTransferParams TxId (Some Inputs) (Some Outputs) _ _ =>
      txId ← parseID TxId; inputs ← parseIDs Inputs; outputs ← parseIDs Outputs; Some (Op_transfer txId inputs outputs)
  | CreateLockParams args sc cc _ => args ← la_decodeCreate args; Some (Op_createLock args sc cc)
  | UpdateLockParams lockId args sc cc _ => args ← la_decodeUpdate args; Some (Op_updateLock lockId args sc cc)
  | SpendLockCall lockId args _ => args ← la_decodeSpend args; Some (Op_spendLock lockId args)
  | DelegateLockCall lockId args (Some newSpender) _ => args ← la_decodeDelegate args; Some (Op_delegateLock lockId args newSpender)
  | _ => None
  end.

(** The transaction of the contract that a receipt offers. *)
Definition receiptOp `{LedgerABI} (params : UnlockCallParams) : option LedgerOp :=
  match params with
  | SpendLockParams lockId args _ => args ← la_decodeSpend args; Some (Op_spendLock lockId args)
  | CancelLockParams lockId args _ => args ← la_decodeSpend args; Some (Op_cancelLock lockId args)
  | UnlockParams_V0 _ _ _ _ _ => None
  end.

(** What the encodings promise, for a contract at an address: arguments that are encoded are decoded,
    and an unlock is hashed by the domain as it is by the contract. *)
Class LawfulABI `{LedgerEncoding} `{LedgerABI} (contract : EthAddress) (unlockHash : SpendArgs -> Bytes32) : Prop := {
  law_create TxId Inputs Outputs Contents new spendTxId proof b txId inputs outputs contents :
    le_EncodeArgs (NotoCreateLockArgs TxId (Some Inputs) (Some Outputs) (Some Contents) new spendTxId proof) = Ok b ->
    parseID TxId = Some txId -> parseIDs Inputs = Some inputs -> parseIDs Outputs = Some outputs -> parseIDs Contents = Some contents ->
    la_decodeCreate b = Some (MkCreateArgs txId inputs outputs contents new spendTxId);
  law_update TxId Contents old new spendTxId proof b txId contents :
    le_EncodeArgs (NotoUpdateLockArgs TxId (Some Contents) old new spendTxId proof) = Ok b ->
    parseID TxId = Some txId -> parseIDs Contents = Some contents ->
    la_decodeUpdate b = Some (MkUpdateArgs txId contents old new spendTxId);
  law_spend TxId Inputs Outputs data proof b txId inputs outputs :
    le_EncodeArgs (NotoSpendLockArgs TxId (Some Inputs) (Some Outputs) data proof) = Ok b ->
    parseID TxId = Some txId -> parseIDs Inputs = Some inputs -> parseIDs Outputs = Some outputs ->
    la_decodeSpend b = Some (MkSpendArgs txId inputs outputs data);
  law_unlock TxId Inputs Outputs data h txId inputs outputs :
    le_EncodeUnlock (UnlockMasked_V1 contract TxId Inputs Outputs data) = Ok h ->
    parseID TxId = Some txId -> parseIDs Inputs = Some inputs -> parseIDs Outputs = Some outputs ->
    String.substring 0 32 h = unlockHash (MkSpendArgs txId inputs outputs data)
}.

(** ** Locks that are ready to be spent *)

Section Ready.
Context (computeLockId : EthAddress -> Bytes32 -> Bytes32) (unlockHash : SpendArgs -> Bytes32).
Context (lockId_nonzero : forall sender txId, computeLockId sender txId <> zero32).

(** A lock with its commitments, what it holds, the transaction it is to be spent by, and its lock state. *)
Record committed (l : Ledger) (lockId sc cc : Bytes32) (contents : list Bytes32) (spendTxId : Bytes32) : Prop := {
  cm_active : lk_owner (lockOf l lockId) <> None;
  cm_spend : lk_spendCommitment (lockOf l lockId) = sc;
  cm_cancel : lk_cancelCommitment (lockOf l lockId) = cc;
  cm_count : lk_lockedStateCount (lockOf l lockId) = length contents;
  cm_contents x : x ∈ contents -> getLockId l x = lockId;
  cm_txId : lk_spendTxId (lockOf l lockId) = spendTxId;
  cm_state : lockStateOf l lockId ∈ lg_unspent l }.

(** Arguments that nothing on the ledger stands against. *)
Record fresh (l : Ledger) (args : SpendArgs) : Prop := {
  fr_inputs : NoDup (sa_inputs args);
  fr_txId : sa_txId args ∉ lg_txIds l;
  fr_outputs : NoDup (sa_outputs args);
  fr_new x : x ∈ sa_outputs args -> x ∉ lg_unspent l /\ getLockId l x = zero32 }.

Lemma _spendLock_succeeds l lockId sc cc contents spendTxId args :
  lockId <> zero32 -> committed l lockId sc cc contents spendTxId -> fresh l args -> sa_inputs args = contents -> sa_txId args = spendTxId ->
  exists l', _spendLock unlockHash lockId (unlockHash args) args l = Ok l'.
Proof.
  intros Hz [_ _ _ Hn Hc Ht Hs] [Hni Hf Hno Hnew] Hi He. unfold _spendLock.
  rewrite Ht, He, Hn, <- Hi, String.eqb_refl, Nat.eqb_refl, String.eqb_refl, !andb_false_r. cbn [negb].
  unfold useTxId. rewrite bool_decide_eq_false_2 by (by rewrite <- He). cbn [mbind res_bind mret res_ret].
  set (l1 := l <| lg_txIds ::= _ |>).
  assert (H1 : _processInput (lockStateOf l lockId) l1 = Ok (l1 <| lg_unspent := lg_unspent l1 ∖ {[lockStateOf l lockId]} |>)) by by apply processInput_Ok.
  rewrite H1. cbn [mbind res_bind]. set (l2 := l1 <| lg_unspent := _ |>).
  assert (H2 : _processLockedInputs lockId (sa_inputs args) l2 = Ok (l2 <| lg_locked := unlockAll (sa_inputs args) (lg_locked l2) |>)).
  { apply processLockedInputs_Ok; [done|]. split; [done|split; [|done]]. intros x Hx. apply (getLockId_Some l2); [done|]. apply Hc. by rewrite <- Hi. }
  rewrite H2. cbn [mbind res_bind]. set (l3 := l2 <| lg_locked := _ |>).
  assert (H3 : _processOutputs (sa_outputs args) l3 = Ok (l3 <| lg_unspent := list_to_set (sa_outputs args) ∪ lg_unspent l3 |>)).
  { apply processOutputs_Ok. split; [done|split; [|done]]. intros x Hx. destruct (Hnew x Hx) as [Hu Hg]. split; [cbn; set_solver|].
    unfold getLockId in *. cbn. rewrite unlockAll_lookup. by case_decide. }
  rewrite H3. cbn [mbind res_bind mret res_ret]. eauto.
Qed.
(** What the last step of creating and updating leaves alone. *)
Lemma committing_keeps lockId sc cc spendTxId l l' :
  (if isZero spendTxId then mret (setLock lockId (fun k => k <| lk_spendCommitment := sc |> <| lk_cancelCommitment := cc |>) l)
   else _setLockOptions lockId spendTxId (setLock lockId (fun k => k <| lk_spendCommitment := sc |> <| lk_cancelCommitment := cc |>) l)) = Ok l' ->
  lg_unspent l' = lg_unspent l /\ lg_lockStates l' = lg_lockStates l.
Proof.
  destruct (isZero spendTxId); [by intros [= <-]|]. unfold _setLockOptions. intros Ho. executed; subst; [done|]. by destruct (isZero (lk_spendTxId _)).
Qed.

Lemma createLock_state sender args sc cc l l' :
  createLock computeLockId sender args sc cc l = Ok l' ->
  lockStateOf l' (computeLockId sender (ca_txId args)) = ca_newLockState args /\ ca_newLockState args ∈ lg_unspent l'.
Proof.
  unfold createLock. intros ([] & _ & Hc)%bind_Ok. set (lockId := computeLockId sender (ca_txId args)) in *.
  destruct (lk_owner (lockOf l lockId)); [discriminate|].
  apply bind_Ok in Hc as (l1 & Hu & Hc). apply bind_Ok in Hc as (l2 & Hi & Hc). apply bind_Ok in Hc as (l3 & Ho & Hc).
  apply bind_Ok in Hc as (l4 & Hl & Hc). apply bind_Ok in Hc as (l5 & Hn & Hc).
  apply committing_keeps in Hc as [Eu Es]. unfold lockStateOf. rewrite Eu, Es. cbn. rewrite lookup_insert_eq.
  apply processOutput_Ok in Hn as (_ & _ & ->). cbn. set_solver.
Qed.

Lemma updateLock_state sender lockId args sc cc l l' :
  updateLock sender lockId args sc cc l = Ok l' ->
  lockStateOf l' lockId = ua_newLockState args /\ ua_newLockState args ∈ lg_unspent l' /\
  lk_lockedStateCount (lockOf l lockId) = length (ua_contents args) /\ (forall x, x ∈ ua_contents args -> getLockId l x = lockId) /\
  lk_owner (lockOf l lockId) <> None.
Proof.
  unfold updateLock. intros (u & [a Ha]%lockActive_Ok & Hc)%bind_Ok. apply bind_Ok in Hc as ([] & _ & Hc).
  destruct (negb _); [discriminate|]. apply bind_Ok in Hc as (l1 & Hu & Hc).
  destruct (negb _) eqn:En; [discriminate|]. apply negb_false_iff, Nat.eqb_eq in En.
  apply bind_Ok in Hc as ([] & Hk & Hc). apply bind_Ok in Hc as (l2 & Ht & Hc).
  apply committing_keeps in Hc as [Eu Es]. unfold lockStateOf. rewrite Eu, Es.
  unfold _checkLockedInputs in Hk. destruct (forallb _ _) eqn:Ek; [|discriminate].
  assert (El : lg_locked l1 = lg_locked l) by (unfold useTxId in Hu; executed; by subst).
  unfold _transitionLockState in Ht. executed. subst. cbn. rewrite lookup_insert_eq.
  match goal with Hn : _processOutput _ _ = Ok _ |- _ => apply processOutput_Ok in Hn as (_ & _ & ->) end. cbn.
  split_and!; [done|set_solver|done| |congruence]. intros y Hx. rewrite forallb_forall in Ek. apply list_elem_of_In, Ek, String.eqb_eq in Hx.
  unfold getLockId in *. by rewrite El in Hx.
Qed.

Lemma created_committed sender args sc cc l l' :
  createLock computeLockId sender args sc cc l = Ok l' -> ca_spendTxId args <> zero32 ->
  committed l' (computeLockId sender (ca_txId args)) sc cc (ca_contents args) (ca_spendTxId args).
Proof.
  intros Hc Hz. pose proof (createLock_state _ _ _ _ _ _ Hc) as [Es Eu].
  pose proof (createLock_lockOf _ lockId_nonzero _ _ _ _ _ _ (computeLockId sender (ca_txId args)) Hc) as El. cbn in El. rewrite decide_True in El by done.
  apply (createLock_locked _ lockId_nonzero) in Hc as (_ & _ & _ & Ek). cbn in Ek.
  split; rewrite ?El; try done.
  - intros x Hx. unfold getLockId. rewrite Ek, lockAll_lookup, decide_True by done. done.
  - cbn. destruct (isZero (ca_spendTxId args)) eqn:E; [by apply isZero_spec in E|done].
  - by rewrite Es.
Qed.

Lemma updated_committed sender lockId args sc cc l l' :
  updateLock sender lockId args sc cc l = Ok l' -> ua_spendTxId args <> zero32 ->
  committed l' lockId sc cc (ua_contents args) (ua_spendTxId args).
Proof.
  intros Hc Hz. pose proof (updateLock_state _ _ _ _ _ _ _ Hc) as (Es & Eu & En & Eg & Ea).
  pose proof (updateLock_lockOf _ _ _ _ _ _ _ lockId Hc) as [_ El]. rewrite decide_True in El by done.
  split; rewrite ?El; try done.
  - intros x Hx. unfold getLockId. rewrite (updateLock_keeps_locked _ _ _ _ _ _ _ Hc). by apply Eg.
  - cbn. destruct (isZero (ua_spendTxId args)) eqn:E; [by apply isZero_spec in E|done].
  - by rewrite Es.
Qed.

(** A committed lock is spent by a call that hashes to its commitment, and cancelled likewise. *)
Lemma committed_spends l lockId sc cc contents spendTxId s args :
  lockId <> zero32 -> committed l lockId sc cc contents spendTxId -> fresh l args -> sa_inputs args = contents -> sa_txId args = spendTxId ->
  lk_spender (lockOf l lockId) = Some s ->
  (unlockHash args = sc -> exists l', execute computeLockId unlockHash s (Op_spendLock lockId args) l = Ok l') /\
  (unlockHash args = cc -> exists l', execute computeLockId unlockHash s (Op_cancelLock lockId args) l = Ok l').
Proof.
  intros Hz Hc Hf Hi Ht Hs. destruct (_spendLock_succeeds _ _ _ _ _ _ _ Hz Hc Hf Hi Ht) as [l' Hl'].
  assert (Ha : lockActive lockId l = Ok tt) by (unfold lockActive; destruct (lk_owner _) eqn:E; [done|by destruct (cm_active _ _ _ _ _ _ Hc)]).
  assert (Hr : requireSpender s lockId l = Ok tt) by (unfold requireSpender; by rewrite bool_decide_eq_true_2).
  split; intros Hh; exists l'; cbn [execute]; [unfold spendLock|unfold cancelLock]; rewrite Ha; cbn [mbind res_bind]; rewrite Hr; cbn [mbind res_bind];
    rewrite ?(cm_spend _ _ _ _ _ _ Hc), ?(cm_cancel _ _ _ _ _ _ Hc), <- Hh; done.
Qed.
End Ready.

(** ** The outputs a lock lists *)

Lemma Bytes32_String_inj a b : Bytes32_String a = Bytes32_String b -> a = b.
Proof. unfold Bytes32_String. intros E. cbn [String.append] in E. injection E as E. change (hexEncode a = hexEncode b) in E.
  apply (f_equal hexDecode) in E. rewrite !hexDecode_hexEncode in E. congruence. Qed.

Lemma listed_ids expected c b :
  NoDup expected -> ns_Id c = Bytes32_String b -> ns_Id <$> listedOutputs expected c = if decide (b ∈ expected) then [Bytes32_String b] else [].
Proof.
  intros Hnd Hc. unfold listedOutputs. rewrite Hc. induction Hnd as [|e expected He Hnd IH]; [done|]. cbn [List.filter].
  destruct (String.eqb_spec (Bytes32_String b) (Bytes32_String e)) as [E|Hn].
  - apply Bytes32_String_inj in E as <-. rewrite decide_True by (by left). cbn. rewrite IH, decide_False by done. by rewrite Hc.
  - rewrite IH. assert (b <> e) by (intros ->; done). repeat case_decide; set_solver.
Qed.

Lemma listed_all expected coins listed :
  NoDup expected -> ns_Id <$> coins = Bytes32_String <$> listed ->
  ns_Id <$> mjoin (listedOutputs expected <$> coins) = Bytes32_String <$> filter (fun b => b ∈ expected) listed.
Proof.
  intros Hnd. revert listed. induction coins as [|c coins IH]; intros [|b listed]; try discriminate; [done|].
  rewrite !fmap_cons. intros [= Ec Er]. rewrite filter_cons.
  change (mjoin (listedOutputs expected c :: (listedOutputs expected <$> coins))) with (listedOutputs expected c ++ mjoin (listedOutputs expected <$> coins)).
  rewrite fmap_app, (IH listed) by done.
  rewrite (listed_ids _ _ b) by done. by case_decide.
Qed.

Lemma filter_all_in (l : list Bytes32) (P : Bytes32 -> Prop) `{forall b, Decision (P b)} : (forall b, b ∈ l -> P b) -> filter P l = l.
Proof. induction l as [|b l IH]; intros Hp; [done|]. rewrite filter_cons_True, IH; [done|set_solver|set_solver]. Qed.

Lemma filter_none_in (l : list Bytes32) (P : Bytes32 -> Prop) `{forall b, Decision (P b)} : (forall b, b ∈ l -> ~ P b) -> filter P l = [].
Proof. induction l as [|b l IH]; intros Hp; [done|]. rewrite filter_cons_False, IH; [done|set_solver|set_solver]. Qed.

(** The coins that spending and cancelling make, listed one after the other, are told apart. *)
Lemma listed_split coins spend cancel :
  NoDup (spend ++ cancel) -> ns_Id <$> coins = Bytes32_String <$> (spend ++ cancel) ->
  ns_Id <$> mjoin (listedOutputs spend <$> coins) = Bytes32_String <$> spend /\
  ns_Id <$> mjoin (listedOutputs cancel <$> coins) = Bytes32_String <$> cancel.
Proof.
  intros (Hs & Hd & Hc)%NoDup_app Hids. rewrite !(listed_all _ _ (spend ++ cancel)) by done. rewrite !filter_app.
  rewrite (filter_all_in spend (fun b => b ∈ spend)), (filter_none_in cancel (fun b => b ∈ spend)), app_nil_r by set_solver.
  rewrite (filter_none_in spend (fun b => b ∈ cancel)), (filter_all_in cancel (fun b => b ∈ cancel)) by set_solver. done.
Qed.

(** ** Names *)

Lemma parseID_string b : String.length b = 32%nat -> parseID (Bytes32_String b) = Some b.
Proof. intros Hb. unfold parseID. by rewrite parse_Bytes32_String. Qed.

Lemma parseIDs_strings ids : Forall (fun b => String.length b = 32%nat) ids -> parseIDs (Bytes32_String <$> ids) = Some ids.
Proof.
  unfold parseIDs. induction 1 as [|b ids Hb _ IH]; [done|]. rewrite fmap_cons. cbn [mapM]. rewrite IH.
  by rewrite (parseID_string b) by done.
Qed.

Lemma parseIDs_all ids : Forall (fun s => is_Some (parseID s)) ids -> exists bs, parseIDs ids = Some bs.
Proof.
  unfold parseIDs. induction 1 as [|s ids [b Hb] _ [bs IH]]; [by eexists|]. exists (b :: bs). cbn [mapM]. rewrite Hb. cbn. by rewrite IH.
Qed.

Lemma fieldBytes32_length name o b : fieldBytes32 name o = Some b -> String.length b = 32%nat.
Proof.
  unfold fieldBytes32, textBytes32. destruct (member name o) as [[]|]; try discriminate; [|by intros [= <-]].
  destruct (ParseBytes32Ctx s) eqn:Ep; try discriminate. intros [= <-]. by eapply parsed_length.
Qed.

Lemma fieldBytes32s_length name o l : fieldBytes32s name o = Some l -> Forall (fun b => String.length b = 32%nat) l.
Proof.
  unfold fieldBytes32s. destruct (member name o) as [[]|]; try discriminate; [|by intros [= <-]].
  revert l. induction l0 as [|v vs IH]; intros l; cbn [mapM]; [by intros [= <-]|]. intros Hm. simplify_option_eq. constructor; [|by apply IH].
  unfold textBytes32 in *. destruct v; try discriminate; simplify_option_eq; [done|]. destruct (ParseBytes32Ctx s) eqn:Ep; simplify_eq. by eapply parsed_length.
Qed.

(** ** Lock transitions, read twice *)

Section Receipts.
Context `{NotoEnv} (n : Noto).

Lemma unmarshalLock_lengths text info :
  unmarshalLockV1 text = Some info ->
  String.length (li_SpendTxId info) = 32%nat /\ Forall (fun b => String.length b = 32%nat) (li_SpendOutputs info) /\
  Forall (fun b => String.length b = 32%nat) (li_CancelOutputs info).
Proof.
  unfold unmarshalLockV1. intros Hu. destruct (decodeStruct text) as [o|]; [|discriminate]. simpl in Hu.
  repeat match goal with Hm : (_ ← ?x; _) = Some _ |- _ => destruct x eqn:?; [simpl in Hm|discriminate Hm] end.
  injection Hu as <-. cbn. split_and!; eauto using fieldBytes32_length, fieldBytes32s_length.
Qed.

Lemma createdLock_lengths outputs :
  let k := createdLock n outputs in
  String.length (li_SpendTxId k) = 32%nat /\ Forall (fun b => String.length b = 32%nat) (li_SpendOutputs k) /\
  Forall (fun b => String.length b = 32%nat) (li_CancelOutputs k).
Proof.
  cbv zeta. unfold createdLock. destruct (filterSchema _ _) as [|state [|]]; [by cbn| |by cbn].
  destruct (unmarshalLockV1 _) eqn:E; [by eapply unmarshalLock_lengths|by cbn].
Qed.

(** What was accepted as a transition of a kind decodes to the same as any transition. *)
Lemma prevLock_any senderID states prev : prevLock senderID states = Done prev -> prevLock None states = Done prev.
Proof.
  unfold prevLock. destruct states as [|state [|]]; try done. intros (v & Hv & Hr)%bind_Done. apply bind_Done. exists v. split; [done|].
  destruct senderID; [by apply bind_Done in Hr as (u & _ & ?)|done].
Qed.

Lemma prevLock_one senderID state prev : prevLock senderID [state] = Done prev -> exists v, decodeLock state = Done v /\ prev = Some v /\ lv_state v = state.
Proof.
  intros Hp%prevLock_any. cbn [prevLock] in Hp. apply bind_Done in Hp as (v & Hv & [= <-]). exists v. split_and!; [done..|].
  unfold decodeLock in Hv. repeat case_match; simplify_eq. by injection Hv as <-.
Qed.

Lemma newLock_any lockID prev states next : newLock lockID prev states = Done next -> newLock None prev states = Done next.
Proof.
  unfold newLock. destruct states as [|state [|]]; try done. intros (v & Hv & Hr)%bind_Done.
  apply bind_Done in Hr as (u1 & H1 & Hr). apply bind_Done in Hr as (u2 & _ & Hr). apply bind_Done in Hr as (u3 & H3 & Hr).
  apply bind_Done. exists v. split; [done|]. apply bind_Done. exists u1. split; [done|]. apply bind_Done. exists tt. split; [done|].
  apply bind_Done. by exists u3.
Qed.

Lemma validate_any ty senderID lockID inputs outputs lt :
  validateV1LockTransition n ty senderID lockID inputs outputs = Done lt ->
  validateV1LockTransition n LOCK_DECODE_ANY None None inputs outputs = Done lt.
Proof.
  unfold validateV1LockTransition. intros (u & _ & Hr)%bind_Done. apply bind_Done in Hr as (prev & Hp & Hr). apply bind_Done in Hr as (next & Hn & Hr).
  apply bind_Done. exists tt. split; [done|]. apply bind_Done. exists prev. split; [by eapply prevLock_any|].
  apply bind_Done. exists next. split; [by eapply newLock_any|done].
Qed.

(** The two lock states of a transition, by its kind. *)
Lemma validate_locks ty senderID lockID inputs outputs lt :
  validateV1LockTransition n ty senderID lockID inputs outputs = Done lt ->
  lt_newLockInfo lt = createdLock n outputs /\
  match ty with
  | LOCK_CREATE => lt_prev lt = None /\ is_Some (lt_new lt)
  | LOCK_UPDATE => is_Some (lt_prev lt) /\ is_Some (lt_new lt) /\ li_LockID (lt_newLockInfo lt) = li_LockID (lt_prevLockInfo lt)
  | LOCK_SPEND => exists state v, filterSchema inputs [n_lockInfoSchemaV1 n] = [state] /\ lt_prev lt = Some v /\ lv_state v = state
  | LOCK_DECODE_ANY => True
  end.
Proof.
  unfold validateV1LockTransition. intros (u & Hs%require_Done & Hr)%bind_Done. apply bind_Done in Hr as (prev & Hp & Hr).
  apply bind_Done in Hr as (next & Hn & Hr). injection Hr as <-. split; [by eapply newLock_info|]. unfold transitionShape in Hs.
  destruct ty; [done|..]; destruct (filterSchema inputs _) as [|i [|]], (filterSchema outputs _) as [|o [|]]; try discriminate; cbn [lt_prev lt_new].
  - injection Hp as <-. split; [done|]. unfold newLock in Hn. ran. subst. by eexists.
  - apply prevLock_one in Hp as (v & _ & -> & _). unfold newLock in Hn. ran. subst. split; [by eexists|]. split; [by eexists|].
    cbn. match goal with Hv : validSuccessor _ _ = true |- _ => unfold validSuccessor in Hv; rewrite !andb_true_iff in Hv; destruct Hv as [[[_ Hid] _] _]; by apply String.eqb_eq in Hid end.
  - apply prevLock_one in Hp as (v & _ & -> & Ev). by exists i, v.
Qed.

Context `{LedgerEncoding}.

(** ** What is committed to *)

Lemma idsOf_plain tx states : idsOf n tx states false = Some (ns_Id <$> states).
Proof. unfold idsOf, endorsableStateIDs. induction states as [|s states IH]; [done|]. cbn [mapM]. rewrite IH. done. Qed.

Context `{!LedgerABI} (unlockHash : SpendArgs -> Bytes32).

(** The commitments of a lock are the hashes of its two unlocks. *)
Lemma commitments_hash tx info contents spend cancel h cs :
  LawfulABI (pt_ContractAddress_ tx) unlockHash ->
  String.length (li_SpendTxId info) = 32%nat ->
  Forall (fun b => String.length b = 32%nat) (li_SpendOutputs info) -> Forall (fun b => String.length b = 32%nat) (li_CancelOutputs info) ->
  ns_Id <$> spend = Bytes32_String <$> li_SpendOutputs info -> ns_Id <$> cancel = Bytes32_String <$> li_CancelOutputs info ->
  parseIDs (ns_Id <$> contents) = Some cs -> commitments n tx info contents spend cancel = Ok h ->
  h = (unlockHash (MkSpendArgs (li_SpendTxId info) cs (li_SpendOutputs info) (li_SpendData info)),
       unlockHash (MkSpendArgs (li_SpendTxId info) cs (li_CancelOutputs info) (li_CancelData info))).
Proof.
  intros Hl Lt Ls Lc Es Ec Hcs. unfold commitments, unlockHashFromIDs_V1. rewrite !idsOf_plain, Es, Ec. cbn [default].
  intros (x & (b & Hb & [= <-])%bind_Ok & Hr)%bind_Ok. apply bind_Ok in Hr as (y & (b' & Hb' & [= <-])%bind_Ok & [= <-]).
  f_equal; eapply law_unlock; eauto using parseID_string, parseIDs_strings.
Qed.

(** ** Receipts *)

Context (EncodeCallData : Z -> UnlockCallParams -> res string).

(** [encodeNotoSpendLockArgs], with the proof left empty as receipts do. *)
Definition encodeSpend (txId : Bytes32) (inputs outputs : list string) (data : string) : res string :=
  le_EncodeArgs (NotoSpendLockArgs (Bytes32_String txId) (Some inputs) (Some outputs) data "").

(** The receipt of the states that a transaction was prepared with. *)
Definition receiptOf (req : PrepareTransactionRequest) : BuildReceiptRequest :=
  MkBuildReceiptRequest (pq_InputStates req) (pq_ReadStates req) (pq_OutputStates req) (pq_InfoStates req) false.

Lemma receipt_calls req variant lt info :
  validateV1LockTransition n LOCK_DECODE_ANY None None (pq_InputStates req) (pq_OutputStates req) = Done lt -> is_Some (lt_new lt) ->
  let k := lt_newLockInfo lt in
  let contents := stateIDs (ofSchema (match lt_prev lt with None => pq_OutputStates req | Some _ => pq_ReadStates req end) (n_lockedCoinSchema n)) in
  li_SpendTxId k <> zero32 -> receiptLockInfoV1V2 n encodeSpend EncodeCallData (receiptOf req) variant = Ok (Some info) ->
  exists b1 c1 b2 c2,
    rl_Unlock info = Some (SpendLockParams (li_LockID k) b1 (li_SpendData k), c1) /\
    rl_Cancel info = Some (CancelLockParams (li_LockID k) b2 (li_CancelData k), c2) /\
    encodeSpend (li_SpendTxId k) contents (Bytes32_String <$> li_SpendOutputs k) (li_SpendData k) = Ok b1 /\
    encodeSpend (li_SpendTxId k) contents (Bytes32_String <$> li_CancelOutputs k) (li_CancelData k) = Ok b2.
Proof.
  intros Hv [v Hn] k contents Hz. unfold receiptLockInfoV1V2. cbn [receiptOf br_InputStates br_OutputStates br_ReadStates]. rewrite Hv. cbn [plainly mbind res_bind].
  rewrite Hn. fold k. destruct (Bytes32_IsZero (li_SpendTxId k)) eqn:Ez; [by apply String.eqb_eq in Ez|].
  intros (b1 & Hb1 & Hr)%bind_Ok. apply bind_Ok in Hr as (c1 & _ & Hr). apply bind_Ok in Hr as (b2 & Hb2 & Hr). apply bind_Ok in Hr as (c2 & _ & Hr).
  injection Hr as <-. exists b1, c1, b2, c2. done.
Qed.

(** ** Prepared calls of variant 2 *)

Lemma prepareWith_basic tx base hook resp :
  cf_NotaryMode (pt_DomainConfig tx) = NotaryModeBasic -> prepareWith tx base hook = Ok resp -> exists b, base = Ok b /\ resp = prepare b.
Proof. intros Hm (b & Hb & Hr)%bind_Ok. rewrite Hm in Hr. injection Hr as <-. eauto. Qed.

Lemma buildCreate_V2 tx lt signature inputs locked additional spend cancel infos p :
  cf_Variant (pt_DomainConfig tx) = 2%Z -> buildCreateLockParams n tx lt signature inputs locked additional spend cancel infos = Ok p ->
  exists b h d proof, p = CreateLockParams b h.1 h.2 d /\ commitments n tx (lt_newLockInfo lt) locked spend cancel = Ok h /\
    le_EncodeArgs (NotoCreateLockArgs (nt_TransactionId (pt_Transaction tx)) (Some (ns_Id <$> inputs)) (Some (ns_Id <$> additional)) (Some (ns_Id <$> locked))
                     (lt_newLockStateID lt) (li_SpendTxId (lt_newLockInfo lt)) proof) = Ok b.
Proof.
  intros Hv. unfold buildCreateLockParams, IsV1, IsV2, IsNullifierVariant. rewrite Hv. cbn [Z.eqb Pos.eqb orb]. rewrite !idsOf_plain.
  intros (proof & _ & Hr)%bind_Ok. apply bind_Ok in Hr as (h & Hh & Hr). apply bind_Ok in Hr as (b & Hb & Hr). apply bind_Ok in Hr as (d & _ & Hr).
  injection Hr as <-. by exists b, h, d, proof.
Qed.

Lemma buildUpdate_V2 tx lt signature locked spend cancel infos p :
  cf_Variant (pt_DomainConfig tx) = 2%Z -> buildPrepareUnlockParams n tx lt signature locked spend cancel infos = Ok p ->
  exists b h d proof, p = UpdateLockParams (li_LockID (lt_prevLockInfo lt)) b h.1 h.2 d /\ commitments n tx (lt_newLockInfo lt) locked spend cancel = Ok h /\
    le_EncodeArgs (NotoUpdateLockArgs (nt_TransactionId (pt_Transaction tx)) (Some (ns_Id <$> locked)) (lt_prevLockStateID lt)
                     (lt_newLockStateID lt) (li_SpendTxId (lt_newLockInfo lt)) proof) = Ok b.
Proof.
  intros Hv. unfold buildPrepareUnlockParams, IsV1, IsV2. rewrite Hv. cbn [Z.eqb Pos.eqb orb]. rewrite !idsOf_plain.
  intros (proof & _ & Hr)%bind_Ok. apply bind_Ok in Hr as (h & Hh & Hr). apply bind_Ok in Hr as (b & Hb & Hr). apply bind_Ok in Hr as (d & _ & Hr).
  injection Hr as <-. by exists b, h, d, proof.
Qed.

(** A transaction that commits to the transfer of what it locks, or of what is locked. *)
Definition commitsToTransfer (p : NotoParams) : bool :=
  match p with CreateTransferLockParams _ _ _ _ | PrepareUnlockParams _ _ _ => true | _ => false end.

(** The coins that the lock lists are the coins among the info states, those of the spend before those
    of the cancel, as assembly puts them. *)
Definition listsItsOutputs (req : PrepareTransactionRequest) : Prop :=
  let k := createdLock n (pq_OutputStates req) in
  NoDup (li_SpendOutputs k ++ li_CancelOutputs k) /\
  ns_Id <$> filterSchema (pq_InfoStates req) [n_coinSchema n] = Bytes32_String <$> (li_SpendOutputs k ++ li_CancelOutputs k).

(** The transaction and its states have names of 32 bytes. *)
Definition wellNamed (tx : ParsedTransaction) (req : PrepareTransactionRequest) (txId : Bytes32) : Prop :=
  parseID (nt_TransactionId (pt_Transaction tx)) = Some txId /\
  Forall (fun s => is_Some (parseID (ns_Id s))) (pq_InputStates req ++ pq_ReadStates req ++ pq_OutputStates req).

(** The lock id of a new lock is the one the contract gives it. *)
Definition namesItsLock (computeLockId : EthAddress -> Bytes32 -> Bytes32) (sender : EthAddress) (tx : ParsedTransaction) (req : PrepareTransactionRequest)
    (txId : Bytes32) : Prop :=
  match pt_Params tx with
  | CreateTransferLockParams _ _ _ _ => li_LockID (createdLock n (pq_OutputStates req)) = computeLockId sender txId
  | _ => True
  end.

Lemma decoded_split ty senderID lockID req lt spend cancel :
  decodeV1LockTransitionWithOutputs n ty senderID lockID (pq_InputStates req) (pq_OutputStates req) (pq_InfoStates req) = Done (lt, spend, cancel) ->
  listsItsOutputs req ->
  validateV1LockTransition n ty senderID lockID (pq_InputStates req) (pq_OutputStates req) = Done lt /\
  ns_Id <$> spend = Bytes32_String <$> li_SpendOutputs (lt_newLockInfo lt) /\ ns_Id <$> cancel = Bytes32_String <$> li_CancelOutputs (lt_newLockInfo lt).
Proof.
  intros (lt' & Hv & Hr)%bind_Done [Hnd Hids]. apply bind_Done in Hr as ([s c] & Hs & [= <- <- <-]).
  destruct (validate_locks _ _ _ _ _ _ Hv) as [E _]. cbv zeta in Hnd, Hids. rewrite <- E in Hnd, Hids. unfold splitOutputs in Hs. apply bind_Done in Hs as (u & _ & [= <- <-]).
  destruct (listed_split _ _ _ Hnd Hids) as [Es Ec]. done.
Qed.

Lemma filtered_names tx req txId states schema :
  wellNamed tx req txId -> states = pq_InputStates req \/ states = pq_ReadStates req \/ states = pq_OutputStates req ->
  exists bs, parseIDs (ns_Id <$> filterSchema states [schema]) = Some bs.
Proof.
  intros [_ Hf] Hs. apply parseIDs_all, Forall_fmap. rewrite Forall_forall in *. intros s Hin.
  apply Hf. apply list_elem_of_In, filter_In in Hin as [Hin _]. apply list_elem_of_In in Hin. destruct Hs as [->|[->| ->]]; set_solver.
Qed.

(** ** The contract runs what was prepared *)

Context (computeLockId : EthAddress -> Bytes32 -> Bytes32).

(** The lock after the prepared call, as its state describes it. *)
Definition lockedCoins (lt : lockTransition) (req : PrepareTransactionRequest) : list NotoState :=
  filterSchema (match lt_prev lt with None => pq_OutputStates req | Some _ => pq_ReadStates req end) [n_lockedCoinSchema n].

Definition spendArgsOf (k : NotoLockInfo_V1) (contents : list Bytes32) : SpendArgs := MkSpendArgs (li_SpendTxId k) contents (li_SpendOutputs k) (li_SpendData k).
Definition cancelArgsOf (k : NotoLockInfo_V1) (contents : list Bytes32) : SpendArgs := MkSpendArgs (li_SpendTxId k) contents (li_CancelOutputs k) (li_CancelData k).

Lemma plainly_Ok {A} (r : outcome A) a : plainly r = Ok a -> r = Done a.
Proof. destruct r; try discriminate. by intros [= <-]. Qed.

Lemma prepared_committed notary tx req resp p op l sender l' txId :
  (forall s t, computeLockId s t <> zero32) -> LawfulABI (pt_ContractAddress_ tx) unlockHash ->
  cf_Variant (pt_DomainConfig tx) = 2%Z -> cf_NotaryMode (pt_DomainConfig tx) = NotaryModeBasic ->
  commitsToTransfer (pt_Params tx) = true -> wellNamed tx req txId -> listsItsOutputs req -> namesItsLock computeLockId sender tx req txId ->
  li_SpendTxId (createdLock n (pq_OutputStates req)) <> zero32 ->
  reachable computeLockId unlockHash notary l -> prepareHandler n tx req = Ok resp -> pr_Params resp = LedgerCall p -> callOp p = Some op ->
  execute computeLockId unlockHash sender op l = Ok l' ->
  exists lt contents,
    let k := lt_newLockInfo lt in
    validateV1LockTransition n LOCK_DECODE_ANY None None (pq_InputStates req) (pq_OutputStates req) = Done lt /\ is_Some (lt_new lt) /\
    parseIDs (ns_Id <$> lockedCoins lt req) = Some contents /\ li_LockID k <> zero32 /\
    committed l' (li_LockID k) (unlockHash (spendArgsOf k contents)) (unlockHash (cancelArgsOf k contents)) contents (li_SpendTxId k).
Proof.
  intros Hz0 Hlaw Hv Hm Hp Hwn Hlist Hname Hz Hr Hprep Hparams Hop Hex. unfold prepareHandler in Hprep. unfold namesItsLock in Hname.
  destruct (createdLock_lengths (pq_OutputStates req)) as (Lt & Ls & Lc). destruct (pt_Params tx) eqn:Ep; try discriminate Hp.
  - apply prepareWith_basic in Hprep as (b & Hb & ->); [|done].
    unfold baseLedgerInvokeCreateTransferLock in Hb. apply bind_Ok in Hb as (fromID & _ & Hb). apply bind_Ok in Hb as ([[lt spend] cancel] & Hd & Hb).
    apply bind_Ok in Hb as (sig & _ & Hb). apply bind_Ok in Hb as (params & Hpar & Hb). injection Hb as <-. cbn in Hparams. injection Hparams as ->.
    apply plainly_Ok in Hd. destruct (decoded_split _ _ _ _ _ _ _ Hd Hlist) as (Hval & Es & Ec).
    destruct (validate_locks _ _ _ _ _ _ Hval) as (Ek & Eprev & Enew). rewrite <- Ek in *.
    apply buildCreate_V2 in Hpar as (args & h & d & proof & -> & Hh & Henc); [|done]. cbn [fst snd] in *.
    destruct (filtered_names _ _ _ (pq_OutputStates req) (n_lockedCoinSchema n) Hwn) as [cs Hcs]; [auto|].
    destruct (filtered_names _ _ _ (pq_OutputStates req) (n_coinSchema n) Hwn) as [os Hos]; [auto|].
    destruct (filtered_names _ _ _ (pq_InputStates req) (n_coinSchema n) Hwn) as [ins His]; [auto|].
    cbn [callOp] in Hop. rewrite (law_create _ _ _ _ _ _ _ _ _ _ _ _ Henc (proj1 Hwn) His Hos Hcs) in Hop. injection Hop as <-.
    apply commitments_hash with (cs := cs) in Hh; [|done..]. subst h. cbn [execute] in Hex.
    exists lt, cs. cbv zeta. unfold lockedCoins. rewrite Eprev. split_and!; [by eapply validate_any|done|done|by rewrite Hname|].
    rewrite Hname. eapply (created_committed _ Hz0) in Hex; [exact Hex|done].
  - apply prepareWith_basic in Hprep as (b & Hb & ->); [|done].
    unfold baseLedgerInvokePrepareUnlock in Hb. unfold IsV0 in Hb. rewrite Hv in Hb. cbn [Z.eqb] in Hb.
    apply bind_Ok in Hb as (senderID & _ & Hb). apply bind_Ok in Hb as ([[lt spend] cancel] & Hd & Hb). apply bind_Ok in Hb as (sig & _ & Hb).
    unfold isV1orV2, IsV1, IsV2 in Hb. rewrite Hv in Hb. cbn [Z.eqb Pos.eqb orb] in Hb. apply bind_Ok in Hb as (params & Hpar & Hb).
    injection Hb as <-. cbn in Hparams. injection Hparams as ->.
    apply plainly_Ok in Hd. destruct (decoded_split _ _ _ _ _ _ _ Hd Hlist) as (Hval & Es & Ec).
    destruct (validate_locks _ _ _ _ _ _ Hval) as (Ek & [pv Eprev] & Enew & Eid). rewrite <- Ek in *.
    apply buildUpdate_V2 in Hpar as (args & h & d & proof & -> & Hh & Henc); [|done]. cbn [fst snd] in *.
    destruct (filtered_names _ _ _ (pq_ReadStates req) (n_lockedCoinSchema n) Hwn) as [cs Hcs]; [auto|].
    cbn [callOp] in Hop. rewrite (law_update _ _ _ _ _ _ _ _ _ Henc (proj1 Hwn) Hcs) in Hop. injection Hop as <-.
    apply commitments_hash with (cs := cs) in Hh; [|done..]. subst h. cbn [execute] in Hex.
    exists lt, cs. cbv zeta. unfold lockedCoins. rewrite Eprev. rewrite Eid.
    split_and!; [by eapply validate_any|done|done| |pose proof Hex as Hcm; eapply (updated_committed _ Hz0) in Hcm; [exact Hcm|done]].
    intros Hc. destruct (updateLock_state _ Hz0 _ _ _ _ _ _ _ Hex) as (_ & _ & _ & _ & Ha).
    destruct (reachable_consistent _ _ Hz0 _ _ Hr) as [_ _ Hzero _ _]. rewrite Hc in Ha. done.
Qed.

(** (C16) The receipt of a transaction that commits to a transfer (a transfer lock, or an unlock that is
    prepared) can be used, for a token in basic mode on the contract of variant 2 and for states as
    assembly makes them: ids of 32 bytes; among the info states exactly the coins the lock lists, those
    for spending before those for cancelling and none twice; a spend transaction that is set; and, for a
    new lock, the lock id that the contract gives it, which endorsement does not check. Of the encodings
    it is asked that they decode to what was encoded, and of lock ids that none is zero. Once the
    contract has run the prepared call, the spend call in the receipt of the same states makes exactly
    the outputs the lock lists, its cancel call those it lists for cancelling, and the contract accepts
    either from whoever may spend the lock, provided the spend transaction and its outputs have not been
    used. *)
Theorem receipt_calls_accepted notary tx req resp p op l sender l' txId variant info :
  (forall s t, computeLockId s t <> zero32) -> LawfulABI (pt_ContractAddress_ tx) unlockHash ->
  cf_Variant (pt_DomainConfig tx) = 2%Z -> cf_NotaryMode (pt_DomainConfig tx) = NotaryModeBasic ->
  commitsToTransfer (pt_Params tx) = true -> wellNamed tx req txId -> listsItsOutputs req -> namesItsLock computeLockId sender tx req txId ->
  li_SpendTxId (createdLock n (pq_OutputStates req)) <> zero32 ->
  reachable computeLockId unlockHash notary l -> prepareHandler n tx req = Ok resp -> pr_Params resp = LedgerCall p -> callOp p = Some op ->
  execute computeLockId unlockHash sender op l = Ok l' ->
  receiptLockInfoV1V2 n encodeSpend EncodeCallData (receiptOf req) variant = Ok (Some info) ->
  exists lockId unlock unlockCall cancel cancelCall spendArgs cancelArgs,
    rl_Unlock info = Some (unlock, unlockCall) /\ receiptOp unlock = Some (Op_spendLock lockId spendArgs) /\
    sa_outputs spendArgs = li_SpendOutputs (createdLock n (pq_OutputStates req)) /\
    rl_Cancel info = Some (cancel, cancelCall) /\ receiptOp cancel = Some (Op_cancelLock lockId cancelArgs) /\
    sa_outputs cancelArgs = li_CancelOutputs (createdLock n (pq_OutputStates req)) /\
    forall s, lk_spender (lockOf l' lockId) = Some s ->
      (fresh l' spendArgs -> exists l2, execute computeLockId unlockHash s (Op_spendLock lockId spendArgs) l' = Ok l2) /\
      (fresh l' cancelArgs -> exists l2, execute computeLockId unlockHash s (Op_cancelLock lockId cancelArgs) l' = Ok l2).
Proof.
  intros Hz0 Hlaw Hv Hm Hp Hwn Hlist Hname Hz Hr Hprep Hparams Hop Hex Hrec.
  destruct (prepared_committed _ _ _ _ _ _ _ _ _ _ Hz0 Hlaw Hv Hm Hp Hwn Hlist Hname Hz Hr Hprep Hparams Hop Hex) as (lt & cs & Hval & Hnew & Hcs & Hid & Hcm).
  cbv zeta in Hid, Hcm. destruct (createdLock_lengths (pq_OutputStates req)) as (Lt & Ls & Lc).
  destruct (validate_locks _ _ _ _ _ _ Hval) as [Ek _]. rewrite <- Ek in *.
  destruct (receipt_calls _ _ _ _ Hval Hnew Hz Hrec) as (b1 & c1 & b2 & c2 & Hu & Hc & He1 & He2).
  pose proof (law_spend _ _ _ _ _ _ _ _ _ He1 (parseID_string _ Lt) Hcs (parseIDs_strings _ Ls)) as D1.
  pose proof (law_spend _ _ _ _ _ _ _ _ _ He2 (parseID_string _ Lt) Hcs (parseIDs_strings _ Lc)) as D2.
  eexists _, _, _, _, _, (spendArgsOf (lt_newLockInfo lt) cs), (cancelArgsOf (lt_newLockInfo lt) cs).
  split_and!; [exact Hu|cbn [receiptOp]; by rewrite D1|done|exact Hc|cbn [receiptOp]; by rewrite D2|done|].
  intros s Hs. split; intros Hf.
  - by apply (committed_spends computeLockId unlockHash Hz0 _ _ _ _ _ _ s (spendArgsOf (lt_newLockInfo lt) cs) Hid Hcm Hf).
  - by apply (committed_spends computeLockId unlockHash Hz0 _ _ _ _ _ _ s (cancelArgsOf (lt_newLockInfo lt) cs) Hid Hcm Hf).
Qed.

(** ** A direct unlock *)

Lemma parseIDs_elem ids bs s b : parseIDs ids = Some bs -> s ∈ ids -> parseID s = Some b -> b ∈ bs.
Proof.
  unfold parseIDs. intros Hm Hs Hb. apply mapM_Some in Hm. apply list_elem_of_lookup in Hs as [i Hi].
  destruct (Forall2_lookup_l _ _ _ _ _ Hm Hi) as (b' & Hi' & E). apply list_elem_of_lookup. exists i. congruence.
Qed.

(** A spend consumes the lock state that the contract has for the lock. *)
Lemma _spendLock_state lockId hash args l l' : _spendLock unlockHash lockId hash args l = Ok l' -> lockStateOf l lockId ∈ lg_unspent l.
Proof.
  unfold _spendLock. intros Hc. destruct (negb _ && _)%bool; [discriminate|]. apply bind_Ok in Hc as (l1 & Hu & Hc).
  destruct (negb _ && _)%bool; [discriminate|]. destruct (negb _); [discriminate|]. apply bind_Ok in Hc as (l2 & Hi & Hc).
  apply processInput_Ok in Hi as [Hi _]. unfold useTxId in Hu. destruct (bool_decide _); [discriminate|]. by injection Hu as <-.
Qed.

(** (C36) A direct unlock of variant 2 is prepared as a call that the contract never accepts: assembly
    puts the lock state among the inputs, the call names every input as a locked state to spend, and the
    contract, in every run, does not hold the state of a lock as one of the states locked by it. *)
Theorem unlock_call_reverts notary tx p req resp q op l sender txId state id :
  (forall s t, computeLockId s t <> zero32) -> LawfulABI (pt_ContractAddress_ tx) unlockHash ->
  cf_Variant (pt_DomainConfig tx) = 2%Z -> cf_NotaryMode (pt_DomainConfig tx) = NotaryModeBasic -> pt_Params tx = UnlockParams_ p ->
  pq_Transaction req = pt_Transaction tx -> wellNamed tx req txId ->
  prepareHandler n tx req = Ok resp -> pr_Params resp = LedgerCall q -> callOp q = Some op ->
  state ∈ filterSchema (pq_InputStates req) [n_lockInfoSchemaV1 n] -> parseID (ns_Id state) = Some id ->
  reachable computeLockId unlockHash notary l -> lockStateOf l (up_LockID p) = id ->
  forall l', execute computeLockId unlockHash sender op l <> Ok l'.
Proof.
  intros Hz0 Hlaw Hv Hm Hp Htx Hwn Hprep Hparams Hop Hst Hid Hr Hls l' Hex. unfold prepareHandler in Hprep. rewrite Hp in Hprep.
  apply bind_Ok in Hprep as (x & _ & Hprep). apply prepareWith_basic in Hprep as (b & Hb & ->); [|done].
  unfold baseLedgerInvokeUnlock, isV1orV2, IsV0, IsV1, IsV2 in Hb. rewrite Hv in Hb. cbn [Z.eqb Pos.eqb orb] in Hb. rewrite !idsOf_plain in Hb.
  apply bind_Ok in Hb as (sig & _ & Hb). apply bind_Ok in Hb as (data & _ & Hb). apply bind_Ok in Hb as (args & Henc & Hb). injection Hb as <-.
  cbn in Hparams. injection Hparams as <-. rewrite Htx in Henc.
  assert (Hins : exists bs, parseIDs (ns_Id <$> pq_InputStates req) = Some bs).
  { apply parseIDs_all, Forall_fmap. destruct Hwn as [_ Hf]. rewrite Forall_app in Hf. apply Hf. }
  destruct Hins as [bs Hbs]. destruct (filtered_names _ _ _ (pq_OutputStates req) (n_coinSchema n) Hwn) as [os Hos]; [auto|].
  cbn [callOp] in Hop. rewrite (law_spend _ _ _ _ _ _ _ _ _ Henc (proj1 Hwn) Hbs Hos) in Hop. injection Hop as <-.
  cbn [execute] in Hex. apply bind_Ok in Hex as (u & [a Ha]%(lockActive_Ok) & Hc). apply bind_Ok in Hc as (w & _ & Hc).
  pose proof (reachable_consistent _ _ Hz0 _ _ Hr) as Hs. pose proof (_spendLock_state _ _ _ _ _ Hc) as Hu.
  apply _spendLock_inv with (a := a) in Hc as (_ & Hheld & _); [|done..]. cbn [sa_inputs] in Hheld.
  assert (Hin : id ∈ bs).
  { eapply parseIDs_elem; [exact Hbs| |exact Hid]. apply list_elem_of_fmap. exists state. split; [done|].
    apply list_elem_of_In, filter_In in Hst as [Hst _]. by apply list_elem_of_In. }
  assert (Hl : lg_locked l !! id = Some (up_LockID p)) by (apply elem_of_heldBy; rewrite Hheld; by apply elem_of_list_to_set).
  rewrite Hls in Hu. apply (so_disjoint _ _ _ Hs) in Hu. eapply (getLockId_zero l id (up_LockID p)); [|done|done].
  by eapply consistent_nonzero.
Qed.
End Receipts.
