(* ===== verification/NotoContractSample.v ===== *)
(** * The Noto token: a run of the contract

    A concrete ABI that keeps the laws of [LawfulABI], a transfer lock that is prepared, run on the
    contract, delegated and spent, and the instances there of the theorems of [NotoLedger] and
    [NotoCommit].

    Sources: see [NotoLedger], [NotoPrepare] and [NotoCommit]. *)

From S2P Require Import Prelude HexBytes Identity NotoTypes NotoChecks NotoEndorse NotoBalance NotoCodec NotoSample NotoStates NotoCompletion NotoReceipts NotoEvents NotoPrepare NotoLedger NotoCommit.
From Stdlib Require Import Ascii.
Open Scope string_scope.
Open Scope list_scope.

(** ** An ABI *)

(** Numbers as strings of binary digits, the lowest first. *)
Fixpoint bitsOf (p : positive) : string :=
  match p with xH => "" | xO p => String "0"%char (bitsOf p) | xI p => String "1"%char (bitsOf p) end.

Fixpoint ofBits (s : string) : positive :=
  match s with "" => xH | String c s => if Ascii.eqb c "1"%char then xI (ofBits s) else xO (ofBits s) end.

Lemma ofBits_bitsOf p : ofBits (bitsOf p) = p.
Proof. induction p as [p IH|p IH|]; cbn; rewrite ?IH; done. Qed.

(** Fields are lists of words. *)
Definition packWords (fields : list (list string)) : string := bitsOf (encode fields).
Definition unpackWords (s : string) : option (list (list string)) := decode (ofBits s).

Lemma unpack_pack fields : unpackWords (packWords fields) = Some fields.
Proof. unfold unpackWords, packWords. rewrite ofBits_bitsOf. apply decode_encode. Qed.

Definition parsed {A} (o : option A) : res A := match o with Some a => mret a | None => Err (ErrExternal "not 32 bytes") end.
Definition words (ids : option (list string)) : res (list Bytes32) := match ids with Some ids => parsed (parseIDs ids) | None => mret [] end.

Definition sampleEncodeArgs (args : LockArgs) : res string :=
  match args with
  | NotoCreateLockArgs TxId Inputs Outputs Contents new spendTxId _ =>
      txId ← parsed (parseID TxId); inputs ← words Inputs; outputs ← words Outputs; contents ← words Contents;
      mret (packWords [[txId; new; spendTxId]; inputs; outputs; contents])
  | NotoUpdateLockArgs TxId Contents old new spendTxId _ =>
      txId ← parsed (parseID TxId); contents ← words Contents; mret (packWords [[txId; old; new; spendTxId]; contents])
  | NotoSpendLockArgs TxId Inputs Outputs data _ =>
      txId ← parsed (parseID TxId); inputs ← words Inputs; outputs ← words Outputs; mret (packWords [[txId; data]; inputs; outputs])
  | NotoDelegateLockArgs TxId old new _ => txId ← parsed (parseID TxId); mret (packWords [[txId; old; new]])
  | _ => Err (ErrExternal "not of variant 2")
  end.

(** The fields of an unlock one after the other, of which the hash is the first 32 bytes. *)
Definition sampleMessage (txId : Bytes32) (inputs outputs : list Bytes32) (data : string) : string :=
  String.concat "" (outputs ++ [txId] ++ inputs ++ [data]).

#[export] Instance sampleEncoding : LedgerEncoding := {|
  le_EncodeArgs := sampleEncodeArgs;
  le_EncodeCallData _ _ := mret "";
  le_EncodeUnlock unlock :=
    match unlock with
    | UnlockMasked_V1 _ TxId inputs outputs data =>
        txId ← parsed (parseID TxId); inputs ← words (Some inputs); outputs ← words (Some outputs); mret (sampleMessage txId inputs outputs data)
    | UnlockMasked_V0 _ _ _ _ _ => Err (ErrExternal "not of variant 2")
    end;
  le_TreeRoot _ := mret "";
  le_EncodeRootAndSignature _ _ := mret ""
|}.

#[export] Instance sampleABI : LedgerABI := {|
  la_decodeCreate s :=
    match unpackWords s with
    | Some [[txId; new; spendTxId]; inputs; outputs; contents] => Some (MkCreateArgs txId inputs outputs contents new spendTxId)
    | _ => None
    end;
  la_decodeUpdate s :=
    match unpackWords s with Some [[txId; old; new; spendTxId]; contents] => Some (MkUpdateArgs txId contents old new spendTxId) | _ => None end;
  la_decodeSpend s :=
    match unpackWords s with Some [[txId; data]; inputs; outputs] => Some (MkSpendArgs txId inputs outputs data) | _ => None end;
  la_decodeDelegate s := match unpackWords s with Some [[txId; old; new]] => Some (MkDelegateArgs txId old new) | _ => None end
|}.

Definition sampleUnlockHash (args : SpendArgs) : Bytes32 :=
  String.substring 0 32 (sampleMessage (sa_txId args) (sa_inputs args) (sa_outputs args) (sa_data args)).

#[export] Instance sampleLawful contract : LawfulABI contract sampleUnlockHash.
Proof.
  split; intros *; cbn [le_EncodeArgs le_EncodeUnlock sampleEncoding sampleEncodeArgs]; unfold words; intros Henc;
    intros; repeat match goal with Hp : parseID _ = Some _ |- _ => rewrite Hp in Henc | Hp : parseIDs _ = Some _ |- _ => rewrite Hp in Henc end;
    cbn [parsed mbind res_bind mret res_ret] in Henc; injection Henc as <-; cbn [la_decodeCreate la_decodeUpdate la_decodeSpend sampleABI];
    rewrite ?unpack_pack; reflexivity.
Qed.

(** The id of a lock, told from any other by the transaction. *)
Definition sampleLockId (sender : EthAddress) (txId : Bytes32) : Bytes32 := String "L"%char (String.substring 1 31 txId).

Lemma sampleLockId_nonzero sender txId : sampleLockId sender txId <> zero32.
Proof. discriminate. Qed.

(** ** A transfer lock *)

Definition theNotary : EthAddress := addr "n".
Definition runOf := executeAll sampleLockId sampleUnlockHash.

Definition lockTransaction (params : NotoParams) : ParsedTransaction :=
  MkParsedTransaction
    (MkNotoTransaction (Bytes32_String (bytes32 "T")) "alice@node1" None "" None (EthAddress_String (addr "c")) None)
    (addr "c") (sampleConfigNoto 2) params.

Definition theLock : Bytes32 := sampleLockId theNotary (bytes32 "T").

(** Ten of Alice's are locked, to be paid to Bob or back to her. *)
Definition transferLockTx : ParsedTransaction :=
  lockTransaction (CreateTransferLockParams "alice@node1" [Some (MkUnlockRecipient "bob@node1" (Some 10%Z))] "" "").

Definition transferLockRequest : PrepareTransactionRequest :=
  MkPrepareTransactionRequest (pt_Transaction transferLockTx) [coinState "1" alice 10] []
    [lockedState "5" theLock alice 10; lockState "6" theLock alice (zeros 32) ["7"] ["8"]]
    [coinState "7" bob 10; coinState "8" alice 10] (signedBy alice) sampleVerifiers.

Definition okOr {A} (d : A) (r : res A) : A := match r with Ok a => a | _ => d end.

Definition minted : Ledger := okOr (initialize theNotary) (runOf [(theNotary, Op_mint (bytes32 "M") [bytes32 "1"])] (initialize theNotary)).

(** The parts of a call that was prepared, with something else where there is none. *)
Definition preparedBy (tx : ParsedTransaction) (req : PrepareTransactionRequest) : PrepareTransactionResponse :=
  okOr (MkPrepareTransactionResponse false (HookFunction "") (LedgerCall (NotoMintParams "" None "" "")) None) (prepareHandler sampleNoto tx req).
Definition callOfResponse (resp : PrepareTransactionResponse) : LedgerParams :=
  match pr_Params resp with LedgerCall p => p | _ => NotoMintParams "" None "" "" end.
Definition opOfCall (p : LedgerParams) : LedgerOp := default (Op_mint "" []) (callOp p).
Definition preparedOp (tx : ParsedTransaction) (req : PrepareTransactionRequest) : LedgerOp := opOfCall (callOfResponse (preparedBy tx req)).

(** The contract after the lock, and after it is delegated to Bob or spent. *)
Definition locked : Ledger := okOr minted (runOf [(theNotary, preparedOp transferLockTx transferLockRequest)] minted).
Definition theSpend : SpendArgs := MkSpendArgs (bytes32 "t") [bytes32 "5"] [bytes32 "7"] "".
Definition theDelegation : DelegateArgs := MkDelegateArgs (bytes32 "D") (bytes32 "6") (bytes32 "9").
Definition delegated : Ledger := okOr locked (runOf [(theNotary, Op_delegateLock theLock theDelegation bob)] locked).
Definition spent : Ledger := okOr locked (runOf [(theNotary, Op_spendLock theLock theSpend)] locked).

Definition theReceipt : ReceiptLockInfo :=
  okOr (MkReceiptLockInfo "" None None None None)
    (o ← receiptLockInfoV1V2 sampleNoto encodeSpend (fun _ _ => mret "") (receiptOf transferLockRequest) 2; parsed o).

(** A direct unlock of the same lock, with the lock state among its inputs. *)
Definition unlockOfBob : UnlockParams := MkUnlockParams theLock "alice@node1" [Some (MkUnlockRecipient "bob@node1" (Some 10%Z))] "".
Definition unlockTx : ParsedTransaction := lockTransaction (UnlockParams_ unlockOfBob).
Definition unlockRequest : PrepareTransactionRequest :=
  MkPrepareTransactionRequest (pt_Transaction unlockTx) [lockedState "5" theLock alice 10; lockState "6" theLock alice (zeros 32) ["7"] ["8"]] []
    [coinState "A" bob 10] [] (signedBy alice ++ [MkNotoAttestation "notary" (Some (verifierOf "notary@node1" theNotary)) ""]) sampleVerifiers.

Definition laterMint : EthAddress * LedgerOp := (theNotary, Op_mint (bytes32 "N") [bytes32 "A"]).
Definition mintedAgain : Ledger := okOr delegated (runOf [laterMint] delegated).

(** ** Runs *)

Lemma runs_reachable computeLockId unlockHash notary calls l l' :
  reachable computeLockId unlockHash notary l -> executeAll computeLockId unlockHash calls l = Ok l' -> reachable computeLockId unlockHash notary l'.
Proof.
  revert l. induction calls as [|[s op] calls IH]; intros l Hr; cbn [executeAll]; [by intros [= <-]|].
  intros (m & Hm & He)%bind_Ok. eapply IH; [|exact He]. by econstructor.
Qed.

Lemma minted_reachable : reachable sampleLockId sampleUnlockHash theNotary minted.
Proof. eapply (runs_reachable _ _ _ [(theNotary, Op_mint (bytes32 "M") [bytes32 "1"])]); [constructor|vm_compute; reflexivity]. Qed.

Lemma locked_reachable : reachable sampleLockId sampleUnlockHash theNotary locked.
Proof.
  eapply (runs_reachable _ _ _ [(theNotary, preparedOp transferLockTx transferLockRequest)]); [apply minted_reachable|vm_compute; reflexivity].
Qed.

Lemma delegated_reachable : reachable sampleLockId sampleUnlockHash theNotary delegated.
Proof. eapply (runs_reachable _ _ _ [(theNotary, Op_delegateLock theLock theDelegation bob)]); [apply locked_reachable|vm_compute; reflexivity]. Qed.

Lemma transferLock_wellNamed : wellNamed transferLockTx transferLockRequest (bytes32 "T").
Proof. split; [vm_compute; reflexivity|]. repeat (constructor; [eexists; vm_compute; reflexivity|]). constructor. Qed.

Lemma unlock_wellNamed : wellNamed unlockTx unlockRequest (bytes32 "T").
Proof. split; [vm_compute; reflexivity|]. repeat (constructor; [eexists; vm_compute; reflexivity|]). constructor. Qed.

Lemma transferLock_lists : listsItsOutputs sampleNoto transferLockRequest.
Proof. split; [apply (bool_decide_unpack _); vm_compute; exact I|vm_compute; reflexivity]. Qed.

(** ** Instances *)

(** The lock is spent by the call that it commits to, and nothing is left in it. *)
Lemma locked_state_leaves_by_commitment_witness :
  lg_locked locked !! bytes32 "5" = Some theLock /\ lk_spender (lockOf locked theLock) = Some theNotary /\
  sampleUnlockHash theSpend = lk_spendCommitment (lockOf locked theLock) /\ heldBy (lg_locked spent) theLock = ∅.
Proof.
  assert (Hx : lg_locked locked !! bytes32 "5" = Some theLock) by (vm_compute; reflexivity).
  destruct (locked_state_leaves_by_commitment sampleLockId sampleUnlockHash sampleLockId_nonzero theNotary locked theNotary (Op_spendLock theLock theSpend)
    spent (bytes32 "5") theLock locked_reachable ltac:(vm_compute; reflexivity) Hx) as [Hl|(args & c & [[E ->]|[E _]] & Hs & Hc & _ & He)].
  - vm_compute in Hl. discriminate Hl.
  - injection E as <-. split; [exact Hx|]. split; [exact Hs|]. split; [apply Hc; vm_compute; discriminate|exact He].
  - discriminate E.
Defined.

(** A mint changes nothing of the lock that is delegated to Bob. *)
Lemma delegated_lock_is_binding_witness :
  runOf [laterMint] delegated = Ok mintedAgain /\ standsAs delegated mintedAgain theLock.
Proof.
  split; [vm_compute; reflexivity|].
  destruct (delegated_lock_is_binding sampleLockId sampleUnlockHash sampleLockId_nonzero theNotary delegated [laterMint] mintedAgain theLock theNotary)
    as [Hs|[(s & op & Hin & args & [[E _]|[E _]])|(s & args & Hin)]].
  - apply delegated_reachable.
  - vm_compute. reflexivity.
  - vm_compute. discriminate.
  - vm_compute. reflexivity.
  - exact Hs.
  - apply list_elem_of_singleton in Hin. subst op. discriminate Hin.
  - apply list_elem_of_singleton in Hin. subst op. discriminate Hin.
  - apply list_elem_of_singleton in Hin. discriminate Hin.
Defined.

(** The receipt of the lock gives the call that pays Bob. *)
Lemma receipt_calls_accepted_witness :
  exists lockId unlock unlockCall spendArgs,
    rl_Unlock theReceipt = Some (unlock, unlockCall) /\ receiptOp unlock = Some (Op_spendLock lockId spendArgs) /\ sa_outputs spendArgs = [bytes32 "7"].
Proof.
  destruct (receipt_calls_accepted sampleNoto sampleUnlockHash (fun _ _ => mret "") sampleLockId theNotary transferLockTx transferLockRequest
    (preparedBy transferLockTx transferLockRequest) (callOfResponse (preparedBy transferLockTx transferLockRequest))
    (preparedOp transferLockTx transferLockRequest) minted theNotary locked (bytes32 "T") 2 theReceipt)
    as (lockId & unlock & unlockCall & cancel & cancelCall & spendArgs & cancelArgs & Hu & Ho & Hs & _).
  - exact sampleLockId_nonzero.
  - apply sampleLawful.
  - reflexivity.
  - reflexivity.
  - reflexivity.
  - exact transferLock_wellNamed.
  - exact transferLock_lists.
  - vm_compute. reflexivity.
  - vm_compute. discriminate.
  - exact minted_reachable.
  - vm_compute. reflexivity.
  - vm_compute. reflexivity.
  - vm_compute. reflexivity.
  - vm_compute. reflexivity.
  - vm_compute. reflexivity.
  - exists lockId, unlock, unlockCall, spendArgs. split; [exact Hu|]. split; [exact Ho|]. rewrite Hs. vm_compute. reflexivity.
Defined.

(** The same lock, unlocked directly instead. *)
Lemma unlock_call_reverts_witness :
  lockStateOf locked theLock = bytes32 "6" /\
  forall l', execute sampleLockId sampleUnlockHash theNotary (preparedOp unlockTx unlockRequest) locked <> Ok l'.
Proof.
  split; [vm_compute; reflexivity|].
  apply (unlock_call_reverts sampleNoto sampleUnlockHash sampleLockId theNotary unlockTx unlockOfBob unlockRequest
    (preparedBy unlockTx unlockRequest) (callOfResponse (preparedBy unlockTx unlockRequest)) (preparedOp unlockTx unlockRequest) locked theNotary (bytes32 "T")
    (lockState "6" theLock alice (zeros 32) ["7"] ["8"]) (bytes32 "6")).
  - exact sampleLockId_nonzero.
  - apply sampleLawful.
  - reflexivity.
  - reflexivity.
  - reflexivity.
  - reflexivity.
  - exact unlock_wellNamed.
  - vm_compute. reflexivity.
  - vm_compute. reflexivity.
  - vm_compute. reflexivity.
  - apply list_elem_of_singleton. vm_compute. reflexivity.
  - vm_compute. reflexivity.
  - exact locked_reachable.
  - vm_compute. reflexivity.
Defined.
