(* ===== verification/PubTxGas.v ===== *)
(** * Public transactions: gas prices

    The price of the next submission of a public transaction, from a fixed price, a cache, an oracle or
    the fee history, what was submitted before, and the configured caps.

    Theorems: a price that replaces another is never lower and, if it rose or the last one was too low,
    both of its parts are higher by the configured percentage, all up to the caps; and the caps hold.

    An [int] percentage is a [Z]; prices are [big.Int], which do not overflow.  The oracle and the fee
    history are parameters.

    Sources: core/go/internal/publictxmgr/gas_price_client.go, in_memory_tx_state.go. *)

From S2P Require Import Prelude.
Open Scope string_scope.
Open Scope list_scope.

Record PublicTxGasPricing : Type := MkGasPricing { MaxFeePerGas : option Z; MaxPriorityFeePerGas : option Z }.

#[export] Instance PublicTxGasPricing_eq_dec : EqDecision PublicTxGasPricing.
Proof. solve_decision. Defined.

Definition noGasPricing : PublicTxGasPricing := MkGasPricing None None.

Definition gasPricingSet (gasPricing : PublicTxGasPricing) : bool :=
  match MaxFeePerGas gasPricing, MaxPriorityFeePerGas gasPricing with Some _, Some _ => true | _, _ => false end.

(** What of a [HybridGasPriceClient] decides a price; the cache holds one price. *)
Record GasPriceClient : Type := MkGasPriceClient {
  gc_hasZeroGasPrice : bool;
  gc_fixedGasPrice : option PublicTxGasPricing;
  gc_maxPriorityFeePerGasCap : option Z;
  gc_maxFeePerGasCap : option Z;
  gc_gasPriceIncreasePercent : Z;
  gc_gasOracle : bool;
  gc_baseFeeBufferFactor : Z;
  gc_cacheEnabled : bool;
  gc_gasPriceCache : option PublicTxGasPricing }.

#[export] Instance GasPriceClient_rebuild : Rebuild GasPriceClient := fun c =>
  MkGasPriceClient (gc_hasZeroGasPrice c) (gc_fixedGasPrice c) (gc_maxPriorityFeePerGasCap c) (gc_maxFeePerGasCap c) (gc_gasPriceIncreasePercent c)
    (gc_gasOracle c) (gc_baseFeeBufferFactor c) (gc_cacheEnabled c) (gc_gasPriceCache c).

(** The answer of [eth_feeHistory]. *)
Record FeeHistory : Type := MkFeeHistory { fh_BaseFeePerGas : list Z; fh_Reward : list (list Z) }.

(** ** Estimates *)

Definition estimateEIP1559Fees (c : GasPriceClient) (feeHistory : res FeeHistory) : res PublicTxGasPricing :=
  match feeHistory with
  | Ok h =>
      match last (fh_BaseFeePerGas h), fh_Reward h with
      | Some nextBlockBaseFee, _ :: _ =>
          match omap head (fh_Reward h) with
          | [] => Err (ErrExternal "no valid tips found in fee history")
          | tip :: tips =>
              let maxPriorityFeePerGas := foldl (fun highest tip => if (highest <? tip)%Z then tip else highest) tip tips in
              let bufferedBaseFee := (nextBlockBaseFee * gc_baseFeeBufferFactor c)%Z in
              Ok (MkGasPricing (Some (bufferedBaseFee + maxPriorityFeePerGas)%Z) (Some maxPriorityFeePerGas))
          end
      | _, _ => Err (ErrExternal "MsgPublicTxMgrFeeHistoryEmpty")
      end
  | Err e => Err (ErrExternal "MsgPublicTxMgrFeeHistoryCallFailed")
  | Crash x => Crash x
  end.

(** What is left of the oracle's answer once it is parsed: both parts have to be there. *)
Definition getGasPriceFromGasOracle (answer : res PublicTxGasPricing) : res PublicTxGasPricing :=
  match answer with
  | Ok g => match MaxFeePerGas g, MaxPriorityFeePerGas g with
            | None, _ => Err (ErrExternal "MsgPublicTxMgrGasOracleMaxFeePerGasMissing")
            | _, None => Err (ErrExternal "MsgPublicTxMgrGasOracleMaxPriorityFeePerGasMissing")
            | _, _ => Ok g
            end
  | Err e => Err e
  | Crash x => Crash x
  end.

(** ** Prices *)

Definition increased (percentage price : Z) : Z := ((price * (100 + percentage) + 99) / 100)%Z.

Definition increaseGasPricingByPercentage (gasPricing : PublicTxGasPricing) (percentage : Z) : PublicTxGasPricing :=
  MkGasPricing (increased percentage <$> MaxFeePerGas gasPricing) (increased percentage <$> MaxPriorityFeePerGas gasPricing).

Definition capped (cap : option Z) (price : Z) : Z :=
  match cap with Some c => if (c <? price)%Z then c else price | None => price end.

Definition capGasPricing (c : GasPriceClient) (gasPricing : PublicTxGasPricing) : PublicTxGasPricing :=
  MkGasPricing (capped (gc_maxFeePerGasCap c) <$> MaxFeePerGas gasPricing) (capped (gc_maxPriorityFeePerGasCap c) <$> MaxPriorityFeePerGas gasPricing).

(** [calculateNewGasPrice]; [retrievedGPO] without a part is a nil dereference. *)
Definition calculateNewGasPrice (c : GasPriceClient) (previouslySubmittedGPO : option PublicTxGasPricing) (retrievedGPO : PublicTxGasPricing) (underpriced : bool)
    : res PublicTxGasPricing :=
  match previouslySubmittedGPO with
  | Some previous =>
      match MaxFeePerGas previous, MaxPriorityFeePerGas previous with
      | Some previousFee, Some previousPriority =>
          match MaxPriorityFeePerGas retrievedGPO, MaxFeePerGas retrievedGPO with
          | Some priority, Some fee =>
              if (previousPriority <? priority)%Z || (previousFee <? fee)%Z then
                let minPriority := increased (gc_gasPriceIncreasePercent c) previousPriority in
                let minFee := increased (gc_gasPriceIncreasePercent c) previousFee in
                Ok (MkGasPricing (Some (if (fee <? minFee)%Z then minFee else fee)) (Some (if (priority <? minPriority)%Z then minPriority else priority)))
              else if underpriced then Ok (increaseGasPricingByPercentage previous (gc_gasPriceIncreasePercent c))
              else Ok previous
          | _, _ => Crash Panic
          end
      | _, _ => Ok retrievedGPO
      end
  | None => Ok retrievedGPO
  end.

(** [GetGasPriceObject], with the client it leaves: a price that was retrieved is cached. *)
Definition GetGasPriceObject (c : GasPriceClient) (oracle : res PublicTxGasPricing) (feeHistory : res FeeHistory)
    (txFixedGasPrice previouslySubmittedGPO : option PublicTxGasPricing) (underpriced : bool) : GasPriceClient * res PublicTxGasPricing :=
  if gc_hasZeroGasPrice c then (c, Ok (MkGasPricing (Some 0%Z) (Some 0%Z)))
  else
    match txFixedGasPrice with
    | Some fixed => (c, Ok (capGasPricing c fixed))
    | None =>
        let priced c gpo :=
          (c, match calculateNewGasPrice c previouslySubmittedGPO gpo underpriced with
              | Ok g => Ok (capGasPricing c g)
              | Err e => Err e
              | Crash x => Crash x
              end) in
        match gc_fixedGasPrice c with
        | Some gpo => priced c gpo
        | None =>
            match (if gc_cacheEnabled c then gc_gasPriceCache c else None) with
            | Some cached => priced c cached
            | None =>
                match (if gc_gasOracle c then getGasPriceFromGasOracle oracle else estimateEIP1559Fees c feeHistory) with
                | Ok gpo => priced (if gc_cacheEnabled c then c <| gc_gasPriceCache := Some gpo |> else c) gpo
                | Err e => (c, Err e)
                | Crash x => (c, Crash x)
                end
            end
        end
    end.

Definition calculateGasRequiredForTransaction (gpo : PublicTxGasPricing) (gasLimit : Z) : option Z :=
  match MaxFeePerGas gpo, MaxPriorityFeePerGas gpo with Some fee, Some _ => Some (fee * gasLimit)%Z | _, _ => None end.

(** ** Replacing a price *)

Lemma increased_ge percentage price : (0 <= percentage)%Z -> (0 <= price)%Z -> (price <= increased percentage price)%Z.
Proof. intros Hp Hq. unfold increased. apply Z.div_le_lower_bound; nia. Qed.

(** Rounding up: the increase is never short of the percentage, and no more than one unit over. *)
Lemma increased_percentage percentage price :
  (price * (100 + percentage) <= 100 * increased percentage price < price * (100 + percentage) + 100)%Z.
Proof.
  unfold increased. pose proof (Z.div_mod (price * (100 + percentage) + 99) 100 ltac:(lia)).
  pose proof (Z.mod_pos_bound (price * (100 + percentage) + 99) 100 ltac:(lia)). lia.
Qed.

(** The prices from a source, before they are compared and capped. *)
Definition offers (c : GasPriceClient) (oracle : res PublicTxGasPricing) (feeHistory : res FeeHistory) (gpo : PublicTxGasPricing) : Prop :=
  gc_fixedGasPrice c = Some gpo \/
  gc_fixedGasPrice c = None /\ (gc_cacheEnabled c = true /\ gc_gasPriceCache c = Some gpo \/
    (if gc_gasOracle c then getGasPriceFromGasOracle oracle else estimateEIP1559Fees c feeHistory) = Ok gpo).

Lemma GetGasPriceObject_dynamic c oracle feeHistory previous underpriced c' gpo :
  gc_hasZeroGasPrice c = false -> GetGasPriceObject c oracle feeHistory None previous underpriced = (c', Ok gpo) ->
  exists offered priced, offers c oracle feeHistory offered /\ calculateNewGasPrice c previous offered underpriced = Ok priced /\ gpo = capGasPricing c priced.
Proof.
  intros Hz. unfold GetGasPriceObject. rewrite Hz.
  assert (Hfin : forall d offered, gc_gasPriceIncreasePercent d = gc_gasPriceIncreasePercent c -> gc_maxFeePerGasCap d = gc_maxFeePerGasCap c ->
    gc_maxPriorityFeePerGasCap d = gc_maxPriorityFeePerGasCap c -> offers c oracle feeHistory offered ->
    (d, match calculateNewGasPrice d previous offered underpriced with Ok g => Ok (capGasPricing d g) | Err e => Err e | Crash x => Crash x end) = (c', Ok gpo) ->
    exists offered priced, offers c oracle feeHistory offered /\ calculateNewGasPrice c previous offered underpriced = Ok priced /\ gpo = capGasPricing c priced).
  { intros d offered E1 E2 E3 Ho Hd. injection Hd as _ Hd. destruct (calculateNewGasPrice d previous offered underpriced) as [g|e|x] eqn:Ec; try discriminate.
    injection Hd as <-. exists offered, g. split; [done|]. unfold capGasPricing. rewrite E2, E3. split; [|done].
    unfold calculateNewGasPrice in *. by rewrite <- E1. }
  destruct (gc_fixedGasPrice c) as [g|] eqn:Ef; [apply Hfin; try done; by left|].
  destruct (gc_cacheEnabled c) eqn:Ee; [destruct (gc_gasPriceCache c) as [g|] eqn:Eg|].
  - apply Hfin; try done. right. split; [done|]. by left.
  - destruct (if gc_gasOracle c then _ else _) as [g|e|x] eqn:Es; try discriminate. apply Hfin; try done. right. split; [done|]. by right.
  - destruct (if gc_gasOracle c then _ else _) as [g|e|x] eqn:Es; try discriminate. apply Hfin; try done. right. split; [done|]. by right.
Qed.

(** At least a price, up to a cap. *)
Definition reaches (cap : option Z) (bound price : Z) : Prop := (bound <= price)%Z \/ exists c, cap = Some c /\ price = c.

Lemma capped_reaches cap bound price : (bound <= price)%Z -> reaches cap bound (capped cap price).
Proof.
  intros Hb. unfold reaches, capped. destruct cap as [c|]; [|by left]. destruct (Z.ltb_spec c price); [right; by exists c|by left].
Qed.

(** (C30) When a transaction that was submitted at one price is submitted again at a price that the client
    works out, neither part of the new price is below the old one, and if either part rose or the old
    price was too low, both are higher by the configured percentage, rounded up; except that a part may
    be at its configured cap instead, and no part is above it. *)
Theorem replacement_price_rises c oracle feeHistory fee priority underpriced c' gpo :
  gc_hasZeroGasPrice c = false -> (0 <= gc_gasPriceIncreasePercent c)%Z -> (0 <= fee)%Z -> (0 <= priority)%Z ->
  GetGasPriceObject c oracle feeHistory None (Some (MkGasPricing (Some fee) (Some priority))) underpriced = (c', Ok gpo) ->
  exists newFee newPriority, gpo = MkGasPricing (Some newFee) (Some newPriority) /\
    reaches (gc_maxFeePerGasCap c) fee newFee /\ reaches (gc_maxPriorityFeePerGasCap c) priority newPriority /\
    ((fee < newFee)%Z \/ (priority < newPriority)%Z \/ underpriced = true ->
       reaches (gc_maxFeePerGasCap c) (increased (gc_gasPriceIncreasePercent c) fee) newFee /\
       reaches (gc_maxPriorityFeePerGasCap c) (increased (gc_gasPriceIncreasePercent c) priority) newPriority) /\
    (forall cap, gc_maxFeePerGasCap c = Some cap -> (newFee <= cap)%Z) /\ (forall cap, gc_maxPriorityFeePerGasCap c = Some cap -> (newPriority <= cap)%Z).
Proof.
  intros Hz Hp Hf Hr Hg. apply GetGasPriceObject_dynamic in Hg as (offered & priced & _ & Hc & ->); [|done].
  pose proof (increased_ge _ _ Hp Hf) as Gf. pose proof (increased_ge _ _ Hp Hr) as Gp.
  assert (Hcap : forall cap p x, cap = Some x -> (capped cap p <= x)%Z) by (intros cap p x ->; unfold capped; destruct (Z.ltb_spec x p); lia).
  unfold calculateNewGasPrice in Hc. cbn in Hc. destruct (MaxPriorityFeePerGas offered) as [op|]; [|discriminate]. destruct (MaxFeePerGas offered) as [offee|]; [|discriminate].
  destruct ((priority <? op)%Z || (fee <? offee)%Z) eqn:Eo.
  - injection Hc as <-. do 2 eexists. split; [reflexivity|].
    assert (Bf : (increased (gc_gasPriceIncreasePercent c) fee <= if (offee <? increased (gc_gasPriceIncreasePercent c) fee)%Z then increased (gc_gasPriceIncreasePercent c) fee else offee)%Z)
      by (destruct (Z.ltb_spec offee (increased (gc_gasPriceIncreasePercent c) fee)); lia).
    assert (Bp : (increased (gc_gasPriceIncreasePercent c) priority <= if (op <? increased (gc_gasPriceIncreasePercent c) priority)%Z then increased (gc_gasPriceIncreasePercent c) priority else op)%Z)
      by (destruct (Z.ltb_spec op (increased (gc_gasPriceIncreasePercent c) priority)); lia).
    split_and!; eauto using capped_reaches; apply capped_reaches; lia.
  - destruct underpriced.
    + injection Hc as <-. do 2 eexists. split; [reflexivity|]. split_and!; eauto; try (apply capped_reaches; lia). intros _. split; apply capped_reaches; lia.
    + injection Hc as <-. do 2 eexists. split; [reflexivity|]. split_and!; eauto; try (apply capped_reaches; lia).
      assert (Hle : forall cap p, (capped cap p <= p)%Z) by (intros [x|] p; unfold capped; [destruct (Z.ltb_spec x p)|]; lia).
      intros [H|[H|H]]; [|..|done]; exfalso.
      * pose proof (Hle (gc_maxFeePerGasCap c) fee). lia.
      * pose proof (Hle (gc_maxPriorityFeePerGasCap c) priority). lia.
Qed.

(** ** An instance *)

Definition sampleGasClient : GasPriceClient := MkGasPriceClient false None (Some 50%Z) None 10 false 2 true None.

Lemma replacement_price_rises_witness :
  exists c' gpo, GetGasPriceObject sampleGasClient (Err MsgContextCanceled) (Ok (MkFeeHistory [100%Z; 90%Z] [[3%Z]; [7%Z]])) None
      (Some (MkGasPricing (Some 105%Z) (Some 48%Z))) true = (c', Ok gpo) /\
    exists newFee newPriority, gpo = MkGasPricing (Some newFee) (Some newPriority) /\ reaches (Some 50%Z) (increased 10 48) newPriority.
Proof.
  destruct (GetGasPriceObject sampleGasClient (Err MsgContextCanceled) (Ok (MkFeeHistory [100%Z; 90%Z] [[3%Z]; [7%Z]])) None
    (Some (MkGasPricing (Some 105%Z) (Some 48%Z))) true) as [c' [gpo|e|x]] eqn:Eg; [|vm_compute in Eg; discriminate Eg..].
  exists c', gpo. split; [reflexivity|].
  destruct (replacement_price_rises sampleGasClient (Err MsgContextCanceled) (Ok (MkFeeHistory [100%Z; 90%Z] [[3%Z]; [7%Z]])) 105 48 true c' gpo)
    as (nf & np & E & _ & _ & Hu & _); [reflexivity|cbn; lia|lia|lia|exact Eg|].
  exists nf, np. split; [exact E|]. apply Hu. right; right. reflexivity.
Defined.
