(* ===== verification/PubTxStages.v ===== *)
(** * Public transactions: one transaction in flight

    A public transaction that an orchestrator works on: its in-memory state, its generations (a new one
    for each update by the user), the stage that the current generation runs, and the goroutines of
    stages.  A stage starts a goroutine, which leaves an output; the orchestrator's pass looks at the
    outputs, has what they say persisted by another goroutine, and goes on to the next stage when that
    has left its output too.

    [InFlightTx] is the memory of one such transaction with the goroutines that are under way, the
    submissions that are in the database and the messages that went to the chain.  A running stage
    context is a pointer that the generation and its goroutines share: contexts are kept in a list and
    the generation has an index into it.  A goroutine's body is one step, at any time after it was
    started; a panic of a goroutine is recovered and becomes an output.  All readings of the clock
    within a step are one.  Logs, metrics and timelines are left out, and activity records keep the
    action and whether it failed, not the text.

    Sources: core/go/internal/publictxmgr/in_flight_transaction_stage_controller.go,
    in_flight_transaction_state_generation.go, in_flight_transaction_state_manager.go,
    in_memory_tx_state.go, transaction_submission.go, transaction_signing.go, submission_writer.go,
    types.go, persisted_pub_txs.go. *)

From Stdlib Require Import Ascii.
From S2P Require Import Prelude PubTxGas.
Open Scope string_scope.
Open Scope list_scope.

(** ** Data *)

Inductive InFlightStatus : Type := InFlightStatusPending | InFlightStatusSuspending | InFlightStatusConfirmReceived.
#[export] Instance InFlightStatus_eq_dec : EqDecision InFlightStatus.
Proof. solve_decision. Defined.

Inductive InFlightTxStage : Type :=
| InFlightTxStageStatusUpdate | InFlightTxStageRetrieveGasPrice | InFlightTxStageSigning | InFlightTxStageSubmitting | InFlightTxStageComplete | InFlightTxStageQueued.
#[export] Instance InFlightTxStage_eq_dec : EqDecision InFlightTxStage.
Proof. solve_decision. Defined.

Inductive BaseTxSubStatus : Type := BaseTxSubStatusReceived | BaseTxSubStatusStale | BaseTxSubStatusTracking | BaseTxSubStatusConfirmed.
Inductive BaseTxAction : Type :=
| BaseTxActionSign | BaseTxActionStateTransition | BaseTxActionAssignNonce | BaseTxActionRetrieveGasPrice | BaseTxActionSubmitTransaction | BaseTxActionConfirmTransaction.

(** [""] is an outcome that was not set. *)
Inductive SubmissionOutcome : Type :=
| SubmissionOutcomeSubmittedNew | SubmissionOutcomeNonceTooLow | SubmissionOutcomeAlreadyKnown | SubmissionOutcomeFailedRequiresRetry | SubmissionOutcomeNone.

(** [ethclient.ErrorReason] *)
Inductive ErrorReason : Type :=
| ErrorReasonNone | ErrorReasonInvalidInputs | ErrorReasonTransactionReverted | ErrorReasonNonceTooLow | ErrorReasonTransactionUnderpriced
| ErrorReasonInsufficientFunds | ErrorReasonNotFound | ErrorKnownTransaction | ErrorReasonDownstreamDown.
#[export] Instance ErrorReason_eq_dec : EqDecision ErrorReason.
Proof. solve_decision. Defined.

Record DBPublicTxnBinding : Type := MkBinding { bd_Transaction : uuid; bd_TransactionType : string; bd_Sender : string; bd_ContractAddress : string }.

(** The public transaction that goes with a submission to the sequencer. *)
Record SubmittedPublicTx : Type := MkSubmittedPublicTx {
  sx_TransactionHash : option string; sx_From : string; sx_To : option string; sx_Data : string; sx_Nonce : Z; sx_Created : Z; sx_Gas : Z; sx_Value : option Z;
  sx_Submission : PublicTxGasPricing; sx_GasPricing : PublicTxGasPricing }.

(** The gas price, which is stored as JSON, is a value; [null] is [None]. *)
Record DBPubTxnSubmission : Type := MkSubmission {
  sb_from : string; sb_PublicTxnID : N; sb_Created : Z; sb_TransactionHash : string; sb_GasPricing : option PublicTxGasPricing;
  sb_PrivateTXID : uuid; sb_PrivateTXOriginator : string; sb_ContractAddress : string; sb_TransactionType : option string;
  sb_Binding : option SubmittedPublicTx }.

Record DBPublicTxn : Type := MkPublicTxn {
  px_PublicTxnID : N; px_From : string; px_Nonce : option Z; px_Created : Z; px_To : option string; px_Gas : Z;
  px_FixedGasPricing : option PublicTxGasPricing; px_Value : option Z; px_Data : string; px_Suspended : bool; px_Dispatcher : string; px_Completed : bool;
  px_Submissions : list DBPubTxnSubmission; px_Binding : option DBPublicTxnBinding }.

#[export] Instance DBPubTxnSubmission_rebuild : Rebuild DBPubTxnSubmission := fun s =>
  MkSubmission (sb_from s) (sb_PublicTxnID s) (sb_Created s) (sb_TransactionHash s) (sb_GasPricing s) (sb_PrivateTXID s) (sb_PrivateTXOriginator s)
    (sb_ContractAddress s) (sb_TransactionType s) (sb_Binding s).
#[export] Instance DBPublicTxn_rebuild : Rebuild DBPublicTxn := fun p =>
  MkPublicTxn (px_PublicTxnID p) (px_From p) (px_Nonce p) (px_Created p) (px_To p) (px_Gas p) (px_FixedGasPricing p) (px_Value p) (px_Data p) (px_Suspended p)
    (px_Dispatcher p) (px_Completed p) (px_Submissions p) (px_Binding p).

Definition recoverGasPriceOptions (gpoJSON : option PublicTxGasPricing) : PublicTxGasPricing := default noGasPricing gpoJSON.

Record managedTx : Type := MkManagedTx {
  mt_ptx : DBPublicTxn; mt_InFlightStatus : InFlightStatus; mt_CurrentGasPrice : PublicTxGasPricing; mt_LastSubmittedGasPrice : PublicTxGasPricing;
  mt_Underpriced : bool; mt_TransactionHash : option string; mt_FirstSubmit : option Z; mt_LastSubmit : option Z }.
#[export] Instance managedTx_rebuild : Rebuild managedTx := fun m =>
  MkManagedTx (mt_ptx m) (mt_InFlightStatus m) (mt_CurrentGasPrice m) (mt_LastSubmittedGasPrice m) (mt_Underpriced m) (mt_TransactionHash m) (mt_FirstSubmit m) (mt_LastSubmit m).

Record BaseTXUpdates : Type := MkTXUpdates {
  nv_InFlightStatus : option InFlightStatus; nv_GasPricing : option PublicTxGasPricing; nv_Underpriced : option bool; nv_TransactionHash : option string;
  nv_FirstSubmit : option Z; nv_LastSubmit : option Z; nv_ErrorMessage : option error; nv_NewSubmission : option DBPubTxnSubmission;
  rv_GasPricing : bool; rv_TransactionHash : bool; rv_Underpriced : bool }.
#[export] Instance BaseTXUpdates_rebuild : Rebuild BaseTXUpdates := fun u =>
  MkTXUpdates (nv_InFlightStatus u) (nv_GasPricing u) (nv_Underpriced u) (nv_TransactionHash u) (nv_FirstSubmit u) (nv_LastSubmit u) (nv_ErrorMessage u)
    (nv_NewSubmission u) (rv_GasPricing u) (rv_TransactionHash u) (rv_Underpriced u).
Definition noUpdates : BaseTXUpdates := MkTXUpdates None None None None None None None None false false false.

Record PersistenceOutput : Type := MkPersistenceOutput { po_PersistenceError : option error; po_Time : Z }.
Record SubmitOutputs : Type := MkSubmitOutputs {
  su_TxHash : option string; su_SubmissionTime : option Z; su_SubmissionOutcome : SubmissionOutcome; su_ErrorReason : ErrorReason; su_Err : option error }.
Record SignOutputs : Type := MkSignOutputs { sg_SignedMessage : option string; sg_TxHash : option string; sg_Err : option error }.
Record GasPriceOutput : Type := MkGasPriceOutput { gp_GasPriceObject : option PublicTxGasPricing; gp_Err : option error }.

Record StageOutput : Type := MkStageOutput {
  so_Stage : option InFlightTxStage; so_PersistenceOutput : option PersistenceOutput; so_SubmitOutput : option SubmitOutputs;
  so_SignOutput : option SignOutputs; so_GasPriceOutput : option GasPriceOutput }.
#[export] Instance StageOutput_rebuild : Rebuild StageOutput := fun s =>
  MkStageOutput (so_Stage s) (so_PersistenceOutput s) (so_SubmitOutput s) (so_SignOutput s) (so_GasPriceOutput s).
Definition emptyOutput : StageOutput := MkStageOutput None None None None None.

(** [RunningStageContextPersistenceOutput]; a status update is its action and whether it reports an error. *)
Record ToBePersisted : Type := MkToBePersisted { tp_SubStatus : BaseTxSubStatus; tp_TxUpdates : option BaseTXUpdates; tp_StatusUpdates : list (BaseTxAction * bool) }.
#[export] Instance ToBePersisted_rebuild : Rebuild ToBePersisted := fun t => MkToBePersisted (tp_SubStatus t) (tp_TxUpdates t) (tp_StatusUpdates t).

Record RunningStageContext : Type := MkStageContext {
  rc_Stage : InFlightTxStage; rc_SubStatus : BaseTxSubStatus; rc_StageStartTime : Z; rc_StageErrored : bool; rc_StageOutput : StageOutput;
  rc_StageOutputsToBePersisted : option ToBePersisted }.
#[export] Instance RunningStageContext_rebuild : Rebuild RunningStageContext := fun r =>
  MkStageContext (rc_Stage r) (rc_SubStatus r) (rc_StageStartTime r) (rc_StageErrored r) (rc_StageOutput r) (rc_StageOutputsToBePersisted r).

(** [inFlightTransactionStateGeneration]; the transient outputs are the signed message and its hash. *)
Record Generation : Type := MkGeneration {
  gn_current : bool; gn_contexts : list RunningStageContext; gn_runningStageContext : option nat; gn_stage : option InFlightTxStage;
  gn_txLevelStageStartTime : Z; gn_stageTriggerError : option error; gn_bufferedStageOutputs : list StageOutput;
  gn_TransientPreviousStageOutputs : option (option string * option string); gn_cancel : bool }.
#[export] Instance Generation_rebuild : Rebuild Generation := fun g =>
  MkGeneration (gn_current g) (gn_contexts g) (gn_runningStageContext g) (gn_stage g) (gn_txLevelStageStartTime g) (gn_stageTriggerError g)
    (gn_bufferedStageOutputs g) (gn_TransientPreviousStageOutputs g) (gn_cancel g).

Record OrchestratorContext : Type := MkOrchestratorContext { ox_AvailableToSpend : option Z; ox_PreviousNonceCostUnknown : bool }.

(** What is signed: [ethsigner.Transaction]. *)
Record EthTX : Type := MkEthTX {
  ex_From : string; ex_Nonce : option Z; ex_To : option string; ex_Data : string; ex_Gas : Z; ex_Value : option Z; ex_GasPricing : PublicTxGasPricing }.

(** What the sequencer is told of a submission: [PublicTxWithBinding]. *)
Record PublicTxWithBinding : Type := MkPublicTxWithBinding {
  pb_Transaction : uuid; pb_TransactionType : option string; pb_TransactionSender : string; pb_TransactionContractAddress : string; pb_TransactionHash : string;
  pb_From : string; pb_To : option string; pb_Data : string; pb_Nonce : Z; pb_Created : Z; pb_Gas : Z; pb_Value : option Z; pb_GasPricing : PublicTxGasPricing;
  pb_Submission : Z * string * PublicTxGasPricing }.

(** The variables of [submitTX] that its attempts share. *)
Record SubmitAttempts : Type := MkSubmitAttempts {
  sa_attempt : nat; sa_submissionTime : Z; sa_txHash : option string; sa_submissionErrorReason : ErrorReason; sa_submissionOutcome : SubmissionOutcome;
  sa_submissionError : option error }.
#[export] Instance SubmitAttempts_rebuild : Rebuild SubmitAttempts := fun a =>
  MkSubmitAttempts (sa_attempt a) (sa_submissionTime a) (sa_txHash a) (sa_submissionErrorReason a) (sa_submissionOutcome a) (sa_submissionError a).

(** The goroutines of [executeAsync], with what they were started with.  The price that was last
    submitted is read through a pointer when the goroutine runs.  A submission that is between two
    attempts has its variables. *)
Inductive AsyncAction : Type :=
| AsyncRetrieveGasPrice (txFixedGasPrice : option PublicTxGasPricing) (underpriced : bool)
| AsyncStatusUpdate
| AsyncSignTx (from : string) (ethTX : EthTX)
| AsyncSubmitTx (signedMessage calculatedHash : option string) (attempts : option SubmitAttempts)
| AsyncPersistTxState.

Record InFlightTx : Type := MkInFlightTx {
  it_mtx : managedTx;
  it_generations : list Generation;
  it_orchestratorContext : option OrchestratorContext;
  it_newStatus : option InFlightStatus;
  it_updates : list DBPublicTxn;
  it_privateTXID : uuid;
  it_async : list (nat * AsyncAction);
  it_public_submissions : list DBPubTxnSubmission;
  it_sequencer : list PublicTxWithBinding;
  it_sent : list (option string * string);
  it_activity : list (BaseTxAction * bool);
  it_stale : bool;
  it_retrieveBalance : bool }.
#[export] Instance InFlightTx_rebuild : Rebuild InFlightTx := fun t =>
  MkInFlightTx (it_mtx t) (it_generations t) (it_orchestratorContext t) (it_newStatus t) (it_updates t) (it_privateTXID t) (it_async t)
    (it_public_submissions t) (it_sequencer t) (it_sent t) (it_activity t) (it_stale t) (it_retrieveBalance t).

Record OrchestratorConf : Type := MkOrchestratorConf {
  oc_resubmitInterval : Z; oc_stageRetryTimeout : Z; oc_persistenceRetryTimeout : Z; oc_submissionMaxAttempts : nat; oc_maxActivityRecordsPerTx : nat }.

(** What a step of a goroutine finds outside: whether its orchestrator was stopped, the price client
    with what it can retrieve, the key manager, the chain's answer to a send, and the database's to a
    flush.  Whatever it calls may panic. *)
Inductive SendResponse : Type := SendOk (txHash : option string) | SendErr (text : string) | SendPanic.
Record Outside : Type := MkOutside {
  os_stopped : bool; os_gasPriceClient : GasPriceClient; os_oracle : res PublicTxGasPricing; os_feeHistory : res FeeHistory;
  os_sign : string -> EthTX -> res string; os_send : SendResponse; os_flush : option error }.

(** The result of a pass. *)
Record TriggerNextStageOutput : Type := MkTriggerOutput { to_Cost : option Z; to_TransactionSubmitted : bool; to_Error : option error }.

Definition MsgPersistError : error := ErrExternal "MsgPersistError".
Definition MsgInvalidStageOutput (field : string) : error := ErrExternal (field ++ " should not be nil").
Definition MsgStatusUpdateForbidden : error := ErrExternal "MsgStatusUpdateForbidden".
Definition MsgInvalidStateMissingTXHash : error := ErrExternal "MsgInvalidStateMissingTXHash".
Definition MsgSubmitFailedWrongHashReturned : error := ErrExternal "MsgSubmitFailedWrongHashReturned".

(** ** Error reasons (ethclient/types.go) *)

Definition toLower (s : string) : list ascii :=
  map (fun c => let n := nat_of_ascii c in if (65 <=? n)%nat && (n <=? 90)%nat then ascii_of_nat (n + 32) else c) (String.list_ascii_of_string s).
Fixpoint isPrefix (p l : list ascii) : bool :=
  match p, l with
  | [], _ => true
  | a :: p, b :: l => Ascii.eqb a b && isPrefix p l
  | _, [] => false
  end.
Fixpoint contains (l : list ascii) (p : string) : bool :=
  isPrefix (String.list_ascii_of_string p) l || match l with [] => false | _ :: l => contains l p end.

(** Letters that are not ASCII have no part in the texts that are looked for. *)
Definition MapError (err : string) : ErrorReason :=
  let errString := toLower err in
  if contains errString "filter not found" then ErrorReasonNotFound
  else if contains errString "nonce too low" then ErrorReasonNonceTooLow
  else if contains errString "insufficient funds" then ErrorReasonInsufficientFunds
  else if contains errString "transaction underpriced" then ErrorReasonTransactionUnderpriced
  else if contains errString "known transaction" then ErrorKnownTransaction
  else if contains errString "already known" then ErrorKnownTransaction
  else if contains errString "reverted" then ErrorReasonTransactionReverted
  else if contains errString "cannot query unfinalized data" then ErrorReasonNotFound
  else if contains errString "the method net_version does not exist/is not available" then ErrorReasonNotFound
  else ErrorReasonNone.

Section Stages.
Context (conf : OrchestratorConf) (calculateTransactionHash : string -> string).

(** ** In-memory state (in_memory_tx_state.go) *)

Definition mtxOf {A} (f : managedTx -> A) : M InFlightTx A := gets (fun t => f (it_mtx t)).

Definition NewInMemoryTxState (ptx : DBPublicTxn) : managedTx :=
  let m := MkManagedTx ptx InFlightStatusPending noGasPricing noGasPricing false None None None in
  match px_Submissions ptx, last (px_Submissions ptx) with
  | lastSub :: _, Some firstSub =>
      m <| mt_TransactionHash := Some (sb_TransactionHash lastSub) |> <| mt_LastSubmit := Some (sb_Created lastSub) |>
        <| mt_FirstSubmit := Some (sb_Created firstSub) |> <| mt_LastSubmittedGasPrice := recoverGasPriceOptions (sb_GasPricing lastSub) |>
  | _, _ => m
  end.

(** [UpdateTransaction] of the in-memory state. *)
Definition updatePtx (newPtx : DBPublicTxn) (m : managedTx) : managedTx :=
  m <| mt_ptx ::= fun p => p <| px_To := px_To newPtx |> <| px_Data := px_Data newPtx |> <| px_Gas := px_Gas newPtx |>
                             <| px_FixedGasPricing := px_FixedGasPricing newPtx |> <| px_Value := px_Value newPtx |> |>.

Definition applyUpdates (u : BaseTXUpdates) (m : managedTx) : managedTx :=
  let m := match nv_FirstSubmit u with Some v => m <| mt_FirstSubmit := Some v |> | None => m end in
  let m := match nv_GasPricing u with Some v => m <| mt_CurrentGasPrice := v |> | None => m end in
  let m := match nv_Underpriced u with Some v => m <| mt_Underpriced := v |> | None => m end in
  let m := match nv_NewSubmission u with Some v => m <| mt_LastSubmittedGasPrice := recoverGasPriceOptions (sb_GasPricing v) |> | None => m end in
  let m := match nv_LastSubmit u with Some v => m <| mt_LastSubmit := Some v |> | None => m end in
  let m := match nv_InFlightStatus u with Some v => m <| mt_InFlightStatus := v |> | None => m end in
  let m := match nv_TransactionHash u with Some v => m <| mt_TransactionHash := Some v |> | None => m end in
  let m := if rv_GasPricing u then m <| mt_CurrentGasPrice := noGasPricing |> else m in
  let m := if rv_TransactionHash u then m <| mt_TransactionHash := None |> else m in
  if rv_Underpriced u then m <| mt_Underpriced := false |> else m.

Definition ApplyInMemoryUpdates (u : BaseTXUpdates) : M InFlightTx unit := modify (fun t => t <| it_mtx ::= applyUpdates u |>).

Definition BuildEthTX (m : managedTx) : EthTX :=
  let p := mt_ptx m in MkEthTX (px_From p) (px_Nonce p) (px_To p) (px_Data p) (px_Gas p) (px_Value p) (mt_CurrentGasPrice m).

Definition GetGasPriceObject_ (m : managedTx) : option PublicTxGasPricing :=
  if gasPricingSet (mt_CurrentGasPrice m) then Some (mt_CurrentGasPrice m) else None.

Definition GetTransactionFixedGasPrice (m : managedTx) : option PublicTxGasPricing :=
  let fixedPrice := recoverGasPriceOptions (px_FixedGasPricing (mt_ptx m)) in
  if gasPricingSet fixedPrice then Some fixedPrice else None.

Definition IsReadyToExit (m : managedTx) : bool := negb (bool_decide (mt_InFlightStatus m = InFlightStatusPending)).

(** ** Generations *)

Definition NewGeneration_ (now : Z) : Generation := MkGeneration true [] None None now None [] None false.

(** The index of the current generation; of an empty list Go would panic. *)
Definition GetCurrentGeneration : M InFlightTx nat := fun t =>
  match it_generations t with [] => (t, Crash Panic) | gs => (t, Ok (length gs - 1)) end.

Definition getGen (g : nat) : M InFlightTx Generation := fun t =>
  match it_generations t !! g with Some gn => (t, Ok gn) | None => (t, Crash Panic) end.
Definition updGen (g : nat) (f : Generation -> Generation) : M InFlightTx unit := modify (fun t => t <| it_generations ::= alter f g |>).

Definition getCtx (g i : nat) : M InFlightTx RunningStageContext :=
  gn ← getGen g; match gn_contexts gn !! i with Some rsc => mret rsc | None => crashM Panic end.
Definition updCtx (g i : nat) (f : RunningStageContext -> RunningStageContext) : M InFlightTx unit :=
  updGen g (fun gn => gn <| gn_contexts ::= alter f i |>).

Definition Cancel (g : nat) : M InFlightTx unit := updGen g (fun gn => gn <| gn_cancel := true |>).
Definition IsCancelled (g : nat) : M InFlightTx bool :=
  gn ← getGen g; updGen g (fun gn => gn <| gn_cancel := false |>) ≫= fun _ => mret (gn_cancel gn).

Definition NewGeneration (now : Z) : M InFlightTx unit :=
  g ← GetCurrentGeneration;
  updGen g (fun gn => gn <| gn_current := false |>) ≫= fun _ =>
  Cancel g ≫= fun _ =>
  modify (fun t => t <| it_generations ::= fun gs => gs ++ [NewGeneration_ now] |>).

Definition ClearRunningStageContext (g : nat) : M InFlightTx unit :=
  updGen g (fun gn => gn <| gn_runningStageContext := None |> <| gn_stageTriggerError := None |>).

Definition AddStageOutputs (g : nat) (output : StageOutput) : M InFlightTx unit :=
  updGen g (fun gn => gn <| gn_bufferedStageOutputs ::= fun l => l ++ [output] |>).

Definition MarkInFlightTxStale : M InFlightTx unit := modify (fun t => t <| it_stale := true |>).

(** ** Contexts *)

Definition SetNewPersistenceUpdateOutput (rsc : RunningStageContext) : RunningStageContext :=
  match rc_StageOutputsToBePersisted rsc with
  | None => rsc <| rc_StageOutputsToBePersisted := Some (MkToBePersisted (rc_SubStatus rsc) None []) |>
  | Some _ => rsc
  end.

Definition persisting (f : ToBePersisted -> ToBePersisted) (rsc : RunningStageContext) : RunningStageContext :=
  rsc <| rc_StageOutputsToBePersisted ::= fmap f |>.
Definition UpdateSubStatus (action : BaseTxAction) (failed : bool) : RunningStageContext -> RunningStageContext :=
  persisting (fun p => p <| tp_StatusUpdates ::= fun l => l ++ [(action, failed)] |>).
Definition setTxUpdates (f : BaseTXUpdates -> BaseTXUpdates) : RunningStageContext -> RunningStageContext :=
  persisting (fun p => p <| tp_TxUpdates ::= fun u => Some (f (default noUpdates u)) |>).

(** ** Triggers *)

Definition executeAsync (g : nat) (action : AsyncAction) : M InFlightTx unit := modify (fun t => t <| it_async ::= fun l => l ++ [(g, action)] |>).

(** A trigger never returns an error. *)
Definition triggered (m : M InFlightTx unit) : M InFlightTx (option error) := m ≫= fun _ => mret None.

Definition TriggerRetrieveGasPrice : M InFlightTx (option error) :=
  g ← GetCurrentGeneration; m ← gets it_mtx;
  triggered (executeAsync g (AsyncRetrieveGasPrice (GetTransactionFixedGasPrice m) (mt_Underpriced m))).
Definition TriggerStatusUpdate : M InFlightTx (option error) := g ← GetCurrentGeneration; triggered (executeAsync g AsyncStatusUpdate).
Definition TriggerSignTx : M InFlightTx (option error) :=
  g ← GetCurrentGeneration; m ← gets it_mtx; triggered (executeAsync g (AsyncSignTx (px_From (mt_ptx m)) (BuildEthTX m))).
Definition TriggerSubmitTx (signedMessage calculatedHash : option string) : M InFlightTx (option error) :=
  g ← GetCurrentGeneration; triggered (executeAsync g (AsyncSubmitTx signedMessage calculatedHash None)).
Definition TriggerPersistTxState : M InFlightTx unit := g ← GetCurrentGeneration; executeAsync g AsyncPersistTxState.

Definition StartNewStageContext (g : nat) (stage : InFlightTxStage) (substatus : BaseTxSubStatus) (now : Z) : M InFlightTx unit :=
  updGen g (fun gn =>
    let gn := if bool_decide (gn_stage gn = Some stage) then gn else gn <| gn_stage := Some stage |> <| gn_txLevelStageStartTime := now |> in
    gn <| gn_stageTriggerError := None |> <| gn_contexts ::= fun l => l ++ [MkStageContext stage substatus now false emptyOutput None] |>
       <| gn_runningStageContext := Some (length (gn_contexts gn)) |>) ≫= fun _ =>
  e ← (match stage with
       | InFlightTxStageRetrieveGasPrice => TriggerRetrieveGasPrice
       | InFlightTxStageSigning => TriggerSignTx
       | InFlightTxStageSubmitting =>
           gn ← getGen g;
           let outputs := default (None, None) (gn_TransientPreviousStageOutputs gn) in TriggerSubmitTx outputs.1 outputs.2
       | InFlightTxStageStatusUpdate => TriggerStatusUpdate
       | _ => mret None
       end : M InFlightTx (option error));
  updGen g (fun gn => gn <| gn_stageTriggerError := e |>).

Definition TriggerNewStageRun (stage : InFlightTxStage) (substatus : BaseTxSubStatus) (now : Z) : M InFlightTx unit :=
  g ← GetCurrentGeneration; StartNewStageContext g stage substatus now.

(** ** Outputs of stages *)

Definition isSome {A} (o : option A) : bool := match o with Some _ => true | None => false end.
Definition derefM {A} (o : option A) : M InFlightTx A := match o with Some a => mret a | None => crashM Panic end.

Definition processRetrieveGasPriceStageOutput (g i : nat) (stageOutput : StageOutput) : M InFlightTx (option error) :=
  match so_PersistenceOutput stageOutput with
  | Some persistence =>
      rsc ← getCtx g i;
      gasPrice ← derefM (so_GasPriceOutput (rc_StageOutput rsc));
      when (isSome (gp_Err gasPrice)) (updCtx g i (fun r => r <| rc_StageErrored := true |>)) ≫= fun _ =>
      rsc ← getCtx g i;
      when (negb (isSome (po_PersistenceError persistence)) && negb (rc_StageErrored rsc)) (ClearRunningStageContext g) ≫= fun _ =>
      mret None
  | None =>
      match so_GasPriceOutput stageOutput with
      | None => ClearRunningStageContext g ≫= fun _ => mret (Some (MsgInvalidStageOutput "gasPriceOutput"))
      | Some gasPrice =>
          updCtx g i (fun r => SetNewPersistenceUpdateOutput (r <| rc_StageOutput ::= fun s => s <| so_GasPriceOutput := Some gasPrice |> |>)) ≫= fun _ =>
          (match gp_Err gasPrice with
           | Some _ => updCtx g i (UpdateSubStatus BaseTxActionRetrieveGasPrice true)
           | None =>
               updCtx g i (fun r => UpdateSubStatus BaseTxActionRetrieveGasPrice false
                 (setTxUpdates (fun _ => noUpdates <| nv_GasPricing := gp_GasPriceObject gasPrice |> <| rv_Underpriced := true |> <| rv_TransactionHash := true |>) r))
           end) ≫= fun _ =>
          TriggerPersistTxState ≫= fun _ => mret None
      end
  end.

Definition newSubmission (t : InFlightTx) (txHash : string) (now : Z) : DBPubTxnSubmission :=
  let m := it_mtx t in
  let binding := px_Binding (mt_ptx m) in
  MkSubmission (px_From (mt_ptx m)) (px_PublicTxnID (mt_ptx m)) now txHash (GetGasPriceObject_ m) (it_privateTXID t)
    (from_option bd_Sender "" binding) (from_option bd_ContractAddress "" binding) (bd_TransactionType <$> binding) None.

Definition processSigningStageOutput (g i : nat) (rsIn : StageOutput) (now : Z) : M InFlightTx (option error) :=
  match so_PersistenceOutput rsIn with
  | Some persistence =>
      rsc ← getCtx g i;
      sign ← derefM (so_SignOutput (rc_StageOutput rsc));
      when (isSome (sg_Err sign)) (updCtx g i (fun r => r <| rc_StageErrored := true |>)) ≫= fun _ =>
      rsc ← getCtx g i;
      when (negb (isSome (po_PersistenceError persistence)) && negb (rc_StageErrored rsc))
        (updGen g (fun gn => gn <| gn_TransientPreviousStageOutputs := Some (sg_SignedMessage sign, sg_TxHash sign) |>) ≫= fun _ =>
         TriggerNewStageRun InFlightTxStageSubmitting BaseTxSubStatusReceived now) ≫= fun _ =>
      mret None
  | None =>
      match so_SignOutput rsIn with
      | None => ClearRunningStageContext g ≫= fun _ => mret (Some (MsgInvalidStageOutput "signOutput"))
      | Some sign =>
          updCtx g i (fun r => SetNewPersistenceUpdateOutput (r <| rc_StageOutput ::= fun s => s <| so_SignOutput := Some sign |> |>)) ≫= fun _ =>
          (match sg_Err sign with
           | Some _ => updCtx g i (UpdateSubStatus BaseTxActionSign true)
           | None => when (isSome (sg_SignedMessage sign)) (updCtx g i (UpdateSubStatus BaseTxActionSign false))
           end) ≫= fun _ =>
          (match sg_TxHash sign with
           | Some txHash =>
               t ← gets (fun t => t);
               updCtx g i (setTxUpdates (fun u => u <| nv_NewSubmission := Some (newSubmission t txHash now) |> <| nv_TransactionHash := Some txHash |>))
           | None => mret tt
           end) ≫= fun _ =>
          TriggerPersistTxState ≫= fun _ => mret None
      end
  end.

(** The updates that the result of a submission leads to. *)
Definition submitUpdates (m : managedTx) (submit : SubmitOutputs) (now : Z) (u : BaseTXUpdates) : BaseTXUpdates :=
  match su_Err submit with
  | Some e =>
      let u := u <| nv_ErrorMessage := Some e |> <| nv_LastSubmit := Some now |> in
      if bool_decide (su_ErrorReason submit = ErrorReasonTransactionUnderpriced) && negb (isSome (GetTransactionFixedGasPrice m))
      then u <| nv_Underpriced := Some true |> <| rv_GasPricing := true |> else u
  | None =>
      let u := u <| nv_LastSubmit := su_SubmissionTime submit |> in
      let u := if isSome (mt_FirstSubmit m) then u else u <| nv_FirstSubmit := su_SubmissionTime submit |> in
      if isSome (mt_TransactionHash m) then u else u <| nv_TransactionHash := su_TxHash submit |>
  end.

Definition submitReported (submit : SubmitOutputs) : bool :=
  match su_Err submit, su_SubmissionOutcome submit with
  | Some _, _ | None, SubmissionOutcomeSubmittedNew | None, SubmissionOutcomeNonceTooLow => true
  | _, _ => false
  end.

(** An outcome that says the nonce is too low has its hash printed, which Go dereferences. *)
Definition processSubmittingStageOutput (g i : nat) (stageOutput : StageOutput) (now : Z) : M InFlightTx (option error) :=
  match so_PersistenceOutput stageOutput with
  | Some persistence =>
      rsc ← getCtx g i;
      submit ← derefM (so_SubmitOutput (rc_StageOutput rsc));
      (if isSome (su_Err submit) then
         when (bool_decide (su_ErrorReason submit = ErrorReasonInsufficientFunds)) (modify (fun t => t <| it_retrieveBalance := true |>)) ≫= fun _ =>
         updCtx g i (fun r => r <| rc_StageErrored := true |>)
       else when (negb (isSome (po_PersistenceError persistence))) (ClearRunningStageContext g)) ≫= fun _ =>
      mret None
  | None =>
      match so_SubmitOutput stageOutput with
      | None => ClearRunningStageContext g ≫= fun _ => mret (Some (MsgInvalidStageOutput "submitOutput"))
      | Some submit =>
          updCtx g i (fun r => SetNewPersistenceUpdateOutput (r <| rc_StageOutput ::= fun s => s <| so_SubmitOutput := Some submit |> |>)) ≫= fun _ =>
          m ← gets it_mtx;
          (match su_Err submit, su_SubmissionOutcome submit, su_TxHash submit with
           | None, SubmissionOutcomeNonceTooLow, None => crashM Panic
           | _, _, _ => mret tt
           end) ≫= fun _ =>
          updCtx g i (fun r => setTxUpdates (submitUpdates m submit now)
            (if submitReported submit then UpdateSubStatus BaseTxActionSubmitTransaction (isSome (su_Err submit)) r else r)) ≫= fun _ =>
          TriggerPersistTxState ≫= fun _ => mret None
      end
  end.

Definition processStatusUpdateStageOutput (g : nat) (stageOutput : StageOutput) : M InFlightTx (option error) :=
  match so_PersistenceOutput stageOutput with
  | Some _ =>
      newStatus ← gets it_newStatus; wanted ← derefM newStatus;
      m ← gets it_mtx;
      when (bool_decide (wanted = mt_InFlightStatus m)) (modify (fun t => t <| it_newStatus := None |>)) ≫= fun _ =>
      ClearRunningStageContext g ≫= fun _ =>
      MarkInFlightTxStale ≫= fun _ => mret None
  | None => ClearRunningStageContext g ≫= fun _ => mret (Some (MsgInvalidStageOutput "persistenceOutput"))
  end.

(** One buffered output: what is left of it, and the error if it was processed. *)
Definition processOutput (g i : nat) (stage : InFlightTxStage) (output : StageOutput) (now : Z) : M InFlightTx (list StageOutput * option (option error)) :=
  if negb (bool_decide (so_Stage output = Some stage)) then mret ([output], None)
  else
    match so_PersistenceOutput output with
    | Some (MkPersistenceOutput (Some _) time) =>
        if (oc_persistenceRetryTimeout conf <? now - time)%Z then TriggerPersistTxState ≫= fun _ => mret ([], None) else mret ([output], None)
    | _ =>
        match stage with
        | InFlightTxStageRetrieveGasPrice => e ← processRetrieveGasPriceStageOutput g i output; mret ([], Some e)
        | InFlightTxStageSigning => e ← processSigningStageOutput g i output now; mret ([], Some e)
        | InFlightTxStageSubmitting => e ← processSubmittingStageOutput g i output now; mret ([], Some e)
        | InFlightTxStageStatusUpdate => e ← processStatusUpdateStageOutput g output; mret ([], Some e)
        | _ => mret ([], None)
        end
    end.

Fixpoint processOutputs (g i : nat) (stage : InFlightTxStage) (outputs : list StageOutput) (now : Z) (err : option error) : M InFlightTx (list StageOutput * option error) :=
  match outputs with
  | [] => mret ([], err)
  | output :: rest =>
      r ← processOutput g i stage output now;
      s ← processOutputs g i stage rest now (default err r.2);
      mret (r.1 ++ s.1, s.2)
  end.

Definition processCurrentGenerationStageOutputs (now : Z) : M InFlightTx (option error) :=
  g ← GetCurrentGeneration; gn ← getGen g;
  match gn_runningStageContext gn with
  | None => mret None
  | Some i =>
      if isSome (gn_stageTriggerError gn) then ClearRunningStageContext g ≫= fun _ => mret None
      else
        rsc ← getCtx g i;
        r ← processOutputs g i (rc_Stage rsc) (gn_bufferedStageOutputs gn) now None;
        updGen g (fun gn => gn <| gn_bufferedStageOutputs := r.1 |>) ≫= fun _ =>
        rsc ← getCtx g i;
        when (rc_StageErrored rsc && (oc_stageRetryTimeout conf <? now - rc_StageStartTime rsc)%Z) (ClearRunningStageContext g) ≫= fun _ =>
        mret r.2
  end.

(** ** The pass *)

Definition CanSubmit (cost : option Z) (ctx : OrchestratorContext) : bool :=
  match ox_AvailableToSpend ctx, cost with
  | None, _ => true
  | Some available, Some cost => negb (ox_PreviousNonceCostUnknown ctx) && (cost <=? available)%Z
  | Some _, None => false
  end.

Definition startNewStage (cost : option Z) (now : Z) : M InFlightTx unit :=
  t ← gets (fun t => t);
  let m := it_mtx t in
  let statusUpdate :=
    match it_newStatus t with
    | Some newStatus => negb (IsReadyToExit m) && negb (bool_decide (newStatus = mt_InFlightStatus m))
    | None => false
    end in
  if statusUpdate then TriggerNewStageRun InFlightTxStageStatusUpdate BaseTxSubStatusReceived now
  else if IsReadyToExit m then mret tt
  else if negb (isSome (GetGasPriceObject_ m)) then TriggerNewStageRun InFlightTxStageRetrieveGasPrice BaseTxSubStatusReceived now
  else if negb (isSome (mt_TransactionHash m)) then
    ctx ← derefM (it_orchestratorContext t);
    when (CanSubmit cost ctx) (TriggerNewStageRun InFlightTxStageSigning BaseTxSubStatusReceived now)
  else
    match mt_LastSubmit m with
    | Some lastSubmitTime =>
        when (oc_resubmitInterval conf <? now - lastSubmitTime)%Z (TriggerNewStageRun InFlightTxStageRetrieveGasPrice BaseTxSubStatusStale now)
    | None => mret tt
    end.

Definition costOf (m : managedTx) : option Z :=
  match GetGasPriceObject_ m with
  | Some gpo => if IsReadyToExit m then Some 0%Z else calculateGasRequiredForTransaction gpo (px_Gas (mt_ptx m))
  | None => None
  end.

Definition applyQueuedUpdates (now : Z) : M InFlightTx unit :=
  updates ← gets it_updates;
  modify (fun t => t <| it_updates := [] |>) ≫= fun _ =>
  match updates with
  | [] => mret tt
  | _ =>
      modify (fun t => t <| it_mtx ::= fun m => foldl (fun m newPtx => updatePtx newPtx m) m updates |>) ≫= fun _ =>
      ApplyInMemoryUpdates (noUpdates <| rv_GasPricing := true |> <| rv_TransactionHash := true |>) ≫= fun _ =>
      NewGeneration now
  end.

Definition ProduceLatestInFlightStageContext (tIn : OrchestratorContext) (now : Z) : M InFlightTx TriggerNextStageOutput :=
  applyQueuedUpdates now ≫= fun _ =>
  modify (fun t => t <| it_orchestratorContext := Some tIn |>) ≫= fun _ =>
  err ← processCurrentGenerationStageOutputs now;
  cost ← mtxOf costOf;
  g ← GetCurrentGeneration; gn ← getGen g;
  when (negb (isSome (gn_runningStageContext gn))) (startNewStage cost now) ≫= fun _ =>
  submitted ← mtxOf (fun m => isSome (mt_TransactionHash m));
  mret (MkTriggerOutput cost submitted err).

Definition NotifyStatusUpdate (status : InFlightStatus) : M InFlightTx bool :=
  m ← gets it_mtx;
  if IsReadyToExit m && negb (bool_decide (mt_InFlightStatus m = InFlightStatusSuspending) && bool_decide (status = InFlightStatusPending))
  then throw MsgStatusUpdateForbidden
  else modify (fun t => t <| it_newStatus := Some status |>) ≫= fun _ => mret true.

Definition UpdateTransaction (newPtx : DBPublicTxn) : M InFlightTx unit := modify (fun t => t <| it_updates ::= fun l => l ++ [newPtx] |>).

(** The nonce is printed at once; the submissions that are in the database come with the row. *)
Definition NewInFlightTransactionStageController (ptx : DBPublicTxn) (privateTXID : uuid) (now : Z) : res InFlightTx :=
  match px_Nonce ptx with
  | None => Crash Panic
  | Some _ => Ok (MkInFlightTx (NewInMemoryTxState ptx) [NewGeneration_ now] None None [] privateTXID [] (px_Submissions ptx) [] [] [] false false)
  end.

(** ** Persisting *)

Definition addActivityRecord (record : BaseTxAction * bool) (records : list (BaseTxAction * bool)) : list (BaseTxAction * bool) :=
  match oc_maxActivityRecordsPerTx conf with 0 => records | S n => record :: take n records end.

(** The submission's binding, which is built once; a transaction without a price or a nonce is a nil dereference. *)
Definition buildBinding (m : managedTx) (s : DBPubTxnSubmission) : res DBPubTxnSubmission :=
  match sb_Binding s with
  | Some _ => Ok s
  | None =>
      match px_Nonce (mt_ptx m), GetGasPriceObject_ m with
      | Some nonce, Some gpo =>
          let p := mt_ptx m in
          Ok (s <| sb_Binding := Some (MkSubmittedPublicTx (mt_TransactionHash m) (px_From p) (px_To p) (px_Data p) nonce (px_Created p) (px_Gas p) (px_Value p)
                gpo (default noGasPricing (GetTransactionFixedGasPrice m))) |>)
      | _, _ => Crash Panic
      end
  end.

Definition publicTxWithBinding (s : DBPubTxnSubmission) (b : SubmittedPublicTx) : PublicTxWithBinding :=
  MkPublicTxWithBinding (sb_PrivateTXID s) (sb_TransactionType s) (sb_PrivateTXOriginator s) (sb_ContractAddress s) (sb_TransactionHash s)
    (sb_from s) (sx_To b) (sx_Data b) (sx_Nonce b) (sx_Created b) (sx_Gas b) (sx_Value b) (sx_GasPricing b)
    (sb_Created s, sb_TransactionHash s, recoverGasPriceOptions (sb_GasPricing s)).

(** The part of a batch that is this transaction's: the row, unless there is one with the hash, and the
    sequencer's message.  What fails leaves neither. *)
Definition runBatch (s : DBPubTxnSubmission) (flushed : option error) : M InFlightTx (option error) :=
  match flushed with
  | Some e => mret (Some e)
  | None =>
      modify (fun t =>
        (if existsb (fun r => String.eqb (sb_TransactionHash r) (sb_TransactionHash s)) (it_public_submissions t) then t
         else t <| it_public_submissions ::= fun l => l ++ [s] |>)
        <| it_sequencer ::= fun l =>
             match sb_Binding s with
             | Some b => if String.eqb (sb_PrivateTXOriginator s) "" then l else l ++ [publicTxWithBinding s b]
             | None => l
             end |>) ≫= fun _ => mret None
  end.

(** [PersistTxState], with the stage it returns. *)
Definition PersistTxState (g : nat) (os : Outside) : M InFlightTx (option InFlightTxStage * option error) :=
  gn ← getGen g;
  match gn_runningStageContext gn with
  | None => mret (gn_stage gn, Some MsgPersistError)
  | Some i =>
      rsc ← getCtx g i;
      match rc_StageOutputsToBePersisted rsc with
      | None => mret (gn_stage gn, Some MsgPersistError)
      | Some p =>
          modify (fun t => t <| it_activity ::= fun l => foldl (fun l r => addActivityRecord r l) l (tp_StatusUpdates p) |>) ≫= fun _ =>
          match tp_TxUpdates p with
          | None => mret (Some (rc_Stage rsc), None)
          | Some u =>
              failed ← (match nv_NewSubmission u with
                        | None => mret None
                        | Some s =>
                            s ← liftR (fun t => buildBinding (it_mtx t) s);
                            updCtx g i (setTxUpdates (fun u => u <| nv_NewSubmission := Some s |>)) ≫= fun _ =>
                            runBatch s (os_flush os)
                        end : M InFlightTx (option error));
              match failed with
              | Some e => mret (Some (rc_Stage rsc), Some e)
              | None =>
                  ApplyInMemoryUpdates u ≫= fun _ =>
                  mret (Some (rc_Stage rsc), None)
              end
          end
      end
  end.

Definition AddPersistenceOutput (g : nat) (stage : option InFlightTxStage) (time : Z) (err : option error) : M InFlightTx unit :=
  AddStageOutputs g (emptyOutput <| so_Stage := stage |> <| so_PersistenceOutput := Some (MkPersistenceOutput err time) |>).

(** ** Signing and submitting *)

Definition signTx (os : Outside) (from : string) (ethTx : EthTX) : res (option string * option string * option error) :=
  match os_sign os from ethTx with
  | Ok signedMessage => Ok (Some signedMessage, Some (calculateTransactionHash signedMessage), None)
  | Err e => Ok (None, None, Some e)
  | Crash c => Crash c
  end.

(** One attempt of [submitTX]: whether to try again and the error that goes with it; no result for a
    panic of the client. *)
Definition attemptSubmit (g : nat) (signedMessage : option string) (calculatedTxHash : string) (response : SendResponse) (a : SubmitAttempts)
    : M InFlightTx (SubmitAttempts * (bool * option error)) :=
  cancelled ← IsCancelled g;
  if (cancelled : bool) then mret (a, (false, None))
  else
    modify (fun t => t <| it_sent ::= fun l => l ++ [(signedMessage, calculatedTxHash)] |>) ≫= fun _ =>
    match response with
    | SendPanic => crashM Panic
    | SendOk (Some txHash) =>
        if String.eqb txHash calculatedTxHash
        then mret (a <| sa_txHash := Some txHash |> <| sa_submissionError := None |> <| sa_submissionOutcome := SubmissionOutcomeSubmittedNew |>, (false, None))
        else
          let e := MsgSubmitFailedWrongHashReturned in
          mret (a <| sa_txHash := None |> <| sa_submissionError := Some e |> <| sa_submissionOutcome := SubmissionOutcomeFailedRequiresRetry |>, (true, Some e))
    | SendOk None =>
        mret (a <| sa_txHash := Some calculatedTxHash |> <| sa_submissionError := None |> <| sa_submissionOutcome := SubmissionOutcomeSubmittedNew |>, (false, None))
    | SendErr text =>
        let reason := MapError text in
        let e := ErrExternal text in
        let a := a <| sa_txHash := Some calculatedTxHash |> in
        match reason with
        | ErrorReasonTransactionUnderpriced | ErrorReasonTransactionReverted =>
            mret (a <| sa_submissionErrorReason := reason |> <| sa_submissionError := Some e |> <| sa_submissionOutcome := SubmissionOutcomeFailedRequiresRetry |>, (false, None))
        | ErrorKnownTransaction =>
            mret (a <| sa_submissionErrorReason := ErrorReasonNone |> <| sa_submissionError := None |> <| sa_submissionOutcome := SubmissionOutcomeAlreadyKnown |>, (false, None))
        | ErrorReasonNonceTooLow =>
            mret (a <| sa_submissionErrorReason := ErrorReasonNone |> <| sa_submissionError := None |> <| sa_submissionOutcome := SubmissionOutcomeNonceTooLow |>, (false, None))
        | _ =>
            mret (a <| sa_submissionErrorReason := reason |> <| sa_submissionError := Some e |> <| sa_submissionOutcome := SubmissionOutcomeFailedRequiresRetry |>, (true, Some e))
        end
    end.

(** The next attempt of [submitTX] and of the retry it runs in: its outputs if it was the last one,
    else the variables for the next.  Being stopped ends the wait before an attempt. *)
Definition submitTX (g : nat) (signedMessage calculatedTxHash : option string) (attempts : option SubmitAttempts) (os : Outside) (now : Z)
    : M InFlightTx (SubmitOutputs + SubmitAttempts) :=
  match calculatedTxHash with
  | None => mret (inl (MkSubmitOutputs None None SubmissionOutcomeFailedRequiresRetry ErrorReasonInvalidInputs (Some MsgInvalidStateMissingTXHash)))
  | Some hash =>
      let failed a e := inl (MkSubmitOutputs None (Some (sa_submissionTime a)) SubmissionOutcomeFailedRequiresRetry (sa_submissionErrorReason a) (Some e)) in
      let a := default (MkSubmitAttempts 0 now None ErrorReasonNone SubmissionOutcomeNone None) attempts in
      if isSome attempts && os_stopped os then mret (failed a MsgContextCanceled)
      else
        r ← attemptSubmit g signedMessage hash (os_send os) (a <| sa_attempt ::= S |>);
        let '(a, (retry, err)) := r in
        match err with
        | None => mret (inl (MkSubmitOutputs (sa_txHash a) (Some (sa_submissionTime a)) (sa_submissionOutcome a) (sa_submissionErrorReason a) (sa_submissionError a)))
        | Some e =>
            if negb retry || (0 <? oc_submissionMaxAttempts conf)%nat && (oc_submissionMaxAttempts conf <=? sa_attempt a)%nat
            then mret (failed a e)
            else mret (inr a)
        end
  end.

(** ** Goroutines *)

(** The body of a goroutine; a submission that goes on leaves what it goes on with. *)
Definition asyncBody (g : nat) (action : AsyncAction) (os : Outside) (now : Z) : M InFlightTx (option AsyncAction) :=
  match action with
  | AsyncRetrieveGasPrice txFixedGasPrice underpriced =>
      m ← gets it_mtx;
      match (GetGasPriceObject (os_gasPriceClient os) (os_oracle os) (os_feeHistory os) txFixedGasPrice (Some (mt_LastSubmittedGasPrice m)) underpriced).2 with
      | Ok gpo => AddStageOutputs g (emptyOutput <| so_Stage := Some InFlightTxStageRetrieveGasPrice |> <| so_GasPriceOutput := Some (MkGasPriceOutput (Some gpo) None) |>)
      | Err e => AddStageOutputs g (emptyOutput <| so_Stage := Some InFlightTxStageRetrieveGasPrice |> <| so_GasPriceOutput := Some (MkGasPriceOutput None (Some e)) |>)
      | Crash c => crashM c
      end ≫= fun _ => mret None
  | AsyncStatusUpdate =>
      gn ← getGen g;
      i ← derefM (gn_runningStageContext gn);
      updCtx g i SetNewPersistenceUpdateOutput ≫= fun _ =>
      newStatus ← gets it_newStatus; status ← derefM newStatus;
      updCtx g i (fun r => setTxUpdates (fun _ => noUpdates <| nv_InFlightStatus := Some status |>) (UpdateSubStatus BaseTxActionStateTransition false r)) ≫= fun _ =>
      r ← PersistTxState g os;
      AddPersistenceOutput g r.1 now r.2 ≫= fun _ => mret None
  | AsyncSignTx from ethTX =>
      r ← liftR (fun _ => signTx os from ethTX);
      let '(signedMessage, txHash, err) := r in
      AddStageOutputs g (emptyOutput <| so_Stage := Some InFlightTxStageSigning |> <| so_SignOutput := Some (MkSignOutputs signedMessage txHash err) |>) ≫= fun _ =>
      mret None
  | AsyncSubmitTx signedMessage calculatedHash attempts =>
      r ← submitTX g signedMessage calculatedHash attempts os now;
      match r with
      | inl outputs =>
          AddStageOutputs g (emptyOutput <| so_Stage := Some InFlightTxStageSubmitting |> <| so_SubmitOutput := Some outputs |>) ≫= fun _ => mret None
      | inr a => mret (Some (AsyncSubmitTx signedMessage calculatedHash (Some a)))
      end
  | AsyncPersistTxState =>
      r ← PersistTxState g os;
      AddPersistenceOutput g r.1 now r.2 ≫= fun _ => mret None
  end.

Definition startedAlready (action : AsyncAction) : bool := match action with AsyncSubmitTx _ _ (Some _) => true | _ => false end.

(** The end of a step: a goroutine that goes on is on the list again, a panic becomes an output. *)
Definition recovered (g : nat) (stage : option InFlightTxStage) (body : M InFlightTx (option AsyncAction)) : M InFlightTx unit := fun t =>
  match body t with
  | (t', Ok (Some next)) => executeAsync g next t'
  | (t', Ok None) => MarkInFlightTxStale t'
  | (t', _) => (AddStageOutputs g (emptyOutput <| so_Stage := stage |>) ≫= fun _ => MarkInFlightTxStale) t'
  end.

(** A step of a goroutine that is taken off the list: one that is started after the orchestrator was
    stopped does nothing. *)
Definition executeAsyncStep (g : nat) (action : AsyncAction) (os : Outside) (now : Z) : M InFlightTx unit :=
  if os_stopped os && negb (startedAlready action) then mret tt
  else gn ← getGen g; recovered g (gn_stage gn) (asyncBody g action os now).

Definition runAsync (n : nat) (os : Outside) (now : Z) (t : InFlightTx) : InFlightTx :=
  match it_async t !! n with
  | None => t
  | Some (g, action) => (executeAsyncStep g action os now (t <| it_async ::= fun l => delete n l |>)).1
  end.

(** ** Steps *)

(** What can happen to a transaction in flight: a pass of its orchestrator, a step of a goroutine, and a
    request from outside, each at any time. *)
Inductive stageStep : Type :=
| StepPass (tIn : OrchestratorContext) (now : Z)
| StepAsync (n : nat) (os : Outside) (now : Z)
| StepUpdate (newPtx : DBPublicTxn)
| StepNotify (status : InFlightStatus).

Definition step (s : stageStep) (t : InFlightTx) : InFlightTx :=
  match s with
  | StepPass tIn now => (ProduceLatestInFlightStageContext tIn now t).1
  | StepAsync n os now => runAsync n os now t
  | StepUpdate newPtx => (UpdateTransaction newPtx t).1
  | StepNotify status => (NotifyStatusUpdate status t).1
  end.

Definition steps (l : list stageStep) (t : InFlightTx) : InFlightTx := foldl (fun t s => step s t) t l.

End Stages.
