(* ===== verification/PubTxSafety.v ===== *)
(** * Public transactions: what the stages keep to

    The invariant of a transaction in flight, and what it gives: each generation has at most one
    goroutine or unread output, which fits the stage it is at; every message that goes to the chain has
    its hash in the database; and no pass of the orchestrator panics.  Then what happens to a
    transaction from its first pass to its submission, and a transaction that no pass submits.

    A pass and a step of a goroutine are followed by [hoare] triples whose assertion [St] has the
    generation at work as a value and all others as a frame.

    Source: core/go/internal/publictxmgr, as in PubTxStages. *)

From S2P Require Import Prelude PubTxGas PubTxStages.
Open Scope string_scope.
Open Scope list_scope.

Section Safety.
Context (conf : OrchestratorConf) (calculateTransactionHash : string -> string).

(** ** The invariant *)

Definition goroutines (t : InFlightTx) (g : nat) : list AsyncAction := (filter (fun p => p.1 = g) (it_async t)).*2.
Definition hashes (t : InFlightTx) : list string := sb_TransactionHash <$> it_public_submissions t.

(** The hash is the message's and in the database. *)
Definition recorded (db : list string) (message : option string) (hash : string) : Prop :=
  exists m, message = Some m /\ hash = calculateTransactionHash m /\ hash ∈ db.

Definition signedWell (sign : SignOutputs) : Prop :=
  match sg_Err sign with
  | None => exists m, sg_SignedMessage sign = Some m /\ sg_TxHash sign = Some (calculateTransactionHash m)
  | Some _ => sg_TxHash sign = None
  end.

(** An output whose hash can be printed. *)
Definition printable (submit : SubmitOutputs) : Prop := su_SubmissionOutcome submit = SubmissionOutcomeNonceTooLow -> isSome (su_TxHash submit) = true.

(** The context has the output of its stage, with what is to be persisted of it. *)
Definition acted (rsc : RunningStageContext) : Prop :=
  match rc_Stage rsc with
  | InFlightTxStageRetrieveGasPrice => isSome (so_GasPriceOutput (rc_StageOutput rsc)) = true
  | InFlightTxStageSubmitting => isSome (so_SubmitOutput (rc_StageOutput rsc)) = true
  | InFlightTxStageSigning =>
      exists sign, so_SignOutput (rc_StageOutput rsc) = Some sign /\ signedWell sign /\
        forall h, sg_TxHash sign = Some h -> exists p u s,
          rc_StageOutputsToBePersisted rsc = Some p /\ tp_TxUpdates p = Some u /\ nv_NewSubmission u = Some s /\ sb_TransactionHash s = h
  | InFlightTxStageStatusUpdate => True
  | _ => False
  end.

(** A goroutine or an output that is the next thing for a context. *)
Definition fits (db : list string) (rsc : RunningStageContext) (token : AsyncAction + StageOutput) : Prop :=
  match token with
  | inl (AsyncRetrieveGasPrice _ _) => rc_Stage rsc = InFlightTxStageRetrieveGasPrice
  | inl AsyncStatusUpdate => rc_Stage rsc = InFlightTxStageStatusUpdate
  | inl (AsyncSignTx _ _) => rc_Stage rsc = InFlightTxStageSigning
  | inl (AsyncSubmitTx message hash attempts) =>
      rc_Stage rsc = InFlightTxStageSubmitting /\ (exists h, hash = Some h /\ recorded db message h) /\
      (forall a, attempts = Some a -> sa_submissionOutcome a <> SubmissionOutcomeNonceTooLow)
  | inl AsyncPersistTxState => acted rsc
  | inr output =>
      so_Stage output = Some (rc_Stage rsc) /\
      match so_PersistenceOutput output with
      | Some persistence =>
          acted rsc /\
          (rc_Stage rsc = InFlightTxStageSigning -> po_PersistenceError persistence = None ->
           forall sign h, so_SignOutput (rc_StageOutput rsc) = Some sign -> sg_TxHash sign = Some h -> h ∈ db)
      | None => (forall sign, so_SignOutput output = Some sign -> signedWell sign) /\ (forall submit, so_SubmitOutput output = Some submit -> printable submit)
      end
  end.

(** A generation with the goroutines and outputs it has: at most one, which fits. *)
Definition genOk (db : list string) (tokens : list (AsyncAction + StageOutput)) (gn : Generation) : Prop :=
  gn_stageTriggerError gn = None /\
  (forall i, gn_runningStageContext gn = Some i -> is_Some (gn_contexts gn !! i)) /\
  match tokens with
  | [] => True
  | [token] => exists i rsc, gn_runningStageContext gn = Some i /\ gn_contexts gn !! i = Some rsc /\ gn_stage gn = Some (rc_Stage rsc) /\
      rc_StageErrored rsc = false /\ fits db rsc token
  | _ => False
  end.

Definition tokensOf (ks : list AsyncAction) (outputs : list StageOutput) : list (AsyncAction + StageOutput) := (inl <$> ks) ++ (inr <$> outputs).

(** The current generation is at a status update only while a status is wanted. *)
Definition statusOk (n : nat) (wanted : option InFlightStatus) (g : nat) (gn : Generation) : Prop :=
  S g = n -> forall i rsc, gn_runningStageContext gn = Some i -> gn_contexts gn !! i = Some rsc -> rc_Stage rsc = InFlightTxStageStatusUpdate -> wanted <> None.

(** Generation [g] is [gn] and has the goroutines [ks]; all others are as they should be. *)
Record St (g : nat) (gn : Generation) (ks : list AsyncAction) (db : list string) (wanted : option InFlightStatus) (n : nat) (t : InFlightTx) : Prop := {
  st_gen : it_generations t !! g = Some gn;
  st_len : length (it_generations t) = n;
  st_goroutines : goroutines t g = ks;
  st_db : hashes t = db;
  st_wanted : it_newStatus t = wanted;
  st_others : forall g' gn', g' <> g -> it_generations t !! g' = Some gn' ->
    genOk db (tokensOf (goroutines t g') (gn_bufferedStageOutputs gn')) gn' /\ statusOk n wanted g' gn';
  st_range : Forall (fun p => p.1 < n) (it_async t);
  st_sent : Forall (fun p => recorded db p.1 p.2) (it_sent t) }.

Record inv (t : InFlightTx) : Prop := {
  inv_some : it_generations t <> [];
  inv_gens : forall g gn, it_generations t !! g = Some gn ->
    genOk (hashes t) (tokensOf (goroutines t g) (gn_bufferedStageOutputs gn)) gn /\ statusOk (length (it_generations t)) (it_newStatus t) g gn;
  inv_range : Forall (fun p => p.1 < length (it_generations t)) (it_async t);
  inv_sent : Forall (fun p => recorded (hashes t) p.1 p.2) (it_sent t) }.

Lemma inv_St t g gn : inv t -> it_generations t !! g = Some gn -> St g gn (goroutines t g) (hashes t) (it_newStatus t) (length (it_generations t)) t.
Proof. intros [H1 H2 H3 H4] Hg. constructor; eauto. Qed.

Lemma St_inv g gn ks db wanted n t :
  St g gn ks db wanted n t -> genOk db (tokensOf ks (gn_bufferedStageOutputs gn)) gn -> statusOk n wanted g gn -> inv t.
Proof.
  intros [H1 <- <- <- <- H6 H7 H8] Hg Hs. constructor; [|..|done|done].
  - intros E. by rewrite E in H1.
  - intros g' gn' Hg'. destruct (decide (g' = g)) as [->|Hne]; [|by apply H6]. rewrite H1 in Hg'. by injection Hg' as <-.
Qed.

(** ** Triples *)

(** What the computation leaves if it returns, and what if it does not. *)
Definition triple {A} (P : InFlightTx -> Prop) (m : M InFlightTx A) (Q : A -> InFlightTx -> Prop) (E : InFlightTx -> Prop) : Prop :=
  forall t, P t -> match m t with (t', Ok a) => Q a t' | (t', _) => E t' end.

(** It returns. *)
Notation hoare P m Q := (triple P m Q (fun _ => False)).

Lemma hoare_run {A} P (m : M InFlightTx A) Q t : hoare P m Q -> P t -> exists t' a, m t = (t', Ok a) /\ Q a t'.
Proof. intros H Ht. specialize (H t Ht). destruct (m t) as [t' []]; [eauto|done|done]. Qed.

Section Triples.
Context {A B C : Type} (P : InFlightTx -> Prop) (E : InFlightTx -> Prop).

Lemma triple_bind (m : M InFlightTx A) Q (f : A -> M InFlightTx B) R : triple P m Q E -> (forall a, triple (Q a) (f a) R E) -> triple P (m ≫= f) R E.
Proof. intros Hm Hf t Ht. specialize (Hm t Ht). unfold mbind, M_bind. destruct (m t) as [t' [a|e|c]]; [by apply Hf|done|done]. Qed.
Lemma triple_ret (a : A) (Q : A -> InFlightTx -> Prop) : (forall t, P t -> Q a t) -> triple P (mret a) Q E.
Proof. intros H t Ht. by apply H. Qed.
Lemma triple_crash c (Q : A -> InFlightTx -> Prop) : (forall t, P t -> E t) -> triple P (crashM c) Q E.
Proof. intros H t Ht. by apply H. Qed.
Lemma triple_gets (f : InFlightTx -> A) (k : A -> M InFlightTx B) Q : (forall t0, P t0 -> triple (fun t => P t /\ t = t0) (k (f t0)) Q E) -> triple P (gets f ≫= k) Q E.
Proof. intros H t Ht. exact (H t Ht t (conj Ht eq_refl)). Qed.
Lemma triple_pre (P' : InFlightTx -> Prop) (m : M InFlightTx A) Q : (forall t, P t -> P' t) -> triple P' m Q E -> triple P m Q E.
Proof. intros H Hm t Ht. by apply Hm, H. Qed.
Lemma triple_post (m : M InFlightTx A) (Q Q' : A -> InFlightTx -> Prop) : triple P m Q E -> (forall a t, Q a t -> Q' a t) -> triple P m Q' E.
Proof. intros Hm H t Ht. specialize (Hm t Ht). destruct (m t) as [t' []]; auto. Qed.
Lemma triple_total (m : M InFlightTx A) Q : hoare P m Q -> triple P m Q E.
Proof. intros Hm t Ht. specialize (Hm t Ht). by destruct (m t) as [t' []]. Qed.
Lemma triple_modify (f : InFlightTx -> InFlightTx) (k : unit -> M InFlightTx B) P' Q :
  (forall t, P t -> P' (f t)) -> triple P' (k tt) Q E -> triple P (modify f ≫= k) Q E.
Proof. intros Hf Hk t Ht. exact (Hk (f t) (Hf t Ht)). Qed.
Lemma triple_assoc (m : M InFlightTx A) (f : A -> M InFlightTx B) (k : B -> M InFlightTx C) Q :
  triple P (m ≫= fun a => f a ≫= k) Q E -> triple P ((m ≫= f) ≫= k) Q E.
Proof. intros H t Ht. specialize (H t Ht). unfold mbind, M_bind in *. by destruct (m t) as [t1 []]. Qed.
Lemma triple_ret_bind (a : A) (k : A -> M InFlightTx B) Q : triple P (k a) Q E -> triple P (mret a ≫= k) Q E.
Proof. done. Qed.
End Triples.

Section AtWork.
Context (g : nat) (gn : Generation) (ks : list AsyncAction) (db : list string) (wanted : option InFlightStatus) (n : nat) (E : InFlightTx -> Prop).

Lemma triple_getGen {B} (k : Generation -> M InFlightTx B) Q : triple (St g gn ks db wanted n) (k gn) Q E -> triple (St g gn ks db wanted n) (getGen g ≫= k) Q E.
Proof. intros Hk t Ht. unfold getGen, mbind, M_bind. rewrite (st_gen _ _ _ _ _ _ _ Ht). by apply Hk. Qed.

Lemma St_updGen f t : St g gn ks db wanted n t -> St g (f gn) ks db wanted n (t <| it_generations ::= alter f g |>).
Proof.
  intros [H1 H2 H3 H4 H5 H6 H7 H8]. constructor; cbn; try done.
  - by rewrite list_lookup_alter_eq, H1.
  - by rewrite length_alter.
  - intros g' gn' Hne. rewrite list_lookup_alter_ne by done. by apply H6.
Qed.

Lemma triple_updGen {B} f (k : unit -> M InFlightTx B) Q : triple (St g (f gn) ks db wanted n) (k tt) Q E -> triple (St g gn ks db wanted n) (updGen g f ≫= k) Q E.
Proof. apply triple_modify. intros t. apply St_updGen. Qed.

Lemma triple_getCtx {B} i rsc (k : RunningStageContext -> M InFlightTx B) Q :
  gn_contexts gn !! i = Some rsc -> triple (St g gn ks db wanted n) (k rsc) Q E -> triple (St g gn ks db wanted n) (getCtx g i ≫= k) Q E.
Proof.
  intros Hi Hk t Ht. unfold getCtx, getGen, mbind, M_bind. rewrite (st_gen _ _ _ _ _ _ _ Ht), Hi. by apply Hk.
Qed.

Lemma goroutines_app t l g' : goroutines (t <| it_async ::= fun l0 => l0 ++ l |>) g' = goroutines t g' ++ (filter (fun p => p.1 = g') l).*2.
Proof. unfold goroutines. cbn. by rewrite filter_app, fmap_app. Qed.

Lemma triple_executeAsync {B} action (k : unit -> M InFlightTx B) Q :
  g < n -> triple (St g gn (ks ++ [action]) db wanted n) (k tt) Q E -> triple (St g gn ks db wanted n) (executeAsync g action ≫= k) Q E.
Proof.
  intros Hn. apply triple_modify. intros t [H1 H2 H3 H4 H5 H6 H7 H8]. constructor; try done.
  - rewrite goroutines_app, H3. by rewrite filter_cons_True, filter_nil.
  - intros g' gn' Hne Hg'. rewrite goroutines_app, filter_cons_False by (simpl; congruence). rewrite filter_nil, app_nil_r. by apply H6.
  - cbn. apply Forall_app_2; [done|]. by constructor.
Qed.

Lemma triple_current {B} (k : nat -> M InFlightTx B) Q : n = S g -> triple (St g gn ks db wanted n) (k g) Q E -> triple (St g gn ks db wanted n) (GetCurrentGeneration ≫= k) Q E.
Proof.
  intros Hn Hk t Ht.
  unfold GetCurrentGeneration, mbind, M_bind. pose proof (st_len _ _ _ _ _ _ _ Ht) as Hl. rewrite Hn in Hl.
  destruct (it_generations t) eqn:Eg; [discriminate|]. rewrite Hl. replace (S g - 1) with g by lia. by apply Hk.
Qed.

(** What is read is not used to say more of the memory. *)
Lemma triple_read {A B} (f : InFlightTx -> A) (k : A -> M InFlightTx B) Q :
  (forall a, triple (St g gn ks db wanted n) (k a) Q E) -> triple (St g gn ks db wanted n) (gets f ≫= k) Q E.
Proof. intros H t Ht. exact (H (f t) t Ht). Qed.

(** A write to the rest of the memory. *)
Lemma triple_frame {B} (f : InFlightTx -> InFlightTx) (k : unit -> M InFlightTx B) Q :
  (forall t, it_generations (f t) = it_generations t) -> (forall t, it_async (f t) = it_async t) -> (forall t, hashes (f t) = hashes t) ->
  (forall t, it_newStatus (f t) = it_newStatus t) -> (forall t, it_sent (f t) = it_sent t) ->
  triple (St g gn ks db wanted n) (k tt) Q E -> triple (St g gn ks db wanted n) (modify f ≫= k) Q E.
Proof.
  intros F1 F2 F3 F4 F5. apply triple_modify. intros t [H1 H2 H3 H4 H5 H6 H7 H8].
  assert (Hg : forall g', goroutines (f t) g' = goroutines t g') by (intros g'; unfold goroutines; by rewrite F2).
  constructor; rewrite ?F1, ?F2, ?F3, ?F4, ?F5, ?Hg; try done. intros g' gn' Hne Hg'. rewrite Hg. by apply H6.
Qed.
End AtWork.

Lemma alter_ctx gn i rsc f : gn_contexts gn !! i = Some rsc -> gn_contexts (gn <| gn_contexts ::= alter f i |>) !! i = Some (f rsc).
Proof. intros H. cbn. by rewrite list_lookup_alter_eq, H. Qed.

Ltac solve_ctx := cbn; rewrite ?list_lookup_alter_eq; match goal with H : _ !! _ = Some _ |- _ => rewrite H end; reflexivity.

(** Steps along the text. *)
Ltac walk1 :=
  first
    [ simple apply triple_assoc
    | simple apply triple_ret_bind
    | simple apply triple_current; [reflexivity|]
    | simple apply triple_getGen
    | simple apply triple_updGen
    | simple eapply triple_getCtx; [solve [repeat simple eapply alter_ctx; eassumption|solve_ctx]|]
    | simple apply triple_executeAsync; [lia|]
    | simple apply triple_frame; [done|done|done|done|done|]
    | simple apply triple_read; intros ? ];
  cbn beta.
Ltac walk := repeat walk1.

(** ** Stages that start *)

(** What a stage needs when it is started. *)
Definition startable (db : list string) (wanted : option InFlightStatus) (gn : Generation) (stage : InFlightTxStage) : Prop :=
  match stage with
  | InFlightTxStageRetrieveGasPrice | InFlightTxStageSigning => True
  | InFlightTxStageSubmitting => exists m h, gn_TransientPreviousStageOutputs gn = Some (m, Some h) /\ recorded db m h
  | InFlightTxStageStatusUpdate => wanted <> None
  | _ => False
  end.

Lemma start_spec g gn db wanted stage substatus now :
  startable db wanted gn stage ->
  hoare (St g gn [] db wanted (S g)) (StartNewStageContext g stage substatus now)
    (fun _ t => exists gn' k rsc, St g gn' [k] db wanted (S g) t /\ genOk db [inl k] gn' /\ gn_contexts gn' = gn_contexts gn ++ [rsc] /\
       gn_runningStageContext gn' = Some (length (gn_contexts gn)) /\ rc_Stage rsc = stage /\ gn_bufferedStageOutputs gn' = gn_bufferedStageOutputs gn).
Proof.
  intros Hs. unfold StartNewStageContext. apply triple_updGen. match goal with |- hoare (St _ ?x _ _ _ _) _ _ => set (gn1 := x) end.
  set (rsc := MkStageContext stage substatus now false emptyOutput None).
  assert (Hgn1 : gn_contexts gn1 = gn_contexts gn ++ [rsc] /\ gn_runningStageContext gn1 = Some (length (gn_contexts gn)) /\ gn_stage gn1 = Some stage /\
    gn_bufferedStageOutputs gn1 = gn_bufferedStageOutputs gn /\ gn_TransientPreviousStageOutputs gn1 = gn_TransientPreviousStageOutputs gn).
  { subst gn1. cbn. case_bool_decide; cbn; auto. }
  clearbody gn1. destruct Hgn1 as (E1 & E2 & E3 & E4 & E5).
  assert (Hend : forall k, fits db rsc (inl k) ->
    hoare (St g gn1 [k] db wanted (S g)) (mret None ≫= fun e => updGen g (fun gn0 => gn0 <| gn_stageTriggerError := e |>))
      (fun _ t => exists gn' k rsc, St g gn' [k] db wanted (S g) t /\ genOk db [inl k] gn' /\ gn_contexts gn' = gn_contexts gn ++ [rsc] /\
         gn_runningStageContext gn' = Some (length (gn_contexts gn)) /\ rc_Stage rsc = stage /\ gn_bufferedStageOutputs gn' = gn_bufferedStageOutputs gn)).
  { intros k Hk t Ht. cbv beta. eexists _, k, rsc. split; [by apply St_updGen|]. cbn. rewrite E1, E2, E4.
    split_and!; try done. unfold genOk. cbn. split_and!; [done| |].
    - intros i Hi. rewrite E2 in Hi. injection Hi as <-. rewrite E1, list_lookup_middle by done. eauto.
    - exists (length (gn_contexts gn)), rsc. rewrite E1, E2, E3, list_lookup_middle by done. done. }
  destruct stage; try done; unfold TriggerRetrieveGasPrice, TriggerStatusUpdate, TriggerSignTx, TriggerSubmitTx, triggered.
  - walk. by apply Hend.
  - walk. by apply Hend.
  - walk. by apply Hend.
  - destruct Hs as (m & h & Ht & Hr). walk. rewrite E5, Ht. cbn. walk. apply Hend. cbn. eauto 10.
Qed.
(** ** Outputs *)

(** After an output of the stage with context [i] was looked at, with [left] still to be read. *)
Definition passed (g i : nat) (db : list string) (left : list StageOutput) (t : InFlightTx) : Prop :=
  exists gn ks wanted, St g gn ks db wanted (S g) t /\ genOk db (tokensOf ks left) gn /\ statusOk (S g) wanted g gn /\
    exists rsc, gn_contexts gn !! i = Some rsc /\ (rc_StageErrored rsc = true -> ks = [] /\ left = []).

(** The context of the stage that the generation is at. *)
Record atStage (gn : Generation) (i : nat) (rsc : RunningStageContext) : Prop := {
  as_running : gn_runningStageContext gn = Some i; as_context : gn_contexts gn !! i = Some rsc; as_stage : gn_stage gn = Some (rc_Stage rsc);
  as_trigger : gn_stageTriggerError gn = None; as_errored : rc_StageErrored rsc = false }.

Lemma passed_idle g i db wanted gn t rsc :
  St g gn [] db wanted (S g) t -> gn_stageTriggerError gn = None -> gn_contexts gn !! i = Some rsc ->
  (gn_runningStageContext gn = None \/ gn_runningStageContext gn = Some i /\ (rc_Stage rsc = InFlightTxStageStatusUpdate -> wanted <> None)) -> passed g i db [] t.
Proof.
  intros Ht He Hi Hr. exists gn, [], wanted. split_and!; [done|..|by exists rsc].
  - split; [done|]. split; [|done]. intros j Hj. destruct Hr as [Hr|[Hr _]]; rewrite Hr in Hj; [discriminate|]. injection Hj as <-. eauto.
  - intros _ j r Hj Hr'. destruct Hr as [Hr|[Hr Hw]]; rewrite Hr in Hj; [discriminate|]. injection Hj as <-. rewrite Hi in Hr'. by injection Hr' as <-.
Qed.

Lemma passed_token g i db wanted gn t rsc k :
  St g gn [k] db wanted (S g) t -> atStage gn i rsc -> fits db rsc (inl k) -> (rc_Stage rsc = InFlightTxStageStatusUpdate -> wanted <> None) -> passed g i db [] t.
Proof.
  intros Ht [H1 H2 H3 H4 H5] Hk Hw. exists gn, [k], wanted. split_and!; [done|..].
  - split; [done|]. split; [|by exists i, rsc]. intros j Hj. rewrite H1 in Hj. injection Hj as <-. eauto.
  - intros _ j r Hj Hr. rewrite H1 in Hj. injection Hj as <-. rewrite H2 in Hr. by injection Hr as <-.
  - exists rsc. split; [done|]. congruence.
Qed.

Lemma atStage_alter gn i rsc f :
  atStage gn i rsc -> rc_Stage (f rsc) = rc_Stage rsc -> rc_StageErrored (f rsc) = false -> atStage (gn <| gn_contexts ::= alter f i |>) i (f rsc).
Proof. intros [H1 H2 H3 H4 H5] E1 E2. constructor; try done; [by apply alter_ctx|]. cbn. by rewrite E1. Qed.

Lemma rc_persisting_stage f rsc : rc_Stage (persisting f rsc) = rc_Stage rsc.
Proof. done. Qed.
Lemma rc_new_stage rsc : rc_Stage (SetNewPersistenceUpdateOutput rsc) = rc_Stage rsc.
Proof. unfold SetNewPersistenceUpdateOutput. by case_match. Qed.
Lemma rc_new_errored rsc : rc_StageErrored (SetNewPersistenceUpdateOutput rsc) = rc_StageErrored rsc.
Proof. unfold SetNewPersistenceUpdateOutput. by case_match. Qed.
Lemma rc_new_output rsc : rc_StageOutput (SetNewPersistenceUpdateOutput rsc) = rc_StageOutput rsc.
Proof. unfold SetNewPersistenceUpdateOutput. by case_match. Qed.
Lemma rc_new_persisted rsc : exists p, rc_StageOutputsToBePersisted (SetNewPersistenceUpdateOutput rsc) = Some p.
Proof. unfold SetNewPersistenceUpdateOutput. case_match; eauto. Qed.

Ltac ctx_eq := unfold UpdateSubStatus, setTxUpdates; rewrite ?rc_persisting_stage; cbn; rewrite ?rc_new_stage, ?rc_new_errored, ?rc_new_output; cbn; try assumption; try done.

(** The ends of the text: nothing under way, or one goroutine. *)
Ltac ends_idle Hat :=
  apply triple_ret; intros ? Ht; eapply passed_idle; [exact Ht|solve [done|exact (as_trigger _ _ _ Hat)]|solve_ctx|];
  first [by left|right; split; [solve [done|exact (as_running _ _ _ Hat)]|solve [assumption|ctx_eq]]].
Ltac ends_running Hat :=
  apply triple_ret; intros ? Ht; eapply passed_token;
    [exact Ht|repeat (first [exact Hat|simple eapply atStage_alter]); try solve [ctx_eq; by apply (as_errored _ _ _ Hat)]| |try solve [ctx_eq]].

Lemma gasPrice_spec g i gn rsc db wanted output :
  atStage gn i rsc -> rc_Stage rsc = InFlightTxStageRetrieveGasPrice -> fits db rsc (inr output) ->
  hoare (St g gn [] db wanted (S g)) (processRetrieveGasPriceStageOutput g i output) (fun _ => passed g i db []).
Proof.
  intros Hat Hs [_ Hf]. unfold processRetrieveGasPriceStageOutput, ClearRunningStageContext, TriggerPersistTxState, updCtx.
  assert (Hq : rc_Stage rsc = InFlightTxStageStatusUpdate -> wanted <> None) by congruence.
  pose proof (as_context _ _ _ Hat) as Hc. pose proof (as_errored _ _ _ Hat) as Her. destruct (so_PersistenceOutput output) as [po|].
  - destruct Hf as [Hacted _]. unfold acted in Hacted. rewrite Hs in Hacted.
    walk. destruct (so_GasPriceOutput (rc_StageOutput rsc)) as [gas|]; [|discriminate]. cbn [derefM]. walk.
    destruct (isSome (gp_Err gas)); cbn [when]; walk; (destruct (_ && _); cbn [when]; walk; ends_idle Hat).
  - destruct (so_GasPriceOutput output) as [gas|] eqn:Eg.
    + walk. destruct (gp_Err gas) eqn:Ee; walk; ends_running Hat; unfold fits, acted; ctx_eq; by rewrite Hs.
    + walk. ends_idle Hat.
Qed.

Lemma submitting_spec g i gn rsc db wanted output now :
  atStage gn i rsc -> rc_Stage rsc = InFlightTxStageSubmitting -> fits db rsc (inr output) ->
  hoare (St g gn [] db wanted (S g)) (processSubmittingStageOutput g i output now) (fun _ => passed g i db []).
Proof.
  intros Hat Hs [_ Hf]. unfold processSubmittingStageOutput, ClearRunningStageContext, TriggerPersistTxState, updCtx.
  assert (Hq : rc_Stage rsc = InFlightTxStageStatusUpdate -> wanted <> None) by congruence.
  pose proof (as_context _ _ _ Hat) as Hc. pose proof (as_errored _ _ _ Hat) as Her. destruct (so_PersistenceOutput output) as [po|].
  - destruct Hf as [Hacted _]. unfold acted in Hacted. rewrite Hs in Hacted.
    walk. destruct (so_SubmitOutput (rc_StageOutput rsc)) as [submit|]; [|discriminate]. cbn [derefM]. walk.
    destruct (isSome (su_Err submit)).
    + destruct (bool_decide _); cbn [when]; walk; ends_idle Hat.
    + destruct (negb _); cbn [when]; walk; ends_idle Hat.
  - destruct Hf as [_ Hprint]. destruct (so_SubmitOutput output) as [submit|] eqn:Eg; [|walk; ends_idle Hat].
    specialize (Hprint _ eq_refl). walk.
    destruct (su_Err submit), (su_SubmissionOutcome submit) eqn:Eo, (su_TxHash submit) eqn:Eh; try (specialize (Hprint Eo); rewrite Eh in Hprint; discriminate);
      (walk; ends_running Hat; [destruct (submitReported submit); ctx_eq..|]; unfold fits, acted; destruct (submitReported submit); ctx_eq; by rewrite Hs).
Qed.

Lemma statusUpdate_spec g i gn rsc db wanted output :
  atStage gn i rsc -> rc_Stage rsc = InFlightTxStageStatusUpdate -> wanted <> None ->
  hoare (St g gn [] db wanted (S g)) (processStatusUpdateStageOutput g output) (fun _ => passed g i db []).
Proof.
  intros Hat Hs Hw. unfold processStatusUpdateStageOutput, ClearRunningStageContext, MarkInFlightTxStale.
  pose proof (as_context _ _ _ Hat) as Hc. pose proof (as_errored _ _ _ Hat) as Her. destruct (so_PersistenceOutput output) as [po|]; [|walk; ends_idle Hat].
  apply triple_gets. intros t0 Ht0. rewrite (st_wanted _ _ _ _ _ _ _ Ht0). destruct wanted as [status|]; [|done]. cbn [derefM]. walk.
  apply (triple_pre _ _ (St g gn [] db (Some status) (S g))); [by intros t []|]. walk.
  destruct (bool_decide _); cbn [when]; [|walk; ends_idle Hat].
  apply (triple_modify _ _ _ _ (St g gn [] db None (S g))); [|walk; ends_idle Hat].
  intros t [H1 H2 H3 H4 H5 H6 H7 H8]. constructor; try done.
  intros g' gn' Hne Hg'. split; [by apply H6|]. intros E. exfalso. lia.
Qed.

Lemma started_passed g i gn rsc db wanted stage substatus now :
  startable db wanted gn stage -> gn_contexts gn !! i = Some rsc -> rc_StageErrored rsc = false ->
  hoare (St g gn [] db wanted (S g)) (StartNewStageContext g stage substatus now) (fun _ => passed g i db []).
Proof.
  intros Hs Hi He. eapply triple_post; [by apply start_spec|]. intros _ t (gn' & k & rsc' & Ht & Hok & Ec & Er & Es & _).
  exists gn', [k], wanted. split_and!; [done|done|..].
  - intros _ j r Hj Hr. rewrite Er in Hj. injection Hj as <-. rewrite Ec, list_lookup_middle in Hr by done. injection Hr as <-. intros E. rewrite E in Es. by subst stage.
  - exists rsc. rewrite Ec. split; [by apply lookup_app_l_Some|]. congruence.
Qed.

Lemma signing_spec g i gn rsc db wanted output now :
  atStage gn i rsc -> rc_Stage rsc = InFlightTxStageSigning -> fits db rsc (inr output) ->
  (forall po, so_PersistenceOutput output = Some po -> po_PersistenceError po = None) ->
  hoare (St g gn [] db wanted (S g)) (processSigningStageOutput g i output now) (fun _ => passed g i db []).
Proof.
  intros Hat Hs [_ Hf] Hpo. unfold processSigningStageOutput, ClearRunningStageContext, TriggerPersistTxState, TriggerNewStageRun, updCtx.
  assert (Hq : rc_Stage rsc = InFlightTxStageStatusUpdate -> wanted <> None) by congruence.
  pose proof (as_context _ _ _ Hat) as Hc. pose proof (as_errored _ _ _ Hat) as Her. destruct (so_PersistenceOutput output) as [po|].
  - destruct Hf as [Hacted Hdb]. specialize (Hdb Hs (Hpo _ eq_refl)). unfold acted in Hacted. rewrite Hs in Hacted. destruct Hacted as (sign & Es & Hw & _).
    walk. rewrite Es. cbn [derefM]. walk. unfold signedWell in Hw. destruct (sg_Err sign) eqn:Ee; cbn [isSome when]; walk.
    + rewrite andb_false_r. cbn [when]. walk. ends_idle Hat.
    + rewrite (as_errored _ _ _ Hat), (Hpo _ eq_refl). cbn [isSome negb andb when]. destruct Hw as (m & Em & Eh). walk. eapply triple_bind.
      { eapply started_passed; [|solve_ctx|by apply (as_errored _ _ _ Hat)]. exists (Some m), (calculateTransactionHash m). cbn. rewrite Em, Eh. split; [done|]. exists m. eauto. }
      intros ?. by apply triple_ret.
  - destruct Hf as [Hsign _]. destruct (so_SignOutput output) as [sign|] eqn:Eg; [|walk; ends_idle Hat].
    specialize (Hsign _ eq_refl). walk. unfold signedWell in Hsign. destruct (sg_Err sign) eqn:Ee.
    + rewrite Hsign. walk. ends_running Hat. unfold fits, acted. ctx_eq. rewrite Hs. exists sign. unfold signedWell. rewrite Ee. split_and!; [done|done|congruence].
    + destruct Hsign as (m & Em & Eh). rewrite Em, Eh. cbn [isSome when]. walk. ends_running Hat. unfold fits, acted. ctx_eq. rewrite Hs. exists sign. unfold signedWell. rewrite Ee.
      split_and!; [done|eauto|]. intros h Hh. rewrite Eh in Hh. injection Hh as <-.
      destruct (rc_new_persisted (rsc <| rc_StageOutput ::= fun s => s <| so_SignOutput := Some sign |> |>)) as [p Hp]. cbn in Hp. rewrite Hp. cbn. eauto 10.
Qed.

Lemma output_spec g i gn rsc db wanted output now :
  atStage gn i rsc -> fits db rsc (inr output) -> (rc_Stage rsc = InFlightTxStageStatusUpdate -> wanted <> None) ->
  hoare (St g gn [] db wanted (S g)) (processOutput conf g i (rc_Stage rsc) output now) (fun r => passed g i db r.1).
Proof.
  intros Hat Hf Hq. unfold processOutput, TriggerPersistTxState. pose proof Hf as [Hs Hp].
  pose proof (as_context _ _ _ Hat) as Hc. pose proof (as_errored _ _ _ Hat) as Her.
  rewrite bool_decide_true by done. cbn [negb].
  assert (Hgo : (forall po, so_PersistenceOutput output = Some po -> po_PersistenceError po = None) ->
    hoare (St g gn [] db wanted (S g))
      (match rc_Stage rsc with
       | InFlightTxStageRetrieveGasPrice => e ← processRetrieveGasPriceStageOutput g i output; mret ([], Some e)
       | InFlightTxStageSigning => e ← processSigningStageOutput g i output now; mret ([], Some e)
       | InFlightTxStageSubmitting => e ← processSubmittingStageOutput g i output now; mret ([], Some e)
       | InFlightTxStageStatusUpdate => e ← processStatusUpdateStageOutput g output; mret ([], Some e)
       | _ => mret ([], None)
       end) (fun r => passed g i db r.1)).
  { intros Hpo. destruct (rc_Stage rsc) eqn:Es; try (apply (triple_bind _ _ _ (fun _ => passed g i db [])); [|intros e; by apply triple_ret]).
    - by eapply statusUpdate_spec; eauto.
    - by eapply gasPrice_spec; eauto.
    - by eapply signing_spec; eauto.
    - by eapply submitting_spec; eauto.
    - apply triple_ret. intros t Ht. eapply passed_idle; [exact Ht|apply (as_trigger _ _ _ Hat)|exact Hc|]. right. split; [apply (as_running _ _ _ Hat)|]. by rewrite Es.
    - apply triple_ret. intros t Ht. eapply passed_idle; [exact Ht|apply (as_trigger _ _ _ Hat)|exact Hc|]. right. split; [apply (as_running _ _ _ Hat)|]. by rewrite Es. }
  destruct (so_PersistenceOutput output) as [[[e|] time]|] eqn:Ep; [|apply Hgo; by intros po [= <-]|by apply Hgo].
  destruct (_ <? _)%Z.
  - walk. ends_running Hat. apply Hp.
  - apply triple_ret. intros t Ht. exists gn, [], wanted. split_and!; [done|..].
    + split; [apply (as_trigger _ _ _ Hat)|]. split; [|by exists i, rsc; destruct Hat].
      intros j Hj. rewrite (as_running _ _ _ Hat) in Hj. injection Hj as <-. eauto.
    + intros _ j r Hj Hr. rewrite (as_running _ _ _ Hat) in Hj. injection Hj as <-. rewrite Hc in Hr. by injection Hr as <-.
    + exists rsc. split; [done|]. congruence.
Qed.

(** A generation that is as it should be is idle or at a stage. *)
Lemma genOk_token db token gn : genOk db [token] gn -> exists i rsc, atStage gn i rsc /\ fits db rsc token.
Proof. intros (H1 & H2 & i & rsc & H3 & H4 & H5 & H6 & H7). exists i, rsc. by split. Qed.

Lemma tokensOf_one ks outputs db gn : genOk db (tokensOf ks outputs) gn -> ks = [] \/ outputs = [].
Proof. destruct ks as [|k [|]]; [by left|..]; destruct outputs; auto; by intros (_ & _ & []). Qed.

Lemma outputs_spec g i rsc gn ks db wanted now :
  genOk db (tokensOf ks (gn_bufferedStageOutputs gn)) gn -> statusOk (S g) wanted g gn -> gn_runningStageContext gn = Some i -> gn_contexts gn !! i = Some rsc ->
  hoare (St g gn ks db wanted (S g)) (processOutputs conf g i (rc_Stage rsc) (gn_bufferedStageOutputs gn) now None) (fun r => passed g i db r.1).
Proof.
  intros Hok Hst Hr Hi. destruct (gn_bufferedStageOutputs gn) as [|output rest] eqn:Eb.
  - apply triple_ret. intros t Ht. exists gn, ks, wanted. split_and!; [done|done|done|]. exists rsc. split; [done|]. intros He. split; [|done].
    destruct ks as [|k [|]]; [done|..|by destruct Hok as (_ & _ & [])]. apply genOk_token in Hok as (i' & rsc' & Hat & _).
    rewrite (as_running _ _ _ Hat) in Hr. injection Hr as ->. rewrite (as_context _ _ _ Hat) in Hi. injection Hi as ->. by rewrite (as_errored _ _ _ Hat) in He.
  - destruct (tokensOf_one _ _ _ _ Hok) as [->|]; [|done]. destruct rest; [|by destruct Hok as (_ & _ & [])].
    apply genOk_token in Hok as (i' & rsc' & Hat & Hf). rewrite (as_running _ _ _ Hat) in Hr. injection Hr as ->.
    pose proof (as_context _ _ _ Hat) as Hc. rewrite Hi in Hc. injection Hc as <-.
    cbn [processOutputs]. eapply triple_bind; [apply output_spec; [done|done|exact (Hst eq_refl _ _ (as_running _ _ _ Hat) Hi)]|].
    intros r. cbn. walk. apply triple_ret. cbn. by rewrite app_nil_r.
Qed.

Lemma passed_inv g i db left t :
  passed g i db left t -> inv (t <| it_generations ::= alter (fun gn => gn <| gn_bufferedStageOutputs := left |>) g |>).
Proof. intros (gn & ks & wanted & Ht & Hok & Hst & _). eapply St_inv; [by apply St_updGen|done|done]. Qed.

(** ** A pass *)

(** The current generation of a transaction. *)
Lemma inv_current t : inv t -> exists g gn, length (it_generations t) = S g /\ St g gn (goroutines t g) (hashes t) (it_newStatus t) (S g) t /\
  genOk (hashes t) (tokensOf (goroutines t g) (gn_bufferedStageOutputs gn)) gn /\ statusOk (S g) (it_newStatus t) g gn.
Proof.
  intros Hi. destruct (length (it_generations t)) as [|g] eqn:El; [by destruct (nil_length_inv _ El), (inv_some _ Hi (nil_length_inv _ El))|].
  destruct (lookup_lt_is_Some_2 (it_generations t) g) as [gn Hg]; [lia|]. exists g, gn. rewrite <- El. split_and!; [done|by apply inv_St|by apply inv_gens..].
Qed.

Lemma currentOutputs_spec now : hoare inv (processCurrentGenerationStageOutputs conf now) (fun _ => inv).
Proof.
  intros t Hinv. destruct (inv_current t Hinv) as (g & gn & _ & Ht & Hok & Hst). revert t Hinv Ht Hok Hst. intros t _.
  generalize (goroutines t g) (hashes t) (it_newStatus t). intros ks db wanted Ht Hok Hst.
  refine ((_ : hoare (St g gn ks db wanted (S g)) _ _) t Ht). unfold processCurrentGenerationStageOutputs, ClearRunningStageContext. walk.
  destruct (gn_runningStageContext gn) as [i|] eqn:Er; [|apply triple_ret; intros t' Ht'; by eapply St_inv].
  destruct Hok as (Htr & Hex & Hrest). rewrite Htr. cbn [isSome]. destruct (Hex i Er) as [rsc Hi]. walk.
  apply (triple_bind _ _ _ (fun r => passed g i db r.1)).
  { apply outputs_spec; try done. }
  intros [left err] t' (gn' & ks' & wanted' & Ht' & Hok' & Hst' & rsc' & Hi' & He'). cbn [fst snd].
  refine ((_ : hoare (St g gn' ks' db wanted' (S g)) _ _) t' Ht'). walk.
  destruct (rc_StageErrored rsc') eqn:Ee; cbn [andb].
  - destruct (He' eq_refl) as [-> Hleft]. cbn in Hleft. subst left. destruct Hok' as (T1 & T2 & _).
    destruct (_ <? _)%Z; cbn [when]; walk; apply triple_ret; intros t2 Ht2; (eapply St_inv; [exact Ht2|split; [done|split; [done|done]]|done]).
  - cbn [when]. walk. apply triple_ret. intros t2 Ht2. eapply St_inv; [exact Ht2|done|done].
Qed.

(** What a pass does not touch. *)
Definition sameContext (t t' : InFlightTx) : Prop := it_orchestratorContext t' = it_orchestratorContext t.
#[local] Instance sameContext_preorder : PreOrder sameContext.
Proof. split; [done|]. unfold sameContext. intros t1 t2 t3. congruence. Qed.

Ltac respects_go :=
  repeat first
    [ simple apply respects_ret; apply _ | simple apply respects_gets; apply _ | simple apply respects_crash; apply _
    | simple apply respects_when; [apply _|] | simple apply respects_bind; [apply _| |intros ?] | by simple apply respects_modify
    | by intros ?; unfold getGen, GetCurrentGeneration; case_match
    | case_match ].

Lemma start_context g stage substatus now : respects sameContext (StartNewStageContext g stage substatus now).
Proof.
  unfold StartNewStageContext, TriggerRetrieveGasPrice, TriggerSignTx, TriggerSubmitTx, TriggerStatusUpdate, triggered, executeAsync, updGen. respects_go.
Qed.

Lemma outputs_context now : respects sameContext (processCurrentGenerationStageOutputs conf now).
Proof.
  assert (Hone : forall g i stage output, respects sameContext (processOutput conf g i stage output now)).
  { intros. unfold processOutput, processRetrieveGasPriceStageOutput, processSigningStageOutput, processSubmittingStageOutput, processStatusUpdateStageOutput,
      TriggerNewStageRun, TriggerPersistTxState, ClearRunningStageContext, MarkInFlightTxStale, getCtx, updCtx, derefM, executeAsync, updGen.
    repeat first [simple apply start_context|respects_go]. }
  assert (Hall : forall g i stage outputs err, respects sameContext (processOutputs conf g i stage outputs now err)).
  { intros g i stage outputs. induction outputs as [|o rest IH]; intros err; cbn [processOutputs]; respects_go; auto. }
  unfold processCurrentGenerationStageOutputs, ClearRunningStageContext, getCtx, updGen. repeat first [simple apply Hall|respects_go].
Qed.

Lemma genOk_idle db ks outputs gn : genOk db (tokensOf ks outputs) gn -> gn_runningStageContext gn = None -> ks = [] /\ outputs = [].
Proof.
  intros (_ & _ & H) Hr. destruct ks as [|k [|]], outputs as [|o [|]]; cbn in H; try done; destruct H as (i & rsc & Hi & _); congruence.
Qed.

Lemma started_inv g gn db wanted stage substatus now :
  startable db wanted gn stage -> gn_bufferedStageOutputs gn = [] ->
  hoare (St g gn [] db wanted (S g)) (TriggerNewStageRun stage substatus now) (fun _ => inv).
Proof.
  intros Hs Hb. unfold TriggerNewStageRun. walk. eapply triple_post; [by apply start_spec|]. intros ? t (gn' & k & rsc & Ht & Hok & Ec & Er & Es & Eb).
  eapply St_inv; [exact Ht|by rewrite Eb, Hb|]. intros _ j r Hj Hr. rewrite Er in Hj. injection Hj as <-. rewrite Ec, list_lookup_middle in Hr by done.
  injection Hr as <-. intros E. rewrite E in Es. by subst stage.
Qed.

Lemma startNewStage_spec cost now g gn db wanted ctx :
  gn_runningStageContext gn = None -> gn_bufferedStageOutputs gn = [] -> gn_stageTriggerError gn = None ->
  hoare (fun t => St g gn [] db wanted (S g) t /\ it_orchestratorContext t = Some ctx) (startNewStage conf cost now) (fun _ => inv).
Proof.
  intros Hr Hb Htr. unfold startNewStage. apply triple_gets. intros t0 [Ht0 Hx].
  apply (triple_pre _ _ (St g gn [] db wanted (S g))); [by intros t [[]]|]. rewrite (st_wanted _ _ _ _ _ _ _ Ht0), Hx.
  assert (Hidle : hoare (St g gn [] db wanted (S g)) (mret tt) (fun _ : unit => inv)).
  { apply triple_ret. intros t Ht. eapply St_inv; [exact Ht|by rewrite Hb; split; [|split; [intros i; rewrite Hr|]]|]. intros _ i rsc Hi. by rewrite Hr in Hi. }
  assert (Hrun : forall stage substatus, startable db wanted gn stage -> hoare (St g gn [] db wanted (S g)) (TriggerNewStageRun stage substatus now) (fun _ => inv))
    by (intros; by apply started_inv).
  match goal with |- context [if ?b then TriggerNewStageRun InFlightTxStageStatusUpdate _ _ else _] => destruct b eqn:Eb end.
  { apply Hrun. by destruct wanted. }
  clear Eb. destruct (IsReadyToExit _); [done|]. destruct (negb _); [by apply Hrun|]. destruct (negb _).
  - cbn [derefM]. walk. destruct (CanSubmit _ _); cbn [when]; [by apply Hrun|done].
  - destruct (mt_LastSubmit _); [|done]. destruct (_ <? _)%Z; cbn [when]; [by apply Hrun|done].
Qed.

Lemma goroutines_none t g n : Forall (fun p => p.1 < n) (it_async t) -> n <= g -> goroutines t g = [].
Proof.
  intros H Hn. unfold goroutines. induction H as [|p l Hp Hl IH]; [done|]. rewrite filter_cons_False; [done|]. simpl in *. lia.
Qed.

Lemma newGeneration_inv now g gn ks db wanted t :
  St g gn ks db wanted (S g) t -> genOk db (tokensOf ks (gn_bufferedStageOutputs gn)) gn -> inv (t <| it_generations ::= fun gs => gs ++ [NewGeneration_ now] |>).
Proof.
  intros [H1 H2 <- <- <- H6 H7 H8] Hok. set (t' := t <| it_generations ::= _ |>).
  assert (E1 : it_generations t' = it_generations t ++ [NewGeneration_ now]) by done. assert (E2 : forall g', goroutines t' g' = goroutines t g') by done.
  assert (E3 : hashes t' = hashes t) by done. assert (E4 : it_newStatus t' = it_newStatus t) by done. assert (E5 : it_sent t' = it_sent t) by done.
  assert (E6 : it_async t' = it_async t) by done. clearbody t'.
  constructor; rewrite ?E1, ?E3, ?E4, ?E5, ?E6; [by destruct (it_generations t)|..|done].
  - intros g' gn' Hg'. rewrite length_app, H2, E2.
    destruct (decide (g' = S g)) as [->|Hne].
    + rewrite lookup_app_r, H2, Nat.sub_diag in Hg' by lia. injection Hg' as <-. rewrite (goroutines_none t (S g) (S g)) by (done || lia). done.
    + assert (g' < S g) as Hlt by (apply lookup_lt_Some in Hg'; rewrite length_app, H2 in Hg'; cbn in Hg'; lia).
      rewrite lookup_app_l in Hg' by lia. split; [|intros E; cbn in E; lia].
      destruct (decide (g' = g)) as [->|Hng]; [rewrite H1 in Hg'; by injection Hg' as <-|by apply H6].
  - rewrite length_app, H2. eapply Forall_impl; [exact H7|]. cbn. intros p Hp. lia.
Qed.

Lemma newGeneration_spec now : hoare inv (NewGeneration now) (fun _ => inv).
Proof.
  intros t Hinv. destruct (inv_current t Hinv) as (g & gn & Hl & Ht & Hok & Hst). revert Ht Hok.
  generalize (goroutines t g) (hashes t) (it_newStatus t). intros ks db wanted Ht Hok.
  refine ((_ : hoare (St g gn ks db wanted (S g)) _ _) t Ht). unfold NewGeneration, Cancel. walk.
  intros t' Ht'. by eapply newGeneration_inv.
Qed.

Lemma inv_frame f t :
  inv t -> it_generations (f t) = it_generations t -> it_async (f t) = it_async t -> hashes (f t) = hashes t -> it_newStatus (f t) = it_newStatus t -> it_sent (f t) = it_sent t -> inv (f t).
Proof.
  intros [H1 H2 H3 H4] F1 F2 F3 F4 F5. assert (Hg : forall g', goroutines (f t) g' = goroutines t g') by (intros g'; unfold goroutines; by rewrite F2).
  constructor; rewrite ?F1, ?F2, ?F3, ?F4, ?F5; try done. intros g gn Hgn. rewrite Hg. by apply H2.
Qed.

Lemma updates_spec now : hoare inv (applyQueuedUpdates now) (fun _ => inv).
Proof.
  unfold applyQueuedUpdates. apply triple_gets. intros t0 _. apply (triple_pre _ _ inv); [by intros t []|].
  apply (triple_modify _ _ _ _ inv); [intros t Ht; by apply inv_frame|]. destruct (it_updates t0); [by apply triple_ret|].
  apply (triple_modify _ _ _ _ inv); [intros t Ht; by apply (inv_frame (fun t => t <| it_mtx ::= _ |>))|].
  apply (triple_modify _ _ _ _ inv); [intros t Ht; by apply (inv_frame (fun t => t <| it_mtx ::= _ |>))|]. apply newGeneration_spec.
Qed.

Lemma run_current {B} t g gn (k : nat -> Generation -> M InFlightTx B) :
  length (it_generations t) = S g -> it_generations t !! g = Some gn -> (g ← GetCurrentGeneration; gn ← getGen g; k g gn) t = k g gn t.
Proof.
  intros Hl Hg. unfold GetCurrentGeneration, getGen, mbind, M_bind. destruct (it_generations t) as [|x l] eqn:E; [done|].
  rewrite Hl. replace (S g - 1) with g by lia. by rewrite E, Hg.
Qed.

(** A pass of the orchestrator returns, and keeps the invariant. *)
Lemma pass_spec tIn now : hoare inv (ProduceLatestInFlightStageContext conf tIn now) (fun _ => inv).
Proof.
  unfold ProduceLatestInFlightStageContext. eapply triple_bind; [apply updates_spec|]. intros [].
  apply (triple_modify _ _ _ _ (fun t => inv t /\ it_orchestratorContext t = Some tIn)).
  { intros t Ht. split; [|done]. by apply (inv_frame (fun t => t <| it_orchestratorContext := _ |>)). }
  apply (triple_bind _ _ _ (fun _ t => inv t /\ it_orchestratorContext t = Some tIn)).
  { intros t [Ht Hx]. pose proof (currentOutputs_spec now t Ht) as Hrun. pose proof (outputs_context now t) as Hc.
    destruct (processCurrentGenerationStageOutputs conf now t) as [t' []]; [|done|done]. split; [done|]. unfold sameContext in Hc. simpl in Hc. by rewrite Hc. }
  intros err. unfold mtxOf. apply triple_gets. intros t0 _. intros t [[Ht Hx] _].
  destruct (inv_current t Ht) as (g & gn & Hl & HSt & Hok & Hst). rewrite (run_current t g gn _ Hl (st_gen _ _ _ _ _ _ _ HSt)).
  refine ((_ : hoare (fun t' => t' = t) _ _) t eq_refl). apply (triple_bind _ _ _ (fun _ => inv)); [|intros ?; apply triple_gets; intros t1 _; apply triple_ret; by intros t2 []].
  destruct (gn_runningStageContext gn) eqn:Er; cbn [isSome negb when]; [apply triple_ret; by intros ? ->|].
  destruct (genOk_idle _ _ _ _ Hok Er) as [Ek Eb]. rewrite Ek in HSt. eapply triple_pre; [|eapply startNewStage_spec; [exact Er|exact Eb|apply Hok]]. intros ? ->. eauto.
Qed.

(** ** A step of a goroutine *)

Lemma recorded_mono db db' m h : db ⊆ db' -> recorded db m h -> recorded db' m h.
Proof. intros Hs (x & E1 & E2 & H). exists x. eauto. Qed.

Lemma fits_mono db db' rsc token : db ⊆ db' -> fits db rsc token -> fits db' rsc token.
Proof.
  intros Hs. destruct token as [[]|output]; cbn; try done.
  - intros (H1 & (h & H2 & H3) & H4). split_and!; [done| |done]. exists h. eauto using recorded_mono.
  - intros [H1 H2]. split; [done|]. destruct (so_PersistenceOutput output); [|done]. destruct H2 as [H2 H3]. split; [done|]. intros E1 E2 sign h E3 E4. apply Hs. eauto.
Qed.

Lemma genOk_mono db db' tokens gn : db ⊆ db' -> genOk db tokens gn -> genOk db' tokens gn.
Proof.
  intros Hs (H1 & H2 & H3). split_and!; [done|done|]. destruct tokens as [|token []]; [done| |done].
  destruct H3 as (i & rsc & E1 & E2 & E3 & E4 & E5). exists i, rsc. split_and!; try done. by eapply fits_mono.
Qed.

(** What a goroutine of generation [g] finds when it runs, and leaves: the generation is at [stage], with
    nothing else under way. *)
Definition work (g n : nat) (wanted : option InFlightStatus) (stage : InFlightTxStage) (X : list string -> RunningStageContext -> Prop) (t : InFlightTx) : Prop :=
  exists gn i rsc db, St g gn [] db wanted n t /\ atStage gn i rsc /\ gn_bufferedStageOutputs gn = [] /\ rc_Stage rsc = stage /\ X db rsc.

Lemma work_weaken g n wanted stage (X Y : list string -> RunningStageContext -> Prop) t :
  (forall db rsc, rc_Stage rsc = stage -> X db rsc -> Y db rsc) -> work g n wanted stage X t -> work g n wanted stage Y t.
Proof. intros H (gn & i & rsc & db & H1 & H2 & H3 & H4 & H5). exists gn, i, rsc, db. split_and!; auto. Qed.

Lemma work_intro g n wanted gn i rsc db (X : list string -> RunningStageContext -> Prop) t :
  St g gn [] db wanted n t -> atStage gn i rsc -> gn_bufferedStageOutputs gn = [] -> X db rsc -> work g n wanted (rc_Stage rsc) X t.
Proof. intros. exists gn, i, rsc, db. done. Qed.

Lemma triple_liftR {A B} (f : InFlightTx -> res A) (k : A -> M InFlightTx B) P Q E :
  (forall t a, P t -> f t = Ok a -> triple P (k a) Q E) -> (forall t, P t -> E t) -> triple P (liftR f ≫= k) Q E.
Proof. intros H HE t Ht. unfold liftR, mbind, M_bind. destruct (f t) eqn:Ef; [by apply (H t a)|by apply HE..]. Qed.

Lemma St_grow g gn ks db db' wanted n t t' :
  St g gn ks db wanted n t -> db ⊆ db' -> it_generations t' = it_generations t -> it_async t' = it_async t -> it_newStatus t' = it_newStatus t -> it_sent t' = it_sent t ->
  hashes t' = db' -> St g gn ks db' wanted n t'.
Proof.
  intros [H1 H2 H3 H4 H5 H6 H7 H8] Hs F1 F2 F4 F5 <-. assert (Hg : forall g', goroutines t' g' = goroutines t g') by (intros g'; unfold goroutines; by rewrite F2).
  constructor; rewrite ?F1, ?F2, ?F4, ?F5, ?Hg; try done.
  - intros g' gn' Hne Hgn. rewrite Hg. destruct (H6 g' gn' Hne Hgn) as [Ha Hb]. split; [by eapply genOk_mono|done].
  - eapply Forall_impl; [exact H8|]. intros p. by apply recorded_mono.
Qed.

Lemma runBatch_spec g gn db wanted n s flushed E :
  triple (St g gn [] db wanted n) (runBatch s flushed) (fun r t => exists db', St g gn [] db' wanted n t /\ (r = None -> sb_TransactionHash s ∈ db')) E.
Proof.
  unfold runBatch. destruct flushed as [e|]; [apply triple_ret; intros t Ht; by exists db|].
  intros t Ht. unfold modify, mbind, M_bind, mret, M_ret. cbv beta iota. pose proof (st_db _ _ _ _ _ _ _ Ht) as Hdb.
  destruct (existsb _ _) eqn:Ee.
  - exists db. split; [by eapply St_grow|]. intros _. apply existsb_exists in Ee as (r & Hin & Heq). apply String.eqb_eq in Heq. rewrite <- Heq, <- Hdb.
    apply list_elem_of_fmap. exists r. split; [done|]. by apply list_elem_of_In.
  - exists (db ++ [sb_TransactionHash s]). split; [|intros _; set_solver]. eapply St_grow; [exact Ht|set_solver|done..|]. unfold hashes in *. cbn. by rewrite fmap_app, Hdb.
Qed.

Lemma buildBinding_hash m s s' : buildBinding m s = Ok s' -> sb_TransactionHash s' = sb_TransactionHash s.
Proof. unfold buildBinding. repeat case_match; intros [= <-]; done. Qed.

Lemma persist_spec g n gn i rsc db wanted os :
  atStage gn i rsc -> acted rsc -> gn_bufferedStageOutputs gn = [] ->
  triple (St g gn [] db wanted n) (PersistTxState conf g os)
    (fun r t => r.1 = Some (rc_Stage rsc) /\
       work g n wanted (rc_Stage rsc) (fun db' rsc' => acted rsc' /\
         (rc_Stage rsc = InFlightTxStageSigning -> r.2 = None -> forall sign h, so_SignOutput (rc_StageOutput rsc') = Some sign -> sg_TxHash sign = Some h -> h ∈ db')) t)
    (work g n wanted (rc_Stage rsc) (fun _ _ => True)).
Proof.
  intros Hat Ha Hb. unfold PersistTxState, ApplyInMemoryUpdates. pose proof (as_context _ _ _ Hat) as Hc. pose proof (as_errored _ _ _ Hat) as Her. walk.
  rewrite (as_running _ _ _ Hat). walk.
  assert (Hend : forall r : option InFlightTxStage * option error, r.1 = Some (rc_Stage rsc) -> (r.2 = None -> rc_Stage rsc = InFlightTxStageSigning -> forall sign h, so_SignOutput (rc_StageOutput rsc) = Some sign ->
      sg_TxHash sign = Some h -> h ∈ db) -> triple (St g gn [] db wanted n) (mret r)
    (fun r t => r.1 = Some (rc_Stage rsc) /\
       work g n wanted (rc_Stage rsc) (fun db' rsc' => acted rsc' /\
         (rc_Stage rsc = InFlightTxStageSigning -> r.2 = None -> forall sign h, so_SignOutput (rc_StageOutput rsc') = Some sign -> sg_TxHash sign = Some h -> h ∈ db')) t)
    (work g n wanted (rc_Stage rsc) (fun _ _ => True))).
  { intros r Hr1 Hr2. apply triple_ret. intros t Ht. split; [done|]. eapply work_intro; eauto. }
  assert (Hsub : rc_Stage rsc = InFlightTxStageSigning -> forall sign h, so_SignOutput (rc_StageOutput rsc) = Some sign -> sg_TxHash sign = Some h ->
    exists p u s, rc_StageOutputsToBePersisted rsc = Some p /\ tp_TxUpdates p = Some u /\ nv_NewSubmission u = Some s /\ sb_TransactionHash s = h).
  { intros Hs sign h E1 E2. unfold acted in Ha. rewrite Hs in Ha. destruct Ha as (sign' & E3 & _ & H). rewrite E1 in E3. injection E3 as <-. by apply H. }
  destruct (rc_StageOutputsToBePersisted rsc) as [p|] eqn:Ep; [|apply Hend; [apply (as_stage _ _ _ Hat)|done]]. walk.
  destruct (tp_TxUpdates p) as [u|] eqn:Eu.
  2:{ apply Hend; [done|]. intros _ Hs sign h E1 E2. destruct (Hsub Hs sign h E1 E2) as (p' & u & s & [= <-] & E & _). congruence. }
  destruct (nv_NewSubmission u) as [s|] eqn:Es.
  2:{ walk. apply Hend; [done|]. intros _ Hs sign h E1 E2. destruct (Hsub Hs sign h E1 E2) as (p' & u' & s & [= <-] & E & E' & _). congruence. }
  walk. apply triple_liftR; [|intros t Ht; by eapply work_intro]. intros t0 s' _ Hb'. apply buildBinding_hash in Hb'. unfold updCtx. walk.
  set (f := setTxUpdates _). set (gn' := gn <| gn_contexts ::= alter f i |>).
  assert (Hat' : atStage gn' i (f rsc)) by by apply atStage_alter.
  assert (Ha' : acted (f rsc)).
  { unfold acted, f in *. cbn. destruct (rc_Stage rsc); try done. destruct Ha as (sign & E1 & E2 & E3). exists sign. split_and!; [done|done|].
    intros h Hh. destruct (E3 h Hh) as (p' & u' & s0 & Ep' & Eu' & Es' & Eh). rewrite Ep in Ep'. injection Ep' as <-. rewrite Eu in Eu'. injection Eu' as <-. rewrite Es in Es'. injection Es' as <-.
    rewrite Ep. do 3 eexists. split_and!; [reflexivity|cbn; by rewrite Eu|reflexivity|]. cbn. congruence. }
  eapply triple_bind; [apply runBatch_spec|]. intros failed t (db' & Ht & Hin). change (rc_Stage rsc) with (rc_Stage (f rsc)).
  refine ((_ : triple (St g gn' [] db' wanted n) _ _ _) t Ht). destruct failed as [e|]; walk; apply triple_ret; intros t' Ht'; (split; [done|]); (eapply work_intro; [exact Ht'|exact Hat'|done|]).
  - done.
  - split; [done|]. intros Hs _ sign h E1 E2. destruct (Hsub Hs sign h E1 E2) as (p' & u' & s0 & [= <-] & E3 & E4 & <-). rewrite Eu in E3. injection E3 as <-. rewrite Es in E4. injection E4 as <-.
    rewrite <- Hb'. by apply Hin.
Qed.

(** The generation has an output to be read. *)
Definition delivered (g n : nat) (wanted : option InFlightStatus) (stage : InFlightTxStage) (t : InFlightTx) : Prop :=
  exists gn i rsc db o, St g gn [] db wanted n t /\ atStage gn i rsc /\ gn_bufferedStageOutputs gn = [o] /\ rc_Stage rsc = stage /\ fits db rsc (inr o).

Lemma deliver_spec {A} g n wanted stage X o (a : A) (Q : A -> InFlightTx -> Prop) E :
  (forall db rsc, rc_Stage rsc = stage -> X db rsc -> fits db rsc (inr o)) -> (forall t, delivered g n wanted stage t -> Q a t) ->
  triple (work g n wanted stage X) (AddStageOutputs g o ≫= fun _ => mret a) Q E.
Proof.
  intros Ho HQ t (gn & i & rsc & db & H1 & H2 & H3 & H4 & H5). apply HQ. eexists _, i, rsc, db, o. split; [by apply St_updGen|]. split; [destruct H2; by split|].
  cbn [gn_bufferedStageOutputs]. split; [cbn; by rewrite H3|]. split; [done|]. exact (Ho _ _ H4 H5).
Qed.

(** What the body of a goroutine leaves. *)
Definition left (g n : nat) (wanted : option InFlightStatus) (stage : InFlightTxStage) (next : option AsyncAction) (t : InFlightTx) : Prop :=
  match next with Some next => work g n wanted stage (fun db rsc => fits db rsc (inl next)) t | None => delivered g n wanted stage t end.

Lemma persistBody_spec g n gn i rsc db wanted os now :
  atStage gn i rsc -> acted rsc -> gn_bufferedStageOutputs gn = [] ->
  triple (St g gn [] db wanted n) (r ← PersistTxState conf g os; AddPersistenceOutput g r.1 now r.2 ≫= fun _ => mret None)
    (left g n wanted (rc_Stage rsc)) (work g n wanted (rc_Stage rsc) (fun _ _ => True)).
Proof.
  intros Hat Ha Hb. eapply triple_bind; [by eapply persist_spec|]. intros [stage err] t [E Ht]. cbn in E. subst stage. cbn [fst snd] in *. revert t Ht.
  apply deliver_spec; [|done]. intros db' rsc' Hs [H1 H2]. cbn. split; [by rewrite Hs|]. split; [done|]. intros Hs'. apply H2. congruence.
Qed.

Lemma statusBody_spec g n gn i rsc db wanted os now :
  atStage gn i rsc -> rc_Stage rsc = InFlightTxStageStatusUpdate -> gn_bufferedStageOutputs gn = [] ->
  triple (St g gn [] db wanted n) (asyncBody conf calculateTransactionHash g AsyncStatusUpdate os now)
    (left g n wanted (rc_Stage rsc)) (work g n wanted (rc_Stage rsc) (fun _ _ => True)).
Proof.
  intros Hat Hs Hb. cbn [asyncBody]. unfold updCtx. walk. rewrite (as_running _ _ _ Hat). cbn [derefM]. pose proof (as_errored _ _ _ Hat) as Her. walk.
  match goal with |- context [derefM ?x] => destruct x as [status|] end; cbn [derefM].
  2:{ intros t Ht. cbv beta. rewrite <- (rc_new_stage rsc). eapply work_intro; [exact Ht|by apply atStage_alter; [|ctx_eq..]|done|done]. }
  walk. set (f := fun r => setTxUpdates _ _).
  replace (rc_Stage rsc) with (rc_Stage (f (SetNewPersistenceUpdateOutput rsc))) by (unfold f; ctx_eq).
  eapply persistBody_spec; [repeat (apply atStage_alter; try done; try (unfold f; ctx_eq))| |done].
  unfold acted, f. ctx_eq. by rewrite Hs.
Qed.

(** The outcome that prints the hash comes with one. *)
Lemma attempt_spec g n gn i rsc db wanted message hash response a :
  atStage gn i rsc -> gn_bufferedStageOutputs gn = [] -> recorded db message hash -> sa_submissionOutcome a <> SubmissionOutcomeNonceTooLow ->
  triple (St g gn [] db wanted n) (attemptSubmit g message hash response a)
    (fun r t => work g n wanted (rc_Stage rsc) (fun db _ => recorded db message hash) t /\
       (sa_submissionOutcome r.1 = SubmissionOutcomeNonceTooLow -> isSome (sa_txHash r.1) = true) /\ (r.2.2 <> None -> sa_submissionOutcome r.1 <> SubmissionOutcomeNonceTooLow))
    (work g n wanted (rc_Stage rsc) (fun _ _ => True)).
Proof.
  intros Hat Hb Hr Ho. unfold attemptSubmit, IsCancelled. walk.
  assert (Hat' : atStage (gn <| gn_cancel := false |>) i rsc) by (destruct Hat; by constructor).
  destruct (gn_cancel gn).
  { apply triple_ret. intros t Ht. split; [by eapply work_intro|]. cbn. split; [congruence|done]. }
  apply (triple_modify _ _ _ _ (St g (gn <| gn_cancel := false |>) [] db wanted n)).
  { intros t [H1 H2 H3 H4 H5 H6 H7 H8]. constructor; try done. cbn. apply Forall_app_2; [done|]. by constructor. }
  assert (Hw : forall t, St g (gn <| gn_cancel := false |>) [] db wanted n t -> work g n wanted (rc_Stage rsc) (fun db _ => recorded db message hash) t) by (intros t Ht; by eapply work_intro).
  destruct response as [[txHash|]|text|]; [destruct (String.eqb _ _)| |destruct (MapError text)|apply triple_crash; intros t Ht; by eapply work_intro];
    (apply triple_ret; intros t Ht; split; [by apply Hw|cbn; done]).
Qed.

Lemma submitBody_spec g n gn i rsc db wanted message hash attempts os now :
  atStage gn i rsc -> gn_bufferedStageOutputs gn = [] -> fits db rsc (inl (AsyncSubmitTx message hash attempts)) ->
  triple (St g gn [] db wanted n) (asyncBody conf calculateTransactionHash g (AsyncSubmitTx message hash attempts) os now)
    (left g n wanted (rc_Stage rsc)) (work g n wanted (rc_Stage rsc) (fun _ _ => True)).
Proof.
  intros Hat Hb (Hs & (h & -> & Hr) & Ha). cbn [asyncBody submitTX].
  assert (Hout : forall outputs Q, printable outputs -> (forall t, delivered g n wanted (rc_Stage rsc) t -> Q None t) ->
    triple (work g n wanted (rc_Stage rsc) (fun _ _ => True))
      (AddStageOutputs g (emptyOutput <| so_Stage := Some InFlightTxStageSubmitting |> <| so_SubmitOutput := Some outputs |>) ≫= fun _ => mret (None : option AsyncAction)) Q
      (work g n wanted (rc_Stage rsc) (fun _ _ => True))).
  { intros outputs Q Hp HQ. apply deliver_spec; [|done]. intros db' rsc' Hs' _. cbn. split; [congruence|]. split; [done|]. by intros submit [= <-]. }
  destruct (isSome attempts && os_stopped os).
  { walk. eapply triple_pre; [|apply Hout; done]. intros t Ht. by eapply work_intro. }
  apply triple_assoc. eapply triple_bind.
  { eapply attempt_spec; try done. destruct attempts as [a|]; cbn; [by apply Ha|done]. }
  intros [a [retry err]] t (Hw & Hp & Hn). cbn [fst snd] in *.
  assert (Hw' : work g n wanted (rc_Stage rsc) (fun _ _ => True) t) by by eapply work_weaken; [|exact Hw].
  destruct err as [e|]; [destruct (negb retry || _)|].
  - revert t Hw Hw'. intros t _. revert t. apply triple_ret_bind, Hout; done.
  - cbn. eapply work_weaken; [|exact Hw]. intros db' rsc' Hs' H. cbn. split_and!; [congruence|eauto|]. intros a' [= <-]. by apply Hn.
  - revert t Hw Hw'. intros t _. revert t. apply triple_ret_bind, Hout; [|done]. unfold printable. cbn. done.
Qed.

Lemma body_spec g n gn i rsc db wanted action os now :
  atStage gn i rsc -> gn_bufferedStageOutputs gn = [] -> fits db rsc (inl action) ->
  triple (St g gn [] db wanted n) (asyncBody conf calculateTransactionHash g action os now)
    (left g n wanted (rc_Stage rsc)) (work g n wanted (rc_Stage rsc) (fun _ _ => True)).
Proof.
  intros Hat Hb Hf. assert (Hw : forall t, St g gn [] db wanted n t -> work g n wanted (rc_Stage rsc) (fun _ _ => True) t) by (intros t Ht; by eapply work_intro).
  destruct action as [fixed underpriced| |from ethTX|message hash attempts|]; [|by eapply statusBody_spec| |by eapply submitBody_spec|by eapply persistBody_spec]; cbn in Hf.
  - cbn [asyncBody]. walk. destruct (_.2) as [gpo|e|c]; [..|apply triple_crash, Hw];
      (eapply triple_pre; [exact Hw|]; apply deliver_spec; [|done]; intros db' rsc' Hs' _; cbn; rewrite Hs', Hf; done).
  - cbn [asyncBody]. apply triple_liftR; [|exact Hw]. intros t0 [[message hash] err] _ Hsign.
    eapply triple_pre; [exact Hw|]; apply deliver_spec; [|done]; intros db' rsc' Hs' _; cbn. rewrite Hs', Hf. split; [done|]. split; [|done]. intros sign [= <-].
    unfold signTx in Hsign. unfold signedWell. cbn. destruct (os_sign os from ethTX); [| |done]; injection Hsign as <- <- <-; eauto.
Qed.

(** ** Every step keeps the invariant *)

Lemma goroutines_delete t k g a (g' : nat) :
  it_async t !! k = Some (g, a) -> (if decide (g' = g) then goroutines t g' ≡ₚ a :: goroutines (t <| it_async ::= fun l => delete k l |>) g'
                                    else goroutines t g' = goroutines (t <| it_async ::= fun l => delete k l |>) g').
Proof.
  intros Hk. unfold goroutines. cbn. rewrite delete_take_drop, filter_app, fmap_app.
  assert (E : (filter (fun p => p.1 = g') (it_async t)).*2 = (filter (fun p => p.1 = g') (take k (it_async t))).*2 ++ (filter (fun p => p.1 = g') ((g, a) :: drop (S k) (it_async t))).*2)
    by (rewrite <- fmap_app, <- filter_app; by rewrite take_drop_middle).
  rewrite E. destruct (decide (g' = g)) as [->|Hne].
  - rewrite filter_cons_True by done. cbn. by rewrite Permutation_middle.
  - rewrite filter_cons_False by (cbn; congruence). done.
Qed.

Lemma inv_async t k g a : inv t -> it_async t !! k = Some (g, a) ->
  exists gn i rsc, St g gn [] (hashes t) (it_newStatus t) (length (it_generations t)) (t <| it_async ::= fun l => delete k l |>) /\
    atStage gn i rsc /\ gn_bufferedStageOutputs gn = [] /\ fits (hashes t) rsc (inl a) /\ statusOk (length (it_generations t)) (it_newStatus t) g gn.
Proof.
  intros Hinv Hk. pose proof (inv_range _ Hinv) as Hrange. assert (Hlt : g < length (it_generations t)) by exact (Forall_lookup_1 _ _ _ _ Hrange Hk).
  destruct (lookup_lt_is_Some_2 _ _ Hlt) as [gn Hg]. destruct (inv_gens _ Hinv g gn Hg) as [Hok Hst].
  pose proof (fun g' => goroutines_delete t k g a g' Hk) as Hdel. pose proof (Hdel g) as Hg0. rewrite decide_True in Hg0 by done.
  destruct (goroutines t g) as [|k1 [|k2 rest]] eqn:Egr; [by apply Permutation_nil_cons in Hg0| |by destruct Hok as (_ & _ & [])].
  apply Permutation_singleton_l in Hg0. injection Hg0 as Ek Enil.
  destruct (gn_bufferedStageOutputs gn) as [|o rest] eqn:Eb; [|by destruct Hok as (_ & _ & [])].
  apply genOk_token in Hok as (i & rsc & Hat & Hf). exists gn, i, rsc. subst. split_and!; try done. destruct Hinv as [V1 V2 V3 V4].
  constructor; try done.
  - intros g' gn' Hne Hgn'. specialize (Hdel g'). rewrite decide_False in Hdel by done. rewrite <- Hdel. by apply V2.
  - cbn. rewrite delete_take_drop. apply Forall_app_2; [by apply Forall_take|by apply Forall_drop].
Qed.

Lemma stage_status n wanted g gn i rsc :
  atStage gn i rsc -> statusOk n wanted g gn -> forall gn' i' rsc', atStage gn' i' rsc' -> rc_Stage rsc' = rc_Stage rsc -> statusOk n wanted g gn'.
Proof.
  intros Hat Hst gn' i' rsc' Hat' Hs Hn j r Hj Hr Hstage. rewrite (as_running _ _ _ Hat') in Hj. injection Hj as <-. rewrite (as_context _ _ _ Hat') in Hr. injection Hr as <-.
  eapply Hst; [done|apply (as_running _ _ _ Hat)|apply (as_context _ _ _ Hat)|]. congruence.
Qed.

Lemma delivered_inv g n wanted stage t : (forall gn i rsc, atStage gn i rsc -> rc_Stage rsc = stage -> statusOk n wanted g gn) -> delivered g n wanted stage t -> inv t.
Proof.
  intros Hst (gn & i & rsc & db & o & H1 & H2 & H3 & H4 & H5). eapply St_inv; [exact H1| |by eapply Hst]. rewrite H3. destruct H2 as [S1 S2 S3 S4 S5].
  split; [done|]. split; [|by exists i, rsc]. intros j Hj. rewrite S1 in Hj. injection Hj as <-. eauto.
Qed.

Lemma work_inv g n wanted stage X t : (forall gn i rsc, atStage gn i rsc -> rc_Stage rsc = stage -> statusOk n wanted g gn) -> work g n wanted stage X t -> inv t.
Proof.
  intros Hst (gn & i & rsc & db & H1 & H2 & H3 & H4 & H5). eapply St_inv; [exact H1| |by eapply Hst]. rewrite H3. destruct H2 as [S1 S2 S3 S4 S5].
  split; [done|]. split; [|done]. intros j Hj. rewrite S1 in Hj. injection Hj as <-. eauto.
Qed.

Lemma inv_stale t : inv t -> inv (t <| it_stale := true |>).
Proof. intros H. by apply (inv_frame (fun t => t <| it_stale := true |>)). Qed.

Lemma runAsync_inv k os now t : inv t -> inv (runAsync conf calculateTransactionHash k os now t).
Proof.
  intros Hinv. unfold runAsync. destruct (it_async t !! k) as [[g action]|] eqn:Ek; [|done].
  destruct (inv_async t k g action Hinv Ek) as (gn & i & rsc & HSt & Hat & Hb & Hf & Hst). set (t1 := t <| it_async ::= _ |>) in *. clearbody t1.
  set (n := length (it_generations t)) in *. set (wanted := it_newStatus t) in *. set (db := hashes t) in *.
  assert (Hst' : forall gn' i' rsc', atStage gn' i' rsc' -> rc_Stage rsc' = rc_Stage rsc -> statusOk n wanted g gn') by by eapply stage_status.
  unfold executeAsyncStep. destruct (os_stopped os && _).
  { apply (work_inv g n wanted (rc_Stage rsc) (fun _ _ => True)); [done|]. by eapply work_intro. }
  assert (Hn : g < n) by (rewrite <- (st_len _ _ _ _ _ _ _ HSt); eapply lookup_lt_Some, (st_gen _ _ _ _ _ _ _ HSt)).
  unfold getGen, mbind, M_bind. rewrite (st_gen _ _ _ _ _ _ _ HSt), (as_stage _ _ _ Hat). unfold recovered.
  pose proof (body_spec g n gn i rsc db wanted action os now Hat Hb Hf t1 HSt) as Hbody.
  assert (Hpanic : forall t', work g n wanted (rc_Stage rsc) (fun _ _ => True) t' ->
    inv ((AddStageOutputs g (emptyOutput <| so_Stage := Some (rc_Stage rsc) |>) ≫= fun _ => MarkInFlightTxStale) t').1).
  { intros t' Ht'. pose proof (deliver_spec g n wanted (rc_Stage rsc) (fun _ _ => True) (emptyOutput <| so_Stage := Some (rc_Stage rsc) |>) tt
      (fun _ => delivered g n wanted (rc_Stage rsc)) (fun _ => False)) as Hd. specialize (Hd ltac:(intros db' rsc' Hs' _; cbn; by rewrite Hs') ltac:(done) t' Ht').
    apply inv_stale. by eapply delivered_inv. }
  destruct (asyncBody conf calculateTransactionHash g action os now t1) as [t' [[next|]|e|c]]; cbn [left] in Hbody; [| |by apply Hpanic..].
  - destruct Hbody as (gn' & i' & rsc' & db' & H1 & H2 & H3 & H4 & H5).
    pose proof (triple_executeAsync g gn' [] db' wanted n (fun _ => False) next (fun _ => mret tt) (fun _ => St g gn' [next] db' wanted n) Hn) as Hx.
    specialize (Hx ltac:(by apply triple_ret) t' H1). eapply St_inv; [exact Hx| |by eapply Hst']. rewrite H3. destruct H2 as [S1 S2 S3 S4 S5].
    split; [done|]. split; [|by exists i', rsc']. intros j Hj. rewrite S1 in Hj. injection Hj as <-. eauto.
  - apply inv_stale. by eapply delivered_inv.
Qed.

Lemma step_inv s t : inv t -> inv (step conf calculateTransactionHash s t).
Proof.
  intros Hinv. destruct s as [tIn now|k os now|newPtx|status]; cbn [step].
  - destruct (hoare_run _ _ _ t (pass_spec tIn now) Hinv) as (t' & r & E & Hr). by rewrite E.
  - by apply runAsync_inv.
  - by apply (inv_frame (fun t => t <| it_updates ::= _ |>)).
  - unfold NotifyStatusUpdate, mbind, M_bind, gets. cbn [fst]. destruct (IsReadyToExit _ && _); [done|]. destruct Hinv as [V1 V2 V3 V4]. constructor; try done.
    intros g gn Hg. destruct (V2 g gn Hg) as [Ha Hb]. split; [done|]. by intros E.
Qed.

Lemma steps_inv l t : inv t -> inv (steps conf calculateTransactionHash l t).
Proof. revert t. induction l as [|s l IH]; intros t Hinv; [done|]. by apply IH, step_inv. Qed.

Lemma new_inv ptx privateTXID now t : NewInFlightTransactionStageController ptx privateTXID now = Ok t -> inv t.
Proof.
  unfold NewInFlightTransactionStageController. destruct (px_Nonce ptx); [|done]. intros [= <-]. constructor; try done.
  intros g gn Hg. destruct g as [|g]; [|by destruct g]. injection Hg as <-. done.
Qed.

(** ** What they keep to *)

(** (C19) Whatever becomes of a transaction from when it is put in flight (passes of the orchestrator,
    steps of goroutines of any of its generations, updates and status changes, in any order, with any
    failures), every message that goes to the chain is a signed one that was sent with its own hash,
    and a submission with that hash is in the database. *)
Theorem sent_is_recorded ptx privateTXID now t0 l message hash :
  NewInFlightTransactionStageController ptx privateTXID now = Ok t0 ->
  let t := steps conf calculateTransactionHash l t0 in
  (message, hash) ∈ it_sent t ->
  exists m s, message = Some m /\ hash = calculateTransactionHash m /\ s ∈ it_public_submissions t /\ sb_TransactionHash s = hash.
Proof.
  intros Hnew t Hsent. pose proof (inv_sent _ (steps_inv l t0 (new_inv _ _ _ _ Hnew))) as H. rewrite Forall_forall in H. destruct (H _ Hsent) as (m & E1 & E2 & Hin).
  apply list_elem_of_fmap in Hin as (s & Es & Hs). exists m, s. done.
Qed.

(** After any of that, a pass of the orchestrator returns: none of the outputs it may find
    dereferences what is not there.  And each generation has at most one goroutine or unread output. *)
Theorem pass_never_panics ptx privateTXID now t0 l tIn now' :
  NewInFlightTransactionStageController ptx privateTXID now = Ok t0 ->
  let t := steps conf calculateTransactionHash l t0 in
  (exists r, (ProduceLatestInFlightStageContext conf tIn now' t).2 = Ok r) /\
  forall g gn, it_generations t !! g = Some gn -> length (goroutines t g) + length (gn_bufferedStageOutputs gn) <= 1.
Proof.
  intros Hnew t. pose proof (steps_inv l t0 (new_inv _ _ _ _ Hnew)) as Hinv. split.
  - destruct (hoare_run _ _ _ t (pass_spec tIn now') Hinv) as (t' & r & E & _). exists r. by rewrite E.
  - intros g gn Hg. destruct (inv_gens _ Hinv g gn Hg) as [(_ & _ & Hok) _]. subst t.
    destruct (goroutines _ g) as [|k1 [|]], (gn_bufferedStageOutputs gn) as [|o1 [|]]; cbn in *; try lia; done.
Qed.
End Safety.
