(* ===== verification/PubTxRuns.v ===== *)
(** * Public transactions: runs

    A transaction from when it is put in flight to its submission, when nothing goes wrong; and one that
    no pass submits, since a hash was recorded for it and no submission.  With concrete runs, which are
    the witnesses of the theorems of PubTxSafety too.

    Source: core/go/internal/publictxmgr, as in PubTxStages. *)

From S2P Require Import Prelude PubTxGas PubTxStages PubTxSafety.
Open Scope string_scope.
Open Scope list_scope.

Section Runs.
Context (conf : OrchestratorConf) (calculateTransactionHash : string -> string).

(** A pass, and the goroutine that it starts. *)
Definition turn (ctx : OrchestratorContext) (os : Outside) (now : Z) : list stageStep := [StepPass ctx now; StepAsync 0 os now].
Definition turns (k : nat) (ctx : OrchestratorContext) (os : Outside) (now : Z) : list stageStep := concat (replicate k (turn ctx os now)) ++ [StepPass ctx now].

(** ** Waiting *)

(** A stage is running that has not failed, with no output yet, and no update is queued. *)
Record waiting (t : InFlightTx) : Prop := {
  wt_updates : it_updates t = [];
  wt_stage : exists gn i rsc, last (it_generations t) = Some gn /\ gn_runningStageContext gn = Some i /\ gn_contexts gn !! i = Some rsc /\
    rc_StageErrored rsc = false /\ gn_stageTriggerError gn = None /\ gn_bufferedStageOutputs gn = [] }.

Lemma last_current t gn : last (it_generations t) = Some gn -> exists g, length (it_generations t) = S g /\ it_generations t !! g = Some gn.
Proof.
  intros H. rewrite last_lookup in H. exists (pred (length (it_generations t))). split; [|done]. apply lookup_lt_Some in H. lia.
Qed.

(** A pass leaves it as it is. *)
Lemma waiting_pass t ctx now : waiting t -> step conf calculateTransactionHash (StepPass ctx now) t = t <| it_orchestratorContext := Some ctx |>.
Proof.
  intros [Hu (gn & i & rsc & Hl & Hr & Hi & He & Hte & Hb)]. destruct (last_current t gn Hl) as (g & Elen & Eg).
  assert (E0 : applyQueuedUpdates now t = (t, Ok tt)).
  { unfold applyQueuedUpdates, mbind, M_bind, gets, modify. rewrite Hu. destruct t. cbn in *. by subst. }
  set (t1 := t <| it_orchestratorContext := Some ctx |>).
  assert (Ectx : getCtx g i t1 = (t1, Ok rsc)) by (unfold getCtx, getGen, mbind, M_bind; change (it_generations t1) with (it_generations t); rewrite Eg; by rewrite Hi).
  assert (Eupd : updGen g (fun gn => gn <| gn_bufferedStageOutputs := [] |>) t1 = (t1, Ok tt)).
  { unfold updGen, modify. f_equal. assert (Ea : alter (fun gn => gn <| gn_bufferedStageOutputs := [] |>) g (it_generations t) = it_generations t).
    { apply list_eq. intros k. rewrite list_lookup_alter. destruct (decide (g = k)) as [->|]; [|done]. rewrite Eg. cbn. f_equal. destruct gn. cbn in Hb. by rewrite Hb. }
    transitivity (t1 <| it_generations := alter (fun gn => gn <| gn_bufferedStageOutputs := [] |>) g (it_generations t) |>); [done|]. rewrite Ea. by destruct t. }
  assert (E1 : processCurrentGenerationStageOutputs conf now t1 = (t1, Ok None)).
  { unfold processCurrentGenerationStageOutputs. rewrite (run_current t1 g gn) by done. rewrite Hr, Hte. cbn [isSome]. rewrite (bind_ok _ _ _ _ _ Ectx), Hb.
    cbn [processOutputs]. rewrite (bind_ok _ _ t1 t1 ([], None)) by done. cbn [fst snd]. rewrite (bind_ok _ _ _ _ _ Eupd), (bind_ok _ _ _ _ _ Ectx), He. done. }
  cbn [step]. unfold ProduceLatestInFlightStageContext. rewrite (bind_ok _ _ _ _ _ E0). rewrite (bind_ok _ _ t t1 tt) by done. rewrite (bind_ok _ _ _ _ _ E1).
  rewrite (bind_ok _ _ t1 t1 (costOf (it_mtx t1))) by done. rewrite (run_current t1 g gn) by done. by rewrite Hr.
Qed.

Definition passes (l : list (OrchestratorContext * Z)) : list stageStep := (fun p => StepPass p.1 p.2) <$> l.

Lemma waiting_passes l t : waiting t -> is_Some (it_orchestratorContext t) ->
  exists ctx, steps conf calculateTransactionHash (passes l) t = t <| it_orchestratorContext := Some ctx |>.
Proof.
  revert t. induction l as [|[ctx now] l IH]; intros t Hw [ctx0 E]; [exists ctx0; destruct t; cbn in *; by rewrite E|].
  cbn [passes fmap list_fmap steps foldl fst snd]. rewrite (waiting_pass t ctx now Hw).
  destruct (IH (t <| it_orchestratorContext := Some ctx |>)) as [ctx' E']; [destruct Hw as [H1 H2]; split; [exact H1|exact H2]|done|]. exists ctx'. unfold steps, passes in E'. by rewrite E'.
Qed.

(** ** From new to submitted *)

(** A pass that starts a goroutine, passes while it runs, and its end. *)
Record Turn : Type := MkTurn { tn_ctx : OrchestratorContext; tn_now : Z; tn_waits : list (OrchestratorContext * Z); tn_end : Z }.

Definition turnSteps (os : Outside) (n : Turn) : list stageStep := StepPass (tn_ctx n) (tn_now n) :: passes (tn_waits n) ++ [StepAsync 0 os (tn_end n)].

Lemma steps_turn os n rest t :
  waiting (step conf calculateTransactionHash (StepPass (tn_ctx n) (tn_now n)) t) ->
  is_Some (it_orchestratorContext (step conf calculateTransactionHash (StepPass (tn_ctx n) (tn_now n)) t)) ->
  exists ctx, steps conf calculateTransactionHash (turnSteps os n ++ rest) t =
    steps conf calculateTransactionHash rest (step conf calculateTransactionHash (StepAsync 0 os (tn_end n))
      ((step conf calculateTransactionHash (StepPass (tn_ctx n) (tn_now n)) t) <| it_orchestratorContext := Some ctx |>)).
Proof.
  intros Hw Hs. destruct (waiting_passes (tn_waits n) _ Hw Hs) as [ctx E]. exists ctx. unfold turnSteps, steps in *. rewrite <- app_comm_cons. cbn [foldl].
  rewrite <- app_assoc, foldl_app, E. done.
Qed.
(** A computation of a step, up to what it takes from outside. *)
Ltac stepped u :=
  eval cbv -[GetGasPriceObject GetTransactionFixedGasPrice CanSubmit addActivityRecord MapError oc_resubmitInterval Z.ltb Z.leb Z.sub Z.mul String.eqb
    tn_ctx tn_now tn_end calculateTransactionHash] in u.

(** The next turn of a schedule: its first pass is computed, with [facts], and then the goroutine. *)
Ltac turned facts :=
  match goal with
  | |- context [steps ?c ?h (turnSteps ?os ?n ++ ?rest) ?t] =>
      let E := fresh "E" in let ctx := fresh "ctx" in let Hs := fresh "Hs" in
      let u := constr:(step c h (StepPass (tn_ctx n) (tn_now n)) t) in let v := stepped u in
      assert (E : u = v) by reflexivity; facts E;
      destruct (steps_turn os n rest t) as [ctx Hs];
      [rewrite E; split; [reflexivity|do 3 eexists; split_and!; reflexivity]|rewrite E; eexists; reflexivity|];
      rewrite E in Hs; rewrite Hs; clear E Hs;
      match goal with |- context [step c h (StepAsync 0 os (tn_end n)) ?t'] =>
        let u := constr:(step c h (StepAsync 0 os (tn_end n)) t') in let v := stepped u in change u with v end
  end.

(** The pass after the last turn. *)
Ltac rest_from Hsince :=
  match goal with |- context [steps ?c ?h [?p] ?t] => let u := constr:(steps c h [p] t) in let v := stepped u in change u with v end;
  rewrite Hsince; cbv beta iota zeta; cbn; eauto 10.

(** (C29) A transaction that is put in flight and has not been submitted before is submitted once its
    goroutines have run, when the price, the signature, the database and the chain answer, and the same
    throughout.  The schedule is made of turns: a pass that starts a goroutine, any number of further
    passes while it runs, and its end, at any times and with any funds, only that the pass that starts
    the signing lets the gas be spent.  After six turns and one more pass within the resubmit interval of
    the submission, one message has been sent, its hash and price are in the database, and the
    transaction is idle with that hash. *)
Theorem fresh_transaction_submits ptx privateTXID t0 now0 os t1 t2 t3 t4 t5 t6 ctx now fee priority message :
  px_Submissions ptx = [] -> NewInFlightTransactionStageController ptx privateTXID now0 = Ok t0 ->
  os_stopped os = false -> os_flush os = None ->
  (GetGasPriceObject (os_gasPriceClient os) (os_oracle os) (os_feeHistory os) (GetTransactionFixedGasPrice (it_mtx t0)) (Some noGasPricing) false).2
    = Ok (MkGasPricing (Some fee) (Some priority)) ->
  os_sign os (px_From ptx) (BuildEthTX ((it_mtx t0) <| mt_CurrentGasPrice := MkGasPricing (Some fee) (Some priority) |>)) = Ok message ->
  os_send os = SendOk None \/ os_send os = SendOk (Some (calculateTransactionHash message)) ->
  CanSubmit (Some (fee * px_Gas ptx)%Z) (tn_ctx t3) = true -> (now - tn_end t5 <= oc_resubmitInterval conf)%Z ->
  let t := steps conf calculateTransactionHash (mjoin (turnSteps os <$> [t1; t2; t3; t4; t5; t6]) ++ [StepPass ctx now]) t0 in
  it_sent t = [(Some message, calculateTransactionHash message)] /\
  (exists s, it_public_submissions t = [s] /\ sb_TransactionHash s = calculateTransactionHash message /\ sb_PublicTxnID s = px_PublicTxnID ptx /\
     sb_GasPricing s = Some (MkGasPricing (Some fee) (Some priority))) /\
  mt_TransactionHash (it_mtx t) = Some (calculateTransactionHash message) /\ mt_FirstSubmit (it_mtx t) = Some (tn_end t5) /\
  mt_LastSubmit (it_mtx t) = Some (tn_end t5) /\ it_async t = [].
Proof.
  intros Hs Hnew Hstop Hflush Hgas Hsign Hsend Hcan Hint.
  unfold NewInFlightTransactionStageController, NewInMemoryTxState in Hnew. destruct ptx as [id from nonce created to gas fixed value data susp disp compl subs binding].
  cbn in Hs, Hcan, Hnew. subst subs. destruct nonce as [nonce|]; [|discriminate]. injection Hnew as <-. cbn [it_mtx] in Hgas, Hsign.
  destruct os as [st gc orc fh sg sd fl]. cbn in Hstop, Hflush, Hgas, Hsign, Hsend. subst.
  cbv -[GetGasPriceObject GetTransactionFixedGasPrice] in Hgas. cbv in Hsign.
  set (os := MkOutside _ _ _ _ _ _ _). cbv zeta.
  assert (El : mjoin (turnSteps os <$> [t1; t2; t3; t4; t5; t6]) ++ [StepPass ctx now]
    = turnSteps os t1 ++ turnSteps os t2 ++ turnSteps os t3 ++ turnSteps os t4 ++ turnSteps os t5 ++ turnSteps os t6 ++ [StepPass ctx now]) by (cbn [mjoin list_join fmap list_fmap]; by rewrite app_nil_r, <- !app_assoc).
  rewrite El. clear El.
  turned ltac:(fun E => idtac). rewrite Hgas. cbv beta iota zeta.
  turned ltac:(fun E => idtac).
  turned ltac:(fun E => rewrite Hcan in E; cbv beta iota zeta in E). rewrite Hsign. cbv beta iota zeta.
  turned ltac:(fun E => idtac).
  assert (Hsince : (oc_resubmitInterval conf <? now - tn_end t5)%Z = false) by (apply Z.ltb_ge; lia).
  destruct Hsend as [-> | ->]; (turned ltac:(fun E => idtac)); rewrite ?String.eqb_refl; cbv beta iota zeta; (turned ltac:(fun E => idtac)); rest_from Hsince.
Qed.

(** A transaction that is tracked: it has a price and a hash, and nothing is under way or asked for. *)
Definition tracked (t : InFlightTx) : Prop :=
  it_updates t = [] /\ it_newStatus t = None /\ (exists gn, last (it_generations t) = Some gn /\ gn_runningStageContext gn = None) /\
  mt_InFlightStatus (it_mtx t) = InFlightStatusPending /\ gasPricingSet (mt_CurrentGasPrice (it_mtx t)) = true /\ isSome (mt_TransactionHash (it_mtx t)) = true.

Lemma tracked_pass t ctx now :
  tracked t -> mt_LastSubmit (it_mtx t) = None -> (ProduceLatestInFlightStageContext conf ctx now t).1 = t <| it_orchestratorContext := Some ctx |>.
Proof.
  intros (Hu & Hn & (gn & Hl & Hr) & Hst & Hg & Hh) Hsub. destruct (last_current t gn Hl) as (g & Elen & Eg).
  assert (E0 : applyQueuedUpdates now t = (t, Ok tt)).
  { unfold applyQueuedUpdates, mbind, M_bind, gets, modify. rewrite Hu. destruct t. cbn in *. by subst. }
  set (t1 := t <| it_orchestratorContext := Some ctx |>).
  assert (E1 : processCurrentGenerationStageOutputs conf now t1 = (t1, Ok None)) by (unfold processCurrentGenerationStageOutputs; rewrite (run_current t1 g gn) by done; by rewrite Hr).
  assert (E2 : forall cost, startNewStage conf cost now t1 = (t1, Ok tt)).
  { intros cost. unfold startNewStage, mbind, M_bind, gets. cbn. rewrite Hn. unfold IsReadyToExit, GetGasPriceObject_. rewrite Hst, Hg, Hsub. cbn.
    by destruct (mt_TransactionHash (it_mtx t)). }
  unfold ProduceLatestInFlightStageContext. rewrite (bind_ok _ _ _ _ _ E0). rewrite (bind_ok _ _ t t1 tt) by done. rewrite (bind_ok _ _ _ _ _ E1).
  rewrite (bind_ok _ _ t1 t1 (costOf (it_mtx t1))) by done. rewrite (run_current t1 g gn) by done. rewrite Hr. cbn [isSome negb when].
  by rewrite (bind_ok _ _ _ _ _ (E2 _)).
Qed.

(** (C32) A transaction that is at rest is not submitted by any number of passes, however much time goes
    by, when it has a hash and no time of submission: they start nothing and leave all but the
    orchestrator's context as it is. At rest is a transaction that is pending, has its price, and for
    which no stage is running, no update is queued and no status asked for. *)
Theorem unsubmitted_hash_stalls t l :
  tracked t -> mt_LastSubmit (it_mtx t) = None ->
  let t' := steps conf calculateTransactionHash (passes l) t in
  it_mtx t' = it_mtx t /\ it_generations t' = it_generations t /\ it_async t' = it_async t /\ it_sent t' = it_sent t.
Proof.
  revert t. induction l as [|[ctx now] l IH]; intros t Ht Hsub; [done|]. cbn [passes fmap list_fmap steps foldl step fst snd].
  rewrite (tracked_pass t ctx now Ht Hsub). set (t1 := t <| it_orchestratorContext := Some ctx |>). exact (IH t1 Ht Hsub).
Qed.
End Runs.

(** ** Concrete runs *)

Definition sampleConf : OrchestratorConf := MkOrchestratorConf 100 10 5 3 10.
Definition sampleHash (message : string) : string := ("hash of " ++ message)%string.
Definition samplePtx : DBPublicTxn :=
  MkPublicTxn 1 "0xa1" (Some 7%Z) 0 (Some "0xb2") 21000 None None "0xfeedbeef" false "" false [] (Some (MkBinding 9%N "private" "alice@node1" "0xc3")).
Definition sampleOutside : Outside :=
  MkOutside false (MkGasPriceClient false (Some (MkGasPricing (Some 50%Z) (Some 5%Z))) None None 10 false 2 true None) (Err MsgContextCanceled) (Err MsgContextCanceled)
    (fun from tx => Ok ("signed " ++ ex_Data tx)%string) (SendOk None) None.
Definition sampleFunds : OrchestratorContext := MkOrchestratorContext (Some 2000000%Z) false.
Definition sampleTx : InFlightTx :=
  match NewInFlightTransactionStageController samplePtx 9%N 0 with Ok t => t | _ => MkInFlightTx (NewInMemoryTxState samplePtx) [] None None [] 9%N [] [] [] [] [] false false end.

(** Each goroutine is overtaken by two passes. *)
Definition slowTurn (now : Z) : Turn := MkTurn sampleFunds now [(sampleFunds, (now + 1)%Z); (MkOrchestratorContext (Some 0%Z) true, (now + 2)%Z)] (now + 3).

Lemma fresh_transaction_submits_witness :
  it_sent (steps sampleConf sampleHash (mjoin (turnSteps sampleOutside <$> [slowTurn 0; slowTurn 10; slowTurn 20; slowTurn 30; slowTurn 40; slowTurn 50]) ++ [StepPass sampleFunds 60]) sampleTx)
    = [(Some "signed 0xfeedbeef", "hash of signed 0xfeedbeef")].
Proof.
  apply (fresh_transaction_submits sampleConf sampleHash samplePtx 9%N sampleTx 0 sampleOutside (slowTurn 0) (slowTurn 10) (slowTurn 20) (slowTurn 30) (slowTurn 40) (slowTurn 50)
           sampleFunds 60 50 5 "signed 0xfeedbeef");
    [reflexivity|reflexivity|reflexivity|reflexivity|reflexivity|reflexivity|left; reflexivity|reflexivity|cbn; lia].
Defined.

(** Signed, sent and persisted, with the chain's answer lost and asked for again. *)
Definition sampleRun : list stageStep := turns 6 sampleFunds sampleOutside 0 ++ [StepPass sampleFunds 200] ++ turns 6 sampleFunds sampleOutside 201.

Lemma sent_is_recorded_witness :
  exists s, s ∈ it_public_submissions (steps sampleConf sampleHash sampleRun sampleTx) /\ sb_TransactionHash s = "hash of signed 0xfeedbeef".
Proof.
  destruct (sent_is_recorded sampleConf sampleHash samplePtx 9%N 0 sampleTx sampleRun (Some "signed 0xfeedbeef") "hash of signed 0xfeedbeef") as (m & s & _ & _ & Hs & E);
    [reflexivity| |by exists s].
  vm_compute. left.
Defined.

Lemma pass_never_panics_witness : exists r, (ProduceLatestInFlightStageContext sampleConf sampleFunds 500 (steps sampleConf sampleHash sampleRun sampleTx)).2 = Ok r.
Proof. apply (pass_never_panics sampleConf sampleHash samplePtx 9%N 0 sampleTx sampleRun sampleFunds 500). reflexivity. Defined.

(** The transaction is updated while the hash of its first version is being recorded, which comes after
    the price of the second was. *)
Definition sampleOvertaken : list stageStep :=
  turn sampleFunds sampleOutside 0 ++ turn sampleFunds sampleOutside 0 ++ turn sampleFunds sampleOutside 0 ++
  [StepPass sampleFunds 1; StepUpdate (samplePtx <| px_Data := "0xcafe" |>);
   StepPass sampleFunds 2; StepAsync 1 sampleOutside 2; StepPass sampleFunds 3; StepAsync 1 sampleOutside 3; StepAsync 0 sampleOutside 4; StepPass sampleFunds 5].

Lemma unsubmitted_hash_stalls_witness :
  let t := steps sampleConf sampleHash sampleOvertaken sampleTx in
  mt_TransactionHash (it_mtx t) = Some "hash of signed 0xfeedbeef" /\ it_async t = [] /\
  it_sent (steps sampleConf sampleHash [StepPass sampleFunds 1000; StepPass sampleFunds 1000000] t) = [].
Proof.
  assert (Ht : tracked (steps sampleConf sampleHash sampleOvertaken sampleTx)).
  { split; [vm_compute; reflexivity|]. split; [vm_compute; reflexivity|]. split; [|vm_compute; auto]. vm_compute. eexists. split; reflexivity. }
  destruct (unsubmitted_hash_stalls sampleConf sampleHash (steps sampleConf sampleHash sampleOvertaken sampleTx) [(sampleFunds, 1000%Z); (sampleFunds, 1000000%Z)] Ht) as (_ & _ & _ & E);
    [vm_compute; reflexivity|].
  split; [vm_compute; reflexivity|]. split; [vm_compute; reflexivity|]. etransitivity; [exact E|]. vm_compute. reflexivity.
Defined.
