(* ===== verification/PubTxOrchestrator.v ===== *)
(** * Public transactions: the orchestrator of a signing address

    The tables of public transactions, and the orchestrator that gives the transactions of one address
    their nonces, keeps some of them in flight and lets each have its pass (PubTxStages), with what it
    may spend.  [Orchestrator] is its memory with the tables; the transactions that left the list are
    kept, as their goroutines may still run.  Each iteration of the loop is one step, and so is what
    comes from outside it; the retries of an iteration go on until what they need is there or the
    context is cancelled, so that a list of answers that ends stands for the cancellation.  The
    submissions of a transaction in flight are in its own memory and copied to the table by the step
    that writes them.  The new values of an updated transaction reach the one in flight; that they are
    written to its row is left out.

    Sources: core/go/internal/publictxmgr/transaction_orchestrator.go, dispatch_action.go,
    persisted_pub_txs.go, types.go, and of transaction_manager.go [WriteNewTransactions],
    [runTransactionQuery], [MatchUpdateConfirmedTransactions] and [NotifyConfirmPersisted]. *)

From S2P Require Import Prelude PubTxGas PubTxStages.
From stdpp Require Import sorting.
Open Scope string_scope.
Open Scope list_scope.

(** ** Data *)

Inductive OrchestratorState : Type :=
| OrchestratorStateNew | OrchestratorStateRunning | OrchestratorStateWaiting | OrchestratorStateStale | OrchestratorStateIdle | OrchestratorStatePaused
| OrchestratorStateStopped.
#[export] Instance OrchestratorState_eq_dec : EqDecision OrchestratorState.
Proof. solve_decision. Defined.

Inductive UnavailableBalanceHandlingStrategy : Type := StrategyStop | StrategyWait | StrategyContinue.

Inductive AsyncRequestType : Type := ActionSuspend | ActionResume | ActionCompleted.

Record DBPublicTxnCompletion : Type := MkCompletion { cm_PublicTxnID : N; cm_TransactionHash : string; cm_Success : bool; cm_RevertData : string }.

(** The tables; a row of [public_txns] has its binding, and its submissions are in their own table. *)
Record PubDB : Type := MkPubDB {
  db_public_txns : list DBPublicTxn; db_public_submissions : list DBPubTxnSubmission; db_public_completions : list DBPublicTxnCompletion }.
#[export] Instance PubDB_rebuild : Rebuild PubDB := fun d => MkPubDB (db_public_txns d) (db_public_submissions d) (db_public_completions d).

Record AddressAccount : Type := MkAddressAccount { aa_Balance : Z; aa_SpentTransactionCount : nat; aa_MinCost : Z; aa_MaxCost : Z; aa_Spent : Z }.
#[export] Instance AddressAccount_rebuild : Rebuild AddressAccount := fun a =>
  MkAddressAccount (aa_Balance a) (aa_SpentTransactionCount a) (aa_MinCost a) (aa_MaxCost a) (aa_Spent a).

Record PoolConf : Type := MkPoolConf {
  pc_signingAddress : string; pc_nodeName : string; pc_maxInFlightTxs : nat; pc_hasZeroGasPrice : bool; pc_strategy : UnavailableBalanceHandlingStrategy;
  pc_nonceCacheTimeout : Z; pc_staleTimeout : Z; pc_orchestratorIdleTimeout : Z; pc_orchestratorStaleTimeout : Z }.

(** The zero time is [None]. *)
Record Orchestrator : Type := MkOrchestrator {
  ot_db : PubDB; ot_nextNonce : option Z; ot_lastNonceAlloc : option Z; ot_inFlightTxs : list InFlightTx; ot_exited : list InFlightTx; ot_totalCompleted : nat;
  ot_state : OrchestratorState; ot_stateEntryTime : Z; ot_lastQueueUpdate : option Z; ot_updates : list (N * DBPublicTxn); ot_stopped : bool;
  ot_retrieveBalance : bool; ot_collected : list uuid; ot_nonceAssigned : list (uuid * Z) }.
#[export] Instance Orchestrator_rebuild : Rebuild Orchestrator := fun o =>
  MkOrchestrator (ot_db o) (ot_nextNonce o) (ot_lastNonceAlloc o) (ot_inFlightTxs o) (ot_exited o) (ot_totalCompleted o) (ot_state o) (ot_stateEntryTime o)
    (ot_lastQueueUpdate o) (ot_updates o) (ot_stopped o) (ot_retrieveBalance o) (ot_collected o) (ot_nonceAssigned o).

(** What an iteration of the loop finds outside: whether its query is answered, the answers to each
    attempt at nonces (the chain's count and the database's), and the balance. *)
Record PollAnswers : Type := MkPollAnswers { pa_query : bool; pa_nonces : list ((error + Z) * option error); pa_balance : error + Z }.

(** ** The account *)

Definition NewAddressAccount (balance : Z) : AddressAccount := MkAddressAccount balance 0 0 0 0.
Definition GetAvailableToSpend (a : AddressAccount) : Z := (aa_Balance a - aa_Spent a)%Z.

Definition Spend (cost : Z) (a : AddressAccount) : AddressAccount :=
  if (0 <? cost)%Z then
    a <| aa_Spent := (aa_Spent a + cost)%Z |>
      <| aa_MinCost := if (aa_MinCost a =? 0)%Z || (cost <? aa_MinCost a)%Z then cost else aa_MinCost a |>
      <| aa_MaxCost := if (aa_MaxCost a =? 0)%Z || (aa_MaxCost a <? cost)%Z then cost else aa_MaxCost a |>
      <| aa_SpentTransactionCount := S (aa_SpentTransactionCount a) |>
  else a.

(** [if err != nil { ... }] *)
Definition caught {W A B} (m : M W A) (failed : error -> M W B) (k : A -> M W B) : M W B := fun w =>
  match m w with (w', Ok a) => k a w' | (w', Err e) => failed e w' | (w', Crash c) => (w', Crash c) end.

Section Orchestrator.
Context (pool : PoolConf) (conf : OrchestratorConf) (calculateTransactionHash : string -> string).

Definition sinceExceeds (now : Z) (time : option Z) (timeout : Z) : bool := match time with Some t => (timeout <? now - t)%Z | None => true end.

Definition setState (s : OrchestratorState) (now : Z) : M Orchestrator unit := modify (fun o => o <| ot_state := s |> <| ot_stateEntryTime := now |>).

(** ** Queries *)

(** [dispatcher = ? OR dispatcher = ''] of the address' own transactions. *)
Definition mine (r : DBPublicTxn) : bool := String.eqb (px_From r) (pc_signingAddress pool) && (String.eqb (px_Dispatcher r) (pc_nodeName pool) || String.eqb (px_Dispatcher r) "").

Definition byID (r1 r2 : DBPublicTxn) : Prop := (px_PublicTxnID r1 <= px_PublicTxnID r2)%N.
#[export] Instance byID_dec r1 r2 : Decision (byID r1 r2) := N.le_dec _ _.
Definition newestFirst (s1 s2 : DBPubTxnSubmission) : Prop := (sb_Created s2 <= sb_Created s1)%Z.
#[export] Instance newestFirst_dec s1 s2 : Decision (newestFirst s1 s2) := Z.le_dec _ _.

Definition getTransactionSubmissions (db : PubDB) (pubTxnID : N) : list DBPubTxnSubmission :=
  merge_sort newestFirst (List.filter (fun s => N.eqb (sb_PublicTxnID s) pubTxnID) (db_public_submissions db)).

Definition runTransactionQuery (db : PubDB) (rows : list DBPublicTxn) : list DBPublicTxn :=
  (fun r => r <| px_Submissions := getTransactionSubmissions db (px_PublicTxnID r) |>) <$> rows.

(** The rows to be put in flight: not those up to the highest nonce of the list that is. *)
Definition pending (above : option Z) (r : DBPublicTxn) : bool :=
  negb (px_Completed r) && negb (px_Suspended r) && mine r &&
  match above, px_Nonce r with Some highest, Some nonce => (highest <? nonce)%Z | _, _ => true end.

Definition pollQuery (above : option Z) (spaces : nat) (db : PubDB) : list DBPublicTxn :=
  runTransactionQuery db (take spaces (merge_sort byID (List.filter (pending above) (db_public_txns db)))).

(** ** Nonces *)

Definition maxNonce (l : list Z) : option Z := match l with [] => None | n :: l => Some (foldl Z.max n l) end.

Definition initNextNonceFromDB (err : option error) : M Orchestrator unit :=
  o ← gets (fun o => o);
  match err with
  | Some e => throw e
  | None =>
      match maxNonce (omap px_Nonce (List.filter mine (db_public_txns (ot_db o)))) with
      | None => mret tt
      | Some highest => modify (fun o => o <| ot_nextNonce := Some (u64_add highest 1) |>)
      end
  end.

Fixpoint noncesFrom (next : Z) (k : nat) : list Z := match k with 0 => [] | S k => next :: noncesFrom (u64_add next 1) k end.
Definition nonceAfter (next : Z) (k : nat) : Z := Nat.iter k (fun n => u64_add n 1) next.

Definition toAllocate (txns : list DBPublicTxn) : list DBPublicTxn := List.filter (fun r => negb (isSome (px_Nonce r))) txns.

Definition setNonce (allocated : list (N * Z)) (r : DBPublicTxn) : DBPublicTxn :=
  match List.find (fun p => N.eqb p.1 (px_PublicTxnID r)) allocated with Some p => r <| px_Nonce := Some p.2 |> | None => r end.

(** The transactions come back with their nonces. *)
Definition allocateNonces (txns : list DBPublicTxn) (answers : (error + Z) * option error) (now : Z) : M Orchestrator (list DBPublicTxn) :=
  match toAllocate txns with
  | [] => mret txns
  | toAlloc =>
      o ← gets (fun o => o);
      when (negb (isSome (ot_nextNonce o)) || sinceExceeds now (ot_lastNonceAlloc o) (pc_nonceCacheTimeout pool))
        (match answers.1 with
         | inl e => throw e
         | inr txCount =>
             if match ot_nextNonce o with Some next => (txCount <=? next)%Z | None => false end then mret tt
             else modify (fun o => o <| ot_nextNonce := Some txCount |>)
         end) ≫= fun _ =>
      o ← gets (fun o => o);
      match ot_nextNonce o with
      | None => crashM Panic
      | Some next =>
          match answers.2 with
          | Some e => throw e
          | None =>
              let allocated := zip (px_PublicTxnID <$> toAlloc) (noncesFrom next (length toAlloc)) in
              modify (fun o => o <| ot_db ::= fun d => d <| db_public_txns ::= fmap (setNonce allocated) |> |>
                                 <| ot_lastNonceAlloc := Some now |> <| ot_nextNonce := Some (nonceAfter next (length toAlloc)) |>) ≫= fun _ =>
              mret (setNonce allocated <$> txns)
          end
      end
  end.

(** The retry around it: what fails is done again with the next answers. *)
Fixpoint allocateNoncesRetry (txns : list DBPublicTxn) (answers : list ((error + Z) * option error)) (now : Z) : M Orchestrator (list DBPublicTxn) :=
  match answers with
  | [] => match toAllocate txns with [] => mret txns | _ => throw MsgContextCanceled end
  | a :: answers => caught (allocateNonces txns a now) (fun _ => allocateNoncesRetry txns answers now) mret
  end.

(** ** Passes *)

(** The transactions after their passes, and whether the first is waiting for funds. *)
Fixpoint processEach (account : option AddressAccount) (previousNonceCostUnknown first : bool) (its : list InFlightTx) (now : Z) : res (list InFlightTx * bool) :=
  match its with
  | [] => Ok ([], false)
  | it :: its =>
      match ProduceLatestInFlightStageContext conf (MkOrchestratorContext (GetAvailableToSpend <$> account) previousNonceCostUnknown) now it with
      | (it', Ok output) =>
          let '(account', unknown', waiting) :=
            match account, to_Cost output with
            | None, _ => (None, previousNonceCostUnknown, false)
            | Some a, Some cost => let a := Spend cost a in (Some a, previousNonceCostUnknown, first && (GetAvailableToSpend a <? 0)%Z)
            | Some a, None => (Some a, true, false)
            end in
          match processEach account' unknown' false its now with
          | Ok (its', waiting') => Ok (it' :: its', waiting || waiting')
          | Err e => Err e
          | Crash c => Crash c
          end
      | (_, Err e) => Err e
      | (_, Crash c) => Crash c
      end
  end.

Definition Stop : M Orchestrator unit := modify (fun o => o <| ot_stopped := true |>).

(** [true] while there is no balance to go by. *)
Definition ProcessInFlightTransactions (balance : error + Z) (now : Z) : M Orchestrator bool :=
  let process account :=
    r ← liftR (fun o => processEach account false true (ot_inFlightTxs o) now);
    modify (fun o => o <| ot_inFlightTxs := r.1 |>) ≫= fun _ => mret r.2 in
  if pc_hasZeroGasPrice pool then process None
  else
    match balance with
    | inr b => process (Some (NewAddressAccount b))
    | inl _ =>
        match pc_strategy pool with
        | StrategyWait => mret true
        | StrategyStop => Stop ≫= fun _ => mret true
        | StrategyContinue => process None
        end
    end.

(** ** The loop *)

Definition nonceOf (it : InFlightTx) : Z := default 0%Z (px_Nonce (mt_ptx (it_mtx it))).
Definition CanBeRemoved (it : InFlightTx) : bool := IsReadyToExit (it_mtx it).

Definition handleUpdates : M Orchestrator unit :=
  updates ← gets ot_updates;
  modify (fun o => o <| ot_updates := [] |>) ≫= fun _ =>
  for_each updates (fun u =>
    its ← gets ot_inFlightTxs;
    match list_find (fun it => px_PublicTxnID (mt_ptx (it_mtx it)) = u.1) its with
    | Some (k, it) => modify (fun o => o <| ot_inFlightTxs ::= alter (fun it => (UpdateTransaction u.2 it).1) k |>)
    | None => mret tt
    end).

Definition boundToContract (tx : DBPublicTxn) : option DBPublicTxnBinding :=
  match px_Binding tx with Some b => if String.eqb (bd_ContractAddress b) "" then None else Some b | None => None end.

(** A transaction without a binding is not put in flight. *)
Fixpoint newInFlight (additional : list DBPublicTxn) (now : Z) : res (list InFlightTx) :=
  match additional with
  | [] => Ok []
  | ptx :: additional =>
      match px_Binding ptx with
      | None => newInFlight additional now
      | Some binding =>
          match NewInFlightTransactionStageController ptx (bd_Transaction binding) now with
          | Ok it => match newInFlight additional now with Ok l => Ok (it :: l) | r => r end
          | Err e => Err e
          | Crash c => Crash c
          end
      end
  end.

(** The list with what is new; an error is a context that was cancelled. *)
Definition pollNew (kept : list InFlightTx) (above : option Z) (answers : PollAnswers) (now : Z) : M Orchestrator (list InFlightTx) :=
  let spaces := pc_maxInFlightTxs pool - length kept in
  if (spaces =? 0)%nat then mret kept
  else if negb (pa_query answers) then throw MsgContextCanceled
  else
    additional ← gets (fun o => pollQuery above spaces (ot_db o));
    modify (fun o => o <| ot_collected ::= fun l => l ++ omap (fun tx => bd_Transaction <$> boundToContract tx) additional |>) ≫= fun _ =>
    additional ← allocateNoncesRetry additional (pa_nonces answers) now;
    modify (fun o => o <| ot_nonceAssigned ::= fun l =>
      l ++ omap (fun tx => b ← boundToContract tx; nonce ← px_Nonce tx; Some (bd_Transaction b, nonce)) additional |>) ≫= fun _ =>
    new ← liftR (fun _ => newInFlight additional now);
    mret (kept ++ new).

(** The state that a pass with transactions leaves. *)
Definition nextState (waitingForBalance : bool) (now : Z) : M Orchestrator unit :=
  o ← gets (fun o => o);
  let currentState := ot_state o in
  if sinceExceeds now (ot_lastQueueUpdate o) (pc_staleTimeout pool) && negb (bool_decide (currentState = OrchestratorStateStale)) then setState OrchestratorStateStale now
  else if waitingForBalance && negb (bool_decide (currentState = OrchestratorStateWaiting)) then setState OrchestratorStateWaiting now
  else if negb (bool_decide (currentState = OrchestratorStateRunning)) then setState OrchestratorStateRunning now
  else mret tt.

Definition pollAndProcess (answers : PollAnswers) (now : Z) : M Orchestrator (Z * nat) :=
  old ← gets ot_inFlightTxs;
  let kept := List.filter (fun it => negb (CanBeRemoved it)) old in
  let removed := List.filter CanBeRemoved old in
  let above := match kept with [] => None | _ => maxNonce (nonceOf <$> old) end in
  modify (fun o => o <| ot_totalCompleted ::= fun c => c + length removed |> <| ot_exited ::= fun l => l ++ removed |>) ≫= fun _ =>
  caught (pollNew kept above answers now)
    (fun _ => modify (fun o => o <| ot_inFlightTxs := kept |>) ≫= fun _ => mret ((if pa_query answers then 0 else -1)%Z, length kept))
    (fun newInFlight =>
       let queueUpdated := negb (length removed =? 0)%nat || negb (length newInFlight =? length kept)%nat in
       let total := length newInFlight in
       modify (fun o => o <| ot_inFlightTxs := newInFlight |>) ≫= fun _ =>
       (if negb (total =? 0)%nat then
          waitingForBalance ← ProcessInFlightTransactions (pa_balance answers) now;
          when queueUpdated (modify (fun o => o <| ot_lastQueueUpdate := Some now |>)) ≫= fun _ =>
          when waitingForBalance (modify (fun o => o <| ot_retrieveBalance := true |>)) ≫= fun _ =>
          nextState waitingForBalance now
        else
          state ← gets ot_state;
          when (negb (bool_decide (state = OrchestratorStateIdle))) (setState OrchestratorStateIdle now)) ≫= fun _ =>
       mret (Z.of_nat (total - length kept), total)).

(** ** Requests *)

Definition persistSuspendedFlag (nonce : Z) (suspended : bool) (err : option error) : M Orchestrator unit :=
  match err with
  | Some e => throw e
  | None => modify (fun o => o <| ot_db ::= fun d => d <| db_public_txns ::= fmap (fun r =>
      if mine r && bool_decide (px_Nonce r = Some nonce) then r <| px_Suspended := suspended |> else r) |> |>)
  end.

Definition notifyAt (k : nat) (status : InFlightStatus) : M Orchestrator (res bool) := fun o =>
  match ot_inFlightTxs o !! k with
  | None => (o, Crash Panic)
  | Some it => let r := NotifyStatusUpdate status it in (o <| ot_inFlightTxs ::= <[k := r.1]> |>, Ok r.2)
  end.

(** [dispatchAction] of the orchestrator. *)
Definition dispatchAction (nonce : Z) (action : AsyncRequestType) (err : option error) : M Orchestrator unit :=
  its ← gets ot_inFlightTxs;
  match list_find (fun it => px_Nonce (mt_ptx (it_mtx it)) = Some nonce) its with
  | None => mret tt
  | Some (k, _) =>
      match action with
      | ActionCompleted => r ← notifyAt k InFlightStatusConfirmReceived; match r with Ok _ => mret tt | Err e => throw e | Crash c => crashM c end
      | ActionResume => _ ← notifyAt k InFlightStatusPending; persistSuspendedFlag nonce false err
      | ActionSuspend => _ ← notifyAt k InFlightStatusSuspending; persistSuspendedFlag nonce true err
      end
  end.

Definition dispatchUpdate (pubTXID : N) (newPtx : DBPublicTxn) : M Orchestrator unit := modify (fun o => o <| ot_updates ::= fun l => l ++ [(pubTXID, newPtx)] |>).

(** ** Confirmations *)

Record IndexedTransactionNotify : Type := MkIndexed { ix_Hash : string; ix_From : string; ix_Nonce : Z; ix_Success : bool; ix_RevertReason : string }.
Record PublicTxMatch : Type := MkMatch { ma_TransactionID : uuid; ma_TransactionType : string; ma_TransactionSender : string; ma_TransactionContractAddress : string; ma_Notify : IndexedTransactionNotify }.

(** The bindings that go with a submission of one of the hashes. *)
Definition matchingSubmissions (db : PubDB) (hashes : list string) : list (DBPublicTxnBinding * DBPubTxnSubmission) :=
  concat ((fun r => match px_Binding r with
                    | None => []
                    | Some b => (fun s => (b, s)) <$> List.filter (fun s => N.eqb (sb_PublicTxnID s) (px_PublicTxnID r) && existsb (String.eqb (sb_TransactionHash s)) hashes) (db_public_submissions db)
                    end) <$> db_public_txns db).

Definition matchOf (lookups : list (DBPublicTxnBinding * DBPubTxnSubmission)) (txi : IndexedTransactionNotify) : option (PublicTxMatch * DBPublicTxnCompletion) :=
  match List.find (fun p => String.eqb (ix_Hash txi) (sb_TransactionHash p.2)) lookups with
  | None => None
  | Some (b, s) =>
      Some (MkMatch (bd_Transaction b) (bd_TransactionType b) (bd_Sender b) (bd_ContractAddress b) txi,
            MkCompletion (sb_PublicTxnID s) (ix_Hash txi) (ix_Success txi) (ix_RevertReason txi))
  end.

(** A completion of a transaction that has one is dropped. *)
Definition addCompletion (cs : list DBPublicTxnCompletion) (c : DBPublicTxnCompletion) : list DBPublicTxnCompletion :=
  if existsb (fun c' => N.eqb (cm_PublicTxnID c') (cm_PublicTxnID c)) cs then cs else cs ++ [c].

Definition MatchUpdateConfirmedTransactions (itxs : list IndexedTransactionNotify) (db : PubDB) : PubDB * list PublicTxMatch :=
  let lookups := matchingSubmissions db (ix_Hash <$> itxs) in
  let matched := omap (matchOf lookups) itxs in
  let completions := matched.*2 in
  (db <| db_public_completions ::= fun cs => foldl addCompletion cs completions |>
      <| db_public_txns ::= fmap (fun r => if existsb (fun c => N.eqb (cm_PublicTxnID c) (px_PublicTxnID r)) completions then r <| px_Completed := true |> else r) |>,
   matched.*1).

Definition NotifyConfirmPersisted (confirms : list PublicTxMatch) : M Orchestrator unit :=
  for_each confirms (fun c =>
    if String.eqb (ix_From (ma_Notify c)) (pc_signingAddress pool) then log_error (dispatchAction (ix_Nonce (ma_Notify c)) ActionCompleted None) else mret tt).

(** ** The engine *)

Definition NewOrchestrator (db : PubDB) (exited : list InFlightTx) (now : Z) : Orchestrator :=
  MkOrchestrator db None None [] exited 0 OrchestratorStateNew now None [] false false [] [].

(** What [flushStaleOrchestratorsGetCount] does with this orchestrator: one that has been idle or stale
    for too long is told to stop; [false] for one that has stopped, which is dropped. *)
Definition flushOrchestrator (now : Z) : M Orchestrator bool :=
  o ← gets (fun o => o);
  when (bool_decide (ot_state o = OrchestratorStateIdle) && (pc_orchestratorIdleTimeout pool <? now - ot_stateEntryTime o)%Z ||
        bool_decide (ot_state o = OrchestratorStateStale) && (pc_orchestratorStaleTimeout pool <? now - ot_stateEntryTime o)%Z) Stop ≫= fun _ =>
  mret (negb (bool_decide (ot_state o = OrchestratorStateStopped))).

(** A new transaction; the identifier is the database's, and one that is taken leaves all as it is. *)
Definition WriteNewTransaction (txi : DBPublicTxn) (db : PubDB) : PubDB :=
  if existsb (fun r => N.eqb (px_PublicTxnID r) (px_PublicTxnID txi)) (db_public_txns db) then db
  else db <| db_public_txns ::= fun l => l ++ [MkPublicTxn (px_PublicTxnID txi) (px_From txi) None (px_Created txi) (px_To txi) (px_Gas txi) (px_FixedGasPricing txi)
        (px_Value txi) (px_Data txi) false (pc_nodeName pool) false [] (px_Binding txi)] |>.

(** ** Steps *)

(** What can happen: an iteration of the loop, a step of a goroutine of a transaction that is in flight
    or was, a look of the engine, requests, new transactions, confirmations, and a new orchestrator for
    the address once all goroutines of this one are done. *)
Inductive poolStep : Type :=
| PoolIterate (answers : PollAnswers) (now : Z)
| PoolAsync (exited : bool) (k n : nat) (os : Outside) (now : Z)
| PoolFlush (now : Z)
| PoolDispatch (nonce : Z) (action : AsyncRequestType) (err : option error)
| PoolUpdate (pubTXID : N) (newPtx : DBPublicTxn)
| PoolInsert (txi : DBPublicTxn)
| PoolConfirm (itxs : list IndexedTransactionNotify)
| PoolRestart (now : Z).

(** The rows that a transaction has written, in the table, which has one row for each hash. *)
Definition addSubmission (subs : list DBPubTxnSubmission) (s : DBPubTxnSubmission) : list DBPubTxnSubmission :=
  if existsb (fun r => String.eqb (sb_TransactionHash r) (sb_TransactionHash s)) subs then subs else subs ++ [s].

Definition runAsyncAt (n : nat) (os : Outside) (now : Z) (its : list InFlightTx) (k : nat) (db : PubDB) : list InFlightTx * PubDB :=
  match its !! k with
  | None => (its, db)
  | Some it =>
      let it' := runAsync conf calculateTransactionHash n os now it in
      (<[k := it']> its, db <| db_public_submissions ::= fun l => foldl addSubmission l (drop (length (it_public_submissions it)) (it_public_submissions it')) |>)
  end.

Definition poolIterate (answers : PollAnswers) (now : Z) : M Orchestrator (Z * nat) := handleUpdates ≫= fun _ => pollAndProcess answers now.

Definition poolStepRun (s : poolStep) (o : Orchestrator) : Orchestrator :=
  match s with
  | PoolIterate answers now => (poolIterate answers now o).1
  | PoolAsync false k n os now => let r := runAsyncAt n os now (ot_inFlightTxs o) k (ot_db o) in o <| ot_inFlightTxs := r.1 |> <| ot_db := r.2 |>
  | PoolAsync true k n os now => let r := runAsyncAt n os now (ot_exited o) k (ot_db o) in o <| ot_exited := r.1 |> <| ot_db := r.2 |>
  | PoolFlush now => (flushOrchestrator now o).1
  | PoolDispatch nonce action err => (dispatchAction nonce action err o).1
  | PoolUpdate pubTXID newPtx => (dispatchUpdate pubTXID newPtx o).1
  | PoolInsert txi => o <| ot_db ::= WriteNewTransaction txi |>
  | PoolConfirm itxs =>
      let r := MatchUpdateConfirmedTransactions itxs (ot_db o) in (NotifyConfirmPersisted r.2 (o <| ot_db := r.1 |>)).1
  | PoolRestart now => (initNextNonceFromDB None (NewOrchestrator (ot_db o) (ot_exited o ++ ot_inFlightTxs o) now)).1
  end.

End Orchestrator.
