(* ===== verification/PubTxPool.v ===== *)
(** * Public transactions: what the orchestrator keeps to

    The invariant of an orchestrator over its runs: each transaction in flight has the invariant of
    PubTxSafety and is for a row of the table with its nonce, and the nonces of the table are distinct
    and below the next.  Here are the parts that this needs: what a pass leaves of a transaction, the
    outcomes of allocating nonces, and the updates; PubTxNonces puts them together.

    Source: core/go/internal/publictxmgr, as in PubTxOrchestrator. *)

From S2P Require Import Prelude PubTxGas PubTxStages PubTxSafety PubTxOrchestrator.
From stdpp Require Import sorting.
Open Scope string_scope.
Open Scope list_scope.

Section Pool.
Context (pool : PoolConf) (conf : OrchestratorConf) (calculateTransactionHash : string -> string).

(** ** Transactions *)

Notation txInv := (inv calculateTransactionHash).

Lemma processEach_inv account unknown first its now :
  Forall txInv its -> exists its' waiting, processEach conf account unknown first its now = Ok (its', waiting) /\ Forall txInv its'.
Proof.
  revert account unknown first. induction its as [|it its IH]; intros account unknown first H; [by exists [], false|].
  inversion_clear H as [|? ? Hit Hits]. cbn [processEach].
  destruct (hoare_run _ _ _ it (pass_spec conf calculateTransactionHash (MkOrchestratorContext (GetAvailableToSpend <$> account) unknown) now) Hit) as (it' & out & -> & Hit').
  destruct (match account with Some a => _ | None => _ end) as [[account' unknown'] waiting].
  destruct (IH account' unknown' false Hits) as (its' & waiting' & -> & Hits'). eauto.
Qed.

(** The row that a transaction in flight is for. *)
Definition txKey (it : InFlightTx) : N * option Z := (px_PublicTxnID (mt_ptx (it_mtx it)), px_Nonce (mt_ptx (it_mtx it))).
Definition sameKey (t t' : InFlightTx) : Prop := txKey t' = txKey t.
#[local] Instance sameKey_preorder : PreOrder sameKey.
Proof. split; [done|]. unfold sameKey. intros t1 t2 t3. congruence. Qed.

Lemma applyUpdates_ptx u m : mt_ptx (applyUpdates u m) = mt_ptx m.
Proof. unfold applyUpdates. repeat case_match; done. Qed.

Lemma apply_key u : respects sameKey (ApplyInMemoryUpdates u).
Proof. apply respects_modify. intros t. unfold sameKey, txKey. cbn. by rewrite applyUpdates_ptx. Qed.

Ltac key_go :=
  repeat first
    [ simple apply respects_ret; apply _ | simple apply respects_gets; apply _ | simple apply respects_crash; apply _ | simple apply respects_liftR; apply _
    | simple apply apply_key | simple apply respects_when; [apply _|] | simple apply respects_bind; [apply _| |intros ?] | by simple apply respects_modify
    | by intros ?; unfold getGen, GetCurrentGeneration; case_match
    | case_match ].

Lemma fold_ptx updates m :
  px_PublicTxnID (mt_ptx (foldl (fun m newPtx => updatePtx newPtx m) m updates)) = px_PublicTxnID (mt_ptx m) /\
  px_Nonce (mt_ptx (foldl (fun m newPtx => updatePtx newPtx m) m updates)) = px_Nonce (mt_ptx m).
Proof. revert m. induction updates as [|u updates IH]; intros m; [done|]. exact (IH (updatePtx u m)). Qed.

Lemma start_key g stage substatus now : respects sameKey (StartNewStageContext g stage substatus now).
Proof.
  unfold StartNewStageContext, TriggerRetrieveGasPrice, TriggerSignTx, TriggerSubmitTx, TriggerStatusUpdate, triggered, executeAsync, updGen. key_go.
Qed.

Lemma pass_key tIn now : respects sameKey (ProduceLatestInFlightStageContext conf tIn now).
Proof.
  assert (Hone : forall g i stage output, respects sameKey (processOutput conf g i stage output now)).
  { intros. unfold processOutput, processRetrieveGasPriceStageOutput, processSigningStageOutput, processSubmittingStageOutput, processStatusUpdateStageOutput,
      TriggerNewStageRun, TriggerPersistTxState, ClearRunningStageContext, MarkInFlightTxStale, getCtx, updCtx, derefM, executeAsync, updGen.
    repeat first [simple apply start_key|key_go]. }
  assert (Hall : forall g i stage outputs err, respects sameKey (processOutputs conf g i stage outputs now err)).
  { intros g i stage outputs. induction outputs as [|o rest IH]; intros err; cbn [processOutputs]; key_go; auto. }
  unfold ProduceLatestInFlightStageContext, applyQueuedUpdates, processCurrentGenerationStageOutputs, startNewStage, NewGeneration, PubTxStages.Cancel, TriggerNewStageRun,
    ClearRunningStageContext, getCtx, derefM, updGen, mtxOf.
  repeat first [simple apply Hall|simple apply start_key|key_go].
  apply respects_modify. intros t. destruct (fold_ptx (d :: l) (it_mtx t)) as [E1 E2]. exact (f_equal2 pair E1 E2).
Qed.

Lemma persist_key g os : respects sameKey (PersistTxState conf g os).
Proof.
  assert (Hb : forall s flushed, respects sameKey (runBatch s flushed)).
  { intros s [e|]; unfold runBatch; [apply respects_ret, _|]. apply respects_bind; [apply _| |intros ?; apply respects_ret, _].
    apply respects_modify. intros t. by destruct (existsb _ _). }
  unfold PersistTxState, getCtx, updCtx, updGen. repeat first [simple apply Hb|key_go].
Qed.

Lemma async_key n os now t : sameKey t (runAsync conf calculateTransactionHash n os now t).
Proof.
  unfold runAsync. destruct (it_async t !! n) as [[g action]|]; [|done].
  assert (Hb : respects sameKey (asyncBody conf calculateTransactionHash g action os now)).
  { destruct action; cbn [asyncBody];
      unfold submitTX, attemptSubmit, IsCancelled, AddPersistenceOutput, AddStageOutputs, derefM, updCtx, updGen; repeat first [simple apply persist_key|key_go]. }
  transitivity (t <| it_async ::= fun l => delete n l |>); [done|].
  cut (respects sameKey (executeAsyncStep conf calculateTransactionHash g action os now)); [intros H; apply H|].
  unfold executeAsyncStep. key_go. intros w. unfold recovered. specialize (Hb w). destruct (asyncBody conf calculateTransactionHash g action os now w) as [w' [[next|]|e|c]]; exact Hb.
Qed.

Lemma processEach_keys account unknown first its now its' waiting :
  processEach conf account unknown first its now = Ok (its', waiting) -> txKey <$> its' = txKey <$> its.
Proof.
  revert account unknown first its' waiting. induction its as [|it its IH]; intros account unknown first its' waiting; cbn [processEach]; [by intros [= <- _]|].
  pose proof (pass_key (MkOrchestratorContext (GetAvailableToSpend <$> account) unknown) now it) as Hk.
  destruct (ProduceLatestInFlightStageContext _ _ _ _) as [it' [out| |]]; [|done|done].
  destruct (match account with Some a => _ | None => _ end) as [[account' unknown'] waiting0].
  destruct (processEach conf account' unknown' false its now) as [[its1 w1]| |] eqn:E; [|done|done]. intros [= <- _]. cbn. f_equal; [exact Hk|]. by eapply IH.
Qed.

(** ** Nonces *)

(** The next nonce, which may have been raised to a count that the chain gave. *)
Definition risen (o : Orchestrator) (next : option Z) (answers : list ((error + Z) * option error)) : Prop :=
  next = ot_nextNonce o \/ exists c, inr c ∈ answers.*1 /\ next = Some c /\ forall k, ot_nextNonce o = Some k -> (k < c)%Z.

Definition allocated (txns : list DBPublicTxn) (next : Z) : list (N * Z) := zip (px_PublicTxnID <$> toAllocate txns) (noncesFrom next (length (toAllocate txns))).

Definition allocatedAt (txns : list DBPublicTxn) (next now : Z) (o : Orchestrator) : Orchestrator :=
  o <| ot_db ::= fun d => d <| db_public_txns ::= fmap (setNonce (allocated txns next)) |> |> <| ot_lastNonceAlloc := Some now |>
    <| ot_nextNonce := Some (nonceAfter next (length (toAllocate txns))) |>.

Definition withNext (n : option Z) (o : Orchestrator) : Orchestrator := o <| ot_nextNonce := n |>.

Lemma withNext_same o : withNext (ot_nextNonce o) o = o.
Proof. by destruct o. Qed.

Inductive allocating (txns : list DBPublicTxn) (answers : list ((error + Z) * option error)) (now : Z) (o : Orchestrator) : Orchestrator * res (list DBPublicTxn) -> Prop :=
| allocating_none : toAllocate txns = [] -> allocating txns answers now o (o, Ok txns)
| allocating_failed n e : toAllocate txns <> [] -> risen o n answers -> allocating txns answers now o (withNext n o, Err e)
| allocating_done next : toAllocate txns <> [] -> risen o (Some next) answers ->
    allocating txns answers now o (allocatedAt txns next now (withNext (Some next) o), Ok (setNonce (allocated txns next) <$> txns)).

Lemma allocate_cases txns a now o : allocating txns [a] now o (allocateNonces pool txns a now o).
Proof.
  unfold allocateNonces. destruct (toAllocate txns) as [|tx toAlloc] eqn:Et; [by apply allocating_none|].
  assert (Hne : toAllocate txns <> []) by congruence.
  assert (Hend : forall n, risen o n [a] -> is_Some n -> allocating txns [a] now o
    ((o ← gets (fun o => o);
      match ot_nextNonce o with
      | None => crashM Panic
      | Some next =>
          match a.2 with
          | Some e => throw e
          | None =>
              let allocated := zip (px_PublicTxnID <$> tx :: toAlloc) (noncesFrom next (length (tx :: toAlloc))) in
              modify (fun o => o <| ot_db ::= fun d => d <| db_public_txns ::= fmap (setNonce allocated) |> |>
                                 <| ot_lastNonceAlloc := Some now |> <| ot_nextNonce := Some (nonceAfter next (length (tx :: toAlloc))) |>) ≫= fun _ =>
              mret (setNonce allocated <$> txns)
          end
      end) (withNext n o))).
  { intros n Hn [next ->]. unfold gets, mbind, M_bind. cbn [withNext]. change (ot_nextNonce (withNext (Some next) o)) with (Some next). cbv beta iota.
    destruct (a.2); [by apply allocating_failed|]. cbn zeta. rewrite <- Et. by apply allocating_done. }
  unfold mbind at 1, M_bind at 1, gets at 1. cbv beta iota.
  destruct (negb (isSome (ot_nextNonce o)) || sinceExceeds now (ot_lastNonceAlloc o) (pc_nonceCacheTimeout pool)) eqn:Ew; cbn [when].
  - destruct (a.1) as [e|c] eqn:Ea.
    + change (allocating txns [a] now o (o, Err e)). rewrite <- (withNext_same o) at 2. apply allocating_failed; [done|]. by left.
    + destruct (match ot_nextNonce o with Some next => (c <=? next)%Z | None => false end) eqn:Ec.
      * specialize (Hend (ot_nextNonce o)). rewrite withNext_same in Hend. apply Hend; [by left|]. destruct (ot_nextNonce o); [eauto|discriminate].
      * apply (Hend (Some c)); [|eauto]. right. exists c. cbn. rewrite Ea. split; [left|]. split; [done|]. intros k Hk. rewrite Hk in Ec. apply Z.leb_gt in Ec. lia.
  - specialize (Hend (ot_nextNonce o)). rewrite withNext_same in Hend. apply Hend; [by left|]. destruct (ot_nextNonce o); [eauto|discriminate].
Qed.

Lemma risen_trans o n answers n' answers' : risen o n answers -> risen (withNext n o) n' answers' -> risen o n' (answers ++ answers').
Proof.
  intros H [->|(c & Hc & -> & Hlt)].
  - destruct H as [->|(c & Hc & -> & Hlt)]; [by left|]. right. exists c. rewrite fmap_app. split; [set_solver|done].
  - right. exists c. rewrite fmap_app. split; [set_solver|]. split; [done|]. intros k Hk. destruct H as [->|(c' & _ & -> & Hlt')]; [by apply Hlt|].
    specialize (Hlt' k Hk). specialize (Hlt c' eq_refl). lia.
Qed.

Lemma risen_mono o n answers answers' : answers ⊆ answers' -> risen o n answers -> risen o n answers'.
Proof.
  intros Hs [H|(c & Hc & H)]; [by left|right]. exists c. split; [|done]. apply list_elem_of_fmap in Hc as (p & E & Hp). apply list_elem_of_fmap. exists p. auto.
Qed.

Lemma allocateRetry_cases txns answers now o : allocating txns answers now o (allocateNoncesRetry pool txns answers now o).
Proof.
  revert o. induction answers as [|a answers IH]; intros o; cbn [allocateNoncesRetry].
  { destruct (toAllocate txns) eqn:Et; [by apply allocating_none|]. change (allocating txns [] now o (o, Err MsgContextCanceled)).
    rewrite <- (withNext_same o) at 2. apply allocating_failed; [congruence|]. by left. }
  unfold caught. destruct (allocate_cases txns a now o) as [Hn|n e Hne Hn|next Hne Hn]; cbv beta iota.
  - by apply allocating_none.
  - destruct (IH (withNext n o)) as [Hno|n' e' _ Hn'|next _ Hn']; [done|..].
    + change (withNext n' (withNext n o)) with (withNext n' o). apply allocating_failed; [done|]. exact (risen_trans _ _ _ _ _ Hn Hn').
    + change (withNext (Some next) (withNext n o)) with (withNext (Some next) o). apply allocating_done; [done|]. exact (risen_trans _ _ _ _ _ Hn Hn').
  - apply allocating_done; [done|]. eapply risen_mono; [|exact Hn]. set_solver.
Qed.

Lemma noncesFrom_exact next k : (0 <= next)%Z -> (next + Z.of_nat k < u64_modulus)%Z ->
  noncesFrom next k = (fun i => next + Z.of_nat i)%Z <$> seq 0 k /\ nonceAfter next k = (next + Z.of_nat k)%Z.
Proof.
  intros H0. unfold nonceAfter. revert next H0. induction k as [|k IH]; intros next H0 Hk; [split; [done|cbn; lia]|].
  assert (E : u64_add next 1 = (next + 1)%Z) by (apply u64_add_exact; unfold u64_range; lia).
  destruct (IH (next + 1)%Z) as [E1 E2]; [lia|lia|]. split.
  - cbn [noncesFrom seq]. rewrite E, E1, fmap_cons. f_equal; [lia|]. rewrite <- seq_shift, <- list_fmap_compose. apply list_fmap_ext. intros i x _. cbn. lia.
  - rewrite Nat.iter_succ_r, E, E2. lia.
Qed.

Lemma find_unique (l : list (N * Z)) p : NoDup l.*1 -> p ∈ l -> List.find (fun q => N.eqb q.1 p.1) l = Some p.
Proof.
  induction l as [|q l IH]; [by rewrite elem_of_nil|]. cbn. intros [Hq Hl]%NoDup_cons [->|Hp]%elem_of_cons; [by rewrite N.eqb_refl|].
  destruct (N.eqb_spec q.1 p.1) as [E|_]; [|by apply IH]. destruct Hq. rewrite E. by apply list_elem_of_fmap_2.
Qed.

(** The table, as far as nonces go. *)
Record tableOk (rows : list DBPublicTxn) (next : option Z) : Prop := {
  to_ids : NoDup (px_PublicTxnID <$> rows);
  to_below : forall r n, r ∈ rows -> mine pool r = true -> px_Nonce r = Some n -> exists k, next = Some k /\ (0 <= n < k)%Z;
  to_distinct : forall r1 r2 n, r1 ∈ rows -> r2 ∈ rows -> mine pool r1 = true -> mine pool r2 = true -> px_Nonce r1 = Some n -> px_Nonce r2 = Some n -> r1 = r2 }.

Lemma row_unique rows r1 r2 : NoDup (px_PublicTxnID <$> rows) -> r1 ∈ rows -> r2 ∈ rows -> px_PublicTxnID r1 = px_PublicTxnID r2 -> r1 = r2.
Proof.
  intros Hnd H1 H2 E. apply list_elem_of_lookup in H1 as [i Hi]. apply list_elem_of_lookup in H2 as [j Hj].
  assert (i = j) as ->; [|congruence]. apply (NoDup_lookup (px_PublicTxnID <$> rows) i j (px_PublicTxnID r1)); [done|by rewrite list_lookup_fmap, Hi|by rewrite list_lookup_fmap, Hj, E].
Qed.

(** A change to rows that leaves what they are and their nonces. *)
Lemma tableOk_fmap f rows next :
  (forall r, px_PublicTxnID (f r) = px_PublicTxnID r) -> (forall r, mine pool (f r) = mine pool r) -> (forall r, px_Nonce (f r) = px_Nonce r) ->
  tableOk rows next -> tableOk (f <$> rows) next.
Proof.
  intros F1 F2 F3 [H1 H2 H3]. constructor.
  - rewrite <- list_fmap_compose. erewrite list_fmap_ext; [exact H1|]. intros i r _. apply F1.
  - intros r n (r0 & -> & Hr)%list_elem_of_fmap. rewrite F2, F3. by apply H2.
  - intros r1 r2 n (s1 & -> & Hs1)%list_elem_of_fmap (s2 & -> & Hs2)%list_elem_of_fmap. rewrite !F2, !F3. intros. f_equal. eauto.
Qed.

Lemma setNonce_id l r : px_PublicTxnID (setNonce l r) = px_PublicTxnID r.
Proof. unfold setNonce. by case_match. Qed.
Lemma setNonce_mine l r : mine pool (setNonce l r) = mine pool r.
Proof. unfold setNonce. by case_match. Qed.

(** The transactions of a query: rows without a nonce, or with one, each once. *)
Record queried (rows txns : list DBPublicTxn) : Prop := {
  qd_ids : NoDup (px_PublicTxnID <$> txns);
  qd_rows : forall tx, tx ∈ txns -> exists r, r ∈ rows /\ mine pool r = true /\ px_PublicTxnID tx = px_PublicTxnID r /\ px_Nonce tx = px_Nonce r }.

Lemma toAllocate_elem txns tx : tx ∈ toAllocate txns <-> tx ∈ txns /\ px_Nonce tx = None.
Proof.
  unfold toAllocate. rewrite list_elem_of_In, filter_In, <- list_elem_of_In. split; intros [H1 H2]; (split; [done|]); [by destruct (px_Nonce tx)|by rewrite H2].
Qed.

Lemma filter_NoDup_fmap {A B} (f : A -> B) (p : A -> bool) (l : list A) : NoDup (f <$> l) -> NoDup (f <$> List.filter p l).
Proof.
  induction l as [|a l IH]; [done|]. cbn. intros [Ha Hl]%NoDup_cons. destruct (p a); [|by apply IH]. cbn. apply NoDup_cons. split; [|by apply IH].
  intros (x & E & Hx)%list_elem_of_fmap. apply Ha. rewrite E. apply list_elem_of_fmap_2. apply list_elem_of_In in Hx. apply filter_In in Hx as [Hx _]. by apply list_elem_of_In.
Qed.

Section Allocated.
Context (rows txns : list DBPublicTxn) (old : option Z) (next : Z).
Context (Hrows : tableOk rows old) (Hq : queried rows txns) (H0 : (0 <= next)%Z) (Hold : forall k, old = Some k -> (k <= next)%Z).
Context (Hwrap : (next + Z.of_nat (length (toAllocate txns)) < u64_modulus)%Z).

Lemma allocated_elem p : p ∈ allocated txns next -> (next <= p.2 < next + Z.of_nat (length (toAllocate txns)))%Z /\
  exists tx, tx ∈ txns /\ px_Nonce tx = None /\ px_PublicTxnID tx = p.1.
Proof.
  unfold allocated. destruct (noncesFrom_exact next (length (toAllocate txns)) H0 Hwrap) as [-> _]. destruct p as [id v]. intros Hp. apply list_elem_of_lookup in Hp as [i Hi].
  apply lookup_zip_Some in Hi as [Hi1 Hi2]. rewrite list_lookup_fmap in Hi1. rewrite list_lookup_fmap in Hi2. destruct (toAllocate txns !! i) as [tx|] eqn:Etx; [|discriminate]. cbn in Hi1. injection Hi1 as E1.
  destruct (seq 0 (length (toAllocate txns)) !! i) eqn:Es; [|discriminate]. apply lookup_seq in Es as [-> Hlt]. cbn in Hi2. injection Hi2 as E2. split; [cbn in *; lia|].
  apply list_elem_of_lookup_2, toAllocate_elem in Etx as [Hin Hn]. eauto.
Qed.

Lemma allocated_fst : (allocated txns next).*1 = px_PublicTxnID <$> toAllocate txns.
Proof.
  unfold allocated. apply fst_zip. destruct (noncesFrom_exact next (length (toAllocate txns)) H0 Hwrap) as [-> _]. by rewrite !length_fmap, length_seq.
Qed.

Lemma allocated_nodup1 : NoDup (allocated txns next).*1.
Proof. rewrite allocated_fst. apply filter_NoDup_fmap, (qd_ids _ _ Hq). Qed.

Lemma allocated_nodup2 p q : p ∈ allocated txns next -> q ∈ allocated txns next -> p.2 = q.2 -> p = q.
Proof.
  unfold allocated. destruct (noncesFrom_exact next (length (toAllocate txns)) H0 Hwrap) as [-> _]. intros Hp Hr E.
  apply list_elem_of_lookup in Hp as [i Hi]. apply list_elem_of_lookup in Hr as [j Hj]. assert (i = j); [|congruence].
  destruct p as [id v], q as [id' v']. apply lookup_zip_Some in Hi as [_ Hi]. apply lookup_zip_Some in Hj as [_ Hj]. rewrite list_lookup_fmap in Hi. rewrite list_lookup_fmap in Hj.
  destruct (seq 0 _ !! i) eqn:Ei; [|discriminate]. destruct (seq 0 _ !! j) eqn:Ej; [|discriminate]. apply lookup_seq in Ei as [-> _]. apply lookup_seq in Ej as [-> _].
  cbn in E, Hi, Hj. injection Hi as Hi. injection Hj as Hj. lia.
Qed.

(** A row is given a nonce, or is left. *)
Lemma setNonce_cases r : (exists p, p ∈ allocated txns next /\ p.1 = px_PublicTxnID r /\ px_Nonce (setNonce (allocated txns next) r) = Some p.2) \/
  setNonce (allocated txns next) r = r /\ ~ px_PublicTxnID r ∈ px_PublicTxnID <$> toAllocate txns.
Proof.
  unfold setNonce. destruct (List.find _ _) as [p|] eqn:Ef.
  - apply List.find_some in Ef as [Hp E]. apply N.eqb_eq in E. left. exists p. by rewrite list_elem_of_In.
  - right. split; [done|]. rewrite <- allocated_fst. intros (p & E & Hp)%list_elem_of_fmap. apply list_elem_of_In in Hp. specialize (List.find_none _ _ Ef p Hp) as Hn. cbn in Hn.
    rewrite E, N.eqb_refl in Hn. discriminate.
Qed.

Lemma allocated_row p r : p ∈ allocated txns next -> r ∈ rows -> p.1 = px_PublicTxnID r -> mine pool r = true /\ px_Nonce r = None.
Proof.
  intros Hp Hr E. apply allocated_elem in Hp as [_ (tx & Htx & Hn & Hid)]. destruct (qd_rows _ _ Hq tx Htx) as (r' & Hr' & Hm & Hid' & Hn').
  assert (r = r') as ->; [|by rewrite <- Hn']. apply (row_unique rows); [apply Hrows|done|done|congruence].
Qed.

Lemma tableOk_allocated : tableOk (setNonce (allocated txns next) <$> rows) (Some (nonceAfter next (length (toAllocate txns)))).
Proof.
  destruct (noncesFrom_exact next (length (toAllocate txns)) H0 Hwrap) as [_ ->]. destruct Hrows as [R1 R2 R3]. constructor.
  - rewrite <- list_fmap_compose. erewrite list_fmap_ext; [exact R1|]. intros i r _. apply setNonce_id.
  - intros r n (r0 & -> & Hr)%list_elem_of_fmap Hm Hn. rewrite setNonce_mine in Hm. eexists. split; [done|].
    destruct (setNonce_cases r0) as [(p & Hp & E & En)|[E _]].
    + rewrite En in Hn. injection Hn as <-. apply allocated_elem in Hp as [Hb _]. lia.
    + rewrite E in Hn. destruct (R2 r0 n Hr Hm Hn) as (k & Ek & Hk). specialize (Hold k Ek). lia.
  - intros r1 r2 n (s1 & -> & Hs1)%list_elem_of_fmap (s2 & -> & Hs2)%list_elem_of_fmap. rewrite !setNonce_mine. intros M1 M2 N1 N2.
    assert (Hcross : forall s p m, s ∈ rows -> mine pool s = true -> px_Nonce s = Some m -> p ∈ allocated txns next -> p.2 = m -> False).
    { intros s p m Hs Hm Hsn Hp Em. destruct (R2 s m Hs Hm Hsn) as (k & Ek & Hk). specialize (Hold k Ek). apply allocated_elem in Hp as [Hb _]. lia. }
    destruct (setNonce_cases s1) as [(p1 & Hp1 & E1 & En1)|[E1 _]], (setNonce_cases s2) as [(p2 & Hp2 & E2 & En2)|[E2 _]].
    + rewrite En1 in N1. rewrite En2 in N2. assert (p1 = p2) as -> by (apply allocated_nodup2; [done|done|congruence]). f_equal. apply (row_unique rows); [done|done|done|congruence].
    + exfalso. rewrite En1 in N1. injection N1 as N1. rewrite E2 in N2. by eapply (Hcross s2 p1 n).
    + exfalso. rewrite En2 in N2. injection N2 as N2. rewrite E1 in N1. by eapply (Hcross s1 p2 n).
    + rewrite E1, E2 in *. by eapply R3.
Qed.
End Allocated.

(** ** The orchestrator's invariant *)

(** A transaction in flight is for one of the address' own rows, with its nonce. *)
Definition flightOk (rows : list DBPublicTxn) (it : InFlightTx) : Prop :=
  exists r n, r ∈ rows /\ mine pool r = true /\ px_Nonce r = Some n /\ txKey it = (px_PublicTxnID r, Some n).

Record poolInv (o : Orchestrator) : Prop := {
  pi_table : tableOk (db_public_txns (ot_db o)) (ot_nextNonce o);
  pi_flight : Forall (flightOk (db_public_txns (ot_db o))) (ot_inFlightTxs o);
  pi_distinct : NoDup ((fun it => (txKey it).1) <$> ot_inFlightTxs o);
  pi_safe : Forall txInv (ot_inFlightTxs o);
  pi_exited : Forall txInv (ot_exited o) }.

Lemma poolInv_frame o o' :
  poolInv o -> db_public_txns (ot_db o') = db_public_txns (ot_db o) -> ot_nextNonce o' = ot_nextNonce o -> ot_inFlightTxs o' = ot_inFlightTxs o -> Forall txInv (ot_exited o') -> poolInv o'.
Proof. intros [H1 H2 H3 H4 H5] E1 E2 E3 He. constructor; rewrite ?E1, ?E2, ?E3; done. Qed.

Lemma flightOk_key rows it it' : txKey it' = txKey it -> flightOk rows it -> flightOk rows it'.
Proof. unfold flightOk. by intros ->. Qed.

Lemma Forall_keys rows its its' : txKey <$> its' = txKey <$> its -> Forall (flightOk rows) its -> Forall (flightOk rows) its'.
Proof.
  intros E H. rewrite Forall_forall in *. intros it' Hit'. assert (txKey it' ∈ txKey <$> its) as (it & Ek & Hit)%list_elem_of_fmap by (rewrite <- E; by apply list_elem_of_fmap_2).
  by eapply flightOk_key; [|apply H].
Qed.

Lemma poolInv_flight o its : poolInv o -> Forall txInv its -> txKey <$> its = txKey <$> ot_inFlightTxs o -> poolInv (o <| ot_inFlightTxs := its |>).
Proof.
  intros [H1 H2 H3 H4 H5] Hi E. constructor; cbn; [done|by eapply Forall_keys| |done|done].
  change (NoDup (fst ∘ txKey <$> its)). rewrite list_fmap_compose, E, <- list_fmap_compose. exact H3.
Qed.

Lemma poolInv_alter o k f : poolInv o -> (forall it, txInv it -> txInv (f it)) -> (forall it, txKey (f it) = txKey it) -> poolInv (o <| ot_inFlightTxs ::= alter f k |>).
Proof.
  intros Ho Hf Hk. apply (poolInv_flight o (alter f k (ot_inFlightTxs o))); [done|..].
  - apply Forall_alter; [apply Ho|]. auto.
  - apply list_eq. intros i. rewrite !list_lookup_fmap, list_lookup_alter. destruct (decide (k = i)) as [->|]; [|done]. destruct (ot_inFlightTxs o !! i); [|done]. cbn. by rewrite Hk.
Qed.

Lemma updateTx_inv newPtx it : txInv it -> txInv (UpdateTransaction newPtx it).1.
Proof. intros H. exact (step_inv conf calculateTransactionHash (StepUpdate newPtx) it H). Qed.

Lemma handleUpdates_spec o : poolInv o -> exists o', handleUpdates o = (o', Ok tt) /\ poolInv o' /\ ot_nextNonce o' = ot_nextNonce o /\ ot_db o' = ot_db o /\
  ot_state o' = ot_state o /\ ot_stateEntryTime o' = ot_stateEntryTime o /\ txKey <$> ot_inFlightTxs o' = txKey <$> ot_inFlightTxs o /\
  (it_mtx <$> ot_inFlightTxs o' = it_mtx <$> ot_inFlightTxs o).
Proof.
  intros Ho. assert (Hgen : forall updates o1, poolInv o1 -> exists o', for_each updates (fun u => its ← gets ot_inFlightTxs;
      match list_find (fun it => px_PublicTxnID (mt_ptx (it_mtx it)) = u.1) its with
      | Some (k, it) => modify (fun o => o <| ot_inFlightTxs ::= alter (fun it => (UpdateTransaction u.2 it).1) k |>)
      | None => mret tt
      end) o1 = (o', Ok tt) /\ poolInv o' /\ ot_nextNonce o' = ot_nextNonce o1 /\ ot_db o' = ot_db o1 /\
      ot_state o' = ot_state o1 /\ ot_stateEntryTime o' = ot_stateEntryTime o1 /\ txKey <$> ot_inFlightTxs o' = txKey <$> ot_inFlightTxs o1 /\
      it_mtx <$> ot_inFlightTxs o' = it_mtx <$> ot_inFlightTxs o1).
  { intros updates. induction updates as [|u updates IH]; intros o1 Ho1; [exists o1; done|]. cbn [for_each].
    unfold mbind, M_bind, gets. destruct (list_find _ (ot_inFlightTxs o1)) as [[k it]|]; [|by apply IH]. unfold modify. cbv beta iota.
    destruct (IH (o1 <| ot_inFlightTxs ::= alter (fun it => (UpdateTransaction u.2 it).1) k |>)) as (o' & E & Hi & E1 & E2 & E3 & E4 & E5 & E6).
    { apply poolInv_alter; [done|apply updateTx_inv|done]. }
    exists o'. split; [exact E|]. split_and!; try done.
    - rewrite E5. cbn. apply list_eq. intros i. rewrite !list_lookup_fmap, list_lookup_alter. destruct (decide (k = i)) as [->|]; [|done]. by destruct (ot_inFlightTxs o1 !! i).
    - rewrite E6. cbn. apply list_eq. intros i. rewrite !list_lookup_fmap, list_lookup_alter. destruct (decide (k = i)) as [->|]; [|done]. by destruct (ot_inFlightTxs o1 !! i). }
  destruct (Hgen (ot_updates o) (o <| ot_updates := [] |>)) as (o' & E & H); [by apply (poolInv_frame o); try apply Ho|]. exists o'. split; [exact E|exact H].
Qed.

End Pool.
