(* ===== verification/PubTxNonces.v ===== *)
(** * Public transactions: nonces

    Over all runs of an orchestrator, and of those that come after it for the same address: no iteration
    of the loop panics, and the nonces of the address' transactions are distinct, in the table and among
    those in flight.

    Source: core/go/internal/publictxmgr, as in PubTxOrchestrator. *)

From S2P Require Import Prelude PubTxGas PubTxStages PubTxSafety PubTxOrchestrator PubTxPool.
From stdpp Require Import sorting.
Open Scope string_scope.
Open Scope list_scope.

Section Nonces.
Context (pool : PoolConf) (conf : OrchestratorConf) (calculateTransactionHash : string -> string).
Notation txInv := (inv calculateTransactionHash).
Notation poolInv := (poolInv pool calculateTransactionHash).
Notation mine := (mine pool).
Notation tableOk := (tableOk pool).
Notation queried := (queried pool).

(** ** Queries *)

Lemma pollQuery_queried above spaces db :
  NoDup (px_PublicTxnID <$> db_public_txns db) ->
  queried (db_public_txns db) (pollQuery pool above spaces db) /\ length (pollQuery pool above spaces db) <= spaces /\
  forall tx, tx ∈ pollQuery pool above spaces db -> exists r, r ∈ db_public_txns db /\ pending pool above r = true /\ px_PublicTxnID tx = px_PublicTxnID r /\ px_Nonce tx = px_Nonce r.
Proof.
  intros Hnd. unfold pollQuery, runTransactionQuery. set (sorted := merge_sort byID (List.filter (pending pool above) (db_public_txns db))).
  assert (Hp : sorted ≡ₚ List.filter (pending pool above) (db_public_txns db)) by apply merge_sort_Permutation.
  assert (Hin : forall tx, tx ∈ (fun r => r <| px_Submissions := getTransactionSubmissions db (px_PublicTxnID r) |>) <$> take spaces sorted ->
    exists r, r ∈ db_public_txns db /\ pending pool above r = true /\ px_PublicTxnID tx = px_PublicTxnID r /\ px_Nonce tx = px_Nonce r).
  { intros tx (r & -> & Hr)%list_elem_of_fmap. exists r. apply (subseteq_take spaces) in Hr. rewrite Hp in Hr. apply list_elem_of_In, filter_In in Hr as [Hr Hpd].
    apply list_elem_of_In in Hr. done. }
  split_and!; [|rewrite length_fmap, length_take; lia|exact Hin]. constructor.
  - rewrite <- list_fmap_compose. change (px_PublicTxnID ∘ _) with (fun r : DBPublicTxn => px_PublicTxnID r). apply (sublist_NoDup _ (px_PublicTxnID <$> sorted)).
    + rewrite Hp. by apply filter_NoDup_fmap.
    + change (fun r : DBPublicTxn => px_PublicTxnID r) with px_PublicTxnID. rewrite fmap_take. apply sublist_take.
  - intros tx Htx. destruct (Hin tx Htx) as (r & Hr & Hpd & E1 & E2). exists r. split_and!; try done. unfold pending in Hpd. by apply andb_prop in Hpd as [[_ ?]%andb_prop _].
Qed.

Lemma tableOk_risen rows o next answers : tableOk rows (ot_nextNonce o) -> risen o next answers -> tableOk rows next.
Proof.
  intros [H1 H2 H3] Hr. constructor; [done| |done]. intros r n Hin Hm Hn. destruct (H2 r n Hin Hm Hn) as (k & Ek & Hk).
  destruct Hr as [->|(c & _ & -> & Hlt)]; [eauto|]. specialize (Hlt k Ek). exists c. split; [done|]. lia.
Qed.

(** ** An iteration *)

Lemma newInFlight_spec additional now : (forall tx, tx ∈ additional -> is_Some (px_Nonce tx)) ->
  exists l, newInFlight additional now = Ok l /\ Forall txInv l /\ Forall (fun it => exists tx, tx ∈ additional /\ txKey it = (px_PublicTxnID tx, px_Nonce tx)) l /\
    (fst ∘ txKey <$> l) `sublist_of` (px_PublicTxnID <$> additional).
Proof.
  induction additional as [|tx additional IH]; intros H; [exists []; cbn; split_and!; by constructor|].
  destruct IH as (l & E & H1 & H2 & H3); [intros x Hx; apply H; set_solver|]. cbn [newInFlight].
  assert (H2' : Forall (fun it => exists x, x ∈ tx :: additional /\ txKey it = (px_PublicTxnID x, px_Nonce x)) l)
    by (eapply Forall_impl; [exact H2|]; intros it (x & Hx & Ex); exists x; split; [set_solver|done]).
  destruct (px_Binding tx) as [b|]; [|exists l; split_and!; try done; cbn; by apply sublist_cons].
  destruct (H tx) as [n Hn]; [set_solver|]. destruct (NewInFlightTransactionStageController tx (bd_Transaction b) now) as [it|e|c] eqn:Enew;
    [|unfold NewInFlightTransactionStageController in Enew; rewrite Hn in Enew; discriminate..].
  rewrite E. exists (it :: l). split; [done|]. pose proof (new_inv calculateTransactionHash tx (bd_Transaction b) now it Enew) as Hit.
  assert (Hk : txKey it = (px_PublicTxnID tx, px_Nonce tx)).
  { unfold NewInFlightTransactionStageController in Enew. rewrite Hn in Enew. injection Enew as <-. unfold txKey, NewInMemoryTxState. cbn. destruct (px_Submissions tx); [done|]. cbn. by case_match. }
  split; [by constructor|]. split; [constructor; [exists tx; split; [left|done]|done]|].
  rewrite !fmap_cons. change ((fst ∘ txKey) it) with (txKey it).1. rewrite Hk. by apply sublist_skip.
Qed.

Definition nextOk (o : Orchestrator) : Prop := forall next, ot_nextNonce o = Some next -> (0 <= next /\ next + Z.of_nat (pc_maxInFlightTxs pool) < u64_modulus)%Z.
Definition answersOk (answers : PollAnswers) : Prop :=
  forall c, inr c ∈ (pa_nonces answers).*1 -> (0 <= c /\ c + Z.of_nat (pc_maxInFlightTxs pool) < u64_modulus)%Z.

Lemma risen_ok o next answers : nextOk o -> answersOk answers -> risen o (Some next) (pa_nonces answers) -> (0 <= next /\ next + Z.of_nat (pc_maxInFlightTxs pool) < u64_modulus)%Z.
Proof. intros Ho Ha [E|(c & Hc & [= ->] & _)]; [by apply Ho|by apply Ha]. Qed.

Lemma toAllocate_length txns : length (toAllocate txns) <= length txns.
Proof. unfold toAllocate. induction txns as [|tx txns IH]; [done|]. cbn. destruct (negb _); cbn; lia. Qed.

Lemma fmap_sublist {A B} (f : A -> B) l1 l2 : l1 `sublist_of` l2 -> (f <$> l1) `sublist_of` (f <$> l2).
Proof. induction 1; cbn; by constructor. Qed.

(** The list without those that leave it. *)
Lemma poolInv_sublist o its : poolInv o -> its `sublist_of` ot_inFlightTxs o -> poolInv (o <| ot_inFlightTxs := its |>).
Proof.
  intros [H1 H2 H3 H4 H5] Hs. assert (Hf : forall P : InFlightTx -> Prop, Forall P (ot_inFlightTxs o) -> Forall P its)
    by (intros P HP; rewrite Forall_forall in *; intros x Hx; apply HP; by eapply elem_of_sublist).
  constructor; cbn; auto. eapply sublist_NoDup; [exact H3|]. by apply (fmap_sublist (fun it => (txKey it).1)).
Qed.

Lemma filter_sublist {A} (p : A -> bool) (l : list A) : List.filter p l `sublist_of` l.
Proof. induction l as [|a l IH]; [done|]. cbn. destruct (p a); by constructor. Qed.

Lemma maxNonce_ge l n : n ∈ l -> exists m, maxNonce l = Some m /\ (n <= m)%Z.
Proof.
  assert (Hf : forall l k, (k <= foldl Z.max k l)%Z /\ forall n, n ∈ l -> (n <= foldl Z.max k l)%Z).
  { clear. induction l as [|a l IH]; intros k; cbn; [split; [lia|intros n Hn; by apply elem_of_nil in Hn]|]. destruct (IH (Z.max k a)) as [H1 H2]. split; [lia|].
    intros n [->|Hn]%elem_of_cons; [lia|by apply H2]. }
  destruct l as [|k l]; [by rewrite elem_of_nil|]. intros Hn. eexists. split; [done|]. destruct (Hf l k) as [H1 H2]. apply elem_of_cons in Hn as [->|Hn]; [done|by apply H2].
Qed.

(** What is kept in flight, and the nonce above which there may be more. *)
Definition keptOf (o : Orchestrator) : list InFlightTx := List.filter (fun it => negb (CanBeRemoved it)) (ot_inFlightTxs o).
Definition aboveOf (o : Orchestrator) : option Z := match keptOf o with [] => None | _ => maxNonce (nonceOf <$> ot_inFlightTxs o) end.

(** A row that is polled is not one that is kept. *)
Lemma pending_not_kept o it r : poolInv o -> it ∈ keptOf o -> r ∈ db_public_txns (ot_db o) -> pending pool (aboveOf o) r = true -> (txKey it).1 <> px_PublicTxnID r.
Proof.
  intros Ho Hk Hr Hp E. assert (Hit : it ∈ ot_inFlightTxs o) by (eapply elem_of_sublist; [exact Hk|apply filter_sublist]).
  pose proof (pi_flight _ _ _ Ho) as Hf. rewrite Forall_forall in Hf. destruct (Hf it Hit) as (r' & n & Hr' & _ & Hn & Ekey). rewrite Ekey in E. cbn in E.
  assert (r' = r) as -> by (eapply row_unique; [apply (pi_table _ _ _ Ho)|done|done|done]).
  unfold pending, aboveOf in Hp. destruct (keptOf o) eqn:Ek; [by apply elem_of_nil in Hk|]. destruct (maxNonce_ge (nonceOf <$> ot_inFlightTxs o) (nonceOf it)) as (m & Em & Hm); [by apply list_elem_of_fmap_2|].
  rewrite Em, Hn in Hp. apply andb_prop in Hp as [_ Hp]. apply Z.ltb_lt in Hp. unfold nonceOf in Hm. unfold txKey in Ekey. injection Ekey as _ Ekey. rewrite Ekey in Hm. cbn in Hm. lia.
Qed.

Lemma poolInv_added o rows' next' kept new :
  poolInv o -> kept `sublist_of` ot_inFlightTxs o -> Forall (flightOk pool rows') kept -> Forall (flightOk pool rows') new -> tableOk rows' next' -> Forall txInv new ->
  NoDup ((fun it => (txKey it).1) <$> new) -> (forall it it', it ∈ kept -> it' ∈ new -> (txKey it).1 <> (txKey it').1) ->
  forall o', db_public_txns (ot_db o') = rows' -> ot_nextNonce o' = next' -> ot_exited o' = ot_exited o -> poolInv (o' <| ot_inFlightTxs := kept ++ new |>).
Proof.
  intros Ho Hs Hk Hn Ht Hi Hd Hx o' E1 E2 E3. destruct (poolInv_sublist o kept Ho Hs) as [P1 P2 P3 P4 P5]. cbn in P3, P4, P5.
  constructor; cbn; rewrite ?E1, ?E2, ?E3; try done; [by apply Forall_app_2| |by apply Forall_app_2].
  rewrite fmap_app. apply NoDup_app. split; [done|]. split; [|done]. intros x (it & -> & Hit)%list_elem_of_fmap (it' & E & Hit')%list_elem_of_fmap. by eapply Hx.
Qed.

Lemma setNonce_nonce l r1 r2 : px_PublicTxnID r1 = px_PublicTxnID r2 -> px_Nonce r1 = px_Nonce r2 -> px_Nonce (setNonce l r1) = px_Nonce (setNonce l r2).
Proof. intros E1 E2. unfold setNonce. rewrite E1. by case_match. Qed.

(** The outcome of a poll: the list with what is new, or what there was. *)
Definition polled (o o' : Orchestrator) (r : res (list InFlightTx)) : Prop :=
  ot_inFlightTxs o' = ot_inFlightTxs o /\ ot_exited o' = ot_exited o /\ ot_state o' = ot_state o /\ ot_stateEntryTime o' = ot_stateEntryTime o /\
  match r with
  | Ok l => poolInv (o' <| ot_inFlightTxs := l |>) /\
      exists new, l = keptOf o ++ new /\ Forall (fun it => exists r, r ∈ db_public_txns (ot_db o) /\ pending pool (aboveOf o) r = true /\ (txKey it).1 = px_PublicTxnID r) new
  | Err _ => poolInv o'
  | Crash _ => False
  end.

Lemma poll_additional o o1 additional txns answers now :
  poolInv o -> queried (db_public_txns (ot_db o)) txns -> (forall tx, tx ∈ txns -> exists r, r ∈ db_public_txns (ot_db o) /\ pending pool (aboveOf o) r = true /\ px_PublicTxnID tx = px_PublicTxnID r /\ px_Nonce tx = px_Nonce r) ->
  length txns <= pc_maxInFlightTxs pool -> nextOk o -> answersOk answers ->
  allocating txns (pa_nonces answers) now o (o1, Ok additional) ->
  exists new, newInFlight additional now = Ok new /\ Forall (fun it => exists r, r ∈ db_public_txns (ot_db o) /\ pending pool (aboveOf o) r = true /\ (txKey it).1 = px_PublicTxnID r) new /\
    forall o2, db_public_txns (ot_db o2) = db_public_txns (ot_db o1) -> ot_nextNonce o2 = ot_nextNonce o1 -> ot_exited o2 = ot_exited o -> poolInv (o2 <| ot_inFlightTxs := keptOf o ++ new |>).
Proof.
  intros Ho Hq Hrows Hlen Hnext Hans Ha.
  assert (Hnew : forall f : DBPublicTxn -> DBPublicTxn, (forall tx, px_PublicTxnID (f tx) = px_PublicTxnID tx) -> (forall tx, mine (f tx) = mine tx) ->
    (forall r1 r2, px_PublicTxnID r1 = px_PublicTxnID r2 -> px_Nonce r1 = px_Nonce r2 -> px_Nonce (f r1) = px_Nonce (f r2)) ->
    (forall tx, tx ∈ txns -> is_Some (px_Nonce (f tx))) -> (forall r, r ∈ db_public_txns (ot_db o) -> is_Some (px_Nonce r) -> f r = r) ->
    forall next', tableOk (f <$> db_public_txns (ot_db o)) next' ->
    exists new, newInFlight (f <$> txns) now = Ok new /\ Forall (fun it => exists r, r ∈ db_public_txns (ot_db o) /\ pending pool (aboveOf o) r = true /\ (txKey it).1 = px_PublicTxnID r) new /\
      forall o2, db_public_txns (ot_db o2) = f <$> db_public_txns (ot_db o) -> ot_nextNonce o2 = next' -> ot_exited o2 = ot_exited o -> poolInv (o2 <| ot_inFlightTxs := keptOf o ++ new |>)).
  { intros f F1 F2 F3 F4 F5 next' Ht. destruct (newInFlight_spec (f <$> txns) now) as (new & E & N1 & N2 & N3); [by intros tx (x & -> & Hx)%list_elem_of_fmap; apply F4|].
    exists new. split; [done|]. assert (Hp : Forall (fun it => exists r, r ∈ db_public_txns (ot_db o) /\ pending pool (aboveOf o) r = true /\ (txKey it).1 = px_PublicTxnID r) new).
    { eapply Forall_impl; [exact N2|]. intros it (tx & (x & -> & Hx)%list_elem_of_fmap & Ek). destruct (Hrows x Hx) as (r & Hr & Hpd & Eid & _). exists r. rewrite Ek. cbn. rewrite F1. done. }
    split; [done|]. intros o2 E1 E2 E3. eapply poolInv_added; [exact Ho|apply filter_sublist| | |exact Ht|done| | |done|done|done].
    - pose proof (pi_flight _ _ _ Ho) as Hf. rewrite Forall_forall in *. intros it Hit. destruct (Hf it) as (r & n & Hr & Hm & Hn & Ek); [eapply elem_of_sublist; [exact Hit|apply filter_sublist]|].
      exists r, n. split_and!; try done. rewrite <- (F5 r Hr) by eauto. by apply list_elem_of_fmap_2.
    - rewrite Forall_forall in *. intros it Hit. destruct (N2 it Hit) as (tx & (x & -> & Hx)%list_elem_of_fmap & Ek). destruct (qd_rows _ _ _ Hq x Hx) as (r & Hr & Hm & Eid & En).
      destruct (F4 x Hx) as [n Hn]. exists (f r), n. split; [by apply list_elem_of_fmap_2|]. split; [by rewrite F2|]. rewrite <- (F3 x r Eid En), Hn. split; [done|]. rewrite Ek, !F1, Eid, Hn. done.
    - eapply sublist_NoDup; [|exact N3]. rewrite <- list_fmap_compose. erewrite list_fmap_ext; [exact (qd_ids _ _ _ Hq)|]. intros i tx _. apply F1.
    - intros it it' Hit Hit' Ekk. rewrite Forall_forall in Hp. destruct (Hp it' Hit') as (r & Hr & Hpd & Er). eapply (pending_not_kept o it r); eauto. congruence. }
  remember (o1, Ok additional) as res eqn:Er. destruct Ha as [Hnone|n e Hne Hris|next Hne Hris]; [injection Er as <- <-|discriminate|injection Er as <- <-].
  - specialize (Hnew (fun r => r)). rewrite !list_fmap_id in Hnew. apply (Hnew) with (next' := ot_nextNonce o); try done; [|apply Ho].
    intros tx Htx. destruct (px_Nonce tx) eqn:En; [eauto|]. assert (tx ∈ toAllocate txns) by by apply toAllocate_elem. rewrite Hnone in *. by apply elem_of_nil in H.
  - destruct (risen_ok o next answers Hnext Hans Hris) as [N0 Nw]. pose proof (toAllocate_length txns) as Hl.
    assert (Hold : forall k, ot_nextNonce o = Some k -> (k <= next)%Z). { intros k Hk. destruct Hris as [E|(c & _ & [= ->] & Hlt)]; [rewrite Hk in E; injection E; lia|]. specialize (Hlt k Hk). lia. }
    assert (Hw : (next + Z.of_nat (length (toAllocate txns)) < u64_modulus)%Z) by lia.
    apply (Hnew (setNonce (allocated txns next))) with (next' := Some (nonceAfter next (length (toAllocate txns)))).
    + apply setNonce_id.
    + apply setNonce_mine.
    + apply setNonce_nonce.
    + intros tx Htx. destruct (setNonce_cases txns next N0 Hw tx) as [(p & _ & _ & ->)|[-> Hno]]; [eauto|]. destruct (px_Nonce tx) eqn:En; [eauto|].
      destruct Hno. apply list_elem_of_fmap_2. by apply toAllocate_elem.
    + intros r Hr [n Hn]. destruct (setNonce_cases txns next N0 Hw r) as [(p & Hp & E & _)|[E _]]; [|done].
      assert (mine r = true /\ px_Nonce r = None) as [_ Hno] by (eapply allocated_row; eauto; apply Ho). congruence.
    + eapply tableOk_allocated; eauto. apply Ho.
Qed.

Lemma pollNew_spec o answers now o' r : poolInv o -> nextOk o -> answersOk answers ->
  pollNew pool (keptOf o) (aboveOf o) answers now o = (o', r) -> polled o o' r.
Proof.
  intros Ho Hnext Hans. unfold pollNew. destruct (pc_maxInFlightTxs pool - length (keptOf o) =? 0)%nat eqn:Es.
  { intros [= <- <-]. do 4 (split; [done|]). split; [apply poolInv_sublist; [done|apply filter_sublist]|]. exists []. by rewrite app_nil_r. }
  destruct (negb (pa_query answers)); [by intros [= <- <-]|]. cbv zeta. unfold mbind at 1, M_bind at 1, gets at 1. cbv beta iota. unfold mbind at 1, M_bind at 1, modify at 1. cbv beta iota.
  set (txns := pollQuery pool (aboveOf o) (pc_maxInFlightTxs pool - length (keptOf o)) (ot_db o)).
  set (o0 := o <| ot_collected ::= _ |>). assert (Ho0 : poolInv o0) by (apply (poolInv_frame pool calculateTransactionHash o); try done; apply Ho).
  destruct (pollQuery_queried (aboveOf o) (pc_maxInFlightTxs pool - length (keptOf o)) (ot_db o) (to_ids _ _ _ (pi_table _ _ _ Ho))) as (Hq & Hlen & Hpd).
  pose proof (allocateRetry_cases pool txns (pa_nonces answers) now o0) as Ha.
  unfold mbind at 1, M_bind at 1. destruct (allocateNoncesRetry pool txns (pa_nonces answers) now o0) as [o1 r1] eqn:Ear.
  assert (Hframe : ot_inFlightTxs o1 = ot_inFlightTxs o /\ ot_exited o1 = ot_exited o /\ ot_state o1 = ot_state o /\ ot_stateEntryTime o1 = ot_stateEntryTime o)
    by (clear Ear; inversion Ha; done).
  destruct Hframe as (F1 & F2 & F3 & F4). destruct r1 as [additional|e|c].
  - destruct (poll_additional o0 o1 additional txns answers now Ho0 Hq Hpd) as (new & En & Hp & Hinv); [unfold txns; lia|done|done|done|].
    unfold mbind at 1, M_bind at 1, modify at 1. cbv beta iota. unfold mbind, M_bind, liftR. rewrite En. cbv beta iota.
    intros [= <- <-]. do 4 (split; [done|]). split; [by apply Hinv|by exists new].
  - intros [= <- <-]. do 4 (split; [done|]). inversion Ha as [|n e' Hne Hris E1|]; subst. destruct Ho0 as [P1 P2 P3 P4 P5]. constructor; try done. by eapply tableOk_risen.
  - inversion Ha.
Qed.

Lemma process_spec o balance now : poolInv o -> exists o' waiting, ProcessInFlightTransactions pool conf balance now o = (o', Ok waiting) /\ poolInv o' /\
  ot_db o' = ot_db o /\ ot_nextNonce o' = ot_nextNonce o /\ ot_state o' = ot_state o /\ ot_stateEntryTime o' = ot_stateEntryTime o /\
  txKey <$> ot_inFlightTxs o' = txKey <$> ot_inFlightTxs o /\ ot_lastQueueUpdate o' = ot_lastQueueUpdate o.
Proof.
  intros Ho. unfold ProcessInFlightTransactions.
  assert (Hp : forall account, exists o' waiting, (r ← liftR (fun o => processEach conf account false true (ot_inFlightTxs o) now);
      modify (fun o => o <| ot_inFlightTxs := r.1 |>) ≫= fun _ => mret r.2) o = (o', Ok waiting) /\ poolInv o' /\
      ot_db o' = ot_db o /\ ot_nextNonce o' = ot_nextNonce o /\ ot_state o' = ot_state o /\ ot_stateEntryTime o' = ot_stateEntryTime o /\
      txKey <$> ot_inFlightTxs o' = txKey <$> ot_inFlightTxs o /\ ot_lastQueueUpdate o' = ot_lastQueueUpdate o).
  { intros account. destruct (processEach_inv conf calculateTransactionHash account false true (ot_inFlightTxs o) now (pi_safe _ _ _ Ho)) as (its & waiting & E & Hi).
    unfold mbind, M_bind, liftR. rewrite E. do 2 eexists. split; [reflexivity|]. apply processEach_keys in E. split_and!; try done. by apply poolInv_flight. }
  assert (Hstop : poolInv (o <| ot_stopped := true |>)) by (apply (poolInv_frame pool calculateTransactionHash o); try done; apply Ho).
  destruct (pc_hasZeroGasPrice pool); [apply Hp|]. destruct balance as [e|b]; [|apply Hp].
  destruct (pc_strategy pool); [do 2 eexists; split; [reflexivity|done]|do 2 eexists; split; [reflexivity|done]|apply Hp].
Qed.

(** The state that an iteration with transactions leaves: one that is stale is running or waiting after it. *)
Lemma nextState_spec o waiting now : exists s e, nextState pool waiting now o = (o <| ot_state := s |> <| ot_stateEntryTime := e |>, Ok tt) /\
  (ot_state o = OrchestratorStateStale -> s <> OrchestratorStateStale /\ e = now).
Proof.
  assert (Hid : o = o <| ot_state := ot_state o |> <| ot_stateEntryTime := ot_stateEntryTime o |>) by by destruct o.
  unfold nextState, mbind, M_bind, gets, setState, modify. cbv beta iota zeta.
  destruct (sinceExceeds _ _ _ && _) eqn:E1; [do 2 eexists; split; [reflexivity|]; intros E; rewrite E, bool_decide_true, andb_false_r in E1 by done; discriminate|].
  destruct (waiting && _); [do 2 eexists; split; [reflexivity|done]|]. clear E1. destruct (negb _) eqn:E2; [do 2 eexists; split; [reflexivity|done]|].
  do 2 eexists. split; [unfold mret, M_ret; f_equal; exact Hid|]. intros E. rewrite E in E2. discriminate.
Qed.

(** The chain and the database answer, so that the iteration is not cancelled. *)
Definition answered (answers : PollAnswers) : Prop := pa_query answers = true /\ exists c, (inr c, None) ∈ pa_nonces answers.

Lemma allocate_answered txns c now o : exists o' l, allocateNonces pool txns (inr c, None) now o = (o', Ok l).
Proof.
  unfold allocateNonces. destruct (toAllocate txns) as [|tx l]; [by do 2 eexists|]. cbn [fst snd]. unfold mbind, M_bind, gets, modify, mret, M_ret. cbv beta iota.
  destruct (ot_nextNonce o) as [next|] eqn:En; cbn [isSome negb orb].
  - destruct (sinceExceeds _ _ _); cbn [when]; [destruct (c <=? next)%Z|]; cbn; rewrite ?En; by do 2 eexists.
  - cbn. by do 2 eexists.
Qed.

Lemma retry_answered txns answers now c o : (inr c, None) ∈ answers -> forall e o', allocateNoncesRetry pool txns answers now o <> (o', Err e).
Proof.
  revert o. induction answers as [|a answers IH]; intros o Hc e o'; [by apply elem_of_nil in Hc|]. cbn [allocateNoncesRetry]. unfold caught.
  destruct (allocateNonces pool txns a now o) as [o1 [l|e1|cr]] eqn:Ea; [done| |done]. apply elem_of_cons in Hc as [<-|Hc]; [|by apply IH].
  destruct (allocate_answered txns c now o) as (o2 & l & E). rewrite E in Ea. discriminate.
Qed.

Lemma pollNew_answered kept above answers now o e o' : answered answers ->
  pollNew pool kept above answers now o <> (o', Err e).
Proof.
  intros [Hq [c Hc]]. unfold pollNew. destruct (_ =? 0)%nat; [done|]. rewrite Hq. cbn [negb]. unfold mbind at 1, M_bind at 1, gets at 1. cbv beta iota.
  unfold mbind at 1, M_bind at 1, modify at 1. cbv beta iota. unfold mbind at 1, M_bind at 1.
  match goal with |- context [allocateNoncesRetry ?p ?t ?a ?n ?w] => pose proof (retry_answered t a n c w Hc) as Hr; destruct (allocateNoncesRetry p t a n w) as [o1 [l|e1|cr]] end; [|by destruct (Hr e1 o1)|done].
  unfold mbind, M_bind, modify, liftR. cbv beta iota. assert (Hn : forall l e, newInFlight l now <> Err e).
  { clear. induction l as [|tx l IH]; intros e; [done|]. cbn. destruct (px_Binding tx); [|apply IH]. unfold NewInFlightTransactionStageController. destruct (px_Nonce tx); [|done].
    specialize (IH e). by destruct (newInFlight l now). }
  specialize (Hn l). destruct (newInFlight l now) as [l'|e2|]; [done|by destruct (Hn e2)|done].
Qed.

(** An iteration returns, and keeps the invariant; one that is answered does not leave an orchestrator stale that was. *)
Lemma poll_spec o answers now : poolInv o -> nextOk o -> answersOk answers -> exists o' r, pollAndProcess pool conf answers now o = (o', Ok r) /\ poolInv o' /\
  (answered answers -> ot_state o = OrchestratorStateStale -> ot_state o' <> OrchestratorStateStale /\ ot_stateEntryTime o' = now).
Proof.
  intros Ho Hnext Hans. unfold pollAndProcess. unfold mbind at 1, M_bind at 1, gets at 1. cbv beta iota. fold (keptOf o). fold (aboveOf o).
  set (removed := List.filter CanBeRemoved (ot_inFlightTxs o)). unfold mbind at 1, M_bind at 1, modify at 1. cbv beta iota.
  set (o0 := o <| ot_totalCompleted ::= _ |> <| ot_exited ::= _ |>).
  assert (Hrem : Forall txInv removed) by (rewrite Forall_forall; intros it Hit; apply (Forall_forall txInv (ot_inFlightTxs o)); [apply Ho|]; eapply elem_of_sublist; [exact Hit|apply filter_sublist]).
  assert (Ho0 : poolInv o0) by (apply (poolInv_frame pool calculateTransactionHash o); try done; cbn; apply Forall_app_2; [apply Ho|done]).
  unfold caught. destruct (pollNew pool (keptOf o) (aboveOf o) answers now o0) as [o1 r] eqn:Epoll.
  destruct (pollNew_spec o0 answers now o1 r Ho0 Hnext Hans Epoll) as (F1 & F2 & F3 & F4 & Hp). destruct r as [l|e|c]; [| |done].
  - destruct Hp as [Hp _]. unfold mbind at 1, M_bind at 1, modify at 1. cbv beta iota. set (o2 := o1 <| ot_inFlightTxs := l |>) in *.
    assert (Hset : forall o s, poolInv o -> poolInv ((setState s now o).1)) by (intros x s Hx; apply (poolInv_frame pool calculateTransactionHash x); try done; apply Hx).
    destruct (negb (length l =? 0)%nat).
    + unfold mbind at 1, M_bind at 1. destruct (process_spec o2 (pa_balance answers) now Hp) as (o3 & waiting & E & H3 & _ & _ & Es3 & _). unfold mbind at 1, M_bind at 1. rewrite E. cbv beta iota.
      set (o4 := (if negb (length removed =? 0)%nat || negb (length l =? length (keptOf o))%nat then o3 <| ot_lastQueueUpdate := Some now |> else o3)).
      set (o5 := if (waiting : bool) then o4 <| ot_retrieveBalance := true |> else o4).
      assert (H5 : poolInv o5) by (subst o5 o4; destruct waiting, (negb (length removed =? 0)%nat || negb (length l =? length (keptOf o))%nat);
        (apply (poolInv_frame pool calculateTransactionHash o3); try done; apply H3)).
      assert (Es5 : ot_state o5 = ot_state o) by (subst o5 o4; transitivity (ot_state o3); [by destruct waiting, (negb (length removed =? 0)%nat || negb (length l =? length (keptOf o))%nat)|by rewrite Es3]).
      destruct (nextState_spec o5 waiting now) as (s & e & En & Hst). exists (o5 <| ot_state := s |> <| ot_stateEntryTime := e |>). eexists.
      split; [|split; [by apply (poolInv_frame pool calculateTransactionHash o5); try apply H5|intros _ Est; apply Hst; by rewrite Es5]]. clear Es5 Hst.
      subst o5 o4. destruct (negb (length removed =? 0)%nat || negb (length l =? length (keptOf o))%nat), waiting; cbn [when]; unfold mbind, M_bind, modify, mret, M_ret; cbv beta iota; rewrite En; reflexivity.
    + unfold mbind, M_bind, gets. destruct (negb (bool_decide _)) eqn:Ei; cbn [when]; (do 2 eexists; split; [reflexivity|]); [split; [by apply Hset|done]|split; [done|]].
      intros _ Est. change (ot_state o2) with (ot_state o1) in Ei. rewrite F3 in Ei. change (ot_state o0) with (ot_state o) in Ei. rewrite Est in Ei. discriminate.
  - do 2 eexists. split; [reflexivity|]. split; [apply poolInv_sublist; [done|]; rewrite F1; apply filter_sublist|].
    intros Ha. by destruct (pollNew_answered (keptOf o) (aboveOf o) answers now o0 e o1 Ha).
Qed.

(** ** Every step *)

Lemma poolInv_rows o f :
  (forall r, px_PublicTxnID (f r) = px_PublicTxnID r) -> (forall r, mine (f r) = mine r) -> (forall r, px_Nonce (f r) = px_Nonce r) ->
  poolInv o -> forall o', db_public_txns (ot_db o') = f <$> db_public_txns (ot_db o) -> ot_nextNonce o' = ot_nextNonce o -> ot_inFlightTxs o' = ot_inFlightTxs o -> ot_exited o' = ot_exited o -> poolInv o'.
Proof.
  intros F1 F2 F3 [H1 H2 H3 H4 H5] o' E1 E2 E3 E4. constructor; rewrite ?E1, ?E2, ?E3, ?E4; try done; [by apply tableOk_fmap|].
  eapply Forall_impl; [exact H2|]. intros it (r & n & Hr & Hm & Hn & Ek). exists (f r), n. rewrite F1, F2, F3. split_and!; try done. by apply list_elem_of_fmap_2.
Qed.

Lemma notify_key status it : txKey (NotifyStatusUpdate status it).1 = txKey it.
Proof. unfold NotifyStatusUpdate, mbind, M_bind, gets. by destruct (_ && _). Qed.

Lemma insert_alter {A} (l : list A) k (f : A -> A) a : l !! k = Some a -> <[k := f a]> l = alter f k l.
Proof.
  intros H. apply list_eq. intros i. rewrite list_lookup_alter. destruct (decide (k = i)) as [->|Hne]; [|by rewrite list_lookup_insert_ne].
  rewrite list_lookup_insert_eq by by eapply lookup_lt_Some. by rewrite H.
Qed.

Lemma notify_keeps k status : keeps poolInv (fun _ => True) (notifyAt k status).
Proof.
  intros o Ho. unfold notifyAt. destruct (ot_inFlightTxs o !! k) as [it|] eqn:Ek; [|done]. split; [|done]. cbn [fst].
  pose proof (poolInv_alter pool calculateTransactionHash o k (fun it => (NotifyStatusUpdate status it).1) Ho) as H.
  specialize (H ltac:(intros x Hx; exact (step_inv conf calculateTransactionHash (StepNotify status) x Hx)) (notify_key status)).
  change (poolInv (o <| ot_inFlightTxs := <[k := (NotifyStatusUpdate status it).1]> (ot_inFlightTxs o) |>)).
  rewrite (insert_alter _ k (fun it => (NotifyStatusUpdate status it).1) it Ek). exact H.
Qed.

Lemma suspend_keeps nonce suspended err : keeps poolInv (fun _ => True) (persistSuspendedFlag pool nonce suspended err).
Proof.
  destruct err as [e|]; [apply keeps_throw|]. apply keeps_modify. intros o Ho.
  eapply (poolInv_rows o (fun r => if mine r && bool_decide (px_Nonce r = Some nonce) then r <| px_Suspended := suspended |> else r)); try done; intros r; by destruct (mine r && _).
Qed.

Lemma dispatch_keeps nonce action err : keeps poolInv (fun _ => True) (dispatchAction pool nonce action err).
Proof.
  unfold dispatchAction. apply keeps_bind; [apply keeps_gets|]. intros its. destruct (list_find _ its) as [[k it]|]; [|apply keeps_ret].
  destruct action; (apply keeps_bind; [apply notify_keeps|intros r]); [apply suspend_keeps|apply suspend_keeps|].
  destruct r; [apply keeps_ret|apply keeps_throw|by apply keeps_crash].
Qed.

Lemma runAsyncAt_spec n os now its k db : Forall txInv its ->
  Forall txInv (runAsyncAt conf calculateTransactionHash n os now its k db).1 /\ txKey <$> (runAsyncAt conf calculateTransactionHash n os now its k db).1 = txKey <$> its /\
  db_public_txns (runAsyncAt conf calculateTransactionHash n os now its k db).2 = db_public_txns db.
Proof.
  intros H. unfold runAsyncAt. destruct (its !! k) as [it|] eqn:Ek; [|done]. cbn [fst snd]. rewrite (insert_alter _ k (runAsync conf calculateTransactionHash n os now) it Ek).
  split; [|split; [|done]].
  - apply Forall_alter; [done|]. intros x _ Hx. by apply runAsync_inv.
  - apply list_eq. intros i. rewrite !list_lookup_fmap, list_lookup_alter. destruct (decide (k = i)) as [->|]; [|done]. destruct (its !! i) as [x|]; [|done]. cbn. f_equal. apply async_key.
Qed.

Lemma tableOk_insert rows next r : tableOk rows next -> px_Nonce r = None -> ~ px_PublicTxnID r ∈ px_PublicTxnID <$> rows -> tableOk (rows ++ [r]) next.
Proof.
  intros [H1 H2 H3] Hn Hid. constructor.
  - rewrite fmap_app. apply NoDup_app. split; [done|]. split; [|apply NoDup_singleton]. intros x Hx Hx'. apply list_elem_of_singleton in Hx' as ->. done.
  - intros r' n [Hr'| ->%list_elem_of_singleton]%elem_of_app; [by apply H2|congruence].
  - intros r1 r2 n [Hr1| ->%list_elem_of_singleton]%elem_of_app [Hr2| ->%list_elem_of_singleton]%elem_of_app; [by apply H3|congruence..].
Qed.

Lemma WriteNewTransaction_rows txi db : db_public_txns (WriteNewTransaction pool txi db) = db_public_txns db \/
  exists r, db_public_txns (WriteNewTransaction pool txi db) = db_public_txns db ++ [r] /\ px_Nonce r = None /\ ~ px_PublicTxnID r ∈ px_PublicTxnID <$> db_public_txns db.
Proof.
  unfold WriteNewTransaction. destruct (existsb (fun r => N.eqb (px_PublicTxnID r) (px_PublicTxnID txi)) (db_public_txns db)) eqn:Ee; [by left|right].
  eexists. split; [reflexivity|]. split; [done|]. intros (r & Er & Hr)%list_elem_of_fmap. cbn in Er. apply list_elem_of_In in Hr.
  assert (existsb (fun r => N.eqb (px_PublicTxnID r) (px_PublicTxnID txi)) (db_public_txns db) = true); [|congruence]. apply existsb_exists. exists r. split; [done|]. by apply N.eqb_eq.
Qed.

(** Tables that an orchestrator may start from. *)
Definition dbOk (db : PubDB) : Prop := exists next, tableOk (db_public_txns db) (Some next) /\ (0 <= next < u64_modulus)%Z.

Lemma maxNonce_elem l m : maxNonce l = Some m -> m ∈ l.
Proof.
  destruct l as [|k l]; [done|]. intros [= <-]. revert k. induction l as [|a l IH]; intros k; [left|]. cbn. specialize (IH (Z.max k a)).
  apply elem_of_cons in IH as [E|H]; [|by right; right]. rewrite E. destruct (Z.max_spec k a) as [[_ ->]|[_ ->]]; [right; left|left].
Qed.

Lemma restart_inv db exited now : dbOk db -> Forall txInv exited -> poolInv (initNextNonceFromDB pool None (NewOrchestrator db exited now)).1.
Proof.
  intros (next & [H1 H2 H3] & Hb) He. unfold initNextNonceFromDB, mbind, M_bind, gets. cbv beta iota. change (ot_db (NewOrchestrator db exited now)) with db.
  assert (Hin : forall r n, r ∈ db_public_txns db -> mine r = true -> px_Nonce r = Some n -> n ∈ omap px_Nonce (List.filter mine (db_public_txns db))).
  { intros r n Hr Hm Hn. apply list_elem_of_omap. exists r. split; [|done]. apply list_elem_of_In, filter_In. split; [by apply list_elem_of_In|done]. }
  destruct (maxNonce _) as [m|] eqn:Em.
  - assert (Hm := maxNonce_elem _ _ Em). apply list_elem_of_omap in Hm as (r & Hr & Hn). apply list_elem_of_In, filter_In in Hr as [Hr Hm]. apply list_elem_of_In in Hr.
    destruct (H2 r m Hr Hm Hn) as (k & [= <-] & Hk). constructor; cbn; try done; [|by constructor]. constructor; [done| |done]. intros r' n Hr' Hm' Hn'.
    destruct (maxNonce_ge _ n (Hin r' n Hr' Hm' Hn')) as (m' & Em' & Hle). rewrite Em in Em'. injection Em' as <-. destruct (H2 r' n Hr' Hm' Hn') as (k & _ & Hk').
    eexists. split; [done|]. rewrite u64_add_exact; [lia|unfold u64_range; lia|lia|lia].
  - constructor; cbn; try done; [|by constructor]. constructor; [done| |done]. intros r' n Hr' Hm' Hn'. destruct (maxNonce_ge _ n (Hin r' n Hr' Hm' Hn')) as (m' & Em' & _). congruence.
Qed.

(** What is asked of a step: no count of the chain and no nonce comes near the end of its 64 bits. *)
Definition stepOk (s : poolStep) (o : Orchestrator) : Prop := nextOk o /\ match s with PoolIterate answers _ => answersOk answers | _ => True end.

Lemma poolStep_inv s o : poolInv o -> stepOk s o -> poolInv (poolStepRun pool conf calculateTransactionHash s o).
Proof.
  intros Ho [Hnext Hs]. destruct s as [answers now|exited k n os now|now|nonce action err|pubTXID newPtx|txi|itxs|now]; cbn [poolStepRun].
  - unfold poolIterate. destruct (handleUpdates_spec pool conf calculateTransactionHash o Ho) as (o1 & E1 & Ho1 & En & _). unfold mbind, M_bind. rewrite E1.
    destruct (poll_spec o1 answers now Ho1) as (o2 & r & E2 & Ho2 & _); [unfold nextOk; by rewrite En|done|]. by rewrite E2.
  - destruct exited.
    + destruct (runAsyncAt_spec n os now (ot_exited o) k (ot_db o) (pi_exited _ _ _ Ho)) as (A1 & A2 & A3). by apply (poolInv_frame pool calculateTransactionHash o).
    + destruct (runAsyncAt_spec n os now (ot_inFlightTxs o) k (ot_db o) (pi_safe _ _ _ Ho)) as (A1 & A2 & A3).
      apply (poolInv_frame pool calculateTransactionHash (o <| ot_inFlightTxs := (runAsyncAt conf calculateTransactionHash n os now (ot_inFlightTxs o) k (ot_db o)).1 |>)); [by apply poolInv_flight|done..|apply Ho].
  - unfold flushOrchestrator, mbind, M_bind, gets. destruct (_ || _); cbn [when]; apply (poolInv_frame pool calculateTransactionHash o); try done; apply Ho.
  - exact (proj1 (dispatch_keeps nonce action err o Ho)).
  - apply (poolInv_frame pool calculateTransactionHash o); try done; apply Ho.
  - destruct (WriteNewTransaction_rows txi (ot_db o)) as [E|(r & E & Hn & Hid)]; [apply (poolInv_frame pool calculateTransactionHash o); try done; apply Ho|].
    destruct Ho as [P1 P2 P3 P4 P5]. constructor; try done.
    + change (tableOk (db_public_txns (WriteNewTransaction pool txi (ot_db o))) (ot_nextNonce o)). rewrite E. by apply tableOk_insert.
    + change (Forall (flightOk pool (db_public_txns (WriteNewTransaction pool txi (ot_db o)))) (ot_inFlightTxs o)). rewrite E.
      eapply Forall_impl; [exact P2|]. intros it (x & m & Hx & H). exists x, m. split; [set_solver|done].
  - assert (Hn : keeps poolInv (fun _ => True) (NotifyConfirmPersisted pool (MatchUpdateConfirmedTransactions itxs (ot_db o)).2)).
    { apply keeps_for_each. intros c _. destruct (String.eqb _ _); [apply keeps_log_error, dispatch_keeps|apply keeps_ret]. }
    apply Hn. eapply (poolInv_rows o (fun r => if existsb (fun c => N.eqb (cm_PublicTxnID c) (px_PublicTxnID r)) (omap (matchOf (matchingSubmissions (ot_db o) (ix_Hash <$> itxs))) itxs).*2 then r <| px_Completed := true |> else r)); try done; intros r; by destruct (existsb _ _).
  - apply restart_inv; [|apply Forall_app_2; apply Ho]. destruct (ot_nextNonce o) as [next|] eqn:En.
    + exists next. split; [rewrite <- En; apply Ho|]. destruct (Hnext next En). lia.
    + exists 0%Z. split; [|unfold u64_modulus; lia]. destruct (pi_table _ _ _ Ho) as [T1 T2 T3]. constructor; [done| |done]. intros r m Hr Hm Hn. destruct (T2 r m Hr Hm Hn) as (k & Ek & _). congruence.
Qed.

(** A run all of whose steps are so. *)
Fixpoint poolRun (l : list poolStep) (o : Orchestrator) : Orchestrator :=
  match l with [] => o | s :: l => poolRun l (poolStepRun pool conf calculateTransactionHash s o) end.
Fixpoint runOk (l : list poolStep) (o : Orchestrator) : Prop :=
  match l with [] => True | s :: l => stepOk s o /\ runOk l (poolStepRun pool conf calculateTransactionHash s o) end.

Lemma poolRun_inv l o : poolInv o -> runOk l o -> poolInv (poolRun l o).
Proof. revert o. induction l as [|s l IH]; intros o Ho; [done|]. intros [Hs Hl]. apply IH; [by apply poolStep_inv|done]. Qed.

(** The orchestrator of an address, on tables that it may start from. *)
Definition startOn (db : PubDB) (now : Z) : Orchestrator := (initNextNonceFromDB pool None (NewOrchestrator db [] now)).1.

(** (C18) Whatever happens to an orchestrator and to those that follow it for the same address
    (iterations, goroutines of transactions in flight and of those that were, requests, new
    transactions, confirmations, restarts, in any order and with any failures), no two of the address'
    transactions in the table have the same nonce, and no two that are in flight are for the same
    transaction or have the same nonce. *)
Theorem nonces_distinct db now l :
  dbOk db -> runOk l (startOn db now) ->
  let o := poolRun l (startOn db now) in
  (forall r1 r2 n, r1 ∈ db_public_txns (ot_db o) -> r2 ∈ db_public_txns (ot_db o) -> mine r1 = true -> mine r2 = true -> px_Nonce r1 = Some n -> px_Nonce r2 = Some n -> r1 = r2) /\
  NoDup (nonceOf <$> ot_inFlightTxs o) /\ NoDup ((fun it => px_PublicTxnID (mt_ptx (it_mtx it))) <$> ot_inFlightTxs o).
Proof.
  intros Hdb Hl o. assert (Ho : poolInv o) by (apply poolRun_inv; [apply restart_inv; [done|constructor]|done]). destruct Ho as [[T1 T2 T3] P2 P3 P4 P5].
  split; [exact T3|]. split; [|exact P3]. clearbody o. revert P2 P3. generalize (ot_inFlightTxs o). intros its P2 P3.
  induction its as [|it its IH]; [constructor|]. inversion_clear P2 as [|? ? Hit Hits]. cbn in P3. apply NoDup_cons in P3 as [Hni Hnd]. cbn. apply NoDup_cons. split; [|by apply IH].
  intros (it' & En & Hit')%list_elem_of_fmap. apply Hni. rewrite Forall_forall in Hits. destruct Hit as (r & n & Hr & Hm & Hn & Ek), (Hits it' Hit') as (r' & n' & Hr' & Hm' & Hn' & Ek').
  assert (n = n') as <- by (unfold nonceOf, txKey in *; injection Ek as _ Ek; injection Ek' as _ Ek'; rewrite Ek, Ek' in En; exact En).
  assert (r = r') as <- by by eapply T3. apply list_elem_of_fmap. exists it'. split; [|done]. change ((txKey it).1 = (txKey it').1). by rewrite Ek, Ek'.
Qed.

(** Where a run of such steps comes to, and what is known of the step after it. *)
Lemma run_reaches db now l s : dbOk db -> runOk (l ++ [s]) (startOn db now) -> poolInv (poolRun l (startOn db now)) /\ stepOk s (poolRun l (startOn db now)).
Proof.
  intros Hdb Hl. assert (H0 : poolInv (startOn db now)) by (apply restart_inv; [done|constructor]). revert Hl H0. generalize (startOn db now).
  induction l as [|s' l IH]; intros o [Hs Hl] Ho; [done|]. apply IH; [done|by apply poolStep_inv].
Qed.

(** An iteration, from the memory that the updates are applied to. *)
Lemma iterate_spec o answers now : poolInv o -> stepOk (PoolIterate answers now) o -> exists o' r, poolIterate pool conf answers now o = (o', Ok r) /\ poolInv o' /\
  (answered answers -> ot_state o = OrchestratorStateStale -> ot_state o' <> OrchestratorStateStale /\ ot_stateEntryTime o' = now).
Proof.
  intros Ho [Hnext Hans]. unfold poolIterate. destruct (handleUpdates_spec pool conf calculateTransactionHash o Ho) as (o1 & E1 & Ho1 & En & _ & Es & _). unfold mbind, M_bind. rewrite E1, <- Es.
  apply poll_spec; [done|unfold nextOk; by rewrite En|done].
Qed.

(** In such a run an iteration of the orchestrator's loop always returns: neither what it reads
    from the tables nor what the goroutines of its transactions left makes it panic. *)
Theorem iteration_never_panics db now l answers now' :
  dbOk db -> runOk (l ++ [PoolIterate answers now']) (startOn db now) ->
  exists r, (poolIterate pool conf answers now' (poolRun l (startOn db now))).2 = Ok r.
Proof.
  intros Hdb Hl. destruct (run_reaches db now l (PoolIterate answers now') Hdb Hl) as [Ho Hs]. destruct (iterate_spec _ answers now' Ho Hs) as (o' & r & E & _). rewrite E. by exists r.
Qed.

End Nonces.
