(* ===== verification/PubTxFunds.v ===== *)
(** * Public transactions: funds and staleness

    The gas of what one iteration signs is covered by the balance that it was given: by the costs of
    PubTxStages' passes, as PubTxOrchestrator strings them together.  And an orchestrator that is stale
    is not so after its next iteration, so that the time after which the engine stops stale ones is not
    reached.  With the concrete runs of an orchestrator, also for the theorems of PubTxNonces.

    Source: core/go/internal/publictxmgr, as in PubTxOrchestrator. *)

From S2P Require Import Prelude PubTxGas PubTxStages PubTxSafety PubTxRuns PubTxOrchestrator PubTxPool PubTxNonces.
Open Scope string_scope.
Open Scope list_scope.

Section Funds.
Context (pool : PoolConf) (conf : OrchestratorConf).

(** ** Signing *)

(** The goroutines that are to sign. *)
Definition isSigning (a : AsyncAction) : bool := match a with AsyncSignTx _ _ => true | _ => false end.
Definition signings (t : InFlightTx) : list AsyncAction := List.filter isSigning (it_async t).*2.

Definition sameSignings (t t' : InFlightTx) : Prop := signings t' = signings t.
#[local] Instance sameSignings_preorder : PreOrder sameSignings.
Proof. split; [done|]. unfold sameSignings. intros t1 t2 t3. congruence. Qed.

Lemma execute_signings g action : isSigning action = false -> respects sameSignings (executeAsync g action).
Proof. intros H. apply respects_modify. intros t. unfold sameSignings, signings. cbn. rewrite fmap_app, List.filter_app. cbn. by rewrite H, app_nil_r. Qed.

Ltac signings_go :=
  repeat first
    [ simple apply respects_ret; apply _ | simple apply respects_gets; apply _ | simple apply respects_crash; apply _
    | by simple apply execute_signings | simple apply respects_when; [apply _|] | simple apply respects_bind; [apply _| |intros ?] | by simple apply respects_modify
    | by intros ?; unfold getGen, GetCurrentGeneration; case_match
    | case_match ].

Lemma start_signings g stage substatus now : stage <> InFlightTxStageSigning -> respects sameSignings (StartNewStageContext g stage substatus now).
Proof.
  intros Hs. unfold StartNewStageContext, TriggerRetrieveGasPrice, TriggerSubmitTx, TriggerStatusUpdate, triggered, updGen. destruct stage; try done; signings_go.
Qed.

Lemma outputs_signings now : respects sameSignings (processCurrentGenerationStageOutputs conf now).
Proof.
  assert (Hone : forall g i stage output, respects sameSignings (processOutput conf g i stage output now)).
  { intros. unfold processOutput, processRetrieveGasPriceStageOutput, processSigningStageOutput, processSubmittingStageOutput, processStatusUpdateStageOutput,
      TriggerNewStageRun, TriggerPersistTxState, ClearRunningStageContext, MarkInFlightTxStale, getCtx, updCtx, derefM, updGen.
    repeat first [by simple apply start_signings|signings_go]. }
  assert (Hall : forall g i stage outputs err, respects sameSignings (processOutputs conf g i stage outputs now err)).
  { intros g i stage outputs. induction outputs as [|o rest IH]; intros err; cbn [processOutputs]; signings_go; auto. }
  unfold processCurrentGenerationStageOutputs, ClearRunningStageContext, getCtx, updGen. repeat first [simple apply Hall|signings_go].
Qed.

Lemma updates_signings now : respects sameSignings (applyQueuedUpdates now).
Proof. unfold applyQueuedUpdates, ApplyInMemoryUpdates, NewGeneration, PubTxStages.Cancel, updGen. signings_go. Qed.

(** What starting a stage leaves: the transaction, and the context it has from the orchestrator. *)
Definition sameTransaction (t t' : InFlightTx) : Prop := it_mtx t' = it_mtx t /\ it_orchestratorContext t' = it_orchestratorContext t.
#[local] Instance sameTransaction_preorder : PreOrder sameTransaction.
Proof. split; [done|]. unfold sameTransaction. intros t1 t2 t3 [] []. split; congruence. Qed.

Lemma start_transaction cost now : respects sameTransaction (startNewStage conf cost now).
Proof.
  unfold startNewStage, TriggerNewStageRun, StartNewStageContext, TriggerRetrieveGasPrice, TriggerSignTx, TriggerSubmitTx, TriggerStatusUpdate, triggered, executeAsync, derefM, updGen.
  repeat first
    [ simple apply respects_ret; apply _ | simple apply respects_gets; apply _ | simple apply respects_crash; apply _
    | simple apply respects_when; [apply _|] | simple apply respects_bind; [apply _| |intros ?] | by simple apply respects_modify
    | by intros ?; unfold getGen, GetCurrentGeneration; case_match
    | case_match ].
Qed.

Lemma startNewStage_signs cost now t ctx :
  it_orchestratorContext t = Some ctx -> signings (startNewStage conf cost now t).1 <> signings t -> CanSubmit cost ctx = true.
Proof.
  intros Hctx. unfold startNewStage, mbind at 1, M_bind at 1, gets at 1. cbv beta iota zeta.
  assert (Hrun : forall stage substatus, stage <> InFlightTxStageSigning -> signings (TriggerNewStageRun stage substatus now t).1 = signings t).
  { intros stage substatus Hs. assert (Hr : respects sameSignings (TriggerNewStageRun stage substatus now)) by (unfold TriggerNewStageRun; repeat first [by simple apply start_signings|signings_go]). apply Hr. }
  destruct (match it_newStatus t with Some _ => _ | None => _ end); [by rewrite Hrun|]. destruct (IsReadyToExit _); [done|]. destruct (negb _); [by rewrite Hrun|].
  destruct (negb (isSome (mt_TransactionHash (it_mtx t)))).
  - rewrite Hctx. unfold derefM, mbind, M_bind, mret, M_ret. by destruct (CanSubmit cost ctx).
  - destruct (mt_LastSubmit (it_mtx t)); [|done]. destruct (_ <? _)%Z; cbn [when]; [by rewrite Hrun|done].
Qed.

(** A pass that signs had the funds for the cost that it reports, which is the transaction's. *)
Lemma pass_signs ctx now t t' out :
  ProduceLatestInFlightStageContext conf ctx now t = (t', Ok out) ->
  to_Cost out = costOf (it_mtx t') /\ (signings t' <> signings t -> CanSubmit (costOf (it_mtx t')) ctx = true).
Proof.
  unfold ProduceLatestInFlightStageContext. unfold mbind at 1, M_bind at 1. pose proof (updates_signings now t) as H0. destruct (applyQueuedUpdates now t) as [t1 [u| |]]; [|done..]. cbn [fst] in H0.
  unfold mbind at 1, M_bind at 1, modify at 1. cbv beta iota. set (t2 := t1 <| it_orchestratorContext := Some ctx |>).
  unfold mbind at 1, M_bind at 1. pose proof (outputs_signings now t2) as H1. pose proof (outputs_context conf now t2) as Hc. destruct (processCurrentGenerationStageOutputs conf now t2) as [t3 [err| |]]; [|done..].
  cbn [fst] in H1, Hc. unfold mbind at 1, M_bind at 1, mtxOf at 1, gets at 1. cbv beta iota.
  unfold mbind at 1, M_bind at 1, GetCurrentGeneration. destruct (it_generations t3) as [|gn0 gs] eqn:Eg; [done|].
  unfold mbind at 1, M_bind at 1, getGen. rewrite Eg. destruct ((gn0 :: gs) !! _) as [gn|]; [|done].
  unfold mbind at 1, M_bind at 1. destruct (isSome (gn_runningStageContext gn)) eqn:Er; cbn [negb when].
  - unfold mret, M_ret, mbind, M_bind, mtxOf, gets. intros [= <- <-]. cbn. split; [done|]. intros []. rewrite <- H0. exact H1.
  - pose proof (startNewStage_signs (costOf (it_mtx t3)) now t3 ctx Hc) as Hs. pose proof (start_transaction (costOf (it_mtx t3)) now t3) as [Em _].
    destruct (startNewStage conf (costOf (it_mtx t3)) now t3) as [t4 [[]| |]]; [|done..]. cbn [fst] in *.
    unfold mret, M_ret, mbind, M_bind, mtxOf, gets. intros [= <- <-]. cbn. rewrite Em. split; [done|]. intros Hne. apply Hs. intros E. apply Hne. rewrite E. rewrite <- H0. exact H1.
Qed.

(** ** What the transactions need *)

(** The sum of the costs, when all of them are known. *)
Fixpoint fundsNeeded (its : list InFlightTx) : option Z :=
  match its with
  | [] => Some 0%Z
  | it :: its => cost ← costOf (it_mtx it); rest ← fundsNeeded its; Some (Z.max 0 cost + rest)%Z
  end.

Lemma available_spend a cost : GetAvailableToSpend (Spend cost a) = (GetAvailableToSpend a - Z.max 0 cost)%Z.
Proof. unfold Spend, GetAvailableToSpend. destruct (0 <? cost)%Z eqn:E; cbn; lia. Qed.

Lemma processEach_funds its now : forall a unknown first its' waiting k it it',
  processEach conf (Some a) unknown first its now = Ok (its', waiting) -> its !! k = Some it -> its' !! k = Some it' -> signings it' <> signings it ->
  unknown = false /\ exists before cost, fundsNeeded (take k its') = Some before /\ costOf (it_mtx it') = Some cost /\ (before + cost <= GetAvailableToSpend a)%Z.
Proof.
  induction its as [|it0 its IH]; intros a unknown first its' waiting k it it'; [by destruct k|]. cbn [processEach fmap option_fmap option_map].
  destruct (ProduceLatestInFlightStageContext _ _ _ _) as [it0' [out| |]] eqn:Ep; [|done|done]. apply pass_signs in Ep as [Ec Hs]. rewrite Ec.
  destruct (costOf (it_mtx it0')) as [cost|] eqn:Ecost.
  - destruct (processEach conf (Some (Spend cost a)) unknown false its now) as [[its1 w1]| |] eqn:E; [|done|done]. intros [= <- _].
    destruct k as [|k]; cbn; intros Hit Hit' Hne.
    + injection Hit as <-. injection Hit' as <-. specialize (Hs Hne). unfold CanSubmit in Hs. cbn in Hs. apply andb_prop in Hs as [Hu Hle]. split; [by destruct unknown|].
      exists 0%Z, cost. split; [done|]. split; [done|]. lia.
    + destruct (IH _ _ _ _ _ _ _ _ E Hit Hit' Hne) as (Hu & before & c & Hb & Hc & Hle). split; [done|]. rewrite available_spend in Hle.
      exists (Z.max 0 cost + before)%Z, c. rewrite Ecost. cbn. rewrite Hb. split; [done|]. split; [done|]. lia.
  - destruct (processEach conf (Some a) true false its now) as [[its1 w1]| |] eqn:E; [|done|done]. intros [= <- _].
    destruct k as [|k]; cbn; intros Hit Hit' Hne.
    + injection Hit as <-. injection Hit' as <-. specialize (Hs Hne). discriminate.
    + destruct (IH _ _ _ _ _ _ _ _ E Hit Hit' Hne) as [[=] _].
Qed.

(** (C20) When the balance of the address is checked (the gas price is not fixed at zero and the balance
    could be read), the gas of a transaction that is signed in an iteration is covered by it, together
    with that of all transactions before it in the list: the most that the gas of each of those can
    cost, its fee cap times its gas limit and nothing for one that is done, is known, and with its own
    comes to no more than the balance that the iteration was given. The value that the transactions
    transfer is not counted. *)
Theorem signed_gas_within_balance b now o o' waiting k it it' :
  pc_hasZeroGasPrice pool = false -> ProcessInFlightTransactions pool conf (inr b) now o = (o', Ok waiting) ->
  ot_inFlightTxs o !! k = Some it -> ot_inFlightTxs o' !! k = Some it' -> signings it' <> signings it ->
  exists before cost, fundsNeeded (take k (ot_inFlightTxs o')) = Some before /\ costOf (it_mtx it') = Some cost /\ (before + cost <= b)%Z.
Proof.
  intros Hz. unfold ProcessInFlightTransactions. rewrite Hz. cbv zeta. unfold mbind, M_bind, liftR, modify, mret, M_ret.
  destruct (processEach conf (Some (NewAddressAccount b)) false true (ot_inFlightTxs o) now) as [[its w]| |] eqn:E; [|done|done].
  intros [= <- <-] Hit Hit' Hne. destruct (processEach_funds _ _ _ _ _ _ _ _ _ _ E Hit Hit' Hne) as (_ & before & cost & Hb & Hc & Hle).
  exists before, cost. split_and!; try done. unfold GetAvailableToSpend in Hle. cbn in Hle. lia.
Qed.
End Funds.

(** ** Staleness *)

(** An orchestrator that is stale is not so after its next iteration that is answered, however
    long its transactions have not moved, and the time of its state starts anew: within the idle
    timeout of that, a look of the engine does not stop it, whatever the timeout for stale ones is. *)
Theorem stale_is_not_stopped pool conf calculateTransactionHash db now l answers now' :
  dbOk pool db -> runOk pool conf calculateTransactionHash (l ++ [PoolIterate answers now']) (startOn pool db now) -> answered answers ->
  ot_state (poolRun pool conf calculateTransactionHash l (startOn pool db now)) = OrchestratorStateStale ->
  let o := poolStepRun pool conf calculateTransactionHash (PoolIterate answers now') (poolRun pool conf calculateTransactionHash l (startOn pool db now)) in
  ot_state o <> OrchestratorStateStale /\ ot_stateEntryTime o = now' /\
  forall later, (later - now' <= pc_orchestratorIdleTimeout pool)%Z -> ot_stopped (poolStepRun pool conf calculateTransactionHash (PoolFlush later) o) = ot_stopped o.
Proof.
  intros Hdb Hl Ha Hst. destruct (run_reaches pool conf calculateTransactionHash db now l (PoolIterate answers now') Hdb Hl) as [Ho Hs].
  destruct (iterate_spec pool conf calculateTransactionHash _ answers now' Ho Hs) as (o' & r & E & _ & Hn). destruct (Hn Ha Hst) as [Hne Het].
  cbn [poolStepRun]. rewrite E. cbn [fst]. split; [done|]. split; [done|]. intros later Hlater. unfold flushOrchestrator, mbind, M_bind, gets. cbv beta iota.
  rewrite Het, (bool_decide_false (ot_state o' = OrchestratorStateStale)) by done. replace (pc_orchestratorIdleTimeout pool <? later - now')%Z with false by (symmetry; apply Z.ltb_ge; lia).
  by rewrite andb_false_r.
Qed.

(** ** Concrete runs *)

Definition samplePool : PoolConf := MkPoolConf "0xa1" "node1" 2 false StrategyWait 1000 100 60 50.
Definition sampleRow (id : N) (nonce : option Z) : DBPublicTxn :=
  MkPublicTxn id "0xa1" nonce 0 (Some "0xb2") 21000 None None "0xfeedbeef" false "" false [] (Some (MkBinding id "private" "alice@node1" "0xc3")).
Definition sampleDB : PubDB := MkPubDB [sampleRow 1 (Some 7%Z); sampleRow 2 None; sampleRow 3 None] [] [].
Definition sampleAnswers : PollAnswers := MkPollAnswers true [(inl MsgContextCanceled, None); (inr 9%Z, None)] (inr 2000000%Z).

(** Prices come for two, and the balance is enough to sign one; it is suspended, which leaves room for
    the third once a new orchestrator takes over. *)
Definition samplePoolRun : list poolStep :=
  [PoolIterate sampleAnswers 0; PoolAsync false 0 0 sampleOutside 1; PoolAsync false 1 0 sampleOutside 1;
   PoolIterate sampleAnswers 2; PoolAsync false 0 0 sampleOutside 3; PoolAsync false 1 0 sampleOutside 3; PoolIterate sampleAnswers 4; PoolAsync false 0 0 sampleOutside 5; PoolIterate sampleAnswers 6;
   PoolAsync false 0 0 sampleOutside 7; PoolIterate sampleAnswers 8; PoolInsert (sampleRow 4 None); PoolDispatch 7 ActionSuspend None; PoolFlush 9; PoolIterate sampleAnswers 10;
   PoolRestart 11; PoolIterate sampleAnswers 12].

Lemma sampleDB_ok : dbOk samplePool sampleDB.
Proof.
  exists 8%Z. split; [|by vm_compute]. constructor.
  - apply (bool_decide_unpack _). vm_compute. exact I.
  - intros r n Hr _ Hn. exists 8%Z. split; [done|]. cbn in Hr. repeat (apply elem_of_cons in Hr as [->|Hr]; [cbn in Hn; try discriminate; injection Hn as <-; lia|]). by apply elem_of_nil in Hr.
  - intros r1 r2 n H1 H2 _ _ N1 N2. cbn in H1, H2.
    repeat (apply elem_of_cons in H1 as [->|H1]; [cbn in N1; try discriminate; repeat (apply elem_of_cons in H2 as [->|H2]; [cbn in N2; try discriminate; done|]); by apply elem_of_nil in H2|]).
    by apply elem_of_nil in H1.
Qed.

(** A concrete run keeps to what is asked of its steps. *)
Ltac step_ok :=
  split;
  [intros next Hnext; vm_compute in Hnext; first [discriminate|injection Hnext as <-; split; [lia|reflexivity]]
  |first [exact I|intros c Hc; apply list_elem_of_In in Hc; cbn in Hc; repeat destruct Hc as [Hc|Hc]; first [discriminate|injection Hc as <-; split; [lia|reflexivity]|destruct Hc]]].
Ltac run_ok := repeat (split; [step_ok|]); exact I.

Lemma nonces_distinct_witness :
  NoDup (nonceOf <$> ot_inFlightTxs (poolRun samplePool sampleConf sampleHash samplePoolRun (startOn samplePool sampleDB 0))).
Proof.
  apply (nonces_distinct samplePool sampleConf sampleHash sampleDB 0 samplePoolRun sampleDB_ok). run_ok.
Defined.

Lemma iteration_never_panics_witness :
  exists r, (poolIterate samplePool sampleConf sampleAnswers 13 (poolRun samplePool sampleConf sampleHash samplePoolRun (startOn samplePool sampleDB 0))).2 = Ok r.
Proof.
  apply (iteration_never_panics samplePool sampleConf sampleHash sampleDB 0 samplePoolRun sampleAnswers 13 sampleDB_ok). run_ok.
Defined.

(** Both have their price; the first is signed, and the balance is not enough for the second. *)
Definition samplePriced : Orchestrator := poolRun samplePool sampleConf sampleHash (take 6 samplePoolRun) (startOn samplePool sampleDB 0).
Definition sampleSigned : Orchestrator := (ProcessInFlightTransactions samplePool sampleConf (inr 2000000%Z) 4 samplePriced).1.

Lemma signed_gas_within_balance_witness :
  (exists it, ot_inFlightTxs sampleSigned !! 0%nat = Some it /\ exists cost, costOf (it_mtx it) = Some cost /\ (0 + cost <= 2000000)%Z) /\
  (length ∘ signings) <$> ot_inFlightTxs sampleSigned = [1; 0].
Proof.
  split; [|vm_compute; reflexivity].
  destruct (ot_inFlightTxs sampleSigned !! 0%nat) as [it'|] eqn:E'; [|vm_compute in E'; discriminate].
  destruct (ot_inFlightTxs samplePriced !! 0%nat) as [it|] eqn:E; [|vm_compute in E; discriminate].
  destruct (signed_gas_within_balance samplePool sampleConf 2000000 4 samplePriced sampleSigned false 0 it it') as (before & cost & Hb & Hc & Hle); [reflexivity|vm_compute; reflexivity|exact E|exact E'| |].
  - vm_compute in E, E'. injection E as <-. injection E' as <-. vm_compute. discriminate.
  - exists it'. split; [reflexivity|]. exists cost. split; [exact Hc|]. injection Hb as <-. exact Hle.
Defined.

(** Nothing moves for longer than it takes to be stale. *)
Definition sampleStaleRun : list poolStep := [PoolIterate sampleAnswers 0; PoolIterate sampleAnswers 200].

Lemma stale_is_not_stopped_witness :
  ot_state (poolRun samplePool sampleConf sampleHash sampleStaleRun (startOn samplePool sampleDB 0)) = OrchestratorStateStale /\
  ot_stopped (poolStepRun samplePool sampleConf sampleHash (PoolFlush 460)
    (poolStepRun samplePool sampleConf sampleHash (PoolIterate sampleAnswers 400) (poolRun samplePool sampleConf sampleHash sampleStaleRun (startOn samplePool sampleDB 0)))) = false.
Proof.
  assert (Hst : ot_state (poolRun samplePool sampleConf sampleHash sampleStaleRun (startOn samplePool sampleDB 0)) = OrchestratorStateStale) by (vm_compute; reflexivity).
  split; [exact Hst|].
  destruct (stale_is_not_stopped samplePool sampleConf sampleHash sampleDB 0 sampleStaleRun sampleAnswers 400 sampleDB_ok) as (_ & _ & H); [run_ok| |exact Hst|].
  - split; [reflexivity|]. exists 9%Z. right. left.
  - rewrite (H 460%Z); [vm_compute; reflexivity|vm_compute; discriminate].
Defined.
